(* ===== verification/_CoqProject ===== *)
-Q . S2P
Prelude.v
Status.v
Bitmap.v
Allocator.v
Codec.v
KvStore.v
ExtentLocation.v
Net.v
StorageEngine.v
WriteCompletion.v
IoService.v
Persist.v
MemPool.v
MemPoolTheorems.v
Sanitizer.v
IniParser.v
Decimal.v
IniTheorems.v
Config.v
ConfigTheorems.v
TimerThread.v
Enums.v
Blob.v
User.v
Heap.v
EsMgr.v
RgAllocater.v
Placement.v
PlacementRack.v
RgMgr.v
RgTheorems.v
Pool.v
PoolTheorems.v
RouterMgr.v
Services.v
ServicesTheorems.v
Recovery.v
GcMgr.v
GcTheorems.v
SetManager.v
Access.v
AccessTheorems.v
AccessSystem.v
Heartbeats.v
IoConcurrency.v
Ring.v
RingConc.v
Client.v
ClientTheorems.v
ClientServer.v
ClientApi.v
Scrub.v
SpdkWorker.v
SpdkMgr.v
ExtentServer.v
Sender.v
NbdReader.v
NbdServer.v
NbdArgs.v
NbdDevice.v
NbdMgr.v
