(* ===== verification/Prelude.v ===== *)
(** * Cyprestore verification library

    Cyprestore is a replicated block store.  A blob is a virtual disk cut into
    extents; an extent manager places every extent on a replication group of
    extent servers; an extent server keeps its extents on one device; the
    client library turns reads and writes of a blob into requests to the
    servers.  This library models those programs as they are written and
    proves what makes them correct.  Paths below are relative to the
    repository, whose root is src/.

    ** Conventions

    - [uint64_t], [uint32_t] and [int] are [Z]; operations that can leave the
      width wrap explicitly ([wrap64], [wrap32]).  Doubles are the IEEE
      binary64 numbers of [SpecFloat].  A C++ string is a [string] of bytes.
    - A C++ object is a record; a method takes the record and returns the new
      one.  Objects reached through shared pointers are in a table by key and
      the pointers are the keys.
    - A [Status] or an error code is a value.  [None] is undefined behaviour,
      an uncaught exception or a failed [CHECK]; the theorems about well formed
      states show that it is not reached.  [assert] is compiled out in the
      shipped build (src/common.mk) and is not part of the models.
    - A method that holds its lock throughout is one step.  Where the source
      interleaves (the replicated write, the ring, the asynchronous client
      calls, the router cache) the model is a step relation and the theorems
      quantify over every interleaving.
    - Code that is not in the repository is a class whose methods are the
      calls the source makes, with a second class for the documented
      behaviour, and an instance that satisfies it: [RocksDB] (KvStore.v), the
      SPDK device [BDev] (StorageEngine.v), butil's checksum [Crc32c]
      (Codec.v), the collector's calls [GcEnv] (GcMgr.v), DPDK's ring and
      memory [RteRing] and [DmaAlloc] (MemPool.v), the servers behind the
      access service [AccessEnv] (Access.v), the extent servers a scrub asks
      [ScrubEnv] (Scrub.v), the SPDK environment and device [Spdk]
      (SpdkMgr.v), the kernel of a block device [NbdKernel] (NbdDevice.v).
      Between components [EsRouterLaws] (ClientApi.v) states what the client
      relies on while handles are shared.  Clocks, random identifiers,
      answers of system calls and of RPCs are arguments.

    ** Files

    Shared: Prelude.v (integers, lists, maps, tactics), Status.v (status and
    error codes), Codec.v (the cereal archive and the checksummed serializer),
    KvStore.v (RocksStore), Persist.v (agreement of a table and its stored
    copy), Heap.v ([std::priority_queue]), Net.v (extent ids, routers and
    connection pools, src/src/common).

    Extent server, src/src/extentserver: Bitmap.v ([Chunk], [BitmapAllocator],
    [SpaceAlloc]) and Allocator.v (its refinement of a set of used blocks);
    ExtentLocation.v ([ExtentLocationMgr]); StorageEngine.v ([Request], the
    checks, [BareEngine], the device worker); WriteCompletion.v (the
    replicated write as interleaved threads); IoService.v (the RPC handlers
    and completion callbacks); SpdkWorker.v (the workers on their ring),
    SpdkMgr.v (the device and its workers, up and down) and ExtentServer.v (a
    server from [Init] to [Destroy]).

    Extent manager, src/src/extentmanager: Enums.v, Blob.v, User.v, EsMgr.v,
    RgAllocater.v (placement by server, host and rack) with Placement.v and
    PlacementRack.v (the contract [RGAllocater] and its proofs), RgMgr.v and
    RgTheorems.v (replication groups), Pool.v and PoolTheorems.v, RouterMgr.v
    (stored routers and their sharded cache), Services.v and
    ServicesTheorems.v (the RPC handlers and recovery), Recovery.v (the
    process on the store of an earlier one), GcMgr.v and
    GcTheorems.v (the garbage collector).

    Extent server, memory: MemPool.v and MemPoolTheorems.v (the arena, the
    rings of units and the I/O buffers, src/src/common and io_mem.cpp).

    Set manager and access service: SetManager.v (src/src/setmanager),
    Access.v and AccessTheorems.v (src/src/access, against the interface
    [AccessEnv]), AccessSystem.v (the interface discharged by a set manager
    and extent managers), Heartbeats.v (how extent servers join an extent
    manager and extent managers a set manager).

    Start-up: IniParser.v, Decimal.v (numbers as text) and IniTheorems.v (src/src/utils/ini_inner.h and
    ini_parser.cpp), Config.v and ConfigTheorems.v (src/src/common/config.cpp),
    TimerThread.v (src/src/utils/timer_thread.cpp).

    Client library, src/clients: Ring.v and RingConc.v (the request queue,
    alone and under concurrency), IoConcurrency.v (overlapping requests wait),
    Client.v and ClientTheorems.v (blob streams), ClientServer.v (the client
    on the modelled extent servers), ClientApi.v (the cluster object, its
    handles and the C interface), Sender.v (the sender threads and the
    wake-up signal).

    Other programs: NbdReader.v and NbdServer.v (the network block device
    server, src/nbd), NbdArgs.v (its command line), NbdDevice.v (finding,
    setting up, listing and watching a device by ioctl; programs of a monad
    over the log of their system calls) and NbdMgr.v (mapping a blob);
    Sanitizer.v and Scrub.v (the tools that wipe a device and compare the
    replicas of a blob, src/tools).

    ** What the theorems show

    - Space: the allocator hands out aligned, free, in-device ranges and
      refines a set of used blocks ([Allocate_refines_free_set]); extents of a
      server never overlap in any reachable state, whatever writes the
      database refuses ([extents_never_overlap]), and a restart rebuilds the
      table ([restart_recovers_table]); a server that starts has that table
      before it takes a request, and takes its device down in order
      ([extent_server_session]).
    - Data: an accepted write changes no byte outside its extent and a later
      read returns it ([write_stays_in_extent], [read_returns_written]); the
      client's stream is an array of bytes ([stream_is_byte_array]), cut at
      the extents into parts that cover it exactly ([split_parts_exact]); both
      compose to [client_reads_what_it_wrote], from the client's buffer to the
      bytes of a device and back.  All handles of a blob see one blob
      ([handles_share_blob]), and the scrub tool finds replicas that differ
      ([scrub_decides]).
    - Replies: a replicated write is answered exactly once and every
      execution ends ([write_replies_exactly_once]); the answer is faithful
      when [SetResult] is atomic ([write_reply_faithful]) and an interleaving
      of the code as written loses a failure ([lost_replica_failure]); an
      asynchronous client request calls back exactly once
      ([async_calls_back_once]).
    - Placement: replicas are in distinct failure domains
      ([replicas_in_distinct_domains]), extents are charged to existing groups,
      an enabled pool keeps its servers ([enabled_pool_frozen]).
    - Metadata: tables and store agree after every operation, failed writes
      included ([blob_ops_agree]); the router cache is transparent
      ([router_cache_transparent]); the extents of a new blob are routed to
      servers of its pool ([create_blob_routes_extents]); the collector spares
      live blobs and collects deleted ones ([gc_spares_live_blobs],
      [gc_collects_deleted_blob]); an extent manager that is started again
      has the tables of the one before ([manager_restart_recovers]).
    - Concurrency: the ring is first-in first-out under every interleaving
      and never stuck ([ring_fifo], [ring_never_stuck]); requests in flight do
      not overlap within the limits the code has
      ([inflight_requests_disjoint]), where a shard is a set of ranges
      ([shard_refines_range_set]); the device workers lose and repeat no
      request ([device_requests_called_once]) and stop when they are told to
      ([stopped_worker_exits]).
    - Memory: buffers and contexts handed out lie in live memory and are
      exclusive until they are returned ([io_buffers_exclusive]).
    - Sets and users: the set manager offers sets that reported recently and
      the least used of them ([offered_sets_recent], [allocate_set_best]),
      which are extent managers with a pool to give ([allocated_set_backed]);
      the access service sends every request of a user to the extent manager
      of that user ([access_reaches_home]), a created user is found again
      ([created_user_found]), and generated identifiers pass its checks
      ([generated_ids_accepted]).  An extent server takes requests with the
      extent size of its manager only ([es_joins]).
    - Start-up: a printed ini file reads back ([ini_roundtrip]), references
      are expanded when they are acyclic ([get_expands]), and [Config::Init]
      accepts exactly the files it should, with the fields they give
      ([config_init_decides]); the timer thread runs what it should and, with
      its messages off, touches no freed timer ([timer_thread_safe]).
    - Block device and tools: the reader serves the requests of the stream
      ([reader_serves_stream]), each is answered once ([nbd_answers_once]) and
      reads are exact ([nbd_read_exact]); the sender threads do not sleep on
      work ([sender_never_sleeps_on_work]); the sanitizer ends and wipes what
      it reports as wiped ([sanitizer_wipes]).  A command line reads back as
      what it spells ([command_line_roundtrip]), a mapped device serves the
      whole blob ([map_serves_blob]), a free device is found and the mapped
      ones are listed ([unused_device_found], [list_reports_mapped]), and the
      tool closes every descriptor it opened, on every error path
      ([tool_releases_descriptors]).

    Lemmas that show a defect of the code keep their names:
    [Mark_hides_free_blocks], [parameter_check_wraps],
    [failed_soft_delete_hides_blob], [allocate_rg_drops_full_group],
    [retried_init_keeps_stale_group], [late_fill_revives_router],
    [gc_interrupted_blob_stuck], [crossing_request_missed],
    [scheduled_request_uncounted], [zero_size_ring], [zero_senders_accepted],
    [sync_read_ignores_checksum],
    [split_header_replays], [unaligned_write_lost],
    [unknown_command_succeeds], [semaphore_accumulates], [zero_size_refused],
    [swapped_aligned_alloc], [bulk_exceeds_ring], [zero_block_spins],
    [obsolete_hides_fresh], [create_user_failure_ok], [failed_refresh_clears],
    [channel_ignores_port], [update_user_accepts_bad_name],
    [self_reference_diverges], [long_line_split], [access_sample_refused],
    [once_message_reads_freed], [failed_store_close_never_quits],
    [scrub_unwritten_fails], [config_error_ignored], [closed_twice],
    [CloseEnv_error_masked], [accepted_request_left_behind],
    [exit_with_io_in_flight], [failed_close_never_quits],
    [aio_refused_still_completes], [missing_value_ignored],
    [cmdline_cut_at_space], [block_size_check_fails], [first_socket_stays],
    [failed_resize_forgotten], [modprobe_failure_not_negative].

    ** Bounds and fuel

    Loops are structural where the data is.  The others have fuel that a
    theorem shows to be enough: the allocator's search visits each chunk and
    each word once ([Allocate_refines_free_set] has the result, never "out of
    fuel"), heap sifts are bounded by the length of the vector, the shard loop
    of the concurrency controller by its 4096 shards ([check_terminates] says
    exactly when the source does not leave it).  Loops that wait for a fresh
    uuid consume a list of uuids.  The expansion of a configuration value has
    fuel for its calls; [get_expands] and [config_init_decides] show that some
    amount is enough whenever the references are acyclic.  The scrub has fuel for the blocks of
    an extent and for the extents of a blob ([scrub_decides] says how much is
    enough), the command line one turn for each word ([ParseArgs_total]) and
    the list of devices one for each device; the search for a free device
    needs one turn more than its number ([unused_device_found]).
    RingConc.v keeps counters unbounded and
    shows them to the code modulo 2^32; its one premise is that a thread does
    not sleep through 2^32 operations between a load and its exchange.

    ** Not modelled

    Process set-up (main functions, signal handlers, registration of services,
    the set-up of the set manager and of the access service beyond their
    state), logging and metrics, the calls into SPDK, DPDK, brpc, pthread and
    the kernel themselves, the generated protobuf code (a message is its
    fields), the vendored archive and XML libraries beyond the formats the
    source stores, memory orderings weaker than sequential consistency and
    data races on containers, load generators, the command line tools other
    than the sanitizer and the scrub (each function of the RPC client fills
    one request and prints the answer), the channel and the printing of the
    scrub tool, mapping of block devices by netlink (libnl messages and
    callbacks), the modes of the block device server that serve a file or
    nothing, mock servers and tests. *)

From Stdlib Require Export ZArith Lia String.
From stdpp Require Export base numbers list option gmap strings.

#[global] Open Scope Z_scope.
#[global] Arguments String.append !_ _ : simpl nomatch.

(** [lia] with Euclidean division and modulo by constants and variables. *)
Ltac Zify.zify_post_hook ::= Z.div_mod_to_equations.

(** ** Machine integers

    [uint64_t], [uint32_t] and [int] values are [Z]; every operation of the
    source that can leave the width wraps explicitly. *)

Definition u64_max : Z := 18446744073709551615.
Definition wrap64 (x : Z) : Z := x mod 18446744073709551616.
Definition wrap32 (x : Z) : Z := x mod 4294967296.

(** Conversion of a 64-bit integer to [int]. *)
Definition to_int (z : Z) : Z :=
  let w := wrap32 z in if w <? 2147483648 then w else w - 4294967296.

Definition is_u64 (x : Z) : Prop := 0 <= x <= u64_max.
Definition is_u32 (x : Z) : Prop := 0 <= x < 4294967296.

Lemma wrap64_small x : is_u64 x -> wrap64 x = x.
Proof. unfold is_u64, u64_max, wrap64. intros. apply Z.mod_small. lia. Qed.

Lemma wrap64_is_u64 x : is_u64 (wrap64 x).
Proof. unfold is_u64, u64_max, wrap64. lia. Qed.

Lemma wrap32_small x : is_u32 x -> wrap32 x = x.
Proof. unfold is_u32, wrap32. intros. apply Z.mod_small. lia. Qed.

Lemma wrap32_is_u32 x : is_u32 (wrap32 x).
Proof. unfold is_u32, wrap32. lia. Qed.

(** Removes every [wrap64] whose argument is provably in range. *)
Ltac unwrap :=
  repeat match goal with
  | |- context [wrap64 ?x] => rewrite (wrap64_small x) by (unfold is_u64, u64_max in *; lia)
  | H : context [wrap64 ?x] |- _ =>
      rewrite (wrap64_small x) in H by (unfold is_u64, u64_max in *; lia)
  end.

(** Case analysis on the boolean comparison that blocks a goal or hypothesis. *)
Ltac bcase :=
  match goal with
  | |- context [if ?b then _ else _] => destruct b eqn:?
  | H : context [if ?b then _ else _] |- _ => destruct b eqn:?
  end.

(** Boolean facts on [Z] into propositions. *)
Ltac b2p :=
  repeat match goal with
  | H : _ && _ = true |- _ => apply andb_true_iff in H as [? ?]
  | H : _ || _ = false |- _ => apply orb_false_iff in H as [? ?]
  | H : negb _ = true |- _ => apply negb_true_iff in H
  | H : negb _ = false |- _ => apply negb_false_iff in H
  | H : (_ <? _) = true |- _ => apply Z.ltb_lt in H
  | H : (_ <? _) = false |- _ => apply Z.ltb_ge in H
  | H : (_ <=? _) = true |- _ => apply Z.leb_le in H
  | H : (_ <=? _) = false |- _ => apply Z.leb_gt in H
  | H : (_ =? _) = true |- _ => apply Z.eqb_eq in H
  | H : (_ =? _) = false |- _ => apply Z.eqb_neq in H
  end.

(** The development's hint database: bounds of machine integers and the
    frame facts of the components are registered here. *)
Create HintDb cypre discriminated.
#[export] Hint Resolve wrap64_is_u64 wrap32_is_u32 : cypre.

Lemma aligned_mul x k : 0 < k -> x mod k = 0 -> x = x / k * k.
Proof. intros Hk Hm. pose proof (Z_div_mod_eq_full x k). rewrite Hm in H. lia. Qed.

(** ** Half-open ranges of integers *)

Definition in_range (b n i : Z) : bool := (b <=? i) && (i <? b + n).

Lemma in_range_spec b n i : in_range b n i = true <-> b <= i < b + n.
Proof. unfold in_range. rewrite andb_true_iff, Z.leb_le, Z.ltb_lt. lia. Qed.

Lemma in_range_false b n i : in_range b n i = false <-> ~ (b <= i < b + n).
Proof. rewrite <- in_range_spec. destruct (in_range b n i); intuition congruence. Qed.

Lemma in_range_snoc b n i :
  0 <= n -> in_range b (n + 1) i = in_range b n i || (i =? b + n).
Proof.
  intros. apply eq_iff_eq_true.
  rewrite orb_true_iff, !in_range_spec, Z.eqb_eq. lia.
Qed.

(** ** Counting the indices below [n] that satisfy a boolean predicate *)

Fixpoint count_below (p : Z -> bool) (n : nat) : Z :=
  match n with
  | O => 0
  | S m => count_below p m + (if p (Z.of_nat m) then 1 else 0)
  end.

Lemma count_below_bound p n : 0 <= count_below p n <= Z.of_nat n.
Proof. induction n; simpl count_below; [lia|]. destruct (p _); lia. Qed.

Lemma count_below_ext p q n :
  (forall i, 0 <= i < Z.of_nat n -> p i = q i) -> count_below p n = count_below q n.
Proof.
  induction n; simpl; intros H; [done|].
  rewrite IHn by (intros; apply H; lia). rewrite (H (Z.of_nat n)) by lia. done.
Qed.

Lemma count_below_true n : count_below (fun _ => true) n = Z.of_nat n.
Proof. induction n; simpl count_below; lia. Qed.

(** Adding [k] new members inside the range adds [k] to the count. *)
Lemma count_below_update_nat p b k n :
  0 <= b -> b + Z.of_nat k <= Z.of_nat n ->
  (forall i, in_range b (Z.of_nat k) i = true -> p i = false) ->
  count_below (fun i => p i || in_range b (Z.of_nat k) i) n = count_below p n + Z.of_nat k.
Proof.
  intros Hb. revert k. induction n; intros k Hn Hp; simpl count_below.
  - assert (k = O) by lia. subst. lia.
  - destruct (decide (b + Z.of_nat k = Z.of_nat (S n))) as [He|He].
    + destruct k as [|k].
      * rewrite (count_below_ext _ p); [|intros i Hi].
        -- replace (in_range b (Z.of_nat 0) (Z.of_nat n)) with false; [rewrite orb_false_r; lia|].
           symmetry; apply in_range_false; lia.
        -- replace (in_range b (Z.of_nat 0) i) with false; [by rewrite orb_false_r|].
           symmetry; apply in_range_false; lia.
      * rewrite (count_below_ext _ (fun i => p i || in_range b (Z.of_nat k) i)).
        -- rewrite IHn; [|lia|intros i Hi; apply Hp; rewrite in_range_spec in *; lia].
           rewrite (Hp (Z.of_nat n)) by (rewrite in_range_spec; lia).
           replace (in_range b (Z.of_nat (S k)) (Z.of_nat n)) with true; [simpl; lia|].
           symmetry; rewrite in_range_spec; lia.
        -- intros i Hi. f_equal. apply eq_iff_eq_true. rewrite !in_range_spec. lia.
    + rewrite IHn by (auto; lia).
      replace (in_range b (Z.of_nat k) (Z.of_nat n)) with false; [rewrite orb_false_r; lia|].
      symmetry; apply in_range_false; lia.
Qed.

Lemma count_below_update p b k n :
  0 <= b -> 0 <= k -> b + k <= Z.of_nat n ->
  (forall i, in_range b k i = true -> p i = false) ->
  count_below (fun i => p i || in_range b k i) n = count_below p n + k.
Proof.
  intros. rewrite <- (Z2Nat.id k) in * by lia. by apply count_below_update_nat.
Qed.
