(* ===== verification/Status.v ===== *)
(** * Status and error codes

    [common::Status] (src/src/common/status.h), the error codes of
    src/src/common/error_code.h and the constants of
    src/src/common/constants.h that the components share. *)

From S2P Require Import Prelude.

(** ** Error codes *)

Definition CYPRE_OK : Z := 0.
Definition CYPRE_ER_INVALID_ARGUMENT : Z := -1000.
Definition CYPRE_ER_NO_PERMISSION : Z := -1001.
Definition CYPRE_ER_NOT_SUPPORTED : Z := -1002.
Definition CYPRE_ER_TIMEDOUT : Z := -1003.
Definition CYPRE_ER_OUT_OF_MEMORY : Z := -1004.
Definition CYPRE_ER_NET_ERROR : Z := -1005.
Definition CYPRE_C_STREAM_CORRUPT : Z := -2000.
Definition CYPRE_C_DATA_TOO_LARGE : Z := -2001.
Definition CYPRE_C_DEVICE_CLOSED : Z := -2002.
Definition CYPRE_C_INTERNAL_ERROR : Z := -2003.
Definition CYPRE_C_HANDLE_NOT_FOUND : Z := -2004.
Definition CYPRE_C_RING_FULL : Z := -2005.
Definition CYPRE_C_RING_EMPTY : Z := -2006.
Definition CYPRE_C_CRC_ERROR : Z := -2007.
Definition CYPRE_EM_POOL_NOT_FOUND : Z := -3000.
Definition CYPRE_EM_BLOB_NOT_FOUND : Z := -3001.
Definition CYPRE_EM_USER_NOT_FOUND : Z := -3002.
Definition CYPRE_EM_ROUTER_NOT_FOUND : Z := -3003.
Definition CYPRE_EM_ES_NOT_FOUND : Z := -3004.
Definition CYPRE_EM_STORE_ERROR : Z := -3005.
Definition CYPRE_EM_LOAD_ERROR : Z := -3006.
Definition CYPRE_EM_DELETE_ERROR : Z := -3007.
Definition CYPRE_EM_DECODE_ERROR : Z := -3008.
Definition CYPRE_EM_ENCODE_ERROR : Z := -3009.
Definition CYPRE_EM_ES_DUPLICATED : Z := -3010.
Definition CYPRE_EM_POOL_ALREADY_INIT : Z := -3011.
Definition CYPRE_EM_POOL_NOT_READY : Z := -3012.
Definition CYPRE_EM_POOL_DUPLICATED : Z := -3013.
Definition CYPRE_EM_POOL_ALLOCATE_FAIL : Z := -3014.
Definition CYPRE_EM_RG_ALLOCATE_FAIL : Z := -3015.
Definition CYPRE_EM_RG_NOT_FOUND : Z := -3016.
Definition CYPRE_EM_USER_DUPLICATED : Z := -3017.
Definition CYPRE_EM_EXCEED_TIME_LIMIT : Z := -3018.
Definition CYPRE_EM_TRY_AGAIN : Z := -3019.
Definition CYPRE_EM_GET_CONN_ERROR : Z := -3020.
Definition CYPRE_EM_BRPC_SEND_FAIL : Z := -3021.
Definition CYPRE_ES_EXTENT_EMPTY : Z := -4000.
Definition CYPRE_ES_BDEV_NULL : Z := -4001.
Definition CYPRE_ES_DISK_EMPTY : Z := -4002.
Definition CYPRE_ES_DISK_NO_SPACE : Z := -4003.
Definition CYPRE_ES_DISK_NOT_FOUND : Z := -4004.
Definition CYPRE_ES_GET_REQ_UNIT_FAIL : Z := -4005.
Definition CYPRE_ES_PROCESS_REQ_ERROR : Z := -4006.
Definition CYPRE_ES_OPEN_ROCKSDB_ERROR : Z := -4007.
Definition CYPRE_ES_CLOSE_ROCKSDB_ERROR : Z := -4008.
Definition CYPRE_ES_INIT_SPACE_ALLOC_FAIL : Z := -4009.
Definition CYPRE_ES_LOCATION_NOT_FOUND : Z := -4010.
Definition CYPRE_ES_ROCKSDB_STORE_ERROR : Z := -4011.
Definition CYPRE_ES_ROCKSDB_LOAD_ERROR : Z := -4012.
Definition CYPRE_ES_DECODE_ERROR : Z := -4013.
Definition CYPRE_ES_REPLICATE_PART_FAIL : Z := -4014.
Definition CYPRE_ES_READ_CONFIG_ERROR : Z := -4015.
Definition CYPRE_ES_SPDK_INIT_ERROR : Z := -4016.
Definition CYPRE_ES_SPDK_BDEV_INIT_ERROR : Z := -4017.
Definition CYPRE_ES_SPDK_BDEV_OPEN_ERROR : Z := -4018.
Definition CYPRE_ES_SPDK_RPC_CLOSED : Z := -4019.
Definition CYPRE_ES_SPDK_RPC_LISTEN_ERROR : Z := -4020.
Definition CYPRE_ES_SPDK_RPC_REGISTER_ERROR : Z := -4021.
Definition CYPRE_ES_SPDK_THREAD_CREATE_FAIL : Z := -4022.
Definition CYPRE_ES_SPDK_THREAD_NULL : Z := -4023.
Definition CYPRE_ES_PTHREAD_CREATE_ERROR : Z := -4024.
Definition CYPRE_ES_PTHREAD_JOIN_ERROR : Z := -4025.
Definition CYPRE_ES_QUERY_ROUTER_FAIL : Z := -4026.
Definition CYPRE_ES_RTE_RING_CREATE_FAIL : Z := -4027.
Definition CYPRE_ES_RTE_RING_FULL : Z := -4028.
Definition CYPRE_ES_RTE_RING_EMPTY : Z := -4029.
Definition CYPRE_ES_PTHREAD_BIND_CORE_ERROR : Z := -4030.
Definition CYPRE_ES_CHECKSUM_ERROR : Z := -4031.
Definition CYPRE_SM_NOT_READY : Z := -5000.
Definition CYPRE_SM_RESOURCE_EXHAUSTED : Z := -5001.
Definition CYPRE_SM_USER_NOT_FOUND : Z := -5002.
Definition CYPRE_AC_SET_NOT_FOUND : Z := -6000.
Definition CYPRE_AC_CHANNEL_ERROR : Z := -6001.

(** ** Status values *)

Record Status : Type := mkStatus { code : Z; msg : string }.

Definition Status_default : Status := mkStatus CYPRE_OK "".
Definition Status_OK : Status := mkStatus CYPRE_OK "".
Definition Status_InvalidArgument : Status := mkStatus CYPRE_ER_INVALID_ARGUMENT "".
Definition ok (s : Status) : bool := code s =? CYPRE_OK.
Definition IsEmpty (s : Status) : bool := code s =? CYPRE_ES_EXTENT_EMPTY.

#[export] Instance Status_eq_dec : EqDecision Status.
Proof. solve_decision. Defined.

(** ** Constants *)

Definition kUserIdPrefix : string := "user-".
Definition kPoolIdPrefix : string := "pool-".
Definition kRgIdPrefix : string := "rg-".
Definition kBlobIdPrefix : string := "bb-".
Definition kPoolKvPrefix : string := "0x00".
Definition kUserKvPrefix : string := "0x01".
Definition kESKvPrefix : string := "0x02".
Definition kERKvPrefix : string := "0x03".
Definition kRGKvPrefix : string := "0x04".
Definition kBlobKvPrefix : string := "0x05".
Definition kMaxBlobSize : Z := 32 * Z.shiftl 1 40.
Definition kAlignSize : Z := Z.shiftl 4 10.
Definition kMaxReplicaCount : Z := 3.
