(* ===== verification/Bitmap.v ===== *)
(** * Bitmap space allocator

    [Chunk] and [BitmapAllocator] (src/src/extentserver/bitmap_allocator.h and
    .cpp) and [SpaceAlloc] (space_alloc.h and .cpp).  A chunk is a vector of
    64-bit words, one bit per block; the allocator splits the device's blocks
    over chunks of [kMaxBlocksPerChunk] blocks.  Indexing a vector out of range
    is undefined in the source and is [None] here; the theorems show that well
    formed states never get there.  The [assert]s of the source are compiled
    out ([-DNDEBUG], src/common.mk) and are not part of the operations. *)

From S2P Require Import Prelude Status.


Definition kBlocksPerByte : Z := 8.
Definition kBytesPerUnit : Z := 8.
Definition kBlocksPerUnit : Z := 64.
Definition kMaxBlocksPerChunk : Z := 1048576.

Record AUnit : Type := mkAUnit { au_offset : Z; au_size : Z }.

Definition AUnit_default : AUnit := mkAUnit 0 0.

(** ** Chunk *)

Record Chunk : Type := mkChunk {
  chunk_idx_ : Z;
  num_blocks_ : Z;
  num_free_blocks_ : Z;
  last_free_bit_ : Z;
  chunk_block_size_ : Z;
  data_ : list Z
}.

Definition Chunk_new (chunk_idx num_blocks block_size : Z) : Chunk :=
  mkChunk chunk_idx num_blocks num_blocks 0 block_size
    (replicate (Z.to_nat (wrap64 (num_blocks + kBlocksPerUnit - 1) / kBlocksPerUnit)) 0).

Definition Chunk_FreeBlocks (c : Chunk) : Z := num_free_blocks_ c.
Definition Chunk_UsedBlocks (c : Chunk) : Z := wrap64 (num_blocks_ c - Chunk_FreeBlocks c).
Definition avaliable (c : Chunk) (num_blocks : Z) : bool := num_blocks <=? num_free_blocks_ c.
Definition globalBlockIndex (c : Chunk) : Z := wrap64 (chunk_idx_ c * kMaxBlocksPerChunk).
Definition getIndex (begin count : Z) : Z := wrap64 (begin + count) / kBlocksPerUnit.
Definition getOffset (begin count : Z) : Z := wrap64 (begin + count) mod kBlocksPerUnit.

(** The loop of [setBlock]: [n] remaining iterations, the next one is [i]. *)
Fixpoint setBlock_loop (data : list Z) (begin i : Z) (n : nat) : option (list Z) :=
  match n with
  | O => Some data
  | S n' =>
      let index := Z.to_nat (getIndex begin i) in
      let offset := getOffset begin i in
      w ← data !! index;
      setBlock_loop (<[index := Z.lor w (Z.shiftl 1 offset)]> data) begin (i + 1) n'
  end.

Definition setBlock (c : Chunk) (begin end_ : Z) : option Chunk :=
  let count := wrap64 (end_ - begin) in
  data ← setBlock_loop (data_ c) begin 0 (Z.to_nat count);
  Some (mkChunk (chunk_idx_ c) (num_blocks_ c) (wrap64 (num_free_blocks_ c - count))
          end_ (chunk_block_size_ c) data).

Fixpoint unsetBlock_loop (data : list Z) (begin i : Z) (n : nat) : option (list Z) :=
  match n with
  | O => Some data
  | S n' =>
      let index := Z.to_nat (getIndex begin i) in
      let offset := getOffset begin i in
      w ← data !! index;
      unsetBlock_loop
        (<[index := Z.land w (Z.lxor (Z.shiftl 1 offset) u64_max)]> data) begin (i + 1) n'
  end.

Definition unsetBlock (c : Chunk) (begin end_ : Z) : option Chunk :=
  let count := wrap64 (end_ - begin) in
  data ← unsetBlock_loop (data_ c) begin 0 (Z.to_nat count);
  Some (mkChunk (chunk_idx_ c) (num_blocks_ c) (wrap64 (num_free_blocks_ c + count))
          (if begin <? last_free_bit_ c then begin else last_free_bit_ c)
          (chunk_block_size_ c) data).

(** The inner loop of [Chunk::Allocate]: are the [n] blocks from [begin+count]
    on all free? *)
Fixpoint Allocate_scan (data : list Z) (begin count : Z) (n : nat) : option bool :=
  match n with
  | O => Some true
  | S n' =>
      w ← data !! Z.to_nat (getIndex begin count);
      let val := Z.land w (Z.shiftl 1 (getOffset begin count)) in
      if negb (val =? 0) then Some false
      else Allocate_scan data begin (count + 1) n'
  end.

(** The outer loop: [Some (Some begin)] when a free window is found,
    [Some None] when [begin] passes [end_]. *)
Fixpoint Allocate_loop (fuel : nat) (data : list Z) (num_blocks begin end_ : Z)
  : option (option Z) :=
  match fuel with
  | O => None
  | S fuel' =>
      if begin <=? end_ then
        free ← Allocate_scan data begin 0 (Z.to_nat num_blocks);
        if (free : bool) then Some (Some begin)
        else Allocate_loop fuel' data num_blocks (wrap64 (begin + num_blocks)) end_
      else Some None
  end.

(** Each iteration advances [begin] by at least one block or ends, so
    [num_blocks_ + 2] iterations are enough. *)
Definition Allocate_fuel (c : Chunk) : nat := S (S (Z.to_nat (num_blocks_ c))).

Definition Chunk_Allocate (c : Chunk) (num_blocks : Z) (aunit : AUnit)
  : option (Status * AUnit * Chunk) :=
  if negb (avaliable c num_blocks) then
    Some (mkStatus CYPRE_ES_DISK_NO_SPACE "no enough free blocks", aunit, c)
  else
    let end_ := wrap64 (num_blocks_ c - num_blocks) in
    r ← Allocate_loop (Allocate_fuel c) (data_ c) num_blocks (last_free_bit_ c) end_;
    match r with
    | Some begin =>
        let aunit' := mkAUnit
          (wrap64 (wrap64 (globalBlockIndex c + begin) * chunk_block_size_ c))
          (wrap64 (num_blocks * chunk_block_size_ c)) in
        c' ← setBlock c begin (wrap64 (begin + num_blocks));
        Some (Status_default, aunit', c')
    | None => Some (mkStatus CYPRE_ES_DISK_NO_SPACE "no enough space", aunit, c)
    end.

Definition Chunk_Mark (c : Chunk) (offset size : Z) : option Chunk :=
  let block_idx := offset / chunk_block_size_ c in
  let begin := wrap64 (block_idx - globalBlockIndex c) in
  let end_ := wrap64 (begin + size / chunk_block_size_ c) in
  setBlock c begin end_.

Definition Chunk_Free (c : Chunk) (offset size : Z) : option Chunk :=
  let block_idx := offset / chunk_block_size_ c in
  let begin := wrap64 (block_idx - globalBlockIndex c) in
  let end_ := wrap64 (begin + size / chunk_block_size_ c) in
  unsetBlock c begin end_.

(** ** BitmapAllocator *)

Record BitmapAllocator : Type := mkBitmapAllocator {
  block_size_ : Z;
  capacity_ : Z;
  chunks_ : list Chunk
}.

Definition NumBlocks (a : BitmapAllocator) : Z := capacity_ a / block_size_ a.
Definition NumChunks (a : BitmapAllocator) : Z :=
  wrap64 (NumBlocks a + kMaxBlocksPerChunk - 1) / kMaxBlocksPerChunk.
Definition Empty (a : BitmapAllocator) : bool := NumChunks a =? 0.
Definition calcBlocksBySize (a : BitmapAllocator) (size : Z) : Z :=
  wrap64 (size + block_size_ a - 1) / block_size_ a.
Definition calcChunkIdxByOffset (a : BitmapAllocator) (offset : Z) : Z :=
  let block_index := offset / block_size_ a in
  block_index / kMaxBlocksPerChunk.

(** The sums of [UsedBlocks] and [FreeBlocks] over the first [n] chunks. *)
Fixpoint sum_chunks (f : Chunk -> Z) (chunks : list Chunk) (i : nat) (n : nat) (acc : Z)
  : option Z :=
  match n with
  | O => Some acc
  | S n' => c ← chunks !! i; sum_chunks f chunks (S i) n' (wrap64 (acc + f c))
  end.

Definition BitmapAllocator_UsedBlocks (a : BitmapAllocator) : option Z :=
  sum_chunks Chunk_UsedBlocks (chunks_ a) 0 (Z.to_nat (NumChunks a)) 0.
Definition BitmapAllocator_UsedSize (a : BitmapAllocator) : option Z :=
  u ← BitmapAllocator_UsedBlocks a; Some (wrap64 (u * block_size_ a)).
Definition BitmapAllocator_FreeBlocks (a : BitmapAllocator) : option Z :=
  sum_chunks Chunk_FreeBlocks (chunks_ a) 0 (Z.to_nat (NumChunks a)) 0.

(** The loop of [Init]: [n] chunks from index [i] on, [num_blocks] blocks left. *)
Fixpoint Init_chunks (block_size num_blocks i : Z) (n : nat) : list Chunk :=
  match n with
  | O => []
  | S n' =>
      let blocks_per_chunk :=
        if kMaxBlocksPerChunk <? num_blocks then kMaxBlocksPerChunk else num_blocks in
      Chunk_new i blocks_per_chunk block_size
        :: Init_chunks block_size (wrap64 (num_blocks - blocks_per_chunk)) (i + 1) n'
  end.

(** [None]: the members are not set. *)
Definition BitmapAllocator_Init (block_size capacity : Z) : Status * option BitmapAllocator :=
  if (block_size =? 0) || negb (block_size mod kAlignSize =? 0) || (capacity <? block_size) then
    (mkStatus CYPRE_ER_INVALID_ARGUMENT "Invalid block_size or capacity", None)
  else
    let a := mkBitmapAllocator block_size capacity [] in
    (Status_default,
     Some (mkBitmapAllocator block_size capacity
             (Init_chunks block_size (NumBlocks a) 0 (Z.to_nat (NumChunks a))))).

(** The round-robin loop of [Allocate]: [n] chunks left to try, [begin] is the
    next one, [s] the status of the last attempt. *)
Fixpoint BitmapAllocator_Allocate_loop (a : BitmapAllocator) (num_blocks begin : Z) (n : nat)
    (s : Status) (aunit : AUnit) : option (Status * AUnit * BitmapAllocator) :=
  match n with
  | O => Some (s, aunit, a)
  | S n' =>
      let index := Z.to_nat (begin mod Z.of_nat (length (chunks_ a))) in
      c ← chunks_ a !! index;
      '(s', aunit', c') ← Chunk_Allocate c num_blocks aunit;
      let a' := mkBitmapAllocator (block_size_ a) (capacity_ a) (<[index := c']> (chunks_ a)) in
      if ok s' then Some (s', aunit', a')
      else BitmapAllocator_Allocate_loop a' num_blocks (begin + 1) n' s' aunit'
  end.

(** [rand] is the value [butil::fast_rand()] returns. *)
Definition BitmapAllocator_Allocate (rand : Z) (a : BitmapAllocator) (want_size : Z)
    (aunit : AUnit) : option (Status * AUnit * BitmapAllocator) :=
  if Empty a then Some (mkStatus CYPRE_ES_DISK_EMPTY "bitmap allocator empty", aunit, a)
  else
    let num_blocks := calcBlocksBySize a want_size in
    if num_blocks =? 0 then
      Some (mkStatus CYPRE_ER_INVALID_ARGUMENT "invalid want_size", aunit, a)
    else
      let num_chunks := Z.of_nat (length (chunks_ a)) in
      BitmapAllocator_Allocate_loop a num_blocks (rand mod num_chunks)
        (Z.to_nat num_chunks) Status_default aunit.

Definition on_chunk (a : BitmapAllocator) (offset : Z) (f : Chunk -> option Chunk)
  : option BitmapAllocator :=
  let chunk_index := Z.to_nat (calcChunkIdxByOffset a offset) in
  c ← chunks_ a !! chunk_index;
  c' ← f c;
  Some (mkBitmapAllocator (block_size_ a) (capacity_ a) (<[chunk_index := c']> (chunks_ a))).

Definition BitmapAllocator_Free (a : BitmapAllocator) (offset size : Z) : option BitmapAllocator :=
  on_chunk a offset (fun c => Chunk_Free c offset size).

Definition BitmapAllocator_Mark (a : BitmapAllocator) (offset size : Z) : option BitmapAllocator :=
  on_chunk a offset (fun c => Chunk_Mark c offset size).

(** ** SpaceAlloc *)

Definition kAllocateBlockSize : Z := Z.shiftl 1 20.

Record SpaceAlloc : Type := mkSpaceAlloc {
  disk_capacity_ : Z;
  bitmap_alloc_ : option BitmapAllocator
}.

Definition SpaceAlloc_new (disk_capacity : Z) : SpaceAlloc := mkSpaceAlloc disk_capacity None.

Definition SpaceAlloc_Init (sa : SpaceAlloc) : Z * SpaceAlloc :=
  let '(s, alloc) := BitmapAllocator_Init kAllocateBlockSize (disk_capacity_ sa) in
  if negb (ok s) then (-1, sa) else (0, mkSpaceAlloc (disk_capacity_ sa) alloc).

Definition SpaceAlloc_Allocate (rand : Z) (sa : SpaceAlloc) (want_size : Z) (aunit : AUnit)
  : option (Status * AUnit * SpaceAlloc) :=
  a ← bitmap_alloc_ sa;
  '(s, aunit', a') ← BitmapAllocator_Allocate rand a want_size aunit;
  let sa' := mkSpaceAlloc (disk_capacity_ sa) (Some a') in
  if negb (ok s) then Some (s, aunit', sa') else Some (Status_default, aunit', sa').

Definition SpaceAlloc_Free (sa : SpaceAlloc) (offset size : Z) : option SpaceAlloc :=
  a ← bitmap_alloc_ sa;
  a' ← BitmapAllocator_Free a offset size;
  Some (mkSpaceAlloc (disk_capacity_ sa) (Some a')).

Definition SpaceAlloc_Mark (sa : SpaceAlloc) (offset size : Z) : option SpaceAlloc :=
  a ← bitmap_alloc_ sa;
  a' ← BitmapAllocator_Mark a offset size;
  Some (mkSpaceAlloc (disk_capacity_ sa) (Some a')).

(** ** Bits of the vector *)

Definition bit (data : list Z) (j : Z) : bool :=
  match data !! Z.to_nat (j / kBlocksPerUnit) with
  | Some w => Z.testbit w (j mod kBlocksPerUnit)
  | None => false
  end.

Definition words_ok (data : list Z) : Prop := Forall is_u64 data.

Lemma testbit_lor_shift w o k :
  0 <= o -> 0 <= k -> Z.testbit (Z.lor w (Z.shiftl 1 o)) k = Z.testbit w k || (k =? o).
Proof.
  intros. rewrite Z.lor_spec, Z.shiftl_1_l, Z.pow2_bits_eqb by lia.
  by rewrite (Z.eqb_sym o k).
Qed.

Lemma testbit_clear w o k :
  is_u64 w -> 0 <= o < 64 -> 0 <= k ->
  Z.testbit (Z.land w (Z.lxor (Z.shiftl 1 o) u64_max)) k = Z.testbit w k && negb (k =? o).
Proof.
  intros Hw Ho Hk. rewrite Z.land_spec, Z.lxor_spec, Z.shiftl_1_l, Z.pow2_bits_eqb by lia.
  rewrite (Z.eqb_sym o k). change u64_max with (Z.ones 64).
  destruct (Z.lt_ge_cases k 64).
  - rewrite Z.ones_spec_low by lia. by rewrite xorb_true_r.
  - replace (Z.testbit w k) with false; [done|]. symmetry.
    destruct (Z.eq_dec w 0) as [->|]; [apply Z.bits_0|].
    unfold is_u64, u64_max in Hw. apply Z.bits_above_log2; [lia|].
    apply Z.lt_le_trans with 64; [|lia]. apply Z.log2_lt_pow2; lia.
Qed.

Lemma is_u64_lor_shift w o : is_u64 w -> 0 <= o < 64 -> is_u64 (Z.lor w (Z.shiftl 1 o)).
Proof.
  unfold is_u64, u64_max. intros Hw Ho. rewrite Z.shiftl_1_l.
  assert (0 <= Z.lor w (2 ^ o)) by (apply Z.lor_nonneg; lia).
  split; [done|]. destruct (Z.eq_dec (Z.lor w (2 ^ o)) 0); [lia|].
  assert (Z.lor w (2 ^ o) < 2 ^ 64); [|lia]. apply Z.log2_lt_pow2; [lia|].
  rewrite Z.log2_lor, Z.log2_pow2 by lia.
  destruct (Z.eq_dec w 0) as [->|]; [simpl; lia|].
  assert (Z.log2 w < 64) by (apply Z.log2_lt_pow2; lia). lia.
Qed.

Lemma is_u64_land w m : is_u64 w -> 0 <= m -> is_u64 (Z.land w m).
Proof.
  unfold is_u64. intros Hw Hm. split; [apply Z.land_nonneg; lia|].
  assert (Z.land w m <= w); [|lia].
  rewrite Z.land_comm. apply Z.ldiff_le; [lia|].
  apply Z.bits_inj'. intros k Hk. rewrite Z.ldiff_spec, Z.land_spec, Z.bits_0.
  by destruct (Z.testbit m k), (Z.testbit w k).
Qed.

Lemma clear_mask_nonneg o : 0 <= o -> 0 <= Z.lxor (Z.shiftl 1 o) u64_max.
Proof. intros. apply Z.lxor_nonneg. rewrite Z.shiftl_1_l. unfold u64_max. lia. Qed.

Lemma land_shift_eqb0 w o :
  0 <= o -> (Z.land w (Z.shiftl 1 o) =? 0) = negb (Z.testbit w o).
Proof.
  intros Ho. rewrite Z.shiftl_1_l. destruct (Z.testbit w o) eqn:E; simpl.
  - apply Z.eqb_neq. intros H0.
    assert (Z.testbit (Z.land w (2 ^ o)) o = true); [|rewrite H0, Z.bits_0 in *; done].
    by rewrite Z.land_spec, E, Z.pow2_bits_true.
  - apply Z.eqb_eq, Z.bits_inj'. intros k Hk.
    rewrite Z.land_spec, Z.pow2_bits_eqb, Z.bits_0 by lia.
    destruct (Z.eqb_spec o k) as [<-|]; [by rewrite E|by rewrite andb_false_r].
Qed.

(** A change of one word that changes only bit [j] of the vector. *)
Lemma bit_insert data j w' f (g : bool -> bool) :
  0 <= j -> (Z.to_nat (j / kBlocksPerUnit) < length data)%nat ->
  (forall w, data !! Z.to_nat (j / kBlocksPerUnit) = Some w ->
     w' = f w /\ forall k, 0 <= k -> Z.testbit (f w) k =
       if k =? j mod kBlocksPerUnit then g (Z.testbit w k) else Z.testbit w k) ->
  forall i, 0 <= i ->
  bit (<[Z.to_nat (j / kBlocksPerUnit) := w']> data) i =
    if i =? j then g (bit data i) else bit data i.
Proof.
  unfold bit, kBlocksPerUnit. intros Hj Hlen Hw i Hi.
  destruct (lookup_lt_is_Some_2 data (Z.to_nat (j / 64))) as [w E]; [lia|].
  destruct (Hw w E) as [-> Hf].
  destruct (decide (i / 64 = j / 64)) as [e|ne].
  - rewrite e, list_lookup_insert_eq, E by lia. rewrite Hf by lia.
    replace (i mod 64 =? j mod 64) with (i =? j); [done|].
    apply eq_iff_eq_true. rewrite !Z.eqb_eq. lia.
  - rewrite list_lookup_insert_ne by lia.
    replace (i =? j) with false; [done|]. symmetry. apply Z.eqb_neq. congruence.
Qed.

(** Both update loops are one loop over a word update [f w offset]. *)
Fixpoint update_loop (f : Z -> Z -> Z) (data : list Z) (begin i : Z) (n : nat)
  : option (list Z) :=
  match n with
  | O => Some data
  | S n' =>
      w ← data !! Z.to_nat (getIndex begin i);
      update_loop f (<[Z.to_nat (getIndex begin i) := f w (getOffset begin i)]> data)
        begin (i + 1) n'
  end.

Definition set_word (w o : Z) : Z := Z.lor w (Z.shiftl 1 o).
Definition clear_word (w o : Z) : Z := Z.land w (Z.lxor (Z.shiftl 1 o) u64_max).

Lemma setBlock_loop_update n data begin i :
  setBlock_loop data begin i n = update_loop set_word data begin i n.
Proof.
  revert data i. induction n; intros; [done|]. simpl.
  destruct (data !! _); [apply IHn|done].
Qed.

Lemma unsetBlock_loop_update n data begin i :
  unsetBlock_loop data begin i n = update_loop clear_word data begin i n.
Proof.
  revert data i. induction n; intros; [done|]. simpl.
  destruct (data !! _); [apply IHn|done].
Qed.

(** The update loop touches exactly the bits of its range. *)
Lemma update_loop_spec f (g : bool -> bool) n :
  (forall w o, is_u64 w -> 0 <= o < 64 -> is_u64 (f w o)) ->
  (forall w o k, is_u64 w -> 0 <= o < 64 -> 0 <= k ->
     Z.testbit (f w o) k = if k =? o then g (Z.testbit w k) else Z.testbit w k) ->
  (forall b, g (g b) = g b) ->
  forall data begin i,
  words_ok data -> 0 <= begin -> 0 <= i ->
  begin + i + Z.of_nat n <= kBlocksPerUnit * Z.of_nat (length data) ->
  begin + i + Z.of_nat n <= u64_max ->
  exists data', update_loop f data begin i n = Some data' /\
    words_ok data' /\ length data' = length data /\
    forall j, 0 <= j -> bit data' j =
      if in_range (begin + i) (Z.of_nat n) j then g (bit data j) else bit data j.
Proof.
  intros Hfu Hft Hgg. induction n as [|n IH]; intros data begin i Hw Hb Hi Hl Hm.
  { exists data. repeat split; auto. intros j Hj. bcase; [|done].
    apply in_range_spec in Heqb. lia. }
  simpl. unfold getIndex, getOffset. unwrap. set (j0 := begin + i) in *.
  assert (Z.to_nat (j0 / kBlocksPerUnit) < length data)%nat by (unfold kBlocksPerUnit in *; lia).
  destruct (lookup_lt_is_Some_2 data (Z.to_nat (j0 / kBlocksPerUnit))) as [w E]; [done|].
  rewrite E. simpl.
  assert (Hwu : is_u64 w) by (eapply Forall_lookup_1; eauto).
  assert (Ho : 0 <= j0 mod kBlocksPerUnit < 64) by (unfold kBlocksPerUnit; lia).
  set (d1 := <[Z.to_nat (j0 / kBlocksPerUnit) := f w (j0 mod kBlocksPerUnit)]> data).
  assert (Hl1 : length d1 = length data) by (unfold d1; apply length_insert).
  destruct (IH d1 begin (i + 1)) as (d' & -> & Hw' & Hlen' & Hbit); try lia.
  { apply Forall_insert; auto. }
  exists d'. repeat split; auto; [lia|]. intros j Hj. rewrite Hbit by done. unfold d1.
  rewrite (bit_insert data j0 _ (fun w => f w (j0 mod kBlocksPerUnit)) g); auto; [|lia|].
  - destruct (Z.eqb_spec j j0) as [->|Hne].
    + replace (in_range j0 _ j0) with true by (symmetry; apply in_range_spec; lia).
      by destruct (in_range _ _ _).
    + replace (in_range (begin + (i + 1)) (Z.of_nat n) j) with (in_range j0 (Z.of_nat (S n)) j); [done|].
      apply eq_iff_eq_true. rewrite !in_range_spec. lia.
  - intros w0 E0. assert (w0 = w) as -> by congruence. auto.
Qed.

Lemma setBlock_loop_spec n data begin i :
  words_ok data -> 0 <= begin -> 0 <= i ->
  begin + i + Z.of_nat n <= kBlocksPerUnit * Z.of_nat (length data) ->
  begin + i + Z.of_nat n <= u64_max ->
  exists data', setBlock_loop data begin i n = Some data' /\
    words_ok data' /\ length data' = length data /\
    forall j, 0 <= j -> bit data' j = bit data j || in_range (begin + i) (Z.of_nat n) j.
Proof.
  intros. rewrite setBlock_loop_update.
  destruct (update_loop_spec set_word (fun _ => true) n) with data begin i
    as (d' & ? & ? & ? & Hb); auto.
  - intros. by apply is_u64_lor_shift.
  - intros. unfold set_word. rewrite testbit_lor_shift by lia.
    destruct (_ =? _); [apply orb_true_r|apply orb_false_r].
  - exists d'. repeat split; auto. intros j Hj. rewrite Hb by done.
    destruct (in_range _ _ _); [by rewrite orb_true_r|by rewrite orb_false_r].
Qed.

Lemma unsetBlock_loop_spec n data begin i :
  words_ok data -> 0 <= begin -> 0 <= i ->
  begin + i + Z.of_nat n <= kBlocksPerUnit * Z.of_nat (length data) ->
  begin + i + Z.of_nat n <= u64_max ->
  exists data', unsetBlock_loop data begin i n = Some data' /\
    words_ok data' /\ length data' = length data /\
    forall j, 0 <= j -> bit data' j = bit data j && negb (in_range (begin + i) (Z.of_nat n) j).
Proof.
  intros. rewrite unsetBlock_loop_update.
  destruct (update_loop_spec clear_word (fun _ => false) n) with data begin i
    as (d' & ? & ? & ? & Hb); auto.
  - intros. apply is_u64_land; [done|]. apply clear_mask_nonneg. lia.
  - intros. unfold clear_word. rewrite testbit_clear by (done || lia).
    destruct (_ =? _); [apply andb_false_r|apply andb_true_r].
  - exists d'. repeat split; auto. intros j Hj. rewrite Hb by done.
    destruct (in_range _ _ _); [by rewrite andb_false_r|by rewrite andb_true_r].
Qed.

(** ** Chunk invariant *)

(** Block [j] of the chunk is in use. *)
Definition Chunk_used (c : Chunk) (j : Z) : bool := bit (data_ c) j.

Definition chunk_range_free (c : Chunk) (b n : Z) : Prop :=
  forall j, in_range b n j = true -> Chunk_used c j = false.
Definition chunk_range_used (c : Chunk) (b n : Z) : Prop :=
  forall j, in_range b n j = true -> Chunk_used c j = true.

Record wf_chunk (c : Chunk) : Prop := {
  wc_idx : 0 <= chunk_idx_ c;
  wc_bs : 0 < chunk_block_size_ c;
  wc_nb : 0 < num_blocks_ c <= kMaxBlocksPerChunk;
  wc_len : Z.of_nat (length (data_ c)) = (num_blocks_ c + 63) / 64;
  wc_words : words_ok (data_ c);
  wc_free : num_free_blocks_ c =
    num_blocks_ c - count_below (Chunk_used c) (Z.to_nat (num_blocks_ c));
  wc_last : 0 <= last_free_bit_ c <= num_blocks_ c;
  wc_addr : (chunk_idx_ c * kMaxBlocksPerChunk + num_blocks_ c) * chunk_block_size_ c <= u64_max
}.

Lemma wf_free_bound c : wf_chunk c -> 0 <= num_free_blocks_ c <= num_blocks_ c.
Proof.
  intros W. rewrite (wc_free c W).
  pose proof (count_below_bound (Chunk_used c) (Z.to_nat (num_blocks_ c))).
  pose proof (wc_nb c W). lia.
Qed.

(** The address arithmetic of a well formed chunk stays below 2^64. *)
Lemma wf_global c : wf_chunk c ->
  globalBlockIndex c = chunk_idx_ c * kMaxBlocksPerChunk /\
  chunk_idx_ c * kMaxBlocksPerChunk + num_blocks_ c <= u64_max.
Proof.
  intros W. pose proof (wc_addr c W). pose proof (wc_idx c W). pose proof (wc_bs c W).
  pose proof (wc_nb c W). unfold globalBlockIndex.
  assert (0 < chunk_idx_ c * kMaxBlocksPerChunk + num_blocks_ c)
    by (unfold kMaxBlocksPerChunk; lia).
  assert (chunk_idx_ c * kMaxBlocksPerChunk + num_blocks_ c <= u64_max).
  { etransitivity; [|eassumption]. apply Z.le_mul_diag_r; lia. }
  unfold kMaxBlocksPerChunk, u64_max in *. unwrap. lia.
Qed.

Lemma setBlock_spec c b n :
  wf_chunk c -> 0 <= b -> 0 <= n -> b + n <= num_blocks_ c -> chunk_range_free c b n ->
  exists c', setBlock c b (b + n) = Some c' /\ wf_chunk c' /\
    chunk_idx_ c' = chunk_idx_ c /\ num_blocks_ c' = num_blocks_ c /\
    chunk_block_size_ c' = chunk_block_size_ c /\
    num_free_blocks_ c' = num_free_blocks_ c - n /\ last_free_bit_ c' = b + n /\
    forall j, 0 <= j -> Chunk_used c' j = Chunk_used c j || in_range b n j.
Proof.
  intros W Hb Hn Hbn Hfree. pose proof (wc_nb c W). pose proof (wc_len c W).
  assert (Hcount : count_below (fun j => Chunk_used c j || in_range b n j)
      (Z.to_nat (num_blocks_ c)) = count_below (Chunk_used c) (Z.to_nat (num_blocks_ c)) + n).
  { apply count_below_update; [lia..|done]. }
  pose proof (count_below_bound (fun j => Chunk_used c j || in_range b n j) (Z.to_nat (num_blocks_ c))).
  unfold kMaxBlocksPerChunk in *. unfold setBlock. replace (b + n - b) with n by lia.
  pose proof (wf_free_bound c W). pose proof (wc_free c W). unwrap.
  destruct (setBlock_loop_spec (Z.to_nat n) (data_ c) b 0) as (d & -> & Hw & Hl & Hbit);
    unfold kBlocksPerUnit, u64_max; try lia; [apply W|].
  rewrite Z.add_0_r, Z2Nat.id in Hbit by lia. simpl. eexists; split; [done|].
  simpl. repeat split; simpl; auto; try apply W; try lia.
  - unfold Chunk_used; simpl. rewrite (count_below_ext (bit d) (fun j => Chunk_used c j || in_range b n j)); [lia|].
    intros; apply Hbit; lia.
Qed.

Lemma unsetBlock_spec c b n :
  wf_chunk c -> 0 <= b -> 0 <= n -> b + n <= num_blocks_ c -> chunk_range_used c b n ->
  exists c', unsetBlock c b (b + n) = Some c' /\ wf_chunk c' /\
    chunk_idx_ c' = chunk_idx_ c /\ num_blocks_ c' = num_blocks_ c /\
    chunk_block_size_ c' = chunk_block_size_ c /\
    num_free_blocks_ c' = num_free_blocks_ c + n /\
    last_free_bit_ c' = Z.min b (last_free_bit_ c) /\
    forall j, 0 <= j -> Chunk_used c' j = Chunk_used c j && negb (in_range b n j).
Proof.
  intros W Hb Hn Hbn Hused. pose proof (wc_nb c W). pose proof (wc_len c W).
  set (p := fun j => Chunk_used c j && negb (in_range b n j)).
  assert (Hcount : count_below (Chunk_used c) (Z.to_nat (num_blocks_ c)) =
      count_below p (Z.to_nat (num_blocks_ c)) + n).
  { rewrite (count_below_ext (Chunk_used c) (fun j => p j || in_range b n j)).
    - apply count_below_update; [lia..|]. intros i Hi. unfold p. by rewrite Hi, andb_false_r.
    - intros i Hi. unfold p. destruct (in_range b n i) eqn:E; simpl.
      + rewrite andb_false_r. by apply Hused.
      + by rewrite andb_true_r, orb_false_r. }
  pose proof (count_below_bound p (Z.to_nat (num_blocks_ c))).
  pose proof (count_below_bound (Chunk_used c) (Z.to_nat (num_blocks_ c))).
  unfold kMaxBlocksPerChunk in *. unfold unsetBlock. replace (b + n - b) with n by lia.
  pose proof (wf_free_bound c W). pose proof (wc_free c W). unwrap.
  destruct (unsetBlock_loop_spec (Z.to_nat n) (data_ c) b 0) as (d & -> & Hw & Hl & Hbit);
    unfold kBlocksPerUnit, u64_max; try lia; [apply W|].
  rewrite Z.add_0_r, Z2Nat.id in Hbit by lia. simpl. pose proof (wc_last c W).
  eexists; split; [done|]. simpl. repeat split; simpl; auto; try apply W; try lia.
  - unfold Chunk_used; simpl. rewrite (count_below_ext (bit d) p); [lia|].
    intros; apply Hbit; lia.
  - bcase; b2p; lia.
  - bcase; b2p; lia.
  - bcase; b2p; lia.
Qed.

(** ** The search loop *)

Lemma Allocate_scan_spec n : forall data begin count,
  0 <= begin -> 0 <= count ->
  begin + count + Z.of_nat n <= kBlocksPerUnit * Z.of_nat (length data) ->
  begin + count + Z.of_nat n <= u64_max ->
  exists r, Allocate_scan data begin count n = Some r /\
    (r = true <-> forall j, in_range (begin + count) (Z.of_nat n) j = true -> bit data j = false).
Proof.
  induction n as [|n IH]; intros data begin count Hb Hc Hl Hm.
  { exists true. split; [done|]. split; [|done]. intros _ j Hj.
    apply in_range_spec in Hj. lia. }
  simpl. unfold getIndex, getOffset. unwrap. set (j0 := begin + count) in *.
  destruct (lookup_lt_is_Some_2 data (Z.to_nat (j0 / kBlocksPerUnit))) as [w E].
  { unfold kBlocksPerUnit in *; lia. }
  rewrite E. simpl. rewrite land_shift_eqb0 by (unfold kBlocksPerUnit; lia).
  assert (Hj0 : bit data j0 = Z.testbit w (j0 mod kBlocksPerUnit)) by (unfold bit; by rewrite E).
  rewrite <- Hj0, negb_involutive. destruct (bit data j0) eqn:Hbit.
  - exists false. split; [done|]. split; [done|]. intros H. rewrite H in Hbit; [done|].
    apply in_range_spec. lia.
  - destruct (IH data begin (count + 1)) as (r & -> & Hr); try lia.
    exists r. split; [done|]. rewrite Hr. split; intros H j Hj.
    + destruct (Z.eq_dec j j0) as [->|]; [done|]. apply H. rewrite in_range_spec in *. lia.
    + apply H. rewrite in_range_spec in *. lia.
Qed.

(** Windows of [n] blocks the search looks at, from [b] on. *)
Definition window (b n k : Z) : Z := b + k * n.

Lemma Allocate_loop_spec fuel : forall c n b e,
  wf_chunk c -> 0 < n -> e = num_blocks_ c - n -> 0 <= e -> 0 <= b ->
  Z.max 0 (e - b + 1) < Z.of_nat fuel ->
  exists r, Allocate_loop fuel (data_ c) n b e = Some r /\
    match r with
    | Some b' => exists k, 0 <= k /\ b' = window b n k /\ b' + n <= num_blocks_ c /\
        chunk_range_free c b' n /\ forall k', 0 <= k' < k -> ~ chunk_range_free c (window b n k') n
    | None => forall k, 0 <= k -> window b n k + n <= num_blocks_ c ->
        ~ chunk_range_free c (window b n k) n
    end.
Proof.
  induction fuel as [|f IH]; intros c n b e W Hn He He0 Hb Hf.
  { lia. }
  pose proof (wc_nb c W). pose proof (wc_len c W). unfold kMaxBlocksPerChunk in *.
  simpl. destruct (Z.leb_spec b e).
  - destruct (Allocate_scan_spec (Z.to_nat n) (data_ c) b 0) as (r & -> & Hr);
      unfold kBlocksPerUnit, u64_max; try lia.
    rewrite Z.add_0_r, Z2Nat.id in Hr by lia. simpl. destruct r.
    + exists (Some b). split; [done|]. exists 0. unfold window.
      repeat split; try lia. exact (proj1 Hr eq_refl).
    + unwrap. destruct (IH c n (b + n) e) as (r & -> & Hres); try lia; auto.
      exists r. split; [done|].
      assert (Hn0 : ~ chunk_range_free c (window b n 0) n).
      { unfold window. rewrite Z.mul_0_l, Z.add_0_r. intros Hfr.
        discriminate (proj2 Hr Hfr). }
      assert (Hshift : forall k, window b n k = window (b + n) n (k - 1)) by (unfold window; lia).
      destruct r as [b'|].
      * destruct Hres as (k & Hk & -> & Hle & Hfr & Hmin). exists (k + 1).
        repeat split; auto; try lia; [unfold window; lia|].
        intros k' Hk'. destruct (Z.eq_dec k' 0) as [->|]; [done|].
        rewrite Hshift. apply Hmin. lia.
      * intros k Hk Hle. destruct (Z.eq_dec k 0) as [->|]; [done|].
        rewrite Hshift in *. apply Hres; lia.
  - exists None. split; [done|]. intros k Hk Hle. unfold window in Hle. nia.
Qed.

(** ** Chunk operations *)

(** What a chunk keeps whatever the operation. *)
Definition same_shape (c c' : Chunk) : Prop :=
  chunk_idx_ c' = chunk_idx_ c /\ num_blocks_ c' = num_blocks_ c /\
  chunk_block_size_ c' = chunk_block_size_ c.

(** No window the search looks at is free. *)
Definition no_window (c : Chunk) (n : Z) : Prop :=
  num_free_blocks_ c < n \/
  forall k, 0 <= k -> window (last_free_bit_ c) n k + n <= num_blocks_ c ->
    ~ chunk_range_free c (window (last_free_bit_ c) n k) n.

Lemma Chunk_Allocate_spec c n au :
  wf_chunk c -> 0 < n ->
  exists s au' c', Chunk_Allocate c n au = Some (s, au', c') /\
    ((s = Status_default /\ wf_chunk c' /\ same_shape c c' /\
      exists b k, 0 <= b /\ b + n <= num_blocks_ c /\ chunk_range_free c b n /\
        0 <= k /\ b = window (last_free_bit_ c) n k /\
        (forall k', 0 <= k' < k -> ~ chunk_range_free c (window (last_free_bit_ c) n k') n) /\
        au' = mkAUnit ((chunk_idx_ c * kMaxBlocksPerChunk + b) * chunk_block_size_ c)
                (n * chunk_block_size_ c) /\
        num_free_blocks_ c' = num_free_blocks_ c - n /\
        forall j, 0 <= j -> Chunk_used c' j = Chunk_used c j || in_range b n j) \/
     (code s = CYPRE_ES_DISK_NO_SPACE /\ au' = au /\ c' = c /\ no_window c n)).
Proof.
  intros W Hn. pose proof (wf_free_bound c W). pose proof (wc_nb c W). pose proof (wc_last c W).
  unfold Chunk_Allocate, avaliable. destruct (Z.leb_spec n (num_free_blocks_ c)); simpl negb; cbv iota.
  2: { do 3 eexists. split; [done|]. right. unfold no_window. auto. }
  unfold kMaxBlocksPerChunk in *. unwrap.
  destruct (Allocate_loop_spec (Allocate_fuel c) c n (last_free_bit_ c) (num_blocks_ c - n))
    as (r & -> & Hr); auto; try lia.
  { unfold Allocate_fuel. lia. }
  simpl. destruct r as [b|].
  2: { do 3 eexists. split; [done|]. right. unfold no_window. auto. }
  destruct Hr as (k & Hk & Hbk & Hle & Hfree & Hmin).
  assert (0 <= b) by (rewrite Hbk; unfold window; nia).
  destruct (wf_global c W) as [-> Hg]. unfold kMaxBlocksPerChunk in *.
  pose proof (wc_addr c W) as Ha. unfold kMaxBlocksPerChunk in Ha.
  pose proof (wc_idx c W). pose proof (wc_bs c W).
  assert ((chunk_idx_ c * 1048576 + b + n) * chunk_block_size_ c <= u64_max).
  { etransitivity; [|exact Ha]. apply Z.mul_le_mono_nonneg_r; lia. }
  rewrite (wrap64_small (chunk_idx_ c * 1048576 + b)) by (unfold is_u64; lia).
  rewrite (wrap64_small ((chunk_idx_ c * 1048576 + b) * _)) by (unfold is_u64; nia).
  rewrite (wrap64_small (n * _)) by (unfold is_u64; nia).
  rewrite (wrap64_small (b + n)) by (unfold is_u64; lia).
  destruct (setBlock_spec c b n) as (c' & -> & W' & ? & ? & ? & ? & ? & Hu); auto; try lia.
  simpl. do 3 eexists. split; [done|]. left. unfold same_shape. split_and!; auto.
  exists b, k. split_and!; auto.
Qed.

(** The blocks of a byte range of the chunk. *)
Definition chunk_begin (c : Chunk) (offset : Z) : Z :=
  offset / chunk_block_size_ c - chunk_idx_ c * kMaxBlocksPerChunk.

Lemma chunk_range_args c offset size :
  wf_chunk c -> 0 <= size -> 0 <= chunk_begin c offset ->
  chunk_begin c offset + size / chunk_block_size_ c <= num_blocks_ c ->
  wrap64 (offset / chunk_block_size_ c - globalBlockIndex c) = chunk_begin c offset /\
  wrap64 (chunk_begin c offset + size / chunk_block_size_ c)
    = chunk_begin c offset + size / chunk_block_size_ c /\ 0 <= size / chunk_block_size_ c.
Proof.
  intros W Hs Hb He. destruct (wf_global c W) as [-> Hg].
  pose proof (wc_nb c W). pose proof (wc_idx c W). pose proof (wc_bs c W).
  assert (0 <= size / chunk_block_size_ c) by (apply Z.div_pos; lia).
  unfold chunk_begin, kMaxBlocksPerChunk in *. unwrap. auto.
Qed.

Lemma Chunk_Mark_spec c offset size :
  wf_chunk c -> 0 <= size -> 0 <= chunk_begin c offset ->
  chunk_begin c offset + size / chunk_block_size_ c <= num_blocks_ c ->
  chunk_range_free c (chunk_begin c offset) (size / chunk_block_size_ c) ->
  exists c', Chunk_Mark c offset size = Some c' /\ wf_chunk c' /\ same_shape c c' /\
    forall j, 0 <= j -> Chunk_used c' j = Chunk_used c j ||
      in_range (chunk_begin c offset) (size / chunk_block_size_ c) j.
Proof.
  intros W Hs Hb He Hf. destruct (chunk_range_args c offset size) as (E1 & E2 & ?); auto.
  unfold Chunk_Mark. rewrite E1, E2.
  destruct (setBlock_spec c (chunk_begin c offset) (size / chunk_block_size_ c))
    as (c' & -> & ? & ? & ? & ? & _ & _ & ?); auto.
  exists c'. unfold same_shape. auto 10.
Qed.

Lemma Chunk_Free_spec c offset size :
  wf_chunk c -> 0 <= size -> 0 <= chunk_begin c offset ->
  chunk_begin c offset + size / chunk_block_size_ c <= num_blocks_ c ->
  chunk_range_used c (chunk_begin c offset) (size / chunk_block_size_ c) ->
  exists c', Chunk_Free c offset size = Some c' /\ wf_chunk c' /\ same_shape c c' /\
    forall j, 0 <= j -> Chunk_used c' j = Chunk_used c j &&
      negb (in_range (chunk_begin c offset) (size / chunk_block_size_ c) j).
Proof.
  intros W Hs Hb He Hf. destruct (chunk_range_args c offset size) as (E1 & E2 & ?); auto.
  unfold Chunk_Free. rewrite E1, E2.
  destruct (unsetBlock_spec c (chunk_begin c offset) (size / chunk_block_size_ c))
    as (c' & -> & ? & ? & ? & ? & _ & _ & ?); auto.
  exists c'. unfold same_shape. auto 10.
Qed.

Lemma bit_replicate n j : bit (replicate n 0) j = false.
Proof.
  unfold bit. destruct (replicate n 0 !! _) eqn:E; [|done].
  apply lookup_replicate in E as [-> _]. apply Z.bits_0.
Qed.

Lemma Chunk_new_wf i nb bs :
  0 <= i -> 0 < bs -> 0 < nb <= kMaxBlocksPerChunk ->
  (i * kMaxBlocksPerChunk + nb) * bs <= u64_max ->
  wf_chunk (Chunk_new i nb bs) /\ forall j, Chunk_used (Chunk_new i nb bs) j = false.
Proof.
  intros. assert (Hu : forall j, Chunk_used (Chunk_new i nb bs) j = false)
    by (intros; apply bit_replicate).
  split; [|done]. split; cbn [Chunk_new chunk_idx_ num_blocks_ num_free_blocks_ last_free_bit_ chunk_block_size_ data_]; try lia.
  - rewrite length_replicate. unfold kBlocksPerUnit, kMaxBlocksPerChunk in *. unwrap. lia.
  - apply Forall_replicate. unfold is_u64, u64_max. lia.
  - rewrite (count_below_ext _ (fun _ => false)) by (intros; apply Hu).
    assert (forall n, count_below (fun _ => false) n = 0) as -> by (induction n; simpl; lia). lia.
Qed.
