(* ===== verification/Allocator.v ===== *)
(** * The device allocator as a set of used blocks

    The invariant of [BitmapAllocator] (Bitmap.v), its abstraction to the set
    of used blocks of the device, and the refinement of [Init], [Allocate],
    [Free] and [Mark] to operations on that set.  The interface
    [SpaceManager]/[SpaceManagerLaws] at the end is what the extent server's
    location table relies on; [SpaceAlloc] is its instance. *)

From S2P Require Import Prelude Status Bitmap.

(** ** Invariant and abstraction *)

(** Blocks of chunk [i] of a device of [nb] blocks. *)
Definition chunk_blocks (nb i : Z) : Z := Z.min kMaxBlocksPerChunk (nb - i * kMaxBlocksPerChunk).

Definition chunk_ok (bs nb i : Z) (c : Chunk) : Prop :=
  wf_chunk c /\ chunk_idx_ c = i /\ chunk_block_size_ c = bs /\ num_blocks_ c = chunk_blocks nb i.

Record wf_alloc (a : BitmapAllocator) : Prop := {
  wa_bs : 4096 <= block_size_ a <= capacity_ a;
  wa_cap : capacity_ a <= u64_max;
  wa_len : Z.of_nat (length (chunks_ a)) =
    (NumBlocks a + kMaxBlocksPerChunk - 1) / kMaxBlocksPerChunk;
  wa_chunks : forall i c, chunks_ a !! i = Some c ->
    chunk_ok (block_size_ a) (NumBlocks a) (Z.of_nat i) c
}.

(** Block [g] of the device is in use. *)
Definition block_used (a : BitmapAllocator) (g : Z) : bool :=
  match chunks_ a !! Z.to_nat (g / kMaxBlocksPerChunk) with
  | Some c => Chunk_used c (g mod kMaxBlocksPerChunk)
  | None => false
  end.

Definition region_block (a : BitmapAllocator) (offset size g : Z) : bool :=
  in_range (offset / block_size_ a) (size / block_size_ a) g.

(** An aligned, non-empty byte range that lies in one chunk of the device. *)
Definition valid_region (a : BitmapAllocator) (offset size : Z) : Prop :=
  let bs := block_size_ a in
  let g := offset / bs in
  0 <= offset /\ 0 < size /\ offset mod bs = 0 /\ size mod bs = 0 /\
  g mod kMaxBlocksPerChunk + size / bs <= chunk_blocks (NumBlocks a) (g / kMaxBlocksPerChunk).

Lemma blocks_bound bs cap : 4096 <= bs <= cap -> cap <= u64_max ->
  0 < cap / bs /\ cap / bs * bs <= cap /\ cap / bs <= u64_max / 4096.
Proof.
  intros. split; [apply Z.div_str_pos; lia|]. split; [rewrite Z.mul_comm; apply Z.mul_div_le; lia|].
  transitivity (cap / 4096); [apply Z.div_le_compat_l; lia|apply Z.div_le_mono; lia].
Qed.

Lemma wf_NumBlocks a : wf_alloc a ->
  0 < NumBlocks a /\ NumBlocks a * block_size_ a <= capacity_ a /\ NumBlocks a <= u64_max / 4096.
Proof.
  intros W. apply blocks_bound; apply W.
Qed.

Lemma wf_NumChunks a : wf_alloc a -> NumChunks a = Z.of_nat (length (chunks_ a)) /\ 0 < NumChunks a.
Proof.
  intros W. rewrite (wa_len a W). destruct (wf_NumBlocks a W) as (? & _ & ?).
  unfold NumChunks, kMaxBlocksPerChunk, u64_max in *. unwrap. lia.
Qed.

(** Every chunk has blocks, and its last block is inside the device. *)
Lemma chunk_blocks_pos a i : wf_alloc a -> (i < length (chunks_ a))%nat ->
  0 < chunk_blocks (NumBlocks a) (Z.of_nat i) <= kMaxBlocksPerChunk /\
  Z.of_nat i * kMaxBlocksPerChunk + chunk_blocks (NumBlocks a) (Z.of_nat i) <= NumBlocks a.
Proof.
  intros W Hi. pose proof (wa_len a W). destruct (wf_NumBlocks a W) as (? & _).
  unfold chunk_blocks, kMaxBlocksPerChunk in *. lia.
Qed.

(** The chunk of a valid region exists. *)
Lemma valid_region_index a offset size : wf_alloc a -> valid_region a offset size ->
  0 <= offset / block_size_ a /\
  offset / block_size_ a / kMaxBlocksPerChunk < Z.of_nat (length (chunks_ a)).
Proof.
  intros W (Ho & Hs & Hom & Hsm & Hle). pose proof (wa_bs a W).
  assert (0 <= offset / block_size_ a) by (apply Z.div_pos; lia). split; [done|].
  assert (0 < size / block_size_ a) by (pose proof (aligned_mul size (block_size_ a)); nia).
  rewrite (wa_len a W). unfold chunk_blocks, kMaxBlocksPerChunk in *. lia.
Qed.

Lemma valid_region_capacity a offset size :
  wf_alloc a -> valid_region a offset size -> offset + size <= capacity_ a.
Proof.
  intros W V. destruct (valid_region_index a offset size W V) as [Hg0 Hlt].
  destruct V as (Ho & Hs & Hom & Hsm & Hle). pose proof (wa_bs a W).
  set (g := offset / block_size_ a) in *.
  destruct (chunk_blocks_pos a (Z.to_nat (g / kMaxBlocksPerChunk))) as [_ Hb]; [done|unfold kMaxBlocksPerChunk in *; lia|].
  rewrite Z2Nat.id in Hb by (unfold kMaxBlocksPerChunk; lia).
  assert (Hgs : g + size / block_size_ a <= NumBlocks a).
  { assert (g = g / kMaxBlocksPerChunk * kMaxBlocksPerChunk + g mod kMaxBlocksPerChunk)
      by (unfold kMaxBlocksPerChunk; lia). lia. }
  destruct (wf_NumBlocks a W) as (_ & Hcap & _).
  pose proof (aligned_mul offset (block_size_ a) ltac:(lia) Hom) as E1. fold g in E1.
  pose proof (aligned_mul size (block_size_ a) ltac:(lia) Hsm). nia.
Qed.

(** ** Replacing one chunk *)

Definition with_chunk (a : BitmapAllocator) (i : nat) (c : Chunk) : BitmapAllocator :=
  mkBitmapAllocator (block_size_ a) (capacity_ a) (<[i := c]> (chunks_ a)).

Lemma with_chunk_id a i c : chunks_ a !! i = Some c -> with_chunk a i c = a.
Proof. intros H. unfold with_chunk. rewrite list_insert_id by done. by destruct a. Qed.

Lemma with_chunk_wf a i c c' :
  wf_alloc a -> chunks_ a !! i = Some c -> wf_chunk c' -> same_shape c c' ->
  wf_alloc (with_chunk a i c').
Proof.
  intros W Hi W' (E1 & E2 & E3). destruct (wa_chunks a W i c Hi) as (_ & F1 & F2 & F3).
  split; try apply W.
  - cbn. rewrite length_insert. apply W.
  - intros j d Hj. unfold with_chunk in Hj; cbn in Hj. change (NumBlocks (with_chunk a i c')) with (NumBlocks a).
    destruct (decide (i = j)) as [->|Hne].
    + rewrite list_lookup_insert_eq in Hj by (eapply lookup_lt_Some; eauto).
      simplify_eq. unfold chunk_ok. cbn. split_and!; auto; congruence.
    + rewrite list_lookup_insert_ne in Hj by done. by apply (wa_chunks a W).
Qed.

Lemma with_chunk_used a i c c' b n (F : bool -> bool -> bool) :
  wf_alloc a -> chunks_ a !! i = Some c -> 0 <= b -> b + n <= num_blocks_ c ->
  (forall u, F u false = u) ->
  (forall j, 0 <= j -> Chunk_used c' j = F (Chunk_used c j) (in_range b n j)) ->
  forall g, 0 <= g -> block_used (with_chunk a i c') g =
    F (block_used a g) (in_range (Z.of_nat i * kMaxBlocksPerChunk + b) n g).
Proof.
  intros W Hi Hb Hn HF Hu g Hg. destruct (wa_chunks a W i c Hi) as (Wc & _).
  pose proof (wc_nb c Wc). unfold block_used, with_chunk; cbn [chunks_].
  pose proof (Z.div_mod g kMaxBlocksPerChunk ltac:(done)).
  destruct (decide (Z.to_nat (g / kMaxBlocksPerChunk) = i)) as [E|E].
  - rewrite E, list_lookup_insert_eq, Hi by (eapply lookup_lt_Some; eauto).
    rewrite Hu by (unfold kMaxBlocksPerChunk; lia). f_equal. apply eq_iff_eq_true.
    rewrite !in_range_spec. unfold kMaxBlocksPerChunk in *. lia.
  - rewrite list_lookup_insert_ne by congruence.
    replace (in_range _ n g) with false; [by rewrite HF|]. symmetry. apply in_range_false.
    unfold kMaxBlocksPerChunk in *. lia.
Qed.

(** ** Init *)

Lemma Init_chunks_lookup bs n : forall nb i0 k c,
  0 < bs -> 0 <= i0 ->
  i0 + Z.of_nat n = (i0 * kMaxBlocksPerChunk + nb + kMaxBlocksPerChunk - 1) / kMaxBlocksPerChunk ->
  (i0 * kMaxBlocksPerChunk + nb) * bs <= u64_max -> 0 <= nb <= u64_max ->
  Init_chunks bs nb i0 n !! k = Some c ->
  chunk_ok bs (i0 * kMaxBlocksPerChunk + nb) (i0 + Z.of_nat k) c /\ forall j, Chunk_used c j = false.
Proof.
  induction n as [|n IH]; intros nb i0 k c Hbs Hi0 Hn Hm Hnb Hk; [done|].
  cbn [Init_chunks] in Hk.
  set (bpc := if kMaxBlocksPerChunk <? nb then kMaxBlocksPerChunk else nb) in *.
  assert (Hbpc : bpc = Z.min kMaxBlocksPerChunk nb) by (unfold bpc; destruct (Z.ltb_spec kMaxBlocksPerChunk nb); lia).
  clearbody bpc. destruct k as [|k]; simpl in Hk.
  - simplify_eq. rewrite Z.add_0_r.
    destruct (Chunk_new_wf i0 (Z.min kMaxBlocksPerChunk nb) bs) as [Wc Hu]; auto.
    { unfold kMaxBlocksPerChunk in *. lia. }
    { etransitivity; [|exact Hm]. apply Z.mul_le_mono_nonneg_r; lia. }
    split; [|done]. unfold chunk_ok, chunk_blocks. cbn. split_and!; auto. f_equal. lia.
  - rewrite wrap64_small in Hk by (unfold is_u64, kMaxBlocksPerChunk in *; lia).
    destruct n as [|n']; [done|].
    apply IH in Hk; auto; try lia; unfold kMaxBlocksPerChunk in *; try lia.
    replace ((i0 + 1) * 1048576 + (nb - bpc)) with (i0 * 1048576 + nb) in Hk by lia.
    replace (i0 + Z.of_nat (S k)) with (i0 + 1 + Z.of_nat k) by lia. done.
Qed.

Lemma Init_chunks_length bs n : forall nb i, length (Init_chunks bs nb i n) = n.
Proof. induction n; intros; simpl; auto. Qed.

Lemma BitmapAllocator_Init_ok bs cap :
  is_u64 bs -> is_u64 cap -> bs <> 0 -> bs mod kAlignSize = 0 -> bs <= cap ->
  exists a, BitmapAllocator_Init bs cap = (Status_default, Some a) /\
    wf_alloc a /\ block_size_ a = bs /\ capacity_ a = cap /\ forall g, block_used a g = false.
Proof.
  intros Hb Hc Hb0 Hal Hle. unfold BitmapAllocator_Init.
  replace (_ || _ || _) with false.
  2: { symmetry. rewrite !orb_false_iff, negb_false_iff, Z.eqb_eq, Z.eqb_neq, Z.ltb_ge. auto. }
  eexists; split; [done|]. cbn.
  set (a0 := mkBitmapAllocator bs cap []).
  assert (H4 : 4096 <= bs) by (change kAlignSize with 4096 in Hal; unfold is_u64 in *; lia).
  assert (Hnb : 0 < NumBlocks a0 /\ NumBlocks a0 * bs <= cap /\ NumBlocks a0 <= u64_max / 4096).
  { apply blocks_bound; unfold is_u64 in *; cbn; lia. }
  assert (Hch : NumChunks a0 = (NumBlocks a0 + kMaxBlocksPerChunk - 1) / kMaxBlocksPerChunk).
  { unfold NumChunks, kMaxBlocksPerChunk. rewrite wrap64_small; [done|].
    unfold is_u64, u64_max in *. lia. }
  set (cs := Init_chunks _ _ _ _).
  assert (Hcs : forall i c, cs !! i = Some c ->
     chunk_ok bs (NumBlocks a0) (Z.of_nat i) c /\ forall j, Chunk_used c j = false).
  { intros i c Hi.
    pose proof (Init_chunks_lookup bs (Z.to_nat (NumChunks a0)) (NumBlocks a0) 0 i c ltac:(lia) ltac:(lia)) as H.
    rewrite Z.mul_0_l, !Z.add_0_l in H. apply H; [|unfold is_u64 in *; lia| |exact Hi].
    - fold a0. rewrite Hch. apply Z2Nat.id. unfold kMaxBlocksPerChunk; lia.
    - unfold u64_max in *; lia. }
  split_and!; auto.
  - split; cbn; [lia|unfold is_u64 in *; lia| |].
    + unfold cs. rewrite Init_chunks_length, Hch. apply Z2Nat.id.
      change (NumBlocks _) with (NumBlocks a0) at 1. unfold kMaxBlocksPerChunk. lia.
    + intros i c Hi. apply Hcs, Hi.
  - intros g. unfold block_used; cbn. destruct (cs !! _) eqn:E; [|done]. by eapply Hcs.
Qed.

(** ** Allocate *)

(** What a successful allocation of [n] blocks gives. *)
Definition allocated (a a' : BitmapAllocator) (n : Z) (u : AUnit) : Prop :=
  wf_alloc a' /\ block_size_ a' = block_size_ a /\ capacity_ a' = capacity_ a /\
  length (chunks_ a') = length (chunks_ a) /\
  au_size u = n * block_size_ a /\ valid_region a (au_offset u) (au_size u) /\
  (forall g, region_block a (au_offset u) (au_size u) g = true -> block_used a g = false) /\
  forall g, 0 <= g -> block_used a' g = block_used a g || region_block a (au_offset u) (au_size u) g.

(** A chunk's allocation seen from the device. *)
Lemma chunk_allocated a i c c' n b :
  wf_alloc a -> 0 < n -> chunks_ a !! i = Some c -> wf_chunk c' -> same_shape c c' ->
  0 <= b -> b + n <= num_blocks_ c -> chunk_range_free c b n ->
  (forall j, 0 <= j -> Chunk_used c' j = Chunk_used c j || in_range b n j) ->
  allocated a (with_chunk a i c') n
    (mkAUnit ((chunk_idx_ c * kMaxBlocksPerChunk + b) * chunk_block_size_ c) (n * chunk_block_size_ c)).
Proof.
  intros W Hn Hi Wc' Hss Hb Hle Hf Hu. destruct (wa_chunks a W i c Hi) as (Wc & -> & -> & Hnb).
  pose proof (wa_bs a W). pose proof (wc_nb c Wc). set (g0 := Z.of_nat i * kMaxBlocksPerChunk + b).
  assert (Hg : g0 / kMaxBlocksPerChunk = Z.of_nat i /\ g0 mod kMaxBlocksPerChunk = b)
    by (unfold g0, kMaxBlocksPerChunk in *; lia).
  assert (Hr : forall g, region_block a (g0 * block_size_ a) (n * block_size_ a) g = in_range g0 n g)
    by (intros; unfold region_block; rewrite !Z.div_mul by lia; done).
  unfold allocated; cbn [au_offset au_size].
  split_and!; auto; try (by eapply with_chunk_wf).
  - cbn. apply length_insert.
  - unfold valid_region. rewrite !Z.div_mul, !Z.mod_mul by lia. destruct Hg as [-> ->].
    unfold g0, kMaxBlocksPerChunk. split_and!; auto; try lia; nia.
  - intros g. rewrite Hr. intros Hgr. pose proof Hgr as Hgr'. rewrite in_range_spec in Hgr'.
    unfold block_used. replace (Z.to_nat (g / kMaxBlocksPerChunk)) with i
      by (unfold g0, kMaxBlocksPerChunk in *; lia).
    rewrite Hi. apply Hf, in_range_spec. unfold g0, kMaxBlocksPerChunk in *. lia.
  - intros g Hg0. rewrite Hr. apply (with_chunk_used a i c c' b n orb); auto.
    intros; apply orb_false_r.
Qed.

Lemma Allocate_loop_ok n k : forall a b s au,
  wf_alloc a -> 0 < n -> 0 <= b -> (0 < k)%nat \/ code s = CYPRE_ES_DISK_NO_SPACE ->
  exists s' au' a', BitmapAllocator_Allocate_loop a n b k s au = Some (s', au', a') /\
    ((s' = Status_default /\ allocated a a' n au') \/
     (code s' = CYPRE_ES_DISK_NO_SPACE /\ au' = au /\ a' = a /\
      forall t c, b <= t < b + Z.of_nat k ->
        chunks_ a !! Z.to_nat (t mod Z.of_nat (length (chunks_ a))) = Some c -> no_window c n)).
Proof.
  induction k as [|k IH]; intros a b s au W Hn Hb Hs.
  { exists s, au, a. split; [done|]. right. destruct Hs as [?|?]; [lia|].
    split_and!; auto. intros; lia. }
  cbn [BitmapAllocator_Allocate_loop]. destruct (wf_NumChunks a W) as [HN HN0].
  set (i := Z.to_nat (b mod Z.of_nat (length (chunks_ a)))).
  destruct (lookup_lt_is_Some_2 (chunks_ a) i) as [c Hi].
  { unfold i. pose proof (Z.mod_pos_bound b (Z.of_nat (length (chunks_ a)))). lia. }
  rewrite Hi. cbn. destruct (wa_chunks a W i c Hi) as (Wc & Hidx & Hbs & Hnb).
  destruct (Chunk_Allocate_spec c n au Wc Hn) as (s1 & au1 & c1 & -> & Hr). cbn.
  fold (with_chunk a i c1).
  destruct Hr as [(-> & W1 & Hss & b0 & k0 & ? & ? & ? & _ & _ & _ & -> & _ & Hu)|(Hc & -> & -> & Hnw)].
  - do 3 eexists. split; [done|]. left. split; [done|]. by eapply chunk_allocated.
  - replace (ok s1) with false by (unfold ok; by rewrite Hc).
    rewrite with_chunk_id by done.
    destruct (IH a (b + 1) s1 au) as (s' & au' & a' & -> & Hr); auto; [lia|].
    do 3 eexists. split; [done|]. destruct Hr as [Hr|(? & ? & ? & Hall)]; [by left|].
    right. split_and!; auto. intros t d Ht Hd.
    destruct (Z.eq_dec t b) as [->|]; [|eapply Hall; eauto; lia].
    fold i in Hd. congruence.
Qed.

(** Every chunk is tried once, whatever the random starting point. *)
Lemma round_robin (b len i : Z) : 0 <= b -> 0 <= i < len ->
  exists t, b <= t < b + len /\ t mod len = i.
Proof.
  intros Hb Hi. exists (b + (i - b) mod len).
  pose proof (Z.mod_pos_bound (i - b) len). split; [lia|].
  rewrite Z.add_mod_idemp_r by lia. replace (b + (i - b)) with i by lia.
  apply Z.mod_small. lia.
Qed.

Lemma calcBlocksBySize_spec a want : wf_alloc a -> is_u64 want ->
  calcBlocksBySize a want =
    if want + block_size_ a - 1 <=? u64_max then (want + block_size_ a - 1) / block_size_ a else 0.
Proof.
  intros W Hw. pose proof (wa_bs a W). pose proof (wa_cap a W). unfold calcBlocksBySize.
  destruct (Z.leb_spec (want + block_size_ a - 1) u64_max).
  - by rewrite wrap64_small by (unfold is_u64 in *; lia).
  - unfold is_u64, u64_max, wrap64 in *.
    rewrite <- (Z.mod_unique _ _ 1 (want + block_size_ a - 1 - 18446744073709551616)) by lia.
    apply Z.div_small. lia.
Qed.

(** The three outcomes of [Allocate] on a well formed allocator. *)
Lemma BitmapAllocator_Allocate_cases rand a want au :
  wf_alloc a -> is_u64 want -> 0 <= rand ->
  let n := calcBlocksBySize a want in
  exists s au' a', BitmapAllocator_Allocate rand a want au = Some (s, au', a') /\
    ((s = Status_default /\ 0 < n /\ allocated a a' n au') \/
     (code s = CYPRE_ER_INVALID_ARGUMENT /\ n = 0 /\ au' = au /\ a' = a) \/
     (code s = CYPRE_ES_DISK_NO_SPACE /\ 0 < n /\ au' = au /\ a' = a /\
      Forall (fun c => no_window c n) (chunks_ a))).
Proof.
  intros W Hw Hr n. pose proof (wa_bs a W). destruct (wf_NumChunks a W) as [HN HN0].
  unfold BitmapAllocator_Allocate, Empty.
  destruct (Z.eqb_spec (NumChunks a) 0); [lia|]. fold n.
  destruct (Z.eqb_spec n 0) as [Hn|Hn].
  { do 3 eexists. split; [done|]. auto 10. }
  assert (0 < n). { assert (0 <= n); [|lia]. apply Z.div_pos; [|lia]. apply wrap64_is_u64. }
  set (len := Z.of_nat (length (chunks_ a))) in *.
  pose proof (Z.mod_pos_bound rand len).
  destruct (Allocate_loop_ok n (Z.to_nat len) a (rand mod len) Status_default au)
    as (s' & au' & a' & -> & Hc); auto; try lia.
  do 3 eexists. split; [done|]. destruct Hc as [[-> ?]|(? & ? & ? & Hall)]; [by auto|].
  right; right. split_and!; auto. apply Forall_lookup_2. intros i c Hi.
  destruct (round_robin (rand mod len) len (Z.of_nat i)) as (t & Ht & Hti); [lia| |].
  { apply lookup_lt_Some in Hi. lia. }
  apply (Hall t c); [lia|]. unfold len in Hti. by rewrite Hti, Nat2Z.id.
Qed.

(** ** Free and Mark *)

Definition same_device (a a' : BitmapAllocator) : Prop :=
  wf_alloc a' /\ block_size_ a' = block_size_ a /\ capacity_ a' = capacity_ a /\
  length (chunks_ a') = length (chunks_ a).

(** The chunk a valid region lies in, and the region's blocks in it. *)
Lemma valid_region_chunk a offset size :
  wf_alloc a -> valid_region a offset size ->
  let i := Z.to_nat (calcChunkIdxByOffset a offset) in
  exists c, chunks_ a !! i = Some c /\ wf_chunk c /\ chunk_block_size_ c = block_size_ a /\
    0 <= chunk_begin c offset /\
    chunk_begin c offset + size / block_size_ a <= num_blocks_ c /\
    Z.of_nat i * kMaxBlocksPerChunk + chunk_begin c offset = offset / block_size_ a /\
    forall j, in_range (chunk_begin c offset) (size / block_size_ a) j = true ->
      Chunk_used c j = block_used a (Z.of_nat i * kMaxBlocksPerChunk + j).
Proof.
  intros W V i. destruct (valid_region_index a offset size W V) as [Hg0 Hlt].
  destruct V as (Ho & Hs & Hom & Hsm & Hle). pose proof (wa_bs a W).
  unfold calcChunkIdxByOffset in i. set (g := offset / block_size_ a) in *.
  destruct (lookup_lt_is_Some_2 (chunks_ a) i) as [c Hi].
  { unfold i, kMaxBlocksPerChunk in *. lia. }
  destruct (wa_chunks a W i c Hi) as (Wc & Hidx & Hbs & Hnb).
  assert (HZi : Z.of_nat i = g / kMaxBlocksPerChunk) by (unfold i, kMaxBlocksPerChunk; lia).
  assert (Hcb : chunk_begin c offset = g mod kMaxBlocksPerChunk).
  { unfold chunk_begin. rewrite Hbs, Hidx, HZi. fold g. unfold kMaxBlocksPerChunk. lia. }
  pose proof (wc_nb c Wc). rewrite HZi in Hnb.
  exists c. rewrite Hcb, Hnb, HZi. split_and!; auto; try (unfold kMaxBlocksPerChunk; lia).
  intros j Hj. apply in_range_spec in Hj. unfold block_used.
  assert (0 <= j < kMaxBlocksPerChunk) by (unfold kMaxBlocksPerChunk in *; lia).
  replace (Z.to_nat _) with i by (unfold kMaxBlocksPerChunk in *; lia).
  rewrite Hi. f_equal. unfold kMaxBlocksPerChunk in *. lia.
Qed.

Lemma on_chunk_spec a offset size (op : Chunk -> option Chunk) (F : bool -> bool -> bool) :
  wf_alloc a -> valid_region a offset size -> (forall u, F u false = u) ->
  (forall c, chunks_ a !! Z.to_nat (calcChunkIdxByOffset a offset) = Some c ->
     exists c', op c = Some c' /\ wf_chunk c' /\ same_shape c c' /\
       forall j, 0 <= j -> Chunk_used c' j =
         F (Chunk_used c j) (in_range (chunk_begin c offset) (size / block_size_ a) j)) ->
  exists a', on_chunk a offset op = Some a' /\ same_device a a' /\
    forall g, 0 <= g -> block_used a' g = F (block_used a g) (region_block a offset size g).
Proof.
  intros W V HF Hop.
  destruct (valid_region_chunk a offset size W V) as (c & Hi & Wc & Hbs & Hb & Hle & Hg & _).
  destruct (Hop c Hi) as (c' & Hc' & W' & Hss & Hu).
  unfold on_chunk. rewrite Hi. cbn. rewrite Hc'. cbn.
  eexists. split; [done|]. fold (with_chunk a (Z.to_nat (calcChunkIdxByOffset a offset)) c').
  split; [|].
  - unfold same_device. split_and!; auto; [by eapply with_chunk_wf|]. cbn. apply length_insert.
  - intros g Hg0. unfold region_block. rewrite <- Hg. by eapply with_chunk_used.
Qed.

Lemma BitmapAllocator_Free_spec a offset size :
  wf_alloc a -> valid_region a offset size ->
  (forall g, region_block a offset size g = true -> block_used a g = true) ->
  exists a', BitmapAllocator_Free a offset size = Some a' /\ same_device a a' /\
    forall g, 0 <= g ->
      block_used a' g = block_used a g && negb (region_block a offset size g).
Proof.
  intros W V Hused.
  destruct (valid_region_chunk a offset size W V) as (c0 & Hi & Wc & Hbs & Hb & Hle & Hg & Hblk).
  apply (on_chunk_spec a offset size _ (fun u r => u && negb r)); auto.
  { intros. apply andb_true_r. }
  intros c Hc. assert (c = c0) as -> by congruence.
  destruct V as (? & ? & _). rewrite <- Hbs. apply Chunk_Free_spec; auto; try lia; rewrite Hbs; [lia|].
  intros j Hj. rewrite Hblk by done. apply Hused. unfold region_block.
  rewrite <- Hg. rewrite in_range_spec in *. lia.
Qed.

Lemma BitmapAllocator_Mark_spec a offset size :
  wf_alloc a -> valid_region a offset size ->
  (forall g, region_block a offset size g = true -> block_used a g = false) ->
  exists a', BitmapAllocator_Mark a offset size = Some a' /\ same_device a a' /\
    forall g, 0 <= g -> block_used a' g = block_used a g || region_block a offset size g.
Proof.
  intros W V Hfree.
  destruct (valid_region_chunk a offset size W V) as (c0 & Hi & Wc & Hbs & Hb & Hle & Hg & Hblk).
  apply (on_chunk_spec a offset size _ orb); auto.
  { intros. apply orb_false_r. }
  intros c Hc. assert (c = c0) as -> by congruence.
  destruct V as (? & ? & _). rewrite <- Hbs. apply Chunk_Mark_spec; auto; try lia; rewrite Hbs; [lia|].
  intros j Hj. rewrite Hblk by done. apply Hfree. unfold region_block.
  rewrite <- Hg. rewrite in_range_spec in *. lia.
Qed.

Lemma valid_region_same a a' offset size :
  same_device a a' -> valid_region a offset size -> valid_region a' offset size.
Proof. unfold same_device, valid_region, NumBlocks. intros (_ & -> & -> & _). auto. Qed.

Lemma region_block_same a a' offset size g :
  block_size_ a' = block_size_ a -> region_block a' offset size g = region_block a offset size g.
Proof. unfold region_block. by intros ->. Qed.

Lemma allocated_same_device a a' n u : allocated a a' n u -> same_device a a'.
Proof. intros (? & ? & ? & ? & _). by unfold same_device. Qed.

#[export] Hint Resolve valid_region_same allocated_same_device : cypre.

(** ** Counting *)

Lemma count_below_split p n m :
  count_below p (n + m) = count_below p n + count_below (fun i => p (Z.of_nat n + i)) m.
Proof.
  induction m; [rewrite Nat.add_0_r; simpl; lia|].
  rewrite Nat.add_succ_r. simpl. rewrite IHm, Nat2Z.inj_add. lia.
Qed.

(** Blocks of the first [k] chunks. *)
Definition blocks_upto (nb : Z) (k : nat) : Z := Z.min nb (Z.of_nat k * kMaxBlocksPerChunk).

Lemma sum_chunks_snoc f chunks c n : forall i acc,
  chunks !! (i + n)%nat = Some c ->
  sum_chunks f chunks i (S n) acc =
    (r ← sum_chunks f chunks i n acc; Some (wrap64 (r + f c))).
Proof.
  induction n as [|n IH]; intros i acc Hc.
  - rewrite Nat.add_0_r in Hc. simpl. by rewrite Hc.
  - change (sum_chunks f chunks i (S (S n)) acc) with
      (c0 ← chunks !! i; sum_chunks f chunks (S i) (S n) (wrap64 (acc + f c0))).
    simpl (sum_chunks f chunks i (S n) acc). destruct (chunks !! i) as [c0|] eqn:E; cbn [mbind option_bind]; [|done].
    apply IH. by rewrite Nat.add_succ_l, <- Nat.add_succ_r.
Qed.

Lemma sum_chunks_count a k :
  wf_alloc a -> (k <= length (chunks_ a))%nat ->
  let used := count_below (block_used a) (Z.to_nat (blocks_upto (NumBlocks a) k)) in
  sum_chunks Chunk_UsedBlocks (chunks_ a) 0 k 0 = Some used /\
  sum_chunks Chunk_FreeBlocks (chunks_ a) 0 k 0 = Some (blocks_upto (NumBlocks a) k - used).
Proof.
  intros W. destruct (wf_NumBlocks a W) as (Hnb & _ & Hmax).
  induction k as [|k IH]; intros Hk.
  { unfold blocks_upto. replace (Z.min _ _) with 0 by lia. done. }
  destruct (lookup_lt_is_Some_2 (chunks_ a) k) as [c Hc]; [lia|].
  destruct (wa_chunks a W k c Hc) as (Wc & _ & _ & Hcn).
  destruct (chunk_blocks_pos a k W) as [Hp Hq]; [lia|].
  destruct IH as [IH1 IH2]; [lia|].
  rewrite !(sum_chunks_snoc _ _ c) by done. rewrite IH1, IH2. cbn [mbind option_bind].
  set (m := Z.to_nat (blocks_upto (NumBlocks a) k)).
  assert (Hm : Z.of_nat m = Z.of_nat k * kMaxBlocksPerChunk)
    by (unfold m, blocks_upto, chunk_blocks, kMaxBlocksPerChunk in *; lia).
  assert (Hup : blocks_upto (NumBlocks a) (S k) = Z.of_nat m + num_blocks_ c)
    by (unfold blocks_upto, chunk_blocks, kMaxBlocksPerChunk in *; lia).
  assert (Hsplit : count_below (block_used a) (Z.to_nat (blocks_upto (NumBlocks a) (S k))) =
     count_below (block_used a) m + (num_blocks_ c - num_free_blocks_ c)).
  { rewrite Hup, Z2Nat.inj_add, Nat2Z.id, count_below_split by lia. f_equal.
    rewrite (wc_free c Wc). replace (num_blocks_ c - (num_blocks_ c - _)) with
      (count_below (Chunk_used c) (Z.to_nat (num_blocks_ c))) by lia.
    apply count_below_ext. intros j Hj. unfold block_used.
    replace (Z.to_nat _) with k by (unfold kMaxBlocksPerChunk in *; lia). rewrite Hc.
    f_equal. unfold kMaxBlocksPerChunk in *. lia. }
  pose proof (wf_free_bound c Wc). pose proof (count_below_bound (block_used a) m).
  assert (Z.of_nat m + num_blocks_ c <= u64_max)
    by (unfold kMaxBlocksPerChunk, u64_max in *; lia).
  unfold Chunk_UsedBlocks, Chunk_FreeBlocks. rewrite Hsplit, Hup.
  replace (blocks_upto (NumBlocks a) k) with (Z.of_nat m)
    by (unfold m; apply Z2Nat.id; unfold blocks_upto, kMaxBlocksPerChunk; lia).
  unwrap. split; f_equal; lia.
Qed.

(** ** Bytes of the device *)

Definition byte_used (a : BitmapAllocator) (x : Z) : bool := block_used a (x / block_size_ a).

Lemma region_block_byte a offset size x :
  0 < block_size_ a -> valid_region a offset size ->
  region_block a offset size (x / block_size_ a) = in_range offset size x.
Proof.
  intros Hb (_ & _ & Ho & Hs & _). apply aligned_mul in Ho, Hs; [|lia..].
  unfold region_block. apply eq_iff_eq_true. rewrite !in_range_spec.
  set (o := offset / block_size_ a) in *. set (s := size / block_size_ a) in *.
  rewrite Ho, Hs, <- Z.mul_add_distr_r. split; intros [H1 H2]; split.
  - apply Z.mul_le_mono_nonneg_r with (p := block_size_ a) in H1; [|lia].
    pose proof (Z.mul_div_le x (block_size_ a)). lia.
  - pose proof (Z.mul_succ_div_gt x (block_size_ a)). nia.
  - apply Z.div_le_lower_bound; lia.
  - apply Z.div_lt_upper_bound; lia.
Qed.

(** ** The allocator interface *)

(** What the location table of an extent server uses of the device: the
    operations, which bytes are in use, and which ranges can be handed out. *)
Class SpaceManager (A : Type) := {
  sm_Allocate : Z -> A -> Z -> AUnit -> option (Status * AUnit * A);
  sm_Free : A -> Z -> Z -> option A;
  sm_Mark : A -> Z -> Z -> option A;
  sm_wf : A -> Prop;
  sm_dev : A -> Z * Z;
  sm_valid : Z * Z -> Z -> Z -> Prop;
  sm_used : A -> Z -> bool
}.

(** Still well formed, and of the same device: [sm_dev] is the block size and
    the capacity, which determine the ranges that can be handed out. *)
Definition sm_frame `{SpaceManager A} (a a' : A) : Prop :=
  sm_wf a' /\ sm_dev a' = sm_dev a.

Class SpaceManagerLaws (A : Type) `{SpaceManager A} : Prop := {
  sm_alloc_law : forall rand a want u, sm_wf a -> is_u64 want -> 0 <= rand ->
    exists s u' a', sm_Allocate rand a want u = Some (s, u', a') /\
      ((ok s = true /\ sm_frame a a' /\ sm_valid (sm_dev a) (au_offset u') (au_size u') /\
        want <= au_size u' /\
        (forall x, in_range (au_offset u') (au_size u') x = true -> sm_used a x = false) /\
        forall x, 0 <= x -> sm_used a' x = sm_used a x || in_range (au_offset u') (au_size u') x) \/
       (ok s = false /\ u' = u /\ a' = a));
  sm_free_law : forall a o s, sm_wf a -> sm_valid (sm_dev a) o s ->
    (forall x, in_range o s x = true -> sm_used a x = true) ->
    exists a', sm_Free a o s = Some a' /\ sm_frame a a' /\
      forall x, 0 <= x -> sm_used a' x = sm_used a x && negb (in_range o s x);
  sm_mark_law : forall a o s, sm_wf a -> sm_valid (sm_dev a) o s ->
    (forall x, in_range o s x = true -> sm_used a x = false) ->
    exists a', sm_Mark a o s = Some a' /\ sm_frame a a' /\
      forall x, 0 <= x -> sm_used a' x = sm_used a x || in_range o s x;
  sm_valid_law : forall a o s, sm_wf a -> sm_valid (sm_dev a) o s ->
    0 <= o /\ 0 < s /\ o + s <= (sm_dev a).2 <= u64_max
}.

#[export] Instance SpaceAlloc_manager : SpaceManager SpaceAlloc := {|
  sm_Allocate := SpaceAlloc_Allocate;
  sm_Free := SpaceAlloc_Free;
  sm_Mark := SpaceAlloc_Mark;
  sm_wf sa := match bitmap_alloc_ sa with Some a => wf_alloc a | None => False end;
  sm_dev sa := match bitmap_alloc_ sa with Some a => (block_size_ a, capacity_ a) | None => (0, 0) end;
  sm_valid dev o s := valid_region (mkBitmapAllocator dev.1 dev.2 []) o s;
  sm_used sa x := match bitmap_alloc_ sa with Some a => byte_used a x | None => false end
|}.

(** A set operation on blocks is the same operation on bytes. *)
Lemma byte_used_step a a' offset size (F : bool -> bool -> bool) :
  wf_alloc a -> valid_region a offset size -> block_size_ a' = block_size_ a ->
  (forall g, 0 <= g -> block_used a' g = F (block_used a g) (region_block a offset size g)) ->
  forall x, 0 <= x -> byte_used a' x = F (byte_used a x) (in_range offset size x).
Proof.
  intros W V E Hu x Hx. pose proof (wa_bs a W). unfold byte_used. rewrite E, Hu.
  - by rewrite region_block_byte by (done || lia).
  - apply Z.div_pos; lia.
Qed.

Lemma byte_region_iff a offset size b :
  wf_alloc a -> valid_region a offset size ->
  (forall x, in_range offset size x = true -> byte_used a x = b) ->
  forall g, region_block a offset size g = true -> block_used a g = b.
Proof.
  intros W V H g Hg. pose proof (wa_bs a W). specialize (H (g * block_size_ a)).
  unfold byte_used in H. rewrite Z.div_mul in H by lia. apply H.
  rewrite <- (region_block_byte a) by (done || lia). by rewrite Z.div_mul by lia.
Qed.

Lemma byte_region_iff' a offset size b :
  wf_alloc a -> valid_region a offset size ->
  (forall g, region_block a offset size g = true -> block_used a g = b) ->
  forall x, in_range offset size x = true -> byte_used a x = b.
Proof.
  intros W V H x Hx. pose proof (wa_bs a W). apply H. by rewrite region_block_byte by (done || lia).
Qed.

(** Enough blocks are reserved for the size asked for. *)
Lemma blocks_cover a want : wf_alloc a -> is_u64 want -> 0 < calcBlocksBySize a want ->
  want <= calcBlocksBySize a want * block_size_ a.
Proof.
  intros W Hw. rewrite calcBlocksBySize_spec by done. pose proof (wa_bs a W).
  destruct (_ <=? _); [|lia]. intros _.
  pose proof (Z.mul_succ_div_gt (want + block_size_ a - 1) (block_size_ a)). lia.
Qed.

Lemma valid_region_dev a o s :
  valid_region (mkBitmapAllocator (block_size_ a) (capacity_ a) []) o s <-> valid_region a o s.
Proof. done. Qed.

#[export] Instance SpaceAlloc_laws : SpaceManagerLaws SpaceAlloc.
Proof.
  split; [intros rand|..]; intros [cap [a|]]; unfold sm_frame; cbn -[valid_region]; try done.
  - intros want u W Hw Hr.
    destruct (BitmapAllocator_Allocate_cases rand a want u W Hw Hr)
      as (s & u' & a' & E & Hc). unfold SpaceAlloc_Allocate; cbn. rewrite E. cbn.
    destruct Hc as [(-> & Hn & Ha)|Hc].
    + do 3 eexists. split; [done|]. left. cbn -[valid_region].
      destruct Ha as (W' & Hbs & Hcap & _ & Hsz & V & Hf & Hu).
      split_and!; auto.
      * by rewrite Hbs, Hcap.
      * rewrite Hsz. by apply blocks_cover.
      * by apply byte_region_iff'.
      * by apply (byte_used_step a a' _ _ orb).
    + assert (Hs : ok s = false) by (unfold ok; destruct Hc as [(-> & _)|(-> & _)]; done).
      assert (u' = u /\ a' = a) as [-> ->]
        by (destruct Hc as [(_ & _ & ? & ?)|(_ & _ & ? & ? & _)]; auto).
      rewrite Hs. do 3 eexists. split; [done|]. by right.
  - intros o s W V H. apply valid_region_dev in V. unfold SpaceAlloc_Free; cbn.
    destruct (BitmapAllocator_Free_spec a o s W V) as (a' & -> & Hsd & Hu).
    { by apply byte_region_iff. }
    cbn. eexists; split; [done|]. cbn. destruct Hsd as (W' & Hbs & Hcap & _).
    rewrite Hbs, Hcap. split; [done|]. by apply (byte_used_step a a' _ _ (fun u r => u && negb r)).
  - intros o s W V H. apply valid_region_dev in V. unfold SpaceAlloc_Mark; cbn.
    destruct (BitmapAllocator_Mark_spec a o s W V) as (a' & -> & Hsd & Hu).
    { by apply byte_region_iff. }
    cbn. eexists; split; [done|]. cbn. destruct Hsd as (W' & Hbs & Hcap & _).
    rewrite Hbs, Hcap. split; [done|]. by apply (byte_used_step a a' _ _ orb).
  - intros o s W V. apply valid_region_dev in V. pose proof (valid_region_capacity a o s W V).
    pose proof (wa_cap a W). destruct V as (? & ? & _). lia.
Qed.

(** ** Correctness of the device allocator *)

(** C3: [BitmapAllocator::Allocate] on a well formed allocator always returns.
    Either it hands out a block-aligned range of the rounded-up size that lies
    inside the device and was entirely free, and marks exactly that range; or
    the requested size is zero or rounds past 2^64 and it answers
    INVALID_ARGUMENT; or no chunk has a free window on its search path and it
    answers DISK_NO_SPACE.  The failures change nothing. *)
Theorem Allocate_refines_free_set rand a want au :
  wf_alloc a -> is_u64 want -> 0 <= rand ->
  exists s au' a', BitmapAllocator_Allocate rand a want au = Some (s, au', a') /\ wf_alloc a' /\
    ((ok s = true /\ 0 < want /\
      au_size au' = (want + block_size_ a - 1) / block_size_ a * block_size_ a /\
      au_offset au' mod block_size_ a = 0 /\
      0 <= au_offset au' /\ au_offset au' + au_size au' <= capacity_ a /\
      (forall x, in_range (au_offset au') (au_size au') x = true -> byte_used a x = false) /\
      forall x, 0 <= x -> byte_used a' x = byte_used a x || in_range (au_offset au') (au_size au') x) \/
     (code s = CYPRE_ER_INVALID_ARGUMENT /\ (want = 0 \/ u64_max < want + block_size_ a - 1) /\
      au' = au /\ a' = a) \/
     (code s = CYPRE_ES_DISK_NO_SPACE /\ 0 < want /\ au' = au /\ a' = a /\
      Forall (fun c => no_window c ((want + block_size_ a - 1) / block_size_ a)) (chunks_ a))).
Proof.
  intros W Hw Hr. pose proof (wa_bs a W).
  destruct (BitmapAllocator_Allocate_cases rand a want au W Hw Hr) as (s & au' & a' & E & Hc).
  rewrite (calcBlocksBySize_spec a want W Hw) in Hc.
  assert (H0 : 0 < (want + block_size_ a - 1) / block_size_ a -> 0 < want).
  { intros. destruct (Z.eq_dec want 0) as [->|]; [|unfold is_u64 in *; lia].
    rewrite Z.div_small in * by lia. lia. }
  exists s, au', a'. split; [done|].
  destruct (Z.leb_spec (want + block_size_ a - 1) u64_max).
  2: { destruct Hc as [(_ & ? & _)|[(? & _ & -> & ->)|(_ & ? & _)]]; [lia| |lia]. auto 10. }
  destruct Hc as [(-> & Hn & Ha)|[(? & Hn & -> & ->)|(? & Hn & -> & -> & Hf)]].
  - destruct Ha as (W' & Hbs & _ & _ & Hsz & V & Hf & Hu).
    pose proof (valid_region_capacity a _ _ W V). pose proof V as (? & ? & ? & _).
    split; [done|]. left. split_and!; auto.
    + by apply byte_region_iff'.
    + by apply (byte_used_step a a' _ _ orb).
  - split; [done|]. right; left. split_and!; auto. left.
    apply Z.div_small_iff in Hn; unfold is_u64 in *; lia.
  - split; [done|]. right; right. auto 10.
Qed.

Definition demo_alloc : BitmapAllocator :=
  mkBitmapAllocator 4096 20480 (Init_chunks 4096 5 0 1).

Lemma demo_alloc_wf : wf_alloc demo_alloc.
Proof.
  destruct (BitmapAllocator_Init_ok 4096 20480) as (a & E & W & _);
    try (unfold is_u64, u64_max; lia); [done|].
  vm_compute in E. inversion E. subst a. exact W.
Qed.

Lemma Allocate_refines_free_set_witness :
  exists s au a, BitmapAllocator_Allocate 7 demo_alloc 8192 AUnit_default = Some (s, au, a) /\
    wf_alloc a /\ ok s = true /\ au = mkAUnit 0 8192.
Proof.
  destruct (Allocate_refines_free_set 7 demo_alloc 8192 AUnit_default demo_alloc_wf)
    as (s & au & a & E & W & _); [unfold is_u64, u64_max; lia|lia|].
  exists s, au, a. split; [exact E|]. split; [exact W|].
  vm_compute in E. inversion E. split; reflexivity.
Defined.

(** a range that [Allocate] handed out can be given back: [Free] on it is
    defined, and the result has exactly the used bytes and the number of free
    blocks the allocator had before. *)
Theorem Free_undoes_Allocate rand a want au s au' a' :
  wf_alloc a -> is_u64 want -> 0 <= rand ->
  BitmapAllocator_Allocate rand a want au = Some (s, au', a') -> ok s = true ->
  exists a'', BitmapAllocator_Free a' (au_offset au') (au_size au') = Some a'' /\ wf_alloc a'' /\
    (forall x, 0 <= x -> byte_used a'' x = byte_used a x) /\
    BitmapAllocator_FreeBlocks a'' = BitmapAllocator_FreeBlocks a.
Proof.
  intros W Hw Hr E Hok.
  destruct (BitmapAllocator_Allocate_cases rand a want au W Hw Hr) as (s1 & au1 & a1 & E' & Hc).
  rewrite E in E'. injection E' as <- <- <-.
  destruct Hc as [(-> & Hn & Ha)|[(Hc & _)|(Hc & _)]]; [|unfold ok in Hok; rewrite Hc in Hok; done..].
  pose proof (allocated_same_device _ _ _ _ Ha) as Hsd.
  destruct Ha as (W' & Hbs & Hcap & Hlen & _ & V & Hf & Hu).
  assert (V' : valid_region a' (au_offset au') (au_size au')) by eauto with cypre.
  assert (Hpos : forall g, region_block a (au_offset au') (au_size au') g = true -> 0 <= g).
  { intros g Hg. apply in_range_spec in Hg. pose proof (wa_bs a W). destruct V as (? & _).
    assert (0 <= au_offset au' / block_size_ a) by (apply Z.div_pos; lia). lia. }
  destruct (BitmapAllocator_Free_spec a' (au_offset au') (au_size au') W' V')
    as (a'' & -> & (W'' & Hbs' & Hcap' & Hlen') & Hu').
  { intros g Hg. rewrite (region_block_same a a') in Hg by done. rewrite Hu by auto.
    by rewrite Hg, orb_true_r. }
  assert (Hblk : forall g, 0 <= g -> block_used a'' g = block_used a g).
  { intros g Hg. rewrite Hu', Hu, (region_block_same a a') by done.
    destruct (region_block a _ _ g) eqn:R; [|by rewrite orb_false_r, andb_true_r].
    by rewrite andb_false_r, Hf. }
  exists a''. split_and!; auto.
  - intros x Hx. unfold byte_used. rewrite Hbs', Hbs. apply Hblk, Z.div_pos; [lia|].
    pose proof (wa_bs a W). lia.
  - unfold BitmapAllocator_FreeBlocks. destruct (wf_NumChunks a W) as [-> _].
    destruct (wf_NumChunks a'' W'') as [-> _]. rewrite Hlen', Hlen, Nat2Z.id.
    destruct (sum_chunks_count a (length (chunks_ a)) W) as [_ ->]; [lia|].
    destruct (sum_chunks_count a'' (length (chunks_ a)) W'') as [_ ->]; [lia|].
    unfold NumBlocks. rewrite Hbs', Hbs, Hcap', Hcap. do 2 f_equal.
    apply count_below_ext. intros. apply Hblk. lia.
Qed.

Lemma Free_undoes_Allocate_witness :
  exists s au a a', BitmapAllocator_Allocate 3 demo_alloc 4097 AUnit_default = Some (s, au, a) /\
    BitmapAllocator_Free a (au_offset au) (au_size au) = Some a' /\
    BitmapAllocator_FreeBlocks a' = Some 5 /\ BitmapAllocator_FreeBlocks a = Some 3.
Proof.
  destruct (BitmapAllocator_Allocate 3 demo_alloc 4097 AUnit_default) as [[[s au] a]|] eqn:E;
    [|vm_compute in E; discriminate].
  exists s, au, a.
  destruct (Free_undoes_Allocate 3 demo_alloc 4097 AUnit_default s au a demo_alloc_wf)
    as (a' & F & _ & _ & N); [unfold is_u64, u64_max; lia|lia|exact E| |].
  - vm_compute in E. injection E as <- _ _. reflexivity.
  - exists a'. split; [reflexivity|]. split; [exact F|]. split; [exact N|].
    vm_compute in E. injection E as _ _ <-. reflexivity.
Defined.

(** [Init] accepts exactly the non-zero, 4096-aligned block sizes that fit
    the capacity, and then the allocator is well formed with every block of
    the device free; otherwise it answers INVALID_ARGUMENT and sets nothing. *)
Theorem Init_partitions_device bs cap :
  is_u64 bs -> is_u64 cap ->
  (bs <> 0 /\ bs mod kAlignSize = 0 /\ bs <= cap ->
   exists a, BitmapAllocator_Init bs cap = (Status_default, Some a) /\ wf_alloc a /\
     block_size_ a = bs /\ capacity_ a = cap /\
     (forall x, byte_used a x = false) /\
     BitmapAllocator_FreeBlocks a = Some (cap / bs) /\ BitmapAllocator_UsedBlocks a = Some 0) /\
  (~ (bs <> 0 /\ bs mod kAlignSize = 0 /\ bs <= cap) ->
   exists s, BitmapAllocator_Init bs cap = (s, None) /\ code s = CYPRE_ER_INVALID_ARGUMENT).
Proof.
  intros Hb Hc. split.
  - intros (H0 & H1 & H2). destruct (BitmapAllocator_Init_ok bs cap) as (a & E & W & <- & <- & Hu); auto.
    exists a. split_and!; auto; [intros; apply Hu| |];
      unfold BitmapAllocator_FreeBlocks, BitmapAllocator_UsedBlocks;
      destruct (wf_NumChunks a W) as [-> _]; rewrite Nat2Z.id;
      destruct (sum_chunks_count a (length (chunks_ a)) W) as [E1 E2]; [lia| |lia|];
      rewrite ?E1, ?E2, (count_below_ext _ (fun _ => false)) by auto;
      assert (Hz : forall n, count_below (fun _ => false) n = 0) by (induction n; simpl; lia);
      rewrite Hz; f_equal. fold (NumBlocks a).
    pose proof (wa_len a W). destruct (wf_NumBlocks a W) as [? _].
    unfold blocks_upto, kMaxBlocksPerChunk in *. lia.
  - intros Hn. unfold BitmapAllocator_Init.
    replace (_ || _ || _) with true; [by eexists|]. symmetry.
    apply not_false_iff_true. rewrite !orb_false_iff, negb_false_iff, Z.eqb_eq, Z.eqb_neq, Z.ltb_ge.
    tauto.
Qed.

Lemma Init_partitions_device_witness :
  exists a, BitmapAllocator_Init 4096 20480 = (Status_default, Some a) /\
    BitmapAllocator_FreeBlocks a = Some 5.
Proof.
  destruct (Init_partitions_device 4096 20480) as [H _]; [unfold is_u64, u64_max; lia..|].
  destruct H as (a & E & _ & _ & _ & _ & F & _); [split_and!; [lia|reflexivity|lia]|].
  exists a. split; [exact E|exact F].
Defined.

(** used and free blocks partition the device: on a well formed allocator
    [UsedBlocks] counts exactly the used blocks and [FreeBlocks] the rest. *)
Theorem used_free_partition a :
  wf_alloc a ->
  exists u f, BitmapAllocator_UsedBlocks a = Some u /\ BitmapAllocator_FreeBlocks a = Some f /\
    u = count_below (block_used a) (Z.to_nat (NumBlocks a)) /\ u + f = NumBlocks a /\
    BitmapAllocator_UsedSize a = Some (u * block_size_ a).
Proof.
  intros W. destruct (sum_chunks_count a (length (chunks_ a)) W) as [E1 E2]; [lia|].
  unfold BitmapAllocator_UsedSize, BitmapAllocator_UsedBlocks, BitmapAllocator_FreeBlocks.
  destruct (wf_NumChunks a W) as [-> _]. rewrite Nat2Z.id, E1, E2.
  destruct (wf_NumBlocks a W) as (? & ? & _). pose proof (wa_cap a W). pose proof (wa_bs a W).
  assert (Hb : blocks_upto (NumBlocks a) (length (chunks_ a)) = NumBlocks a).
  { pose proof (wa_len a W). unfold blocks_upto, kMaxBlocksPerChunk in *. lia. }
  rewrite Hb. do 2 eexists. split; [done|]. split; [done|]. split; [done|]. split; [lia|].
  cbn. pose proof (count_below_bound (block_used a) (Z.to_nat (NumBlocks a))).
  rewrite wrap64_small; [done|]. unfold is_u64. nia.
Qed.

Lemma used_free_partition_witness :
  exists u f, BitmapAllocator_UsedBlocks demo_alloc = Some u /\
    BitmapAllocator_FreeBlocks demo_alloc = Some f /\ u + f = 5.
Proof.
  destruct (used_free_partition demo_alloc demo_alloc_wf) as (u & f & E1 & E2 & _ & E & _).
  exists u, f. split; [exact E1|]. split; [exact E2|exact E].
Defined.

(** after [Mark] of a range that ends at the last block of a chunk, as
    recovery does for an extent stored there, the chunk refuses every
    allocation although all its other blocks are free: the search starts at
    the end of the range marked last. *)
Theorem Mark_hides_free_blocks c offset size c' n au :
  wf_chunk c -> 0 <= size -> 0 <= chunk_begin c offset ->
  chunk_begin c offset + size / chunk_block_size_ c = num_blocks_ c ->
  chunk_range_free c (chunk_begin c offset) (size / chunk_block_size_ c) ->
  Chunk_Mark c offset size = Some c' -> 0 < n ->
  exists s, Chunk_Allocate c' n au = Some (s, au, c') /\ code s = CYPRE_ES_DISK_NO_SPACE.
Proof.
  intros W Hs Hb He Hf HM Hn.
  destruct (chunk_range_args c offset size) as (E1 & E2 & ?); auto; [lia|].
  unfold Chunk_Mark in HM. rewrite E1, E2 in HM.
  destruct (setBlock_spec c (chunk_begin c offset) (size / chunk_block_size_ c))
    as (c1 & E & W' & _ & Hnb & _ & _ & Hlast & _); auto; [lia|].
  assert (c1 = c') as -> by congruence.
  destruct (Chunk_Allocate_spec c' n au W' Hn) as (s & au' & c2 & -> & Hr).
  destruct Hr as [(_ & _ & _ & b & k & ? & ? & _ & Hk & Hw & _)|(? & -> & -> & _)]; [|eauto].
  exfalso. unfold window in Hw. nia.
Qed.

Lemma Mark_hides_free_blocks_witness :
  exists c s, Chunk_Mark (Chunk_new 0 4 4096) 12288 4096 = Some c /\ num_free_blocks_ c = 3 /\
    Chunk_Allocate c 1 AUnit_default = Some (s, AUnit_default, c) /\
    code s = CYPRE_ES_DISK_NO_SPACE.
Proof.
  destruct (Chunk_Mark (Chunk_new 0 4 4096) 12288 4096) as [c|] eqn:E; [|vm_compute in E; discriminate].
  destruct (Mark_hides_free_blocks (Chunk_new 0 4 4096) 12288 4096 c 1 AUnit_default)
    as (s & E1 & E2).
  - apply Chunk_new_wf; unfold kMaxBlocksPerChunk, u64_max; lia.
  - lia.
  - vm_compute. discriminate.
  - vm_compute. reflexivity.
  - intros j _. apply bit_replicate.
  - exact E.
  - lia.
  - exists c, s. split; [reflexivity|]. split; [|split; [exact E1|exact E2]].
    vm_compute in E. injection E as <-. reflexivity.
Defined.
