(* ===== verification/Codec.v ===== *)
(** * Stored values

    The binary form in which every manager stores its records: cereal's binary
    archive (src/src/cereal: archives/binary.hpp, types/string.hpp,
    types/vector.hpp, types/common.hpp, class versions of cereal.hpp), the
    32-bit trailer of src/src/utils/coding.cpp and the checksummed
    [Serializer] of src/src/utils/serializer.h.

    A C++ [std::string] is a [string] of bytes; integers are stored as the
    bytes of a little-endian host.  Loading past the end of the archive throws
    in the source and is [None] here.  The CRC32C of butil is a parameter. *)

From Stdlib Require Import Ascii.
From S2P Require Import Prelude Status.

#[local] Open Scope string_scope.
#[local] Open Scope Z_scope.

(** ** Bytes of integers *)

Fixpoint le_bytes (n : nat) (z : Z) : string :=
  match n with
  | O => EmptyString
  | S n' => String (ascii_of_N (Z.to_N (z mod 256))) (le_bytes n' (z / 256))
  end.

Fixpoint le_value (s : string) : Z :=
  match s with
  | EmptyString => 0
  | String c s' => Z.of_N (N_of_ascii c) + 256 * le_value s'
  end.

Definition slen (s : string) : Z := Z.of_nat (String.length s).

Lemma le_bytes_length n z : String.length (le_bytes n z) = n.
Proof. revert z. induction n; intros; simpl; auto. Qed.

Lemma le_value_bytes n z : 0 <= z < 256 ^ Z.of_nat n -> le_value (le_bytes n z) = z.
Proof.
  revert z. induction n as [|n IH]; intros z Hz.
  - simpl in *. lia.
  - cbn [le_bytes le_value]. rewrite N_ascii_embedding by lia.
    rewrite Z2N.id by lia. rewrite IH; [lia|].
    rewrite Nat2Z.inj_succ, Z.pow_succ_r in Hz by lia. lia.
Qed.

Lemma le_value_range s : 0 <= le_value s < 256 ^ slen s.
Proof.
  unfold slen. induction s as [|c s IH]; cbn [le_value String.length]; [simpl; lia|].
  rewrite Nat2Z.inj_succ, Z.pow_succ_r by lia.
  pose proof (N_ascii_bounded c). lia.
Qed.

Lemma str_append_assoc (a b c : string) : (a ++ b ++ c = (a ++ b) ++ c)%string.
Proof. induction a; simpl; congruence. Qed.

Lemma str_append_nil_r (a : string) : (a ++ "" = a)%string.
Proof. induction a; simpl; congruence. Qed.

Lemma str_append_length a b : String.length (a ++ b)%string = (String.length a + String.length b)%nat.
Proof. induction a; simpl; congruence. Qed.

(** ** The binary archive *)

(** [loadBinary]: the next [n] bytes and what follows. *)
Fixpoint loadBinary (n : nat) (s : string) : option (string * string) :=
  match n with
  | O => Some (EmptyString, s)
  | S n' =>
      match s with
      | EmptyString => None
      | String c s' => '(h, t) ← loadBinary n' s'; Some (String c h, t)
      end
  end.

Lemma loadBinary_app a rest : loadBinary (String.length a) (a ++ rest)%string = Some (a, rest).
Proof. induction a as [|c a IH]; simpl; [done|]. by rewrite IH. Qed.

(** A serialisable type: how it is saved and loaded, and the values that its
    representation can hold. *)
Record codec (A : Type) : Type := mkCodec {
  save : A -> string;
  load : string -> option (A * string);
  storable : A -> Prop
}.
Arguments mkCodec {A}.
Arguments save {A}.
Arguments load {A}.
Arguments storable {A}.

Definition codec_ok {A} (c : codec A) : Prop :=
  forall a rest, storable c a -> load c (save c a ++ rest)%string = Some (a, rest).

(** Arithmetic types: the bytes of the object. *)
Definition uint_codec (n : nat) : codec Z := {|
  save := le_bytes n;
  load s := '(h, t) ← loadBinary n s; Some (le_value h, t);
  storable z := 0 <= z < 256 ^ Z.of_nat n
|}.

Definition u64_codec : codec Z := uint_codec 8.
Definition u32_codec : codec Z := uint_codec 4.

(** [int] and the enumerations, whose underlying type is [int]. *)
Definition to_int32 (z : Z) : Z := if z <? 2147483648 then z else z - 4294967296.
Definition int_codec : codec Z := {|
  save z := le_bytes 4 (wrap32 z);
  load s := '(h, t) ← loadBinary 4 s; Some (to_int32 (le_value h), t);
  storable z := -2147483648 <= z < 2147483648
|}.

(** [std::string]: a 64-bit size tag, then the characters. *)
Definition string_codec : codec string := {|
  save str := (save u64_codec (slen str) ++ str)%string;
  load s :=
    '(size, s1) ← load u64_codec s;
    loadBinary (Z.to_nat size) s1;
  storable str := slen str <= u64_max
|}.

(** [std::vector] of a non-arithmetic type: a 64-bit size tag, then the
    elements. *)
Fixpoint load_elems {A} (c : codec A) (n : nat) (s : string) : option (list A * string) :=
  match n with
  | O => Some ([], s)
  | S n' => '(a, s1) ← load c s; '(l, s2) ← load_elems c n' s1; Some (a :: l, s2)
  end.

Fixpoint save_elems {A} (c : codec A) (l : list A) : string :=
  match l with
  | [] => ""
  | a :: l' => (save c a ++ save_elems c l')%string
  end.

Definition vector_codec {A} (c : codec A) : codec (list A) := {|
  save l := (save u64_codec (Z.of_nat (length l)) ++ save_elems c l)%string;
  load s := '(size, s1) ← load u64_codec s; load_elems c (Z.to_nat size) s1;
  storable l := Z.of_nat (length l) <= u64_max /\ Forall (storable c) l
|}.

(** A class with a [CEREAL_CLASS_VERSION]: the 32-bit version precedes the
    members, which may depend on it when loaded. *)
Definition versioned {A} (version : Z) (members : Z -> codec A) : codec A := {|
  save a := (save u32_codec version ++ save (members version) a)%string;
  load s := '(v, s1) ← load u32_codec s; load (members v) s1;
  storable a := storable (members version) a
|}.

(** ** Round trips *)

Lemma uint_codec_ok n : codec_ok (uint_codec n).
Proof.
  intros z rest Hz. cbn. rewrite <- (le_bytes_length n z) at 1. rewrite loadBinary_app. cbn.
  by rewrite le_value_bytes.
Qed.

Lemma u64_codec_ok : codec_ok u64_codec.
Proof. apply uint_codec_ok. Qed.

Lemma u32_codec_ok : codec_ok u32_codec.
Proof. apply uint_codec_ok. Qed.

Lemma int_codec_ok : codec_ok int_codec.
Proof.
  intros z rest Hz. cbn [load int_codec save].
  rewrite <- (le_bytes_length 4 (wrap32 z)) at 1. rewrite loadBinary_app. cbn [mbind option_bind].
  rewrite le_value_bytes by (change (256 ^ Z.of_nat 4) with 4294967296; unfold wrap32; lia).
  do 2 f_equal. cbn in Hz. unfold to_int32, wrap32.
  destruct (Z.ltb_spec (z mod 4294967296) 2147483648); lia.
Qed.

Lemma storable_u64 z : is_u64 z -> storable u64_codec z.
Proof. unfold is_u64, u64_max. cbn. lia. Qed.

Lemma storable_u32 z : is_u32 z -> storable u32_codec z.
Proof. unfold is_u32. cbn. lia. Qed.

Lemma slen_app a b : slen (a +:+ b) = slen a + slen b.
Proof. unfold slen. rewrite str_append_length. lia. Qed.

Lemma substring_all s : substring 0 (String.length s) s = s.
Proof. induction s; cbn; congruence. Qed.

Lemma slen_nonneg s : 0 <= slen s.
Proof. unfold slen. lia. Qed.

Lemma string_codec_ok : codec_ok string_codec.
Proof.
  intros s rest Hs. cbn [save load string_codec]. rewrite <- str_append_assoc.
  rewrite u64_codec_ok; [|apply storable_u64; pose proof (slen_nonneg s); unfold is_u64; cbn in Hs; lia].
  cbn [mbind option_bind]. unfold slen. rewrite Nat2Z.id. apply loadBinary_app.
Qed.

Lemma load_elems_ok {A} (c : codec A) l rest :
  codec_ok c -> Forall (storable c) l ->
  load_elems c (length l) (save_elems c l ++ rest)%string = Some (l, rest).
Proof.
  intros Hc. induction 1 as [|a l Ha _ IH]; [done|].
  cbn. rewrite <- str_append_assoc, Hc by done. cbn. by rewrite IH.
Qed.

Lemma vector_codec_ok {A} (c : codec A) : codec_ok c -> codec_ok (vector_codec c).
Proof.
  intros Hc l rest [Hl Hf]. cbn [save load vector_codec]. rewrite <- str_append_assoc.
  rewrite u64_codec_ok by (apply storable_u64; unfold is_u64; lia).
  cbn [mbind option_bind]. rewrite Nat2Z.id. by apply load_elems_ok.
Qed.

Lemma versioned_load {A} v (m : Z -> codec A) a b rest : is_u32 v ->
  load (m v) (save (m v) a ++ rest)%string = Some (b, rest) ->
  load (versioned v m) (save (versioned v m) a ++ rest)%string = Some (b, rest).
Proof.
  intros Hv Hm. cbn [save load versioned]. rewrite <- str_append_assoc.
  rewrite u32_codec_ok by (by apply storable_u32). by cbn.
Qed.

Lemma versioned_ok {A} v (m : Z -> codec A) : is_u32 v -> codec_ok (m v) -> codec_ok (versioned v m).
Proof. intros Hv Hm a rest Ha. apply versioned_load; [done|]. by apply Hm. Qed.

Create HintDb codec.
#[export] Hint Resolve u64_codec_ok u32_codec_ok int_codec_ok string_codec_ok vector_codec_ok : codec.

(** Runs the loads of a record's members over the bytes its saves wrote. *)
Ltac archive :=
  repeat (rewrite <- ?str_append_assoc;
    match goal with
    | |- context [load ?c (save ?c ?a ++ ?r)%string] =>
        rewrite (ltac:(eauto with codec) : codec_ok c) by tauto; cbn [mbind option_bind]
    end).

(** ** The checksummed serializer *)

Definition PutFixed32 (dst : string) (value : Z) : string := (dst ++ le_bytes 4 value)%string.

Definition DecodeFixed32 (ptr : string) : option Z :=
  '(h, _) ← loadBinary 4 ptr; Some (le_value h).

(** [None]: less than four bytes; else the trailer and the string without it.
    [left] is an [int], so a string of 2^31 bytes or more counts as short. *)
Definition GetFixed32 (input : string) : option (Z * string) :=
  let left := to_int32 (wrap32 (slen input - 4)) in
  if left <? 0 then None
  else
    '(h, t) ← loadBinary (Z.to_nat left) input;
    value ← DecodeFixed32 t;
    Some (value, h).

Class Crc32c := crc32c : string -> Z.

Section Serializer.
Context `{Crc32c} {A : Type} (c : codec A).

Definition Crc32_Checksum (data : string) : Z := wrap32 (crc32c data).

Definition Serializer_Encode (input : A) : string :=
  let output := save c input in
  let crc32_value := Crc32_Checksum output in
  PutFixed32 output crc32_value.

(** [Some true]/[Some false] is the result of [Decode]; [None] is cereal's
    exception on an archive that is too short. *)
Inductive decode_result : Type :=
  | Decoded (output : A)
  | DecodeFailed
  | DecodeThrows.

Definition Serializer_Decode (input : string) : decode_result :=
  match GetFixed32 input with
  | None => DecodeFailed
  | Some (crc32, data) =>
      let expected_crc32 := Crc32_Checksum data in
      if negb (crc32 =? expected_crc32) then DecodeFailed
      else match load c data with
           | Some (output, _) => Decoded output
           | None => DecodeThrows
           end
  end.
End Serializer.
Arguments decode_result : clear implicits.
Arguments Decoded {A}.
Arguments DecodeFailed {A}.
Arguments DecodeThrows {A}.

Lemma GetFixed32_Put s v :
  is_u32 v -> slen s < 2147483648 -> GetFixed32 (PutFixed32 s v) = Some (v, s).
Proof.
  intros Hv Hs. unfold GetFixed32, PutFixed32.
  assert (Hl : slen (s ++ le_bytes 4 v)%string - 4 = slen s).
  { unfold slen. rewrite str_append_length, le_bytes_length. lia. }
  pose proof (slen_nonneg s).
  rewrite Hl. unfold wrap32. rewrite Z.mod_small by lia. unfold to_int32.
  destruct (Z.ltb_spec (slen s) 2147483648); [|lia].
  destruct (Z.ltb_spec (slen s) 0); [lia|].
  unfold slen. rewrite Nat2Z.id, loadBinary_app. cbn [mbind option_bind].
  unfold DecodeFixed32. rewrite <- (str_append_nil_r (le_bytes 4 v)).
  rewrite <- (le_bytes_length 4 v) at 1. rewrite loadBinary_app. cbn [mbind option_bind].
  by rewrite le_value_bytes by (unfold is_u32 in Hv; cbn; lia).
Qed.

(** What [Decode] makes of a record, when [load] gives [b] for it. *)
Lemma Serializer_decodes `{Crc32c} {A} (c : codec A) a b :
  load c (save c a) = Some (b, "") -> slen (save c a) < 2147483648 ->
  Serializer_Decode c (Serializer_Encode c a) = Decoded b.
Proof.
  intros Ha Hl. unfold Serializer_Decode, Serializer_Encode.
  rewrite GetFixed32_Put by (auto; apply wrap32_is_u32).
  rewrite Z.eqb_refl. cbn. by rewrite Ha.
Qed.

Lemma Serializer_roundtrip `{Crc32c} {A} (c : codec A) a :
  codec_ok c -> storable c a -> slen (save c a) < 2147483648 ->
  Serializer_Decode c (Serializer_Encode c a) = Decoded a.
Proof.
  intros Hc Ha Hl. apply Serializer_decodes; [|done]. rewrite <- (str_append_nil_r (save c a)). by rewrite Hc.
Qed.

(** A checksum function to run the examples with. *)
Definition example_crc : Crc32c := slen.
