(* ===== verification/KvStore.v ===== *)
(** * Key-value store

    [RocksStore] (src/src/kvstore/rocks_store.h and .cpp) over RocksDB.  The
    database itself is third-party code: the class [RocksDB] lists the calls
    the wrapper makes, [RocksDBLaws] states their documented behaviour in
    terms of the map of stored entries, and [MemDB] is a concrete database,
    with a script of write failures, that satisfies them. *)

From Stdlib Require Import Ascii.
From stdpp Require Import sorting.
From S2P Require Import Prelude Status.

(** ** The database *)

Inductive RdbStatus : Type :=
  | RdbOk
  | RdbNotFound
  | RdbError (text : string).

Inductive BatchOp : Type :=
  | BatchPut (key value : string)
  | BatchDelete (key : string).

Definition KV : Type := string * string.

Class RocksDB (DB : Type) := {
  rdb_Put : DB -> string -> string -> RdbStatus * DB;
  rdb_Write : DB -> list BatchOp -> RdbStatus * DB;
  rdb_Get : DB -> string -> RdbStatus * string;
  rdb_Delete : DB -> string -> RdbStatus * DB;
  rdb_Seek : DB -> string -> list KV;
  rdb_ToString : RdbStatus -> string;
  rdb_view : DB -> gmap string string
}.

Definition batch_apply (m : gmap string string) (op : BatchOp) : gmap string string :=
  match op with
  | BatchPut k v => <[k := v]> m
  | BatchDelete k => delete k m
  end.

Definition key_le (x y : KV) : Prop := String.leb x.1 y.1 = true.

(** A write that reports success is applied, one that reports an error is not;
    a read reports what is stored; an iterator placed with [Seek] yields the
    entries from that key on, in ascending byte order. *)
Class RocksDBLaws (DB : Type) `{RocksDB DB} : Prop := {
  rdb_put_law : forall d k v st d', rdb_Put d k v = (st, d') ->
    rdb_view d' = match st with RdbOk => <[k := v]> (rdb_view d) | _ => rdb_view d end;
  rdb_write_law : forall d ops st d', rdb_Write d ops = (st, d') ->
    rdb_view d' = match st with RdbOk => foldl batch_apply (rdb_view d) ops | _ => rdb_view d end;
  rdb_delete_law : forall d k st d', rdb_Delete d k = (st, d') ->
    rdb_view d' = match st with RdbOk => delete k (rdb_view d) | _ => rdb_view d end;
  rdb_get_law : forall d k st v, rdb_Get d k = (st, v) ->
    match st with
    | RdbOk => rdb_view d !! k = Some v
    | RdbNotFound => rdb_view d !! k = None
    | RdbError _ => True
    end;
  rdb_seek_sorted_law : forall d k, StronglySorted key_le (rdb_Seek d k);
  rdb_seek_nodup_law : forall d k, NoDup (rdb_Seek d k).*1;
  rdb_seek_elem_law : forall d k k' v,
    (k', v) ∈ rdb_Seek d k <-> rdb_view d !! k' = Some v /\ String.leb k k' = true
}.

(** ** RocksStore *)

Definition RocksStatus : Type := RdbStatus.

Definition RocksStatus_ok (s : RocksStatus) : bool :=
  match s with RdbOk => true | _ => false end.
Definition RocksStatus_IsNotFound (s : RocksStatus) : bool :=
  match s with RdbNotFound => true | _ => false end.

Section RocksStore.
Context `{RocksDB DB}.

Definition RocksStatus_ToString (s : RocksStatus) : string := rdb_ToString s.

Definition RocksStore_Put (db_ : DB) (key value : string) : RocksStatus * DB :=
  rdb_Put db_ key value.

Definition RocksStore_MultiPut (db_ : DB) (kvs : list KV) : RocksStatus * DB :=
  let updates := map (fun kv => BatchPut kv.1 kv.2) kvs in
  rdb_Write db_ updates.

Definition RocksStore_Get (db_ : DB) (key : string) : RocksStatus * string := rdb_Get db_ key.

Definition RocksStore_Delete (db_ : DB) (key : string) : RocksStatus * DB := rdb_Delete db_ key.

Definition RocksStore_MultiDelete (db_ : DB) (keys : list string) : RocksStatus * DB :=
  let updates := map BatchDelete keys in
  rdb_Write db_ updates.

(** [RocksPrefixIter]: the entries the underlying iterator still has, and the
    prefix it stops at. *)
Record RocksPrefixIter : Type := mkRocksPrefixIter { iter_ : list KV; prefix_ : string }.

Definition RocksPrefixIter_Valid (it : RocksPrefixIter) : bool :=
  match iter_ it with
  | [] => false
  | (k, _) :: _ => String.prefix (prefix_ it) k
  end.

Definition RocksPrefixIter_Next (it : RocksPrefixIter) : RocksPrefixIter :=
  mkRocksPrefixIter (tail (iter_ it)) (prefix_ it).

Definition RocksPrefixIter_value (it : RocksPrefixIter) : string :=
  match iter_ it with [] => "" | (_, v) :: _ => v end.

Definition RocksStore_ScanPrefix (db_ : DB) (prefix : string) : RocksStatus * RocksPrefixIter :=
  (RdbOk, mkRocksPrefixIter (rdb_Seek db_ prefix) prefix).

(** The values a loop [while (iter->Valid()) { ... iter->Next(); }] sees. *)
Fixpoint iter_values (prefix : string) (l : list KV) : list KV :=
  match l with
  | [] => []
  | kv :: l' =>
      if RocksPrefixIter_Valid (mkRocksPrefixIter (kv :: l') prefix)
      then kv :: iter_values prefix l' else []
  end.

Definition scan_values (it : RocksPrefixIter) : list KV := iter_values (prefix_ it) (iter_ it).
End RocksStore.

(** ** Byte order and prefixes *)

Lemma ascii_compare_refl a : Ascii.compare a a = Eq.
Proof. unfold Ascii.compare. apply N.compare_refl. Qed.

Lemma leb_cons_inv a s b t : String.leb (String a s) (String b t) = true ->
  Ascii.compare a b = Lt \/ (a = b /\ String.leb s t = true).
Proof.
  unfold String.leb. cbn. destruct (Ascii.compare a b) eqn:E; auto; [|done].
  apply Ascii.compare_eq_iff in E. auto.
Qed.

Lemma leb_cons a s t : String.leb s t = true -> String.leb (String a s) (String a t) = true.
Proof.
  unfold String.leb. cbn. by rewrite ascii_compare_refl.
Qed.

Lemma prefix_leb p : forall k, String.prefix p k = true -> String.leb p k = true.
Proof.
  induction p as [|c p IH]; intros [|d k] Hp; [done..|].
  cbn in Hp. destruct (ascii_dec c d) as [->|]; [|done]. apply leb_cons. auto.
Qed.

Lemma prefix_app p s : String.prefix p (p +:+ s) = true.
Proof. induction p as [|c p IH]; [by destruct s|]. cbn. by destruct (ascii_dec c c). Qed.

Lemma prefix_split p : forall k, String.prefix p k = true -> exists s, k = p +:+ s.
Proof.
  induction p as [|c p IH]; intros k Hp; [by exists k|].
  destruct k as [|d k]; [done|]. cbn in Hp. destruct (ascii_dec c d) as [<-|]; [|done].
  destruct (IH k Hp) as [s ->]. by exists s.
Qed.

(** Keys between two keys with a prefix have the prefix. *)
Lemma prefix_convex p : forall k m,
  String.leb p k = true -> String.leb k m = true -> String.prefix p m = true ->
  String.prefix p k = true.
Proof.
  induction p as [|c p IH]; intros k m H1 H2 H3; [by destruct k|].
  destruct m as [|e m]; [done|]. destruct k as [|d k]; [done|].
  cbn in H3. destruct (ascii_dec c e) as [<-|]; [|done].
  apply leb_cons_inv in H1 as [H1|[-> H1]].
  - apply leb_cons_inv in H2 as [H2|[-> H2]].
    + rewrite Ascii.compare_antisym, H2 in H1. done.
    + pose proof (ascii_compare_refl c). congruence.
  - apply leb_cons_inv in H2 as [H2|[_ H2]].
    + pose proof (ascii_compare_refl d). congruence.
    + cbn. destruct (ascii_dec d d); [|done]. eauto.
Qed.

Lemma iter_values_spec p l :
  StronglySorted key_le l -> Forall (fun kv => String.leb p kv.1 = true) l ->
  iter_values p l = filter (fun kv => String.prefix p kv.1 = true) l.
Proof.
  induction 1 as [|[k v] l Hs IH Hall]; intros Hp; [done|]. inversion Hp; subst.
  cbn [iter_values]. unfold RocksPrefixIter_Valid; cbn [iter_ prefix_].
  rewrite filter_cons. cbn [fst]. destruct (String.prefix p k) eqn:E.
  - rewrite decide_True by done. f_equal. auto.
  - rewrite decide_False by done. etransitivity; [|apply IH; done].
    destruct l as [|[k' v'] l]; [done|]. cbn.
    unfold RocksPrefixIter_Valid; cbn. destruct (String.prefix p k') eqn:E'; [|done].
    inversion Hall as [|? ? Hle]; subst.
    rewrite (prefix_convex p k k') in E; done.
Qed.

(** A prefix scan sees exactly the stored entries with the prefix, once. *)
Lemma scan_values_elem `{RocksDBLaws DB} (d : DB) p k v :
  (k, v) ∈ scan_values (RocksStore_ScanPrefix d p).2 <->
  rdb_view d !! k = Some v /\ String.prefix p k = true.
Proof.
  unfold scan_values; cbn. rewrite iter_values_spec.
  - rewrite list_elem_of_filter. rewrite rdb_seek_elem_law. cbn.
    split; [tauto|]. intros [? ?]. auto using prefix_leb.
  - apply rdb_seek_sorted_law.
  - apply Forall_forall. intros [k' v'] Hin. by apply rdb_seek_elem_law in Hin as [_ ?].
Qed.

Lemma scan_values_nodup `{RocksDBLaws DB} (d : DB) p :
  NoDup (scan_values (RocksStore_ScanPrefix d p).2).*1.
Proof.
  unfold scan_values; cbn. rewrite iter_values_spec.
  - eapply sublist_NoDup; [apply (rdb_seek_nodup_law d p)|].
    apply fmap_sublist, sublist_filter.
  - apply rdb_seek_sorted_law.
  - apply Forall_forall. intros [k' v'] Hin. by apply rdb_seek_elem_law in Hin as [_ ?].
Qed.

Lemma multiput_view `{RocksDBLaws DB} (d : DB) kvs st d' :
  RocksStore_MultiPut d kvs = (st, d') ->
  rdb_view d' = if RocksStatus_ok st then foldl (fun m kv => <[kv.1 := kv.2]> m) (rdb_view d) kvs
                else rdb_view d.
Proof.
  intros E. rewrite (rdb_write_law _ _ _ _ E). destruct st; try done. cbn.
  generalize (rdb_view d). clear. induction kvs; cbn; auto.
Qed.

Lemma put_view `{RocksDBLaws DB} (d : DB) k v st d' :
  RocksStore_Put d k v = (st, d') ->
  rdb_view d' = if RocksStatus_ok st then <[k := v]> (rdb_view d) else rdb_view d.
Proof. intros E. rewrite (rdb_put_law _ _ _ _ _ E). by destruct st. Qed.

Lemma delete_view `{RocksDBLaws DB} (d : DB) k st d' :
  RocksStore_Delete d k = (st, d') ->
  rdb_view d' = if RocksStatus_ok st then delete k (rdb_view d) else rdb_view d.
Proof. intros E. rewrite (rdb_delete_law _ _ _ _ E). by destruct st. Qed.

Lemma put_view_fail `{RocksDBLaws DB} (d : DB) k v st d' :
  RocksStore_Put d k v = (st, d') -> negb (RocksStatus_ok st) = true -> rdb_view d' = rdb_view d.
Proof. intros E%put_view Hn%negb_true_iff. by rewrite E, Hn. Qed.

Lemma delete_view_fail `{RocksDBLaws DB} (d : DB) k st d' :
  RocksStore_Delete d k = (st, d') -> negb (RocksStatus_ok st) = true -> rdb_view d' = rdb_view d.
Proof. intros E%delete_view Hn%negb_true_iff. by rewrite E, Hn. Qed.

(** ** A concrete database *)

(** The next writes fail where the script says so. *)
Record MemDB : Type := mkMemDB { mem_entries : gmap string string; mem_faults : list bool }.

Definition mem_write (d : MemDB) (m : gmap string string) : RdbStatus * MemDB :=
  match mem_faults d with
  | true :: fs => (RdbError "IO error", mkMemDB (mem_entries d) fs)
  | false :: fs => (RdbOk, mkMemDB m fs)
  | [] => (RdbOk, mkMemDB m [])
  end.

Lemma sorted_filter {A} (R : A -> A -> Prop) (P : A -> Prop) `{!forall x, Decision (P x)} l :
  StronglySorted R l -> StronglySorted R (filter P l).
Proof.
  induction 1 as [|x l ? IH Hf]; [constructor|]. rewrite filter_cons. case_decide; [|done]. constructor; [done|].
  apply Forall_forall. intros y [_ Hy]%list_elem_of_filter. by eapply Forall_forall in Hf.
Qed.

#[export] Instance key_le_dec : RelDecision key_le.
Proof. intros x y. unfold key_le. apply _. Defined.

#[export] Instance MemDB_RocksDB : RocksDB MemDB := {|
  rdb_Put d k v := mem_write d (<[k := v]> (mem_entries d));
  rdb_Write d ops := mem_write d (foldl batch_apply (mem_entries d) ops);
  rdb_Get d k := match mem_entries d !! k with Some v => (RdbOk, v) | None => (RdbNotFound, ""%string) end;
  rdb_Delete d k := mem_write d (delete k (mem_entries d));
  rdb_Seek d k := filter (fun kv => String.leb k kv.1 = true)
                    (merge_sort key_le (map_to_list (mem_entries d)));
  rdb_ToString st := match st with RdbOk => "OK" | RdbNotFound => "NotFound: " | RdbError t => t end;
  rdb_view := mem_entries
|}.

Lemma key_le_trans : Transitive key_le.
Proof.
  intros [a ?] [b ?] [c ?]. unfold key_le; cbn. intros H1 H2.
  apply Is_true_true. transitivity b; by apply Is_true_true.
Qed.

Lemma key_le_total : Total key_le.
Proof.
  intros [a ?] [b ?]. unfold key_le; cbn. apply String.leb_total.
Qed.

Lemma mem_write_view d m st d' : mem_write d m = (st, d') ->
  mem_entries d' = match st with RdbOk => m | _ => mem_entries d end.
Proof. unfold mem_write. destruct (mem_faults d) as [|[] ?]; intros; simplify_eq; done. Qed.

#[export] Instance MemDB_laws : RocksDBLaws MemDB.
Proof.
  split; intros d.
  - intros k v st d'. apply mem_write_view.
  - intros ops st d'. apply mem_write_view.
  - intros k st d'. apply mem_write_view.
  - intros k st v. cbn. destruct (mem_entries d !! k) eqn:E; intros; simplify_eq; done.
  - intros k. cbn. set (l := merge_sort _ _).
    assert (Hs : StronglySorted key_le l).
    { pose proof key_le_trans. pose proof key_le_total. by apply StronglySorted_merge_sort. }
    by apply sorted_filter.
  - intros k. cbn. eapply sublist_NoDup; [|apply fmap_sublist, sublist_filter].
    rewrite merge_sort_Permutation. apply NoDup_fst_map_to_list.
  - intros k k' v. cbn. rewrite list_elem_of_filter, merge_sort_Permutation, elem_of_map_to_list.
    cbn. tauto.
Qed.
