(* ===== verification/ExtentLocation.v ===== *)
(** * Extent locations

    [ExtentLocation] and [ExtentLocationMgr]
    (src/src/extentserver/extent_location.h and .cpp): where each extent of a
    server lives on the device, kept in memory and in RocksDB.  The manager is
    generic over the device (the interface [SpaceManager] of Allocator.v) and
    over the database (KvStore.v).  Each public operation holds the extent's
    lock from its first change to its last, so operations are atomic steps.
    [None] stands for undefined behaviour or an uncaught exception. *)

From S2P Require Import Prelude Status Bitmap Allocator Codec KvStore.

#[local] Open Scope string_scope.
#[local] Open Scope Z_scope.

Definition kExtentLocPrefix : string := "extent_loc_".

Record ExtentLocation : Type := mkExtentLocation {
  loc_offset : Z;
  loc_size : Z;
  extent_id : string
}.

Definition GenerateKey (l : ExtentLocation) : string := kExtentLocPrefix +:+ extent_id l.

Definition ExtentLocation_codec : codec ExtentLocation := {|
  save l := save u64_codec (loc_offset l) +:+ save u64_codec (loc_size l)
              +:+ save string_codec (extent_id l);
  load s :=
    '(offset, s) ← load u64_codec s;
    '(size, s) ← load u64_codec s;
    '(id, s) ← load string_codec s;
    Some (mkExtentLocation offset size id, s);
  storable l := storable u64_codec (loc_offset l) /\ storable u64_codec (loc_size l) /\
    storable string_codec (extent_id l)
|}.

Lemma ExtentLocation_codec_ok : codec_ok ExtentLocation_codec.
Proof. intros [o s i] rest (H1 & H2 & H3). cbn -[u64_codec string_codec] in *. by archive. Qed.

Section ExtentLocationMgr.
Context `{SpaceManager A} `{RocksDB DB} `{Crc32c}.

Record ExtentLocationMgr : Type := mkExtentLocationMgr {
  extent_size_ : Z;
  rocks_store_ : DB;
  space_alloc_ : A;
  extent_loc_map_ : gmap string ExtentLocation
}.

Definition with_map (m : ExtentLocationMgr) (lm : gmap string ExtentLocation) : ExtentLocationMgr :=
  mkExtentLocationMgr (extent_size_ m) (rocks_store_ m) (space_alloc_ m) lm.
Definition with_db (m : ExtentLocationMgr) (d : DB) : ExtentLocationMgr :=
  mkExtentLocationMgr (extent_size_ m) d (space_alloc_ m) (extent_loc_map_ m).
Definition with_space (m : ExtentLocationMgr) (a : A) : ExtentLocationMgr :=
  mkExtentLocationMgr (extent_size_ m) (rocks_store_ m) a (extent_loc_map_ m).

(** [unordered_map::insert]: an existing entry stays. *)
Definition map_insert_new (lm : gmap string ExtentLocation) (l : ExtentLocation)
  : gmap string ExtentLocation :=
  match lm !! extent_id l with
  | Some _ => lm
  | None => <[extent_id l := l]> lm
  end.

Definition addExtent (m : ExtentLocationMgr) (l : ExtentLocation) : ExtentLocationMgr :=
  with_map m (map_insert_new (extent_loc_map_ m) l).

Definition removeExtent (m : ExtentLocationMgr) (id : string) : ExtentLocationMgr :=
  with_map m (delete id (extent_loc_map_ m)).

Definition persistExtent (m : ExtentLocationMgr) (l : ExtentLocation) : Status * ExtentLocationMgr :=
  let key := GenerateKey l in
  let value := Serializer_Encode ExtentLocation_codec l in
  let '(s, db) := RocksStore_Put (rocks_store_ m) key value in
  let m := with_db m db in
  if negb (RocksStatus_ok s) then
    (mkStatus CYPRE_ES_ROCKSDB_STORE_ERROR "couldn't store extent", m)
  else (Status_default, addExtent m l).

Definition queryExtent (m : ExtentLocationMgr) (id : string) : option ExtentLocation :=
  extent_loc_map_ m !! id.

Definition deleteExtent (m : ExtentLocationMgr) (l : ExtentLocation) : Status * ExtentLocationMgr :=
  let key := GenerateKey l in
  let '(s, db) := RocksStore_Delete (rocks_store_ m) key in
  let m := with_db m db in
  if negb (RocksStatus_ok s) then
    (mkStatus CYPRE_ES_ROCKSDB_STORE_ERROR "couldn't delete extent", m)
  else (Status_default, removeExtent m (extent_id l)).

(** [QueryLocation] with [alloc_if_not_exists = false]; [offset] is the
    request's offset, [phys] its physical offset. *)
Definition QueryLocation_existing (m : ExtentLocationMgr) (id : string) (offset phys : Z)
  : Status * Z :=
  match extent_loc_map_ m !! id with
  | Some l => (Status_default, wrap64 (loc_offset l + offset))
  | None => (mkStatus CYPRE_ES_LOCATION_NOT_FOUND "extent location not found", phys)
  end.

Definition QueryLocation (rand : Z) (m : ExtentLocationMgr) (id : string) (offset phys : Z)
    (alloc_if_not_exists : bool) : option (Status * Z * ExtentLocationMgr) :=
  match extent_loc_map_ m !! id with
  | Some l => Some (Status_default, wrap64 (loc_offset l + offset), m)
  | None =>
      if negb alloc_if_not_exists then
        Some (mkStatus CYPRE_ES_LOCATION_NOT_FOUND "extent location not found", phys, m)
      else
        let '(status, phys) := QueryLocation_existing m id offset phys in
        if ok status then Some (status, phys, m)
        else
          '(status, aunit, a) ← sm_Allocate rand (space_alloc_ m) (extent_size_ m) AUnit_default;
          let m := with_space m a in
          if negb (ok status) then Some (status, phys, m)
          else
            let extent_loc := mkExtentLocation (au_offset aunit) (au_size aunit) id in
            let '(status, m) := persistExtent m extent_loc in
            if negb (ok status) then
              a ← sm_Free (space_alloc_ m) (au_offset aunit) (au_size aunit);
              Some (status, phys, with_space m a)
            else Some (Status_default, wrap64 (au_offset aunit + offset), m)
  end.

Definition ReclaimExtent (m : ExtentLocationMgr) (id : string) : option (Status * ExtentLocationMgr) :=
  match queryExtent m id with
  | None => Some (Status_default, m)
  | Some _ =>
      match queryExtent m id with
      | None => Some (Status_default, m)
      | Some loc =>
          let '(s, m) := deleteExtent m loc in
          if negb (ok s) then Some (s, m)
          else
            a ← sm_Free (space_alloc_ m) (loc_offset loc) (loc_size loc);
            Some (Status_default, with_space m a)
      end
  end.

(** The loop of [LoadExtents] over the scanned entries. *)
Fixpoint LoadExtents_loop (m : ExtentLocationMgr) (kvs : list KV)
  : option (Status * ExtentLocationMgr) :=
  match kvs with
  | [] => Some (Status_default, m)
  | (_, value) :: kvs' =>
      match Serializer_Decode ExtentLocation_codec value with
      | DecodeThrows => None
      | DecodeFailed =>
          Some (mkStatus CYPRE_ES_DECODE_ERROR "couldn't load extents from rocks store", m)
      | Decoded loc =>
          let m := with_map m (map_insert_new (extent_loc_map_ m) loc) in
          a ← sm_Mark (space_alloc_ m) (loc_offset loc) (loc_size loc);
          LoadExtents_loop (with_space m a) kvs'
      end
  end.

Definition LoadExtents (m : ExtentLocationMgr) : option (Status * ExtentLocationMgr) :=
  let '(s, kv_iter) := RocksStore_ScanPrefix (rocks_store_ m) kExtentLocPrefix in
  if negb (RocksStatus_ok s) then
    Some (mkStatus CYPRE_ES_ROCKSDB_LOAD_ERROR "couldn't load extents from rocks store", m)
  else LoadExtents_loop m (scan_values kv_iter).
End ExtentLocationMgr.
Arguments ExtentLocationMgr : clear implicits.

(** [Init] on a device of [disk_capacity] bytes, with the extent size the
    configuration gives and the database that [RocksStore::Open] returned. *)
Definition ExtentLocationMgr_Init `{RocksDB DB} (extent_size disk_capacity : Z)
    (opened : RocksStatus * DB) : Status * option (ExtentLocationMgr SpaceAlloc DB) :=
  let '(r, sa) := SpaceAlloc_Init (SpaceAlloc_new disk_capacity) in
  if negb (r =? 0) then
    (mkStatus CYPRE_ES_INIT_SPACE_ALLOC_FAIL "couldn't init space allocator", None)
  else
    let '(status, db) := opened in
    if negb (RocksStatus_ok status) then
      (mkStatus CYPRE_ES_OPEN_ROCKSDB_ERROR (RocksStatus_ToString status), None)
    else (Status_default, Some (mkExtentLocationMgr extent_size db sa ∅)).

(** ** Invariant *)

Section Invariant.
Context `{SpaceManagerLaws A} `{RocksDBLaws DB} `{Crc32c}.
Implicit Types (m : ExtentLocationMgr A DB) (l : ExtentLocation).

Definition loc_bytes l (x : Z) : bool := in_range (loc_offset l) (loc_size l) x.

(** Ids short enough for the stored record to be decoded again. *)
Definition id_ok (id : string) : Prop := slen id < 2147483624.

(** Each extent has its own valid range of the device, all of it in use; every
    byte in use belongs to an extent; and the database holds exactly the
    encoded locations. *)
Record wf_mgr m : Prop := {
  wm_space : sm_wf (space_alloc_ m);
  wm_loc : forall id l, extent_loc_map_ m !! id = Some l ->
    extent_id l = id /\ id_ok id /\ extent_size_ m <= loc_size l /\
    sm_valid (sm_dev (space_alloc_ m)) (loc_offset l) (loc_size l) /\
    forall x, loc_bytes l x = true -> sm_used (space_alloc_ m) x = true;
  wm_disjoint : forall id1 id2 l1 l2 x, id1 <> id2 ->
    extent_loc_map_ m !! id1 = Some l1 -> extent_loc_map_ m !! id2 = Some l2 ->
    loc_bytes l1 x = true -> loc_bytes l2 x = false;
  wm_noleak : forall x, 0 <= x -> sm_used (space_alloc_ m) x = true ->
    exists id l, extent_loc_map_ m !! id = Some l /\ loc_bytes l x = true;
  wm_store : forall id, rdb_view (rocks_store_ m) !! (kExtentLocPrefix +:+ id) =
    Serializer_Encode ExtentLocation_codec <$> (extent_loc_map_ m !! id);
  wm_extent_size : is_u64 (extent_size_ m)
}.

(** The same table, the same stored records and the same bytes in use. *)
Definition mgr_equiv m m' : Prop :=
  extent_size_ m' = extent_size_ m /\ extent_loc_map_ m' = extent_loc_map_ m /\
  rdb_view (rocks_store_ m') = rdb_view (rocks_store_ m) /\
  forall x, 0 <= x -> sm_used (space_alloc_ m') x = sm_used (space_alloc_ m) x.

Lemma prefix_inj id id' : kExtentLocPrefix +:+ id = kExtentLocPrefix +:+ id' -> id = id'.
Proof. unfold kExtentLocPrefix. cbn. intros E. by simplify_eq. Qed.

Lemma loc_bytes_nonneg m id l x :
  wf_mgr m -> extent_loc_map_ m !! id = Some l -> loc_bytes l x = true -> 0 <= x.
Proof.
  intros W E Hx. destruct (wm_loc m W id l E) as (_ & _ & _ & V & _).
  destruct (sm_valid_law _ _ _ (wm_space m W) V). apply in_range_spec in Hx. lia.
Qed.

(** A change of the device that frees nothing and adds nothing. *)
Lemma wf_mgr_equiv m m' :
  wf_mgr m -> mgr_equiv m m' -> sm_frame (space_alloc_ m) (space_alloc_ m') -> wf_mgr m'.
Proof.
  intros W (E1 & E2 & E3 & E4) [F1 F2]. split; rewrite ?E1, ?E2, ?E3, ?F2; try apply W; auto.
  - intros id l Hl. pose proof (loc_bytes_nonneg m id l) as Hnn.
    destruct (wm_loc m W id l Hl) as (? & ? & ? & ? & Hu).
    split_and!; auto. intros x Hx. rewrite E4; eauto.
  - intros x Hx Hu. rewrite E4 in Hu by done. by apply W.
Qed.

(** Adding a location on bytes that were free. *)
Lemma wf_mgr_add m l a d :
  wf_mgr m -> extent_loc_map_ m !! extent_id l = None -> id_ok (extent_id l) ->
  sm_frame (space_alloc_ m) a -> sm_valid (sm_dev (space_alloc_ m)) (loc_offset l) (loc_size l) ->
  extent_size_ m <= loc_size l ->
  (forall x, loc_bytes l x = true -> sm_used (space_alloc_ m) x = false) ->
  (forall x, 0 <= x -> sm_used a x = sm_used (space_alloc_ m) x || loc_bytes l x) ->
  rdb_view d = <[GenerateKey l := Serializer_Encode ExtentLocation_codec l]> (rdb_view (rocks_store_ m)) ->
  wf_mgr (mkExtentLocationMgr (extent_size_ m) d a (<[extent_id l := l]> (extent_loc_map_ m))).
Proof.
  intros W Hnone Hid [F1 F2] V Hsz Hfree Hu Hd. pose proof (loc_bytes_nonneg m) as Hnn.
  destruct (sm_valid_law _ _ _ (wm_space m W) V) as (Ho & _ & _).
  split; cbn; rewrite ?F2; auto; try apply W.
  - intros id l' [[<- <-]|[Hne Hl]]%lookup_insert_Some.
    + split_and!; auto. intros x Hx. rewrite Hu, Hx, orb_true_r; [done|].
      apply in_range_spec in Hx. lia.
    + destruct (wm_loc m W id l' Hl) as (? & ? & ? & ? & Hu').
      split_and!; auto. intros x Hx. rewrite Hu, Hu' by eauto. done.
  - intros id1 id2 l1 l2 x Hne H1' H2' Hx.
    apply lookup_insert_Some in H1' as [[<- <-]|[_ H1']];
      apply lookup_insert_Some in H2' as [[<- <-]|[_ H2']]; [done| | |].
    + destruct (loc_bytes l2 x) eqn:E; [|done].
      destruct (wm_loc m W _ _ H2') as (_ & _ & _ & _ & Hu2).
      rewrite <- (Hu2 x E), Hfree; done.
    + destruct (loc_bytes l x) eqn:E; [|done].
      destruct (wm_loc m W _ _ H1') as (_ & _ & _ & _ & Hu1).
      rewrite <- (Hu1 x Hx), Hfree; done.
    + eapply (wm_disjoint m W id1 id2); eauto.
  - intros x Hx Hux. rewrite Hu in Hux by done. apply orb_true_iff in Hux as [Hux|Hux].
    + destruct (wm_noleak m W x Hx Hux) as (id & l' & Hl & ?). exists id, l'.
      split; [|done]. rewrite lookup_insert_ne by congruence. done.
    + exists (extent_id l), l. by rewrite lookup_insert_eq.
  - intros id. rewrite Hd. destruct (decide (extent_id l = id)) as [<-|Hne].
    + unfold GenerateKey. by rewrite !lookup_insert_eq.
    + rewrite !lookup_insert_ne; [apply W|done|]. intros E. apply Hne.
      by apply prefix_inj in E.
Qed.

(** Removing a location and freeing its bytes. *)
Lemma wf_mgr_remove m id l a d :
  wf_mgr m -> extent_loc_map_ m !! id = Some l -> sm_frame (space_alloc_ m) a ->
  (forall x, 0 <= x -> sm_used a x = sm_used (space_alloc_ m) x && negb (loc_bytes l x)) ->
  rdb_view d = delete (GenerateKey l) (rdb_view (rocks_store_ m)) ->
  wf_mgr (mkExtentLocationMgr (extent_size_ m) d a (delete id (extent_loc_map_ m))).
Proof.
  intros W Hl [F1 F2] Hu Hd. pose proof (loc_bytes_nonneg m) as Hnn.
  destruct (wm_loc m W id l Hl) as (Hid & _).
  split; cbn; rewrite ?F2; auto; try apply W.
  - intros id' l' [Hne Hl']%lookup_delete_Some.
    destruct (wm_loc m W id' l' Hl') as (? & ? & ? & ? & Hu').
    split_and!; auto. intros x Hx. rewrite Hu, Hu' by eauto.
    by rewrite (wm_disjoint m W id' id l' l x) by auto.
  - intros id1 id2 l1 l2 x Hne [_ H1']%lookup_delete_Some [_ H2']%lookup_delete_Some.
    by apply (wm_disjoint m W id1 id2).
  - intros x Hx Hux. rewrite Hu in Hux by done. apply andb_true_iff in Hux as [Hux Hnl].
    destruct (wm_noleak m W x Hx Hux) as (id' & l' & Hl' & Hb). exists id', l'.
    split; [|done]. rewrite lookup_delete_ne; [done|]. intros <-.
    rewrite Hl in Hl'. simplify_eq. by rewrite Hb in Hnl.
  - intros id'. rewrite Hd. unfold GenerateKey. rewrite Hid.
    destruct (decide (id = id')) as [<-|Hne].
    + by rewrite !lookup_delete_eq.
    + rewrite !lookup_delete_ne; [apply W|done|]. intros E. apply Hne.
      by apply prefix_inj in E.
Qed.
End Invariant.

(** ** Operations *)

Section Operations.
Context `{SpaceManagerLaws A} `{RocksDBLaws DB} `{Crc32c}.
Implicit Types (m : ExtentLocationMgr A DB) (l : ExtentLocation).

Lemma persistExtent_spec m l st m' :
  persistExtent m l = (st, m') ->
  (ok st = true /\ extent_loc_map_ m' = map_insert_new (extent_loc_map_ m) l /\
   rdb_view (rocks_store_ m') =
     <[GenerateKey l := Serializer_Encode ExtentLocation_codec l]> (rdb_view (rocks_store_ m)) /\
   m' = mkExtentLocationMgr (extent_size_ m) (rocks_store_ m') (space_alloc_ m) (extent_loc_map_ m')) \/
  (ok st = false /\ rdb_view (rocks_store_ m') = rdb_view (rocks_store_ m) /\
   m' = with_db m (rocks_store_ m')).
Proof.
  unfold persistExtent. destruct (RocksStore_Put _ _ _) as [s d] eqn:E.
  pose proof (put_view _ _ _ _ _ E) as Hv. destruct (RocksStatus_ok s); cbn; intros; simplify_eq; auto.
Qed.

Lemma QueryLocation_spec rand m id offset phys alloc :
  wf_mgr m -> id_ok id -> 0 <= rand ->
  exists st phys' m', QueryLocation rand m id offset phys alloc = Some (st, phys', m') /\ wf_mgr m' /\
    sm_dev (space_alloc_ m') = sm_dev (space_alloc_ m) /\ extent_size_ m' = extent_size_ m /\
    ((ok st = true /\ exists l, extent_loc_map_ m' !! id = Some l /\
        phys' = wrap64 (loc_offset l + offset) /\
        ((extent_loc_map_ m !! id = Some l /\ m' = m) \/
         (extent_loc_map_ m !! id = None /\ alloc = true /\
          extent_loc_map_ m' = <[id := l]> (extent_loc_map_ m)))) \/
     (ok st = false /\ extent_loc_map_ m !! id = None /\ phys' = phys /\ mgr_equiv m m')).
Proof.
  intros W Hid Hr. unfold QueryLocation, QueryLocation_existing.
  destruct (extent_loc_map_ m !! id) as [l|] eqn:El.
  { do 3 eexists. split; [done|]. split_and!; auto. left. eauto 10. }
  destruct alloc; cbn.
  2: { do 3 eexists. split; [done|]. split_and!; auto. right. by split_and!. }
  destruct (sm_alloc_law rand (space_alloc_ m) (extent_size_ m) AUnit_default)
    as (s & u & a & -> & Hcase); [apply W|apply W|done|]. cbn.
  destruct Hcase as [(Hok & F & V & Hsz & Hfree & Hu)|(Hok & -> & ->)]; rewrite Hok; cbn.
  2: { do 3 eexists. split; [done|]. destruct m; cbn in *. split_and!; auto. right.
       rewrite Hok. by split_and!. }
  set (l := mkExtentLocation (au_offset u) (au_size u) id).
  destruct (persistExtent (with_space m a) l) as [st m'] eqn:Ep.
  apply persistExtent_spec in Ep as [(Hst & Em & Ed & Es)|(Hst & Ed & Es)];
    rewrite Hst; cbn -[GenerateKey] in *.
  - assert (Hm' : extent_loc_map_ m' = <[id := l]> (extent_loc_map_ m)).
    { rewrite Em. unfold map_insert_new. cbn. by rewrite El. }
    do 3 eexists. split; [done|]. split_and!.
    + rewrite Es, Hm'. apply (wf_mgr_add m l); auto.
    + rewrite Es. apply F.
    + by rewrite Es.
    + left. split; [done|]. exists l. rewrite Hm', lookup_insert_eq. auto 10.
  - rewrite Es. cbn.
    destruct (sm_free_law a (au_offset u) (au_size u)) as (a' & -> & F' & Hu'); auto;
      [apply F|by rewrite (proj2 F)| |].
    { intros x Hx. rewrite Hu, Hx, orb_true_r; [done|].
      destruct (sm_valid_law _ _ _ (wm_space m W) V). apply in_range_spec in Hx. lia. }
    cbn. do 3 eexists. split; [done|].
    assert (Eq : mgr_equiv m (mkExtentLocationMgr (extent_size_ m) (rocks_store_ m') a' (extent_loc_map_ m))).
    { split_and!; auto. intros x Hx. cbn. rewrite Hu', Hu by done.
      destruct (in_range (au_offset u) (au_size u) x) eqn:E.
      - by rewrite andb_false_r, Hfree.
      - by rewrite orb_false_r, andb_true_r. }
    assert (F2 : sm_frame (space_alloc_ m) a') by (destruct F, F'; split; congruence).
    split_and!; [by apply (wf_mgr_equiv m)|apply F2|done|by right].
Qed.

Lemma ReclaimExtent_spec m id :
  wf_mgr m ->
  exists st m', ReclaimExtent m id = Some (st, m') /\ wf_mgr m' /\
    sm_dev (space_alloc_ m') = sm_dev (space_alloc_ m) /\ extent_size_ m' = extent_size_ m /\
    ((ok st = true /\ extent_loc_map_ m' = delete id (extent_loc_map_ m) /\
      forall x, 0 <= x -> sm_used (space_alloc_ m') x = sm_used (space_alloc_ m) x &&
        negb (match extent_loc_map_ m !! id with Some l => loc_bytes l x | None => false end)) \/
     (code st = CYPRE_ES_ROCKSDB_STORE_ERROR /\ mgr_equiv m m')).
Proof.
  intros W. unfold ReclaimExtent, queryExtent.
  destruct (extent_loc_map_ m !! id) as [l|] eqn:El.
  2: { do 2 eexists. split; [done|]. split_and!; auto. left. split_and!; auto.
       - by rewrite delete_id.
       - intros. by rewrite andb_true_r. }
  destruct (wm_loc m W id l El) as (Hid & _ & _ & V & Hused). unfold deleteExtent.
  destruct (RocksStore_Delete _ _) as [s d] eqn:Ed. apply delete_view in Ed.
  destruct (RocksStatus_ok s); cbn.
  - destruct (sm_free_law (space_alloc_ m) (loc_offset l) (loc_size l)) as (a & -> & F & Hu);
      [apply W|done|done|]. cbn. do 2 eexists. split; [done|]. rewrite Hid.
    split_and!; [by apply (wf_mgr_remove m id l)|apply F|done|].
    left. split_and!; auto.
  - do 2 eexists. split; [done|].
    assert (Eq : mgr_equiv m (with_db m d)) by (by split_and!).
    split_and!; auto. apply (wf_mgr_equiv m); auto. cbn. split; [apply W|done].
Qed.

(** The stored form of a location is decoded to it. *)
Lemma wf_decode m id l : wf_mgr m -> extent_loc_map_ m !! id = Some l ->
  Serializer_Decode ExtentLocation_codec (Serializer_Encode ExtentLocation_codec l) = Decoded l.
Proof.
  intros W El. destruct (wm_loc m W id l El) as (Hid & Hlen & _ & V & _).
  destruct (sm_valid_law _ _ _ (wm_space m W) V). unfold id_ok in Hlen.
  apply Serializer_roundtrip; [apply ExtentLocation_codec_ok| |].
  - cbn -[u64_codec]. split_and!; [apply storable_u64; unfold is_u64; lia..|].
    rewrite Hid. unfold u64_max. lia.
  - cbn. unfold slen in *. rewrite Hid. cbn. lia.
Qed.

(** What the recovery loop needs of the entries it has still to read. *)
Definition pending m (lm : gmap string ExtentLocation) (kvs : list KV) : Prop :=
  NoDup kvs.*1 /\ forall k v, (k, v) ∈ kvs -> exists l,
    extent_loc_map_ m !! extent_id l = Some l /\ lm !! extent_id l = None /\
    k = GenerateKey l /\ v = Serializer_Encode ExtentLocation_codec l.

Definition covers (a : A) (lm : gmap string ExtentLocation) : Prop :=
  forall x, 0 <= x -> sm_used a x = true <-> exists id l, lm !! id = Some l /\ loc_bytes l x = true.

Lemma covers_add m a a' lm l :
  wf_mgr m -> lm ⊆ extent_loc_map_ m -> extent_loc_map_ m !! extent_id l = Some l ->
  lm !! extent_id l = None -> covers a lm ->
  (forall x, 0 <= x -> sm_used a' x = sm_used a x || loc_bytes l x) ->
  covers a' (<[extent_id l := l]> lm).
Proof.
  unfold covers. intros W Hsub Hl Hnone Hc Hu x Hx. rewrite Hu, orb_true_iff, Hc by done. split.
  - intros [(id & l' & Hl' & Hb)|Hb].
    + exists id, l'. rewrite lookup_insert_ne by congruence. done.
    + exists (extent_id l), l. by rewrite lookup_insert_eq.
  - intros (id & l' & [[<- <-]|[_ Hl']]%lookup_insert_Some & Hb); [by right|left; eauto].
Qed.

Lemma LoadExtents_loop_spec m kvs : forall mc,
  wf_mgr m -> pending m (extent_loc_map_ mc) kvs -> extent_loc_map_ mc ⊆ extent_loc_map_ m ->
  sm_frame (space_alloc_ m) (space_alloc_ mc) -> covers (space_alloc_ mc) (extent_loc_map_ mc) ->
  exists m', LoadExtents_loop mc kvs = Some (Status_default, m') /\
    rocks_store_ m' = rocks_store_ mc /\ extent_size_ m' = extent_size_ mc /\
    sm_frame (space_alloc_ m) (space_alloc_ m') /\ covers (space_alloc_ m') (extent_loc_map_ m') /\
    extent_loc_map_ mc ⊆ extent_loc_map_ m' /\ extent_loc_map_ m' ⊆ extent_loc_map_ m /\
    forall k v, (k, v) ∈ kvs -> exists id, k = kExtentLocPrefix +:+ id /\ is_Some (extent_loc_map_ m' !! id).
Proof.
  induction kvs as [|[k v] kvs IH]; intros mc W [Hnd Hp] Hsub F Hc.
  { exists mc. split_and!; auto. intros k v Hin. by apply not_elem_of_nil in Hin. }
  destruct (Hp k v) as (l & Hl & Hnone & -> & ->); [by left|].
  cbn [LoadExtents_loop]. rewrite (wf_decode m _ l W Hl).
  destruct (wm_loc m W _ l Hl) as (_ & _ & _ & V & Hused).
  destruct (sm_valid_law _ _ _ (wm_space m W) V) as (Ho & _).
  unfold map_insert_new. rewrite Hnone. cbn [with_map space_alloc_ extent_loc_map_].
  destruct (sm_mark_law (space_alloc_ mc) (loc_offset l) (loc_size l)) as (a & -> & F' & Hu);
    [apply F|by rewrite (proj2 F)| |].
  { intros x Hx. destruct (sm_used (space_alloc_ mc) x) eqn:E; [|done]. exfalso.
    assert (0 <= x) by (apply in_range_spec in Hx; lia).
    apply Hc in E as (id & l' & Hl' & Hb); [|done].
    assert (id <> extent_id l) by congruence.
    fold (loc_bytes l x) in Hx. rewrite (wm_disjoint m W id (extent_id l) l' l x) in Hx; try done.
    by eapply lookup_weaken. }
  cbn [mbind option_bind]. inversion Hnd as [|? ? Hnotin Hnd']; subst.
  destruct (IH (with_space (with_map mc (<[extent_id l := l]> (extent_loc_map_ mc))) a))
    as (m' & -> & ? & ? & ? & ? & Hs1 & Hs2 & Hall); cbn; auto.
  - split; [done|]. intros k' v' Hin. destruct (Hp k' v') as (l' & ? & ? & -> & ->); [by right|].
    exists l'. split_and!; auto. rewrite lookup_insert_ne; [done|]. intros E. apply Hnotin.
    apply list_elem_of_fmap. exists (GenerateKey l', Serializer_Encode ExtentLocation_codec l').
    split; [|done]. cbn. unfold GenerateKey. congruence.
  - by apply insert_subseteq_l.
  - destruct F, F'. split; congruence.
  - by eapply covers_add.
  - cbn in *. exists m'. split_and!; auto.
    + etransitivity; [|done]. by apply insert_subseteq.
    + intros k' v' [E|Hin]%elem_of_cons; [|eauto]. simplify_eq. exists (extent_id l). split; [done|].
      exists l. eapply lookup_weaken; [|done]. by rewrite lookup_insert_eq.
Qed.

Lemma LoadExtents_spec m m0 :
  wf_mgr m -> rdb_view (rocks_store_ m0) = rdb_view (rocks_store_ m) ->
  extent_loc_map_ m0 = ∅ -> extent_size_ m0 = extent_size_ m ->
  sm_frame (space_alloc_ m) (space_alloc_ m0) ->
  (forall x, 0 <= x -> sm_used (space_alloc_ m0) x = false) ->
  exists m', LoadExtents m0 = Some (Status_default, m') /\ mgr_equiv m m' /\ wf_mgr m' /\
    sm_frame (space_alloc_ m) (space_alloc_ m').
Proof.
  intros W Ev Em Es F Hfree. unfold LoadExtents. cbn [RocksStore_ScanPrefix RocksStatus_ok negb].
  set (kvs := scan_values _).
  assert (Hin : forall k v, (k, v) ∈ kvs <-> rdb_view (rocks_store_ m) !! k = Some v /\
     String.prefix kExtentLocPrefix k = true).
  { intros. unfold kvs. rewrite <- Ev. apply (scan_values_elem (rocks_store_ m0) kExtentLocPrefix). }
  assert (Hkey : forall k, String.prefix kExtentLocPrefix k = true -> exists id, k = kExtentLocPrefix +:+ id).
  { intros k Hk. by apply prefix_split. }
  destruct (LoadExtents_loop_spec m kvs m0) as (m' & -> & Ed & Ees & F' & Hc & _ & Hsub & Hall); auto.
  - split; [apply scan_values_nodup|]. intros k v [Hv Hp]%Hin. rewrite Em.
    destruct (Hkey k Hp) as [id ->]. rewrite (wm_store m W id) in Hv.
    destruct (extent_loc_map_ m !! id) as [l|] eqn:El; [|done]. cbn in Hv. simplify_eq.
    destruct (wm_loc m W id l El) as (<- & _). exists l. split_and!; auto.
  - rewrite Em. apply map_empty_subseteq.
  - intros x Hx. rewrite Hfree by done. split; [done|]. intros (id & l & Hl & _).
    rewrite Em in Hl. by rewrite lookup_empty in Hl.
  - assert (Heq : extent_loc_map_ m' = extent_loc_map_ m).
    { apply map_eq. intros id. destruct (extent_loc_map_ m !! id) as [l|] eqn:El.
      - destruct (Hall (kExtentLocPrefix +:+ id) (Serializer_Encode ExtentLocation_codec l))
          as (id' & Hid & [l' Hl']).
        { apply Hin. rewrite (wm_store m W id), El. split; [done|]. apply prefix_app. }
        apply prefix_inj in Hid as <-. rewrite Hl'. f_equal.
        pose proof (lookup_weaken _ _ _ _ Hl' Hsub). congruence.
      - destruct (extent_loc_map_ m' !! id) as [l'|] eqn:El'; [|done].
        pose proof (lookup_weaken _ _ _ _ El' Hsub). congruence. }
    exists m'. split; [done|].
    assert (Eq : mgr_equiv m m').
    { split_and!; [congruence|done|congruence|]. intros x Hx. apply eq_iff_eq_true.
      rewrite (Hc x Hx), Heq. split.
      - intros (id & l & Hl & Hb). destruct (wm_loc m W id l Hl) as (_ & _ & _ & _ & Hu). auto.
      - by apply (wm_noleak m W). }
    split_and!; auto. by apply (wf_mgr_equiv m).
Qed.
End Operations.

(** ** Life of a server's table *)

Section Reachable.
Context `{RocksDBLaws DB} `{Crc32c}.
Implicit Types m : ExtentLocationMgr SpaceAlloc DB.

Lemma ExtentLocationMgr_Init_ok es cap (d : DB) :
  is_u64 cap -> kAllocateBlockSize <= cap ->
  exists m, ExtentLocationMgr_Init es cap (RdbOk, d) = (Status_default, Some m) /\
    sm_wf (space_alloc_ m) /\ sm_dev (space_alloc_ m) = (kAllocateBlockSize, cap) /\
    (forall x, sm_used (space_alloc_ m) x = false) /\
    extent_size_ m = es /\ rocks_store_ m = d /\ extent_loc_map_ m = ∅.
Proof.
  intros Hc Hle. unfold ExtentLocationMgr_Init, SpaceAlloc_Init, SpaceAlloc_new. cbn [disk_capacity_].
  destruct (BitmapAllocator_Init_ok kAllocateBlockSize cap) as (a & -> & W & Hb & Hcap & Hu);
    [vm_compute; split; discriminate|exact Hc|vm_compute; discriminate|reflexivity|exact Hle|].
  cbn. eexists; split; [done|]. cbn. rewrite Hb, Hcap. split_and!; auto.
  intros. apply Hu.
Qed.

(** One operation of the server, or its restart on the same device and
    database. *)
Inductive mgr_step (es cap : Z) m : ExtentLocationMgr SpaceAlloc DB -> Prop :=
  | step_query rand id offset phys alloc st phys' m' :
      id_ok id -> 0 <= rand ->
      QueryLocation rand m id offset phys alloc = Some (st, phys', m') -> mgr_step es cap m m'
  | step_reclaim id st m' :
      ReclaimExtent m id = Some (st, m') -> mgr_step es cap m m'
  | step_restart st m0 st' m' :
      ExtentLocationMgr_Init es cap (RdbOk, rocks_store_ m) = (st, Some m0) ->
      LoadExtents m0 = Some (st', m') -> mgr_step es cap m m'.

Definition on_device (es cap : Z) m : Prop :=
  wf_mgr m /\ sm_dev (space_alloc_ m) = (kAllocateBlockSize, cap) /\ extent_size_ m = es.

Lemma mgr_step_on_device es cap m m' :
  is_u64 cap -> kAllocateBlockSize <= cap -> on_device es cap m -> mgr_step es cap m m' ->
  on_device es cap m'.
Proof.
  intros Hc Hk (W & Hd & He) Hs. unfold on_device.
  destruct Hs as [rand id offset phys alloc st phys' m' Hid Hr E|id st m' E|st m0 st' m' E1 E2].
  - destruct (QueryLocation_spec rand m id offset phys alloc W Hid Hr) as (? & ? & ? & E' & W' & Hdv & Hsz & _).
    rewrite E in E'. simplify_eq. split_and!; auto; congruence.
  - destruct (ReclaimExtent_spec m id W) as (? & ? & E' & W' & Hdv & Hsz & _).
    rewrite E in E'. simplify_eq. split_and!; auto; congruence.
  - destruct (ExtentLocationMgr_Init_ok es cap (rocks_store_ m) Hc Hk)
      as (m1 & E1' & Wa & Hd1 & Hu & Hes & Hdb & Hmap).
    rewrite E1 in E1'. simplify_eq.
    destruct (LoadExtents_spec m m1 W) as (m2 & E' & Eq & W' & F);
      [congruence|congruence|congruence|split; congruence|auto|].
    rewrite E2 in E'. simplify_eq. split_and!; [done| |apply Eq].
    rewrite (proj2 F). done.
Qed.

Lemma Init_on_device es cap (d : DB) m0 :
  is_u64 es -> is_u64 cap -> kAllocateBlockSize <= cap ->
  (forall id, rdb_view d !! (kExtentLocPrefix +:+ id) = None) ->
  ExtentLocationMgr_Init es cap (RdbOk, d) = (Status_default, Some m0) -> on_device es cap m0.
Proof.
  intros He Hc Hk Hd Hi.
  destruct (ExtentLocationMgr_Init_ok es cap d Hc Hk) as (m1 & Hi' & Wa & Hdev & Hu & Hes & Hdb & Hmap).
  rewrite Hi in Hi'. injection Hi' as <-.
  split; [|done]. split; rewrite ?Hmap, ?Hdb, ?Hes; try done.
  intros x _. by rewrite Hu.
Qed.

Lemma reach_on_device es cap m0 m :
  is_u64 cap -> kAllocateBlockSize <= cap -> on_device es cap m0 ->
  rtc (mgr_step es cap) m0 m -> on_device es cap m.
Proof. intros Hc Hk Hd. induction 1; eauto using mgr_step_on_device. Qed.
End Reachable.

(** ** A server with a 4 MB device *)

#[local] Instance demo_crc : Crc32c := fun s => slen s * 2654435761.

Definition demo_mgr : ExtentLocationMgr SpaceAlloc MemDB :=
  match ExtentLocationMgr_Init 1048576 4194304 (RdbOk, mkMemDB ∅ [false; true]) with
  | (_, Some m) => m
  | (_, None) => mkExtentLocationMgr 0 (mkMemDB ∅ []) (SpaceAlloc_new 0) ∅
  end.

Definition demo_next (m : ExtentLocationMgr SpaceAlloc MemDB) (id : string)
  : ExtentLocationMgr SpaceAlloc MemDB :=
  match QueryLocation 0 m id 4096 0 true with
  | Some (_, _, m') => m'
  | None => m
  end.

Lemma demo_next_step m id :
  id_ok id -> is_Some (QueryLocation 0 m id 4096 0 true) ->
  mgr_step 1048576 4194304 m (demo_next m id).
Proof.
  intros Hid [[[st phys] m'] E]. unfold demo_next. rewrite E.
  by apply (step_query _ _ _ 0 id 4096 0 true st phys m').
Qed.

Lemma demo_mgr_on_device : on_device 1048576 4194304 demo_mgr.
Proof.
  apply (Init_on_device _ _ (mkMemDB ∅ [false; true]));
    [vm_compute; split; discriminate..|vm_compute; discriminate|intros; apply lookup_empty|].
  vm_compute. reflexivity.
Qed.

(** ** Correctness of the location table *)

(** C2: from a fresh device, whatever sequence of lookups, allocations,
    reclamations, failed database writes and restarts a server goes through,
    two extents never share a byte of the device, each lies inside it, and
    each has at least the configured extent size. *)
Theorem extents_never_overlap `{RocksDBLaws DB} `{Crc32c} es cap (d : DB) m0 m id1 id2 l1 l2 :
  is_u64 es -> is_u64 cap -> kAllocateBlockSize <= cap ->
  (forall id, rdb_view d !! (kExtentLocPrefix +:+ id) = None) ->
  ExtentLocationMgr_Init es cap (RdbOk, d) = (Status_default, Some m0) ->
  rtc (mgr_step es cap) m0 m ->
  extent_loc_map_ m !! id1 = Some l1 -> extent_loc_map_ m !! id2 = Some l2 -> id1 <> id2 ->
  0 <= loc_offset l1 /\ loc_offset l1 + loc_size l1 <= cap /\ es <= loc_size l1 /\
  (loc_offset l1 + loc_size l1 <= loc_offset l2 \/ loc_offset l2 + loc_size l2 <= loc_offset l1).
Proof.
  intros He Hc Hk Hd Hi Hr E1 E2 Hne.
  assert (Hinv : on_device es cap m) by (eauto using Init_on_device, reach_on_device).
  destruct Hinv as (W & Hdev & Hes).
  destruct (wm_loc m W id1 l1 E1) as (_ & _ & Hs1 & V1 & _).
  destruct (wm_loc m W id2 l2 E2) as (_ & _ & _ & V2 & _).
  apply (sm_valid_law _ _ _ (wm_space m W)) in V1, V2. rewrite Hdev in V1, V2. cbn in V1, V2.
  split_and!; try lia.
  pose proof (wm_disjoint m W id1 id2 l1 l2 (Z.max (loc_offset l1) (loc_offset l2)) Hne E1 E2) as Hx.
  unfold loc_bytes in Hx. rewrite in_range_spec, in_range_false in Hx. lia.
Qed.

Lemma extents_never_overlap_witness :
  exists m l1 l2, rtc (mgr_step 1048576 4194304) demo_mgr m /\
    extent_loc_map_ m !! "b.1" = Some l1 /\ extent_loc_map_ m !! "b.3" = Some l2 /\
    (loc_offset l1 + loc_size l1 <= loc_offset l2 \/ loc_offset l2 + loc_size l2 <= loc_offset l1).
Proof.
  set (m := demo_next (demo_next (demo_next demo_mgr "b.1") "b.2") "b.3").
  assert (Hr : rtc (mgr_step 1048576 4194304) demo_mgr m).
  { apply rtc_l with (demo_next demo_mgr "b.1");
      [apply demo_next_step; [vm_compute; reflexivity|vm_compute; eexists; reflexivity]|].
    apply rtc_l with (demo_next (demo_next demo_mgr "b.1") "b.2");
      [apply demo_next_step; [vm_compute; reflexivity|vm_compute; eexists; reflexivity]|].
    apply rtc_once, demo_next_step; [vm_compute; reflexivity|vm_compute; eexists; reflexivity]. }
  exists m, (mkExtentLocation 0 1048576 "b.1"), (mkExtentLocation 1048576 1048576 "b.3").
  split; [exact Hr|]. split; [vm_compute; reflexivity|]. split; [vm_compute; reflexivity|].
  apply (extents_never_overlap 1048576 4194304 (mkMemDB ∅ [false; true]) demo_mgr m "b.1" "b.3").
  - vm_compute; split; discriminate.
  - vm_compute; split; discriminate.
  - vm_compute; discriminate.
  - intros id. apply lookup_empty.
  - vm_compute; reflexivity.
  - exact Hr.
  - vm_compute; reflexivity.
  - vm_compute; reflexivity.
  - discriminate.
Defined.


(** [QueryLocation] on a well formed table always returns and keeps the
    table well formed.  It succeeds exactly by answering with the extent's own
    location, which it finds or, if allowed to, newly allocates without
    touching any other extent; every failure (extent unknown, no space, the
    database refusing the record) leaves table, stored records and used bytes
    as they were. *)
Theorem QueryLocation_correct `{SpaceManagerLaws A} `{RocksDBLaws DB} `{Crc32c}
    rand (m : ExtentLocationMgr A DB) id offset phys alloc :
  wf_mgr m -> id_ok id -> 0 <= rand ->
  exists st phys' m', QueryLocation rand m id offset phys alloc = Some (st, phys', m') /\ wf_mgr m' /\
    ((ok st = true /\ exists l, extent_loc_map_ m' = <[id := l]> (extent_loc_map_ m) /\
        phys' = wrap64 (loc_offset l + offset) /\ extent_size_ m <= loc_size l /\
        (extent_loc_map_ m !! id = Some l \/ (extent_loc_map_ m !! id = None /\ alloc = true))) \/
     (ok st = false /\ extent_loc_map_ m !! id = None /\ phys' = phys /\ mgr_equiv m m')).
Proof.
  intros W Hid Hr.
  destruct (QueryLocation_spec rand m id offset phys alloc W Hid Hr)
    as (st & phys' & m' & E & W' & _ & Hsz' & Hc).
  exists st, phys', m'. split; [done|]. split; [done|].
  destruct Hc as [(Hok & l & Hl & -> & Hcase)|?]; [|by right].
  left. split; [done|]. exists l. destruct (wm_loc m' W' id l Hl) as (_ & _ & Hsz & _).
  rewrite Hsz' in Hsz. destruct Hcase as [[Hl0 ->]|(Hn & -> & Hm)]; [|by auto 10].
  rewrite insert_id by done. auto.
Qed.

Lemma QueryLocation_correct_witness :
  exists m, QueryLocation 0 demo_mgr "b.1" 4096 0 true = Some (Status_default, 4096, m) /\ wf_mgr m.
Proof.
  destruct (QueryLocation_correct 0 demo_mgr "b.1" 4096 0 true) as (st & phys & m & E & W & _).
  - apply demo_mgr_on_device.
  - vm_compute. reflexivity.
  - lia.
  - exists m. split; [|exact W]. rewrite E. vm_compute in E. injection E as <- <- _. reflexivity.
Defined.

(** [ReclaimExtent] on a well formed table always returns and keeps it
    well formed.  When it succeeds the extent is gone and exactly its bytes
    are free again, also when the extent was never there; when the database
    refuses the deletion nothing has changed. *)
Theorem ReclaimExtent_correct `{SpaceManagerLaws A} `{RocksDBLaws DB} `{Crc32c}
    (m : ExtentLocationMgr A DB) id :
  wf_mgr m ->
  exists st m', ReclaimExtent m id = Some (st, m') /\ wf_mgr m' /\
    ((ok st = true /\ extent_loc_map_ m' = delete id (extent_loc_map_ m) /\
      forall x, 0 <= x -> sm_used (space_alloc_ m') x = sm_used (space_alloc_ m) x &&
        negb (match extent_loc_map_ m !! id with Some l => loc_bytes l x | None => false end)) \/
     (code st = CYPRE_ES_ROCKSDB_STORE_ERROR /\ mgr_equiv m m')).
Proof.
  intros W. destruct (ReclaimExtent_spec m id W) as (st & m' & E & W' & _ & _ & Hc). eauto.
Qed.

Lemma ReclaimExtent_correct_witness :
  exists m, ReclaimExtent (demo_next demo_mgr "b.1") "b.1"
              = Some (mkStatus CYPRE_ES_ROCKSDB_STORE_ERROR "couldn't delete extent", m) /\
    wf_mgr m.
Proof.
  assert (W : wf_mgr (demo_next demo_mgr "b.1")).
  { apply (mgr_step_on_device 1048576 4194304 demo_mgr);
      [vm_compute; split; discriminate|vm_compute; discriminate|apply demo_mgr_on_device|].
    apply demo_next_step; [vm_compute; reflexivity|vm_compute; eexists; reflexivity]. }
  destruct (ReclaimExtent_correct (demo_next demo_mgr "b.1") "b.1" W) as (st & m & E & Wm & _).
  exists m. split; [|exact Wm]. rewrite E. vm_compute in E. injection E as <- _. reflexivity.
Defined.

(** C10: restarting a server loses nothing: loading the stored locations into
    a fresh manager on the same device and database succeeds and rebuilds the
    same table, the same stored records and the same used bytes. *)
Theorem restart_recovers_table `{RocksDBLaws DB} `{Crc32c} es cap (m m0 : ExtentLocationMgr SpaceAlloc DB) st :
  is_u64 cap -> kAllocateBlockSize <= cap -> on_device es cap m ->
  ExtentLocationMgr_Init es cap (RdbOk, rocks_store_ m) = (st, Some m0) ->
  exists m', LoadExtents m0 = Some (Status_default, m') /\ mgr_equiv m m' /\ on_device es cap m'.
Proof.
  intros Hc Hk (W & Hd & He) Hi.
  destruct (ExtentLocationMgr_Init_ok es cap (rocks_store_ m) Hc Hk)
    as (m1 & Hi' & Wa & Hd1 & Hu & Hes & Hdb & Hmap).
  rewrite Hi in Hi'. injection Hi' as _ <-.
  destruct (LoadExtents_spec m m0 W) as (m' & E & Eq & W' & F);
    [congruence|congruence|congruence|split; congruence|auto|].
  exists m'. split_and!; auto. split; [done|]. destruct F, Eq as (? & _). split; congruence.
Qed.

Lemma restart_recovers_table_witness :
  exists m m0 m', m = demo_next demo_mgr "b.1" /\
    ExtentLocationMgr_Init 1048576 4194304 (RdbOk, rocks_store_ m) = (Status_default, Some m0) /\
    LoadExtents m0 = Some (Status_default, m') /\
    extent_loc_map_ m' !! "b.1" = Some (mkExtentLocation 0 1048576 "b.1").
Proof.
  set (m := demo_next demo_mgr "b.1").
  assert (D : on_device 1048576 4194304 m).
  { apply (mgr_step_on_device 1048576 4194304 demo_mgr);
      [vm_compute; split; discriminate|vm_compute; discriminate|apply demo_mgr_on_device|].
    apply demo_next_step; [vm_compute; reflexivity|vm_compute; eexists; reflexivity]. }
  destruct (ExtentLocationMgr_Init 1048576 4194304 (RdbOk, rocks_store_ m)) as [st [m0|]] eqn:E0;
    [|vm_compute in E0; discriminate].
  destruct (restart_recovers_table 1048576 4194304 m m0 st) as (m' & E & Eq & _).
  - vm_compute; split; discriminate.
  - vm_compute; discriminate.
  - exact D.
  - exact E0.
  - exists m, m0, m'. split; [reflexivity|]. rewrite E0. split; [vm_compute in E0; injection E0 as <- _; reflexivity|].
    split; [exact E|]. destruct Eq as (_ & -> & _). vm_compute. reflexivity.
Defined.
