(* ===== verification/Net.v ===== *)
(** * Extent ids, routers and connections

    [ExtentIDGenerator] (src/src/common/extent_id_generator.h), the router an
    extent server or a client caches for an extent (extent_router.h and .cpp)
    and the connection pools (connection_pool.h).  The extent manager's answer
    to a router query and the result of [brpc::Channel::Init] come from other
    processes and libraries and are arguments. *)

From Stdlib Require Import Ascii.
From stdpp Require Import pretty.
From S2P Require Import Prelude Status.

#[local] Open Scope string_scope.
#[local] Open Scope Z_scope.

(** ** Extent ids *)

(** Decimal text of an unsigned integer, as a stream prints it. *)
Definition dec (z : Z) : string := pretty z.

Definition GenerateExtentID (blob_id : string) (extent_index : Z) : string :=
  blob_id +:+ "." +:+ dec extent_index.

(** The characters before the first dot, all of them if there is none. *)
Fixpoint GetBlobId (extent_id : string) : string :=
  match extent_id with
  | EmptyString => EmptyString
  | String c s => if Ascii.eqb c "." then EmptyString else String c (GetBlobId s)
  end.

Fixpoint no_dot (s : string) : bool :=
  match s with
  | EmptyString => true
  | String c s => negb (Ascii.eqb c ".") && no_dot s
  end.

(** ** Routers *)

Record ESInstance : Type := mkESInstance {
  es_id : Z;
  public_ip : string;
  public_port : Z;
  private_ip : string;
  private_port : Z
}.

Definition address (e : ESInstance) : string := private_ip e +:+ ":" +:+ dec (private_port e).

Record ExtentRouter : Type := mkExtentRouter {
  version : Z;
  router_extent_id : string;
  primary : ESInstance;
  secondaries : list ESInstance
}.

Definition same_node (e : ESInstance) (ip : string) (port : Z) : bool :=
  bool_decide (public_ip e = ip) && (public_port e =? port).

Definition IsPrimary (r : ExtentRouter) (ip : string) (port : Z) : bool :=
  same_node (primary r) ip port.
Definition IsSecondary (r : ExtentRouter) (ip : string) (port : Z) : bool :=
  existsb (fun e => same_node e ip port) (secondaries r).
Definition IsValid (r : ExtentRouter) (ip : string) (port : Z) : bool :=
  IsPrimary r ip port || IsSecondary r ip port.

(** The extent manager's response as the router query sees it. *)
Record PbRouter : Type := mkPbRouter {
  pb_primary : ESInstance;
  pb_secondaries : list ESInstance
}.
Inductive QueryRouterReply : Type :=
  | RpcFailed
  | RpcReply (code : Z) (router : option PbRouter).

Definition queryFromRemote (extent_id : string) (reply : QueryRouterReply) : option ExtentRouter :=
  match reply with
  | RpcFailed => None
  | RpcReply c r =>
      if negb (c =? 0) then None
      else match r with
           | Some pb => Some (mkExtentRouter 0 extent_id (pb_primary pb) (pb_secondaries pb))
           | None => None
           end
  end.

(** [use_thread_local_] selects the calling thread's own map or the shared
    one. *)
Record ExtentRouterMgr : Type := mkExtentRouterMgr {
  tls_extent_router_map_ : gmap string ExtentRouter;
  extent_router_map_ : gmap string ExtentRouter;
  use_thread_local_ : bool
}.

Definition router_map (m : ExtentRouterMgr) : gmap string ExtentRouter :=
  if use_thread_local_ m then tls_extent_router_map_ m else extent_router_map_ m.

Definition set_router_map (m : ExtentRouterMgr) (rm : gmap string ExtentRouter) : ExtentRouterMgr :=
  if use_thread_local_ m then mkExtentRouterMgr rm (extent_router_map_ m) true
  else mkExtentRouterMgr (tls_extent_router_map_ m) rm false.

(** [remote] is what the extent manager would answer if asked. *)
Definition QueryRouter (m : ExtentRouterMgr) (extent_id : string) (remote : QueryRouterReply)
  : option ExtentRouter * ExtentRouterMgr :=
  match router_map m !! extent_id with
  | Some r => (Some r, m)
  | None =>
      match queryFromRemote extent_id remote with
      | None => (None, m)
      | Some router => (Some router, set_router_map m (<[extent_id := router]> (router_map m)))
      end
  end.

Definition DeleteRouter (m : ExtentRouterMgr) (extent_id : string) : ExtentRouterMgr :=
  set_router_map m (delete extent_id (router_map m)).

Definition ClearRouters (m : ExtentRouterMgr) : ExtentRouterMgr := set_router_map m ∅.

(** ** Connection pools *)

Record Connection : Type := mkConnection { conn_target : string; conn_serial : nat }.

Definition get_connection_id (ip : string) (port : Z) : string := ip +:+ ":" +:+ dec port.

Record ConnectionPool : Type := mkConnectionPool {
  connection_pool_ : gmap string Connection;
  next_serial : nat
}.

(** [init_ok]: whether [brpc::Channel::Init] accepts the endpoint. *)
Definition GetConnection (init_ok : string -> bool) (p : ConnectionPool) (ip : string) (port : Z)
  : option Connection * ConnectionPool :=
  let conn_id := get_connection_id ip port in
  match connection_pool_ p !! conn_id with
  | Some c => (Some c, p)
  | None =>
      let conn := mkConnection conn_id (next_serial p) in
      if negb (init_ok conn_id) then (None, p)
      else (Some conn, mkConnectionPool (<[conn_id := conn]> (connection_pool_ p)) (S (next_serial p)))
  end.

(** [ConnectionPool2], keyed by extent server id. *)
Record ConnectionPool2 : Type := mkConnectionPool2 {
  connection_pool2_ : gmap Z Connection;
  next_serial2 : nat
}.

Definition GetConnection2 (p : ConnectionPool2) (es_id : Z) : option Connection :=
  connection_pool2_ p !! es_id.

Definition NewConnection (init_ok : string -> bool) (p : ConnectionPool2) (es_id : Z)
    (ip : string) (port : Z) : option Connection * ConnectionPool2 :=
  let conn_id := get_connection_id ip port in
  let conn := mkConnection conn_id (next_serial2 p) in
  if negb (init_ok conn_id) then (None, p)
  else (Some conn, mkConnectionPool2 (<[es_id := conn]> (connection_pool2_ p)) (S (next_serial2 p))).

Definition EraseConnection (p : ConnectionPool2) (es_id : Z) : ConnectionPool2 :=
  mkConnectionPool2 (delete es_id (connection_pool2_ p)) (next_serial2 p).

Definition ClearConnections (p : ConnectionPool2) : ConnectionPool2 :=
  mkConnectionPool2 ∅ (next_serial2 p).

(** ** Extent ids determine blob and index *)

Lemma GetBlobId_app b s : no_dot b = true -> GetBlobId (b +:+ String "." s) = b.
Proof.
  induction b as [|c b IH]; cbn; intros Hd; [done|].
  apply andb_true_iff in Hd as [Hc Hb]. apply negb_true_iff in Hc. rewrite Hc. by rewrite IH.
Qed.

Lemma append_inj_l a b c : a +:+ b = a +:+ c -> b = c.
Proof. induction a as [|x a IH]; cbn; intros E; [done|]. injection E as E. auto. Qed.

Lemma GetBlobId_Generate b i : no_dot b = true -> GetBlobId (GenerateExtentID b i) = b.
Proof. apply GetBlobId_app. Qed.

Lemma GenerateExtentID_inj b1 b2 i1 i2 :
  no_dot b1 = true -> no_dot b2 = true ->
  GenerateExtentID b1 i1 = GenerateExtentID b2 i2 -> b1 = b2 /\ i1 = i2.
Proof.
  intros H1 H2 E. assert (b1 = b2) as ->.
  { rewrite <- (GetBlobId_Generate b1 i1), <- (GetBlobId_Generate b2 i2) by done. by rewrite E. }
  split; [done|]. unfold GenerateExtentID in E. apply append_inj_l in E.
  apply append_inj_l in E. by apply (inj pretty) in E.
Qed.

(** the id of an extent names its blob and its index: for blob ids
    without a dot, [GetBlobId] gives the blob back and no two (blob, index)
    pairs share an extent id. *)
Theorem extent_id_identifies b1 b2 i1 i2 :
  no_dot b1 = true -> no_dot b2 = true ->
  GetBlobId (GenerateExtentID b1 i1) = b1 /\
  (GenerateExtentID b1 i1 = GenerateExtentID b2 i2 <-> b1 = b2 /\ i1 = i2).
Proof.
  intros H1 H2. split; [by apply GetBlobId_Generate|]. split.
  - by apply GenerateExtentID_inj.
  - by intros [-> ->].
Qed.

Lemma extent_id_identifies_witness :
  GetBlobId (GenerateExtentID "bb-a" 12) = "bb-a" /\
  GenerateExtentID "bb-a" 12 <> GenerateExtentID "bb-a" 1.
Proof.
  destruct (extent_id_identifies "bb-a" "bb-a" 12 1) as [H1 H2]; [reflexivity..|].
  split; [exact H1|]. intros E. apply H2 in E as [_ E]. discriminate.
Defined.

(** ** The router cache *)

Lemma router_map_set m rm : router_map (set_router_map m rm) = rm.
Proof. unfold router_map, set_router_map. by destruct (use_thread_local_ m). Qed.

(** the router cache answers from memory until the entry is deleted: after
    a successful query the same router is returned whatever the extent manager
    would say, a failed query caches nothing, deleting an extent's entry makes
    the next query ask again, and entries of other extents never change. *)
Theorem router_cache_sticky m id remote r m' :
  QueryRouter m id remote = (r, m') ->
  (forall remote', r <> None -> QueryRouter m' id remote' = (r, m')) /\
  (r = None -> m' = m) /\
  (forall remote', (QueryRouter (DeleteRouter m' id) id remote').1 = queryFromRemote id remote') /\
  (forall id', id' <> id -> router_map m' !! id' = router_map m !! id' /\
     router_map (DeleteRouter m' id) !! id' = router_map m !! id').
Proof.
  unfold QueryRouter, DeleteRouter. rewrite !router_map_set, lookup_delete_eq.
  destruct (router_map m !! id) as [r0|] eqn:E; [|destruct (queryFromRemote id remote) as [r0|]];
    intros [= <- <-]; rewrite ?router_map_set, ?lookup_insert_eq; (split_and!; auto).
  - intros remote' _. by rewrite E.
  - intros remote'. by destruct (queryFromRemote id remote').
  - intros id' Hne. by rewrite lookup_delete_ne.
  - done.
  - intros remote'. by destruct (queryFromRemote id remote').
  - intros id' Hne. by rewrite lookup_delete_ne, lookup_insert_ne.
  - done.
  - intros remote'. by destruct (queryFromRemote id remote').
  - intros id' Hne. by rewrite lookup_delete_ne.
Qed.

Lemma router_cache_sticky_witness :
  exists r m, QueryRouter (mkExtentRouterMgr ∅ ∅ false) "bb-a.0"
      (RpcReply 0 (Some (mkPbRouter (mkESInstance 1 "10.0.0.1" 80 "10.1.0.1" 81) []))) = (Some r, m) /\
    QueryRouter m "bb-a.0" RpcFailed = (Some r, m).
Proof.
  destruct (QueryRouter (mkExtentRouterMgr ∅ ∅ false) "bb-a.0"
      (RpcReply 0 (Some (mkPbRouter (mkESInstance 1 "10.0.0.1" 80 "10.1.0.1" 81) []))))
    as [[r|] m] eqn:E; [|vm_compute in E; discriminate].
  exists r, m. split; [reflexivity|].
  destruct (router_cache_sticky _ _ _ _ _ E) as [H _]. apply H. discriminate.
Defined.
