(* ===== verification/StorageEngine.v ===== *)
(** * Request processing in an extent server

    [Request] (src/src/extentserver/request_context.h and .cpp), the checks
    and dispatch of [StorageEngine] (storage_engine.h and .cpp), [BareEngine]
    (bare_engine.cpp), the hand-over to the device worker (spdk_mgr.cpp,
    spdk_worker.cpp) and the worker's device commands.  Replication to the
    secondaries and the completion callbacks are in WriteCompletion.v.

    The block device is SPDK: the class [BDev] lists the commands the worker
    issues and [BDevLaws] their effect on the bytes of the device. *)

From Stdlib Require Import Ascii.
From S2P Require Import Prelude Status Bitmap Allocator Codec KvStore ExtentLocation Net.

#[local] Open Scope string_scope.
#[local] Open Scope Z_scope.

(** ** Requests *)

Inductive RequestType : Type :=
  | kTypeRead
  | kTypeWrite
  | kTypeReplicate
  | kTypeScrub
  | kTypeDelete
  | kTypeReclaimExtent
  | kTypeNoop.

#[export] Instance RequestType_eq_dec : EqDecision RequestType.
Proof. solve_decision. Defined.

(** The fields of the protobuf request the server reads. *)
Record ReqMsg : Type := mkReqMsg {
  m_extent_id : string;
  m_offset : Z;
  m_size : Z;
  m_crc32 : option Z
}.

Record Request : Type := mkRequest {
  result_ : bool;
  ref_count_ : Z;
  request_type_ : RequestType;
  op_request : ReqMsg;
  request_attachment : string;
  response_attachment : string;
  io_unit_ : bool;
  extent_router_ : option ExtentRouter;
  physical_offset_ : Z;
  crc32_ : Z
}.

(** [Reset] keeps the operation context, which [SetOperationContext] sets for
    every request taken from the pool. *)
Definition Request_Reset (r : Request) (t : RequestType) : Request :=
  mkRequest true 1 t (op_request r) (request_attachment r) (response_attachment r) false None 0 0.

Definition Request_new (t : RequestType) : Request :=
  mkRequest true 1 t (mkReqMsg "" 0 0 None) "" "" false None 0 0.

Definition SetOperationContext (r : Request) (msg : ReqMsg) (attachment : string) : Request :=
  mkRequest (result_ r) (ref_count_ r) (request_type_ r) msg attachment "" (io_unit_ r)
    (extent_router_ r) (physical_offset_ r) (crc32_ r).

Definition SetResult (r : Request) (success : bool) : Request :=
  mkRequest (result_ r && success) (ref_count_ r) (request_type_ r) (op_request r)
    (request_attachment r) (response_attachment r) (io_unit_ r) (extent_router_ r)
    (physical_offset_ r) (crc32_ r).

Definition SetRefCount (r : Request) (n : Z) : Request :=
  mkRequest (result_ r) n (request_type_ r) (op_request r) (request_attachment r)
    (response_attachment r) (io_unit_ r) (extent_router_ r) (physical_offset_ r) (crc32_ r).

(** The previous value and the request with the count decreased. *)
Definition FetchAndSubRef (r : Request) : Z * Request := (ref_count_ r, SetRefCount r (ref_count_ r - 1)).

Definition SetExtentRouter (r : Request) (router : ExtentRouter) : Request :=
  mkRequest (result_ r) (ref_count_ r) (request_type_ r) (op_request r) (request_attachment r)
    (response_attachment r) (io_unit_ r) (Some router) (physical_offset_ r) (crc32_ r).

Definition SetPhysicalOffset (r : Request) (phys : Z) : Request :=
  mkRequest (result_ r) (ref_count_ r) (request_type_ r) (op_request r) (request_attachment r)
    (response_attachment r) (io_unit_ r) (extent_router_ r) phys (crc32_ r).

Definition ExtentID (r : Request) : string :=
  match request_type_ r with
  | kTypeRead | kTypeWrite | kTypeReplicate | kTypeScrub | kTypeDelete | kTypeReclaimExtent =>
      m_extent_id (op_request r)
  | kTypeNoop => ""
  end.

Definition Offset (r : Request) : Z :=
  match request_type_ r with
  | kTypeRead | kTypeWrite | kTypeReplicate | kTypeScrub | kTypeDelete => m_offset (op_request r)
  | kTypeReclaimExtent | kTypeNoop => 0
  end.

Definition Size (r : Request) : Z :=
  match request_type_ r with
  | kTypeRead | kTypeWrite | kTypeReplicate | kTypeScrub | kTypeDelete => m_size (op_request r)
  | kTypeReclaimExtent | kTypeNoop => 0
  end.

Fixpoint repeat_char (c : ascii) (n : nat) : string :=
  match n with O => "" | S n' => String c (repeat_char c n') end.

(** [SetEmptyResponse]: the attachment becomes [Size()] zero bytes. *)
Definition SetEmptyResponse (r : Request) : Request :=
  mkRequest (result_ r) (ref_count_ r) (request_type_ r) (op_request r) (request_attachment r)
    (repeat_char zero (Z.to_nat (Size r))) (io_unit_ r) (extent_router_ r)
    (physical_offset_ r) (crc32_ r).

(** ** The storage engine's checks *)

Inductive EngineType : Type := kHddEngine | kSsdEngine | kNVMeEngine | kInvalidEngine.
Inductive ReplicationType : Type := kStandardReplication | kStarReplication | kInvalidReplication.

#[export] Instance ReplicationType_eq_dec : EqDecision ReplicationType.
Proof. solve_decision. Defined.

Definition kHddDevice : string := "hdd".
Definition kSsdDevice : string := "ssd".
Definition kNVMeDevice : string := "nvme".
Definition kStandardReplicationType : string := "standard".
Definition kStarReplicationType : string := "star".

Definition engine_type_of (device_type : string) : EngineType :=
  if String.eqb device_type kHddDevice then kHddEngine
  else if String.eqb device_type kSsdDevice then kSsdEngine
  else if String.eqb device_type kNVMeDevice then kNVMeEngine
  else kInvalidEngine.

Definition replication_type_of (replication_type : string) : ReplicationType :=
  if String.eqb replication_type kStandardReplicationType then kStandardReplication
  else if String.eqb replication_type kStarReplicationType then kStarReplication
  else kInvalidReplication.

(** The parts of the engine's state the checks read; [net_ip] and [net_port]
    are this server's public address in the configuration. *)
Record EngineCfg : Type := mkEngineCfg {
  engine_type_ : EngineType;
  replication_type_ : ReplicationType;
  align_size_ : Z;
  se_extent_size_ : Z;
  net_ip : string;
  net_port : Z
}.

Definition StorageEngine_new (device_type replication_type ip : string) (port : Z) : EngineCfg :=
  mkEngineCfg (engine_type_of device_type) (replication_type_of replication_type)
    kAlignSize 0 ip port.

Definition queryRouter (rm : ExtentRouterMgr) (req : Request) (remote : QueryRouterReply)
  : Status * Request * ExtentRouterMgr :=
  if bool_decide (request_type_ req = kTypeDelete) || bool_decide (request_type_ req = kTypeReclaimExtent)
  then (Status_default, req, rm)
  else
    let '(router, rm) := QueryRouter rm (ExtentID req) remote in
    match router with
    | None => (mkStatus CYPRE_ES_QUERY_ROUTER_FAIL "couldn't get extent router", req, rm)
    | Some r => (Status_default, SetExtentRouter req r, rm)
    end.

Definition checkParameters (e : EngineCfg) (req : Request) : Status :=
  if String.eqb (ExtentID req) "" then mkStatus CYPRE_ER_INVALID_ARGUMENT "extent_id empty"
  else if negb (Offset req mod align_size_ e =? 0) then
    mkStatus CYPRE_ER_INVALID_ARGUMENT "offset not align with 4k"
  else if negb (Size req mod align_size_ e =? 0) then
    mkStatus CYPRE_ER_INVALID_ARGUMENT "len not align with 4k"
  else if se_extent_size_ e <? wrap64 (Offset req + Size req) then
    mkStatus CYPRE_ER_INVALID_ARGUMENT "(offset + len) exceeds extent size"
  else Status_default.

(** The second half of the switch for reads, which fall through into the
    write case. *)
Definition checkOwnership_write (e : EngineCfg) (router : ExtentRouter) : Status :=
  if bool_decide (replication_type_ e = kStandardReplication) &&
     negb (IsPrimary router (net_ip e) (net_port e)) then
    mkStatus CYPRE_ER_NO_PERMISSION "ilegal node, not primary"
  else if bool_decide (replication_type_ e = kStarReplication) &&
     negb (IsValid router (net_ip e) (net_port e)) then
    mkStatus CYPRE_ER_NO_PERMISSION "ilegal node, not primary or secondary"
  else Status_default.

(** [None]: a request that needs a router has none (a null dereference). *)
Definition checkOwnership (e : EngineCfg) (req : Request) : option Status :=
  match request_type_ req with
  | kTypeRead =>
      router ← extent_router_ req;
      Some (if negb (IsPrimary router (net_ip e) (net_port e)) then
              mkStatus CYPRE_ER_NO_PERMISSION "ilegal node, not primary"
            else checkOwnership_write e router)
  | kTypeWrite => router ← extent_router_ req; Some (checkOwnership_write e router)
  | kTypeReplicate =>
      router ← extent_router_ req;
      Some (if negb (IsSecondary router (net_ip e) (net_port e)) then
              mkStatus CYPRE_ER_NO_PERMISSION "ilegal node, not secondary"
            else Status_default)
  | kTypeScrub =>
      router ← extent_router_ req;
      Some (if negb (IsValid router (net_ip e) (net_port e)) then
              mkStatus CYPRE_ER_NO_PERMISSION "illegal node, not primary or secondary"
            else Status_default)
  | kTypeReclaimExtent | kTypeDelete => Some Status_default
  | kTypeNoop => Some (mkStatus CYPRE_ER_INVALID_ARGUMENT "invalid cmd type")
  end.

Section Checks.
Context `{Crc32c}.

Definition checkChecksum (req : Request) : Status :=
  match request_type_ req with
  | kTypeWrite | kTypeReplicate =>
      match m_crc32 (op_request req) with
      | Some expected =>
          let actual_crc32 := Crc32_Checksum (request_attachment req) in
          if actual_crc32 =? expected then Status_default
          else mkStatus CYPRE_ES_CHECKSUM_ERROR "crc32 value not equal to data checksum"
      | None => Status_default
      end
  | _ => Status_default
  end.

Definition doSafetyCheck (e : EngineCfg) (rm : ExtentRouterMgr) (req : Request)
    (remote : QueryRouterReply) : option (Status * Request * ExtentRouterMgr) :=
  let '(s, req, rm) := queryRouter rm req remote in
  if negb (ok s) then Some (s, req, rm)
  else
    let s := checkParameters e req in
    if negb (ok s) then Some (s, req, rm)
    else
      s ← checkOwnership e req;
      if negb (ok s) then Some (s, req, rm) else Some (checkChecksum req, req, rm).
End Checks.

(** ** Completion of a write and replication to the secondaries *)

Record Reply : Type := mkReply { reply_code : Z; reply_message : string }.

(** [WriteDone]: the reply it sends, if it is the last one, and the request. *)
Definition WriteDone (req : Request) : option Reply * Request :=
  let '(old, req) := FetchAndSubRef req in
  if negb (old =? 1) then (None, req)
  else
    let reply :=
      if negb (result_ req) then mkReply CYPRE_ES_PROCESS_REQ_ERROR "write io error"
      else mkReply CYPRE_OK "" in
    (Some reply, Request_Reset req kTypeNoop).

(** What [ReplicateEngine::Send] does for one secondary. *)
Inductive SendAction : Type :=
  | SentTo (conn : Connection)
  | FailedCallback
  | SkippedCallback.

(** The loop of [Send], with the user callback of a write. *)
Fixpoint Send_loop (init_ok : string -> bool) (pool : ConnectionPool) (req : Request)
    (failed : bool) (es : list ESInstance)
  : bool * Request * ConnectionPool * list SendAction :=
  match es with
  | [] => (failed, req, pool, [])
  | e :: es' =>
      if failed then
        let '(f, req, pool, acts) := Send_loop init_ok pool (WriteDone req).2 failed es' in
        (f, req, pool, SkippedCallback :: acts)
      else
        let '(conn, pool) := GetConnection init_ok pool (public_ip e) (public_port e) in
        match conn with
        | None =>
            let req := (WriteDone (SetResult req false)).2 in
            let '(f, req, pool, acts) := Send_loop init_ok pool req true es' in
            (f, req, pool, FailedCallback :: acts)
        | Some c =>
            let '(f, req, pool, acts) := Send_loop init_ok pool req failed es' in
            (f, req, pool, SentTo c :: acts)
        end
  end.

(** [None]: the request has no router. *)
Definition Send (init_ok : string -> bool) (pool : ConnectionPool) (req : Request)
  : option (Status * Request * ConnectionPool * list SendAction) :=
  router ← extent_router_ req;
  let req := SetRefCount req (1 + Z.of_nat (length (secondaries router))) in
  let '(failed, req, pool, acts) := Send_loop init_ok pool req false (secondaries router) in
  let s := if (failed : bool) then mkStatus CYPRE_ES_REPLICATE_PART_FAIL "replicate partial error"
           else Status_default in
  Some (s, req, pool, acts).

Definition doReplicate (e : EngineCfg) (init_ok : string -> bool) (pool : ConnectionPool) (req : Request)
  : option (Status * Request * ConnectionPool * list SendAction) :=
  if bool_decide (replication_type_ e = kStarReplication) then Some (Status_default, req, pool, [])
  else if negb (bool_decide (request_type_ req = kTypeWrite)) then Some (Status_default, req, pool, [])
  else Send init_ok pool req.

(** ** The bare engine *)

Section BareEngine.
Context `{SpaceManager A} `{RocksDB DB} `{Crc32c}.

(** The location table and the ring of requests handed to the workers. *)
Record BareEngine : Type := mkBareEngine {
  extent_loc_mgr_ : ExtentLocationMgr A DB;
  task_queue_ : list Request
}.

(** [enq]: whether the ring has room for the request. *)
Definition SpdkMgr_ProcessRequest (enq : bool) (b : BareEngine) (req : Request) : Status * BareEngine :=
  if negb enq then (mkStatus CYPRE_ES_RTE_RING_FULL "couldn't submit request", b)
  else (Status_default, mkBareEngine (extent_loc_mgr_ b) (task_queue_ b ++ [req])).

(** [QueryLocation] on behalf of a request, whose physical offset it sets. *)
Definition queryLocation (rand : Z) (b : BareEngine) (req : Request) (alloc : bool)
  : option (Status * Request * BareEngine) :=
  '(s, phys, m) ← QueryLocation rand (extent_loc_mgr_ b) (ExtentID req) (Offset req)
                    (physical_offset_ req) alloc;
  Some (s, SetPhysicalOffset req phys, mkBareEngine m (task_queue_ b)).

Definition submit (enq : bool) (b : BareEngine) (req : Request) : Status * Request * BareEngine :=
  let '(s, b) := SpdkMgr_ProcessRequest enq b req in (s, req, b).

Definition handleRead (rand : Z) (enq : bool) (b : BareEngine) (req : Request)
  : option (Status * Request * BareEngine) :=
  '(s, req, b) ← queryLocation rand b req false;
  if negb (ok s) then Some (mkStatus CYPRE_ES_EXTENT_EMPTY "extent empty", SetEmptyResponse req, b)
  else Some (submit enq b req).

Definition handleWrite (rand : Z) (enq : bool) (b : BareEngine) (req : Request)
  : option (Status * Request * BareEngine) :=
  '(s, req, b) ← queryLocation rand b req true;
  if negb (ok s) then Some (s, req, b) else Some (submit enq b req).

Definition handleDelete (rand : Z) (enq : bool) (b : BareEngine) (req : Request)
  : option (Status * Request * BareEngine) :=
  '(s, req, b) ← queryLocation rand b req false;
  if negb (ok s) then Some (s, req, b) else Some (submit enq b req).

Definition handleScrub (rand : Z) (enq : bool) (b : BareEngine) (req : Request)
  : option (Status * Request * BareEngine) :=
  '(s, req, b) ← queryLocation rand b req false;
  if negb (ok s) then Some (s, req, b) else Some (submit enq b req).

Definition handleReclaimExtent (rm : ExtentRouterMgr) (b : BareEngine) (req : Request)
  : option (Status * Request * BareEngine * ExtentRouterMgr) :=
  let rm := DeleteRouter rm (ExtentID req) in
  '(s, m) ← ReclaimExtent (extent_loc_mgr_ b) (ExtentID req);
  Some (s, req, mkBareEngine m (task_queue_ b), rm).

Definition BareEngine_ProcessRequest (rand : Z) (enq : bool) (rm : ExtentRouterMgr) (b : BareEngine)
    (req : Request) : option (Status * Request * BareEngine * ExtentRouterMgr) :=
  let keep r := '(s, req, b) ← r; Some (s, req, b, rm) in
  match request_type_ req with
  | kTypeRead => keep (handleRead rand enq b req)
  | kTypeWrite | kTypeReplicate => keep (handleWrite rand enq b req)
  | kTypeDelete => keep (handleDelete rand enq b req)
  | kTypeScrub => keep (handleScrub rand enq b req)
  | kTypeReclaimExtent => handleReclaimExtent rm b req
  | kTypeNoop => Some (mkStatus CYPRE_ER_NOT_SUPPORTED "invalid request type", req, b, rm)
  end.

(** ** [StorageEngine::ProcessRequest] *)

Record EngineState : Type := mkEngineState {
  st_routers : ExtentRouterMgr;
  st_pool : ConnectionPool;
  st_bare : BareEngine
}.

(** What the world outside the engine answers during one request. *)
Record World : Type := mkWorld {
  w_rand : Z;
  w_remote : QueryRouterReply;
  w_channel_ok : string -> bool;
  w_enqueue : bool
}.

Definition ProcessRequest (e : EngineCfg) (w : World) (st : EngineState) (req : Request)
  : option (Status * Request * EngineState * list SendAction) :=
  '(s, req, rm) ← doSafetyCheck e (st_routers st) req (w_remote w);
  let st := mkEngineState rm (st_pool st) (st_bare st) in
  if negb (ok s) then Some (s, req, st, [])
  else
    '(s, req, pool, acts) ← doReplicate e (w_channel_ok w) (st_pool st) req;
    let st := mkEngineState (st_routers st) pool (st_bare st) in
    if negb (ok s) then Some (s, req, st, acts)
    else
      '(s, req, b, rm) ← BareEngine_ProcessRequest (w_rand w) (w_enqueue w) (st_routers st) (st_bare st) req;
      Some (s, req, mkEngineState rm (st_pool st) b, acts).
End BareEngine.
Arguments BareEngine : clear implicits.
Arguments EngineState : clear implicits.

(** ** Device commands *)

(** What the worker calls of SPDK: commands that may be refused, and the bytes
    of the device. *)
Class BDev (D : Type) := {
  bdev_read : D -> Z -> Z -> option string;
  bdev_write : D -> Z -> Z -> string -> option D;
  bdev_write_zeroes : D -> Z -> Z -> option D;
  bdev_byte : D -> Z -> ascii
}.

Definition byte_at (s : string) (i : Z) : ascii :=
  match String.get (Z.to_nat i) s with Some c => c | None => zero end.

Class BDevLaws (D : Type) `{BDev D} : Prop := {
  bdev_read_law : forall d off n s, 0 <= n -> bdev_read d off n = Some s ->
    slen s = n /\ forall i, 0 <= i < n -> byte_at s i = bdev_byte d (off + i);
  bdev_write_law : forall d off n s d', bdev_write d off n s = Some d' ->
    forall x, bdev_byte d' x = if in_range off n x then byte_at s (x - off) else bdev_byte d x;
  bdev_zeroes_law : forall d off n d', bdev_write_zeroes d off n = Some d' ->
    forall x, bdev_byte d' x = if in_range off n x then zero else bdev_byte d x
}.

Section Worker.
Context `{BDev D}.

(** [IOBuf::copy_to]: at most [n] bytes of the attachment over the buffer. *)
Definition copy_to (attachment buf : string) (n : Z) : string :=
  let m := Nat.min (String.length attachment) (Z.to_nat n) in
  substring 0 m attachment +:+ substring m (Z.to_nat n - m) buf.

(** One request taken from the ring: [buf] is the I/O unit's buffer as it was.
    [None] as the new device: the command failed and the request's result is
    false. *)
Definition doRead (d : D) (req : Request) : Request :=
  match bdev_read d (physical_offset_ req) (Size req) with
  | Some data =>
      let req := SetResult req true in
      mkRequest (result_ req) (ref_count_ req) (request_type_ req) (op_request req)
        (request_attachment req) data true (extent_router_ req) (physical_offset_ req) (crc32_ req)
  | None => SetResult req false
  end.

Definition doWrite (d : D) (buf : string) (req : Request) : D * Request :=
  let data := copy_to (request_attachment req) buf (Size req) in
  match bdev_write d (physical_offset_ req) (Size req) data with
  | Some d' => (d', SetResult req true)
  | None => (d, SetResult req false)
  end.

Definition doDelete (d : D) (req : Request) : D * Request :=
  match bdev_write_zeroes d (physical_offset_ req) (Size req) with
  | Some d' => (d', SetResult req true)
  | None => (d, SetResult req false)
  end.

(** The dispatch of the worker's loop; [None]: a type the loop does not know,
    on which it spins. *)
Definition worker_dispatch (d : D) (buf : string) (req : Request) : option (D * Request) :=
  match request_type_ req with
  | kTypeRead | kTypeScrub => Some (d, doRead d req)
  | kTypeWrite | kTypeReplicate => Some (doWrite d buf req)
  | kTypeDelete => Some (doDelete d req)
  | kTypeReclaimExtent | kTypeNoop => None
  end.
End Worker.

(** ** What a checked request can do *)

Lemma checkParameters_ok e req :
  ok (checkParameters e req) = true ->
  ExtentID req <> "" /\ Offset req mod align_size_ e = 0 /\ Size req mod align_size_ e = 0 /\
  wrap64 (Offset req + Size req) <= se_extent_size_ e.
Proof.
  unfold checkParameters. repeat bcase; try done. intros _. b2p.
  apply String.eqb_neq in Heqb. auto.
Qed.

Lemma doSafetyCheck_ok `{Crc32c} e rm req remote s req' rm' :
  doSafetyCheck e rm req remote = Some (s, req', rm') -> ok s = true ->
  ok (checkParameters e req') = true /\
  (exists s2, checkOwnership e req' = Some s2 /\ ok s2 = true) /\
  checkChecksum req' = s /\
  (req' = req \/ exists r, req' = SetExtentRouter req r).
Proof.
  unfold doSafetyCheck. destruct (queryRouter rm req remote) as [[s0 r0] rm0] eqn:Eq.
  assert (Hr : r0 = req \/ exists r, r0 = SetExtentRouter req r).
  { unfold queryRouter in Eq. bcase; [by simplify_eq; left|].
    destruct (QueryRouter _ _ _) as [[r|] ?]; simplify_eq; eauto. }
  destruct (ok s0) eqn:E0; cbn; [|intros; simplify_eq; congruence].
  destruct (ok (checkParameters e r0)) eqn:E1; cbn; [|intros; simplify_eq; congruence].
  destruct (checkOwnership e r0) as [s2|] eqn:E2; cbn; [|done].
  destruct (ok s2) eqn:E3; cbn; intros; simplify_eq; [|congruence]. eauto 10.
Qed.

(** a read, write or scrub that passes the safety check is for a node the
    router allows (the primary for reads and, with standard replication, for
    writes; a secondary for replication; any of them for scrubs), has a
    non-empty extent id and 4 KB aligned offset and size, does not reach past
    the extent when offset plus size fits 64 bits, and, when it carries a
    checksum, that checksum is the one of the data. *)
Theorem safety_check_sound `{Crc32c} e rm req remote s req' rm' :
  doSafetyCheck e rm req remote = Some (s, req', rm') -> ok s = true ->
  request_type_ req' = request_type_ req /\ op_request req' = op_request req /\
  ExtentID req <> "" /\ Offset req mod align_size_ e = 0 /\ Size req mod align_size_ e = 0 /\
  (0 <= Offset req + Size req <= u64_max -> Offset req + Size req <= se_extent_size_ e) /\
  (forall router, extent_router_ req' = Some router ->
     match request_type_ req with
     | kTypeRead => IsPrimary router (net_ip e) (net_port e) = true
     | kTypeWrite => replication_type_ e = kStandardReplication ->
         IsPrimary router (net_ip e) (net_port e) = true
     | kTypeReplicate => IsSecondary router (net_ip e) (net_port e) = true
     | kTypeScrub => IsValid router (net_ip e) (net_port e) = true
     | _ => True
     end) /\
  (forall c, m_crc32 (op_request req) = Some c ->
     request_type_ req = kTypeWrite \/ request_type_ req = kTypeReplicate ->
     Crc32_Checksum (request_attachment req) = c).
Proof.
  intros E Hok. apply doSafetyCheck_ok in E as (Hp & (s2 & Ho & Ho2) & Hc & Hr); [|done].
  assert (Hsame : request_type_ req' = request_type_ req /\ op_request req' = op_request req /\
    request_attachment req' = request_attachment req) by (by destruct Hr as [->|[r ->]]).
  destruct Hsame as (Ht & Hm & Ha).
  apply checkParameters_ok in Hp as (H1 & H2 & H3 & H4).
  unfold ExtentID, Offset, Size in *. rewrite Ht, Hm in *.
  split_and!; auto.
  - intros Hb. rewrite wrap64_small in H4; [done|]. unfold is_u64, u64_max in *. lia.
  - intros router Er. unfold checkOwnership, checkOwnership_write in Ho. rewrite Er, Ht in Ho. cbn in Ho.
    destruct (request_type_ req); auto; simplify_eq; repeat bcase; b2p; auto; try done.
    intros Hs. apply andb_false_iff in Heqb as [Hf|Hf]; [by rewrite bool_decide_eq_false in Hf|by b2p].
  - intros c Ecrc Htype. unfold checkChecksum in Hc. rewrite Ht, Hm, Ecrc, Ha in Hc.
    destruct (Crc32_Checksum _ =? c) eqn:Ec; [by b2p|].
    destruct Htype as [E|E]; rewrite E in Hc; subst s; done.
Qed.

Section Demo.
#[local] Instance se_crc : Crc32c := fun s => slen s.

Definition demo_cfg : EngineCfg :=
  mkEngineCfg kNVMeEngine kStandardReplication 4096 1048576 "10.0.0.1" 80.
Definition demo_router : PbRouter :=
  mkPbRouter (mkESInstance 1 "10.0.0.1" 80 "10.1.0.1" 81) [mkESInstance 2 "10.0.0.2" 80 "10.1.0.2" 81].
Definition demo_write (offset size : Z) (data : string) : Request :=
  SetOperationContext (Request_new kTypeWrite) (mkReqMsg "b.1" offset size (Some (slen data))) data.
End Demo.

Lemma safety_check_sound_witness :
  exists req' rm', @doSafetyCheck se_crc demo_cfg (mkExtentRouterMgr ∅ ∅ false)
      (demo_write 4096 8192 "xyz") (RpcReply 0 (Some demo_router)) = Some (Status_default, req', rm') /\
    Offset (demo_write 4096 8192 "xyz") + Size (demo_write 4096 8192 "xyz") <= 1048576.
Proof.
  destruct (@doSafetyCheck se_crc demo_cfg (mkExtentRouterMgr ∅ ∅ false)
      (demo_write 4096 8192 "xyz") (RpcReply 0 (Some demo_router))) as [[[s req'] rm']|] eqn:E;
    [|vm_compute in E; discriminate].
  assert (Hs : s = Status_default) by (vm_compute in E; injection E as <- _ _; reflexivity).
  subst s. exists req', rm'. split; [reflexivity|].
  destruct (@safety_check_sound se_crc _ _ _ _ _ _ _ E) as (_ & _ & _ & _ & _ & H & _); [reflexivity|].
  apply H. vm_compute. split; discriminate.
Defined.

(** the sum of offset and size is computed modulo 2^64, so a request whose
    offset is close to 2^64 passes the parameter check whatever the extent
    size; on an existing extent the location lookup then gives it a physical
    offset before the extent's first byte. *)
Theorem parameter_check_wraps e req id (loc : ExtentLocation) :
  align_size_ e = 4096 -> 0 <= se_extent_size_ e ->
  request_type_ req = kTypeRead -> op_request req = mkReqMsg id 18446744073709547520 4096 None ->
  id <> "" -> 4096 <= loc_offset loc -> is_u64 (loc_offset loc) ->
  ok (checkParameters e req) = true /\
  wrap64 (loc_offset loc + Offset req) = loc_offset loc - 4096.
Proof.
  intros Ha Hs Ht Hm Hid Hl Hu. unfold checkParameters, ExtentID, Offset, Size.
  rewrite Ht, Hm, Ha. cbn [m_extent_id m_offset m_size].
  apply String.eqb_neq in Hid. rewrite Hid. split.
  - change (18446744073709547520 mod 4096 =? 0) with true.
    change (4096 mod 4096 =? 0) with true. cbn [negb].
    change (wrap64 (18446744073709547520 + 4096)) with 0.
    destruct (Z.ltb_spec (se_extent_size_ e) 0); [lia|done].
  - unfold wrap64, is_u64, u64_max in *. lia.
Qed.

Lemma parameter_check_wraps_witness :
  let req := SetOperationContext (Request_new kTypeRead) (mkReqMsg "b.2" 18446744073709547520 4096 None) "" in
  ok (checkParameters demo_cfg req) = true /\ wrap64 (1048576 + Offset req) = 1044480.
Proof.
  apply (parameter_check_wraps demo_cfg _ "b.2" (mkExtentLocation 1048576 1048576 "b.2"));
    try reflexivity; try discriminate; cbn; try lia. unfold is_u64, u64_max; lia.
Defined.

(** ** Isolation of extents on the device *)

Lemma string_ext s t :
  slen s = slen t -> (forall i, 0 <= i < slen s -> byte_at s i = byte_at t i) -> s = t.
Proof.
  unfold slen. revert t. induction s as [|c s IH]; intros [|d t]; cbn [String.length]; try lia; [done|].
  intros Hl Hb. f_equal.
  - specialize (Hb 0 ltac:(lia)). done.
  - apply IH; [lia|]. intros i Hi. specialize (Hb (i + 1) ltac:(lia)). unfold byte_at in *.
    replace (Z.to_nat (i + 1)) with (S (Z.to_nat i)) in Hb by lia. done.
Qed.

Lemma substring_0 s n : substring n 0 s = "".
Proof. revert n. induction s; intros [|n]; cbn; auto. Qed.

Lemma copy_to_full att buf n : slen att = n -> copy_to att buf n = att.
Proof.
  intros <-. unfold copy_to, slen. rewrite Nat2Z.id, Nat.min_id, Nat.sub_diag, substring_0, substring_all.
  induction att; cbn; congruence.
Qed.

Section Isolation.
Context `{SpaceManagerLaws A} `{RocksDBLaws DB} `{Crc32c} `{BDevLaws D}.
Implicit Types (b : BareEngine A DB) (req : Request) (d : D).

(** Requests whose range lies in the extent. *)
Definition in_extent (m : ExtentLocationMgr A DB) req : Prop :=
  0 <= Offset req /\ 0 <= Size req /\ Offset req + Size req <= extent_size_ m.

(** A successful lookup gives the request the bytes of its own extent. *)
Lemma queryLocation_own rand b req alloc s rq b' :
  wf_mgr (extent_loc_mgr_ b) -> id_ok (ExtentID req) -> 0 <= rand -> in_extent (extent_loc_mgr_ b) req ->
  queryLocation rand b req alloc = Some (s, rq, b') -> ok s = true ->
  wf_mgr (extent_loc_mgr_ b') /\ task_queue_ b' = task_queue_ b /\
  extent_size_ (extent_loc_mgr_ b') = extent_size_ (extent_loc_mgr_ b) /\
  exists l, extent_loc_map_ (extent_loc_mgr_ b') !! ExtentID req = Some l /\
    rq = SetPhysicalOffset req (loc_offset l + Offset req) /\
    Offset req + Size req <= loc_size l.
Proof.
  intros W Hid Hr (Ho & Hs & Hle). unfold queryLocation.
  destruct (QueryLocation_spec rand (extent_loc_mgr_ b) (ExtentID req) (Offset req)
    (physical_offset_ req) alloc W Hid Hr) as (st & phys & m' & -> & W' & _ & Hes & Hc).
  cbn. intros E Hok. simplify_eq. cbn.
  destruct Hc as [(_ & l & Hl & -> & _)|(Hf & _)]; [|congruence].
  split_and!; auto. exists l. destruct (wm_loc m' W' _ l Hl) as (_ & _ & Hsz & V & _).
  apply (sm_valid_law _ _ _ (wm_space m' W')) in V.
  split_and!; auto; [|lia]. rewrite wrap64_small; [done|]. unfold is_u64. lia.
Qed.

(** The device after a write command to the bytes [Offset, Offset+Size) of
    the extent at [l]. *)
Lemma doWrite_own d buf rq l off d' rq' :
  physical_offset_ rq = loc_offset l + off -> 0 <= off -> off + Size rq <= loc_size l ->
  doWrite d buf rq = (d', rq') ->
  (forall x, loc_bytes l x = false -> bdev_byte d' x = bdev_byte d x) /\
  (result_ rq' = true -> slen (request_attachment rq) = Size rq ->
   forall i, 0 <= i < Size rq ->
     bdev_byte d' (loc_offset l + off + i) = byte_at (request_attachment rq) i).
Proof.
  intros Hp Ho Hle. unfold doWrite. rewrite Hp.
  destruct (bdev_write _ _ _ _) as [d1|] eqn:Ew; intros; simplify_eq.
  - split.
    + intros x Hx. rewrite (bdev_write_law _ _ _ _ _ Ew).
      replace (in_range (loc_offset l + off) (Size rq) x) with false; [done|].
      symmetry. apply in_range_false. apply in_range_false in Hx. lia.
    + intros _ Hlen i Hi. rewrite (bdev_write_law _ _ _ _ _ Ew).
      replace (in_range (loc_offset l + off) (Size rq) (loc_offset l + off + i)) with true
        by (symmetry; apply in_range_spec; lia).
      rewrite copy_to_full by done. f_equal. lia.
  - split; [done|]. cbn. rewrite andb_false_r. done.
Qed.

Lemma handleWrite_ok rand enq b req s rq b' :
  handleWrite rand enq b req = Some (s, rq, b') -> ok s = true ->
  exists s1 b1, queryLocation rand b req true = Some (s1, rq, b1) /\ ok s1 = true /\ enq = true /\
    b' = mkBareEngine (extent_loc_mgr_ b1) (task_queue_ b1 ++ [rq]).
Proof.
  unfold handleWrite, submit, SpdkMgr_ProcessRequest.
  destruct (queryLocation rand b req true) as [[[s0 rq0] b0]|] eqn:Eq; cbn; [|done].
  destruct (ok s0) eqn:E0; cbn; [|intros; simplify_eq; congruence].
  destruct enq; cbn; intros; simplify_eq; try done. eauto 10.
Qed.

(** A read of an extent that has a location. *)
Lemma handleRead_existing rand b req l :
  extent_loc_map_ (extent_loc_mgr_ b) !! ExtentID req = Some l ->
  handleRead rand true b req =
    Some (Status_default, SetPhysicalOffset req (wrap64 (loc_offset l + Offset req)),
          mkBareEngine (extent_loc_mgr_ b)
            (task_queue_ b ++ [SetPhysicalOffset req (wrap64 (loc_offset l + Offset req))])).
Proof. intros E. unfold handleRead, queryLocation, QueryLocation. rewrite E. done. Qed.
End Isolation.


(** ** A device in memory *)

(** Bytes by address; a command on a negative address is refused. *)
Record MemDisk : Type := mkMemDisk { disk_byte : Z -> ascii }.

Fixpoint read_bytes (f : Z -> ascii) (off : Z) (n : nat) : string :=
  match n with O => "" | S n' => String (f off) (read_bytes f (off + 1) n') end.

#[export] Instance MemDisk_BDev : BDev MemDisk := {|
  bdev_read d off n := if off <? 0 then None else Some (read_bytes (disk_byte d) off (Z.to_nat n));
  bdev_write d off n s := if off <? 0 then None else
    Some (mkMemDisk (fun x => if in_range off n x then byte_at s (x - off) else disk_byte d x));
  bdev_write_zeroes d off n := if off <? 0 then None else
    Some (mkMemDisk (fun x => if in_range off n x then zero else disk_byte d x));
  bdev_byte := disk_byte
|}.

Lemma read_bytes_spec f n : forall off, slen (read_bytes f off n) = Z.of_nat n /\
  forall i, 0 <= i < Z.of_nat n -> byte_at (read_bytes f off n) i = f (off + i).
Proof.
  unfold slen. induction n as [|n IH]; intros off; cbn [read_bytes String.length]; [split; [done|lia]|].
  destruct (IH (off + 1)) as [Hl Hb]. split; [lia|]. intros i Hi.
  destruct (Z.eq_dec i 0) as [->|]; [by rewrite Z.add_0_r|].
  replace (off + i) with (off + 1 + (i - 1)) by lia. rewrite <- Hb by lia.
  unfold byte_at. replace (Z.to_nat i) with (S (Z.to_nat (i - 1))) by lia. done.
Qed.

#[export] Instance MemDisk_laws : BDevLaws MemDisk.
Proof.
  split; intros d off n; cbn; destruct (off <? 0); try done.
  - intros s Hn [= <-]. destruct (read_bytes_spec (disk_byte d) (Z.to_nat n) off) as [Hl Hb].
    rewrite Z2Nat.id in * by lia. auto.
  - intros s d' [= <-] x. done.
  - intros d' [= <-] x. done.
Qed.

#[local] Existing Instance demo_crc.
Definition demo_bare : BareEngine SpaceAlloc MemDB := mkBareEngine demo_mgr [].
Definition demo_data : string := repeat_char "x" 64.


(** C15: what was written is what is read: after a write of an extent's range
    was accepted and executed by the worker, a read request for the same range
    finds the extent, and when the worker executes it on a device whose bytes
    in that range have not been overwritten, a successful read returns exactly
    the data written. *)
Theorem read_returns_written `{SpaceManagerLaws A} `{RocksDBLaws DB} `{Crc32c} `{BDevLaws D}
    rand enq (b : BareEngine A DB) req s rq b' (d d' d2 : D) buf rq' rreq rand' :
  wf_mgr (extent_loc_mgr_ b) -> id_ok (ExtentID req) -> 0 <= rand ->
  in_extent (extent_loc_mgr_ b) req ->
  handleWrite rand enq b req = Some (s, rq, b') -> ok s = true ->
  doWrite d buf rq = (d', rq') -> result_ rq' = true ->
  slen (request_attachment req) = Size req ->
  request_type_ rreq = kTypeRead -> op_request rreq = op_request req -> request_type_ req = kTypeWrite ->
  (forall i, 0 <= i < Size req ->
     bdev_byte d2 (physical_offset_ rq + i) = bdev_byte d' (physical_offset_ rq + i)) ->
  exists rr b'', handleRead rand' true b' rreq = Some (Status_default, rr, b'') /\
    (result_ (doRead d2 rr) = true -> response_attachment (doRead d2 rr) = request_attachment req).
Proof.
  intros W Hid Hr Hin E Hok Ew Hres Hlen Hrt Hop Hwt Hd2.
  apply handleWrite_ok in E as (s1 & b1 & Eq & Hs1 & _ & ->); [|done].
  destruct (queryLocation_own _ _ _ _ _ _ _ W Hid Hr Hin Eq Hs1) as (W' & Hq & Hes & l & Hl & -> & Hle).
  destruct Hin as (Ho & Hs & _).
  assert (Hsame : ExtentID rreq = ExtentID req /\ Offset rreq = Offset req /\ Size rreq = Size req).
  { unfold ExtentID, Offset, Size. rewrite Hrt, Hop, Hwt. done. }
  destruct Hsame as (Hid' & Hoff & Hsz).
  destruct (doWrite_own d buf (SetPhysicalOffset req (loc_offset l + Offset req)) l (Offset req) d' rq'
    eq_refl Ho Hle Ew) as [_ Hdata].
  do 2 eexists. split; [apply handleRead_existing; by rewrite Hid'|].
  destruct (wm_loc _ W' _ l Hl) as (_ & _ & _ & V & _).
  apply (sm_valid_law _ _ _ (wm_space _ W')) in V.
  rewrite Hoff, wrap64_small by (unfold is_u64; lia).
  set (rr := SetPhysicalOffset rreq (loc_offset l + Offset req)).
  assert (Hrr : Size rr = Size req) by (by rewrite <- Hsz).
  unfold doRead. rewrite Hrr. cbn [physical_offset_ SetPhysicalOffset rr] in *.
  destruct (bdev_read _ _ _) as [data|] eqn:Er; [|cbn; by rewrite andb_false_r].
  intros _. cbn. apply bdev_read_law in Er as [Hl1 Hb1]; [|done].
  apply string_ext; [congruence|]. intros i Hi. rewrite Hl1 in Hi.
  rewrite Hb1 by lia. cbn in Hd2. rewrite Hd2 by lia. by apply (Hdata Hres Hlen i).
Qed.

Lemma read_returns_written_witness :
  exists s rq b rr b'', @handleWrite _ _ _ _ demo_crc 0 true demo_bare (demo_write 8192 64 demo_data)
      = Some (s, rq, b) /\
    let rreq := SetOperationContext (Request_new kTypeRead) (op_request (demo_write 8192 64 demo_data)) "" in
    let d := (doWrite (mkMemDisk (fun _ => "0"%char)) demo_data rq).1 in
    @handleRead _ _ _ _ demo_crc 0 true b rreq = Some (Status_default, rr, b'') /\
    response_attachment (doRead d rr) = demo_data.
Proof.
  destruct (@handleWrite _ _ _ _ demo_crc 0 true demo_bare (demo_write 8192 64 demo_data))
    as [[[s rq] b]|] eqn:E; [|vm_compute in E; discriminate].
  assert (Hs : s = Status_default /\
    result_ (doWrite (mkMemDisk (fun _ => "0"%char)) demo_data rq).2 = true /\
    extent_loc_map_ (extent_loc_mgr_ b) !! "b.1" = Some (mkExtentLocation 0 1048576 "b.1")).
  { vm_compute in E. injection E as <- <- <-. vm_compute. auto. }
  destruct Hs as (-> & Hres & Hmap).
  destruct (doWrite (mkMemDisk (fun _ => "0"%char)) demo_data rq) as [d' rq'] eqn:Ew.
  set (rreq := SetOperationContext (Request_new kTypeRead) (op_request (demo_write 8192 64 demo_data)) "").
  destruct (@read_returns_written _ _ _ _ _ _ demo_crc MemDisk _ _ 0 true demo_bare
    (demo_write 8192 64 demo_data) Status_default rq b (mkMemDisk (fun _ => "0"%char)) d' d' demo_data
    rq' rreq 0) as (rr & b'' & Er & Hdata).
  - apply demo_mgr_on_device.
  - vm_compute; reflexivity.
  - lia.
  - vm_compute; split_and!; discriminate.
  - exact E.
  - reflexivity.
  - exact Ew.
  - exact Hres.
  - vm_compute; reflexivity.
  - reflexivity.
  - reflexivity.
  - reflexivity.
  - reflexivity.
  - exists Status_default, rq, b, rr, b''. split; [reflexivity|]. cbv zeta. rewrite Ew.
    split; [exact Er|]. cbn [fst]. apply Hdata.
    pose proof (handleRead_existing 0 b rreq (mkExtentLocation 0 1048576 "b.1") Hmap) as Er2.
    rewrite Er in Er2. injection Er2 as -> _. reflexivity.
Defined.
