(* ===== verification/WriteCompletion.v ===== *)
(** * Completion of a replicated write

    A write on the primary completes in pieces: the request thread runs
    [ExtentIOServiceImpl::Write] (src/src/extentserver/extent_io_service.cpp)
    through [StorageEngine::ProcessRequest] and [ReplicateEngine::Send]
    (replicate_engine.cpp), each secondary's answer runs
    [ReplicateEngine::HandleResponse], and the device worker runs
    [SpdkWorker::worker_callback] (spdk_worker.cpp).  All of them end in
    [WriteDone], which counts the request's references down and replies when
    the last one is gone.

    Each piece is a thread of atomic operations on the shared request, and
    [wstep] interleaves the threads in any order.  [SetResult] is a plain
    read-modify-write of [result_]; [atomic] selects whether it is one step or
    a load and a store. *)

From S2P Require Import Prelude Status Codec KvStore Net StorageEngine.

#[local] Open Scope Z_scope.

(** ** Threads *)

Inductive op : Type :=
  | OSetRef (n : Z)            (** [SetRefCount] *)
  | OSetResult (b : bool)      (** [SetResult] in one step *)
  | OLoad                      (** the load of [SetResult] *)
  | OStore (b : bool)          (** the store of [SetResult] *)
  | OCallback                  (** [UserCallback()(req)], that is [WriteDone] *)
  | OSpawn (b : bool).         (** an answer arrives later, on another thread *)

(** What becomes of one secondary: the replicate request is sent and answered
    with success or failure, the connection fails, or it is skipped after an
    earlier failure. *)
Inductive outcome : Type :=
  | Replied (success : bool)
  | NotConnected
  | Skipped.

(** The local part: refused by the bare engine, or executed by the worker. *)
Inductive local_outcome : Type :=
  | LocalRefused
  | LocalDone (success : bool).

Definition set_result_ops (atomic b : bool) : list op :=
  if atomic then [OSetResult b] else [OLoad; OStore b].

(** [SetResult(b)] and then the user callback: the body of [HandleResponse],
    of [worker_callback] and of every failure path. *)
Definition completion_ops (atomic b : bool) : list op := (set_result_ops atomic b ++ [OCallback])%list.

Definition send_ops (atomic : bool) (o : outcome) : list op :=
  match o with
  | Replied b => [OSpawn b]
  | NotConnected => completion_ops atomic false
  | Skipped => [OCallback]
  end.

Definition is_failure (o : outcome) : bool :=
  match o with Replied _ => false | _ => true end.

(** The request thread: safety check, [Send], bare engine, and the failure
    path of [Write]. *)
Definition write_ops (atomic check_ok : bool) (outs : list outcome) (local : local_outcome) : list op :=
  if negb check_ok then completion_ops atomic false
  else
    (OSetRef (1 + Z.of_nat (length outs)) :: concat (map (send_ops atomic) outs) ++
     (if existsb is_failure outs then completion_ops atomic false
      else match local with
           | LocalRefused => completion_ops atomic false
           | LocalDone b => [OSpawn b]
           end))%list.

(** ** Interleaving *)

Record wstate : Type := mkWState {
  w_req : Request;
  w_replies : list Reply;
  w_threads : list (bool * list op)
}.

(** One operation of thread [i], whose register is [reg]; the threads after it. *)
Definition exec (atomic : bool) (s : wstate) (i : nat) (reg : bool) (o : op) (rest : list op) : wstate :=
  let ts := <[i := (reg, rest)]> (w_threads s) in
  match o with
  | OSetRef n => mkWState (SetRefCount (w_req s) n) (w_replies s) ts
  | OSetResult b => mkWState (SetResult (w_req s) b) (w_replies s) ts
  | OLoad => mkWState (w_req s) (w_replies s) (<[i := (result_ (w_req s), rest)]> (w_threads s))
  | OStore b =>
      let r := w_req s in
      mkWState (mkRequest (reg && b) (ref_count_ r) (request_type_ r) (op_request r)
                  (request_attachment r) (response_attachment r) (io_unit_ r) (extent_router_ r)
                  (physical_offset_ r) (crc32_ r)) (w_replies s) ts
  | OCallback =>
      let '(reply, r) := WriteDone (w_req s) in
      mkWState r (w_replies s ++ match reply with Some x => [x] | None => [] end)%list ts
  | OSpawn b => mkWState (w_req s) (w_replies s) (ts ++ [(true, completion_ops atomic b)])%list
  end.

Inductive wstep (atomic : bool) (s : wstate) : wstate -> Prop :=
  | wstep_run i reg o rest :
      w_threads s !! i = Some (reg, o :: rest) -> wstep atomic s (exec atomic s i reg o rest).

Definition winit (atomic check_ok : bool) (outs : list outcome) (local : local_outcome) (req : Request)
  : wstate := mkWState req [] [(true, write_ops atomic check_ok outs local)].

Definition finished (s : wstate) : Prop := Forall (fun t => t.2 = []) (w_threads s).

(** ** Counting callbacks *)

Definition op_callbacks (o : op) : Z := match o with OCallback | OSpawn _ => 1 | _ => 0 end.
Definition is_setref (o : op) : bool := match o with OSetRef _ => true | _ => false end.

Fixpoint sum_ops (f : op -> Z) (l : list op) : Z :=
  match l with [] => 0 | o :: l' => f o + sum_ops f l' end.

Fixpoint sum_threads (f : op -> Z) (ts : list (bool * list op)) : Z :=
  match ts with [] => 0 | t :: ts' => sum_ops f t.2 + sum_threads f ts' end.

Lemma sum_ops_app f a b : sum_ops f (a ++ b)%list = sum_ops f a + sum_ops f b.
Proof. induction a; cbn; lia. Qed.

Lemma sum_threads_app f a b : sum_threads f (a ++ b)%list = sum_threads f a + sum_threads f b.
Proof. induction a; cbn; lia. Qed.

Lemma sum_threads_update f ts i reg ops reg' ops' :
  ts !! i = Some (reg, ops) ->
  sum_threads f (<[i := (reg', ops')]> ts) = sum_threads f ts - sum_ops f ops + sum_ops f ops'.
Proof.
  revert i. induction ts as [|t ts IH]; intros [|i] E; [done..| |].
  - cbn in *. simplify_eq. cbn. lia.
  - change (<[S i := (reg', ops')]> (t :: ts)) with (t :: <[i := (reg', ops')]> ts).
    cbn [sum_threads]. rewrite (IH i E). lia.
Qed.

Lemma sum_threads_nonneg f ts : (forall o, 0 <= f o) -> 0 <= sum_threads f ts.
Proof.
  intros Hf. induction ts as [|[r l] ts IH]; cbn; [lia|].
  assert (0 <= sum_ops f l); [|lia]. induction l; cbn; [lia|]. pose proof (Hf a). lia.
Qed.

Lemma op_callbacks_nonneg o : 0 <= op_callbacks o.
Proof. destruct o; cbn; lia. Qed.

Definition no_setref (ts : list (bool * list op)) : Prop :=
  Forall (fun t => Forall (fun o => is_setref o = false) t.2) ts.

Lemma completion_no_setref atomic b : Forall (fun o => is_setref o = false) (completion_ops atomic b).
Proof. destruct atomic; repeat constructor. Qed.

Lemma completion_callbacks atomic b : sum_ops op_callbacks (completion_ops atomic b) = 1.
Proof. by destruct atomic. Qed.

Lemma sends_callbacks atomic outs :
  sum_ops op_callbacks (concat (map (send_ops atomic) outs)) = Z.of_nat (length outs).
Proof.
  induction outs as [|o outs IH]; [done|]. cbn [map concat length]. rewrite sum_ops_app, IH.
  destruct o; cbn [send_ops]; rewrite ?completion_callbacks; cbn; lia.
Qed.

Lemma sends_no_setref atomic outs :
  Forall (fun o => is_setref o = false) (concat (map (send_ops atomic) outs)).
Proof.
  induction outs as [|o outs IH]; [constructor|]. cbn. apply Forall_app. split; [|done].
  destruct o; [repeat constructor|apply completion_no_setref|repeat constructor].
Qed.

Definition callbacks (s : wstate) : Z := sum_threads op_callbacks (w_threads s).

(** Before [SetRefCount]; while references remain; after the reply. *)
Inductive winv (s : wstate) : Prop :=
  | winv_start reg n rest :
      w_threads s = [(reg, OSetRef n :: rest)] -> w_replies s = [] ->
      sum_ops op_callbacks rest = n -> 0 < n -> Forall (fun o => is_setref o = false) rest -> winv s
  | winv_running :
      ref_count_ (w_req s) = callbacks s -> 0 < callbacks s -> w_replies s = [] ->
      no_setref (w_threads s) -> winv s
  | winv_replied :
      callbacks s = 0 -> length (w_replies s) = 1%nat -> no_setref (w_threads s) -> winv s.

Lemma no_setref_update ts i reg o rest reg' :
  no_setref ts -> ts !! i = Some (reg, o :: rest) ->
  no_setref (<[i := (reg', rest)]> ts) /\ is_setref o = false.
Proof.
  intros Hn E. assert (Hl : Forall (fun o => is_setref o = false) (o :: rest))
    by (apply (Forall_lookup_1 _ _ _ _ Hn E)).
  inversion Hl; subst. split; [|done]. apply Forall_insert; done.
Qed.

Lemma winv_step atomic s s' : winv s -> wstep atomic s s' -> winv s'.
Proof.
  intros Hi [i reg o rest E].
  destruct Hi as [reg0 n rest0 Et Er Hn Hp Hs|Href Hpos Hrep Hns|Hz Hlen Hns].
  - rewrite Et in E. destruct i as [|i]; [|done]. cbn in E. simplify_eq. cbn.
    apply winv_running; unfold callbacks, no_setref; cbn; rewrite ?Et; cbn; try lia; auto.
  - destruct (no_setref_update _ _ _ _ _ reg Hns E) as [Hns' Ho].
    pose proof (sum_threads_update op_callbacks _ _ _ _ reg rest E) as Hsum. cbn in Hsum.
    unfold callbacks in *. destruct o; try done; cbn -[WriteDone] in *.
    + apply winv_running; cbn; auto; unfold callbacks; cbn; lia.
    + destruct (no_setref_update _ _ _ _ _ (result_ (w_req s)) Hns E) as [Hns2 _].
      pose proof (sum_threads_update op_callbacks _ _ _ _ (result_ (w_req s)) rest E) as Hsum2. cbn in Hsum2.
      apply winv_running; cbn; auto; unfold callbacks; cbn; lia.
    + apply winv_running; cbn; auto; unfold callbacks; cbn; lia.
    + unfold WriteDone, FetchAndSubRef. destruct (Z.eqb_spec (ref_count_ (w_req s)) 1); cbn.
      * apply winv_replied; cbn; auto; unfold callbacks; cbn; [lia|]. by rewrite Hrep.
      * apply winv_running; cbn; auto; unfold callbacks; cbn; try lia. by rewrite app_nil_r.
    + apply winv_running; unfold callbacks, no_setref; cbn; auto;
        rewrite ?sum_threads_app; cbn; rewrite ?completion_callbacks; try lia.
      apply Forall_app. split; [done|]. repeat constructor. apply completion_no_setref.
  - destruct (no_setref_update _ _ _ _ _ reg Hns E) as [Hns' Ho].
    destruct (no_setref_update _ _ _ _ _ (result_ (w_req s)) Hns E) as [Hns2 _].
    pose proof (sum_threads_update op_callbacks _ _ _ _ reg rest E) as Hsum. cbn in Hsum.
    pose proof (sum_threads_update op_callbacks _ _ _ _ (result_ (w_req s)) rest E) as Hsum2. cbn in Hsum2.
    unfold callbacks in *.
    pose proof (sum_threads_nonneg op_callbacks (<[i := (reg, rest)]> (w_threads s)) op_callbacks_nonneg).
    destruct o; try done; cbn in *; try lia; apply winv_replied; unfold callbacks; cbn; auto; lia.
Qed.

Lemma winv_init atomic check_ok outs local req :
  ref_count_ req = 1 -> winv (winit atomic check_ok outs local req).
Proof.
  intros Hr. unfold winit, write_ops. destruct check_ok; cbn [negb].
  - eapply winv_start; cbn; [done|done| | |].
    + rewrite sum_ops_app, sends_callbacks.
      destruct (existsb is_failure outs); [rewrite completion_callbacks; lia|].
      destruct local; cbn; rewrite ?completion_callbacks; lia.
    + lia.
    + apply Forall_app. split; [apply sends_no_setref|].
      destruct (existsb is_failure outs); [apply completion_no_setref|].
      destruct local; [apply completion_no_setref|repeat constructor].
  - apply winv_running; unfold callbacks, no_setref; cbn; rewrite ?completion_callbacks; auto; try lia.
    repeat constructor. apply completion_no_setref.
Qed.

Lemma winv_reach atomic s s' : winv s -> rtc (wstep atomic) s s' -> winv s'.
Proof. intros H. induction 1; eauto using winv_step. Qed.

Lemma finished_callbacks s : finished s -> callbacks s = 0.
Proof.
  unfold finished, callbacks. induction 1 as [|[r l] ts Hl _ IH]; [done|]. cbn in *. subst. cbn. lia.
Qed.

(** ** Executions end *)

(** A spawned completion has at most three operations. *)
Definition op_weight (o : op) : Z := match o with OSpawn _ => 4 | _ => 1 end.

Lemma op_weight_nonneg o : 0 <= op_weight o.
Proof. destruct o; cbn; lia. Qed.

Lemma wstep_weight atomic s s' : wstep atomic s s' ->
  0 <= sum_threads op_weight (w_threads s') < sum_threads op_weight (w_threads s).
Proof.
  intros [i reg o rest E].
  split; [apply sum_threads_nonneg, op_weight_nonneg|].
  pose proof (sum_threads_update op_weight _ _ _ _ reg rest E) as H1. cbn in H1.
  pose proof (sum_threads_update op_weight _ _ _ _ (result_ (w_req s)) rest E) as H2. cbn in H2.
  destruct o; cbn -[WriteDone] in *; try lia.
  - destruct (WriteDone (w_req s)). cbn. lia.
  - rewrite sum_threads_app. destruct atomic; cbn; lia.
Qed.

Lemma wstep_bound atomic n s s' : nsteps (wstep atomic) n s s' ->
  Z.of_nat n <= sum_threads op_weight (w_threads s).
Proof.
  intros Hn. assert (Hs : Z.of_nat n + sum_threads op_weight (w_threads s')
    <= sum_threads op_weight (w_threads s)).
  { induction Hn as [s|n s s1 s' Hst _ IH]; [lia|]. apply wstep_weight in Hst. lia. }
  pose proof (sum_threads_nonneg op_weight (w_threads s') op_weight_nonneg). lia.
Qed.

Lemma not_finished_step atomic s : ~ finished s -> exists s', wstep atomic s s'.
Proof.
  intros Hn. unfold finished in Hn.
  apply not_Forall_Exists in Hn; [|intros [? [|]]; [by left|by right]].
  apply Exists_exists in Hn as ([reg l] & Hin & Hne). cbn in Hne.
  apply list_elem_of_lookup in Hin as [i Hi].
  destruct l as [|o rest]; [done|]. eexists. by apply (wstep_run atomic s i reg o rest).
Qed.

(** ** The reply is the conjunction of all results *)

Definition op_ok (o : op) : bool :=
  match o with OSetResult b | OStore b | OSpawn b => b | _ => true end.
Definition is_split (o : op) : bool := match o with OLoad | OStore _ => true | _ => false end.
Definition ops_ok (l : list op) : bool := forallb op_ok l.
Definition threads_ok (ts : list (bool * list op)) : bool := forallb (fun t => ops_ok t.2) ts.

(** The last operation of a thread hands its reference on. *)
Fixpoint ends_in_callback (l : list op) : bool :=
  match l with
  | [] => true
  | [o] => match o with OCallback | OSpawn _ => true | _ => false end
  | _ :: l' => ends_in_callback l'
  end.

Definition threads_wf (ts : list (bool * list op)) : Prop :=
  Forall (fun t => ends_in_callback t.2 = true /\ Forall (fun o => is_split o = false) t.2) ts.

Lemma threads_ok_update ts i reg o rest reg' :
  ts !! i = Some (reg, o :: rest) ->
  threads_ok ts = op_ok o && threads_ok (<[i := (reg', rest)]> ts).
Proof.
  revert i. induction ts as [|t ts IH]; intros [|i] E; [done..| |].
  - cbn in *. simplify_eq. cbn. by rewrite andb_assoc.
  - change (<[S i := (reg', rest)]> (t :: ts)) with (t :: <[i := (reg', rest)]> ts).
    cbn [threads_ok forallb]. fold (threads_ok ts) (threads_ok (<[i := (reg', rest)]> ts)).
    rewrite (IH i E). destruct (ops_ok t.2), (op_ok o); done.
Qed.

Lemma threads_wf_update ts i reg o rest reg' :
  threads_wf ts -> ts !! i = Some (reg, o :: rest) ->
  threads_wf (<[i := (reg', rest)]> ts) /\ is_split o = false.
Proof.
  intros Hw E. destruct (Forall_lookup_1 _ _ _ _ Hw E) as [He Hs]. cbn in He, Hs.
  inversion Hs; subst. split; [|done]. apply Forall_insert; [done|]. cbn. split; [|done].
  by destruct rest.
Qed.

Lemma no_callbacks_empty ts :
  threads_wf ts -> sum_threads op_callbacks ts = 0 -> threads_ok ts = true.
Proof.
  induction 1 as [|[r l] ts [He _] _ IH]; [done|]. intros Hz. cbn in He, Hz.
  assert (Hl : forall l, 0 <= sum_ops op_callbacks l).
  { intros l0. induction l0; cbn; [lia|]. pose proof (op_callbacks_nonneg a). lia. }
  pose proof (Hl l). pose proof (sum_threads_nonneg op_callbacks ts op_callbacks_nonneg).
  change (ops_ok l && threads_ok ts = true). rewrite IH by lia. rewrite andb_true_r.
  assert (l = []) as ->; [|done]. assert (Hz' : sum_ops op_callbacks l = 0) by lia.
  clear -He Hz' Hl. induction l as [|o l IH]; [done|]. exfalso. cbn in Hz'.
  pose proof (Hl l). pose proof (op_callbacks_nonneg o).
  destruct l as [|o' l]; [destruct o; cbn in *; done|].
  cbn in He. by discriminate (IH He ltac:(lia)).
Qed.

Lemma completion_wf b : ends_in_callback (completion_ops true b) = true /\
  Forall (fun o => is_split o = false) (completion_ops true b).
Proof. split; [done|repeat constructor]. Qed.

(** The result the reply must carry, seen from any point of the execution. *)
Definition wres (total : bool) (s : wstate) : Prop :=
  threads_wf (w_threads s) /\
  match w_replies s with
  | [] => result_ (w_req s) && threads_ok (w_threads s) = total
  | r :: _ => reply_code r = (if total then CYPRE_OK else CYPRE_ES_PROCESS_REQ_ERROR)
  end.

Lemma wres_step total s s' : winv s -> wres total s -> wstep true s s' -> wres total s'.
Proof.
  intros Hinv [Hwf Hres] [i reg o rest E].
  pose proof (threads_ok_update _ _ _ _ _ reg E) as Hok.
  destruct (threads_wf_update _ _ _ _ _ reg Hwf E) as [Hwf' Ho].
  pose proof (sum_threads_update op_callbacks _ _ _ _ reg rest E) as Hsum.
  unfold wres. destruct o; try done; cbn -[WriteDone CYPRE_OK CYPRE_ES_PROCESS_REQ_ERROR threads_ok] in *.
  - split; [done|]. destruct (w_replies s); [|done]. by rewrite <- Hok.
  - split; [done|]. destruct (w_replies s); [|done]. by rewrite <- andb_assoc, <- Hok.
  - destruct Hinv as [reg0 n rest0 Et _ _ _ _|Href Hpos Hrep Hns|Hz Hlen Hns].
    + rewrite Et in E. by destruct i.
    + rewrite Hrep in *. unfold WriteDone, FetchAndSubRef. unfold callbacks in *.
      destruct (Z.eqb_spec (ref_count_ (w_req s)) 1);
        cbn -[threads_ok CYPRE_OK CYPRE_ES_PROCESS_REQ_ERROR]; split; auto.
      * rewrite (no_callbacks_empty _ Hwf') in Hok by lia. rewrite Hok, andb_true_r in Hres.
        rewrite Hres. by destruct total.
      * by rewrite <- Hok.
    + exfalso. unfold callbacks in Hz.
      pose proof (sum_threads_nonneg op_callbacks (<[i := (reg, rest)]> (w_threads s)) op_callbacks_nonneg).
      lia.
  - split.
    + apply Forall_app. split; [done|]. repeat constructor.
    + destruct (w_replies s); [|done]. unfold threads_ok in *. rewrite forallb_app. cbn.
      rewrite !andb_true_r. rewrite Hok in Hres.
      by rewrite (andb_comm _ b).
Qed.

(** Every piece of the write succeeds. *)
Definition all_succeed (check_ok : bool) (outs : list outcome) (local : local_outcome) : bool :=
  check_ok && forallb (fun o => match o with Replied b => b | _ => false end) outs &&
  match local with LocalRefused => false | LocalDone b => b end.

(** The outcomes of the actions [Send] took, with the answers of the
    secondaries it sent to. *)
Fixpoint outcomes_of (acts : list SendAction) (answers : list bool) : list outcome :=
  match acts with
  | [] => []
  | SentTo _ :: acts' =>
      match answers with
      | b :: answers' => Replied b :: outcomes_of acts' answers'
      | [] => Replied false :: outcomes_of acts' []
      end
  | FailedCallback :: acts' => NotConnected :: outcomes_of acts' answers
  | SkippedCallback :: acts' => Skipped :: outcomes_of acts' answers
  end.

Lemma outcomes_of_cons_SentTo c acts answers : exists b rest,
  outcomes_of (SentTo c :: acts) answers = Replied b :: outcomes_of acts rest.
Proof. destruct answers as [|b rest]; cbn; eauto. Qed.

Lemma Send_loop_outcomes init_ok es : forall pool req failed f req' pool' acts answers,
  Send_loop init_ok pool req failed es = (f, req', pool', acts) ->
  length acts = length es /\ length (outcomes_of acts answers) = length es /\
  f = failed || existsb is_failure (outcomes_of acts answers).
Proof.
  induction es as [|e es IH]; intros pool req failed f req' pool' acts answers E; cbn in E.
  { simplify_eq. cbn. by rewrite orb_false_r. }
  destruct failed.
  - destruct (Send_loop _ _ _ _ _) as [[[f1 r1] p1] a1] eqn:El. simplify_eq.
    destruct (IH _ _ _ _ _ _ _ answers El) as (H1 & H2 & ->). cbn. auto.
  - destruct (GetConnection _ _ _ _) as [[c|] p0].
    + destruct (Send_loop _ _ _ _ _) as [[[f1 r1] p1] a1] eqn:El. simplify_eq.
      destruct (outcomes_of_cons_SentTo c a1 answers) as (b & rest & ->).
      destruct (IH _ _ _ _ _ _ _ rest El) as (H1 & H2 & ->). cbn. auto.
    + destruct (Send_loop _ _ _ _ _) as [[[f1 r1] p1] a1] eqn:El. simplify_eq.
      destruct (IH _ _ _ _ _ _ _ answers El) as (H1 & H2 & ->). cbn. auto.
Qed.

(** [Send] fails exactly when one of the outcomes is a failure, and then the
    request thread takes the failure path of [Write]. *)
Lemma Send_outcomes init_ok pool req s req' pool' acts answers router :
  extent_router_ req = Some router -> Send init_ok pool req = Some (s, req', pool', acts) ->
  length (outcomes_of acts answers) = length (secondaries router) /\
  ok s = negb (existsb is_failure (outcomes_of acts answers)).
Proof.
  intros Er. unfold Send. rewrite Er. cbn.
  destruct (Send_loop _ _ _ _ _) as [[[f r1] p1] a1] eqn:El. intros; simplify_eq.
  destruct (Send_loop_outcomes _ _ _ _ _ _ _ _ _ answers El) as (_ & H2 & ->).
  split; [done|]. cbn. by destruct (existsb _ _).
Qed.

Lemma sends_ok outs : existsb is_failure outs = false ->
  ops_ok (concat (map (send_ops true) outs)) =
  forallb (fun o => match o with Replied b => b | _ => false end) outs.
Proof.
  induction outs as [|o outs IH]; [done|]. cbn. intros [Ho Hf]%orb_false_iff.
  unfold ops_ok in *. rewrite forallb_app, IH by done. destruct o; cbn; try done.
  by rewrite andb_true_r.
Qed.

Lemma sends_wf outs l : ends_in_callback l = true -> Forall (fun o => is_split o = false) l ->
  ends_in_callback (concat (map (send_ops true) outs) ++ l)%list = true /\
  Forall (fun o => is_split o = false) (concat (map (send_ops true) outs) ++ l)%list.
Proof.
  intros He Hs. induction outs as [|o outs [IH1 IH2]]; [done|]. cbn [map concat].
  rewrite <- app_assoc. set (r := (concat _ ++ l)%list) in *.
  destruct o; cbn; (split; [|repeat (constructor; [done|]); done]); destruct r; done.
Qed.

Lemma wres_init check_ok outs local req :
  result_ req = true ->
  wres (all_succeed check_ok outs local) (winit true check_ok outs local req).
Proof.
  intros Hr. unfold wres, winit, write_ops, all_succeed. cbn. rewrite Hr. cbn.
  rewrite andb_true_r. destruct check_ok; cbn [negb].
  2: { split; [|done]. repeat constructor. }
  destruct (existsb is_failure outs) eqn:Ef.
  - split.
    + constructor; [|constructor]. cbn.
      destruct (sends_wf outs (completion_ops true false)) as [H1 H2]; [done|repeat constructor|].
      split; [|by constructor]. destruct (concat _ ++ _)%list eqn:El; [|done].
      by apply app_eq_nil in El as [_ ?].
    + unfold ops_ok. cbn. rewrite forallb_app. cbn. rewrite andb_false_r. symmetry.
      apply andb_false_iff. left. apply existsb_exists in Ef as (o & Hin & Ho).
      apply not_true_iff_false. intros Hall. rewrite forallb_forall in Hall.
      specialize (Hall o Hin). by destruct o.
  - split.
    + constructor; [|constructor]. cbn.
      destruct (sends_wf outs match local with LocalRefused => completion_ops true false
        | LocalDone b => [OSpawn b] end) as [H1 H2]; [by destruct local|destruct local; repeat constructor|].
      split; [|by constructor]. destruct (concat _ ++ _)%list eqn:El; [|done].
      apply app_eq_nil in El as [_ El]. by destruct local.
    + unfold ops_ok. cbn. rewrite forallb_app. fold (ops_ok (concat (map (send_ops true) outs))).
      rewrite sends_ok by done. f_equal. destruct local as [|b]; cbn; [done|]. by rewrite andb_true_r.
Qed.

Lemma wres_reach total s s' : winv s -> wres total s -> rtc (wstep true) s s' -> winv s' /\ wres total s'.
Proof. intros Hi Hr Hs. induction Hs; [done|]. eauto using winv_step, wres_step. Qed.

(** ** Correctness of write completion *)



(** when [SetResult] takes effect in one step, the reply to a write says
    OK exactly when the safety check passed, every secondary was reached and
    answered with success, and the local device executed the write; otherwise
    it reports an error. *)
Theorem write_reply_faithful check_ok outs local req s :
  ref_count_ req = 1 -> result_ req = true ->
  rtc (wstep true) (winit true check_ok outs local req) s -> (forall s', ~ wstep true s s') ->
  exists r, w_replies s = [r] /\
    reply_code r = if all_succeed check_ok outs local then CYPRE_OK else CYPRE_ES_PROCESS_REQ_ERROR.
Proof.
  intros Hrc Hres Hs Hstuck.
  destruct (wres_reach (all_succeed check_ok outs local) _ _ (winv_init true check_ok outs local req Hrc)
    (wres_init check_ok outs local req Hres) Hs) as [Hi [_ Hw]].
  assert (Hf : finished s).
  { unfold finished. apply Forall_forall. intros [reg l] Hin. cbn.
    destruct l as [|o rest]; [done|]. apply list_elem_of_lookup in Hin as [i Hi'].
    by destruct (Hstuck _ (wstep_run true s i reg o rest Hi')). }
  apply finished_callbacks in Hf.
  destruct Hi as [reg n rest Et _ Hn Hp _|_ Hp _ _|_ Hlen _]; [|lia|].
  - unfold callbacks in Hf. rewrite Et in Hf. cbn in Hf. lia.
  - destruct (w_replies s) as [|r [|? ?]]; try done. eauto.
Qed.

(** Runs the threads in the order given, for concrete executions. *)
Fixpoint run (atomic : bool) (sched : list nat) (s : wstate) : wstate :=
  match sched with
  | [] => s
  | i :: sched' =>
      match w_threads s !! i with
      | Some (reg, o :: rest) => run atomic sched' (exec atomic s i reg o rest)
      | _ => run atomic sched' s
      end
  end.

Lemma run_steps atomic sched : forall s, rtc (wstep atomic) s (run atomic sched s).
Proof.
  induction sched as [|i sched IH]; intros s; [apply rtc_refl|]. cbn.
  destruct (w_threads s !! i) as [[reg [|o rest]]|] eqn:E; auto.
  eapply rtc_l; [by apply (wstep_run atomic s i reg o rest)|]. apply IH.
Qed.

Definition stuck_b (s : wstate) : bool := forallb (fun t => match t.2 with [] => true | _ => false end) (w_threads s).

Lemma stuck_b_ok atomic s : stuck_b s = true -> forall s', ~ wstep atomic s s'.
Proof.
  intros Hb s' [i reg o rest E]. unfold stuck_b in Hb. rewrite forallb_forall in Hb.
  apply list_elem_of_lookup_2, list_elem_of_In in E. by specialize (Hb _ E).
Qed.

Lemma write_reply_faithful_witness :
  let s0 := winit true true [Replied true; Replied false] (LocalDone true) (Request_new kTypeWrite) in
  let s := run true [0; 0; 0; 0; 1; 1; 2; 3; 3; 2]%nat s0 in
  exists r, w_replies s = [r] /\ reply_code r = CYPRE_ES_PROCESS_REQ_ERROR.
Proof.
  apply (write_reply_faithful true [Replied true; Replied false] (LocalDone true) (Request_new kTypeWrite)).
  - reflexivity.
  - reflexivity.
  - apply run_steps.
  - apply stuck_b_ok. vm_compute. reflexivity.
Defined.

(** [SetResult] reads and writes [result_] without synchronisation.  When
    the load and the store of one successful completion surround those of a
    failed one, the failure is lost: there is an execution of a write with two
    secondaries, one of which fails, whose reply is OK. *)
Theorem lost_replica_failure :
  exists s, rtc (wstep false)
      (winit false true [Replied true; Replied false] (LocalDone true) (Request_new kTypeWrite)) s /\
    finished s /\ exists r, w_replies s = [r] /\ reply_code r = CYPRE_OK /\
    all_succeed true [Replied true; Replied false] (LocalDone true) = false.
Proof.
  exists (run false [0; 0; 0; 0; 1; 2; 2; 1; 1; 2; 3; 3; 3]%nat
    (winit false true [Replied true; Replied false] (LocalDone true) (Request_new kTypeWrite))).
  split; [apply run_steps|]. split; [repeat constructor|]. eexists. split; [reflexivity|]. done.
Qed.
