(* ===== verification/IoService.v ===== *)
(** * The I/O service of an extent server

    The RPC handlers of [ExtentIOServiceImpl] and [ExtentControlServiceImpl]
    (src/src/extentserver/extent_io_service.cpp, extent_control_service.cpp)
    and their completion callbacks.  A handler takes a request object from the
    pool, runs the storage engine and either leaves the reply to a callback of
    the worker or runs the callback itself; the callback replies and gives the
    I/O unit and the request object back. *)

From S2P Require Import Prelude Status Bitmap Allocator Codec KvStore ExtentLocation Net StorageEngine.

#[local] Open Scope string_scope.
#[local] Open Scope Z_scope.

(** What a callback does: the reply's status, its attachment and checksum, and
    what it returns to the pools now or when the attachment is released. *)
Record Done : Type := mkDone {
  d_reply : Reply;
  d_attachment : option string;
  d_crc32 : option Z;
  d_put_io_now : bool;
  d_put_req_now : bool;
  d_put_on_release : bool
}.

(** [ReclaimIOUnit], run when the attachment's last reference goes: the I/O
    unit and the request are returned. *)
Definition ReclaimIOUnit (d : Done) : Z * Z := if d_put_on_release d then (1, 1) else (0, 0).

(** I/O units and requests returned in all. *)
Definition returned (d : Done) : Z * Z :=
  let '(io, rq) := ReclaimIOUnit d in
  ((if d_put_io_now d then 1 else 0) + io, (if d_put_req_now d then 1 else 0) + rq).

Definition ReadDone (req : Request) : Done :=
  let '(reply, attachment, reclaimed) :=
    if negb (result_ req) then (mkReply CYPRE_ES_PROCESS_REQ_ERROR "read io error", None, false)
    else if io_unit_ req then (mkReply CYPRE_OK "", Some (response_attachment req), true)
    else (mkReply CYPRE_OK "", None, false) in
  mkDone reply attachment None (io_unit_ req && negb reclaimed) (negb reclaimed) reclaimed.

(** [DeleteDone] and [ReplicateDone] differ in their message only. *)
Definition SimpleDone (message : string) (req : Request) : Done :=
  let reply :=
    if negb (result_ req) then mkReply CYPRE_ES_PROCESS_REQ_ERROR message
    else mkReply CYPRE_OK "" in
  mkDone reply None None (io_unit_ req) true false.

Definition DeleteDone (req : Request) : Done := SimpleDone "delete error" req.
Definition ReplicateDone (req : Request) : Done := SimpleDone "replicate io error" req.

Section Services.
Context `{SpaceManager A} `{RocksDB DB} `{Crc32c}.

(** [io_data]: the I/O unit's buffer. *)
Definition ScrubDone (io_data : string) (req : Request) : Done :=
  if negb (result_ req) then
    mkDone (mkReply CYPRE_ES_PROCESS_REQ_ERROR "scrub error") None None (io_unit_ req) true false
  else
    mkDone (mkReply CYPRE_OK "") None
      (if io_unit_ req then Some (Crc32_Checksum io_data) else None) (io_unit_ req) true false.

(** How a handler ends: it replies before a request object exists, it leaves
    the request to the worker, or it runs the callback. *)
Inductive Handled : Type :=
  | Rejected (reply : Reply)
  | InFlight (req : Request)
  | Completed (done : Done).

Definition no_request : Handled :=
  Rejected (mkReply CYPRE_ES_GET_REQ_UNIT_FAIL "get request unit fail").

(** [pool]: the request object [RequestMgr::GetRequest] returns, if any. *)
Definition Read (e : EngineCfg) (w : World) (st : EngineState A DB) (pool : option Request)
    (msg : ReqMsg) : option (Handled * EngineState A DB) :=
  match pool with
  | None => Some (no_request, st)
  | Some r =>
      let req := SetOperationContext (Request_Reset r kTypeRead) msg "" in
      '(s, req, st, _) ← ProcessRequest e w st req;
      if ok s then Some (InFlight req, st)
      else if IsEmpty s then Some (Completed (ReadDone (SetResult req true)), st)
      else Some (Completed (ReadDone (SetResult req false)), st)
  end.

Definition Delete (e : EngineCfg) (w : World) (st : EngineState A DB) (pool : option Request)
    (msg : ReqMsg) : option (Handled * EngineState A DB) :=
  match pool with
  | None => Some (no_request, st)
  | Some r =>
      let req := SetOperationContext (Request_Reset r kTypeDelete) msg "" in
      '(s, req, st, _) ← ProcessRequest e w st req;
      if negb (ok s) then Some (Completed (DeleteDone (SetResult req false)), st)
      else Some (InFlight req, st)
  end.

Definition Replicate (e : EngineCfg) (w : World) (st : EngineState A DB) (pool : option Request)
    (msg : ReqMsg) (attachment : string) : option (Handled * EngineState A DB) :=
  match pool with
  | None => Some (no_request, st)
  | Some r =>
      let req := SetOperationContext (Request_Reset r kTypeReplicate) msg attachment in
      '(s, req, st, _) ← ProcessRequest e w st req;
      if negb (ok s) then Some (Completed (ReplicateDone (SetResult req false)), st)
      else Some (InFlight req, st)
  end.

Definition Scrub (e : EngineCfg) (w : World) (st : EngineState A DB) (pool : option Request)
    (msg : ReqMsg) : option (Handled * EngineState A DB) :=
  match pool with
  | None => Some (no_request, st)
  | Some r =>
      let req := SetOperationContext (Request_Reset r kTypeScrub) msg "" in
      '(s, req, st, _) ← ProcessRequest e w st req;
      if negb (ok s) then Some (Completed (ScrubDone "" (SetResult req false)), st)
      else Some (InFlight req, st)
  end.

(** [ExtentControlServiceImpl::ReclaimExtent], which is synchronous. *)
Definition ReclaimExtent_rpc (e : EngineCfg) (w : World) (st : EngineState A DB) (pool : option Request)
    (msg : ReqMsg) : option (Reply * EngineState A DB) :=
  match pool with
  | None => Some (mkReply CYPRE_ES_GET_REQ_UNIT_FAIL "internal io error", st)
  | Some r =>
      let req := SetOperationContext (Request_Reset r kTypeReclaimExtent) msg "" in
      '(s, _, st, _) ← ProcessRequest e w st req;
      if negb (ok s) then Some (mkReply CYPRE_ES_PROCESS_REQ_ERROR (Status.msg s), st)
      else Some (mkReply CYPRE_OK "", st)
  end.
End Services.

(** ** Resources *)

Lemma Done_returns req (d : Done) :
  (exists m, d = SimpleDone m req) \/ d = ReadDone req ->
  returned d = ((if io_unit_ req then 1 else 0), 1).
Proof.
  intros [[m ->] | ->].
  - unfold returned, SimpleDone; cbn. by destruct (io_unit_ req).
  - unfold returned, ReadDone. destruct (result_ req), (io_unit_ req); done.
Qed.

(** every completion callback gives the request object back exactly once
    and the I/O unit exactly once if there is one, at once or, for a read with
    data, when the reply's attachment is released; and it replies OK exactly
    when the request's result is true. *)
Theorem callbacks_return_resources `{Crc32c} io_data req d :
  d = ReadDone req \/ d = DeleteDone req \/ d = ReplicateDone req \/ d = ScrubDone io_data req ->
  returned d = ((if io_unit_ req then 1 else 0), 1) /\
  reply_code (d_reply d) = (if result_ req then CYPRE_OK else CYPRE_ES_PROCESS_REQ_ERROR).
Proof.
  intros [-> | [-> | [-> | ->]]]; (split; [|]).
  1,3,5: apply Done_returns; unfold DeleteDone, ReplicateDone; eauto.
  - unfold ReadDone. by destruct (result_ req), (io_unit_ req).
  - cbn. by destruct (result_ req).
  - cbn. by destruct (result_ req).
  - unfold returned, ScrubDone. by destruct (result_ req), (io_unit_ req).
  - unfold ScrubDone. by destruct (result_ req).
Qed.

Lemma callbacks_return_resources_witness :
  returned (ReadDone (Request_new kTypeRead)) = (0, 1).
Proof.
  destruct (@callbacks_return_resources (fun _ => 0) "" (Request_new kTypeRead) (ReadDone (Request_new kTypeRead)))
    as [H _]; [left; reflexivity|exact H].
Defined.

(** ** Reading an extent that was never written *)

(** a read, on the primary, of an extent that has no location answers OK
    with as many zero bytes as were asked for, without allocating space or
    touching the device: table, stored records, used bytes and queue are
    unchanged. *)
Theorem read_of_unwritten_extent `{SpaceManagerLaws A} `{RocksDBLaws DB} `{Crc32c}
    e w (st : EngineState A DB) r msg router :
  let m := extent_loc_mgr_ (st_bare st) in
  router_map (st_routers st) !! m_extent_id msg = Some router ->
  extent_loc_map_ m !! m_extent_id msg = None ->
  m_extent_id msg <> "" -> align_size_ e <> 0 ->
  m_offset msg mod align_size_ e = 0 -> m_size msg mod align_size_ e = 0 ->
  0 <= m_offset msg -> 0 <= m_size msg -> m_offset msg + m_size msg <= se_extent_size_ e ->
  se_extent_size_ e <= u64_max -> replication_type_ e <> kInvalidReplication ->
  IsPrimary router (net_ip e) (net_port e) = true ->
  exists req done, Read e w st (Some r) msg = Some (Completed done, st) /\
    done = ReadDone req /\ response_attachment req = repeat_char Ascii.zero (Z.to_nat (m_size msg)) /\
    reply_code (d_reply done) = CYPRE_OK.
Proof.
  intros m Hrt Hnone Hid Hal0 Ho Hs Ho0 Hs0 Hle Hu Hrep Hp. unfold Read.
  set (req := SetOperationContext (Request_Reset r kTypeRead) msg "").
  unfold ProcessRequest, doSafetyCheck, queryRouter. cbn [request_type_ SetOperationContext Request_Reset req].
  rewrite !bool_decide_eq_false_2 by done. cbn [orb].
  unfold QueryRouter. change (ExtentID req) with (m_extent_id msg). rewrite Hrt.
  cbn [ok code Status_default CYPRE_OK Z.eqb negb].
  set (req1 := SetExtentRouter req router).
  assert (Hc : checkParameters e req1 = Status_default).
  { unfold checkParameters. change (ExtentID req1) with (m_extent_id msg).
    change (Offset req1) with (m_offset msg). change (Size req1) with (m_size msg).
    apply String.eqb_neq in Hid. rewrite Hid, Ho, Hs. cbn.
    rewrite wrap64_small by (unfold is_u64; lia).
    destruct (Z.ltb_spec (se_extent_size_ e) (m_offset msg + m_size msg)); [lia|done]. }
  rewrite Hc. cbn [ok code Status_default CYPRE_OK Z.eqb negb].
  assert (Hown : checkOwnership e req1 = Some Status_default).
  { unfold checkOwnership, checkOwnership_write, req1. cbn. rewrite Hp. cbn.
    unfold IsValid. rewrite Hp. cbn. by rewrite !andb_false_r. }
  rewrite Hown. cbn [mbind option_bind ok code Status_default CYPRE_OK Z.eqb negb].
  change (checkChecksum req1) with Status_default.
  cbn [mbind option_bind ok code Status_default CYPRE_OK Z.eqb negb].
  assert (Hdr : doReplicate e (w_channel_ok w) (st_pool st) req1 = Some (Status_default, req1, st_pool st, [])).
  { unfold doReplicate. by destruct (bool_decide _). }
  cbn [st_pool]. rewrite Hdr. cbn [mbind option_bind ok code Status_default CYPRE_OK Z.eqb negb st_bare st_routers].
  assert (Hb : BareEngine_ProcessRequest (w_rand w) (w_enqueue w) (st_routers st) (st_bare st) req1 =
    Some (mkStatus CYPRE_ES_EXTENT_EMPTY "extent empty", SetEmptyResponse (SetPhysicalOffset req1 0),
          st_bare st, st_routers st)).
  { unfold BareEngine_ProcessRequest, handleRead, queryLocation, QueryLocation. cbn [request_type_ req1 req SetExtentRouter SetOperationContext Request_Reset].
    change (ExtentID _) with (m_extent_id msg). fold m. rewrite Hnone. by destruct (st_bare st). }
  rewrite Hb. destruct st as [rm pl b]. cbn -[SetEmptyResponse ReadDone].
  do 2 eexists. split; [reflexivity|]. split; [reflexivity|]. split; reflexivity.
Qed.

Lemma read_of_unwritten_extent_witness :
  let router := mkExtentRouter 0 "b.9" (pb_primary demo_router) (pb_secondaries demo_router) in
  let st := mkEngineState (mkExtentRouterMgr ∅ {["b.9" := router]} false) (mkConnectionPool ∅ 0) demo_bare in
  let w := mkWorld 0 RpcFailed (fun _ => true) true in
  exists req done, @Read _ _ _ _ demo_crc demo_cfg w st (Some (Request_new kTypeNoop))
      (mkReqMsg "b.9" 8192 4096 None) = Some (Completed done, st) /\ done = ReadDone req /\
    response_attachment req = repeat_char Ascii.zero 4096 /\ reply_code (d_reply done) = CYPRE_OK.
Proof.
  intros router st w.
  apply (@read_of_unwritten_extent _ _ _ _ _ _ demo_crc demo_cfg w st (Request_new kTypeNoop)
    (mkReqMsg "b.9" 8192 4096 None) router); try reflexivity; try discriminate; vm_compute; discriminate.
Defined.
