(* ===== verification/Persist.v ===== *)
(** * Tables kept in memory and in the store

    Every manager of the extent manager keeps a map from identifiers to
    records and writes each record through to RocksDB under a key computed
    from the identifier.  This file states once what it means for such a map
    and the store to agree, which writes keep the agreement, and what the
    common recovery loop of the [recovery_from_store] functions rebuilds. *)

From S2P Require Import Prelude Status Codec KvStore.

#[local] Open Scope string_scope.

Section Table.
Context `{Crc32c} `{Countable K} {R : Type}.
Context (c : codec R) (rid : R -> K) (key : K -> string).

(** The loop [for (auto &v : tmp)] of [recovery_from_store]: [Some (false, _)]
    is the early return on a record that does not decode, [None] the
    exception of a truncated archive. *)
Fixpoint recovery_loop (tmp : list string) (m : gmap K R) : option (bool * gmap K R) :=
  match tmp with
  | [] => Some (true, m)
  | v :: tmp' =>
      match Serializer_Decode c v with
      | Decoded r => recovery_loop tmp' (<[rid r := r]> m)
      | DecodeFailed => Some (false, m)
      | DecodeThrows => None
      end
  end.

Definition recover `{RocksDB DB} (db : DB) (prefix : string) (m : gmap K R)
  : option (bool * gmap K R) :=
  let '(status, iter) := RocksStore_ScanPrefix db prefix in
  if negb (RocksStatus_ok status) then Some (false, m)
  else
    let tmp := map snd (scan_values iter) in
    recovery_loop tmp m.

(** A record that the archive can represent. *)
Definition fits (r : R) : Prop := storable c r /\ slen (save c r) < 2147483648.

(** The store holds, under the keys of the table, exactly the table. *)
Record synced (view : gmap string string) (m : gmap K R) : Prop := mkSynced {
  synced_rec : forall id r, m !! id = Some r -> rid r = id /\ fits r;
  synced_get : forall id, view !! key id = Serializer_Encode c <$> m !! id
}.

Context `{!Inj (=) (=) key}.

Lemma synced_put view m r :
  synced view m -> fits r ->
  synced (<[key (rid r) := Serializer_Encode c r]> view) (<[rid r := r]> m).
Proof.
  intros [Hr Hg] Hf. split.
  - intros id r'. rewrite lookup_insert_Some. intros [[<- <-]|[_ ?]]; eauto.
  - intros id. destruct (decide (id = rid r)) as [->|Hne].
    + by rewrite !lookup_insert_eq.
    + rewrite !lookup_insert_ne by (auto; intros ?%(inj key); congruence). apply Hg.
Qed.

Lemma synced_delete view m id :
  synced view m -> synced (delete (key id) view) (delete id m).
Proof.
  intros [Hr Hg]. split.
  - intros i r. rewrite lookup_delete_Some. intros [_ ?]; eauto.
  - intros i. destruct (decide (i = id)) as [->|Hne].
    + by rewrite !lookup_delete_eq.
    + rewrite !lookup_delete_ne by (auto; intros ?%(inj key); congruence). apply Hg.
Qed.

(** Writes under keys of another table. *)
Lemma synced_frame view view' m :
  synced view m -> (forall id, view' !! key id = view !! key id) -> synced view' m.
Proof. intros [Hr Hg] Hv. split; [done|]. intros id. by rewrite Hv. Qed.

(** ** Recovery *)

Context (norm : R -> R) (norm_id : forall r, rid (norm r) = rid r).
Context (decode_encode : forall r, fits r ->
  Serializer_Decode c (Serializer_Encode c r) = Decoded (norm r)).

Lemma recovery_loop_spec (m acc : gmap K R) vs :
  (forall id r, m !! id = Some r -> rid r = id /\ fits r) ->
  (forall v, v ∈ vs -> exists id r, m !! id = Some r /\ v = Serializer_Encode c r) ->
  acc ⊆ norm <$> m ->
  exists acc', recovery_loop vs acc = Some (true, acc') /\ acc ⊆ acc' /\ acc' ⊆ norm <$> m /\
    (forall id r, m !! id = Some r -> Serializer_Encode c r ∈ vs -> acc' !! id = Some (norm r)).
Proof.
  intros Hm. revert acc. induction vs as [|v vs IH]; intros acc Hvs Hacc; cbn.
  { eexists; split_and!; try done. by intros ? ? ? ?%elem_of_nil. }
  destruct (Hvs v) as (id & r & Hr & ->); [left|].
  destruct (Hm id r Hr) as [Hid Hf].
  rewrite decode_encode, norm_id, Hid by done.
  assert (Hn : (norm <$> m) !! id = Some (norm r)) by (by rewrite lookup_fmap, Hr).
  destruct (IH (<[id := norm r]> acc)) as (acc' & -> & Hsub & Hsub' & Hall).
  { intros; apply Hvs; by right. }
  { by apply insert_subseteq_l. }
  eexists; split_and!; [done| |done|].
  - apply map_subseteq_spec. intros i x Hi. eapply lookup_weaken; [|done].
    destruct (decide (i = id)) as [->|Hne]; [|by rewrite lookup_insert_ne].
    rewrite lookup_insert_eq. eapply lookup_weaken in Hi; [|done]. congruence.
  - intros i r' Hi [He|?]%elem_of_cons; [|by apply Hall].
    destruct (Hm i r' Hi) as [Hid' Hf'].
    pose proof (decode_encode r' Hf') as Hd. rewrite He, decode_encode in Hd by done.
    injection Hd as Hd. assert (i = id) as -> by (rewrite <- Hid', <- Hid, <- norm_id, <- Hd; apply norm_id).
    eapply lookup_weaken; [|done]. rewrite lookup_insert_eq. congruence.
Qed.

(** A restart rebuilds the table, provided the scanned prefix selects no keys
    but the table's. *)
Lemma recover_synced `{RocksDBLaws DB} (db : DB) prefix m :
  synced (rdb_view db) m ->
  (forall id, String.prefix prefix (key id) = true) ->
  (forall k v, rdb_view db !! k = Some v -> String.prefix prefix k = true ->
     exists id, k = key id) ->
  recover db prefix ∅ = Some (true, norm <$> m).
Proof.
  intros [Hr Hg] Hp Hk. unfold recover.
  destruct (RocksStore_ScanPrefix db prefix) as [st iter] eqn:Es.
  assert (st = RdbOk) as -> by (unfold RocksStore_ScanPrefix in Es; congruence). cbn [RocksStatus_ok negb].
  assert (Hi : iter = (RocksStore_ScanPrefix db prefix).2) by (by rewrite Es). rewrite Hi. clear Hi Es iter.
  destruct (recovery_loop_spec m ∅ (map snd (scan_values (RocksStore_ScanPrefix db prefix).2)))
    as (m' & -> & _ & Hsub & Hall); [done| |apply map_empty_subseteq|].
  - intros v ([k v'] & -> & [Hv Hpk]%scan_values_elem)%list_elem_of_fmap. cbn.
    destruct (Hk _ _ Hv Hpk) as [id ->]. rewrite Hg in Hv.
    apply fmap_Some in Hv as (r & ? & ?). eauto.
  - do 2 f_equal. apply map_subseteq_po; [done|].
    apply map_subseteq_spec. intros i x. rewrite lookup_fmap. intros (r & Hr' & ->)%fmap_Some.
    apply Hall; [done|]. apply list_elem_of_fmap. exists (key i, Serializer_Encode c r). split; [done|].
    apply scan_values_elem. rewrite Hg, Hr'. auto.
Qed.
End Table.
