(* ===== verification/MemPool.v ===== *)
(** * Memory pools of an extent server

    [Arena] (src/src/common/arena.h and .cpp), [CypreRing] (cypre_ring.cpp),
    [MemBuffer] (mem_buffer.h), [CtxMemMgr] (ctx_mem.h) and the pools of I/O
    buffers [IOMem] and [IOMemMgr] (src/src/extentserver/io_mem.h and .cpp).
    A pool hands out units from a ring of returned ones and carves new ones
    from an arena's blocks when the ring is empty.

    The rings are DPDK's: the class [RteRing] has the calls and [RteRingLaws]
    their documented behaviour.  [DmaAlloc] is the allocator of huge pages,
    given the blocks it has out; [DmaLaws]: a new block overlaps none of them.
    Addresses are numbers and 0 is the null pointer.  Each call is one step.
    [None] is the use of a null pointer. *)

From S2P Require Import Prelude Status.

#[local] Open Scope string_scope.
#[local] Open Scope Z_scope.

(** ** The libraries *)

(** The address of a block of the given size, or null; [operator new], whose
    [None] is an exception. *)
Class DmaAlloc := {
  spdk_dma_zmalloc : list (Z * Z) -> Z -> option Z;
  operator_new : list (Z * Z) -> Z -> option Z
}.

Class RteRing (R : Type) := {
  rte_ring_create : Z -> option R;
  rte_ring_enqueue_bulk : R -> list Z -> Z * R;
  rte_ring_dequeue_bulk : R -> nat -> Z * list Z * R;
  rte_ring_dequeue_burst : R -> nat -> Z * list Z * R
}.

(** ** Arenas *)

(** The memory of the process: the blocks out, and the [io_u] objects by
    address, as data pointer and size.  Fresh memory is zero. *)
Record Mem : Type := mkMem { live : list (Z * Z); io_us : gmap Z (Z * Z) }.

Record Block : Type := mkBlock { b_size : Z; b_capacity : Z; b_data : Z }.

Definition left_space (b : Block) : Z := wrap64 (b_capacity b - b_size b).

(** [use_hugepage] is [true] throughout the extent server. *)
Record ArenaOptions : Type := mkArenaOptions {
  align_size : Z;
  initial_block_size : Z;
  max_block_size : Z;
  use_hugepage : bool
}.

(** [arena_blocks]: the chain from [head_]; [cur_block_] is its last block. *)
Record Arena : Type := mkArena {
  num_blocks_ : Z;
  arena_block_size_ : Z;
  options_ : ArenaOptions;
  arena_blocks : list Block
}.

Definition Arena_new (o : ArenaOptions) : Arena := mkArena 0 (initial_block_size o) o [].

Section Pools.
Context `{DmaAlloc} `{RteRing R}.

(** Without huge pages the two arguments of [aligned_alloc] are swapped, so the
    block has [align_size] bytes. *)
Definition allocate_mem (m : Mem) (size align : Z) (huge : bool) : option Z * Mem :=
  let n := if huge then size else align in
  match spdk_dma_zmalloc (live m) n with
  | Some a => (Some a, mkMem ((a, n) :: live m) (io_us m))
  | None => (None, m)
  end.

Definition free_mem (m : Mem) (p : Z) : Mem :=
  mkMem (filter (fun b => b.1 <> p) (live m)) (io_us m).

(** The first loop of [Allocate]: units from the space left. *)
Fixpoint carve_left (num : nat) (size : Z) (b : Block) : nat * list Z * Block :=
  match num with
  | O => (O, [], b)
  | S num' =>
      if left_space b <? size then (num, [], b)
      else
        let '(n, l, b') := carve_left num' size (mkBlock (wrap64 (b_size b + size)) (b_capacity b) (b_data b)) in
        (n, (b_data b + b_size b) :: l, b')
  end.

(** The second loop: the remaining units from the new block. *)
Fixpoint carve_new (num : nat) (size : Z) (b : Block) : list Z * Block :=
  match num with
  | O => ([], b)
  | S num' =>
      let '(l, b') := carve_new num' size (mkBlock (wrap64 (b_size b + size)) (b_capacity b) (b_data b)) in
      ((b_data b + b_size b) :: l, b')
  end.

Definition out_of_memory : Status := mkStatus CYPRE_ER_OUT_OF_MEMORY "alloc mem fail".

(** The second half of [Allocate]: a new block for the last [rest] units. *)
Definition Allocate_block (m : Mem) (a : Arena) (size : Z) (rest : nat) (addrs : list Z) (blocks : list Block)
    : Status * list Z * Arena * Mem :=
  let o := options_ a in
  let alloc_size := Z.max (Z.min (arena_block_size_ a) (max_block_size o)) (wrap64 (Z.of_nat rest * size)) in
  match allocate_mem m alloc_size (align_size o) (use_hugepage o) with
  | (None, m) => (out_of_memory, [], a, m)
  | (Some mem, m) =>
      let '(more, new_block) := carve_new rest size (mkBlock 0 alloc_size mem) in
      let bs :=
        match blocks with
        | [] => arena_block_size_ a
        | _ => if arena_block_size_ a <? max_block_size o then wrap64 (Z.shiftl (arena_block_size_ a) 1)
               else arena_block_size_ a
        end in
      (Status_default, (addrs ++ more)%list, mkArena (num_blocks_ a + 1) bs o (blocks ++ [new_block])%list, m)
  end.

(** The first half: units from the current block; [rest] are missing. *)
Definition Allocate_current (a : Arena) (size : Z) (num : nat) : nat * list Z * list Block :=
  match last (arena_blocks a) with
  | Some cur =>
      let '(rest, addrs, cur') := carve_left num size cur in
      (rest, addrs, (take (pred (length (arena_blocks a))) (arena_blocks a) ++ [cur'])%list)
  | None => (num, [], [])
  end.

(** [Allocate]: all or nothing. *)
Definition Arena_Allocate (m : Mem) (a : Arena) (size : Z) (num : nat) : Status * list Z * Arena * Mem :=
  let '(rest, addrs, blocks) := Allocate_current a size num in
  match rest, blocks with
  | O, _ :: _ => (Status_default, addrs, mkArena (num_blocks_ a) (arena_block_size_ a) (options_ a) blocks, m)
  | _, _ => Allocate_block m a size rest addrs blocks
  end.

Definition Arena_Release (m : Mem) (a : Arena) : Arena * Mem :=
  (mkArena 0 (initial_block_size (options_ a)) (options_ a) [],
   foldl (fun m b => free_mem m (b_data b)) m (arena_blocks a)).

Definition AllocateDirect (m : Mem) (size : Z) (huge : bool) (num : nat) : Status * list Z * Mem :=
  match allocate_mem m (wrap64 (size * Z.of_nat num)) kAlignSize huge with
  | (None, m) => (out_of_memory, [], m)
  | (Some mem, m) => (Status_default, (fun i => mem + Z.of_nat i * size) <$> seq 0 num, m)
  end.

(** ** Pools of units *)

(** [MemBuffer<T>] for a [T] of [unit_bytes] bytes.  [mb_ring] is null when
    [init] failed. *)
Record MemBuffer : Type := mkMemBuffer {
  mb_ring : option R;
  mb_arena : option Arena;
  unit_bytes : Z;
  ring_size_ : Z;
  num_units_ : Z
}.

Definition MemBuffer_init (unit_bytes ring_size : Z) (huge : bool) : Status * MemBuffer :=
  match rte_ring_create ring_size with
  | None => (mkStatus CYPRE_ES_RTE_RING_CREATE_FAIL "couldn't create rte ring",
             mkMemBuffer None None unit_bytes ring_size 0)
  | Some ring =>
      (Status_default,
       mkMemBuffer (Some ring)
         (Some (Arena_new (mkArenaOptions kAlignSize (Z.shiftl 1 20) (Z.shiftl 4 20) huge)))
         unit_bytes ring_size 0)
  end.

Definition with_ring (b : MemBuffer) (r : R) : MemBuffer :=
  mkMemBuffer (Some r) (mb_arena b) (unit_bytes b) (ring_size_ b) (num_units_ b).

(** The second half of [GetBulk] and [GetsBulk]: new units. *)
Definition new_units (m : Mem) (b : MemBuffer) (num : nat) : option (Status * list Z * MemBuffer * Mem) :=
  if ring_size_ b <=? num_units_ b then Some (mkStatus CYPRE_ES_RTE_RING_FULL "ring full", [], b, m)
  else
    a ← mb_arena b;
    let '(status, addrs, a, m) := Arena_Allocate m a (unit_bytes b) num in
    let n := if ok status then wrap32 (num_units_ b + Z.of_nat num) else num_units_ b in
    Some (status, addrs, mkMemBuffer (mb_ring b) (Some a) (unit_bytes b) (ring_size_ b) n, m).

(** [GetsBulk]; [GetBulk] is the case of one unit. *)
Definition GetsBulk (m : Mem) (b : MemBuffer) (num : nat) : option (Status * list Z * MemBuffer * Mem) :=
  ring ← mb_ring b;
  let '(re, units, ring) := rte_ring_dequeue_bulk ring num in
  if negb (re =? 0) then Some (Status_default, units, with_ring b ring, m)
  else new_units m (with_ring b ring) num.

Definition GetBulk (m : Mem) (b : MemBuffer) : option (Status * Z * MemBuffer * Mem) :=
  '(status, units, b, m) ← GetsBulk m b 1;
  Some (status, default 0 (head units), b, m).

Definition GetBurst (b : MemBuffer) : option (Status * Z * MemBuffer) :=
  ring ← mb_ring b;
  let '(re, units, ring) := rte_ring_dequeue_bulk ring 1 in
  if negb (re =? 0) then Some (Status_default, default 0 (head units), with_ring b ring)
  else Some (mkStatus CYPRE_ES_RTE_RING_EMPTY "ring empty", 0, with_ring b ring).

Definition GetsBurst (b : MemBuffer) (num : nat) : option (Z * list Z * MemBuffer) :=
  ring ← mb_ring b;
  let '(re, units, ring) := rte_ring_dequeue_burst ring num in
  Some (re, units, with_ring b ring).

(** [Puts]; [Put] is the case of one unit. *)
Definition Puts (b : MemBuffer) (units : list Z) : option (Status * MemBuffer) :=
  ring ← mb_ring b;
  let '(re, ring) := rte_ring_enqueue_bulk ring units in
  Some (if re =? 0 then mkStatus CYPRE_ES_RTE_RING_FULL "ring full" else Status_default, with_ring b ring).

Definition Put (b : MemBuffer) (unit : Z) : option (Status * MemBuffer) := Puts b [unit].

Definition ring_sub (b : MemBuffer) (num : Z) : MemBuffer :=
  mkMemBuffer (mb_ring b) (mb_arena b) (unit_bytes b) (ring_size_ b) (wrap32 (num_units_ b - num)).

(** [CtxMemMgr]: a pool of contexts; [Init] drops the status of [init]. *)
Definition CtxMemMgr_Init (unit_bytes max_units : Z) (huge : bool) : Status * MemBuffer :=
  (Status_default, (MemBuffer_init unit_bytes max_units huge).2).
Definition GetCtxUnitBulk := GetBulk.
Definition PutCtxUnit (b : MemBuffer) (ctx : Z) : option MemBuffer := snd <$> Put b ctx.

(** ** Pools of I/O buffers *)

Definition io_u_bytes : Z := 16.
Definition kMaxMemSize_ : Z := 2147483648.

Record IOMem : Type := mkIOMem {
  mem_buffer_ : MemBuffer;
  arena_ : Arena;
  mem_unit_size_ : Z;
  max_units_ : Z
}.

Definition IOMem_Init (unit_size : Z) : option (Status * IOMem) :=
  if unit_size =? 0 then None
  else
    let max_units := kMaxMemSize_ / unit_size in
    Some (Status_default,
          mkIOMem (MemBuffer_init io_u_bytes max_units true).2
            (Arena_new (mkArenaOptions kAlignSize (Z.shiftl 4 20) (Z.shiftl 8 20) true)) unit_size max_units).

Definition with_buffer (p : IOMem) (b : MemBuffer) : IOMem :=
  mkIOMem b (arena_ p) (mem_unit_size_ p) (max_units_ p).

(** The object at an address. *)
Definition io_u_at (m : Mem) (io : Z) : Z * Z := default (0, 0) (io_us m !! io).
Definition set_io_u (m : Mem) (io data size : Z) : Mem := mkMem (live m) (<[io := (data, size)]> (io_us m)).

(** The second half of [IOMem::GetIOUnitBulk]: memory for a new unit. *)
Definition IOMem_fill (m : Mem) (p : IOMem) (io : Z) : Status * Z * IOMem * Mem :=
  if negb ((io_u_at m io).1 =? 0) then (Status_default, io, p, m)
  else
    let '(status, addrs, a, m) := Arena_Allocate m (arena_ p) (mem_unit_size_ p) 1 in
    let p := mkIOMem (mem_buffer_ p) a (mem_unit_size_ p) (max_units_ p) in
    if negb (ok status) then (status, 0, with_buffer p (ring_sub (mem_buffer_ p) 1), m)
    else (Status_default, io, p, set_io_u m io (default 0 (head addrs)) (mem_unit_size_ p)).

(** [IOMem::GetIOUnitBulk]: the unit, or null. *)
Definition IOMem_GetIOUnitBulk (m : Mem) (p : IOMem) : option (Status * Z * IOMem * Mem) :=
  '(status, io, b, m) ← GetBulk m (mem_buffer_ p);
  let p := with_buffer p b in
  if negb (ok status) then Some (status, io, p, m) else Some (IOMem_fill m p io).

Definition IOMem_GetIOUnitBurst (p : IOMem) : option (Status * Z * IOMem) :=
  '(status, io, b) ← GetBurst (mem_buffer_ p); Some (status, io, with_buffer p b).

Definition IOMem_PutIOUnit (p : IOMem) (io : Z) : option (Status * IOMem) :=
  '(status, b) ← Put (mem_buffer_ p) io; Some (status, with_buffer p b).

(** [IOMem::GetIOUnitsBulk]: the first unit tells whether all have memory. *)
Definition IOMem_GetIOUnitsBulk (m : Mem) (p : IOMem) (num : nat) : option (Status * list Z * IOMem * Mem) :=
  '(status, ios, b, m) ← GetsBulk m (mem_buffer_ p) num;
  let p := with_buffer p b in
  if negb (ok status) then Some (status, ios, p, m)
  else
    io0 ← head ios;
    if negb ((io_u_at m io0).1 =? 0) then Some (Status_default, ios, p, m)
    else
      let '(status, addrs, a, m) := Arena_Allocate m (arena_ p) (mem_unit_size_ p) num in
      let p := mkIOMem (mem_buffer_ p) a (mem_unit_size_ p) (max_units_ p) in
      if negb (ok status) then
        Some (status, replicate num 0, with_buffer p (ring_sub (mem_buffer_ p) (Z.of_nat num)), m)
      else
        Some (Status_default, ios, p,
              foldl (fun m x => set_io_u m x.1 x.2 (mem_unit_size_ p)) m (zip ios addrs)).

Definition kIOUnitSize_ : Z := Z.shiftl 4 10.

(** [IOMemMgr::Init]: one pool for every multiple of 4KB up to [max_slab]. *)
Fixpoint IOMemMgr_Init_loop (n : nat) (index max_slab : Z) (io_mems : list IOMem) : option (Status * list IOMem) :=
  match n with
  | O => Some (Status_default, io_mems)
  | S n' =>
      let init_slab := wrap32 (kIOUnitSize_ * (index + 1)) in
      if max_slab <? init_slab then Some (Status_default, io_mems)
      else
        '(status, p) ← IOMem_Init init_slab;
        if negb (ok status) then Some (status, io_mems)
        else IOMemMgr_Init_loop n' (index + 1) max_slab (io_mems ++ [p])
  end.

(** The loop runs [max_slab / 4096] times when [max_slab] is below 4GB - 4KB. *)
Definition IOMemMgr_Init (max_slab : Z) : option (Status * list IOMem) :=
  IOMemMgr_Init_loop (S (Z.to_nat (max_slab / kIOUnitSize_))) 0 max_slab [].

Definition get_index (unit_size : Z) : Z := wrap32 (unit_size / kIOUnitSize_ - 1).

(** The pool of a size, if there is one. *)
Definition pool_of (io_mems : list IOMem) (unit_size : Z) : option nat :=
  if get_index unit_size <? Z.of_nat (length io_mems) then Some (Z.to_nat (get_index unit_size)) else None.

(** [alloc_direct] for one unit. *)
Definition alloc_direct (m : Mem) (unit_size : Z) : option (Status * Z * Mem) :=
  let '(status, addrs, m) := AllocateDirect m unit_size true 1 in
  if negb (ok status) then Some (status, 0, m)
  else
    io ← operator_new (live m) io_u_bytes;
    Some (Status_default, io,
          set_io_u (mkMem ((io, io_u_bytes) :: live m) (io_us m)) io (default 0 (head addrs)) unit_size).

Definition free_direct (m : Mem) (io : Z) : Mem :=
  let m := free_mem (free_mem m (io_u_at m io).1) io in
  mkMem (live m) (delete io (io_us m)).

Definition IOMemMgr_GetIOUnitBulk (m : Mem) (io_mems : list IOMem) (unit_size : Z)
    : option (Status * Z * list IOMem * Mem) :=
  match pool_of io_mems unit_size with
  | Some i =>
      p ← io_mems !! i;
      '(status, io, p, m) ← IOMem_GetIOUnitBulk m p;
      Some (status, io, <[i := p]> io_mems, m)
  | None => '(status, io, m) ← alloc_direct m unit_size; Some (status, io, io_mems, m)
  end.

Definition IOMemMgr_GetIOUnitBurst (io_mems : list IOMem) (unit_size : Z) : option (Status * Z * list IOMem) :=
  match pool_of io_mems unit_size with
  | Some i =>
      p ← io_mems !! i;
      '(status, io, p) ← IOMem_GetIOUnitBurst p;
      Some (status, io, <[i := p]> io_mems)
  | None => Some (mkStatus CYPRE_ER_INVALID_ARGUMENT "unit size invalid, no ring for this size", 0, io_mems)
  end.

Definition IOMemMgr_PutIOUnit (m : Mem) (io_mems : list IOMem) (io : Z) : option (list IOMem * Mem) :=
  match pool_of io_mems (io_u_at m io).2 with
  | Some i =>
      p ← io_mems !! i;
      '(_, p) ← IOMem_PutIOUnit p io;
      Some (<[i := p]> io_mems, m)
  | None => Some (io_mems, free_direct m io)
  end.
End Pools.
Arguments MemBuffer : clear implicits.
Arguments IOMem : clear implicits.
