(* ===== verification/MemPoolTheorems.v ===== *)
(** * Pooled buffers are never shared

    What the pools of MemPool.v promise to the device worker: a buffer that is
    handed out overlaps no other buffer in use or waiting in a pool, has the
    size asked for, and goes back to its pool. *)

From S2P Require Import Prelude Status MemPool.

#[local] Open Scope Z_scope.

(** ** Regions *)

Definition inside (r : Z * Z) (x : Z) : Prop := r.1 <= x < r.1 + r.2.
Definition disj (r s : Z * Z) : Prop := forall x, inside r x -> inside s x -> False.

Fixpoint apart (l : list (Z * Z)) : Prop :=
  match l with [] => True | r :: l' => Forall (disj r) l' /\ apart l' end.

(** Every address of the region is in a block. *)
Definition within (bs : list (Z * Z)) (r : Z * Z) : Prop :=
  r.2 <= 0 \/ exists b, b ∈ bs /\ b.1 <= r.1 /\ r.1 + r.2 <= b.1 + b.2.

Lemma disj_sym r s : disj r s -> disj s r.
Proof. intros Hd x ? ?. by apply (Hd x). Qed.

Lemma disj_sub r s t : disj r s -> s.1 <= t.1 -> t.1 + t.2 <= s.1 + s.2 -> disj r t.
Proof. intros Hd ? ? x Hr Ht. apply (Hd x Hr). unfold inside in *. lia. Qed.

#[global] Instance apart_perm : Proper ((≡ₚ) ==> iff) apart.
Proof.
  intros l l' Hp. induction Hp as [|r l l' Hp IH|r s l|l1 l2 l3 _ IH1 _ IH2]; cbn; [done| | |by etrans].
  - by rewrite IH, Hp.
  - rewrite !Forall_cons. split; intros ((H1 & ?) & ? & ?); split_and!; try done; by apply disj_sym.
Qed.

Lemma apart_app l k : apart (l ++ k) <-> apart l /\ apart k /\ forall r s, r ∈ l -> s ∈ k -> disj r s.
Proof.
  induction l as [|r l IH]; cbn.
  - split; [intros; split_and!; try done; intros ? ? []%not_elem_of_nil|naive_solver].
  - rewrite IH, Forall_app, !Forall_forall. setoid_rewrite elem_of_cons. naive_solver.
Qed.

(** A block from the allocator is apart from everything within the others. *)
Lemma fresh_apart bs r l : Forall (disj r) bs -> Forall (within bs) l -> Forall (disj r) l.
Proof.
  rewrite !Forall_forall. intros Hd Hw s Hs x Hr Hx.
  destruct (Hw s Hs) as [?|(b & Hb & ? & ?)]; [unfold inside in *; lia|].
  apply (Hd b Hb x Hr). unfold inside in *. lia.
Qed.

Lemma within_mono bs bs' r : (forall b, b ∈ bs -> b ∈ bs') -> within bs r -> within bs' r.
Proof. intros Hs [?|(b & Hb & ?)]; [by left|right; exists b; auto]. Qed.

(** ** The libraries *)

Class DmaLaws `{DmaAlloc} : Prop := {
  dma_block : forall live n a, spdk_dma_zmalloc live n = Some a ->
    0 < n /\ 0 < a /\ a + n <= u64_max /\ Forall (disj (a, n)) live;
  new_block : forall live n a, operator_new live n = Some a ->
    0 < a /\ Forall (disj (a, n)) live
}.

Class RteRingLaws (R : Type) `{RteRing R} := {
  rte_items : R -> list Z;
  rte_capacity : R -> Z;
  rte_create_law : forall n r, rte_ring_create n = Some r -> rte_items r = [] /\ rte_capacity r = n;
  rte_enqueue_law : forall r l n r', rte_ring_enqueue_bulk r l = (n, r') ->
    rte_capacity r' = rte_capacity r /\
    if Z.of_nat (length (rte_items r) + length l) <=? rte_capacity r
    then n = Z.of_nat (length l) /\ rte_items r' = (rte_items r ++ l)%list
    else n = 0 /\ rte_items r' = rte_items r;
  rte_dequeue_law : forall r k n l r', rte_ring_dequeue_bulk r k = (n, l, r') ->
    rte_capacity r' = rte_capacity r /\
    if (k <=? length (rte_items r))%nat
    then n = Z.of_nat k /\ rte_items r = (l ++ rte_items r')%list /\ length l = k
    else n = 0 /\ l = [] /\ rte_items r' = rte_items r
}.

(** ** Arenas *)

(** The space left in the current block. *)
Definition unused (a : Arena) : Z * Z :=
  match last (arena_blocks a) with
  | Some b => (b_data b + b_size b, b_capacity b - b_size b)
  | None => (0, 0)
  end.

Definition block_ok (b : Block) : Prop :=
  0 < b_data b /\ 0 <= b_size b <= b_capacity b /\ b_data b + b_capacity b <= u64_max.

Definition arena_ok (a : Arena) : Prop :=
  (match last (arena_blocks a) with Some b => block_ok b | None => True end) /\
  use_hugepage (options_ a) = true.

Definition units (size : Z) (addrs : list Z) : list (Z * Z) := (fun a => (a, size)) <$> addrs.

(** Disjoint pieces of a region. *)
Definition sub (r s : Z * Z) : Prop := r.1 <= s.1 /\ s.1 + s.2 <= r.1 + r.2.
Definition pieces (r : Z * Z) (l : list (Z * Z)) : Prop := apart l /\ Forall (sub r) l.

Lemma pieces_apart r l Φ : apart (r :: Φ) -> pieces r l -> apart (l ++ Φ).
Proof.
  intros [Hr Ha] [Hl Hs]. rewrite Forall_forall in Hr, Hs. apply apart_app. split_and!; [done..|].
  intros s t Hin Ht. apply disj_sym. destruct (Hs s Hin). apply (disj_sub _ r); [|done..]. by apply disj_sym, Hr.
Qed.

Lemma pieces_within bs r l : within bs r -> pieces r l -> Forall (within bs) l.
Proof.
  intros Hw [_ Hs]. rewrite Forall_forall in Hs |- *. intros s Hin. destruct (Hs s Hin) as [H1 H2].
  destruct Hw as [?|(b & Hb & ? & ?)]; [left; lia|right; exists b; split; [done|lia]].
Qed.

Lemma pieces_cons s n l x : 0 <= x <= n -> pieces (s + x, n - x) l -> pieces (s, n) ((s, x) :: l).
Proof.
  intros Hx [Ha Hs]. rewrite Forall_forall in Hs. split; [split; [|done]|].
  - apply Forall_forall. intros t Ht y Hy Hy'. destruct (Hs t Ht). unfold inside in *. cbn in *. lia.
  - constructor; [split; cbn; lia|]. apply Forall_forall. intros t Ht. destruct (Hs t Ht). split; cbn in *; lia.
Qed.

Lemma pieces_one r : pieces r [r].
Proof. split; [split; constructor|]. constructor; [split; lia|constructor]. Qed.

Definition space (b : Block) : Z * Z := (b_data b + b_size b, b_capacity b - b_size b).

(** One unit from the front of the space. *)
Lemma carve_step b size :
  block_ok b -> 0 < size -> size <= b_capacity b - b_size b ->
  let b1 := mkBlock (wrap64 (b_size b + size)) (b_capacity b) (b_data b) in
  block_ok b1 /\ space b1 = (b_data b + b_size b + size, b_capacity b - b_size b - size).
Proof.
  intros (Hd & Hs & Hc) Hz Hl. cbn. unfold space. cbn. rewrite (wrap64_small (_ + _)) by (unfold is_u64; lia).
  split; [split_and!; cbn; lia|f_equal; lia].
Qed.

Lemma carve_left_spec size num : forall b rest l b',
  block_ok b -> 0 < size -> carve_left num size b = (rest, l, b') ->
  block_ok b' /\ (length l + rest = num)%nat /\ Forall (Z.lt 0) l /\
  pieces (space b) (units size l ++ [space b']).
Proof.
  induction num as [|num IH]; intros b rest l b' Hb Hz E; cbn in E.
  { injection E as <- <- <-. split_and!; [done..|constructor|apply pieces_one]. }
  assert (Hls : left_space b = b_capacity b - b_size b).
  { destruct Hb as (? & ? & ?). unfold left_space. apply wrap64_small. unfold is_u64. lia. }
  rewrite Hls in E. destruct (Z.ltb_spec (b_capacity b - b_size b) size).
  { injection E as <- <- <-. split_and!; [done..|constructor|apply pieces_one]. }
  destruct (carve_step b size Hb Hz ltac:(lia)) as [Hb1 Hs1].
  destruct (carve_left num size _) as [[n l1] b1] eqn:E1. injection E as <- <- <-.
  apply IH in E1 as (? & ? & ? & Hp); [|done..]. rewrite Hs1 in Hp. destruct Hb as (? & ? & ?).
  split_and!; [done|cbn; lia|constructor; [lia|done]|]. apply pieces_cons; [lia|exact Hp].
Qed.

Lemma carve_new_spec size num : forall b l b',
  block_ok b -> 0 < size -> Z.of_nat num * size <= b_capacity b - b_size b ->
  carve_new num size b = (l, b') ->
  block_ok b' /\ length l = num /\ Forall (Z.lt 0) l /\ pieces (space b) (units size l ++ [space b']).
Proof.
  induction num as [|num IH]; intros b l b' Hb Hz Hn E; cbn in E.
  { injection E as <- <-. split_and!; [done..|constructor|apply pieces_one]. }
  destruct (carve_step b size Hb Hz ltac:(lia)) as [Hb1 Hs1].
  destruct (carve_new num size _) as [l1 b1] eqn:E1. injection E as <- <-.
  apply IH in E1 as (? & ? & ? & Hp); [|done..|pose proof (f_equal snd Hs1) as Hs2; cbn in Hs2 |- *; lia].
  rewrite Hs1 in Hp. destruct Hb as (? & ? & ?).
  split_and!; [done|cbn; lia|constructor; [lia|done]|]. apply pieces_cons; [lia|exact Hp].
Qed.

(** The blocks out after an allocation. *)
Definition grown (bs bs' : list (Z * Z)) : Prop :=
  bs' = bs \/ exists b, bs' = b :: bs /\ 0 < b.2 /\ Forall (disj b) bs.

Lemma grown_mono bs bs' : grown bs bs' -> forall b, b ∈ bs -> b ∈ bs'.
Proof. intros [->|(b0 & -> & _)] b Hb; [done|]. by right. Qed.

Lemma last_app_one {A} (l : list A) x : last (l ++ [x]) = Some x.
Proof. apply last_snoc. Qed.

Lemma units_app size l k : units size (l ++ k) = (units size l ++ units size k)%list.
Proof. unfold units. apply fmap_app. Qed.

Lemma Allocate_current_spec a size num rest l blocks :
  arena_ok a -> 0 < size -> Allocate_current a size num = (rest, l, blocks) ->
  (length l + rest = num)%nat /\ Forall (Z.lt 0) l /\
  exists left, pieces (unused a) (units size l ++ [left]) /\
    (blocks = [] \/ exists b, last blocks = Some b /\ block_ok b /\ left = space b).
Proof.
  intros [Hb _] Hz. unfold Allocate_current, unused. destruct (last (arena_blocks a)) as [cur|].
  - destruct (carve_left num size cur) as [[n l1] b1] eqn:E. intros [= <- <- <-].
    apply carve_left_spec in E as (? & ? & ? & ?); [|done..]. split_and!; [done..|].
    exists (space b1). split; [done|]. right. exists b1. by rewrite last_snoc.
  - intros [= <- <- <-]. split_and!; [done|constructor|]. exists (0, 0). split; [apply pieces_one|by left].
Qed.

(** The second half: a new block. *)
Lemma new_block_spec `{DmaLaws} Ψ m alloc_size size rest mem more b :
  spdk_dma_zmalloc (live m) alloc_size = Some mem -> 0 < size -> Z.of_nat rest * size <= alloc_size ->
  apart Ψ -> Forall (within (live m)) Ψ ->
  carve_new rest size (mkBlock 0 alloc_size mem) = (more, b) ->
  block_ok b /\ length more = rest /\ Forall (Z.lt 0) more /\
  grown (live m) ((mem, alloc_size) :: live m) /\
  apart (units size more ++ space b :: Ψ) /\
  Forall (within ((mem, alloc_size) :: live m)) (units size more ++ space b :: Ψ).
Proof.
  intros (Hn & Hm & Hu & Hd)%dma_block Hz Hr Ha Hw E.
  apply carve_new_spec in E as (Hb & Hl & Hp & Hpc); [|split_and!; cbn; lia|done|cbn; lia].
  unfold space in Hpc at 1. cbn in Hpc. rewrite Z.add_0_r, Z.sub_0_r in Hpc.
  split_and!; [done..| | |].
  - right. by exists (mem, alloc_size).
  - replace (units size more ++ space b :: Ψ)%list with ((units size more ++ [space b]) ++ Ψ)%list
      by (by rewrite <- app_assoc).
    apply (pieces_apart (mem, alloc_size)); [|done]. split; [by eapply fresh_apart|done].
  - replace (units size more ++ space b :: Ψ)%list with ((units size more ++ [space b]) ++ Ψ)%list
      by (by rewrite <- app_assoc).
    apply Forall_app. split.
    + eapply pieces_within; [|done]. right. exists (mem, alloc_size). split; [left|cbn; lia].
    + eapply Forall_impl; [exact Hw|]. intros r. apply within_mono. intros. by right.
Qed.

Definition allocated `{DmaAlloc} (Φ : list (Z * Z)) (m : Mem) (a : Arena) (size : Z) (num : nat)
    (res : Status * list Z * Arena * Mem) : Prop :=
  let '(st, addrs, a', m') := res in
  io_us m' = io_us m /\ arena_ok a' /\ grown (live m) (live m') /\
  if ok st then
    length addrs = num /\ Forall (Z.lt 0) addrs /\
    apart (units size addrs ++ unused a' :: Φ) /\ Forall (within (live m')) (units size addrs ++ unused a' :: Φ)
  else addrs = [] /\ a' = a /\ m' = m.

Lemma Allocate_block_spec `{DmaLaws} Φ m a size rest l blocks :
  arena_ok a -> 0 < size -> Z.of_nat rest * size <= u64_max -> Forall (Z.lt 0) l ->
  apart (units size l ++ Φ) -> Forall (within (live m)) (units size l ++ Φ) ->
  allocated Φ m a size (length l + rest) (Allocate_block m a size rest l blocks).
Proof.
  intros Ha Hz Hn Hl Hap Hw. pose proof Ha as [_ Hh]. unfold Allocate_block, allocate_mem. rewrite Hh.
  set (alloc_size := Z.max _ _).
  assert (Hs : Z.of_nat rest * size <= alloc_size).
  { subst alloc_size. rewrite (wrap64_small (_ * _)) by (unfold is_u64; lia). lia. }
  clearbody alloc_size. destruct (spdk_dma_zmalloc (live m) alloc_size) as [mem|] eqn:Em.
  2:{ cbn. split_and!; try done. by left. }
  destruct (carve_new _ _ _) as [more b] eqn:Ec.
  destruct (new_block_spec _ _ _ _ _ _ _ _ Em Hz Hs Hap Hw Ec) as (Hb & Hlen & Hpos & Hg & Hap' & Hw').
  assert (Hp : (units size (l ++ more) ++ space b :: Φ)%list ≡ₚ (units size more ++ space b :: units size l ++ Φ)%list).
  { rewrite units_app, <- app_assoc. by solve_Permutation. }
  cbn. unfold unused. cbn. rewrite last_snoc. fold (space b). rewrite Hp.
  split_and!; try done; [split; [cbn; by rewrite last_snoc|done]|rewrite length_app; lia|by apply Forall_app].
Qed.

Lemma Arena_Allocate_spec `{DmaLaws} Φ m a size num :
  arena_ok a -> 0 < size -> Z.of_nat num * size <= u64_max ->
  apart (unused a :: Φ) -> Forall (within (live m)) (unused a :: Φ) ->
  allocated Φ m a size num (Arena_Allocate m a size num).
Proof.
  intros Ha Hz Hn Hap Hw. unfold Arena_Allocate.
  destruct (Allocate_current a size num) as [[rest l] blocks] eqn:Ec.
  apply Allocate_current_spec in Ec as (Hlen & Hpos & left & Hpc & Hbl); [|done..].
  pose proof (pieces_apart _ _ _ Hap Hpc) as Hap1. rewrite <- app_assoc in Hap1. cbn [app] in Hap1.
  apply Forall_cons in Hw as [Hw0 Hw]. pose proof (pieces_within _ _ _ Hw0 Hpc) as Hw1.
  assert (Hblock : allocated Φ m a size num (Allocate_block m a size rest l blocks)).
  { rewrite <- Hlen. apply Allocate_block_spec; [done|done|nia|done| |].
    - apply apart_app in Hap1 as (? & (_ & ?) & Hd). apply apart_app. split_and!; [done..|].
      intros r s Hr Hs. apply Hd; [done|by right].
    - apply Forall_app in Hw1 as [? _]. by apply Forall_app. }
  destruct rest as [|rest]; [|done]. destruct blocks as [|b0 bs]; [done|].
  destruct Hbl as [?|(b & Hb & Hbok & ->)]; [done|]. destruct Ha as [_ Hh].
  cbn. unfold unused, arena_ok. cbn [arena_blocks options_]. rewrite Hb. fold (space b).
  split_and!; try done; [by left|lia|].
  replace (units size l ++ space b :: Φ)%list with ((units size l ++ [space b]) ++ Φ)%list
    by (by rewrite <- app_assoc). by apply Forall_app.
Qed.

(** ** Pools *)

Section Pools.
Context `{DmaLaws} `{RteRingLaws R}.

(** The units waiting in a pool's ring. *)
Definition items (p : IOMem R) : list Z :=
  match mb_ring (mem_buffer_ p) with Some r => rte_items r | None => [] end.

(** The memory of a unit: its object and its buffer. *)
Definition unit_regions (m : Mem) (io : Z) : list (Z * Z) := [(io, io_u_bytes); io_u_at m io].
Definition regions (m : Mem) (ios : list Z) : list (Z * Z) := ios ≫= unit_regions m.

Definition buffer_unused (p : IOMem R) : Z * Z :=
  match mb_arena (mem_buffer_ p) with Some a => unused a | None => (0, 0) end.

(** A pool with [out] units handed out. *)
Record pool_ok (m : Mem) (p : IOMem R) (out : Z) : Prop := {
  po_ring : exists r a, mb_ring (mem_buffer_ p) = Some r /\ mb_arena (mem_buffer_ p) = Some a /\
    arena_ok a /\ rte_capacity r = ring_size_ (mem_buffer_ p);
  po_arena : arena_ok (arena_ p);
  po_unit : 0 < mem_unit_size_ p <= 4294967295;
  po_bytes : unit_bytes (mem_buffer_ p) = io_u_bytes;
  po_count : num_units_ (mem_buffer_ p) = Z.of_nat (length (items p)) + out;
  po_max : num_units_ (mem_buffer_ p) <= ring_size_ (mem_buffer_ p) <= 4294967295;
  po_out : 0 <= out;
  po_sizes : forall io, io ∈ items p -> (io_u_at m io).2 = mem_unit_size_ p /\ 0 < (io_u_at m io).1 /\ 0 < io
}.

(** Blocks may only have been added. *)
Definition grows : relation (list (Z * Z)) := rtc grown.

Lemma grows_mono bs bs' b : grows bs bs' -> b ∈ bs -> b ∈ bs'.
Proof. induction 1 as [|x y z Hg _ IH]; [done|]. intros. apply IH. by eapply grown_mono. Qed.

(** The memory in use: the units [ios], which are all objects there are, and
    the space [E] left in the arenas, apart from each other and within the
    blocks. *)
Record mem_ok (m : Mem) (ios : list Z) (E : list (Z * Z)) : Prop := {
  mo_apart : apart (regions m ios ++ E);
  mo_within : Forall (within (live m)) (regions m ios ++ E);
  mo_objects : forall io d, io_us m !! io = Some d -> io ∈ ios
}.

#[global] Instance regions_perm m : Proper ((≡ₚ) ==> (≡ₚ)) (regions m).
Proof. intros l l' Hp. unfold regions. by rewrite Hp. Qed.

#[global] Instance mem_ok_perm m : Proper ((≡ₚ) ==> (≡ₚ) ==> iff) (mem_ok m).
Proof.
  assert (G : forall l l' k k', l ≡ₚ l' -> k ≡ₚ k' -> mem_ok m l k -> mem_ok m l' k').
  { intros l l' k k' Hl Hk [Ha Hw Ho]. split; [by rewrite <- Hl, <- Hk..|].
    intros. rewrite <- Hl. eauto. }
  intros l l' Hl k k' Hk. split; apply G; done.
Qed.

Lemma io_u_at_ext m m' io : io_us m' !! io = io_us m !! io -> io_u_at m' io = io_u_at m io.
Proof. unfold io_u_at. by intros ->. Qed.

Lemma regions_ext m m' ios :
  (forall io, io ∈ ios -> io_us m' !! io = io_us m !! io) -> regions m' ios = regions m ios.
Proof.
  intros Hi. unfold regions. induction ios as [|io ios IH]; [done|]. rewrite !bind_cons. f_equal.
  - unfold unit_regions. by rewrite (io_u_at_ext m m') by (apply Hi; left).
  - apply IH. intros. apply Hi. by right.
Qed.

Lemma object_in_regions m io ios : io ∈ ios -> (io, io_u_bytes) ∈ regions m ios.
Proof.
  intros Hi. unfold regions. apply list_elem_of_bind. exists io. split; [left|done].
Qed.

(** A new unit: its object and its buffer come from the arenas. *)
Lemma new_unit_ok m ios E io d n :
  0 < d -> apart ((io, io_u_bytes) :: (d, n) :: regions m ios ++ E) ->
  Forall (within (live m)) ((io, io_u_bytes) :: (d, n) :: regions m ios ++ E) ->
  (forall io d, io_us m !! io = Some d -> io ∈ ios) ->
  mem_ok (set_io_u m io d n) (io :: ios) E /\
  forall q, q ∈ ios -> io_us (set_io_u m io d n) !! q = io_us m !! q.
Proof.
  intros Hd Ha Hw Ho.
  assert (Hq : forall q, q ∈ ios -> q <> io).
  { intros q Hq ->. apply object_in_regions with (m := m) in Hq. destruct Ha as [Ha _].
    rewrite Forall_forall in Ha. apply (Ha (io, io_u_bytes)) with (x := io).
    - right. apply elem_of_app. by left.
    - unfold inside, io_u_bytes. cbn. lia.
    - unfold inside, io_u_bytes. cbn. lia. }
  assert (Hi : forall q, q ∈ ios -> io_us (set_io_u m io d n) !! q = io_us m !! q).
  { intros q Hin. cbn. apply lookup_insert_ne. symmetry. by apply Hq. }
  assert (Hr : regions (set_io_u m io d n) (io :: ios) = (io, io_u_bytes) :: (d, n) :: regions m ios).
  { unfold regions. rewrite bind_cons. unfold unit_regions at 1, io_u_at. cbn [io_us set_io_u].
    rewrite lookup_insert_eq. cbn [default app]. do 2 f_equal. by apply (regions_ext m). }
  split; [|done]. split; [by rewrite Hr..|]. intros q dd. cbn. rewrite lookup_insert_Some.
  intros [[-> _]|[_ Hl]]; [left|right; eauto].
Qed.

Lemma fresh_object m ios E io :
  apart ((io, io_u_bytes) :: regions m ios ++ E) -> (forall io d, io_us m !! io = Some d -> io ∈ ios) ->
  io_u_at m io = (0, 0).
Proof.
  intros [Ha _] Ho. unfold io_u_at. destruct (io_us m !! io) as [d|] eqn:E1; [|done]. exfalso.
  apply Ho, (object_in_regions m) in E1. rewrite Forall_forall in Ha.
  apply (Ha (io, io_u_bytes)) with (x := io); [apply elem_of_app; by left|..]; unfold inside, io_u_bytes; cbn; lia.
Qed.

(** *** Getting a unit *)

Definition got (m : Mem) (p : IOMem R) (out : Z) (ios : list Z) (E : list (Z * Z))
    (res : Status * Z * IOMem R * Mem) : Prop :=
  let '(st, io, p', m') := res in
  grows (live m) (live m') /\ mem_unit_size_ p' = mem_unit_size_ p /\
  (forall q, q ∈ items p ++ ios -> io_us m' !! q = io_us m !! q) /\
  if ok st then
    0 < io /\ pool_ok m' p' (out + 1) /\ (io_u_at m' io).2 = mem_unit_size_ p /\ 0 < (io_u_at m' io).1 /\
    mem_ok m' (io :: items p' ++ ios) (unused (arena_ p') :: buffer_unused p' :: E)
  else pool_ok m' p' out /\ mem_ok m' (items p' ++ ios) (unused (arena_ p') :: buffer_unused p' :: E).

(** The ring has a unit. *)
Lemma get_waiting m p out ios E r n l r' :
  pool_ok m p out -> mem_ok m (items p ++ ios) (unused (arena_ p) :: buffer_unused p :: E) ->
  mb_ring (mem_buffer_ p) = Some r -> rte_ring_dequeue_bulk r 1 = (n, l, r') -> n <> 0 ->
  exists io, l = [io] /\ 0 < (io_u_at m io).1 /\
    got m p out ios E (Status_default, io, with_buffer p (with_ring (mem_buffer_ p) r'), m).
Proof.
  intros [Hr Ha Hu Hb Hc Hm Ho Hs] Hmem Er Ed Hn. destruct Hr as (r0 & a0 & E0 & Ea & Ha0 & Hcap).
  rewrite E0 in Er. injection Er as <-. apply rte_dequeue_law in Ed as [Hcap' Hd].
  destruct (Nat.leb_spec 1 (length (rte_items r0))); [|lia]. destruct Hd as (-> & Hit & Hl).
  destruct l as [|io [|]]; [done| |done]. exists io. cbn [app] in Hit.
  assert (Hitems : items p = io :: rte_items r') by (unfold items; by rewrite E0).
  destruct (Hs io) as (? & ? & ?); [rewrite Hitems; left|]. split_and!; [done..|].
  split; [apply rtc_refl|]. split; [done|]. split; [done|]. change (ok Status_default) with true. cbv iota.
  split_and!; [done| |done|done|].
  - split; cbn; try done.
    + exists r', a0. split_and!; [done..|]. congruence.
    + rewrite Hc, Hitems. unfold items. cbn. lia.
    + lia.
    + intros q Hq. apply Hs. rewrite Hitems. by right.
  - rewrite Hitems in Hmem. exact Hmem.
Qed.

(** A pool whose ring is empty. *)
Lemma empty_pool_ok m p out r a1 a2 n out' :
  pool_ok m p out -> rte_items r = [] -> rte_capacity r = ring_size_ (mem_buffer_ p) ->
  arena_ok a1 -> arena_ok a2 -> n = out' -> 0 <= out' <= ring_size_ (mem_buffer_ p) ->
  forall m', pool_ok m' (mkIOMem (mkMemBuffer (Some r) (Some a1) (unit_bytes (mem_buffer_ p))
    (ring_size_ (mem_buffer_ p)) n) a2 (mem_unit_size_ p) (max_units_ p)) out'.
Proof.
  intros [_ _ Hu Hb _ Hm _ _] Hr Hc Ha1 Ha2 -> Ho m'. split; cbn; try done; unfold items; cbn; rewrite ?Hr.
  - exists r, a1. done.
  - cbn. lia.
  - lia.
  - lia.
  - intros io []%not_elem_of_nil.
Qed.

(** The object [io] of a new unit was carved: it gets its memory. *)
Lemma fill_new m m1 p out ios E r a1 io :
  pool_ok m p out -> items p = [] -> rte_items r = [] -> rte_capacity r = ring_size_ (mem_buffer_ p) ->
  arena_ok a1 -> grown (live m) (live m1) -> io_us m1 = io_us m -> 0 < io -> out < ring_size_ (mem_buffer_ p) ->
  let Φ := (io, io_u_bytes) :: unused a1 :: regions m ios ++ E in
  apart (unused (arena_ p) :: Φ) -> Forall (within (live m1)) (unused (arena_ p) :: Φ) ->
  (forall io d, io_us m !! io = Some d -> io ∈ ios) ->
  got m p out ios E
    (IOMem_fill m1 (with_buffer p (mkMemBuffer (Some r) (Some a1) (unit_bytes (mem_buffer_ p))
       (ring_size_ (mem_buffer_ p)) (wrap32 (out + 1)))) io).
Proof.
  intros Hp Hi Hr Hc Ha1 Hg Hus Hio Hlt Φ Hap Hw Hob. pose proof Hp as [_ Ha Hu Hb _ Hm Ho _].
  assert (Hreg : regions m1 ios = regions m ios) by (apply regions_ext; by rewrite Hus).
  assert (Hfresh : io_u_at m1 io = (0, 0)).
  { apply (fresh_object m1 ios (unused a1 :: unused (arena_ p) :: E)); [|by rewrite Hus]. rewrite Hreg.
    assert (Hperm : (io, io_u_bytes) :: regions m ios ++ unused a1 :: unused (arena_ p) :: E ≡ₚ unused (arena_ p) :: Φ)
      by (subst Φ; solve_Permutation). by rewrite Hperm. }
  assert (Hg' : grows (live m) (live m1)) by (by apply rtc_once).
  unfold IOMem_fill. rewrite Hfresh. cbn [fst Z.eqb negb]. cbn [arena_ with_buffer mem_unit_size_ mem_buffer_ max_units_].
  pose proof (Arena_Allocate_spec Φ m1 (arena_ p) (mem_unit_size_ p) 1 Ha ltac:(lia)
    ltac:(unfold u64_max; lia) Hap Hw) as Hal.
  destruct (Arena_Allocate m1 (arena_ p) (mem_unit_size_ p) 1) as [[[st addrs] a2] m2].
  destruct Hal as (Hi2 & Ha2 & Hg2 & Hal). destruct (ok st) eqn:Hst; cbn [negb].
  - destruct Hal as (Hl & Hpos & Hap2 & Hw2). destruct addrs as [|d [|]]; [done| |done].
    apply Forall_cons in Hpos as [Hd _]. cbn [head default units fmap list_fmap app] in *.
    assert (Hperm : ((d, mem_unit_size_ p) :: unused a2 :: Φ) ≡ₚ
      ((io, io_u_bytes) :: (d, mem_unit_size_ p) :: regions m2 ios ++ unused a2 :: unused a1 :: E)).
    { subst Φ. rewrite (regions_ext m m2) by (by rewrite Hi2, Hus). solve_Permutation. }
    rewrite Hperm in Hap2, Hw2.
    destruct (new_unit_ok m2 ios (unused a2 :: unused a1 :: E) io d (mem_unit_size_ p) Hd Hap2 Hw2) as [Hm2 Hq2];
      [by rewrite Hi2, Hus|].
    split; [by apply (rtc_r _ (live m1))|]. split; [done|].
    split; [intros q; rewrite Hi; cbn [app]; intros Hq; rewrite Hq2 by done; by rewrite Hi2, Hus|].
    change (ok Status_default) with true. cbv iota. split; [done|]. split.
    { apply (empty_pool_ok m p out); try done; [|lia]. apply wrap32_small. unfold is_u32. lia. }
    unfold io_u_at. cbn [io_us set_io_u]. rewrite lookup_insert_eq. cbn [default fst snd].
    split; [done|]. split; [done|]. unfold items, buffer_unused. cbn. rewrite Hr. exact Hm2.
  - destruct Hal as (-> & -> & ->). split; [done|]. split; [done|]. split; [by rewrite Hus|]. rewrite Hst. split.
    { apply (empty_pool_ok m p out); try done; [|lia]. cbn. rewrite (wrap32_small (out + 1)) by (unfold is_u32; lia).
      rewrite wrap32_small by (unfold is_u32; lia). lia. }
    unfold items, buffer_unused. cbn. rewrite Hr.
    assert (Hperm : (unused (arena_ p) :: Φ) ≡ₚ (io, io_u_bytes) :: (regions m1 ios ++ unused (arena_ p) :: unused a1 :: E))
      by (subst Φ; rewrite Hreg; solve_Permutation).
    rewrite Hperm in Hap, Hw. apply Forall_cons in Hw as [_ Hw]. destruct Hap as [_ Hap]. split; [done..|]. by rewrite Hus.
Qed.

(** The ring is empty: the object comes from the buffer's arena. *)
Lemma get_new m p out ios E r n l r' :
  pool_ok m p out -> mem_ok m (items p ++ ios) (unused (arena_ p) :: buffer_unused p :: E) ->
  mb_ring (mem_buffer_ p) = Some r -> rte_ring_dequeue_bulk r 1 = (n, l, r') -> n = 0 ->
  exists res, IOMem_GetIOUnitBulk m p = Some res /\ got m p out ios E res.
Proof.
  intros Hp Hmem Er Ed ->. pose proof Hp as [Hr Ha Hu Hb Hc Hm Ho Hs]. destruct Hr as (r0 & a0 & E0 & Ea & Ha0 & Hcap).
  rewrite E0 in Er. injection Er as <-. pose proof (rte_dequeue_law _ _ _ _ _ Ed) as [Hcap' Hd].
  destruct (Nat.leb_spec 1 (length (rte_items r0))); [by destruct Hd|]. destruct Hd as (_ & -> & Hit).
  assert (Hi0 : rte_items r0 = []) by (destruct (rte_items r0); [done|cbn in *; lia]).
  assert (Hitems : items p = []) by (unfold items; by rewrite E0). rewrite Hi0 in Hit. rewrite Hcap in Hcap'.
  rewrite Hitems in Hmem, Hc. cbn [app length] in Hmem, Hc. pose proof Hmem as [Hap Hw Hob].
  unfold buffer_unused in Hmem, Hap, Hw. rewrite Ea in Hmem, Hap, Hw.
  unfold IOMem_GetIOUnitBulk, GetBulk, GetsBulk. rewrite E0. cbn [mbind option_bind]. rewrite Ed.
  change (negb (0 =? 0)) with false. cbv iota. unfold new_units. cbn [ring_size_ num_units_ with_ring mb_arena unit_bytes mb_ring].
  assert (G : forall st (a1 : Arena) n, arena_ok a1 -> n = out -> out <= ring_size_ (mem_buffer_ p) -> forall m', ok st = false -> grows (live m) (live m') ->
     io_us m' = io_us m -> mem_ok m' ios (unused (arena_ p) :: unused a1 :: E) ->
     got m p out ios E (st, 0, mkIOMem (mkMemBuffer (Some r') (Some a1) (unit_bytes (mem_buffer_ p))
       (ring_size_ (mem_buffer_ p)) n) (arena_ p) (mem_unit_size_ p) (max_units_ p), m')).
  { intros st a1 n Ha1 Hn Hle m' Hst Hg Hi Hm'. split; [done|]. split; [done|]. split; [by rewrite Hi|]. rewrite Hst. subst n.
    split; [apply (empty_pool_ok m p out); done || lia|]. unfold items, buffer_unused. cbn. by rewrite Hit. }
  destruct (Z.leb_spec (ring_size_ (mem_buffer_ p)) (num_units_ (mem_buffer_ p))) as [|Hlt].
  { eexists. split; [done|]. unfold with_buffer, with_ring. rewrite Ea.
    apply (G _ a0); try done; try lia; apply rtc_refl. }
  rewrite Ea. cbn [mbind option_bind].
  assert (Hp1 : (unused a0 :: regions m ios ++ unused (arena_ p) :: E) ≡ₚ regions m ios ++ unused (arena_ p) :: unused a0 :: E)
    by solve_Permutation.
  pose proof (Arena_Allocate_spec (regions m ios ++ unused (arena_ p) :: E) m a0 (unit_bytes (mem_buffer_ p)) 1 Ha0
    ltac:(rewrite Hb; done) ltac:(rewrite Hb; done) ltac:(by rewrite Hp1) ltac:(by rewrite Hp1)) as Hal.
  destruct (Arena_Allocate m a0 (unit_bytes (mem_buffer_ p)) 1) as [[[st addrs] a1] m1].
  destruct Hal as (Hi1 & Ha1 & Hg1 & Hal). cbn [mbind option_bind]. destruct (ok st) eqn:Hst; cbn [negb].
  2:{ destruct Hal as (-> & -> & ->). eexists. split; [done|]. apply (G _ a0); try done; try lia; apply rtc_refl. }
  destruct Hal as (Hl1 & Hpos1 & Hap1 & Hw1). destruct addrs as [|io [|]]; [done| |done].
  apply Forall_cons in Hpos1 as [Hio _]. cbn [head default units fmap list_fmap app] in *. rewrite Hb in Hap1, Hw1.
  eexists. split; [done|]. rewrite Hc, Z.add_0_l. apply fill_new; try done; [lia|..].
  - assert (Hperm : unused (arena_ p) :: (io, io_u_bytes) :: unused a1 :: regions m ios ++ E ≡ₚ
      (io, io_u_bytes) :: unused a1 :: regions m ios ++ unused (arena_ p) :: E) by solve_Permutation. by rewrite Hperm.
  - assert (Hperm : unused (arena_ p) :: (io, io_u_bytes) :: unused a1 :: regions m ios ++ E ≡ₚ
      (io, io_u_bytes) :: unused a1 :: regions m ios ++ unused (arena_ p) :: E) by solve_Permutation. by rewrite Hperm.
Qed.

(** [GetIOUnitBulk] on a pool. *)
Lemma pool_get m p out ios E :
  pool_ok m p out -> mem_ok m (items p ++ ios) (unused (arena_ p) :: buffer_unused p :: E) ->
  exists res, IOMem_GetIOUnitBulk m p = Some res /\ got m p out ios E res.
Proof.
  intros Hp Hm. destruct (po_ring _ _ _ Hp) as (r & a & Er & _).
  destruct (rte_ring_dequeue_bulk r 1) as [[n l] r'] eqn:Ed.
  destruct (decide (n = 0)) as [->|Hn]; [by eapply get_new|].
  destruct (get_waiting _ _ _ _ _ _ _ _ _ Hp Hm Er Ed Hn) as (io & -> & Hd & Hg).
  eexists. split; [|exact Hg]. unfold IOMem_GetIOUnitBulk, GetBulk, GetsBulk. rewrite Er. cbn [mbind option_bind].
  rewrite Ed, (proj2 (Z.eqb_neq _ _)) by done. cbn [negb mbind option_bind].
  change (default 0 (head [io])) with io. unfold IOMem_fill. change (negb (ok Status_default)) with false. cbv iota.
  rewrite (proj2 (Z.eqb_neq (io_u_at m io).1 0)) by lia. done.
Qed.

(** *** Returning a unit *)

Lemma pool_put m p out io :
  pool_ok m p out -> 0 < out -> (io_u_at m io).2 = mem_unit_size_ p -> 0 < (io_u_at m io).1 -> 0 < io ->
  exists p', IOMem_PutIOUnit p io = Some (Status_default, p') /\ pool_ok m p' (out - 1) /\
    items p' = (items p ++ [io])%list /\ mem_unit_size_ p' = mem_unit_size_ p /\
    arena_ p' = arena_ p /\ buffer_unused p' = buffer_unused p.
Proof.
  intros [Hr Ha Hu Hb Hc Hm Ho Hs] Hout Hsz Hd Hio. destruct Hr as (r & a & Er & Ea & Ha0 & Hcap).
  assert (Hit : items p = rte_items r) by (unfold items; by rewrite Er).
  unfold IOMem_PutIOUnit, Put, Puts. rewrite Er. cbn [mbind option_bind].
  destruct (rte_ring_enqueue_bulk r [io]) as [n r'] eqn:En.
  apply rte_enqueue_law in En as [Hcap' Hn]. cbn [length] in Hn. rewrite <- Hit in Hn.
  destruct (Z.leb_spec (Z.of_nat (length (items p) + 1)) (rte_capacity r)); [|lia]. destruct Hn as [-> Hi].
  change (Z.of_nat 1 =? 0) with false. cbv iota. cbn [mbind option_bind]. eexists. split; [done|].
  assert (Hit' : items (with_buffer p (with_ring (mem_buffer_ p) r')) = (items p ++ [io])%list) by (by unfold items at 1).
  split; [|split; [done|done]]. split; cbn [mem_buffer_ with_buffer with_ring mb_ring mb_arena unit_bytes num_units_ ring_size_ arena_ mem_unit_size_]; try done.
  - exists r', a. split_and!; [done..|]. congruence.
  - rewrite Hit', length_app. cbn [length]. lia.
  - lia.
  - rewrite Hit'. intros q [Hq|Hq%list_elem_of_singleton]%elem_of_app; [by apply Hs|by subst].
Qed.

(** ** All pools *)

Definition leftovers (p : IOMem R) : list (Z * Z) := [unused (arena_ p); buffer_unused p].

(** The held units of a pool. *)
Definition held_of (m : Mem) (ps : list (IOMem R)) (held : list Z) (i : nat) : list Z :=
  filter (fun io => pool_of ps (io_u_at m io).2 = Some i) held.

Record mgr_ok (ps : list (IOMem R)) (m : Mem) (held : list Z) : Prop := {
  go_length : Z.of_nat (length ps) < 1048576;
  go_sizes : forall i p, ps !! i = Some p -> mem_unit_size_ p = kIOUnitSize_ * (Z.of_nat i + 1);
  go_pools : forall i p, ps !! i = Some p -> pool_ok m p (Z.of_nat (length (held_of m ps held i)));
  go_mem : mem_ok m (held ++ (ps ≫= items)) (ps ≫= leftovers);
  go_held : forall io, io ∈ held -> 0 < io /\ 0 < (io_u_at m io).1;
  go_direct : forall io, io ∈ held -> pool_of ps (io_u_at m io).2 = None ->
    (io, io_u_bytes) ∈ live m /\ io_u_at m io ∈ live m;
  go_slab : forall io i, io ∈ held -> pool_of ps (io_u_at m io).2 = Some i ->
    (io_u_at m io).2 = kIOUnitSize_ * (Z.of_nat i + 1);
  go_live : apart (live m) /\ Forall (fun b => 0 < b.2) (live m)
}.

Lemma bind_lookup {A B} (f : A -> list B) l i x : l !! i = Some x -> l ≫= f ≡ₚ f x ++ (delete i l ≫= f).
Proof.
  intros Hi. rewrite <- (take_drop_middle l i x Hi) at 1. rewrite delete_take_drop, !bind_app, bind_cons.
  solve_Permutation.
Qed.

Lemma bind_update {A B} (f : A -> list B) l i x y :
  l !! i = Some x -> (<[i := y]> l) ≫= f ≡ₚ f y ++ (delete i l ≫= f).
Proof.
  intros Hi. pose proof (lookup_lt_Some _ _ _ Hi). rewrite insert_take_drop, delete_take_drop, !bind_app, bind_cons by done.
  solve_Permutation.
Qed.

Lemma pool_ok_ext m m' p out :
  (forall q, q ∈ items p -> io_us m' !! q = io_us m !! q) -> pool_ok m p out -> pool_ok m' p out.
Proof.
  intros Hx [Hr Ha Hu Hb Hc Hm Ho Hs]. split; try done. intros io Hio. rewrite (io_u_at_ext m m') by auto. by apply Hs.
Qed.

Lemma pool_of_slab (ps : list (IOMem R)) i :
  Z.of_nat (length ps) < 1048576 -> (i < length ps)%nat -> pool_of ps (kIOUnitSize_ * (Z.of_nat i + 1)) = Some i.
Proof.
  intros Hl Hi. unfold pool_of, get_index. change kIOUnitSize_ with 4096.
  rewrite (Z.mul_comm 4096), Z.div_mul by lia. rewrite wrap32_small by (unfold is_u32; lia).
  destruct (Z.ltb_spec (Z.of_nat i + 1 - 1) (Z.of_nat (length ps))); [f_equal; lia|lia].
Qed.

Lemma pool_of_length (ps ps' : list (IOMem R)) n : length ps = length ps' -> pool_of ps n = pool_of ps' n.
Proof. unfold pool_of. by intros ->. Qed.

Lemma pool_of_bound (ps : list (IOMem R)) n i : pool_of ps n = Some i -> (i < length ps)%nat.
Proof.
  unfold pool_of. destruct (Z.ltb_spec (get_index n) (Z.of_nat (length ps))); [|done]. intros [= <-].
  assert (0 <= get_index n) by (unfold get_index; apply wrap32_is_u32). lia.
Qed.

Lemma held_of_ext m m' ps ps' held i :
  length ps = length ps' -> (forall q, q ∈ held -> io_us m' !! q = io_us m !! q) ->
  held_of m' ps' held i = held_of m ps held i.
Proof.
  intros Hl Hx. unfold held_of. induction held as [|io held IH]; [done|].
  assert (Hio : pool_of ps' (io_u_at m' io).2 = pool_of ps (io_u_at m io).2).
  { rewrite (io_u_at_ext m m') by (apply Hx; left). by apply pool_of_length. }
  rewrite !filter_cons, Hio, IH by (intros; apply Hx; by right). done.
Qed.

Lemma grows_live bs bs' :
  grows bs bs' -> apart bs /\ Forall (fun b => 0 < b.2) bs -> apart bs' /\ Forall (fun b => 0 < b.2) bs'.
Proof.
  induction 1 as [|x y z Hg _ IH]; [done|]. intros [Ha Hp]. apply IH.
  destruct Hg as [->|(b & -> & Hb & Hd)]; [done|]. split; [done|by constructor].
Qed.

(** What the other pools and the held units keep when pool [i] changes. *)
Lemma mgr_pool_changed ps m held i p p' m' held' :
  mgr_ok ps m held -> ps !! i = Some p -> mem_unit_size_ p' = mem_unit_size_ p -> grows (live m) (live m') ->
  (forall q, q ∈ held ++ (ps ≫= items) -> io_us m' !! q = io_us m !! q) ->
  (forall j, j <> i -> length (held_of m' (<[i := p']> ps) held' j) = length (held_of m ps held j)) ->
  pool_ok m' p' (Z.of_nat (length (held_of m' (<[i := p']> ps) held' i))) ->
  mem_ok m' (held' ++ (<[i := p']> ps ≫= items)) (<[i := p']> ps ≫= leftovers) ->
  (forall io, io ∈ held' -> io ∈ held \/
     0 < io /\ 0 < (io_u_at m' io).1 /\ (io_u_at m' io).2 = mem_unit_size_ p) ->
  mgr_ok (<[i := p']> ps) m' held'.
Proof.
  intros [Hlen Hsz Hpo Hme Hhe Hdi Hsl Hli] Hi Hsame Hg Hx Hof Hp' Hm' Hh'.
  pose proof (lookup_lt_Some _ _ _ Hi) as Hlt.
  assert (Hpl : forall n, pool_of (<[i := p']> ps) n = pool_of ps n) by (intros; apply pool_of_length; apply length_insert).
  assert (Hold : forall io, io ∈ held -> io_u_at m' io = io_u_at m io).
  { intros io Hio. apply io_u_at_ext, Hx, elem_of_app. by left. }
  assert (Hslab : pool_of ps (mem_unit_size_ p) = Some i) by (rewrite (Hsz i p Hi); by apply pool_of_slab).
  split; rewrite ?length_insert; try done.
  - intros j q. rewrite list_lookup_insert_Some. intros [(<- & <- & _)|(_ & Hj)]; [rewrite Hsame|]; by apply Hsz.
  - intros j q. rewrite list_lookup_insert_Some. intros [(<- & <- & _)|(Hne & Hj)]; [done|].
    rewrite Hof by done. apply (pool_ok_ext m); [|by apply Hpo]. intros io Hio. apply Hx, elem_of_app. right.
    apply list_elem_of_bind. exists q. split; [done|]. by eapply list_elem_of_lookup_2.
  - intros io Hio. destruct (Hh' io Hio) as [Hin|(? & ? & _)]; [|done]. rewrite Hold by done. by apply Hhe.
  - intros io Hio. rewrite Hpl. destruct (Hh' io Hio) as [Hin|(_ & _ & Hs)]; [|rewrite Hs; congruence].
    rewrite Hold by done. intros Hn. destruct (Hdi io Hin Hn). split; by eapply grows_mono.
  - intros io j Hio. rewrite Hpl. destruct (Hh' io Hio) as [Hin|(_ & _ & Hs)].
    + rewrite Hold by done. by apply Hsl.
    + rewrite Hs, Hslab, (Hsz i p Hi). by intros [= <-].
  - by eapply grows_live.
Qed.

Lemma mgr_get_pool ps m held size i :
  mgr_ok ps m held -> pool_of ps size = Some i ->
  exists st io ps' m', IOMemMgr_GetIOUnitBulk m ps size = Some (st, io, ps', m') /\
    if ok st then mgr_ok ps' m' (io :: held) /\ (io_u_at m' io).2 = kIOUnitSize_ * (Z.of_nat i + 1)
    else mgr_ok ps' m' held.
Proof.
  intros Hok Hof. pose proof Hok as [Hlen Hsz Hpo Hme Hhe Hdi Hsl Hli].
  destruct (lookup_lt_is_Some_2 ps i (pool_of_bound _ _ _ Hof)) as [p Hp].
  assert (Hperm : held ++ (ps ≫= items) ≡ₚ items p ++ held ++ (delete i ps ≫= items))
    by (rewrite (bind_lookup items ps i p Hp); solve_Permutation).
  rewrite Hperm, (bind_lookup leftovers ps i p Hp) in Hme.
  destruct (pool_get m p _ _ _ (Hpo i p Hp) Hme) as ([[[st io] p'] m'] & E & Hg & Hu & Hx & Hr).
  exists st, io, (<[i := p']> ps), m'. unfold IOMemMgr_GetIOUnitBulk. rewrite Hof, Hp. cbn [mbind option_bind].
  rewrite E. cbn [mbind option_bind]. split; [done|].
  assert (Hx' : forall q, q ∈ held ++ (ps ≫= items) -> io_us m' !! q = io_us m !! q).
  { intros q Hq. apply Hx. by rewrite <- Hperm. }
  assert (Hxh : forall q, q ∈ held -> io_us m' !! q = io_us m !! q).
  { intros q Hq. apply Hx', elem_of_app. by left. }
  assert (Hofe : forall j, held_of m' (<[i := p']> ps) held j = held_of m ps held j).
  { intros j. apply held_of_ext; [by rewrite length_insert|done]. }
  assert (Hs' : pool_of (<[i := p']> ps) (mem_unit_size_ p) = Some i).
  { rewrite (pool_of_length _ ps) by apply length_insert. rewrite (Hsz i p Hp).
    apply pool_of_slab; [done|]. by eapply lookup_lt_Some. }
  destruct (ok st).
  - destruct Hr as (Hio & Hpo' & Hs & Hd & Hm'). split; [|by rewrite Hs; apply Hsz].
    apply (mgr_pool_changed ps m held i p); try done.
    + intros j Hj. unfold held_of. rewrite filter_cons, Hs, Hs', decide_False by congruence.
      f_equal. apply Hofe.
    + unfold held_of. rewrite filter_cons, Hs, Hs', decide_True by done. cbn [length].
      fold (held_of m' (<[i := p']> ps) held i). rewrite Hofe, Nat2Z.inj_succ. exact Hpo'.
    + rewrite !(bind_update _ ps i p p' Hp).
      assert (Hq : (io :: held) ++ items p' ++ (delete i ps ≫= items) ≡ₚ io :: items p' ++ held ++ (delete i ps ≫= items))
        by solve_Permutation. rewrite Hq. exact Hm'.
    + intros q [->|?]%elem_of_cons; [right; by split_and!|by left].
  - destruct Hr as (Hpo' & Hm'). apply (mgr_pool_changed ps m held i p); try done.
    + intros j _. by rewrite Hofe.
    + rewrite Hofe. exact Hpo'.
    + rewrite !(bind_update _ ps i p p' Hp).
      assert (Hq : held ++ items p' ++ (delete i ps ≫= items) ≡ₚ items p' ++ held ++ (delete i ps ≫= items))
        by solve_Permutation. rewrite Hq. exact Hm'.
    + intros q ?. by left.
Qed.

Lemma held_of_perm m ps held held' i : held ≡ₚ held' -> length (held_of m ps held i) = length (held_of m ps held' i).
Proof. intros Hp. unfold held_of. by rewrite Hp. Qed.

Lemma mgr_put_pool ps m held held' io i :
  mgr_ok ps m held -> held ≡ₚ io :: held' -> pool_of ps (io_u_at m io).2 = Some i ->
  exists ps', IOMemMgr_PutIOUnit m ps io = Some (ps', m) /\ mgr_ok ps' m held' /\ io ∈ ps' ≫= items.
Proof.
  intros Hok Hh Hof. pose proof Hok as [Hlen Hsz Hpo Hme Hhe Hdi Hsl Hli].
  destruct (lookup_lt_is_Some_2 ps i (pool_of_bound _ _ _ Hof)) as [p Hp].
  assert (Hin : io ∈ held) by (rewrite Hh; left). destruct (Hhe io Hin) as [Hio Hd].
  assert (Hn : length (held_of m ps held i) = S (length (held_of m ps held' i))).
  { rewrite (held_of_perm m ps held (io :: held') i Hh). unfold held_of. by rewrite filter_cons, decide_True. }
  destruct (pool_put m p _ io (Hpo i p Hp)) as (p' & E & Hp' & Hit & Hu & Ha & Hb); [lia| |done|done|].
  { by rewrite (Hsl io i Hin Hof), (Hsz i p Hp). }
  exists (<[i := p']> ps). unfold IOMemMgr_PutIOUnit. rewrite Hof, Hp. cbn [mbind option_bind]. rewrite E.
  cbn [mbind option_bind]. split; [done|].
  assert (Hofe : forall j, held_of m (<[i := p']> ps) held' j = held_of m ps held' j)
    by (intros j; apply held_of_ext; [by rewrite length_insert|done]).
  split; [|rewrite (bind_update _ ps i p p' Hp), Hit; set_solver].
  apply (mgr_pool_changed ps m held i p); try done.
  - intros j Hj. rewrite Hofe, (held_of_perm m ps held (io :: held') j Hh). unfold held_of.
    by rewrite filter_cons, decide_False by congruence.
  - rewrite Hofe. replace (Z.of_nat _) with (Z.of_nat (length (held_of m ps held i)) - 1) by lia. done.
  - rewrite !(bind_update _ ps i p p' Hp), Hit. unfold leftovers at 1. rewrite Ha, Hb. fold (leftovers p).
    rewrite <- (bind_lookup leftovers ps i p Hp).
    assert (Hq : held' ++ (items p ++ [io]) ++ (delete i ps ≫= items) ≡ₚ held ++ (ps ≫= items))
      by (rewrite Hh, (bind_lookup items ps i p Hp); solve_Permutation).
    by rewrite Hq.
  - intros q Hq. left. rewrite Hh. by right.
Qed.

Lemma mgr_get_direct ps m held size st io ps' m' :
  mgr_ok ps m held -> is_u64 size -> pool_of ps size = None ->
  IOMemMgr_GetIOUnitBulk m ps size = Some (st, io, ps', m') ->
  if ok st then mgr_ok ps' m' (io :: held) /\ (io_u_at m' io).2 = size else mgr_ok ps' m' held.
Proof.
  intros [Hlen Hsz Hpo Hme Hhe Hdi Hsl [Hla Hlp]] Hu Hof. unfold IOMemMgr_GetIOUnitBulk, alloc_direct, AllocateDirect, allocate_mem.
  rewrite Hof, Z.mul_1_r, (wrap64_small size) by done.
  destruct (spdk_dma_zmalloc (live m) size) as [d|] eqn:Ed; cbn [mbind option_bind].
  2:{ intros [= <- <- <- <-]. by split. }
  change (negb (ok Status_default)) with false. cbv iota.
  destruct (operator_new _ _) as [o|] eqn:Eo; [|done]. cbn [mbind option_bind live io_us seq fmap list_fmap head default from_option].
  intros [= <- <- <- <-]. change (ok Status_default) with true. cbv iota.
  apply dma_block in Ed as (Hs & Hd & _ & Hdd). apply new_block in Eo as (Ho & Hdo). cbn [live] in Hdo.
  rewrite Z.add_0_r. set (m2 := mkMem ((o, io_u_bytes) :: (d, size) :: live m) (io_us m)).
  destruct Hme as [Hap Hw Hob].
  assert (Hw2 : Forall (within (live m2)) (regions m (held ++ (ps ≫= items)) ++ (ps ≫= leftovers))).
  { eapply Forall_impl; [exact Hw|]. intros r. apply within_mono. intros. by do 2 right. }
  destruct (new_unit_ok m2 (held ++ (ps ≫= items)) (ps ≫= leftovers) o d size Hd) as [Hm2 Hq2]; [| |exact Hob|].
  { change (regions m2 (held ++ (ps ≫= items))) with (regions m (held ++ (ps ≫= items))).
    apply Forall_cons in Hdo as [Hdo1 Hdo2]. split; [constructor; [done|by eapply fresh_apart]|].
    split; [by eapply fresh_apart|done]. }
  { constructor; [right; exists (o, io_u_bytes); split; [left|lia]|].
    constructor; [right; exists (d, size); split; [right; left|lia]|]. exact Hw2. }
  assert (Hnew : io_u_at (set_io_u m2 o d size) o = (d, size)) by (unfold io_u_at; cbn; by rewrite lookup_insert_eq).
  assert (Hold : forall q, q ∈ held -> io_u_at (set_io_u m2 o d size) q = io_u_at m q).
  { intros q Hq. apply io_u_at_ext, Hq2, elem_of_app. by left. }
  split; [|by rewrite Hnew]. split; try done.
  - intros i p Hp. apply (pool_ok_ext m).
    { intros q Hq. apply Hq2, elem_of_app. right. apply list_elem_of_bind. exists p. split; [done|].
      by eapply list_elem_of_lookup_2. }
    unfold held_of. rewrite filter_cons, Hnew. cbn [snd]. rewrite Hof, decide_False by done.
    fold (held_of (set_io_u m2 o d size) ps held i).
    rewrite (held_of_ext m (set_io_u m2 o d size) ps ps held i eq_refl); [by apply Hpo|].
    intros q Hq. apply Hq2, elem_of_app. by left.
  - intros q [->|Hq]%elem_of_cons; [rewrite Hnew; done|]. rewrite Hold by done. by apply Hhe.
  - intros q [->|Hq]%elem_of_cons; [rewrite Hnew; intros _; cbn; split; [left|right; left]|].
    rewrite Hold by done. intros Hn. destruct (Hdi q Hq Hn). cbn. split; by do 2 right.
  - intros q i [->|Hq]%elem_of_cons; [rewrite Hnew; cbn; congruence|]. rewrite Hold by done. by apply Hsl.
  - cbn. apply Forall_cons in Hdo as [Hdo1 Hdo2]. split; [split; [by constructor|split; done]|].
    constructor; [done|]. by constructor.
Qed.

Lemma apart_unique l b c x : apart l -> b ∈ l -> c ∈ l -> inside b x -> inside c x -> b = c.
Proof.
  induction l as [|r l IH]; intros Ha Hb Hc Hbx Hcx; [by apply not_elem_of_nil in Hb|].
  destruct Ha as [Hr Ha]. rewrite Forall_forall in Hr. apply elem_of_cons in Hb as [->|Hb], Hc as [->|Hc].
  - done.
  - exfalso. by apply (Hr c Hc x).
  - exfalso. by apply (Hr b Hb x).
  - by apply IH.
Qed.

(** A block given back: what lies apart from it stays within the others. *)
Lemma within_free bs r b :
  apart bs -> Forall (fun b => 0 < b.2) bs -> b ∈ bs -> disj r b -> within bs r ->
  within (filter (fun c => c.1 <> b.1) bs) r.
Proof.
  intros Ha Hp Hb Hd [?|(c & Hc & Hl & Hu)]; [by left|].
  destruct (decide (r.2 <= 0)) as [|Hr]; [by left|right]. exists c. split; [|done].
  apply list_elem_of_filter. split; [|done]. intros E. rewrite Forall_forall in Hp.
  assert (c = b) as ->.
  { apply (apart_unique bs _ _ b.1); [done..| |]; [pose proof (Hp c Hc)|pose proof (Hp b Hb)]; unfold inside; lia. }
  apply (Hd r.1); unfold inside; lia.
Qed.

Lemma apart_filter P `{!forall x, Decision (P x)} l : apart l -> apart (filter P l).
Proof.
  induction l as [|r l IH]; [done|]. intros [Hr Ha]. rewrite filter_cons. destruct (decide (P r)); [|by apply IH].
  split; [|by apply IH]. rewrite Forall_forall in Hr |- *. intros s [_ Hs]%list_elem_of_filter. by apply Hr.
Qed.

(** The blocks after [free_direct]. *)
Lemma free_direct_live m io :
  apart (live m) -> Forall (fun b => 0 < b.2) (live m) -> (io, io_u_bytes) ∈ live m -> io_u_at m io ∈ live m ->
  disj (io, io_u_bytes) (io_u_at m io) ->
  let bs := live (free_direct m io) in
  apart bs /\ Forall (fun b => 0 < b.2) bs /\
  (forall r, disj r (io_u_at m io) -> disj r (io, io_u_bytes) -> within (live m) r -> within bs r) /\
  (forall b, disj b (io_u_at m io) -> disj b (io, io_u_bytes) -> b ∈ live m -> b ∈ bs).
Proof.
  intros Ha Hp Hbo Hbd Hod. cbn. pose proof Hp as Hp'. rewrite Forall_forall in Hp'.
  assert (Hd : 0 < (io_u_at m io).2) by (by apply Hp').
  assert (Hp1 : Forall (fun b => 0 < b.2) (filter (fun b => b.1 <> (io_u_at m io).1) (live m))).
  { rewrite Forall_forall. intros b [_ ?]%list_elem_of_filter. by apply Hp'. }
  split_and!.
  - by apply apart_filter, apart_filter.
  - rewrite Forall_forall. intros b [_ [_ ?]%list_elem_of_filter]%list_elem_of_filter. by apply Hp'.
  - intros r Hr1 Hr2 Hr. apply (within_free _ r (io, io_u_bytes)); [by apply apart_filter|done| |done|by apply within_free].
    apply list_elem_of_filter. split; [|done]. cbn. intros E.
    apply (Hod io); unfold inside, io_u_bytes; cbn; lia.
  - intros b Hb1 Hb2 Hb. pose proof (Hp' b Hb). apply list_elem_of_filter. split; [|apply list_elem_of_filter; split; [|done]].
    + intros E. apply (Hb2 io); unfold inside, io_u_bytes; cbn; lia.
    + intros E. apply (Hb1 b.1); unfold inside; lia.
Qed.

Lemma mgr_put_direct ps m held held' io :
  mgr_ok ps m held -> held ≡ₚ io :: held' -> pool_of ps (io_u_at m io).2 = None ->
  IOMemMgr_PutIOUnit m ps io = Some (ps, free_direct m io) /\ mgr_ok ps (free_direct m io) held'.
Proof.
  intros [Hlen Hsz Hpo Hme Hhe Hdi Hsl [Hla Hlp]] Hh Hof. unfold IOMemMgr_PutIOUnit. rewrite Hof. split; [done|].
  assert (Hin : io ∈ held) by (rewrite Hh; left). destruct (Hdi io Hin Hof) as [Hbo Hbd].
  assert (Hsub : forall q, q ∈ held' -> q ∈ held) by (intros; rewrite Hh; by right).
  rewrite Hh in Hme. destruct Hme as [Hap Hw Hob]. set (rest := held' ++ (ps ≫= items)).
  change (regions m ((io :: held') ++ (ps ≫= items))) with ((io, io_u_bytes) :: io_u_at m io :: regions m rest) in Hap, Hw.
  cbn [app] in Hap, Hw. apply Forall_cons in Hw as [_ [_ Hw]%Forall_cons].
  destruct Hap as [[Ho1 Ho2]%Forall_cons [Hd Hap]]. rewrite Forall_forall in Ho2, Hd, Hw.
  destruct (free_direct_live m io Hla Hlp Hbo Hbd Ho1) as (Hla' & Hlp' & Hkeep & Hblock).
  set (m' := free_direct m io) in *.
  assert (Hobj : forall q, q ∈ rest -> (q, io_u_bytes) ∈ regions m rest ++ (ps ≫= leftovers)).
  { intros q Hq. apply elem_of_app. left. by apply object_in_regions. }
  assert (Hx : forall q, q ∈ rest -> io_us m' !! q = io_us m !! q).
  { intros q Hq. cbn. apply lookup_delete_ne. intros <-.
    apply (Ho2 (io, io_u_bytes) (Hobj io Hq) io); unfold inside, io_u_bytes; cbn; lia. }
  assert (Hr' : forall q, q ∈ held' -> q ∈ rest) by (intros; apply elem_of_app; by left).
  assert (Hat : forall q, q ∈ held' -> io_u_at m' q = io_u_at m q) by (intros; by apply io_u_at_ext, Hx, Hr').
  split; try done.
  - intros i p Hp. apply (pool_ok_ext m).
    { intros q Hq. apply Hx, elem_of_app. right. apply list_elem_of_bind. exists p. split; [done|].
      by eapply list_elem_of_lookup_2. }
    rewrite (held_of_ext m m' ps ps held' i eq_refl) by (intros; by apply Hx, Hr').
    replace (length (held_of m ps held' i)) with (length (held_of m ps held i)); [by apply Hpo|].
    rewrite (held_of_perm m ps held (io :: held') i Hh). unfold held_of.
    by rewrite filter_cons, decide_False by congruence.
  - assert (Hreg : regions m' rest = regions m rest) by (by apply regions_ext).
    split; fold rest; rewrite ?Hreg; [done| |].
    + apply Forall_forall. intros r Hr. apply Hkeep; [by apply disj_sym, Hd|by apply disj_sym, Ho2|by apply Hw].
    + intros q d. cbn. rewrite lookup_delete_Some. intros [Hq Hl]. specialize (Hob q d Hl).
      cbn in Hob. apply elem_of_cons in Hob as [->|?]; [done|done].
  - intros q Hq. rewrite Hat by done. by apply Hhe, Hsub.
  - intros q Hq. rewrite Hat by done. intros Hn. destruct (Hdi q (Hsub q Hq) Hn) as [Hq1 Hq2].
    assert (Hq3 : io_u_at m q ∈ regions m rest ++ (ps ≫= leftovers)).
    { apply elem_of_app. left. unfold regions. apply list_elem_of_bind. exists q. split; [right; left|by apply Hr']. }
    split; apply Hblock; try done; apply disj_sym; auto.
  - intros q i Hq. rewrite Hat by done. by apply Hsl, Hsub.
Qed.

(** ** A server's run *)

Definition fresh_pool (size : Z) : IOMem R :=
  mkIOMem (MemBuffer_init io_u_bytes (kMaxMemSize_ / size) true).2
    (Arena_new (mkArenaOptions kAlignSize (Z.shiftl 4 20) (Z.shiftl 8 20) true)) size (kMaxMemSize_ / size).

Lemma Init_loop_spec n : forall index max_slab acc,
  0 <= index -> 0 <= max_slab < 4294963200 -> index <= max_slab / 4096 < index + Z.of_nat n ->
  IOMemMgr_Init_loop n index max_slab acc =
  Some (Status_default, acc ++
    ((fun j => fresh_pool (kIOUnitSize_ * (index + Z.of_nat j + 1))) <$> seq 0 (Z.to_nat (max_slab / 4096 - index)))).
Proof.
  induction n as [|n IH]; intros index max_slab acc Hi Hm Hn; [lia|]. cbn [IOMemMgr_Init_loop].
  change kIOUnitSize_ with 4096 in *. rewrite (wrap32_small (4096 * _)) by (unfold is_u32; lia).
  destruct (Z.ltb_spec max_slab (4096 * (index + 1))).
  - replace (Z.to_nat (max_slab / 4096 - index)) with 0%nat by lia. cbn. by rewrite app_nil_r.
  - unfold IOMem_Init. rewrite (proj2 (Z.eqb_neq _ _)) by lia. cbn [mbind option_bind].
    change (negb (ok Status_default)) with false. cbv iota. rewrite IH by lia. do 2 f_equal. rewrite <- app_assoc. f_equal.
    replace (Z.to_nat (max_slab / 4096 - index)) with (S (Z.to_nat (max_slab / 4096 - (index + 1)))) by lia.
    cbn [seq fmap list_fmap]. rewrite <- fmap_S_seq, <- list_fmap_compose. cbn [app]. f_equal.
    + unfold fresh_pool. do 4 f_equal. all: lia.
    + apply list_fmap_ext. intros j x _. cbn. f_equal. lia.
Qed.

(** Getting and returning units; [held] are the units in use. *)
Inductive pool_step : relation (list (IOMem R) * Mem * list Z) :=
  | step_get ps m held size st io ps' m' :
      is_u64 size -> IOMemMgr_GetIOUnitBulk m ps size = Some (st, io, ps', m') ->
      pool_step (ps, m, held) (ps', m', if ok st then io :: held else held)
  | step_put ps m held held' io ps' m' :
      held ≡ₚ io :: held' -> IOMemMgr_PutIOUnit m ps io = Some (ps', m') ->
      pool_step (ps, m, held) (ps', m', held').

Lemma pool_step_ok s s' :
  pool_step s s' -> (let '(ps, m, held) := s in mgr_ok ps m held) -> let '(ps, m, held) := s' in mgr_ok ps m held.
Proof.
  destruct 1 as [ps m held size st io ps' m' Hs E|ps m held held' io ps' m' Hh E]; intros Hok.
  - destruct (pool_of ps size) as [i|] eqn:Ho.
    + destruct (mgr_get_pool ps m held size i Hok Ho) as (st1 & io1 & ps1 & m1 & E1 & Hr).
      rewrite E in E1. injection E1 as <- <- <- <-. destruct (ok st); [by destruct Hr|done].
    + pose proof (mgr_get_direct ps m held size st io ps' m' Hok Hs Ho E) as Hr. destruct (ok st); [by destruct Hr|done].
  - destruct (pool_of ps (io_u_at m io).2) as [i|] eqn:Ho.
    + destruct (mgr_put_pool ps m held held' io i Hok Hh Ho) as (ps1 & E1 & Hr & _). rewrite E in E1. by injection E1 as <- <-.
    + destruct (mgr_put_direct ps m held held' io Hok Hh Ho) as [E1 Hr]. rewrite E in E1. by injection E1 as -> ->.
Qed.

Lemma empties_ok bs l : Forall (fun r => r.2 = 0) l -> apart l /\ Forall (within bs) l.
Proof.
  induction 1 as [|r l Hr Hl [IH1 IH2]]; [done|]. split; [split; [|done]|constructor; [left; lia|done]].
  apply Forall_forall. intros s _ x Hx. unfold inside in Hx. lia.
Qed.

(** A pool after [Init] whose ring was created. *)
Lemma fresh_pool_ok m size :
  4096 <= size < 4294967296 -> mb_ring (mem_buffer_ (fresh_pool size)) <> None ->
  pool_ok m (fresh_pool size) 0 /\ items (fresh_pool size) = [] /\ Forall (fun r => r.2 = 0) (leftovers (fresh_pool size)).
Proof.
  intros Hs. unfold fresh_pool, MemBuffer_init. set (n := kMaxMemSize_ / size).
  assert (Hn : 0 <= n <= 4294967295) by (unfold n, kMaxMemSize_; split; [apply Z.div_pos; lia|apply Z.div_le_upper_bound; lia]).
  destruct (rte_ring_create n) as [r|] eqn:Er; [intros _|done]. apply rte_create_law in Er as [Hi Hc].
  unfold items, leftovers, buffer_unused. cbn. split_and!; [|done|by repeat constructor].
  split; cbn; try done; unfold items; cbn; rewrite ?Hi; try done; try lia.
  - exists r. eexists. split_and!; done.
  - intros io []%not_elem_of_nil.
Qed.

Lemma Init_ok max_slab ps m :
  0 <= max_slab < 4294963200 -> IOMemMgr_Init max_slab = Some (Status_default, ps) ->
  Forall (fun p => mb_ring (mem_buffer_ p) <> None) ps ->
  io_us m = ∅ -> apart (live m) -> Forall (fun b => 0 < b.2) (live m) ->
  mgr_ok ps m [] /\ Z.of_nat (length ps) = max_slab / 4096.
Proof.
  intros Hm E Hr Hi Ha Hp. unfold IOMemMgr_Init in E. change kIOUnitSize_ with 4096 in E.
  rewrite Init_loop_spec in E by lia. injection E as <-. cbn [app] in *.
  set (k := Z.to_nat (max_slab / 4096 - 0)) in *. set (ps := _ <$> _) in *.
  assert (Hk : length ps = k) by (unfold ps; by rewrite length_fmap, length_seq).
  assert (Hlook : forall i p, ps !! i = Some p -> p = fresh_pool (kIOUnitSize_ * (Z.of_nat i + 1)) /\
            pool_ok m p 0 /\ items p = [] /\ Forall (fun r => r.2 = 0) (leftovers p)).
  { intros i p Hip. assert (Hnr : mb_ring (mem_buffer_ p) <> None).
    { rewrite Forall_forall in Hr. apply Hr. by eapply list_elem_of_lookup_2. }
    revert Hip. unfold ps. rewrite list_lookup_fmap_Some. intros (j & -> & [-> Hj]%lookup_seq).
    split; [done|]. apply fresh_pool_ok; [change kIOUnitSize_ with 4096; lia|done]. }
  assert (Hitems : ps ≫= items = []).
  { apply elem_of_nil_inv. intros io (p & Hio & [i Hip]%list_elem_of_lookup)%list_elem_of_bind.
    destruct (Hlook i p Hip) as (_ & _ & E & _). rewrite E in Hio. by apply not_elem_of_nil in Hio. }
  destruct (empties_ok (live m) (ps ≫= leftovers)) as [He1 He2].
  { apply Forall_forall. intros r (p & Hpr & [i Hip]%list_elem_of_lookup)%list_elem_of_bind.
    destruct (Hlook i p Hip) as (_ & _ & _ & E). rewrite Forall_forall in E. by apply E. }
  split; [|lia]. split; try (by intros ? []%not_elem_of_nil); try (by intros ? ? []%not_elem_of_nil).
  - lia.
  - intros i p Hip. by destruct (Hlook i p Hip) as (-> & _).
  - intros i p Hip. by destruct (Hlook i p Hip) as (_ & ? & _).
  - rewrite Hitems. split; [done|done|]. rewrite Hi. intros io d. by rewrite lookup_empty.
  - done.
Qed.

Lemma pool_step_length s s' : pool_step s s' -> length s'.1.1 = length s.1.1.
Proof.
  destruct 1 as [ps m held size st io ps' m' _ E|ps m held held' io ps' m' _ E]; cbn.
  - revert E. unfold IOMemMgr_GetIOUnitBulk. destruct (pool_of ps size) as [i|].
    + destruct (ps !! i) as [p|]; [|done]. cbn [mbind option_bind].
      destruct (IOMem_GetIOUnitBulk m p) as [[[[? ?] p'] ?]|]; [|done]. intros [= _ _ <- _]. apply length_insert.
    + destruct (alloc_direct m size) as [[[? ?] ?]|]; [|done]. by intros [= _ _ <- _].
  - revert E. unfold IOMemMgr_PutIOUnit. destruct (pool_of ps _) as [i|]; [|by intros [= <- _]].
    destruct (ps !! i) as [p|]; [|done]. cbn [mbind option_bind].
    destruct (IOMem_PutIOUnit p io) as [[? p']|]; [|done]. intros [= <- _]. apply length_insert.
Qed.

End Pools.

(** A request of no bytes passes the checks of the engine, but its unit is
    refused whatever the memory, and the worker retries for ever. *)
Lemma zero_size_refused `{DmaLaws} {R} (ps : list (IOMem R)) `{RteRing R} m :
  Z.of_nat (length ps) < 4294967295 ->
  IOMemMgr_GetIOUnitBulk m ps 0 = Some (out_of_memory, 0, ps, m).
Proof.
  intros Hl. unfold IOMemMgr_GetIOUnitBulk. assert (pool_of ps 0 = None) as ->.
  { unfold pool_of. change (get_index 0) with 4294967295. by rewrite (proj2 (Z.ltb_ge _ _)) by lia. }
  unfold alloc_direct, AllocateDirect, allocate_mem. change (wrap64 (0 * Z.of_nat 1)) with 0.
  destruct (spdk_dma_zmalloc (live m) 0) as [a|] eqn:E; [|done]. apply dma_block in E as (? & _). lia.
Qed.

(** ** Instances *)

(** Blocks one after the other. *)
Definition block_end (bs : list (Z * Z)) : Z := foldr (fun b e => Z.max (b.1 + b.2) e) 0 bs.
Definition next_block (bs : list (Z * Z)) (n : Z) : option Z :=
  let a := block_end bs + 64 in
  if (0 <? n) && (a + n <=? u64_max) then Some a else None.

#[local] Instance bump : DmaAlloc := { spdk_dma_zmalloc := next_block; operator_new := next_block }.

Lemma block_end_spec bs : 0 <= block_end bs /\ forall b, b ∈ bs -> b.1 + b.2 <= block_end bs.
Proof.
  induction bs as [|c bs [IH1 IH2]]; [split; [done|intros b []%not_elem_of_nil]|].
  change (block_end (c :: bs)) with (Z.max (c.1 + c.2) (block_end bs)).
  split; [lia|]. intros b [->|Hb]%elem_of_cons; [lia|]. specialize (IH2 b Hb). lia.
Qed.

Lemma next_block_law bs n a :
  next_block bs n = Some a -> 0 < n /\ 0 < a /\ a + n <= u64_max /\ Forall (disj (a, n)) bs.
Proof.
  unfold next_block. destruct (Z.ltb_spec 0 n), (Z.leb_spec (block_end bs + 64 + n) u64_max); try done. cbn. intros [= <-].
  destruct (block_end_spec bs) as [H1 H2]. split_and!; [lia..|]. apply Forall_forall. intros b Hb x.
  specialize (H2 b Hb). unfold inside. cbn. lia.
Qed.

#[local] Instance bump_laws : DmaLaws.
Proof.
  split; [apply next_block_law|]. intros bs n a (_ & ? & _ & ?)%next_block_law. done.
Qed.

(** A ring as a list with its capacity. *)
#[local] Instance list_ring : RteRing (Z * list Z) := {
  rte_ring_create n := Some (n, []);
  rte_ring_enqueue_bulk r l :=
    if Z.of_nat (length r.2 + length l) <=? r.1 then (Z.of_nat (length l), (r.1, (r.2 ++ l)%list)) else (0, r);
  rte_ring_dequeue_bulk r k :=
    if (k <=? length r.2)%nat then (Z.of_nat k, take k r.2, (r.1, drop k r.2)) else (0, [], r);
  rte_ring_dequeue_burst r k :=
    (Z.of_nat (length (take k r.2)), take k r.2, (r.1, drop k r.2))
}.

#[local] Program Instance list_ring_laws : RteRingLaws (Z * list Z) := {
  rte_items r := r.2; rte_capacity r := r.1
}.
Next Obligation. intros n r [= <-]. done. Qed.
Next Obligation. intros [c q] l n r'. cbn. destruct (_ <=? _); intros [= <- <-]; done. Qed.
Next Obligation.
  intros [c q] k n l r'. cbn. destruct (Nat.leb_spec k (length q)); intros [= <- <- <-]; [|done].
  cbn. split_and!; [done..|by rewrite take_drop|]. rewrite length_take. lia.
Qed.

Definition demo_pools : list (IOMem (Z * list Z)) := default [] (snd <$> IOMemMgr_Init 8192).
Definition demo_mem : Mem := mkMem [] ∅.
Definition demo_get (s : list (IOMem (Z * list Z)) * Mem * list Z) (size : Z) :=
  match IOMemMgr_GetIOUnitBulk s.1.2 s.1.1 size with
  | Some (st, io, ps, m) => (ps, m, if ok st then io :: s.2 else s.2)
  | None => s
  end.
Definition demo_put (s : list (IOMem (Z * list Z)) * Mem * list Z) :=
  match s.2 with
  | io :: held =>
      match IOMemMgr_PutIOUnit s.1.2 s.1.1 io with Some (ps, m) => (ps, m, held) | None => s end
  | [] => s
  end.

(** Two units of 4KB and a large one; the large one goes back. *)
Definition demo_units := demo_put (demo_get (demo_get (demo_get (demo_pools, demo_mem, []) 4096) 4096) 20480).

Lemma demo_get_step s size :
  is_u64 size -> IOMemMgr_GetIOUnitBulk s.1.2 s.1.1 size <> None -> pool_step s (demo_get s size).
Proof.
  intros Hs Hn. destruct s as [[ps m] held]. unfold demo_get. cbn in *.
  destruct (IOMemMgr_GetIOUnitBulk m ps size) as [[[[st io] ps'] m']|] eqn:E; [|done]. by apply (step_get _ _ _ size).
Qed.

Lemma demo_put_step s :
  match s.2 with io :: _ => IOMemMgr_PutIOUnit s.1.2 s.1.1 io <> None | [] => False end -> pool_step s (demo_put s).
Proof.
  destruct s as [[ps m] [|io held]]; cbn; [done|]. intros Hn. unfold demo_put. cbn.
  destruct (IOMemMgr_PutIOUnit m ps io) as [[ps' m']|] eqn:E; [|done]. by apply (step_put _ _ _ held io).
Qed.


(** Several units at once are not limited by the ring: three are made for a
    ring of one, and cannot be returned. *)
Lemma bulk_exceeds_ring :
  let b := (MemBuffer_init (R := Z * list Z) 16 1 true).2 in
  exists units b' m', GetsBulk demo_mem b 3 = Some (Status_default, units, b', m') /\
    num_units_ b' = 3 /\ exists st b'', Puts b' units = Some (st, b'') /\ ok st = false.
Proof. vm_compute. repeat eexists. Qed.

(** Without huge pages the arguments of [aligned_alloc] are swapped: the
    second unit lies outside the block that was allocated. *)
Lemma swapped_aligned_alloc :
  let a := Arena_new (mkArenaOptions 4096 1048576 4194304 false) in
  exists addrs a' m', Arena_Allocate demo_mem a 4096 2 = (Status_default, addrs, a', m') /\
    live m' = [(64, 4096)] /\ addrs = [64; 64 + 4096].
Proof. vm_compute. repeat eexists. Qed.
