(* ===== verification/Sanitizer.v ===== *)
(** * The sanitizer

    [Sanitizer] (src/tools/sanitizer/sanitizer.h and .cpp): wipes a device with
    zeroes, or verifies that it is zero, in parallel jobs on equal parts.  A
    step is one [pwrite] or [pread] of a job with its outcome: all the bytes, or
    a failure that reached some of them.  The device is a function from positions to
    bytes, and its sector count is what [ioctl] returned.  Opening the device and
    creating the threads are taken to succeed: where they fail [Run] returns -1
    before it looks at the device. *)

From Stdlib Require Import Ascii.
From S2P Require Import Prelude.

#[local] Open Scope Z_scope.

Record Options : Type := mkOptions { num_jobs : Z; block_size : Z; range_size : Z }.

Definition kErrorRetrys : Z := 3.
Definition nul : ascii := "000"%char.

(** What [Run] computes before the jobs start: the target and the part. *)
Definition target_size (o : Options) (device_size : Z) : Z :=
  let range := if range_size o =? 0 then device_size else range_size o in
  if device_size <=? range then device_size else range.
Definition part_size (o : Options) (target : Z) : Z := wrap64 (wrap64 (target + num_jobs o) - 1) / num_jobs o.

Inductive Job : Type := Running (start retry_count : Z) | Ended (rc : Z).
Inductive Outcome : Type := AllBytes | Failed (reached : Z -> bool).

Definition zero_range (disk : Z -> ascii) (start len : Z) : Z -> ascii :=
  fun x => if in_range start len x then nul else disk x.
Definition zero_some (disk : Z -> ascii) (start len : Z) (reached : Z -> bool) : Z -> ascii :=
  fun x => if in_range start len x && reached x then nul else disk x.

(** [memcmp] with zeroes. *)
Definition all_zero (disk : Z -> ascii) (start len : Z) : bool :=
  forallb (fun i => Ascii.eqb (disk (start + Z.of_nat i)) nul) (seq 0 (Z.to_nat len)).

Section Sanitizer.
Context (o : Options) (do_verify : bool) (target : Z).

Definition part_start (index : nat) : Z := wrap64 (Z.of_nat index * part_size o target).
Definition part_end (index : nat) : Z :=
  let e := wrap64 (part_start index + part_size o target) in if target <=? e then target else e.

(** The first statements of [doJob]. *)
Definition job_init (index : nat) : Job :=
  if target <=? part_start index then Ended 0 else Running (part_start index) 0.

(** One round of the loop of [doJob]. *)
Definition job_round (index : nat) (disk : Z -> ascii) (start retry_count : Z) (out : Outcome)
    : Job * (Z -> ascii) :=
  let end_ := part_end index in
  if negb (start <? end_) then (Ended 0, disk)
  else
    let len := if block_size o <=? end_ - start then block_size o else end_ - start in
    let again := if retry_count <? kErrorRetrys then Running start (retry_count + 1) else Ended (-1) in
    let next := Running (wrap64 (start + len)) 0 in
    if do_verify then
      match out with
      | AllBytes => (if all_zero disk start len then next else Ended (-1), disk)
      | Failed _ => (again, disk)
      end
    else
      match out with
      | AllBytes => (next, zero_range disk start len)
      | Failed reached => (again, zero_some disk start len reached)
      end.

(** The jobs in any order. *)
Inductive sanitizer_step : (Z -> ascii) * list Job -> (Z -> ascii) * list Job -> Prop :=
  | job_step disk jobs i start retry out j disk' :
      jobs !! i = Some (Running start retry) -> job_round i disk start retry out = (j, disk') ->
      sanitizer_step (disk, jobs) (disk', <[i := j]> jobs).

Definition jobs_init : list Job := job_init <$> seq 0 (Z.to_nat (num_jobs o)).

(** [result_] once the jobs are joined. *)
Definition result (jobs : list Job) : Z :=
  if forallb (fun j => match j with Ended rc => rc =? 0 | _ => true end) jobs then 0 else -1.

Definition joined (jobs : list Job) : Prop := Forall (fun j => match j with Ended _ => True | _ => False end) jobs.

(** ** Invariant *)

Definition zeroed (disk : Z -> ascii) (a b : Z) : Prop := forall x, a <= x < b -> disk x = nul.

Definition job_ok (disk : Z -> ascii) (index : nat) (j : Job) : Prop :=
  match j with
  | Running start retry =>
      part_start index <= start <= part_end index /\ part_start index < target /\ 0 <= retry <= kErrorRetrys /\
      zeroed disk (part_start index) start
  | Ended rc => rc = 0 -> part_start index < target -> zeroed disk (part_start index) (part_end index)
  end.

(** A disk that only gained zeroes, all of them in the target. *)
Definition wiped_more (d d' : Z -> ascii) : Prop :=
  (forall x, d' x = d x \/ d' x = nul) /\ (forall x, ~ (0 <= x < target) -> d' x = d x).

(** Work left in a job: four rounds for each byte bound the retries. *)
Definition job_work (j : Job) : Z :=
  match j with Running start retry => 4 * (target - start) + (4 - retry) | Ended _ => 0 end.

Definition total_work (jobs : list Job) : Z := foldr (fun j w => job_work j + w) 0 jobs.

Record state_ok (disk0 : Z -> ascii) (s : (Z -> ascii) * list Job) : Prop := {
  so_jobs : forall i j, s.2 !! i = Some j -> job_ok s.1 i j;
  so_count : length s.2 = Z.to_nat (num_jobs o);
  so_wiped : wiped_more disk0 s.1;
  so_verify : do_verify = true -> s.1 = disk0
}.

(** Sizes of a device: the parts do not overflow. *)
Hypothesis Hjobs : 0 < num_jobs o < 2147483648.
Hypothesis Hblock : 0 < block_size o.
Hypothesis Htarget : 0 <= target < 9223372036854775808.

Lemma part_size_spec :
  0 <= part_size o target /\ target <= num_jobs o * part_size o target < target + num_jobs o.
Proof.
  unfold part_size. rewrite (wrap64_small (target + num_jobs o)) by (unfold is_u64, u64_max; lia).
  rewrite wrap64_small by (unfold is_u64, u64_max; lia).
  pose proof (Z.div_mod (target + num_jobs o - 1) (num_jobs o) ltac:(lia)).
  pose proof (Z.mod_pos_bound (target + num_jobs o - 1) (num_jobs o) ltac:(lia)).
  split; [apply Z.div_pos; lia|lia].
Qed.

Lemma part_bounds (i : nat) : (i < Z.to_nat (num_jobs o))%nat ->
  part_start i = Z.of_nat i * part_size o target /\
  (part_start i < target -> part_end i = Z.min target (part_start i + part_size o target)) /\
  0 <= part_start i /\ part_end i <= target.
Proof.
  intros Hi. destruct part_size_spec as [Hp Ht]. unfold part_end, part_start.
  assert (Hs : 0 <= Z.of_nat i * part_size o target < 9223372036854775808 + 2147483648) by nia.
  rewrite (wrap64_small (Z.of_nat i * _)) by (unfold is_u64, u64_max; lia). split; [done|].
  assert (part_size o target <= 9223372036854775808) by nia.
  split_and!; [intros Hlt|lia|destruct (Z.leb_spec target (wrap64 (Z.of_nat i * part_size o target + part_size o target))); lia].
  rewrite wrap64_small by (unfold is_u64, u64_max; lia).
  destruct (Z.leb_spec target (Z.of_nat i * part_size o target + part_size o target)); lia.
Qed.

Lemma all_zero_spec disk start len : 0 <= len -> all_zero disk start len = true -> zeroed disk start (start + len).
Proof.
  intros Hl Hz x Hx. unfold all_zero in Hz. rewrite forallb_forall in Hz.
  specialize (Hz (Z.to_nat (x - start))). rewrite Ascii.eqb_eq in Hz.
  replace (start + Z.of_nat (Z.to_nat (x - start))) with x in Hz by lia.
  apply Hz, in_seq. lia.
Qed.

Lemma wiped_more_zeroed d d' a b : wiped_more d d' -> zeroed d a b -> zeroed d' a b.
Proof. intros [Hd _] Hz x Hx. destruct (Hd x) as [-> | ->]; [by apply Hz|done]. Qed.

Lemma wiped_more_job d d' i j : wiped_more d d' -> job_ok d i j -> job_ok d' i j.
Proof.
  intros Hd. destruct j as [start retry|rc]; simpl; [|eauto using wiped_more_zeroed].
  intros (? & ? & ? & ?). eauto using wiped_more_zeroed.
Qed.

Lemma zero_some_wiped d start len reached :
  0 <= start -> start + len <= target -> wiped_more d (zero_some d start len reached).
Proof.
  unfold wiped_more, zero_some. intros ? ?. split; intros x; destruct (in_range start len x) eqn:E; simpl; auto.
  - destruct (reached x); auto.
  - apply in_range_spec in E. lia.
Qed.

Lemma zero_range_wiped d start len :
  0 <= start -> start + len <= target ->
  wiped_more d (zero_range d start len) /\ zeroed (zero_range d start len) start (start + len).
Proof.
  unfold wiped_more, zero_range, zeroed. intros ? ?. split_and!; intros x; destruct (in_range start len x) eqn:E; auto.
  - apply in_range_spec in E. lia.
  - apply in_range_false in E. lia.
Qed.

Lemma zeroed_app d a b c : zeroed d a b -> zeroed d b c -> zeroed d a c.
Proof. intros H1 H2 x Hx. destruct (Z.lt_ge_cases x b); [apply H1|apply H2]; lia. Qed.

(** One round keeps the job's promise, only wipes, and leaves less work. *)
Lemma job_round_ok i d start retry out j d' :
  (i < Z.to_nat (num_jobs o))%nat -> job_ok d i (Running start retry) ->
  job_round i d start retry out = (j, d') ->
  job_ok d' i j /\ wiped_more d d' /\ (do_verify = true -> d' = d) /\ 0 <= job_work j < job_work (Running start retry).
Proof.
  intros Hi ((Hs1 & Hs2) & Hlt & Hr & Hz) Hround.
  destruct (part_bounds i Hi) as (Hps & Hpe & Hp0 & Hpt).
  unfold job_round in Hround. assert (Hrefl : wiped_more d d) by (split; auto).
  destruct (Z.ltb_spec start (part_end i)) as [Hse|Hse]; simpl negb in Hround; cbv match in Hround.
  2: { injection Hround as <- <-. simpl. split_and!; auto; try lia; [|unfold kErrorRetrys in Hr; lia..].
       intros _ _ x Hx. apply Hz. lia. }
  set (len := if block_size o <=? part_end i - start then block_size o else part_end i - start) in *.
  assert (Hlen : 0 < len <= part_end i - start) by (unfold len; destruct (Z.leb_spec (block_size o) (part_end i - start)); lia).
  rewrite wrap64_small in Hround by (unfold is_u64, u64_max; lia).
  set (again := if retry <? kErrorRetrys then _ else _) in Hround.
  assert (Hagain : forall d1, wiped_more d d1 -> job_ok d1 i again /\ 0 <= job_work again < job_work (Running start retry)).
  { intros d1 Hd1. unfold again. unfold kErrorRetrys in *.
    destruct (Z.ltb_spec retry 3); simpl; unfold kErrorRetrys; split; try lia.
    split_and!; try lia. by eapply wiped_more_zeroed. }
  assert (Hnext : forall d1, wiped_more d d1 -> zeroed d1 start (start + len) ->
    job_ok d1 i (Running (start + len) 0) /\ 0 <= job_work (Running (start + len) 0) < job_work (Running start retry)).
  { intros d1 Hd1 Hz1. unfold kErrorRetrys in *. simpl. unfold kErrorRetrys. split; [|lia]. split_and!; try lia.
    eapply zeroed_app; [by eapply wiped_more_zeroed|done]. }
  destruct do_verify, out as [|reached]; injection Hround as <- <-.
  - destruct (all_zero d start len) eqn:E; [|simpl; unfold kErrorRetrys in Hr; split_and!; auto; lia].
    apply all_zero_spec in E; [|lia]. destruct (Hnext d Hrefl E); auto.
  - destruct (Hagain d Hrefl); auto.
  - destruct (zero_range_wiped d start len) as [Hw Hzz]; [lia..|]. destruct (Hnext _ Hw Hzz). split_and!; try done; lia.
  - pose proof (zero_some_wiped d start len reached ltac:(lia) ltac:(lia)) as Hw.
    destruct (Hagain _ Hw). split_and!; try done; lia.
Qed.

Lemma total_work_insert jobs i j j' :
  jobs !! i = Some j -> total_work (<[i := j']> jobs) = total_work jobs - job_work j + job_work j'.
Proof.
  revert i; induction jobs as [|k jobs IH]; intros [|i] H; simplify_eq/=; [lia|]. rewrite (IH _ H). lia.
Qed.

Lemma state_ok_step disk0 s s' :
  state_ok disk0 s -> sanitizer_step s s' -> state_ok disk0 s' /\ total_work s'.2 < total_work s.2.
Proof.
  intros [Hj Hc [Hw1 Hw2] Hv]; destruct 1 as [d jobs i start retry out j d' Hi Hround]; simpl in *.
  pose proof (lookup_lt_Some _ _ _ Hi) as Hlt. rewrite Hc in Hlt.
  destruct (job_round_ok i d start retry out j d' Hlt (Hj _ _ Hi) Hround) as (Hok & [Hd1 Hd2] & Hsame & Hwork).
  split; [constructor; simpl|rewrite (total_work_insert _ _ _ _ Hi); lia].
  - intros k jk [[-> [-> _]]|[_ Hk]]%list_lookup_insert_Some; [done|].
    by apply (wiped_more_job d); [split|apply Hj].
  - by rewrite length_insert.
  - split; [intros x; destruct (Hd1 x) as [-> | ->]; auto|intros x Hx; rewrite Hd2; auto].
  - intros Hdv. rewrite Hsame; auto.
Qed.

Lemma job_work_nonneg d i j : (i < Z.to_nat (num_jobs o))%nat -> job_ok d i j -> 0 <= job_work j.
Proof.
  intros Hi. destruct (part_bounds i Hi) as (_ & _ & _ & ?).
  destruct j; simpl; unfold kErrorRetrys; lia.
Qed.

Lemma total_work_nonneg disk0 s : state_ok disk0 s -> 0 <= total_work s.2.
Proof.
  intros [Hj Hc _ _]. assert (Hall : forall j, In j s.2 -> 0 <= job_work j).
  { intros j [i Hi]%list_elem_of_In%list_elem_of_lookup. eapply job_work_nonneg; [|by apply Hj].
    rewrite <- Hc. by eapply lookup_lt_Some. }
  clear -Hall. induction s.2 as [|j l IH]; simpl in *; [lia|]. pose proof (IH ltac:(auto)).
  assert (0 <= job_work j) by auto. lia.
Qed.

Lemma state_ok_init disk0 : state_ok disk0 (disk0, jobs_init).
Proof.
  constructor; simpl; [|by unfold jobs_init; rewrite length_fmap, length_seq|split; auto|done].
  unfold jobs_init. intros i j. rewrite list_lookup_fmap. intros (k & [Hk Hlt]%lookup_seq & ->)%fmap_Some.
  simpl in Hk. subst k. destruct (part_bounds i Hlt) as (_ & He & H0 & _). unfold job_init.
  destruct part_size_spec as [? _].
  destruct (Z.leb_spec target (part_start i)); simpl; [lia|]. unfold kErrorRetrys.
  split_and!; try lia. intros x Hx. lia.
Qed.

Lemma init_work : total_work jobs_init <= num_jobs o * (4 * target + 4).
Proof.
  unfold jobs_init. assert (H : forall k n, total_work (job_init <$> seq k n) <= Z.of_nat n * (4 * target + 4)).
  { intros k n; revert k; induction n as [|n IH]; intros k; [simpl; lia|].
    change (total_work (job_init <$> seq k (S n))) with (job_work (job_init k) + total_work (job_init <$> seq (S k) n)).
    specialize (IH (S k)).
    assert (0 <= part_start k) by (unfold part_start, wrap64; apply Z.mod_pos_bound; lia).
    unfold job_init at 1; destruct (Z.leb_spec target (part_start k)); simpl job_work; lia. }
  specialize (H 0%nat (Z.to_nat (num_jobs o))). lia.
Qed.

Lemma reach_ok disk0 s : rtc sanitizer_step (disk0, jobs_init) s -> state_ok disk0 s.
Proof.
  apply (rtc_ind_r (fun s => state_ok disk0 s)); [apply state_ok_init|].
  intros s1 s2 _ Hs H. by apply (state_ok_step disk0 s1 s2).
Qed.

Lemma run_length disk0 n s s' :
  state_ok disk0 s -> nsteps sanitizer_step n s s' -> Z.of_nat n <= total_work s.2.
Proof.
  intros Hs Hn; induction Hn as [s|n s1 s2 s3 Hstep _ IH]; [by apply (total_work_nonneg disk0)|].
  destruct (state_ok_step disk0 _ _ Hs Hstep) as [H2 Hw]. specialize (IH H2). lia.
Qed.

(** The parts tile the target. *)
Lemma parts_cover x : 0 <= x < target ->
  exists i, (i < Z.to_nat (num_jobs o))%nat /\ part_start i <= x < part_end i.
Proof.
  intros Hx. destruct part_size_spec as [Hp Ht]. assert (Hpos : 0 < part_size o target) by nia.
  exists (Z.to_nat (x / part_size o target)).
  pose proof (Z.div_mod x (part_size o target) ltac:(lia)) as Hd.
  pose proof (Z.mod_pos_bound x (part_size o target) Hpos) as Hm.
  pose proof (Z.div_pos x (part_size o target) ltac:(lia) Hpos) as Hq.
  assert (Hi : (Z.to_nat (x / part_size o target) < Z.to_nat (num_jobs o))%nat) by (apply Z2Nat.inj_lt; [lia..|nia]).
  split; [done|]. destruct (part_bounds _ Hi) as (Hs & He & _). rewrite Z2Nat.id in Hs by lia.
  rewrite He by nia. nia.
Qed.

Lemma joined_zero disk0 s :
  state_ok disk0 s -> joined s.2 -> result s.2 = 0 -> zeroed s.1 0 target.
Proof.
  intros [Hj Hc _ _] Hjoin Hres x Hx. destruct (parts_cover x Hx) as (i & Hi & Hxi).
  rewrite <- Hc in Hi. apply lookup_lt_is_Some in Hi as [j Hlk].
  pose proof (Forall_lookup_1 _ _ _ _ Hjoin Hlk) as He. destruct j as [|rc]; [done|].
  unfold result in Hres. destruct (forallb _ _) eqn:Ef; [|done]. rewrite forallb_forall in Ef.
  specialize (Ef _ (proj1 (list_elem_of_In _ _) (list_elem_of_lookup_2 _ _ _ Hlk))). apply Z.eqb_eq in Ef.
  eapply (Hj _ _ Hlk); lia || done.
Qed.

Lemma not_joined_step disk jobs : ~ joined jobs -> exists s', sanitizer_step (disk, jobs) s'.
Proof.
  intros Hn. assert (Hr : exists i start retry, jobs !! i = Some (Running start retry)).
  { unfold joined in Hn. induction jobs as [|[start retry|rc] jobs IH]; [by destruct Hn|by exists 0%nat, start, retry|].
    destruct IH as (i & start & retry & Hi); [intros H; apply Hn; by constructor|]. by exists (S i), start, retry. }
  destruct Hr as (i & start & retry & Hi).
  destruct (job_round i disk start retry AllBytes) as [j d'] eqn:E. eauto using job_step.
Qed.
End Sanitizer.

(** [Run] up to the launch of the jobs: the target and the jobs, or the refusal
    of a job count that is not positive. *)
Definition Run_launch (o : Options) (sector_count : Z) : option (Z * list Job) :=
  let device_size := wrap64 (512 * sector_count) in
  if num_jobs o <=? 0 then None
  else let target := target_size o device_size in Some (target, jobs_init o target).

(** A block size of zero makes no progress: the job repeats the same round. *)
Lemma zero_block_spins n target i disk start retry :
  start < part_end (mkOptions n 0 0) target i -> is_u64 start ->
  (job_round (mkOptions n 0 0) false target i disk start retry AllBytes).1 = Running start 0.
Proof.
  intros H Hs. unfold job_round. destruct (Z.ltb_spec start (part_end (mkOptions n 0 0) target i)); [|lia].
  cbn [negb block_size]. destruct (Z.leb_spec 0 (part_end (mkOptions n 0 0) target i - start)); [|lia].
  cbn [fst]. by rewrite Z.add_0_r, wrap64_small.
Qed.

(** C33: whatever the order in which the jobs of the sanitizer run and whichever
    of their reads and writes fail, the run ends within a bounded number of
    rounds, some job can move until all have ended, no byte outside the target
    is changed, verifying changes nothing at all, and when the jobs have ended
    and [Run] returns 0 every byte of the target is zero. *)
Theorem sanitizer_wipes (o : Options) (do_verify : bool) (sector_count target : Z) (jobs0 : list Job)
    (disk0 disk : Z -> ascii) (jobs : list Job) :
  Run_launch o sector_count = Some (target, jobs0) ->
  num_jobs o < 2147483648 -> 0 < block_size o -> 0 <= range_size o -> 0 <= sector_count < 18014398509481984 ->
  rtc (sanitizer_step o do_verify target) (disk0, jobs0) (disk, jobs) ->
  (forall x, ~ (0 <= x < target) -> disk x = disk0 x) /\
  (do_verify = true -> disk = disk0) /\
  (joined jobs -> result jobs = 0 -> forall x, 0 <= x < target -> disk x = nul) /\
  (~ joined jobs -> exists s, sanitizer_step o do_verify target (disk, jobs) s) /\
  (forall n s, nsteps (sanitizer_step o do_verify target) n (disk0, jobs0) s ->
     Z.of_nat n <= num_jobs o * (4 * target + 4)).
Proof.
  intros Hl Hn Hb Hr Hsec Hrun. unfold Run_launch in Hl.
  destruct (Z.leb_spec (num_jobs o) 0); [done|]. injection Hl as Ht <-.
  assert (Htarget : 0 <= target < 9223372036854775808).
  { subst target. rewrite wrap64_small by (unfold is_u64, u64_max; lia). unfold target_size.
    destruct (range_size o =? 0), (_ <=? _) eqn:E; lia. }
  rewrite Ht in Hrun |- *. assert (Hj : 0 < num_jobs o < 2147483648) by lia.
  pose proof (reach_ok o do_verify target Hj Hb Htarget disk0 _ Hrun) as Hok.
  split_and!.
  - apply (so_wiped _ _ _ _ _ Hok).
  - apply (so_verify _ _ _ _ _ Hok).
  - apply (joined_zero o do_verify target Hj Htarget disk0 _ Hok).
  - apply not_joined_step.
  - intros n s Hs. pose proof (run_length o do_verify target Hj Hb Htarget disk0 n _ _
      (state_ok_init o do_verify target Hj Htarget disk0) Hs). simpl in *.
    pose proof (init_work o target Hj Htarget). lia.
Qed.

(** Two jobs on a device of two sectors; the second job's first write fails. *)
Definition sample_options : Options := mkOptions 2 512 0.
Definition sample_run : (Z -> ascii) * list Job :=
  let d := fun _ => "x"%char in
  (zero_range (zero_range (zero_some d 512 512 (fun x => x <? 600)) 0 512) 512 512, [Ended 0; Ended 0]).

Lemma sample_run_steps :
  rtc (sanitizer_step sample_options false 1024) ((fun _ => "x"%char), jobs_init sample_options 1024) sample_run.
Proof.
  eapply rtc_l; [apply (job_step _ _ _ _ _ 1%nat 512 0 (Failed (fun x => x <? 600))); reflexivity|].
  eapply rtc_l; [apply (job_step _ _ _ _ _ 0%nat 0 0 AllBytes); reflexivity|].
  eapply rtc_l; [apply (job_step _ _ _ _ _ 1%nat 512 1 AllBytes); reflexivity|].
  eapply rtc_l; [apply (job_step _ _ _ _ _ 0%nat 512 0 AllBytes); reflexivity|].
  eapply rtc_l; [apply (job_step _ _ _ _ _ 1%nat 1024 0 AllBytes); reflexivity|].
  apply rtc_refl.
Qed.

Lemma sanitizer_wipes_witness :
  (forall x, 0 <= x < 1024 -> sample_run.1 x = nul) /\ sample_run.1 1024 = "x"%char.
Proof.
  destruct (sanitizer_wipes sample_options false 2 1024 (jobs_init sample_options 1024) (fun _ => "x"%char)
    sample_run.1 sample_run.2) as (Hout & _ & Hz & _).
  - reflexivity.
  - cbn; lia.
  - cbn; lia.
  - cbn; lia.
  - lia.
  - exact sample_run_steps.
  - split; [apply Hz; [repeat constructor|reflexivity]|apply Hout; lia].
Defined.
