(* ===== verification/IniParser.v ===== *)
(** * The ini parser

    The reader of the configuration files (src/src/utils/ini_inner.h, a copy of
    inih, and [INIParser], ini_parser.cpp): lines, sections, names and values,
    continuation lines and comments; look-ups without regard to case; numbers
    and booleans; and the expansion of [@{section.name}] in values.

    A C string is the string up to its first zero byte.  Assertions are compiled
    out ([-DNDEBUG]).  The options are those of the header: multi-line values,
    byte order mark and inline comments are on, parsing goes on after an error.
    [None] is a call that does not return. *)

From Stdlib Require Import Ascii.
From stdpp Require Import sorting.
From S2P Require Import Prelude Codec KvStore.

#[local] Open Scope string_scope.
#[local] Open Scope Z_scope.

Definition INI_MAX_LINE : nat := 200.
Definition MAX_SECTION : nat := 50.
Definition MAX_NAME : nat := 50.

Definition nul : ascii := "000".
Definition newline : ascii := "010".

(** ** Characters and C strings *)

Definition isspace (c : ascii) : bool :=
  let n := nat_of_ascii c in ((9 <=? n) && (n <=? 13) || (n =? 32))%nat.

Definition tolower_char (c : ascii) : ascii :=
  let n := nat_of_ascii c in if ((65 <=? n) && (n <=? 90))%nat then ascii_of_nat (n + 32) else c.

Fixpoint tolower (s : string) : string :=
  match s with "" => "" | String c s' => String (tolower_char c) (tolower s') end.

Fixpoint strchr (s : string) (c : ascii) : bool :=
  match s with "" => false | String d s' => Ascii.eqb d c || strchr s' c end.

Fixpoint c_str (s : string) : string :=
  match s with "" => "" | String c s' => if Ascii.eqb c nul then "" else String c (c_str s') end.

Fixpoint rstrip (s : string) : string :=
  match s with
  | "" => ""
  | String c s' =>
      match rstrip s' with
      | "" => if isspace c then "" else String c ""
      | r => String c r
      end
  end.

Fixpoint lskip (s : string) : string :=
  match s with "" => "" | String c s' => if isspace c then lskip s' else s end.

Definition INI_INLINE_COMMENT_PREFIXES : string := ";".

(** What lies before the pointer that is returned, and what it points to. *)
Fixpoint find_chars_or_comment (s : string) (chars : option string) (was_space : bool) : string * string :=
  match s with
  | "" => ("", "")
  | String c s' =>
      if match chars with Some cs => strchr cs c | None => false end
         || (was_space && strchr INI_INLINE_COMMENT_PREFIXES c)
      then ("", s)
      else let '(a, b) := find_chars_or_comment s' chars (isspace c) in (String c a, b)
  end.

Definition strncpy0 (src : string) (size : nat) : string := substring 0 (size - 1) src.

(** ** Lines *)

(** [fgets]: up to and with the newline, at most [n] characters. *)
Fixpoint fgets (n : nat) (s : string) : string * string :=
  match n, s with
  | O, _ | _, "" => ("", s)
  | S n', String c s' =>
      if Ascii.eqb c newline then (String c "", s')
      else let '(line, rest) := fgets n' s' in (String c line, rest)
  end.

(** [INIReader]. *)
Record Reader : Type := mkReader { r_values : gmap string string; r_sections : gset string }.

Definition MakeKey (section name : string) : string := tolower (section +:+ "." +:+ name).

Definition ValueHandler (r : Reader) (section name value : string) : Reader :=
  let key := MakeKey section name in
  let old := default "" (r_values r !! key) in
  let old := if String.eqb old "" then old else old +:+ String newline "" in
  mkReader (<[key := old +:+ value]> (r_values r)) ({[ section ]} ∪ r_sections r).

(** The locals of [ini_parse_stream] and the reader that the handler fills. *)
Record Parse : Type := mkParse {
  p_section : string;
  p_prev_name : string;
  p_lineno : Z;
  p_error : Z;
  p_reader : Reader
}.

Definition set_error (p : Parse) : Parse :=
  mkParse (p_section p) (p_prev_name p) (p_lineno p) (if p_error p =? 0 then p_lineno p else p_error p) (p_reader p).

Definition is_bom (s : string) : bool :=
  match s with
  | String a (String b (String c _)) =>
      ((nat_of_ascii a =? 239) && (nat_of_ascii b =? 187) && (nat_of_ascii c =? 191))%nat
  | _ => false
  end.

Definition head_is (s : string) (c : ascii) : bool := match s with String d _ => Ascii.eqb d c | "" => false end.
Definition str_tail (s : string) : string := match s with String _ s' => s' | "" => "" end.

(** The text of a value without its inline comment and trailing spaces. *)
Definition value_text (s : string) : string := rstrip (find_chars_or_comment s None false).1.

(** What a line does, by its first character; [moved] is [start > line]. *)
Definition parse_start (p : Parse) (start : string) (moved : bool) : Parse :=
  if head_is start ";" || head_is start "#" then p
  else if negb (String.eqb (p_prev_name p) "") && negb (String.eqb start "") && moved then
    mkParse (p_section p) (p_prev_name p) (p_lineno p) (p_error p)
      (ValueHandler (p_reader p) (p_section p) (p_prev_name p) (value_text start))
  else if head_is start "[" then
    let '(name, rest) := find_chars_or_comment (str_tail start) (Some "]") false in
    if head_is rest "]" then mkParse (strncpy0 name MAX_SECTION) "" (p_lineno p) (p_error p) (p_reader p)
    else set_error p
  else if negb (String.eqb start "") then
    let '(before, rest) := find_chars_or_comment start (Some "=:") false in
    if head_is rest "=" || head_is rest ":" then
      let name := rstrip before in
      let value := value_text (lskip (str_tail rest)) in
      mkParse (p_section p) (strncpy0 name MAX_NAME) (p_lineno p) (p_error p)
        (ValueHandler (p_reader p) (p_section p) name value)
    else set_error p
  else p.

(** The body of the loop of [ini_parse_stream], for a line that [reader]
    returned. *)
Definition parse_line (p : Parse) (line : string) : Parse :=
  let p := mkParse (p_section p) (p_prev_name p) (p_lineno p + 1) (p_error p) (p_reader p) in
  let line := c_str line in
  let bom := (p_lineno p =? 1) && is_bom line in
  let stripped := rstrip (if bom then str_tail (str_tail (str_tail line)) else line) in
  let start := lskip stripped in
  parse_start p start (bom || negb (String.eqb start stripped)).

(** The loop, with fuel for the lines: the length of the text is enough. *)
Fixpoint ini_parse_stream (fuel : nat) (p : Parse) (text : string) : Parse :=
  match fuel, text with
  | O, _ | _, "" => p
  | S fuel', _ =>
      let '(line, rest) := fgets (INI_MAX_LINE - 1) text in
      ini_parse_stream fuel' (parse_line p line) rest
  end.

Definition parse_init : Parse := mkParse "" "" 0 0 (mkReader ∅ ∅).

(** [ini_parse] and the constructor of [INIReader]: no file is -1. *)
Definition INIReader_new (file : option string) : Z * Reader :=
  match file with
  | None => (-1, mkReader ∅ ∅)
  | Some text => let p := ini_parse_stream (String.length text) parse_init text in (p_error p, p_reader p)
  end.

(** ** Look-ups *)

Definition Reader_Get (r : Reader) (section name default_value : string) : string :=
  default default_value (r_values r !! MakeKey section name).

Definition HasValue (r : Reader) (section name : string) : bool :=
  match r_values r !! MakeKey section name with Some _ => true | None => false end.

(** [std::map::lower_bound]: the first key that is not before [key]. *)
Definition first_key (r : Reader) (key : string) : option string :=
  fst <$> head (filter (fun kv => String.leb key kv.1 = true) (merge_sort key_le (map_to_list (r_values r)))).

Definition HasSection (r : Reader) (section : string) : bool :=
  let key := MakeKey section "" in
  match first_key r key with None => false | Some k => String.prefix key k end.

(** ** Numbers and booleans *)

Definition LONG_MAX : Z := 9223372036854775807.
Definition LONG_MIN : Z := -9223372036854775808.

Definition digit_value (c : ascii) : Z :=
  let n := Z.of_nat (nat_of_ascii c) in
  if (48 <=? n) && (n <=? 57) then n - 48
  else if (65 <=? n) && (n <=? 90) then n - 55
  else if (97 <=? n) && (n <=? 122) then n - 87
  else 36.

(** The digits at the start of the string: their value, and what follows. *)
Fixpoint digits (base : Z) (s : string) (acc : Z) : Z * string :=
  match s with
  | String c s' => if digit_value c <? base then digits base s' (acc * base + digit_value c) else (acc, s)
  | "" => (acc, "")
  end.

Definition starts_digit (base : Z) (s : string) : bool :=
  match s with String c _ => digit_value c <? base | "" => false end.

(** [strtol]: the number and [end], or [None] when [end == value]. *)
Definition strtol (base : Z) (value : string) : option (Z * string) :=
  let s := lskip value in
  let negative := head_is s "-" in
  let s := if negative || head_is s "+" then str_tail s else s in
  let hex := head_is s "0" && (head_is (str_tail s) "x" || head_is (str_tail s) "X")
             && starts_digit 16 (str_tail (str_tail s)) in
  let '(base, s) :=
    if (base =? 0) && hex then (16, str_tail (str_tail s))
    else if base =? 0 then (if head_is s "0" then 8 else 10, s) else (base, s) in
  if negb (starts_digit base s) then None
  else
    let '(n, rest) := digits base s 0 in
    Some (if negative then Z.max LONG_MIN (- n) else Z.min LONG_MAX n, rest).

Definition Reader_GetInteger (r : Reader) (section name : string) (default_value : Z) : Z :=
  match strtol 0 (Reader_Get r section name "") with Some (n, _) => n | None => default_value end.

Definition Reader_GetBoolean (r : Reader) (section name : string) (default_value : bool) : bool :=
  let valstr := tolower (Reader_Get r section name "") in
  if String.eqb valstr "true" || String.eqb valstr "yes" || String.eqb valstr "on" || String.eqb valstr "1" then true
  else if String.eqb valstr "false" || String.eqb valstr "no" || String.eqb valstr "off" || String.eqb valstr "0"
  then false
  else default_value.

(** ** INIParser *)

Fixpoint index_of (c : ascii) (s : string) : option nat :=
  match s with
  | "" => None
  | String d s' => if Ascii.eqb d c then Some O else S <$> index_of c s'
  end.

Definition str_drop (n : nat) (s : string) : string := substring n (String.length s - n) s.

(** [value.find(c, pos)]; [None] is [npos]. *)
Definition str_find (c : ascii) (value : string) (pos : nat) : option nat :=
  (fun i => pos + i)%nat <$> index_of c (str_drop pos value).

(** [value.substr(left + 1, right - left - 1)], where [npos + 1] is 0 and a
    difference below 0 is a length past the end. *)
Definition key_between (value : string) (left right : option nat) : string :=
  match left, right with
  | Some l, Some r => if (l <? r)%nat then substring (l + 1) (r - l - 1) value else str_drop (l + 1) value
  | Some l, None => str_drop (l + 1) value
  | None, Some r => substring 0 r value
  | None, None => value
  end.

(** The section and the name in a key, both the key itself without a dot. *)
Definition split_key (key : string) : string * string :=
  match index_of "." key with
  | Some d => (substring 0 d key, str_drop (d + 1) key)
  | None => (key, key)
  end.

(** [Get] and its loop, with fuel for the calls and the rounds. *)
Fixpoint INIParser_Get (fuel : nat) (r : Reader) (section name : string) : option string :=
  match fuel with
  | O => None
  | S fuel' =>
      let value := Reader_Get r section name "" in
      match str_find "@" value 0 with
      | None => Some value
      | found => Get_loop fuel' r value "" 0 found
      end
  end
with Get_loop (fuel : nat) (r : Reader) (value ret : string) (pos : nat) (found : option nat) : option string :=
  match fuel, found with
  | O, _ => None
  | S _, None => Some (ret +:+ str_drop pos value)
  | S fuel', Some f =>
      let ret := ret +:+ substring pos (f - pos) value in
      let left := str_find "{" value f in
      let right := str_find "}" value f in
      let '(section_value, name_value) := split_key (key_between value left right) in
      v ← INIParser_Get fuel' r section_value name_value;
      let pos := match right with Some i => (i + 1)%nat | None => O end in
      Get_loop fuel' r value (ret +:+ v) pos (str_find "@" value pos)
  end.

Definition GetString (fuel : nat) (r : Reader) (section name default_value : string) : option string :=
  if negb (HasValue r section name) then Some default_value else INIParser_Get fuel r section name.

Definition GetBoolean (r : Reader) (section name : string) (default_value : bool) : bool :=
  if negb (HasValue r section name) then default_value else Reader_GetBoolean r section name default_value.

Definition GetInteger (r : Reader) (section name : string) (default_value : Z) : Z :=
  if negb (HasValue r section name) then default_value else Reader_GetInteger r section name default_value.

Definition INIParser_HasSection := HasSection.

(** ** Sections *)

(** [HasSection] looks at one key only, which is enough: a section is found
    when some key starts with its name and a dot. *)
Lemma HasSection_spec r section :
  HasSection r section = true <->
  exists k, is_Some (r_values r !! k) /\ String.prefix (MakeKey section "") k = true.
Proof.
  unfold HasSection, first_key. set (key := MakeKey section "").
  set (l := filter _ _).
  assert (Hel : forall kv, kv ∈ l <-> r_values r !! kv.1 = Some kv.2 /\ String.leb key kv.1 = true).
  { intros [k v]. unfold l. rewrite list_elem_of_filter, merge_sort_Permutation, elem_of_map_to_list. cbn. tauto. }
  assert (Hs : StronglySorted key_le l).
  { unfold l. apply sorted_filter. pose proof key_le_trans. pose proof key_le_total. by apply StronglySorted_merge_sort. }
  clearbody l. split.
  - destruct l as [|[k v] l]; [done|]. cbn. intros Hp. exists k. split; [|done].
    destruct (proj1 (Hel (k, v))) as [Hk _]; [left|]. by exists v.
  - intros (k & [v Hv] & Hp). assert (Hin : (k, v) ∈ l) by (apply Hel; split; [done|by apply prefix_leb]).
    destruct l as [|[k' v'] l]; [by apply elem_of_nil in Hin|]. cbn.
    destruct (proj1 (Hel (k', v'))) as [_ Hle]; [left|]. apply elem_of_cons in Hin as [[= <- <-]|Hin]; [done|].
    inversion Hs as [|? ? _ Hall]; subst. rewrite Forall_forall in Hall. exact (prefix_convex key k' k Hle (Hall _ Hin) Hp).
Qed.
