(* ===== verification/Decimal.v ===== *)
(** * Decimal

    Numbers in text: what [strtol] (IniParser.v) reads of a number that was
    printed by [dec] (Net.v), the conversion of [std::to_string] and of the
    streams. *)

From Stdlib Require Import Ascii.
From stdpp Require Import pretty.
From S2P Require Import Prelude Net IniParser.

#[local] Open Scope string_scope.
#[local] Open Scope Z_scope.

Definition is_digit (c : ascii) : bool := digit_value c <? 10.

Lemma pretty_char_digit x : (x < 10)%N -> digit_value (pretty_N_char x) = Z.of_N x.
Proof.
  intros Hx. assert (Hc : x = 0%N \/ x = 1%N \/ x = 2%N \/ x = 3%N \/ x = 4%N \/ x = 5%N \/ x = 6%N \/ x = 7%N \/ x = 8%N \/ x = 9%N)
    by lia. by repeat destruct Hc as [->|Hc]; [..|subst x].
Qed.

Lemma pretty_N_go_app x s rest : pretty_N_go x s +:+ rest = pretty_N_go x (s +:+ rest).
Proof.
  revert s. induction x as [x IH] using (well_founded_induction N.lt_wf_0). intros s.
  destruct (decide (x = 0%N)) as [->|Hx]; [by rewrite !pretty_N_go_0|].
  rewrite !(pretty_N_go_step x) by lia. rewrite IH by (apply N.div_lt; lia). done.
Qed.

Lemma digits_pretty x s : exists k, 0 <= k /\ forall acc, digits 10 (pretty_N_go x s) acc = digits 10 s (acc * k + Z.of_N x).
Proof.
  revert s. induction x as [x IH] using (well_founded_induction N.lt_wf_0). intros s.
  destruct (decide (x = 0%N)) as [->|Hx].
  { exists 1. split; [lia|]. intros acc. rewrite pretty_N_go_0. f_equal. lia. }
  rewrite pretty_N_go_step by lia.
  destruct (IH (x `div` 10)%N ltac:(apply N.div_lt; lia) (String (pretty_N_char (x `mod` 10)) s)) as (k & Hk & E).
  assert (Hm : (x `mod` 10 < 10)%N) by (apply N.mod_lt; lia).
  exists (k * 10). split; [lia|]. intros acc. rewrite E. cbn [digits]. rewrite pretty_char_digit by done.
  replace (Z.of_N (x `mod` 10) <? 10) with true by (symmetry; apply Z.ltb_lt; lia). f_equal.
  pose proof (N.div_mod x 10). lia.
Qed.

Lemma dec_pos z : 0 < z -> dec z = pretty_N_go (Z.to_N z) "".
Proof. intros Hz. destruct z as [|p|p]; [lia| |lia]. unfold dec, pretty, pretty_Z. done. Qed.

(** The printed number is digits, and a digit comes first. *)
Lemma digits_dec z rest : 0 <= z -> digits 10 (dec z +:+ rest) 0 = digits 10 rest z.
Proof.
  intros Hz. destruct (decide (z = 0)) as [->|Hne]; [done|]. rewrite dec_pos, pretty_N_go_app by lia.
  destruct (digits_pretty (Z.to_N z) rest) as (k & _ & E). cbn [String.append]. rewrite E. f_equal. lia.
Qed.

Lemma string_forall_go (P : ascii -> Prop) x s : (forall d, (d < 10)%N -> P (pretty_N_char d)) ->
  Forall P (list_ascii_of_string s) -> Forall P (list_ascii_of_string (pretty_N_go x s)).
Proof.
  intros Hd. revert s. induction x as [x IH] using (well_founded_induction N.lt_wf_0). intros s Hs.
  destruct (decide (x = 0%N)) as [->|Hx]; [by rewrite pretty_N_go_0|].
  rewrite pretty_N_go_step by lia. apply IH; [apply N.div_lt; lia|]. cbn. constructor; [|done]. apply Hd, N.mod_lt. lia.
Qed.

Lemma dec_digits z : 0 <= z -> Forall (fun c => is_digit c = true) (list_ascii_of_string (dec z)).
Proof.
  intros Hz. destruct (decide (z = 0)) as [->|Hne]; [by repeat constructor|]. rewrite dec_pos by lia.
  apply string_forall_go; [|constructor]. intros d Hd. unfold is_digit. rewrite pretty_char_digit by done.
  apply Z.ltb_lt. lia.
Qed.

Lemma dec_head z : 0 <= z -> exists c s, dec z = String c s /\ is_digit c = true.
Proof.
  intros Hz. pose proof (dec_digits z Hz) as Hd. destruct (dec z) as [|c s] eqn:E.
  - destruct (decide (z = 0)) as [->|Hne]; [done|]. exfalso. pose proof (digits_dec z "" Hz) as H. rewrite E in H. cbn in H.
    injection H. lia.
  - exists c, s. split; [done|]. cbn in Hd. by apply Forall_cons in Hd as [? _].
Qed.

(** No digit is a space, a sign or a letter. *)
Lemma digit_range c : is_digit c = true -> 48 <= Z.of_nat (nat_of_ascii c) <= 57.
Proof.
  unfold is_digit, digit_value. set (n := Z.of_nat (nat_of_ascii c)).
  destruct (48 <=? n) eqn:E1, (n <=? 57) eqn:E2; cbn [andb];
    destruct (65 <=? n) eqn:E3, (n <=? 90) eqn:E4, (97 <=? n) eqn:E5, (n <=? 122) eqn:E6; cbn [andb]; lia.
Qed.

Lemma digit_other c d : is_digit c = true -> is_digit d = false -> Ascii.eqb c d = false.
Proof. intros Hc Hd. apply Ascii.eqb_neq. congruence. Qed.

Lemma lskip_digit c s : is_digit c = true -> lskip (String c s) = String c s.
Proof.
  intros Hc. cbn. destruct (isspace c) eqn:E; [|done]. exfalso. pose proof (digit_range c Hc) as Hr. revert E Hr. unfold isspace.
  destruct c as [[] [] [] [] [] [] [] []]; cbn; (discriminate || lia).
Qed.

(** [strtol] reads back what was printed, up to the first character that is no
    digit. *)
Lemma strtol_dec z rest : 0 <= z <= LONG_MAX -> starts_digit 10 rest = false ->
  strtol 10 (dec z +:+ rest) = Some (z, rest).
Proof.
  intros Hz Hr. destruct (dec_head z) as (c & s & E & Hc); [lia|].
  assert (Hd : digits 10 (dec z +:+ rest) 0 = (z, rest)).
  { rewrite digits_dec by lia. destruct rest as [|d r]; [done|]. cbn in Hr |- *. by rewrite Hr. }
  unfold strtol. rewrite E in Hd |- *. cbn [String.append] in *. rewrite lskip_digit by done. cbn [head_is].
  rewrite !(digit_other c) by done. cbn [orb Z.eqb andb]. cbn [starts_digit].
  unfold is_digit in Hc. rewrite Hc. cbn [negb]. rewrite Hd. f_equal. f_equal. lia.
Qed.
