(* ===== verification/IniTheorems.v ===== *)
(** * Theorems on the ini parser

    Expansion of references: when they are well formed and acyclic, [Get]
    returns and its result is the value with every reference replaced.  Round
    trip: a file written line by line from sections, names and values is read
    back without error as those values. *)

From Stdlib Require Import Ascii.
From S2P Require Import Prelude Codec KvStore IniParser.

#[local] Open Scope string_scope.
#[local] Open Scope nat_scope.

(** ** Strings *)

Lemma substring_skip a b n : substring (String.length a) n (a +:+ b) = substring 0 n b.
Proof. induction a as [|x a IH]; [done|]. exact IH. Qed.

Lemma substring_take a b : substring 0 (String.length a) (a +:+ b) = a.
Proof. induction a as [|x a IH]; cbn; [by destruct b|]. by rewrite IH. Qed.

Lemma str_drop_app a b : str_drop (String.length a) (a +:+ b) = b.
Proof.
  unfold str_drop. rewrite substring_skip, str_append_length.
  replace (String.length a + String.length b - String.length a) with (String.length b) by lia. apply substring_all.
Qed.

Lemma index_of_app c a b : strchr a c = false -> index_of c (a +:+ String c b) = Some (String.length a).
Proof.
  induction a as [|x a IH]; cbn; [by rewrite Ascii.eqb_refl|]. intros [-> Ha]%orb_false_iff. by rewrite IH.
Qed.

Lemma index_of_none c a : strchr a c = false -> index_of c a = None.
Proof. induction a as [|x a IH]; cbn; [done|]. intros [-> Ha]%orb_false_iff. by rewrite IH. Qed.

Lemma strchr_app a b c : strchr (a +:+ b) c = strchr a c || strchr b c.
Proof. induction a as [|x a IH]; cbn; [done|]. by rewrite IH, orb_assoc. Qed.

(** Search from a position, in a string given in three parts. *)
Lemma str_find_app c pre a b :
  strchr a c = false -> str_find c (pre +:+ a +:+ String c b) (String.length pre) = Some (String.length (pre +:+ a)).
Proof. intros Ha. unfold str_find. rewrite str_drop_app, index_of_app by done. cbn. by rewrite str_append_length. Qed.

Lemma str_find_none c pre a : strchr a c = false -> str_find c (pre +:+ a) (String.length pre) = None.
Proof. intros Ha. unfold str_find. by rewrite str_drop_app, index_of_none. Qed.

(** ** Expansion *)

(** A value: literals each followed by a reference, and a last literal. *)
Fixpoint render (segs : list (string * string * string)) (last : string) : string :=
  match segs with
  | [] => last
  | (lit, s, n) :: segs' => lit +:+ "@{" +:+ s +:+ "." +:+ n +:+ "}" +:+ render segs' last
  end.

Definition seg_ok (seg : string * string * string) : bool :=
  let '(lit, s, n) := seg in
  negb (strchr lit "@") && negb (strchr s ".") && negb (strchr s "}") && negb (strchr n "}").

Definition template_ok (segs : list (string * string * string)) (last : string) : bool :=
  forallb seg_ok segs && negb (strchr last "@").

(** The meaning of a value: its text with every reference replaced by the
    meaning of what it names. *)
Inductive Resolves (r : Reader) : string -> string -> string -> Prop :=
  | resolves s n segs last v :
      Reader_Get r s n "" = render segs last -> template_ok segs last = true -> Expands r segs last v ->
      Resolves r s n v
with Expands (r : Reader) : list (string * string * string) -> string -> string -> Prop :=
  | expands_last last : Expands r [] last last
  | expands_ref lit s n segs last x v :
      Resolves r s n x -> Expands r segs last v -> Expands r ((lit, s, n) :: segs) last (lit +:+ x +:+ v).

Scheme Resolves_mind := Induction for Resolves Sort Prop
  with Expands_mind := Induction for Expands Sort Prop.
Combined Scheme Resolves_Expands_ind from Resolves_mind, Expands_mind.

Lemma split_key_dot s n : strchr s "." = false -> split_key (s +:+ "." +:+ n) = (s, n).
Proof.
  intros Hs. unfold split_key. change (s +:+ "." +:+ n) with (s +:+ String "." n). rewrite (index_of_app "." s n Hs), substring_take.
  replace (String.length s + 1) with (String.length (s +:+ ".")) by (rewrite str_append_length; done).
  change (String "." n) with ("." +:+ n). by rewrite str_append_assoc, str_drop_app.
Qed.

(** The positions of a reference behind [pre], and the key in it. *)
Section Reference.
Context (pre lit s n rest : string) (Hok : seg_ok (lit, s, n) = true).
Let value : string := pre +:+ lit +:+ "@{" +:+ s +:+ "." +:+ n +:+ "}" +:+ rest.

Lemma ref_parts : strchr lit "@" = false /\ strchr s "." = false /\ strchr s "}" = false /\ strchr n "}" = false.
Proof. cbn in Hok. rewrite !andb_true_iff, !negb_true_iff in Hok. tauto. Qed.

Lemma ref_at : str_find "@" value (String.length pre) = Some (String.length (pre +:+ lit)).
Proof. apply (str_find_app "@" pre lit ("{" +:+ s +:+ "." +:+ n +:+ "}" +:+ rest)), ref_parts. Qed.

Lemma ref_open : str_find "{" value (String.length (pre +:+ lit)) = Some (String.length (pre +:+ lit) + 1).
Proof.
  unfold value. rewrite str_append_assoc.
  etransitivity; [by apply (str_find_app "{" (pre +:+ lit) "@" (s +:+ "." +:+ n +:+ "}" +:+ rest))|].
  by rewrite (str_append_length (pre +:+ lit)).
Qed.

Lemma ref_close :
  str_find "}" value (String.length (pre +:+ lit)) = Some (String.length (pre +:+ lit +:+ "@{" +:+ s +:+ "." +:+ n)).
Proof.
  unfold value. rewrite str_append_assoc. destruct ref_parts as (_ & _ & Hs & Hn).
  replace ("@{" +:+ s +:+ "." +:+ n +:+ "}" +:+ rest) with (("@{" +:+ s +:+ "." +:+ n) +:+ String "}" rest)
    by (by rewrite <- !str_append_assoc).
  rewrite (str_find_app "}" (pre +:+ lit)); [by rewrite <- !str_append_assoc|].
  cbn. by rewrite strchr_app, Hs.
Qed.

Lemma ref_literal : substring (String.length pre) (String.length (pre +:+ lit) - String.length pre) value = lit.
Proof.
  unfold value. rewrite substring_skip, str_append_length.
  replace (String.length pre + String.length lit - String.length pre) with (String.length lit) by lia. apply substring_take.
Qed.

Lemma ref_key :
  key_between value (Some (String.length (pre +:+ lit) + 1)) (Some (String.length (pre +:+ lit +:+ "@{" +:+ s +:+ "." +:+ n)))
  = s +:+ "." +:+ n.
Proof.
  unfold key_between. destruct (Nat.ltb_spec (String.length (pre +:+ lit) + 1)
    (String.length (pre +:+ lit +:+ "@{" +:+ s +:+ "." +:+ n))) as [_|Hge];
    [|rewrite !str_append_length in Hge; cbn [String.length] in Hge; lia].
  replace (String.length (pre +:+ lit) + 1 + 1) with (String.length (pre +:+ lit +:+ "@{"))
    by (rewrite !str_append_length; cbn; lia).
  replace (String.length (pre +:+ lit +:+ "@{" +:+ s +:+ "." +:+ n) - (String.length (pre +:+ lit) + 1) - 1)
    with (String.length (s +:+ "." +:+ n)) by (rewrite !str_append_length; cbn [String.length]; lia).
  replace value with ((pre +:+ lit +:+ "@{") +:+ (s +:+ "." +:+ n) +:+ "}" +:+ rest)
    by (unfold value; by rewrite <- !str_append_assoc).
  rewrite substring_skip. apply substring_take.
Qed.

(** One round of the loop consumes a literal and a reference. *)
Lemma Get_round fuel r ret :
  let pre' := pre +:+ lit +:+ "@{" +:+ s +:+ "." +:+ n +:+ "}" in
  Get_loop (S fuel) r value ret (String.length pre) (str_find "@" value (String.length pre)) =
  (v ← INIParser_Get fuel r s n;
   Get_loop fuel r value (ret +:+ lit +:+ v) (String.length pre') (str_find "@" value (String.length pre'))).
Proof.
  intros pre'. rewrite ref_at. cbn [Get_loop]. rewrite ref_open, ref_close, ref_literal, ref_key, split_key_dot by apply ref_parts.
  replace (String.length (pre +:+ lit +:+ "@{" +:+ s +:+ "." +:+ n) + 1) with (String.length pre')
    by (unfold pre'; rewrite !str_append_length; cbn; lia).
  destruct (INIParser_Get fuel r s n) as [v|]; [|done]. cbn [mbind option_bind]. by rewrite <- str_append_assoc.
Qed.
End Reference.

(** Enough fuel. *)
Definition returns {A} (f : nat -> option A) (v : A) : Prop := exists k, forall fuel, k <= fuel -> f fuel = Some v.

Lemma returns_pure {A} (v : A) : returns (fun _ => Some v) v.
Proof. by exists 0. Qed.

Lemma returns_bind {A B} (f : nat -> option A) (g : nat -> A -> option B) x y :
  returns f x -> returns (fun fuel => g fuel x) y -> returns (fun fuel => v ← f fuel; g fuel v) y.
Proof.
  intros (k1 & H1) (k2 & H2). exists (k1 + k2). intros fuel Hf. rewrite H1 by lia. cbn. apply H2. lia.
Qed.

Lemma returns_unique {A} (f : nat -> option A) x y : returns f x -> returns f y -> x = y.
Proof.
  intros (k1 & H1) (k2 & H2). specialize (H1 (k1 + k2) ltac:(lia)). specialize (H2 (k1 + k2) ltac:(lia)). congruence.
Qed.

Lemma Resolves_returns r :
  (forall s n v, Resolves r s n v -> returns (fun fuel => INIParser_Get fuel r s n) v) /\
  (forall segs last v, Expands r segs last v -> template_ok segs last = true -> forall pre ret,
     let value := pre +:+ render segs last in
     returns (fun fuel => Get_loop fuel r value ret (String.length pre) (str_find "@" value (String.length pre))) (ret +:+ v)).
Proof.
  apply (Resolves_Expands_ind r (fun s n v _ => returns (fun fuel => INIParser_Get fuel r s n) v)
    (fun segs last v _ => template_ok segs last = true -> forall pre ret,
     let value := pre +:+ render segs last in
     returns (fun fuel => Get_loop fuel r value ret (String.length pre) (str_find "@" value (String.length pre))) (ret +:+ v))).
  - intros s n segs last v Hget Hok Hex IH. destruct (IH Hok "" "") as (k & Hk). exists (S k).
    intros [|fuel] Hf; [lia|]. cbn [INIParser_Get]. rewrite Hget. specialize (Hk fuel ltac:(lia)). cbn [String.length append] in Hk.
    destruct (str_find "@" (render segs last) 0) eqn:E; [done|].
    destruct fuel as [|fuel]; [done|]. cbn [Get_loop] in Hk.
    by rewrite <- (str_drop_app "" (render segs last)).
  - intros last Hok pre ret. exists 1. intros [|fuel] Hf; [lia|]. cbn [render].
    rewrite str_find_none by (by apply negb_true_iff). cbn [Get_loop]. by rewrite str_drop_app.
  - intros lit s n segs last x v Hx (k1 & H1) Hv IH Hok pre ret.
    apply andb_true_iff in Hok as [[Hseg Hsegs]%andb_true_iff Hlast].
    destruct (IH (andb_true_intro (conj Hsegs Hlast)) (pre +:+ lit +:+ "@{" +:+ s +:+ "." +:+ n +:+ "}") (ret +:+ lit +:+ x))
      as (k2 & H2).
    exists (S (k1 + k2)). intros [|fuel] Hf; [lia|]. cbn [render]. rewrite Get_round by done.
    rewrite (H1 fuel) by lia. cbn [mbind option_bind]. rewrite <- !str_append_assoc in H2. cbn [append] in *.
    rewrite <- (H2 fuel) by lia. rewrite <- ?str_append_assoc. done.
Qed.

(** References that lead down in some ranking of the keys. *)
Definition acyclic (r : Reader) (rank : string -> nat) : Prop :=
  forall s n, exists segs last, Reader_Get r s n "" = render segs last /\ template_ok segs last = true /\
    Forall (fun seg => rank (MakeKey seg.1.2 seg.2) < rank (MakeKey s n)) segs.

Lemma acyclic_resolves r rank s n : acyclic r rank -> exists v, Resolves r s n v.
Proof.
  intros Ha. remember (rank (MakeKey s n)) as k eqn:Ek. revert s n Ek.
  induction (lt_wf k) as [k _ IH]. intros s n ->. destruct (Ha s n) as (segs & last & Hg & Hok & Hf).
  assert (Hex : exists v, Expands r segs last v).
  { clear Hg Hok. induction Hf as [|[[lit s'] n'] segs Hlt Hf IHf]; [by exists last; constructor|].
    destruct IHf as [v Hv]. destruct (IH _ Hlt s' n' eq_refl) as [x Hx]. eexists. by constructor. }
  destruct Hex as [v Hv]. exists v. by econstructor.
Qed.

(** when the references between the values are well formed and lead down in
    some ranking of the keys, [GetString] returns for every key, and what it
    returns is the value with each reference replaced by what the key it names
    resolves to. *)
Theorem get_expands r rank section name default_value :
  acyclic r rank -> HasValue r section name = true ->
  exists v, Resolves r section name v /\
    exists k, forall fuel, k <= fuel -> GetString fuel r section name default_value = Some v.
Proof.
  intros Ha Hv. destruct (acyclic_resolves r rank section name Ha) as [v Hr]. exists v. split; [done|].
  destruct (proj1 (Resolves_returns r) _ _ _ Hr) as (k & Hk). exists k. intros fuel Hf. unfold GetString. rewrite Hv. cbn. by apply Hk.
Qed.

(** A value that names itself, or whose brace is not closed, is never
    returned: the assertions that would refuse it are compiled out. *)
Lemma self_reference_diverges fuel : 
  INIParser_Get fuel (mkReader {[ "a.b" := "@{a.b}" ]} ∅) "a" "b" = None.
Proof.
  induction fuel as [fuel IH] using lt_wf_ind. destruct fuel as [|[|fuel]]; [done..|].
  change (INIParser_Get (S (S fuel)) (mkReader {[ "a.b" := "@{a.b}" ]} ∅) "a" "b")
    with (v ← INIParser_Get fuel (mkReader {[ "a.b" := "@{a.b}" ]} ∅) "a" "b";
          Get_loop fuel (mkReader {[ "a.b" := "@{a.b}" ]} ∅) "@{a.b}" ("" +:+ v) 6 None).
  by rewrite IH by lia.
Qed.

(** ** Round trip *)

Definition name_char (c : ascii) : bool := negb (isspace c) && negb (strchr "=:;#[" c) && negb (Ascii.eqb c nul).
Definition section_char (c : ascii) : bool := negb (isspace c) && negb (strchr "];" c) && negb (Ascii.eqb c nul).

Fixpoint str_all (f : ascii -> bool) (s : string) : bool :=
  match s with "" => true | String c s' => f c && str_all f s' end.

Definition name_ok (n : string) : bool := negb (String.eqb n "") && str_all name_char n.
Definition section_ok (s : string) : bool := str_all section_char s && (String.length s <? MAX_SECTION).

(** No zero byte, no newline, no space around it and no inline comment. *)
Definition value_ok (v : string) : bool :=
  negb (strchr v nul) && negb (strchr v newline) && String.eqb (lskip v) v && String.eqb (rstrip v) v
  && String.eqb (value_text v) v.

Definition entry_line (e : string * string) : string := e.1 +:+ " = " +:+ e.2.
Definition section_line (s : string) : string := "[" +:+ s +:+ "]".

Definition entry_ok (e : string * string) : bool :=
  name_ok e.1 && value_ok e.2 && (String.length (entry_line e) <? INI_MAX_LINE - 1).

(** A document: sections with their entries. *)
Definition Doc : Type := list (string * list (string * string)).

Definition doc_lines (d : Doc) : list string := d ≫= (fun s => section_line s.1 :: (entry_line <$> s.2)).

Fixpoint print_lines (ls : list string) : string :=
  match ls with [] => "" | l :: ls' => l +:+ String newline (print_lines ls') end.

Definition print_doc (d : Doc) : string := print_lines (doc_lines d).

Definition doc_ok (d : Doc) : bool := forallb (fun s => section_ok s.1 && forallb entry_ok s.2) d.

Definition doc_entries (d : Doc) : list (string * string) :=
  d ≫= (fun s => (fun e => (MakeKey s.1 e.1, e.2)) <$> s.2).

Lemma c_str_clean s : strchr s nul = false -> c_str s = s.
Proof. induction s as [|c s IH]; [done|]. cbn. intros [-> Hs]%orb_false_iff. by rewrite IH. Qed.

Lemma rstrip_solid a c b : isspace c = false -> rstrip (a +:+ String c b) = a +:+ String c (rstrip b).
Proof.
  intros Hc. induction a as [|x a IH]; cbn [append rstrip].
  - destruct (rstrip b); [by rewrite Hc|done].
  - rewrite IH. by destruct a.
Qed.

Lemma rstrip_snoc a c : isspace c = true -> rstrip (a +:+ String c "") = rstrip a.
Proof. intros Hc. induction a as [|x a IH]; cbn [append rstrip]; [by rewrite Hc|]. by rewrite IH. Qed.

Lemma str_all_strchr f s c : str_all f s = true -> f c = false -> strchr s c = false.
Proof.
  induction s as [|x s IH]; [done|]. cbn. intros [Hx Hs]%andb_true_iff Hc. rewrite IH by done.
  destruct (Ascii.eqb_spec x c) as [-> |]; [congruence|done].
Qed.

(** Characters that end nothing are passed over. *)
Lemma find_skip a b cs :
  str_all (fun c => negb (isspace c) && negb (strchr cs c)) a = true ->
  find_chars_or_comment (a +:+ b) (Some cs) false =
  (a +:+ (find_chars_or_comment b (Some cs) false).1, (find_chars_or_comment b (Some cs) false).2).
Proof.
  induction a as [|c a IH]; cbn [append]; [intros _; by destruct (find_chars_or_comment b (Some cs) false)|].
  cbn [str_all]. intros [[Hs%negb_true_iff Hc%negb_true_iff]%andb_true_iff Ha]%andb_true_iff.
  cbn [find_chars_or_comment]. rewrite Hc, Hs, IH by done. done.
Qed.

Lemma str_all_impl (f g : ascii -> bool) s : (forall c, f c = true -> g c = true) -> str_all f s = true -> str_all g s = true.
Proof. intros Hfg. induction s as [|c s IH]; [done|]. cbn. rewrite !andb_true_iff. intuition auto. Qed.

Lemma strchr_sub cs cs' c : (forall d, strchr cs' d = true -> strchr cs d = true) -> strchr cs c = false -> strchr cs' c = false.
Proof. intros H Hc. destruct (strchr cs' c) eqn:E; [|done]. apply H in E. congruence. Qed.

(** A name followed by a space has nothing to strip but that. *)
Lemma rstrip_name n : name_ok n = true -> rstrip (n +:+ " ") = n.
Proof.
  intros [_ Hn]%andb_true_iff. rewrite (rstrip_snoc n " ") by done. induction n as [|c n IH]; [done|].
  cbn in Hn. apply andb_true_iff in Hn as [[[Hc%negb_true_iff _]%andb_true_iff _]%andb_true_iff Hn].
  change (String c n) with ("" +:+ String c n). rewrite rstrip_solid, IH by done. done.
Qed.

Lemma head_is_app n b c : n <> "" -> head_is (n +:+ b) c = head_is n c.
Proof. by destruct n. Qed.

Lemma name_head n c : name_ok n = true -> name_char c = false -> head_is n c = false.
Proof.
  intros [_ Hn]%andb_true_iff Hc. destruct n as [|d n]; [done|]. cbn in *. apply andb_true_iff in Hn as [Hd _].
  destruct (Ascii.eqb_spec d c) as [-> |]; [congruence|done].
Qed.

(** A line without zero bytes that starts with neither a space nor a byte order
    mark. *)
Lemma parse_line_clean p c l :
  strchr (String c l) nul = false -> isspace c = false -> (p_lineno p <> 0)%Z \/ nat_of_ascii c <> 239 ->
  parse_line p (String c l +:+ String newline "") =
  parse_start (mkParse (p_section p) (p_prev_name p) (p_lineno p + 1) (p_error p) (p_reader p)) (rstrip (String c l)) false.
Proof.
  intros Hn Hc Hb. unfold parse_line. rewrite c_str_clean by (by rewrite strchr_app, Hn). cbn [p_lineno].
  assert (Hbom : ((p_lineno p + 1 =? 1)%Z && is_bom (String c l +:+ String newline "")) = false).
  { apply andb_false_iff. destruct Hb as [Hb|Hb]; [left; apply Z.eqb_neq; lia|right]. cbn.
    apply Nat.eqb_neq in Hb. rewrite Hb. by repeat case_match. }
  rewrite Hbom, rstrip_snoc by done. change (String c l) with ("" +:+ String c l). rewrite rstrip_solid by done.
  cbn [append lskip]. rewrite Hc, String.eqb_refl. done.
Qed.

Lemma section_char_spec c :
  section_char c = true -> isspace c = false /\ strchr "]" c = false /\ strchr ";" c = false /\ Ascii.eqb c nul = false.
Proof. unfold section_char. rewrite !andb_true_iff, !negb_true_iff. cbn. rewrite !orb_false_iff. tauto. Qed.

Lemma substring_short s n : String.length s <= n -> substring 0 n s = s.
Proof. revert n; induction s as [|c s IH]; intros [|n] H; cbn in *; try done; [lia|]. rewrite IH by lia. done. Qed.

Lemma parse_section p s :
  section_ok s = true ->
  parse_line p (section_line s +:+ String newline "") = mkParse s "" (p_lineno p + 1) (p_error p) (p_reader p).
Proof.
  intros [Hs Hl%Nat.ltb_lt]%andb_true_iff.
  change (section_line s) with (String "[" (s +:+ "]")). rewrite parse_line_clean; [|by cbn; rewrite strchr_app, (str_all_strchr section_char s nul Hs eq_refl)|done|by right].
  change (rstrip (String "[" (s +:+ "]"))) with (rstrip (String "[" s +:+ "]")). rewrite (rstrip_solid (String "[" s) "]" "") by done.
  unfold parse_start. cbn [append rstrip head_is]. rewrite andb_false_r. cbn [str_tail].
  rewrite find_skip.
  - cbn. rewrite str_append_nil_r. unfold strncpy0. by rewrite substring_short by (unfold MAX_SECTION in *; lia).
  - eapply str_all_impl; [|exact Hs]. intros c (-> & -> & _)%section_char_spec. done.
Qed.

Lemma name_char_spec c :
  name_char c = true -> isspace c = false /\ strchr "=:" c = false /\ Ascii.eqb c nul = false.
Proof. unfold name_char. rewrite !andb_true_iff, !negb_true_iff. cbn. rewrite !orb_false_iff. tauto. Qed.

Lemma value_ok_spec v : value_ok v = true ->
  strchr v nul = false /\ strchr v newline = false /\ lskip v = v /\ rstrip v = v /\ value_text v = v.
Proof. unfold value_ok. rewrite !andb_true_iff, !negb_true_iff, !String.eqb_eq. tauto. Qed.

Lemma lskip_value v : lskip v = v -> rstrip v = v -> lskip (rstrip (String " " v)) = v.
Proof. intros Hl Hr. cbn [rstrip]. rewrite Hr. destruct v as [|c v]; [done|]. exact Hl. Qed.

Lemma parse_entry p n v :
  name_ok n = true -> value_ok v = true -> (p_lineno p <> 0)%Z ->
  exists prev, parse_line p (entry_line (n, v) +:+ String newline "")
    = mkParse (p_section p) prev (p_lineno p + 1) (p_error p) (ValueHandler (p_reader p) (p_section p) n v).
Proof.
  intros Hn (Hz & _ & Hl & Hr & Ht)%value_ok_spec Hline. exists (strncpy0 n MAX_NAME). pose proof Hn as Hn'.
  apply andb_true_iff in Hn' as [Hne Hall]. destruct n as [|c n]; [done|].
  pose proof Hall as [Hc _]%andb_true_iff. apply name_char_spec in Hc as (Hsp & _ & _).
  change (entry_line (String c n, v)) with (String c (n +:+ " = " +:+ v)).
  rewrite parse_line_clean; [|by change (strchr (String c n +:+ " = " +:+ v) nul = false); rewrite !strchr_app, (str_all_strchr name_char _ nul Hall eq_refl), Hz|done|by left].
  replace (String c (n +:+ " = " +:+ v)) with ((String c n +:+ " ") +:+ String "=" (String " " v)) by (by rewrite <- str_append_assoc).
  rewrite rstrip_solid by done. unfold parse_start. rewrite <- str_append_assoc, !head_is_app by done.
  rewrite !(name_head _ _ Hn) by done. cbn [orb andb]. rewrite andb_false_r.
  replace (String.eqb _ "") with false by done. cbn [negb].
  rewrite find_skip by (eapply str_all_impl; [|exact Hall]; intros d (-> & -> & _)%name_char_spec; done).
  set (x := rstrip (String " " v)).
  change (find_chars_or_comment (" " +:+ String "=" x) (Some "=:") false) with (" ", String "=" x).
  cbn [fst snd]. change (head_is (String "=" x) "=") with true. cbn [orb str_tail].
  rewrite (rstrip_name (String c n) Hn). unfold x. by rewrite lskip_value, Ht.
Qed.

Lemma fgets_line l rest : forall n, strchr l newline = false -> String.length l < n ->
  fgets n (l +:+ String newline rest) = (l +:+ String newline "", rest).
Proof.
  induction l as [|c l IH]; intros [|n] Hl Hn; cbn in *; [lia|done|lia|].
  apply orb_false_iff in Hl as [Hc Hl]. rewrite Hc, IH by (done || lia). done.
Qed.

Definition line_ok (l : string) : Prop := strchr l newline = false /\ String.length l < INI_MAX_LINE - 1.

Lemma parse_lines ls : forall fuel p, Forall line_ok ls -> length ls <= fuel ->
  ini_parse_stream fuel p (print_lines ls) = foldl (fun p l => parse_line p (l +:+ String newline "")) p ls.
Proof.
  induction ls as [|l ls IH]; intros fuel p Hf Hlen; [by destruct fuel|].
  apply Forall_cons in Hf as [[Hn Hl] Hf]. destruct fuel as [|fuel]; cbn [length] in Hlen; [lia|].
  cbn [print_lines foldl]. change (ini_parse_stream (S fuel) p (l +:+ String newline (print_lines ls)))
    with (match l +:+ String newline (print_lines ls) with
          | "" => p
          | _ => let '(line, rest) := fgets (INI_MAX_LINE - 1) (l +:+ String newline (print_lines ls)) in
                 ini_parse_stream fuel (parse_line p line) rest end).
  rewrite fgets_line by done. rewrite IH by (done || lia). by destruct l.
Qed.

Lemma print_lines_length ls : length ls <= String.length (print_lines ls).
Proof. induction ls as [|l ls IH]; cbn; [lia|]. rewrite str_append_length. cbn. lia. Qed.

(** The reader that the handler fills, entry by entry. *)
Definition doc_reader (d : Doc) (r : Reader) : Reader :=
  foldl (fun r s => foldl (fun r e => ValueHandler r s.1 e.1 e.2) r s.2) r d.

Lemma parse_entries es : forall p, forallb entry_ok es = true -> (0 < p_lineno p)%Z ->
  exists prev k, (0 < k)%Z /\ foldl (fun p l => parse_line p (l +:+ String newline "")) p (entry_line <$> es)
    = mkParse (p_section p) prev k (p_error p) (foldl (fun r e => ValueHandler r (p_section p) e.1 e.2) (p_reader p) es).
Proof.
  induction es as [|[n v] es IH]; intros p Hok Hp; [by exists (p_prev_name p), (p_lineno p); destruct p|].
  cbn [forallb] in Hok. apply andb_true_iff in Hok as [[[Hn Hv]%andb_true_iff _]%andb_true_iff Hes].
  destruct (parse_entry p n v Hn Hv ltac:(lia)) as (prev & Hpl). rewrite fmap_cons. cbn [foldl]. rewrite Hpl.
  destruct (IH (mkParse (p_section p) prev (p_lineno p + 1) (p_error p) (ValueHandler (p_reader p) (p_section p) n v)) Hes)
    as (prev' & k & Hk & ->); [cbn; lia|]. by exists prev', k.
Qed.

Lemma parse_doc d : forall p, doc_ok d = true -> (0 <= p_lineno p)%Z ->
  exists s prev k, (0 <= k)%Z /\ foldl (fun p l => parse_line p (l +:+ String newline "")) p (doc_lines d)
    = mkParse s prev k (p_error p) (doc_reader d (p_reader p)).
Proof.
  induction d as [|[s es] d IH]; intros p Hok Hp; [by exists (p_section p), (p_prev_name p), (p_lineno p); destruct p|].
  cbn [doc_ok forallb fst snd] in Hok. apply andb_true_iff in Hok as [[Hs Hes]%andb_true_iff Hd].
  unfold doc_lines. rewrite bind_cons. cbn [fst snd app foldl]. rewrite foldl_app, parse_section by done.
  destruct (parse_entries es (mkParse s "" (p_lineno p + 1) (p_error p) (p_reader p)) Hes) as (prev & k & Hk & ->); [cbn; lia|].
  cbn [p_section p_error p_reader].
  destruct (IH (mkParse s prev k (p_error p) (foldl (fun r e => ValueHandler r s e.1 e.2) (p_reader p) es)) Hd)
    as (s' & prev' & k' & Hk' & E); [cbn; lia|].
  exists s', prev', k'. split; [done|]. exact E.
Qed.

Lemma doc_lines_ok d : doc_ok d = true -> Forall line_ok (doc_lines d).
Proof.
  unfold doc_lines. induction d as [|[s es] d IH]; [done|]. cbn [doc_ok forallb fst snd].
  intros [[[Hs Hl%Nat.ltb_lt]%andb_true_iff Hes]%andb_true_iff Hd]%andb_true_iff.
  rewrite bind_cons. apply Forall_app. split; [|by apply IH]. cbn [fst snd]. constructor.
  - unfold section_line. split; [cbn; rewrite strchr_app, (str_all_strchr section_char s newline Hs eq_refl); done|].
    cbn. rewrite str_append_length. unfold MAX_SECTION, INI_MAX_LINE in *. cbn. lia.
  - apply Forall_fmap, Forall_forall. intros [n v] Hin. rewrite forallb_forall in Hes.
    apply list_elem_of_In, Hes in Hin. apply andb_true_iff in Hin as [[Hn Hv]%andb_true_iff Hlen%Nat.ltb_lt].
    split; [|done]. apply value_ok_spec in Hv as (_ & Hv & _). apply andb_true_iff in Hn as [_ Hn].
    unfold entry_line. cbn [fst snd] in *. by rewrite !strchr_app, (str_all_strchr name_char n newline Hn eq_refl), Hv.
Qed.

Lemma read_back d : doc_ok d = true -> INIReader_new (Some (print_doc d)) = (0%Z, doc_reader d (mkReader ∅ ∅)).
Proof.
  intros Hok. unfold INIReader_new, print_doc. rewrite parse_lines by (auto using doc_lines_ok, print_lines_length).
  destruct (parse_doc d parse_init Hok) as (s & prev & k & _ & ->); [done|]. done.
Qed.

Lemma section_reader_lookup s es : forall r,
  (forall k, k ∈ (fun e => MakeKey s e.1) <$> es -> r_values r !! k = None) -> NoDup ((fun e => MakeKey s e.1) <$> es) ->
  forall k v, r_values (foldl (fun r e => ValueHandler r s e.1 e.2) r es) !! k = Some v <->
    (k, v) ∈ (fun e => (MakeKey s e.1, e.2)) <$> es \/ r_values r !! k = Some v.
Proof.
  induction es as [|[n x] es IH]; intros r Hfresh Hnd k v.
  { cbn. split; [by right|]. by intros [?%elem_of_nil|]. }
  apply NoDup_cons in Hnd as [Hn Hnd]. cbn [foldl fst snd].
  assert (Hx : r_values (ValueHandler r s n x) = <[MakeKey s n := x]> (r_values r)).
  { unfold ValueHandler. cbn. by rewrite (Hfresh (MakeKey s n)) by left. }
  rewrite IH; [|intros k' Hk'; rewrite Hx, lookup_insert_ne by (intros <-; by apply Hn); apply Hfresh; by right|done].
  rewrite Hx, lookup_insert_Some, fmap_cons, elem_of_cons. cbn [fst snd]. split.
  - intros [?|[[<- <-]|[_ ?]]]; auto.
  - intros [[[= -> ->]|?]|Hr]; auto. right. right. split; [|done]. intros <-. by rewrite (Hfresh (MakeKey s n)) in Hr by left.
Qed.

Lemma doc_reader_lookup d : forall r,
  (forall k, k ∈ (doc_entries d).*1 -> r_values r !! k = None) -> NoDup (doc_entries d).*1 ->
  forall k v, r_values (doc_reader d r) !! k = Some v <-> (k, v) ∈ doc_entries d \/ r_values r !! k = Some v.
Proof.
  induction d as [|[s es] d IH]; intros r Hfresh Hnd k v.
  { cbn. split; [by right|]. by intros [?%elem_of_nil|]. }
  unfold doc_entries in *. rewrite bind_cons in *. cbn [fst snd] in *. rewrite fmap_app in *.
  apply NoDup_app in Hnd as (Hnd1 & Hdisj & Hnd2).
  assert (Hkeys : ((fun e => (MakeKey s e.1, e.2)) <$> es).*1 = (fun e => MakeKey s e.1) <$> es) by (by rewrite <- list_fmap_compose).
  rewrite Hkeys in *.
  assert (Hsec := section_reader_lookup s es r ltac:(intros k' Hk'; apply Hfresh, elem_of_app; by left) Hnd1).
  change (doc_reader ((s, es) :: d) r) with (doc_reader d (foldl (fun r e => ValueHandler r s e.1 e.2) r es)).
  rewrite IH; [rewrite Hsec, elem_of_app; tauto| |done].
  intros k' Hk'. apply eq_None_not_Some. intros [v' [Hin|Hr]%Hsec].
  - apply (Hdisj k'); [|done]. rewrite <- Hkeys. apply list_elem_of_fmap. by exists (k', v').
  - rewrite Hfresh in Hr; [done|]. apply elem_of_app. by right.
Qed.

(** C39: a configuration file written section by section and line by line, with
    well-formed names and values, short lines and no key twice (without regard
    to case), is read without error, and the reader holds exactly its entries:
    the look-ups of a name give its value, and nothing else has one. *)
Theorem ini_roundtrip d :
  doc_ok d = true -> NoDup (doc_entries d).*1 ->
  exists r, INIReader_new (Some (print_doc d)) = (0%Z, r) /\
    (forall s es n v, (s, es) ∈ d -> (n, v) ∈ es -> forall dflt, HasValue r s n = true /\ Reader_Get r s n dflt = v) /\
    (forall s n, HasValue r s n = true -> MakeKey s n ∈ (doc_entries d).*1).
Proof.
  intros Hok Hnd. exists (doc_reader d (mkReader ∅ ∅)). split; [by apply read_back|].
  assert (Hl : forall k v, r_values (doc_reader d (mkReader ∅ ∅)) !! k = Some v <-> (k, v) ∈ doc_entries d).
  { intros k v. rewrite doc_reader_lookup; [cbn [r_values]; rewrite lookup_empty; naive_solver|intros; apply lookup_empty|done]. }
  split.
  - intros s es n v Hs Hn dflt. assert (Hv : r_values (doc_reader d (mkReader ∅ ∅)) !! MakeKey s n = Some v).
    { apply Hl. apply list_elem_of_bind. exists (s, es). split; [|done]. apply list_elem_of_fmap. by exists (n, v). }
    unfold HasValue, Reader_Get. by rewrite Hv.
  - intros s n. unfold HasValue. destruct (_ !! _) as [v|] eqn:E; [|done]. intros _.
    apply Hl in E. apply list_elem_of_fmap. by exists (MakeKey s n, v).
Qed.

(** ** Samples *)

Lemma acyclic_intro r rank :
  (forall k v, r_values r !! k = Some v -> exists segs last, v = render segs last /\ template_ok segs last = true /\
     Forall (fun seg => rank (MakeKey seg.1.2 seg.2) < rank k) segs) -> acyclic r rank.
Proof.
  intros Hr s n. unfold Reader_Get. destruct (r_values r !! MakeKey s n) as [v|] eqn:E; [by apply Hr|].
  exists [], "". by repeat constructor.
Qed.

(** Acyclicity by evaluation, given the templates of the values that have
    references. *)
Definition acyclic_check (r : Reader) (rank : string -> nat) (table : list (list (string * string * string) * string)) : bool :=
  forallb (fun kv =>
    existsb (fun t =>
      String.eqb kv.2 (render t.1 t.2) && template_ok t.1 t.2
      && forallb (fun seg => rank (MakeKey seg.1.2 seg.2) <? rank kv.1) t.1) (([], kv.2) :: table))
    (map_to_list (r_values r)).

Lemma acyclic_check_sound r rank table : acyclic_check r rank table = true -> acyclic r rank.
Proof.
  intros Hc. apply acyclic_intro. intros k v Hk. unfold acyclic_check in Hc. rewrite forallb_forall in Hc.
  specialize (Hc (k, v)). cbn beta in Hc. rewrite existsb_exists in Hc.
  destruct Hc as ([segs last] & _ & [[Hv Hok]%andb_true_iff Hr]%andb_true_iff);
    [by apply list_elem_of_In, elem_of_map_to_list|].
  exists segs, last. split_and!; [by apply String.eqb_eq in Hv|done|].
  apply Forall_forall. intros seg Hs. rewrite forallb_forall in Hr. apply Nat.ltb_lt, Hr. by apply list_elem_of_In.
Qed.

Definition sample_doc : Doc := [("log", [("prefix", "em"); ("logpath", "@{common.root}/log")]); ("common", [("root", "/data")])].
Definition sample_reader : Reader := (INIReader_new (Some (print_doc sample_doc))).2.
Definition sample_rank (k : string) : nat := if String.eqb k "log.logpath" then 1 else 0.

Lemma ini_roundtrip_witness :
  Reader_Get sample_reader "common" "root" "" = "/data" /\ (INIReader_new (Some (print_doc sample_doc))).1 = 0%Z.
Proof.
  destruct (ini_roundtrip sample_doc) as (r & Hr & Hv & _); [reflexivity|apply (bool_decide_eq_true_1 _); reflexivity|].
  unfold sample_reader. rewrite Hr. split; [|reflexivity].
  refine (proj2 (Hv "common" [("root", "/data")] "root" "/data" _ _ "")); [right; left|left].
Defined.

Lemma sample_acyclic : acyclic sample_reader sample_rank.
Proof. apply (acyclic_check_sound _ _ [([("", "common", "root")], "/log")]). vm_compute. reflexivity. Qed.

Lemma get_expands_witness :
  exists v, Resolves sample_reader "log" "logpath" v /\
    exists k, forall fuel, k <= fuel -> GetString fuel sample_reader "log" "logpath" "" = Some v.
Proof. apply (get_expands sample_reader sample_rank); [exact sample_acyclic|vm_compute; reflexivity]. Defined.

(** The part of a line beyond 199 characters is read as a line of its own. *)
Lemma long_line_split :
  let v := (fix rep (n : nat) := match n with O => "" | S n' => String "v" (rep n') end) 195 in
  let r := INIReader_new (Some ("[a]" +:+ String newline ("x = " +:+ v +:+ "tail" +:+ String newline ""))) in
  r.1 = 3%Z /\ Reader_Get r.2 "a" "x" "" = v.
Proof. vm_compute. split; reflexivity. Qed.
