(* ===== verification/Config.v ===== *)
(** * Configuration

    [Config] (src/src/common/config.h and config.cpp): the sections of the file
    that a server reads at start-up, over the ini parser (IniParser.v).  The
    object is the static [GlobalConfig()], whose numbers are 0 before [Init].
    [None] is a value whose references never end ([INIParser_Get]), or an
    overflow of [long]. *)

From Stdlib Require Import Ascii.
From S2P Require Import Prelude Codec Net IniParser.

#[local] Open Scope string_scope.
#[local] Open Scope Z_scope.

Definition kMinimumPort : Z := 8000.
Definition kMaximumPort : Z := 10000.

Definition is_empty (s : string) : bool := String.eqb s "".

Record CommonCfg : Type := mkCommonCfg {
  cc_instance : Z; cc_set_id : Z; cc_subsys : string; cc_module : string;
  cc_region : string; cc_myname : string; cc_set_prefix : string
}.

Definition CommonCfg_valid (c : CommonCfg) : bool :=
  negb (cc_instance c =? -1) && negb (is_empty (cc_subsys c)) && negb (is_empty (cc_module c))
  && negb (is_empty (cc_region c)) && negb (is_empty (cc_myname c)).

Record NamesCfg : Type := mkNamesCfg {
  nm_access : string; nm_setmanager : string; nm_extentmanager : string; nm_extentserver : string
}.

Record NetworkCfg : Type := mkNetworkCfg {
  nc_public_ip : string; nc_private_ip : string; nc_public_port : Z; nc_private_port : Z
}.

Definition port_valid (p : Z) : bool := (kMinimumPort <=? p) && (p <=? kMaximumPort).

Definition NetworkCfg_valid (c : NetworkCfg) : bool :=
  negb (is_empty (nc_public_ip c)) && negb (is_empty (nc_private_ip c))
  && port_valid (nc_public_port c) && port_valid (nc_private_port c).

Definition public_endpoint (c : NetworkCfg) : string := nc_public_ip c +:+ ":" +:+ dec (nc_public_port c).

Record LogCfg : Type := mkLogCfg {
  lc_maxsize : Z; lc_level : string; lc_logpath : string; lc_prefix : string; lc_suffix : string
}.

Definition LogCfg_valid (c : LogCfg) : bool :=
  (0 <? lc_maxsize c) && negb (is_empty (lc_logpath c)) && negb (is_empty (lc_prefix c)) && negb (is_empty (lc_suffix c)).

Record BrpcCfg : Type := mkBrpcCfg { bc_num_threads : Z; bc_max_concurrency : Z; bc_worker_core_mask : string }.
Record RocksDBCfg : Type := mkRocksDBCfg { rc_db_path : string; rc_compact_threads : Z }.

Record SpdkCfg : Type := mkSpdkCfg {
  sc_shm_id : Z; sc_mem_channel : Z; sc_mem_size : Z; sc_master_core : Z; sc_num_pci_addr : Z;
  sc_no_pci : bool; sc_hugepage_single_segments : bool; sc_unlink_hugepage : bool;
  sc_core_mask : string; sc_huge_dir : string; sc_name : string; sc_json_config_file : string; sc_rpc_addr : string
}.

Record SetManagerCfg : Type := mkSetManagerCfg {
  smc_obsolete_interval_sec : Z; smc_num_sets : Z; smc_set_ip : string; smc_set_port : Z
}.

Record ExtentManagerCfg : Type := mkExtentManagerCfg {
  emc_heartbeat_interval_sec : Z; emc_extent_size : Z; emc_max_block_size : Z; emc_rg_per_es : Z;
  emc_router_inst_shift : Z; emc_gc_interval_sec : Z; emc_gc_begin : Z; emc_gc_end : Z; emc_em_ip : string; emc_em_port : Z
}.

Record ExtentServerCfg : Type := mkExtentServerCfg {
  esc_heartbeat_interval_sec : Z; esc_pool_id : string; esc_rack : string; esc_dev_name : string; esc_dev_type : string;
  esc_replication_type : string; esc_spdk_request_ring_size : Z; esc_num_spdk_workers : Z;
  esc_spdk_worker_core_mask : string; esc_slow_request_time : Z
}.

Record Config : Type := mkConfig {
  common_ : CommonCfg; names_ : NamesCfg; network_ : NetworkCfg; log_ : LogCfg; brpc_ : BrpcCfg;
  rocksdb_ : RocksDBCfg; etcd_initial_cluster : string; spdk_ : SpdkCfg; access_update_interval_sec : Z;
  setmanager_ : SetManagerCfg; extentmanager_ : ExtentManagerCfg; extentserver_ : ExtentServerCfg
}.

Definition no_names : NamesCfg := mkNamesCfg "" "" "" "".
Definition no_network : NetworkCfg := mkNetworkCfg "" "" 0 0.
Definition no_log : LogCfg := mkLogCfg 0 "" "" "" "".
Definition no_spdk : SpdkCfg := mkSpdkCfg 0 0 0 0 0 false false false "" "" "" "" "".
Definition no_setmanager : SetManagerCfg := mkSetManagerCfg 0 0 "" 0.
Definition no_extentmanager : ExtentManagerCfg := mkExtentManagerCfg 0 0 0 0 0 0 0 0 "" 0.
Definition no_extentserver : ExtentServerCfg := mkExtentServerCfg 0 "" "" "" "" "" 0 0 "" 0.

(** ** Sections *)

Section Parse.
Context (fuel : nat) (r : Reader).

Definition get_int (section name : string) (default_value : Z) : Z := to_int (GetInteger r section name default_value).
Definition get_str (section name default_value : string) : option string := GetString fuel r section name default_value.

Definition parse_common : option CommonCfg :=
  let instance := get_int "common" "instance" (-1) in
  let set_id := get_int "common" "set_id" (-1) in
  subsys ← get_str "common" "subsys" "";
  module ← get_str "common" "module" "";
  region ← get_str "common" "region" "";
  myname ← get_str "common" "myname" "";
  set_prefix ← get_str "common" "set_prefix" "";
  Some (mkCommonCfg instance set_id subsys module region myname set_prefix).

Definition parse_names : option NamesCfg :=
  if negb (HasSection r "names") then Some no_names
  else
    access ← get_str "names" "access" "";
    setmanager ← get_str "names" "setmanager" "";
    extentmanager ← get_str "names" "extentmanager" "";
    extentserver ← get_str "names" "extentserver" "";
    Some (mkNamesCfg access setmanager extentmanager extentserver).

Definition parse_network : option NetworkCfg :=
  if negb (HasSection r "network") then Some no_network
  else
    public_ip ← get_str "network" "public_ip" "";
    let public_port := get_int "network" "public_port" 0 in
    private_ip ← if HasValue r "network" "private_ip" then get_str "network" "private_ip" "" else Some public_ip;
    let private_port :=
      if HasValue r "network" "private_port" then get_int "network" "private_port" 0 else public_port in
    Some (mkNetworkCfg public_ip private_ip public_port private_port).

(** A number of megabytes, or of gigabytes when [G] follows it. *)
Definition max_size (s : string) : option Z :=
  let '(value, p) := match strtol 10 s with Some x => x | None => (0, s) end in
  let n := value * (if head_is p "G" then 1073741824 else 1048576) in
  if (LONG_MIN <=? n) && (n <=? LONG_MAX) then Some (wrap64 n) else None.

(** [inl]: no [maxsize], [Parse] returns -1. *)
Definition parse_log : option (() + LogCfg) :=
  if negb (HasSection r "log") then Some (inr no_log)
  else
    level ← get_str "log" "level" "INFO";
    logpath ← get_str "log" "logpath" "";
    prefix ← get_str "log" "prefix" "";
    suffix ← get_str "log" "suffix" "";
    strMaxSize ← get_str "log" "maxsize" "";
    if is_empty strMaxSize then Some (inl ())
    else maxsize ← max_size strMaxSize; Some (inr (mkLogCfg maxsize level logpath prefix suffix)).

Definition parse_brpc : option BrpcCfg :=
  let num_threads := get_int "brpc" "num_threads" 8 in
  let max_concurrency := get_int "brpc" "max_concurrency" 0 in
  core_mask ← get_str "brpc" "brpc_worker_core_mask" "";
  Some (mkBrpcCfg num_threads max_concurrency core_mask).

Definition parse_rocksdb : option RocksDBCfg :=
  if negb (HasSection r "rocksdb") then Some (mkRocksDBCfg "" 0)
  else
    db_path ← get_str "rocksdb" "db_path" "";
    Some (mkRocksDBCfg db_path (get_int "rocksdb" "compact_threads" 2)).

Definition parse_spdk : option SpdkCfg :=
  if negb (HasSection r "spdk") then Some no_spdk
  else
    let i := get_int "spdk" in
    let b := fun name => GetBoolean r "spdk" name false in
    core_mask ← get_str "spdk" "core_mask" "";
    huge_dir ← get_str "spdk" "huge_dir" "";
    name ← get_str "spdk" "name" "";
    json ← get_str "spdk" "json_config_file" "";
    rpc_addr ← get_str "spdk" "rpc_addr" "";
    Some (mkSpdkCfg (i "shm_id" (-1)) (i "mem_channel" (-1)) (i "mem_size" (-1)) (i "master_core" (-1))
            (wrap64 (i "num_pci_addr" 0)) (b "no_pci") (b "hugepage_single_segments") (b "unlink_hugepage")
            core_mask huge_dir name json rpc_addr).

Definition parse_access : Z :=
  if negb (HasSection r "access") then 0 else get_int "access" "update_interavl_sec" 5.

Definition parse_setmanager : option SetManagerCfg :=
  if negb (HasSection r "setmanager") then Some no_setmanager
  else
    set_ip ← get_str "setmanager" "set_ip" "";
    Some (mkSetManagerCfg (get_int "setmanager" "obsolete_interval_sec" 5) (get_int "setmanager" "num_sets" 0)
            set_ip (get_int "setmanager" "set_port" 0)).

Definition parse_extentmanager : option ExtentManagerCfg :=
  if negb (HasSection r "extentmanager") then Some no_extentmanager
  else
    let i := get_int "extentmanager" in
    em_ip ← get_str "extentmanager" "em_ip" "";
    Some (mkExtentManagerCfg (i "heartbeat_interval_sec" 5)
            (wrap64 (GetInteger r "extentmanager" "extent_size" 1073741824))
            (wrap32 (GetInteger r "extentmanager" "max_block_size" 67108864))
            (i "rg_per_es" 50) (i "router_inst_shift" 6) (i "gc_interval_sec" 60) (i "gc_begin" 2) (i "gc_end" 5)
            em_ip (i "em_port" 0)).

(** [inl]: no device, [Parse] returns -1. *)
Definition parse_extentserver : option (() + ExtentServerCfg) :=
  if negb (HasSection r "extentserver") then Some (inr no_extentserver)
  else
    let i := get_int "extentserver" in
    let s := get_str "extentserver" in
    pool_id ← s "pool_id" "";
    rack ← s "rack" "";
    dev_name ← s "dev_name" "";
    dev_type ← s "dev_type" "";
    if is_empty dev_name || is_empty dev_type then Some (inl ())
    else
      replication_type ← s "replication_type" "standard";
      mask ← s "spdk_worker_core_mask" "";
      Some (inr (mkExtentServerCfg (i "heartbeat_interval_sec" 5) pool_id rack dev_name dev_type replication_type
              (i "spdk_request_ring_size" 52428800) (i "num_spdk_workers" 2) mask (i "slow_request_time" 400))).

(** [Parse] after the file is read: [Some None] is a return of -1. *)
Definition parse_sections : option (option Config) :=
  if negb (HasSection r "common") then Some None
  else
    common ← parse_common;
    if negb (CommonCfg_valid common) then Some None
    else
      names ← parse_names;
      network ← parse_network;
      if negb (NetworkCfg_valid network) then Some None
      else
        log ← parse_log;
        match log with
        | inl _ => Some None
        | inr log =>
            if negb (LogCfg_valid log) then Some None
            else
              brpc ← parse_brpc;
              rocksdb ← parse_rocksdb;
              etcd ← get_str "etcd" "initial_cluster" "";
              spdk ← parse_spdk;
              setmanager ← parse_setmanager;
              extentmanager ← parse_extentmanager;
              extentserver ← parse_extentserver;
              match extentserver with
              | inl _ => Some None
              | inr extentserver =>
                  Some (Some (mkConfig common names network log brpc rocksdb etcd spdk parse_access setmanager
                                extentmanager extentserver))
              end
        end.
End Parse.

Definition Config_Parse (fuel : nat) (file : option string) : option (option Config) :=
  let '(error, r) := INIReader_new file in
  if negb (error =? 0) then Some None else parse_sections fuel r.

(** [Init]: the configuration, or [None] for -1. *)
Definition Config_Init (fuel : nat) (module : string) (file : option string) : option (option Config) :=
  c ← Config_Parse fuel file;
  match c with
  | None => Some None
  | Some c => if String.eqb module (cc_module (common_ c)) then Some (Some c) else Some None
  end.
