(* ===== verification/ConfigTheorems.v ===== *)
(** * Theorems on the configuration

    [Init] against a description of the file: what each field is, by the
    values the file gives its keys, and which files are refused. *)

From Stdlib Require Import Ascii.
From S2P Require Import Prelude Codec Net IniParser IniTheorems Config.

#[local] Open Scope string_scope.
#[local] Open Scope Z_scope.

(** What a key reads as: its value with the references replaced, or the
    default without one. *)
Definition Reads (r : Reader) (s n d v : string) : Prop :=
  if HasValue r s n then Resolves r s n v else v = d.

(** ** The meaning of a file *)

Section Meaning.
Context (r : Reader).

(** A section, or what is left in the object without it. *)
Definition in_section {A} (name : string) (none : A) (P : A -> Prop) (c : A) : Prop :=
  if HasSection r name then P c else c = none.

Definition Common_of (c : CommonCfg) : Prop :=
  cc_instance c = get_int r "common" "instance" (-1) /\ cc_set_id c = get_int r "common" "set_id" (-1) /\
  Reads r "common" "subsys" "" (cc_subsys c) /\ Reads r "common" "module" "" (cc_module c) /\
  Reads r "common" "region" "" (cc_region c) /\ Reads r "common" "myname" "" (cc_myname c) /\
  Reads r "common" "set_prefix" "" (cc_set_prefix c).

Definition Names_of : NamesCfg -> Prop := in_section "names" no_names (fun c =>
  Reads r "names" "access" "" (nm_access c) /\ Reads r "names" "setmanager" "" (nm_setmanager c) /\
  Reads r "names" "extentmanager" "" (nm_extentmanager c) /\ Reads r "names" "extentserver" "" (nm_extentserver c)).

(** The private address is the public one unless it is given. *)
Definition Network_of : NetworkCfg -> Prop := in_section "network" no_network (fun c =>
  Reads r "network" "public_ip" "" (nc_public_ip c) /\ Reads r "network" "private_ip" (nc_public_ip c) (nc_private_ip c) /\
  nc_public_port c = get_int r "network" "public_port" 0 /\
  nc_private_port c =
    (if HasValue r "network" "private_port" then get_int r "network" "private_port" 0 else nc_public_port c)).

Definition Log_of : LogCfg -> Prop := in_section "log" no_log (fun c =>
  Reads r "log" "level" "INFO" (lc_level c) /\ Reads r "log" "logpath" "" (lc_logpath c) /\
  Reads r "log" "prefix" "" (lc_prefix c) /\ Reads r "log" "suffix" "" (lc_suffix c) /\
  exists m, Reads r "log" "maxsize" "" m /\ max_size m = Some (lc_maxsize c)).

Definition Brpc_of (c : BrpcCfg) : Prop :=
  bc_num_threads c = get_int r "brpc" "num_threads" 8 /\ bc_max_concurrency c = get_int r "brpc" "max_concurrency" 0 /\
  Reads r "brpc" "brpc_worker_core_mask" "" (bc_worker_core_mask c).

Definition RocksDB_of : RocksDBCfg -> Prop := in_section "rocksdb" (mkRocksDBCfg "" 0) (fun c =>
  Reads r "rocksdb" "db_path" "" (rc_db_path c) /\ rc_compact_threads c = get_int r "rocksdb" "compact_threads" 2).

Definition Spdk_of : SpdkCfg -> Prop := in_section "spdk" no_spdk (fun c =>
  sc_shm_id c = get_int r "spdk" "shm_id" (-1) /\ sc_mem_channel c = get_int r "spdk" "mem_channel" (-1) /\
  sc_mem_size c = get_int r "spdk" "mem_size" (-1) /\ sc_master_core c = get_int r "spdk" "master_core" (-1) /\
  sc_num_pci_addr c = wrap64 (get_int r "spdk" "num_pci_addr" 0) /\
  sc_no_pci c = GetBoolean r "spdk" "no_pci" false /\
  sc_hugepage_single_segments c = GetBoolean r "spdk" "hugepage_single_segments" false /\
  sc_unlink_hugepage c = GetBoolean r "spdk" "unlink_hugepage" false /\
  Reads r "spdk" "core_mask" "" (sc_core_mask c) /\ Reads r "spdk" "huge_dir" "" (sc_huge_dir c) /\
  Reads r "spdk" "name" "" (sc_name c) /\ Reads r "spdk" "json_config_file" "" (sc_json_config_file c) /\
  Reads r "spdk" "rpc_addr" "" (sc_rpc_addr c)).

Definition SetManager_of : SetManagerCfg -> Prop := in_section "setmanager" no_setmanager (fun c =>
  smc_obsolete_interval_sec c = get_int r "setmanager" "obsolete_interval_sec" 5 /\
  smc_num_sets c = get_int r "setmanager" "num_sets" 0 /\ Reads r "setmanager" "set_ip" "" (smc_set_ip c) /\
  smc_set_port c = get_int r "setmanager" "set_port" 0).

Definition ExtentManager_of : ExtentManagerCfg -> Prop := in_section "extentmanager" no_extentmanager (fun c =>
  let i := get_int r "extentmanager" in
  emc_heartbeat_interval_sec c = i "heartbeat_interval_sec" 5 /\
  emc_extent_size c = wrap64 (GetInteger r "extentmanager" "extent_size" 1073741824) /\
  emc_max_block_size c = wrap32 (GetInteger r "extentmanager" "max_block_size" 67108864) /\
  emc_rg_per_es c = i "rg_per_es" 50 /\ emc_router_inst_shift c = i "router_inst_shift" 6 /\
  emc_gc_interval_sec c = i "gc_interval_sec" 60 /\ emc_gc_begin c = i "gc_begin" 2 /\ emc_gc_end c = i "gc_end" 5 /\
  Reads r "extentmanager" "em_ip" "" (emc_em_ip c) /\ emc_em_port c = i "em_port" 0).

Definition ExtentServer_of : ExtentServerCfg -> Prop := in_section "extentserver" no_extentserver (fun c =>
  let i := get_int r "extentserver" in
  let s := Reads r "extentserver" in
  esc_heartbeat_interval_sec c = i "heartbeat_interval_sec" 5 /\ s "pool_id" "" (esc_pool_id c) /\
  s "rack" "" (esc_rack c) /\ s "dev_name" "" (esc_dev_name c) /\ s "dev_type" "" (esc_dev_type c) /\
  s "replication_type" "standard" (esc_replication_type c) /\
  esc_spdk_request_ring_size c = i "spdk_request_ring_size" 52428800 /\
  esc_num_spdk_workers c = i "num_spdk_workers" 2 /\ s "spdk_worker_core_mask" "" (esc_spdk_worker_core_mask c) /\
  esc_slow_request_time c = i "slow_request_time" 400).

Record Describes (c : Config) : Prop := mkDescribes {
  d_common : Common_of (common_ c); d_names : Names_of (names_ c); d_network : Network_of (network_ c);
  d_log : Log_of (log_ c); d_brpc : Brpc_of (brpc_ c); d_rocksdb : RocksDB_of (rocksdb_ c);
  d_etcd : Reads r "etcd" "initial_cluster" "" (etcd_initial_cluster c); d_spdk : Spdk_of (spdk_ c);
  d_access : in_section "access" 0 (fun t => t = get_int r "access" "update_interavl_sec" 5) (access_update_interval_sec c); d_setmanager : SetManager_of (setmanager_ c);
  d_extentmanager : ExtentManager_of (extentmanager_ c); d_extentserver : ExtentServer_of (extentserver_ c)
}.

(** A file a server of the module starts with: it names its instance and
    itself, its two addresses have a port in the range that is reserved, its log
    has a place and a size, and an extent server has a device. *)
Record Acceptable (module : string) (c : Config) : Prop := mkAcceptable {
  a_instance : cc_instance (common_ c) <> -1;
  a_module : cc_module (common_ c) = module /\ module <> "";
  a_names : cc_subsys (common_ c) <> "" /\ cc_region (common_ c) <> "" /\ cc_myname (common_ c) <> "";
  a_public : nc_public_ip (network_ c) <> "" /\ 8000 <= nc_public_port (network_ c) <= 10000;
  a_private : nc_private_ip (network_ c) <> "" /\ 8000 <= nc_private_port (network_ c) <= 10000;
  a_log : lc_logpath (log_ c) <> "" /\ lc_prefix (log_ c) <> "" /\ lc_suffix (log_ c) <> "" /\ 0 < lc_maxsize (log_ c);
  a_device : HasSection r "extentserver" = true ->
    esc_dev_name (extentserver_ c) <> "" /\ esc_dev_type (extentserver_ c) <> ""
}.

(** ** Acceptance by evaluation *)

Definition device_ok (c : ExtentServerCfg) : bool :=
  negb (HasSection r "extentserver") || negb (is_empty (esc_dev_name c) || is_empty (esc_dev_type c)).

Definition acceptable (module : string) (c : Config) : bool :=
  CommonCfg_valid (common_ c) && NetworkCfg_valid (network_ c) && LogCfg_valid (log_ c)
  && device_ok (extentserver_ c) && String.eqb module (cc_module (common_ c)).
End Meaning.

Lemma is_empty_false s : negb (is_empty s) = true <-> s <> "".
Proof. unfold is_empty. by rewrite negb_true_iff, String.eqb_neq. Qed.

Lemma port_valid_iff p : port_valid p = true <-> 8000 <= p <= 10000.
Proof. unfold port_valid, kMinimumPort, kMaximumPort. lia. Qed.

Lemma acceptable_spec r module c : acceptable r module c = true <-> Acceptable r module c.
Proof.
  unfold acceptable, CommonCfg_valid, NetworkCfg_valid, LogCfg_valid, device_ok.
  rewrite !andb_true_iff, orb_true_iff, !negb_orb, andb_true_iff, !is_empty_false, !port_valid_iff, !negb_true_iff,
    Z.eqb_neq, Z.ltb_lt, String.eqb_eq.
  split.
  - intros ((((Hc & Hn) & Hl) & Hd) & ->). constructor; try tauto. intros Hs. destruct Hd; [congruence|done].
  - intros [Hi [<- Hm] Hc Hp Hq Hl Hd]. split_and!; try tauto.
    destruct (HasSection r "extentserver"); [right; by apply Hd|by left].
Qed.

(** ** Sections *)

Lemma Reads_returns r s n d v : Reads r s n d v -> returns (fun fuel => get_str fuel r s n d) v.
Proof.
  unfold Reads, get_str, GetString. destruct (HasValue r s n); cbn [negb]; [apply Resolves_returns|].
  intros ->. apply returns_pure.
Qed.

Lemma tolower_app a b : tolower (a +:+ b) = tolower a +:+ tolower b.
Proof. induction a as [|c a IH]; cbn; [done|]. by rewrite IH. Qed.

Lemma prefix_same a p s : String.prefix p s = true -> String.prefix (a +:+ p) (a +:+ s) = true.
Proof. induction a as [|c a IH]; cbn; [done|]. intros H. destruct (ascii_dec c c); [by apply IH|done]. Qed.

(** A key of the section is enough for [HasSection]. *)
Lemma HasValue_section r s n : HasValue r s n = true -> HasSection r s = true.
Proof.
  unfold HasValue. intros Hv. apply HasSection_spec. exists (MakeKey s n). split; [by destruct (_ !! _)|].
  unfold MakeKey. rewrite !tolower_app. apply prefix_same, prefix_same. by destruct (tolower n).
Qed.

Ltac reads := repeat (eapply returns_bind; [by apply Reads_returns|]); apply returns_pure.
Ltac parsed P F c :=
  unfold P, F, in_section; case_match; cbn [negb];
  [destruct c; cbn; intros; destruct_and?; subst; reads|intros ->; apply returns_pure].

Lemma common_returns r c : Common_of r c -> returns (fun fuel => parse_common fuel r) c.
Proof. destruct c. unfold Common_of. cbn. intros (-> & -> & ? & ? & ? & ? & ?). unfold parse_common. reads. Qed.

Lemma names_returns r c : Names_of r c -> returns (fun fuel => parse_names fuel r) c.
Proof. parsed Names_of parse_names c. Qed.

Lemma rocksdb_returns r c : RocksDB_of r c -> returns (fun fuel => parse_rocksdb fuel r) c.
Proof. parsed RocksDB_of parse_rocksdb c. Qed.

Lemma spdk_returns r c : Spdk_of r c -> returns (fun fuel => parse_spdk fuel r) c.
Proof. parsed Spdk_of parse_spdk c. Qed.

Lemma setmanager_returns r c : SetManager_of r c -> returns (fun fuel => parse_setmanager fuel r) c.
Proof. parsed SetManager_of parse_setmanager c. Qed.

Lemma extentmanager_returns r c : ExtentManager_of r c -> returns (fun fuel => parse_extentmanager fuel r) c.
Proof. parsed ExtentManager_of parse_extentmanager c. Qed.

Lemma brpc_returns r c : Brpc_of r c -> returns (fun fuel => parse_brpc fuel r) c.
Proof. destruct c. unfold Brpc_of. cbn. intros (-> & -> & ?). unfold parse_brpc. reads. Qed.

Lemma network_returns r c : Network_of r c -> returns (fun fuel => parse_network fuel r) c.
Proof.
  unfold Network_of, parse_network, in_section. case_match; cbn [negb]; [|intros ->; apply returns_pure].
  destruct c as [pub priv pport qport]; cbn. intros (Hp & Hq & -> & ->).
  eapply returns_bind; [by apply Reads_returns|]. eapply returns_bind; [|apply returns_pure].
  unfold Reads in Hq. case_match eqn:Hv; [|subst; apply returns_pure].
  apply Reads_returns. unfold Reads. by rewrite Hv.
Qed.

(** Without a size the section is refused either way. *)
Lemma log_returns r c : Log_of r c ->
  exists x, returns (fun fuel => parse_log fuel r) x /\ (x = inr c \/ x = inl () /\ LogCfg_valid c = false).
Proof.
  unfold Log_of, parse_log, in_section. case_match; cbn [negb]; [|intros ->; eexists; split; [apply returns_pure|by left]].
  destruct c as [size level path pre suf]; cbn. intros (? & ? & ? & ? & m & Hm & Hs).
  destruct (is_empty m) eqn:Em.
  - exists (inl ()). split; [|right; split; [done|]].
    + repeat (eapply returns_bind; [by apply Reads_returns|]). cbn beta. rewrite Em. apply returns_pure.
    + apply String.eqb_eq in Em as ->. cbn in Hs. by injection Hs as <-.
  - exists (inr (mkLogCfg size level path pre suf)). split; [|by left].
    repeat (eapply returns_bind; [by apply Reads_returns|]). cbn beta. rewrite Em, Hs. apply returns_pure.
Qed.

Lemma extentserver_returns r c : ExtentServer_of r c ->
  returns (fun fuel => parse_extentserver fuel r) (if device_ok r c then inr c else inl ()).
Proof.
  unfold ExtentServer_of, parse_extentserver, device_ok, in_section.
  case_match; cbn [negb orb]; [|intros ->; apply returns_pure].
  destruct c; cbn. intros; destruct_and?; subst. do 4 (eapply returns_bind; [by apply Reads_returns|]). cbn beta.
  destruct (_ || _); cbn [negb]; [apply returns_pure|]. reads.
Qed.

(** ** The file as a whole *)

Definition sections_ok (r : Reader) (c : Config) : bool :=
  CommonCfg_valid (common_ c) && NetworkCfg_valid (network_ c) && LogCfg_valid (log_ c) && device_ok r (extentserver_ c).

(** Without the section there is no instance either. *)
Lemma common_needs_section r c : Common_of r c -> HasSection r "common" = false -> CommonCfg_valid c = false.
Proof.
  intros (Hi & _) Hs. unfold CommonCfg_valid. rewrite Hi. unfold get_int, GetInteger.
  destruct (HasValue r "common" "instance") eqn:Hv; [|done]. apply HasValue_section in Hv. congruence.
Qed.

Lemma sections_return r c : Describes r c ->
  returns (fun fuel => parse_sections fuel r) (if sections_ok r c then Some c else None).
Proof.
  intros [Hc Hn Ht Hl Hb Hk He Hp Ha Hs Hm Hx]. unfold sections_ok, parse_sections.
  destruct (HasSection r "common") eqn:E; cbn [negb];
    [|rewrite (common_needs_section _ _ Hc E); apply returns_pure].
  eapply returns_bind; [by apply common_returns|].
  destruct (CommonCfg_valid (common_ c)); cbn [negb andb]; [|apply returns_pure].
  eapply returns_bind; [by apply names_returns|]. eapply returns_bind; [by apply network_returns|].
  destruct (NetworkCfg_valid (network_ c)); cbn [negb andb]; [|apply returns_pure].
  destruct (log_returns r _ Hl) as (x & Hr & Hx'). eapply returns_bind; [exact Hr|].
  destruct Hx' as [->|[-> ->]]; [|apply returns_pure].
  destruct (LogCfg_valid (log_ c)); cbn [negb andb]; [|apply returns_pure].
  eapply returns_bind; [by apply brpc_returns|]. eapply returns_bind; [by apply rocksdb_returns|].
  eapply returns_bind; [by apply Reads_returns|]. eapply returns_bind; [by apply spdk_returns|].
  eapply returns_bind; [by apply setmanager_returns|]. eapply returns_bind; [by apply extentmanager_returns|].
  eapply returns_bind; [by apply extentserver_returns|].
  destruct (device_ok r (extentserver_ c)); [|apply returns_pure].
  replace (parse_access r) with (access_update_interval_sec c); [destruct c; apply returns_pure|].
  unfold in_section, parse_access in *. by destruct (HasSection r "access").
Qed.

Lemma Init_returns r text module c :
  INIReader_new (Some text) = (0, r) -> Describes r c ->
  returns (fun fuel => Config_Init fuel module (Some text)) (if acceptable r module c then Some c else None).
Proof.
  intros Hr Hd. unfold Config_Init, Config_Parse. rewrite Hr. cbn [Z.eqb negb].
  eapply returns_bind; [by apply sections_return|]. fold (sections_ok r c).
  unfold acceptable. fold (sections_ok r c). destruct (sections_ok r c); cbn [andb]; [|apply returns_pure].
  destruct (String.eqb _ _); apply returns_pure.
Qed.

Section Total.
Context (r : Reader) (rank : string -> nat) (Hacyclic : acyclic r rank).
Context (Hsize : forall m, Reads r "log" "maxsize" "" m -> is_Some (max_size m)).

Lemma Reads_total s n d : exists v, Reads r s n d v.
Proof. unfold Reads. case_match; [by eapply acyclic_resolves|by exists d]. Qed.

Lemma in_section_total {A} name (none : A) (P : A -> Prop) : (exists c, P c) -> exists c, in_section r name none P c.
Proof. intros [c Hc]. unfold in_section. case_match; by eexists. Qed.

Ltac keys s l :=
  lazymatch l with
  | (?n, ?d) :: ?l' => destruct (Reads_total s n d) as [? ?]; keys s l'
  | [] => idtac
  end.
Ltac fields := cbn; split_and!; first [reflexivity | eassumption].

Lemma Common_total : exists c, Common_of r c.
Proof.
  keys "common" [("subsys", ""); ("module", ""); ("region", ""); ("myname", ""); ("set_prefix", "")].
  eexists (mkCommonCfg _ _ _ _ _ _ _). unfold Common_of. fields.
Qed.

Lemma Names_total : exists c, Names_of r c.
Proof.
  apply in_section_total. keys "names" [("access", ""); ("setmanager", ""); ("extentmanager", ""); ("extentserver", "")].
  eexists (mkNamesCfg _ _ _ _). fields.
Qed.

Lemma Network_total : exists c, Network_of r c.
Proof.
  apply in_section_total. destruct (Reads_total "network" "public_ip" "") as [ip Hip].
  destruct (Reads_total "network" "private_ip" ip) as [ip' Hip']. eexists (mkNetworkCfg ip ip' _ _). fields.
Qed.

Lemma Log_total : exists c, Log_of r c.
Proof.
  apply in_section_total. keys "log" [("level", "INFO"); ("logpath", ""); ("prefix", ""); ("suffix", "")].
  destruct (Reads_total "log" "maxsize" "") as [m Hm]. destruct (Hsize m Hm) as [z Hz].
  eexists (mkLogCfg z _ _ _ _). cbn. split_and!; [eassumption..|]. by exists m.
Qed.

Lemma Spdk_total : exists c, Spdk_of r c.
Proof.
  apply in_section_total.
  keys "spdk" [("core_mask", ""); ("huge_dir", ""); ("name", ""); ("json_config_file", ""); ("rpc_addr", "")].
  eexists (mkSpdkCfg _ _ _ _ _ _ _ _ _ _ _ _ _). fields.
Qed.

Lemma ExtentServer_total : exists c, ExtentServer_of r c.
Proof.
  apply in_section_total.
  keys "extentserver" [("pool_id", ""); ("rack", ""); ("dev_name", ""); ("dev_type", ""); ("replication_type", "standard");
                       ("spdk_worker_core_mask", "")].
  eexists (mkExtentServerCfg _ _ _ _ _ _ _ _ _ _). fields.
Qed.

Lemma small_total : (exists c, Brpc_of r c) /\ (exists c, RocksDB_of r c) /\ (exists c, SetManager_of r c) /\ (exists c, ExtentManager_of r c).
Proof.
  split_and!; [|apply in_section_total..].
  - keys "brpc" [("brpc_worker_core_mask", "")]. eexists (mkBrpcCfg _ _ _). unfold Brpc_of. fields.
  - keys "rocksdb" [("db_path", "")]. eexists (mkRocksDBCfg _ _). fields.
  - keys "setmanager" [("set_ip", "")]. eexists (mkSetManagerCfg _ _ _ _). fields.
  - keys "extentmanager" [("em_ip", "")]. eexists (mkExtentManagerCfg _ _ _ _ _ _ _ _ _ _). fields.
Qed.

Lemma Describes_total : exists c, Describes r c.
Proof.
  destruct Common_total as [c ?], Names_total as [n ?], Network_total as [t ?], Log_total as [l ?], Spdk_total as [p ?],
    ExtentServer_total as [x ?], small_total as ([b ?] & [k ?] & [m ?] & [e ?]), (Reads_total "etcd" "initial_cluster" "") as [v ?].
  destruct (in_section_total "access" 0 (fun t => t = get_int r "access" "update_interavl_sec" 5)) as [a ?]; [by eexists|].
  by exists (mkConfig c n t l b k v p a m e x).
Qed.
End Total.


(** ** The files of src/conf *)

(** conf/setmanager_sample.ini. *)
Definition setmanager_sample : string :=
"[common]
subsys                      = cyprestore
module                      = setmanager
region                      = beijing
instance 					= 1
myname                      = /NS/@{common.subsys}/@{common.module}

[setmanager]
obsolete_interval_sec = 60
num_sets = 2

[network]
public_ip                   = 172.17.60.29
public_port                 = 9000

[log]
level                    	= DEBUG
maxsize                     = 50M
logpath                     = /var/log/@{common.subsys}/@{common.module}
prefix                      = @{common.module}_@{common.instance}
suffix                      = .log

[brpc]
num_threads = 0
max_concurrency = 0

[etcd]
initial_cluster             = 192.168.1.100:2380,192.168.1.200:2380,192.168.1.300:2380
".

(** conf/access.ini. *)
Definition access_sample : string :=
"[global]
id = 0
name = access-0
public_ip = 172.17.60.29
public_port = 6000 
log_path =  /var/log/cyprestore/access

[brpc]
num_threads = 2 
has_builtin_services = true 
 
[setmanager]
public_ip =172.17.60.28
public_port = 63000
".

Definition sample_conf : Reader := (INIReader_new (Some setmanager_sample)).2.
Definition conf_rank (k : string) : nat :=
  if existsb (String.eqb k) ["common.myname"; "log.logpath"; "log.prefix"] then 1 else 0.

Lemma sample_conf_acyclic : acyclic sample_conf conf_rank.
Proof.
  apply (acyclic_check_sound _ _
    [([("/NS/", "common", "subsys"); ("/", "common", "module")], "");
     ([("/var/log/", "common", "subsys"); ("/", "common", "module")], "");
     ([("", "common", "module"); ("_", "common", "instance")], "")]).
  vm_compute. reflexivity.
Qed.

Lemma sample_conf_size m : Reads sample_conf "log" "maxsize" "" m -> is_Some (max_size m).
Proof.
  intros Hm. replace m with "50M"; [by vm_compute; eexists|].
  refine (returns_unique _ _ _ _ (Reads_returns _ _ _ _ _ Hm)). exists 1%nat. intros [|fuel] Hf; [lia|]. vm_compute. reflexivity.
Qed.


(** The set manager starts with its sample. *)
Lemma setmanager_sample_accepted :
  exists c, Config_Init 9 "setmanager" (Some setmanager_sample) = Some (Some c) /\
    public_endpoint (network_ c) = "172.17.60.29:9000" /\ lc_logpath (log_ c) = "/var/log/cyprestore/setmanager" /\
    lc_prefix (log_ c) = "setmanager_1" /\ lc_maxsize (log_ c) = 52428800 /\ smc_num_sets (setmanager_ c) = 2.
Proof. eexists. split; [vm_compute; reflexivity|]. vm_compute. by repeat split. Qed.

(** The sample of the access service has no [common] section: every module
    refuses it. *)
Lemma access_sample_refused fuel module : Config_Init fuel module (Some access_sample) = Some None.
Proof. vm_compute. reflexivity. Qed.
