(* ===== verification/TimerThread.v ===== *)
(** * Timer thread

    src/src/utils/timer_thread.h and timer_thread.cpp: the periodic calls of the
    collector, of the reporters and of the access service.  A [Timer] is an
    object at an address, owned by [timers_] alone and known to epoll by that
    address, so erasing it from [timers_] frees it.  What the system calls
    answer is an argument; [None] is an access to a freed timer.  The functions
    that the servers register do not call the thread back. *)

From stdpp Require Import gmap list.
From S2P Require Import Prelude.

#[local] Open Scope Z_scope.

Record TimerOptions : Type := mkTimerOptions {
  repeated : bool; interval_milliseconds : Z; func : Z
}.

Record Timer : Type := mkTimer { options_ : TimerOptions; canceled_ : bool; fd_ : Z }.

Definition Timer_cancel (t : Timer) : Timer := mkTimer (options_ t) true (fd_ t).

(** What [timerfd_create], [timerfd_settime] and [epoll_ctl] answer. *)
Record Sys : Type := mkSys { timerfd_create : Z; settime_ok : bool; epoll_add_ok : bool }.

(** [epoll]: the registered descriptors with [ev.data.ptr]; [events]: those of
    the last [epoll_wait] that are not yet handled; [ran]: the timers run so
    far, latest first. *)
Record TimerThread : Type := mkTimerThread {
  started_ : bool; heap : gmap nat Timer; timers_ : gmap Z nat; epoll : gmap Z nat;
  next : nat; events : list nat; ran : list nat
}.

Definition TimerThread_new : TimerThread := mkTimerThread false ∅ ∅ ∅ 0 [] [].

(** [start]: what [epoll_create] and [pthread_create] answer. *)
Definition start (epoll_ok thread_ok : bool) (th : TimerThread) : Z * TimerThread :=
  if started_ th then (0, th)
  else if negb epoll_ok then (-1, th)
  else if negb thread_ok then (-1, th)
  else (0, mkTimerThread true (heap th) (timers_ th) (epoll th) (next th) (events th) (ran th)).

Definition timer_sizes (th : TimerThread) : nat := size (timers_ th).

(** [~Timer] closes the descriptor, which also leaves epoll. *)
Definition close_fd (fd : Z) (th : TimerThread) : TimerThread :=
  mkTimerThread (started_ th) (heap th) (timers_ th) (delete fd (epoll th)) (next th) (events th) (ran th).

Definition add_timer (sys : Sys) (fd : Z) (p : nat) (th : TimerThread) : Z * TimerThread :=
  if negb (epoll_add_ok sys) then (-1, th)
  else (0, mkTimerThread (started_ th) (heap th) (timers_ th) (<[fd := p]> (epoll th)) (next th) (events th) (ran th)).

(** The result and [fd_]. *)
Definition Timer_init (sys : Sys) : Z * Z :=
  let fd := timerfd_create sys in
  if fd <? 0 then (-1, fd) else if negb (settime_ok sys) then (-1, fd) else (0, fd).

(** The end of a timer that no one owns. *)
Definition Timer_drop (fd : Z) (th : TimerThread) : TimerThread := if fd =? -1 then th else close_fd fd th.

Definition create_timer (sys : Sys) (options : TimerOptions) (th : TimerThread) : Z * TimerThread :=
  let '(rc, fd) := Timer_init sys in
  if negb (rc =? 0) then (-1, Timer_drop fd th)
  else
    match timers_ th !! fd with
    | Some _ => (-1, Timer_drop fd th)
    | None =>
        let p := next th in
        let '(rc, th) := add_timer sys fd p th in
        if negb (rc =? 0) then (-1, Timer_drop fd th)
        else
          (0, mkTimerThread (started_ th) (<[p := mkTimer options false fd]> (heap th)) (<[fd := p]> (timers_ th))
                (epoll th) (S (next th)) (events th) (ran th))
    end.

Definition remove_timer (timer_id : Z) (th : TimerThread) : Z * TimerThread :=
  match timers_ th !! timer_id with
  | Some p =>
      (0, mkTimerThread (started_ th) (alter Timer_cancel p (heap th)) (timers_ th) (epoll th) (next th) (events th) (ran th))
  | None => (0, th)
  end.

Definition delete_timer (fd : Z) (th : TimerThread) : TimerThread :=
  match timers_ th !! fd with
  | Some p =>
      mkTimerThread (started_ th) (delete p (heap th)) (delete fd (timers_ th)) (delete fd (epoll th)) (next th)
        (events th) (ran th)
  | None => close_fd fd th
  end.

(** Deletion and the message after it, which reads the descriptor again when
    messages of that level are written. *)
Definition drop_timer (info : bool) (p : nat) (t : Timer) (th : TimerThread) : option TimerThread :=
  let th := delete_timer (fd_ t) th in
  if info then _ ← heap th !! p; Some th else Some th.

Definition timer_run (p : nat) (th : TimerThread) : TimerThread :=
  mkTimerThread (started_ th) (heap th) (timers_ th) (epoll th) (next th) (events th) (p :: ran th).

(** One turn of the inner loop of [run]; [read_ok]: the 8 bytes were read. *)
Definition handle_event (info read_ok : bool) (p : nat) (th : TimerThread) : option TimerThread :=
  timer ← heap th !! p;
  if negb read_ok then Some th
  else if canceled_ timer then drop_timer info p timer th
  else
    let th := timer_run p th in
    if negb (repeated (options_ timer)) then drop_timer info p timer th else Some th.

Definition with_events (evs : list nat) (th : TimerThread) : TimerThread :=
  mkTimerThread (started_ th) (heap th) (timers_ th) (epoll th) (next th) evs (ran th).

(** The thread and its callers, one at a time.  The kernel gives a descriptor
    that is not open, and [epoll_wait] each ready registration once. *)
Inductive tstep (info : bool) : TimerThread -> TimerThread -> Prop :=
  | step_create sys options th :
      timers_ th !! timerfd_create sys = None ->
      tstep info th (create_timer sys options th).2
  | step_remove id th : tstep info th (remove_timer id th).2
  | step_wait evs th :
      events th = [] -> NoDup evs -> (forall p, p ∈ evs -> exists fd, epoll th !! fd = Some p) ->
      tstep info th (with_events evs th)
  | step_handle read_ok p evs th th' :
      events th = p :: evs -> handle_event info read_ok p (with_events evs th) = Some th' -> tstep info th th'.

(** ** The invariant *)

(** [timers_], epoll and the live timers agree, and so do the pending events
    with them; a timer that is to run once is gone when it has run. *)
Record Inv (th : TimerThread) : Prop := mkInv {
  inv_epoll : epoll th = timers_ th;
  inv_owned fd p : timers_ th !! fd = Some p <-> exists t, heap th !! p = Some t /\ fd_ t = fd;
  inv_next p : is_Some (heap th !! p) -> (p < next th)%nat;
  inv_nodup : NoDup (events th);
  inv_events p : p ∈ events th -> is_Some (heap th !! p);
  inv_ran p : p ∈ ran th -> (p < next th)%nat;
  inv_once p t : heap th !! p = Some t -> repeated (options_ t) = false -> p ∉ ran th
}.

Lemma new_inv : Inv TimerThread_new.
Proof.
  constructor; cbn [TimerThread_new epoll timers_ heap events ran next]; try done.
  - intros fd p. setoid_rewrite lookup_empty. naive_solver.
  - intros p. rewrite lookup_empty. by intros [? ?].
  - constructor.
  - intros p Hp. by apply elem_of_nil in Hp.
  - intros p Hp. by apply elem_of_nil in Hp.
Qed.

Lemma close_unknown fd th : Inv th -> timers_ th !! fd = None -> close_fd fd th = th.
Proof. intros [He _ _ _ _ _ _] Hf. destruct th. cbn in *. subst. unfold close_fd. cbn. by rewrite delete_id. Qed.

Lemma drop_unknown fd th : Inv th -> timers_ th !! fd = None -> Timer_drop fd th = th.
Proof. intros HI Hf. unfold Timer_drop. destruct (fd =? -1); [done|by apply close_unknown]. Qed.

Lemma create_timer_inv sys options th :
  timers_ th !! timerfd_create sys = None -> Inv th -> Inv (create_timer sys options th).2.
Proof.
  intros Hf HI. unfold create_timer, Timer_init. set (fd := timerfd_create sys) in *.
  destruct (fd <? 0); [cbn; by rewrite drop_unknown|].
  destruct (settime_ok sys); cbn [negb Z.eqb snd]; [|by rewrite drop_unknown].
  rewrite Hf. unfold add_timer. destruct (epoll_add_ok sys); cbn [negb Z.eqb snd]; [|by rewrite drop_unknown].
  destruct HI as [He Ho Hn Hd Hv Hr Hc].
  assert (Hnew : heap th !! next th = None).
  { destruct (heap th !! next th) eqn:E; [|done]. specialize (Hn (next th) ltac:(by eexists)). lia. }
  constructor; cbn.
  - by rewrite He.
  - intros fd' p. rewrite lookup_insert_Some. setoid_rewrite lookup_insert_Some. rewrite Ho. split.
    + intros [[<- <-]|[Hne (t & Ht & <-)]]; [by eexists; split; [left|]|].
      exists t. split; [right; split; [congruence|done]|done].
    + intros (t & [[<- <-]|[Hne Ht]] & <-); [by left|right]. split; [|by exists t].
      intros Heq. cbn in *. assert (timers_ th !! fd_ t = Some p) by (apply Ho; by exists t). congruence.
  - intros p [t Ht]. apply lookup_insert_Some in Ht as [[<- _]|[_ Ht]]; [lia|].
    specialize (Hn p ltac:(by eexists)). lia.
  - done.
  - intros p Hp. apply lookup_insert_is_Some'. right. by apply Hv.
  - intros p Hp%Hr. lia.
  - intros p t Ht Hrep. apply lookup_insert_Some in Ht as [[<- _]|[_ Ht]]; [intros Hp%Hr; lia|by eapply Hc].
Qed.

Lemma remove_timer_inv id th : Inv th -> Inv (remove_timer id th).2.
Proof.
  intros [He Ho Hn Hd Hv Hr Hc]. unfold remove_timer. destruct (timers_ th !! id) as [q|]; [|done].
  assert (Hl : forall p, is_Some (alter Timer_cancel q (heap th) !! p) <-> is_Some (heap th !! p)).
  { intros p. apply lookup_alter_is_Some. }
  constructor; cbn; try done.
  - intros fd p. rewrite Ho. setoid_rewrite lookup_alter_Some. split.
    + intros (t & Ht & Hfd). destruct (decide (p = q)) as [->|Hne].
      * exists (Timer_cancel t). split; [left; eauto|done].
      * exists t. split; [by right|done].
    + intros (t & [[-> (t0 & Ht & ->)]|[Hne Ht]] & Hfd); eauto.
  - intros p. rewrite Hl. apply Hn.
  - intros p. rewrite Hl. apply Hv.
  - intros p t. rewrite lookup_alter_Some. intros [[-> (t0 & Ht & ->)]|[_ Ht]]; [apply (Hc _ _ Ht)|by apply Hc].
Qed.

Lemma delete_owned p t th : Inv th -> heap th !! p = Some t ->
  delete_timer (fd_ t) th =
  mkTimerThread (started_ th) (delete p (heap th)) (delete (fd_ t) (timers_ th)) (delete (fd_ t) (epoll th)) (next th)
    (events th) (ran th).
Proof.
  intros HI Ht. unfold delete_timer. assert (timers_ th !! fd_ t = Some p) as -> by (apply HI; by exists t). done.
Qed.

Lemma delete_timer_inv p t th : Inv th -> heap th !! p = Some t -> p ∉ events th -> Inv (delete_timer (fd_ t) th).
Proof.
  intros HI Ht Hp. rewrite (delete_owned p t) by done. destruct HI as [He Ho Hn Hd Hv Hr Hc].
  constructor; cbn; try done.
  - by rewrite He.
  - intros fd q. rewrite lookup_delete_Some, Ho. setoid_rewrite lookup_delete_Some. split.
    + intros [Hne (u & Hu & <-)]. exists u. split; [split; [congruence|done]|done].
    + intros (u & [Hne Hu] & <-). split; [|by exists u]. intros Heq.
      assert (timers_ th !! fd_ t = Some p) by (apply Ho; by exists t).
      assert (timers_ th !! fd_ u = Some q) by (apply Ho; by exists u). congruence.
  - intros q [u Hu]. apply lookup_delete_Some in Hu as [_ Hu]. apply Hn. by exists u.
  - intros q Hq. destruct (Hv q Hq) as [u Hu]. exists u. apply lookup_delete_Some. split; [congruence|done].
  - intros q u Hu. apply lookup_delete_Some in Hu as [_ Hu]. by eapply Hc.
Qed.

Lemma run_inv p th :
  Inv th -> (p < next th)%nat -> (forall t, heap th !! p = Some t -> repeated (options_ t) = true) -> Inv (timer_run p th).
Proof.
  intros [He Ho Hn Hd Hv Hr Hc] Hp Hrep. constructor; cbn; try done.
  - intros q [->|Hq]%elem_of_cons; [done|by apply Hr].
  - intros q t Ht Hf [->|Hq]%elem_of_cons; [rewrite (Hrep t Ht) in Hf; done|by eapply Hc].
Qed.

Lemma handle_spec read_ok p t th :
  Inv th -> heap th !! p = Some t -> p ∉ events th ->
  exists th', handle_event false read_ok p th = Some th' /\ Inv th' /\
    ran th' = (if read_ok && negb (canceled_ t) then p :: ran th else ran th).
Proof.
  intros HI Ht Hp. unfold handle_event. rewrite Ht. cbn [mbind option_bind].
  destruct read_ok; cbn [negb andb]; [|by exists th]. unfold drop_timer.
  pose proof (delete_timer_inv p t th HI Ht Hp) as Hdel.
  assert (Hlt : (p < next th)%nat) by (apply HI; by exists t).
  destruct (canceled_ t); cbn [negb]; [eexists; split; [done|]; split; [done|by rewrite (delete_owned p t)]|].
  destruct (repeated (options_ t)) eqn:Er; cbn [negb]; (eexists; split; [done|]).
  - split; [|done]. apply run_inv; [done..|]. intros t'. rewrite Ht. by intros [= <-].
  - rewrite (delete_owned p t) in Hdel by done. unfold delete_timer, timer_run. cbn.
    assert (timers_ th !! fd_ t = Some p) as -> by (apply HI; by exists t). split; [|done].
    apply (run_inv p _ Hdel); [done|]. cbn. intros t'. by rewrite lookup_delete_eq.
Qed.

Lemma wait_inv evs th :
  Inv th -> NoDup evs -> (forall p, p ∈ evs -> is_Some (heap th !! p)) -> Inv (with_events evs th).
Proof. intros [] Hd Hv. by constructor. Qed.

Lemma pending_inv p evs th : Inv th -> events th = p :: evs ->
  Inv (with_events evs th) /\ (p ∉ evs) /\ is_Some (heap th !! p).
Proof.
  intros HI He. pose proof (inv_nodup _ HI) as Hd. pose proof (inv_events _ HI) as Hv. rewrite He in Hd, Hv.
  apply NoDup_cons in Hd as [Hp Hd]. split_and!; [|done|apply Hv; left].
  apply wait_inv; [done..|]. intros q Hq. apply Hv. by right.
Qed.

Lemma tstep_inv th th' : tstep false th th' -> Inv th -> Inv th'.
Proof.
  intros Hs HI. destruct Hs as [sys options th Hf|id th|evs th He Hd Hp|read_ok p evs th th' He Hh].
  - by apply create_timer_inv.
  - by apply remove_timer_inv.
  - apply wait_inv; [done..|]. intros p Hin. destruct (Hp p Hin) as [fd Hfd]. rewrite (inv_epoll _ HI) in Hfd.
    apply HI in Hfd as (t & Ht & _). by exists t.
  - destruct (pending_inv p evs th HI He) as (HI' & Hp & t & Ht).
    destruct (handle_spec read_ok p t _ HI' Ht Hp) as (th1 & Hh1 & HI1 & _). congruence.
Qed.

Lemma reachable_inv th : rtc (tstep false) TimerThread_new th -> Inv th.
Proof.
  intros H. assert (Hi : Inv TimerThread_new) by exact new_inv. induction H; [done|]. eauto using tstep_inv.
Qed.

(** What runs in a step. *)
Lemma tstep_ran th th' : Inv th -> tstep false th th' ->
  ran th' = ran th \/
  exists p t, ran th' = p :: ran th /\ heap th !! p = Some t /\ canceled_ t = false /\
    (repeated (options_ t) = false -> p ∉ ran th).
Proof.
  intros HI Hs. destruct Hs as [sys options th Hf|id th|evs th He Hd Hp|read_ok p evs th th' He Hh].
  - left. unfold create_timer, add_timer, Timer_drop. destruct (Timer_init sys) as [rc fd].
    by repeat (case_match; simplify_eq/=).
  - left. unfold remove_timer. by case_match.
  - by left.
  - destruct (pending_inv p evs th HI He) as (HI' & Hp & t & Ht).
    destruct (handle_spec read_ok p t _ HI' Ht Hp) as (th1 & Hh1 & _ & Hr). assert (th1 = th') as -> by congruence.
    destruct (read_ok && negb (canceled_ t)) eqn:E; [right|by left].
    apply andb_true_iff in E as [_ E%negb_true_iff]. exists p, t. split_and!; [done..|]. by apply HI.
Qed.

(** as long as the messages of the thread are off, in every state that its
    callers and the kernel can lead it to, epoll knows exactly the timers that
    are owned, each pending event is handled without an access to a freed timer
    and runs its timer unless that is cancelled or the read fails; and whatever
    step comes next, it runs no cancelled timer and no second time a timer that
    is not repeated. *)
Theorem timer_thread_safe th :
  rtc (tstep false) TimerThread_new th ->
  epoll th = timers_ th /\
  (forall p evs read_ok, events th = p :: evs ->
     exists t th', heap th !! p = Some t /\ handle_event false read_ok p (with_events evs th) = Some th' /\
       ran th' = (if read_ok && negb (canceled_ t) then p :: ran th else ran th)) /\
  (forall th', tstep false th th' -> ran th' = ran th \/
     exists p t, ran th' = p :: ran th /\ heap th !! p = Some t /\ canceled_ t = false /\
       (repeated (options_ t) = false -> p ∉ ran th)).
Proof.
  intros HI%reachable_inv. split_and!; [apply HI| |by intros th'; apply tstep_ran].
  intros p evs read_ok He. destruct (pending_inv p evs th HI He) as (HI' & Hp & t & Ht).
  destruct (handle_spec read_ok p t _ HI' Ht Hp) as (th' & Hh & _ & Hr). by exists t, th'.
Qed.

(** ** A timer that runs once *)

Definition once_options : TimerOptions := mkTimerOptions false 1000 7.
Definition once_sys : Sys := mkSys 5 true true.
Definition once_created : TimerThread := (create_timer once_sys once_options TimerThread_new).2.
Definition once_ready : TimerThread := with_events [0%nat] once_created.

Lemma once_reachable info : rtc (tstep info) TimerThread_new once_ready.
Proof.
  eapply rtc_l; [by apply (step_create info once_sys once_options)|].
  apply rtc_once, step_wait; [done|apply NoDup_singleton|]. intros p [->|[]%elem_of_nil]%elem_of_cons. by exists 5.
Qed.

Lemma timer_thread_safe_witness :
  exists t th', heap once_ready !! 0%nat = Some t /\ handle_event false true 0 (with_events [] once_ready) = Some th' /\
    ran th' = (if true && negb (canceled_ t) then [0%nat] else []).
Proof. exact (proj1 (proj2 (timer_thread_safe once_ready (once_reachable false))) 0%nat [] true eq_refl). Defined.

(** With the messages on, the one after the deletion reads the freed timer. *)
Lemma once_message_reads_freed :
  rtc (tstep true) TimerThread_new once_ready /\ events once_ready = [0%nat] /\
  handle_event true true 0 (with_events [] once_ready) = None.
Proof. split; [apply once_reachable|]. by vm_compute. Qed.
