(* ===== verification/Enums.v ===== *)
(** * Enumerations of the extent manager

    The enumerations of src/src/extentmanager/enum.h, those of the messages
    (src/src/common/pb/types.proto) and the conversions between them
    (src/src/utils/pb_transfer.cpp).  An enumeration is the [int] that C++
    stores and the archive writes, so a stored value need not be one of the
    named ones; the conversions have a default for those. *)

From S2P Require Import Prelude.

(** ** Stored enumerations *)

(** *** [PoolType] *)
Definition kPoolTypeHDD : Z := 0.
Definition kPoolTypeSSD : Z := 1.
Definition kPoolTypeNVMeSSD : Z := 2.
Definition kPoolTypeSpecial : Z := 3.
Definition kPoolTypeUnknown : Z := -1.

(** *** [PoolStatus] *)
Definition kPoolStatusCreated : Z := 0.
Definition kPoolStatusInitializing : Z := 1.
Definition kPoolStatusEnabled : Z := 2.
Definition kPoolStatusDisabled : Z := 3.
Definition kPoolStatusUnknown : Z := -1.

(** *** [PoolFailureDomain] *)
Definition kFailureDomainRack : Z := 0.
Definition kFailureDomainHost : Z := 1.
Definition kFailureDomainNode : Z := 2.
Definition kFailureDomainUnknown : Z := -1.

(** *** [UserStatus] *)
Definition kUserStatusCreated : Z := 0.
Definition kUserStatusDeleted : Z := 1.
Definition kUserStatusUnknown : Z := -1.

(** *** [ESStatus] *)
Definition kESStatusOk : Z := 0.
Definition kESStatusFailed : Z := 1.
Definition kESStatusRecovering : Z := 2.
Definition kESStatusRebalancing : Z := 3.
Definition kESStatusUnknown : Z := -1.

(** *** [BlobType] *)
Definition kBlobTypeGeneral : Z := 0.
Definition kBlobTypeSuperior : Z := 1.
Definition kBlobTypeExcellent : Z := 2.
Definition kBlobTypeUnknown : Z := -1.

(** *** [BlobStatus] *)
Definition kBlobStatusCreated : Z := 0.
Definition kBlobStatusDeleted : Z := 1.
Definition kBlobStatusResizing : Z := 2.
Definition kBlobStatusSnapshotting : Z := 3.
Definition kBlobStatusCloning : Z := 4.
Definition kBlobStatusUnknown : Z := -1.

(** *** [RGStatus] *)
Definition kRGStatusOk : Z := 0.
Definition kRGStatusDowngrade : Z := 1.
Definition kRGStatusRecovering : Z := 2.
Definition kRGStatusRebalancing : Z := 3.
Definition kRGStatusUnknown : Z := -1.

(** ** Enumerations of the messages *)

(** *** [UserStatus] *)
Definition USER_STATUS_CREATED : Z := 0.
Definition USER_STATUS_DELETED : Z := 1.
Definition USER_STATUS_UNKNOWN : Z := -1.

(** *** [BlobType] *)
Definition BLOB_TYPE_GENERAL : Z := 0.
Definition BLOB_TYPE_SUPERIOR : Z := 1.
Definition BLOB_TYPE_EXCELLENT : Z := 2.
Definition BLOB_TYPE_UNKNOWN : Z := -1.

(** *** [BlobStatus] *)
Definition BLOB_STATUS_CREATED : Z := 0.
Definition BLOB_STATUS_DELETED : Z := 1.
Definition BLOB_STATUS_RESIZING : Z := 2.
Definition BLOB_STATUS_SNAPSHOTTING : Z := 3.
Definition BLOB_STATUS_CLONING : Z := 4.
Definition BLOB_STATUS_UNKNOWN : Z := -1.

(** *** [ESStatus] *)
Definition ES_STATUS_OK : Z := 0.
Definition ES_STATUS_FAILED : Z := 1.
Definition ES_STATUS_RECOVERING : Z := 2.
Definition ES_STATUS_REBALANCING : Z := 3.
Definition ES_STATUS_UNKNOWN : Z := -1.

(** *** [RGStatus] *)
Definition RG_STATUS_OK : Z := 0.
Definition RG_STATUS_DOWNGRADE : Z := 1.
Definition RG_STATUS_RECOVERING : Z := 2.
Definition RG_STATUS_REBALANCING : Z := 3.
Definition RG_STATUS_UNKNOWN : Z := -1.

(** *** [PoolType] *)
Definition POOL_TYPE_HDD : Z := 0.
Definition POOL_TYPE_SSD : Z := 1.
Definition POOL_TYPE_NVME_SSD : Z := 2.
Definition POOL_TYPE_SPECIAL : Z := 3.
Definition POOL_TYPE_UNKNOWN : Z := -1.

(** *** [PoolStatus] *)
Definition POOL_STATUS_CREATED : Z := 0.
Definition POOL_STATUS_ENABLED : Z := 1.
Definition POOL_STATUS_DISABLED : Z := 2.
Definition POOL_STATUS_UNKNOWN : Z := -1.

(** *** [FailureDomain] *)
Definition FAILURE_DOMAIN_RACK : Z := 0.
Definition FAILURE_DOMAIN_HOST : Z := 1.
Definition FAILURE_DOMAIN_NODE : Z := 2.
Definition FAILURE_DOMAIN_UNKNOWN : Z := -1.

(** ** Conversions *)

Definition ToPbUserStatus (status : Z) : Z :=
  if status =? kUserStatusCreated then USER_STATUS_CREATED
  else if status =? kUserStatusDeleted then USER_STATUS_DELETED
  else USER_STATUS_UNKNOWN.

Definition blobtype_valid (pb_blobtype : Z) : bool :=
  if pb_blobtype =? BLOB_TYPE_GENERAL then true
  else if pb_blobtype =? BLOB_TYPE_SUPERIOR then true
  else if pb_blobtype =? BLOB_TYPE_EXCELLENT then true
  else false.

Definition FromPbBlobType (pb_type : Z) : Z :=
  if pb_type =? BLOB_TYPE_GENERAL then kBlobTypeGeneral
  else if pb_type =? BLOB_TYPE_SUPERIOR then kBlobTypeSuperior
  else if pb_type =? BLOB_TYPE_EXCELLENT then kBlobTypeExcellent
  else kBlobTypeUnknown.

Definition toPbBlobType (type : Z) : Z :=
  if type =? kBlobTypeGeneral then BLOB_TYPE_GENERAL
  else if type =? kBlobTypeSuperior then BLOB_TYPE_SUPERIOR
  else if type =? kBlobTypeExcellent then BLOB_TYPE_EXCELLENT
  else BLOB_TYPE_UNKNOWN.

Definition toPbBlobStatus (status : Z) : Z :=
  if status =? kBlobStatusCreated then BLOB_STATUS_CREATED
  else if status =? kBlobStatusDeleted then BLOB_STATUS_DELETED
  else if status =? kBlobStatusResizing then BLOB_STATUS_RESIZING
  else if status =? kBlobStatusSnapshotting then BLOB_STATUS_SNAPSHOTTING
  else if status =? kBlobStatusCloning then BLOB_STATUS_CLONING
  else BLOB_STATUS_UNKNOWN.

Definition FromPbPoolType (type : Z) : Z :=
  if type =? POOL_TYPE_HDD then kPoolTypeHDD
  else if type =? POOL_TYPE_SSD then kPoolTypeSSD
  else if type =? POOL_TYPE_NVME_SSD then kPoolTypeNVMeSSD
  else if type =? POOL_TYPE_SPECIAL then kPoolTypeSpecial
  else kPoolTypeUnknown.

Definition FromPbFailureDomain (pb_fd : Z) : Z :=
  if pb_fd =? FAILURE_DOMAIN_RACK then kFailureDomainRack
  else if pb_fd =? FAILURE_DOMAIN_HOST then kFailureDomainHost
  else if pb_fd =? FAILURE_DOMAIN_NODE then kFailureDomainNode
  else kFailureDomainUnknown.

Definition ToPbPoolType (pool_type : Z) : Z :=
  if pool_type =? kPoolTypeHDD then POOL_TYPE_HDD
  else if pool_type =? kPoolTypeSSD then POOL_TYPE_SSD
  else if pool_type =? kPoolTypeNVMeSSD then POOL_TYPE_NVME_SSD
  else POOL_TYPE_UNKNOWN.

Definition ToPbPoolStatus (status : Z) : Z :=
  if status =? kPoolStatusCreated then POOL_STATUS_CREATED
  else if status =? kPoolStatusEnabled then POOL_STATUS_ENABLED
  else if status =? kPoolStatusDisabled then POOL_STATUS_DISABLED
  else POOL_STATUS_UNKNOWN.

Definition ToPbFailureDomain (fd : Z) : Z :=
  if fd =? kFailureDomainRack then FAILURE_DOMAIN_RACK
  else if fd =? kFailureDomainHost then FAILURE_DOMAIN_HOST
  else if fd =? kFailureDomainNode then FAILURE_DOMAIN_NODE
  else FAILURE_DOMAIN_UNKNOWN.

Definition pool_type_valid (type : Z) : bool :=
  if type =? POOL_TYPE_HDD then true
  else if type =? POOL_TYPE_SSD then true
  else if type =? POOL_TYPE_NVME_SSD then true
  else false.

Definition failure_domain_valid (fd : Z) : bool :=
  if fd =? FAILURE_DOMAIN_RACK then true
  else if fd =? FAILURE_DOMAIN_HOST then true
  else if fd =? FAILURE_DOMAIN_NODE then true
  else false.

Definition ToPbExtentServerStatus (status : Z) : Z :=
  if status =? kESStatusOk then ES_STATUS_OK
  else if status =? kESStatusFailed then ES_STATUS_FAILED
  else if status =? kESStatusRecovering then ES_STATUS_RECOVERING
  else if status =? kESStatusRebalancing then ES_STATUS_REBALANCING
  else ES_STATUS_UNKNOWN.

Definition ToPbRgStatus (status : Z) : Z :=
  if status =? kRGStatusOk then RG_STATUS_OK
  else if status =? kRGStatusDowngrade then RG_STATUS_DOWNGRADE
  else if status =? kRGStatusRecovering then RG_STATUS_RECOVERING
  else if status =? kRGStatusRebalancing then RG_STATUS_REBALANCING
  else RG_STATUS_UNKNOWN.

(** The types a request may name survive the two conversions. *)
Lemma blobtype_roundtrip t : blobtype_valid t = true -> toPbBlobType (FromPbBlobType t) = t.
Proof. unfold blobtype_valid, toPbBlobType, FromPbBlobType. intros. repeat bcase; b2p; subst; done. Qed.

Lemma pool_type_roundtrip t : pool_type_valid t = true -> ToPbPoolType (FromPbPoolType t) = t.
Proof. unfold pool_type_valid, ToPbPoolType, FromPbPoolType. intros. repeat bcase; b2p; subst; done. Qed.

Lemma failure_domain_roundtrip t :
  failure_domain_valid t = true -> ToPbFailureDomain (FromPbFailureDomain t) = t.
Proof.
  unfold failure_domain_valid, ToPbFailureDomain, FromPbFailureDomain.
  intros. repeat bcase; b2p; subst; done.
Qed.
