(* ===== verification/Blob.v ===== *)
(** * Blobs

    [Blob] and [BlobManager] (src/src/extentmanager/blob.h and .cpp): the
    block devices of one pool, kept in memory and written through to the
    store.  Wall-clock strings ([Chrono::DateString]) and the configured
    extent size are arguments.  The map is unordered in the source, so the
    order of the lists below is not part of their meaning. *)

From S2P Require Import Prelude Status Codec KvStore Persist Enums.

#[local] Open Scope string_scope.
#[local] Open Scope Z_scope.

Record Blob : Type := mkBlob {
  b_id_ : string;
  b_name_ : string;
  b_size_ : Z;
  b_type_ : Z;
  b_desc_ : string;
  b_status_ : Z;
  b_pool_id_ : string;
  b_user_id_ : string;
  b_instance_id_ : string;
  b_create_time_ : string;
  b_update_time_ : string
}.

Definition Blob_new (now id name : string) (size type : Z) (desc pool_id user_id instance_id : string)
  : Blob :=
  mkBlob id name size type desc kBlobStatusCreated pool_id user_id instance_id now now.

Definition Blob_kv_key (b : Blob) : string :=
  kBlobKvPrefix +:+ "_" +:+ b_pool_id_ b +:+ "_" +:+ b_id_ b.

(** [Blob::serialize]. *)
Definition Blob_members : codec Blob := {|
  save b := save string_codec (b_id_ b) +:+ save string_codec (b_name_ b)
    +:+ save u64_codec (b_size_ b) +:+ save int_codec (b_type_ b)
    +:+ save string_codec (b_desc_ b) +:+ save int_codec (b_status_ b)
    +:+ save string_codec (b_pool_id_ b) +:+ save string_codec (b_user_id_ b)
    +:+ save string_codec (b_instance_id_ b) +:+ save string_codec (b_create_time_ b)
    +:+ save string_codec (b_update_time_ b);
  load s :=
    '(id, s) ← load string_codec s;
    '(name, s) ← load string_codec s;
    '(size, s) ← load u64_codec s;
    '(type, s) ← load int_codec s;
    '(desc, s) ← load string_codec s;
    '(status, s) ← load int_codec s;
    '(pool_id, s) ← load string_codec s;
    '(user_id, s) ← load string_codec s;
    '(instance_id, s) ← load string_codec s;
    '(create_time, s) ← load string_codec s;
    '(update_time, s) ← load string_codec s;
    Some (mkBlob id name size type desc status pool_id user_id instance_id create_time update_time, s);
  storable b := storable string_codec (b_id_ b) /\ storable string_codec (b_name_ b) /\
    storable u64_codec (b_size_ b) /\ storable int_codec (b_type_ b) /\
    storable string_codec (b_desc_ b) /\ storable int_codec (b_status_ b) /\
    storable string_codec (b_pool_id_ b) /\ storable string_codec (b_user_id_ b) /\
    storable string_codec (b_instance_id_ b) /\ storable string_codec (b_create_time_ b) /\
    storable string_codec (b_update_time_ b)
|}.

Definition Blob_codec : codec Blob := versioned 0 (fun _ => Blob_members).

Lemma Blob_codec_ok : codec_ok Blob_codec.
Proof.
  apply versioned_ok; [unfold is_u32; lia|].
  intros [] rest H. cbn -[u64_codec int_codec string_codec] in *. by archive.
Qed.

(** [common::pb::Blob]. *)
Record PbBlob : Type := mkPbBlob {
  pb_blob_id : string;
  pb_blob_name : string;
  pb_blob_size : Z;
  pb_blob_type : Z;
  pb_blob_desc : string;
  pb_blob_status : Z;
  pb_blob_pool_id : string;
  pb_blob_user_id : string;
  pb_blob_instance_id : string;
  pb_blob_create_date : string;
  pb_blob_update_date : string
}.

Definition ToPbBlob (b : Blob) : PbBlob :=
  mkPbBlob (b_id_ b) (b_name_ b) (b_size_ b) (toPbBlobType (b_type_ b)) (b_desc_ b)
    (toPbBlobStatus (b_status_ b)) (b_pool_id_ b) (b_user_id_ b) (b_instance_id_ b)
    (b_create_time_ b) (b_update_time_ b).

Definition blobsize_valid (extent_size size : Z) : bool :=
  (0 <? size) && (size <=? kMaxBlobSize) && (size mod extent_size =? 0).

(** ** Field updates *)

Definition set_blob_status (b : Blob) (st : Z) : Blob :=
  mkBlob (b_id_ b) (b_name_ b) (b_size_ b) (b_type_ b) (b_desc_ b) st (b_pool_id_ b)
    (b_user_id_ b) (b_instance_id_ b) (b_create_time_ b) (b_update_time_ b).

Definition set_blob_name (b : Blob) (name time : string) : Blob :=
  mkBlob (b_id_ b) name (b_size_ b) (b_type_ b) (b_desc_ b) (b_status_ b) (b_pool_id_ b)
    (b_user_id_ b) (b_instance_id_ b) (b_create_time_ b) time.

Definition set_blob_size (b : Blob) (size : Z) (time : string) : Blob :=
  mkBlob (b_id_ b) (b_name_ b) size (b_type_ b) (b_desc_ b) (b_status_ b) (b_pool_id_ b)
    (b_user_id_ b) (b_instance_id_ b) (b_create_time_ b) time.

(** ** The manager *)

(** [blob_map_]. *)
Abbreviation BlobManager := (gmap string Blob).

Section BlobManager.
Context `{RocksDB DB} `{Crc32c}.

Definition encode_blob (b : Blob) : string := Serializer_Encode Blob_codec b.

Definition create_blob (db : DB) (blob_map_ : BlobManager) (now id name : string)
  (size type : Z) (desc pool_id user_id instance_id : string) : Status * DB * BlobManager :=
  let blob := Blob_new now id name size type desc pool_id user_id instance_id in
  let value := encode_blob blob in
  let '(status, db) := RocksStore_Put db (Blob_kv_key blob) value in
  if negb (RocksStatus_ok status)
  then (mkStatus CYPRE_EM_STORE_ERROR "persist blob meta to store failed", db, blob_map_)
  else (Status_default, db, <[b_id_ blob := blob]> blob_map_).

Definition soft_delete_blob (db : DB) (blob_map_ : BlobManager) (user_id blob_id : string)
  : Status * DB * BlobManager :=
  match blob_map_ !! blob_id with
  | None => (mkStatus CYPRE_EM_BLOB_NOT_FOUND "not find blob", db, blob_map_)
  | Some b =>
      if b_status_ b =? kBlobStatusDeleted
      then (mkStatus CYPRE_EM_BLOB_NOT_FOUND "not find blob", db, blob_map_)
      else if negb (String.eqb (b_user_id_ b) user_id)
      then (mkStatus CYPRE_ER_NO_PERMISSION "userid not correct", db, blob_map_)
      else
        let b1 := set_blob_status b kBlobStatusDeleted in
        let blob_map_ := <[blob_id := b1]> blob_map_ in
        let value := encode_blob b1 in
        let '(status, db) := RocksStore_Put db (Blob_kv_key b1) value in
        if negb (RocksStatus_ok status)
        then (mkStatus CYPRE_EM_STORE_ERROR "delete blob meta from store failed", db, blob_map_)
        else (Status_default, db, blob_map_)
  end.

Definition rename_blob (db : DB) (blob_map_ : BlobManager) (now user_id blob_id new_name : string)
  : Status * DB * BlobManager :=
  match blob_map_ !! blob_id with
  | None => (mkStatus CYPRE_EM_BLOB_NOT_FOUND "not found blob", db, blob_map_)
  | Some b =>
      if b_status_ b =? kBlobStatusDeleted
      then (mkStatus CYPRE_EM_BLOB_NOT_FOUND "not found blob", db, blob_map_)
      else if negb (String.eqb (b_user_id_ b) user_id)
      then (mkStatus CYPRE_ER_NO_PERMISSION "userid not correct", db, blob_map_)
      else
        let old_name := b_name_ b in
        let old_time := b_update_time_ b in
        let b1 := set_blob_name b new_name now in
        let blob_map_ := <[blob_id := b1]> blob_map_ in
        let value := encode_blob b1 in
        let '(status, db) := RocksStore_Put db (Blob_kv_key b1) value in
        if negb (RocksStatus_ok status)
        then (mkStatus CYPRE_EM_STORE_ERROR "persist blob meta to store failed", db,
              <[blob_id := set_blob_name b1 old_name old_time]> blob_map_)
        else (Status_default, db, blob_map_)
  end.

(** The third component is what is written to [*old_size], if anything. *)
Definition resize_blob (extent_size : Z) (db : DB) (blob_map_ : BlobManager)
  (now user_id blob_id : string) (new_size : Z) : Status * DB * BlobManager * option Z :=
  match blob_map_ !! blob_id with
  | None => (mkStatus CYPRE_EM_BLOB_NOT_FOUND "not find blob", db, blob_map_, None)
  | Some b =>
      if b_status_ b =? kBlobStatusDeleted
      then (mkStatus CYPRE_EM_BLOB_NOT_FOUND "not find blob", db, blob_map_, None)
      else if negb (String.eqb (b_user_id_ b) user_id)
      then (mkStatus CYPRE_ER_NO_PERMISSION "userid not correct", db, blob_map_, None)
      else
        let size := b_size_ b in
        if negb (blobsize_valid extent_size new_size) || (new_size <=? size)
        then (mkStatus CYPRE_ER_INVALID_ARGUMENT "new size invalid or smaller than old size",
              db, blob_map_, None)
        else
          let old_time := b_update_time_ b in
          let b1 := set_blob_size b new_size now in
          let blob_map_ := <[blob_id := b1]> blob_map_ in
          let value := encode_blob b1 in
          let '(status, db) := RocksStore_Put db (Blob_kv_key b1) value in
          if negb (RocksStatus_ok status)
          then (mkStatus CYPRE_EM_STORE_ERROR "persist blob meta to store failed", db,
                <[blob_id := set_blob_size b1 size old_time]> blob_map_, Some size)
          else (Status_default, db, blob_map_, Some size)
  end.

Definition blob_scan_prefix (pool_id : string) : string := kBlobKvPrefix +:+ "_" +:+ pool_id.

Definition BlobManager_recovery_from_store (db : DB) (blob_map_ : BlobManager) (pool_id : string)
  : option (bool * BlobManager) :=
  recover Blob_codec b_id_ db (blob_scan_prefix pool_id) blob_map_.

Definition query_blob (blob_map_ : BlobManager) (blob_id : string) (all : bool)
  : Status * option PbBlob :=
  match blob_map_ !! blob_id with
  | None => (mkStatus CYPRE_EM_BLOB_NOT_FOUND "not find blob", None)
  | Some b =>
      if negb all && (b_status_ b =? kBlobStatusDeleted)
      then (mkStatus CYPRE_EM_BLOB_NOT_FOUND "not find blob", None)
      else (Status_default, Some (ToPbBlob b))
  end.

(** The three overloads of [list_blobs], appending to the caller's vector. *)
Definition list_blobs_of_user (blob_map_ : BlobManager) (user_id : string) (blobs : list PbBlob)
  : Status * list PbBlob :=
  (Status_default,
   blobs ++ map (fun p => ToPbBlob p.2)
     (filter (fun p : string * Blob => String.eqb (b_user_id_ p.2) user_id
                      && negb (b_status_ p.2 =? kBlobStatusDeleted) = true) (map_to_list blob_map_)))%list.

Definition list_blob_ids_of_user (blob_map_ : BlobManager) (user_id : string) (blobs : list string)
  : Status * list string :=
  (Status_default,
   blobs ++ (filter (fun p : string * Blob => String.eqb (b_user_id_ p.2) user_id = true)
               (map_to_list blob_map_)).*1)%list.

Definition list_blob_ids (blob_map_ : BlobManager) (deleted : bool) (blobs : list string)
  : Status * list string :=
  (Status_default,
   blobs ++ (filter (fun p : string * Blob =>
                       (deleted && (b_status_ p.2 =? kBlobStatusDeleted)) || negb deleted = true)
               (map_to_list blob_map_)).*1)%list.

Definition delete_blob (db : DB) (blob_map_ : BlobManager) (blob_id : string)
  : Status * DB * BlobManager :=
  match blob_map_ !! blob_id with
  | None => (mkStatus CYPRE_EM_BLOB_NOT_FOUND "not found blob", db, blob_map_)
  | Some b =>
      let '(status, db) := RocksStore_Delete db (Blob_kv_key b) in
      if negb (RocksStatus_ok status)
      then (mkStatus CYPRE_EM_DELETE_ERROR "Delete blob meta from store failed", db, blob_map_)
      else (Status_default, db, delete blob_id blob_map_)
  end.

Definition blobid_exist (blob_map_ : BlobManager) (blob_id : string) : bool :=
  match blob_map_ !! blob_id with Some _ => true | None => false end.

Definition blob_valid (blob_map_ : BlobManager) (blob_id : string) : bool :=
  match blob_map_ !! blob_id with
  | Some b => negb (b_status_ b =? kBlobStatusDeleted)
  | None => false
  end.
End BlobManager.

(** ** The table and the store *)

Definition blob_key (pool_id blob_id : string) : string :=
  blob_scan_prefix pool_id +:+ "_" +:+ blob_id.

#[export] Instance blob_key_inj pool_id : Inj (=) (=) (blob_key pool_id).
Proof. intros a b E. unfold blob_key, blob_scan_prefix in E. rewrite <- !str_append_assoc in E. by simplify_eq. Qed.

Lemma Blob_kv_key_eq b : Blob_kv_key b = blob_key (b_pool_id_ b) (b_id_ b).
Proof. unfold Blob_kv_key, blob_key, blob_scan_prefix. by rewrite <- !str_append_assoc. Qed.

Lemma Blob_decode_encode `{Crc32c} b : fits Blob_codec b ->
  Serializer_Decode Blob_codec (Serializer_Encode Blob_codec b) = Decoded b.
Proof. intros [? ?]. apply Serializer_roundtrip; auto using Blob_codec_ok. Qed.

(** ** Operations as steps *)

Inductive BlobOp : Type :=
  | BlobCreate (now id name : string) (size type : Z) (desc user_id instance_id : string)
  | BlobSoftDelete (user_id blob_id : string)
  | BlobRename (now user_id blob_id new_name : string)
  | BlobResize (now user_id blob_id : string) (new_size : Z)
  | BlobDelete (blob_id : string).

Section BlobTheorems.
Context `{RocksDBLaws DB} `{Crc32c}.
Implicit Types (db : DB) (m : BlobManager).

Definition blob_apply (extent_size : Z) (pool_id : string) db m (op : BlobOp)
  : Status * DB * BlobManager :=
  match op with
  | BlobCreate now id name size type desc user_id instance_id =>
      create_blob db m now id name size type desc pool_id user_id instance_id
  | BlobSoftDelete user_id blob_id => soft_delete_blob db m user_id blob_id
  | BlobRename now user_id blob_id new_name => rename_blob db m now user_id blob_id new_name
  | BlobResize now user_id blob_id new_size =>
      (resize_blob extent_size db m now user_id blob_id new_size).1
  | BlobDelete blob_id => delete_blob db m blob_id
  end.

(** The store holds exactly the blobs of the pool, as they are in memory. *)
Definition blob_agree (pool_id : string) (view : gmap string string) m : Prop :=
  synced Blob_codec b_id_ (blob_key pool_id) view m /\
  map_Forall (fun _ b => b_pool_id_ b = pool_id) m.

Definition blobs_fit m : Prop := map_Forall (fun _ b => fits Blob_codec b) m.

(** Writing record [b] through, and deleting one. *)
Lemma blob_put_agree pool_id db m id b st db' :
  blob_agree pool_id (rdb_view db) m -> b_pool_id_ b = pool_id -> b_id_ b = id -> fits Blob_codec b ->
  RocksStore_Put db (Blob_kv_key b) (encode_blob b) = (st, db') -> negb (RocksStatus_ok st) = false ->
  blob_agree pool_id (rdb_view db') (<[id := b]> m).
Proof.
  intros [Hs Hp] Hb <- Hf E%put_view Hn%negb_false_iff. rewrite E, Hn. split.
  - rewrite Blob_kv_key_eq, Hb. apply synced_put; [apply _|done..].
  - apply map_Forall_insert_2; done.
Qed.

Lemma blob_delete_agree pool_id db m id b st db' :
  blob_agree pool_id (rdb_view db) m -> b_pool_id_ b = pool_id -> b_id_ b = id ->
  RocksStore_Delete db (Blob_kv_key b) = (st, db') -> negb (RocksStatus_ok st) = false ->
  blob_agree pool_id (rdb_view db') (delete id m).
Proof.
  intros [Hs Hp] Hb <- E%delete_view Hn%negb_false_iff. rewrite E, Hn. split.
  - rewrite Blob_kv_key_eq, Hb. apply synced_delete; [apply _|done].
  - by apply map_Forall_delete.
Qed.

(** The blob found under [blob_id], which the store holds under its own key. *)
Lemma blob_agree_lookup pool_id view m id b :
  blob_agree pool_id view m -> m !! id = Some b -> b_id_ b = id /\ b_pool_id_ b = pool_id.
Proof.
  intros [Hs Hp] Hm. split; [by apply (synced_rec _ _ _ _ _ Hs)|exact (map_Forall_lookup_1 _ _ _ _ Hp Hm)].
Qed.

(** The failure that leaves memory and store apart. *)
Definition torn_soft_delete (op : BlobOp) (st : Status) : Prop :=
  match op with BlobSoftDelete _ _ => code st = CYPRE_EM_STORE_ERROR | _ => False end.

Lemma blob_restore m id b b1 : m !! id = Some b -> <[id := b]> (<[id := b1]> m) = m.
Proof. intros. rewrite insert_insert_eq. by apply insert_id. Qed.

Ltac blob_cases E :=
  repeat match type of E with
  | context [match ?m !! ?i with _ => _ end] => destruct (m !! i) as [b|] eqn:?
  | context [if ?c then _ else _] => destruct c eqn:?
  | context [let '(_, _) := ?p in _] => destruct p as [? ?] eqn:?
  end.

(** C20: an operation on a pool's blobs keeps memory and store in agreement,
    and one that reports an error changes neither; the only exception is a
    soft delete whose write fails. *)
Theorem blob_ops_agree extent_size pool_id db m op st db' m' :
  blob_agree pool_id (rdb_view db) m ->
  blob_apply extent_size pool_id db m op = (st, db', m') ->
  blobs_fit m' ->
  ~ torn_soft_delete op st ->
  blob_agree pool_id (rdb_view db') m' /\
  (ok st = false -> m' = m /\ rdb_view db' = rdb_view db).
Proof.
  intros Ha E Hf Ht.
  destruct op; cbn in E;
    unfold create_blob, soft_delete_blob, rename_blob, resize_blob, delete_blob in E;
    blob_cases E; cbn in E; simplify_eq; try (split; [done|by intros]).
  all: try (exfalso; by apply Ht).
  all: try match goal with
    | Hl : _ !! _ = Some ?b |- _ => destruct (blob_agree_lookup _ _ _ _ _ Ha Hl)
    end.
  all: try (rewrite blob_restore by (by destruct b)).
  all: first
    [ (* the write failed *)
      assert (rdb_view db' = rdb_view db) as -> by eauto using put_view_fail, delete_view_fail; split; [done|by intros]
    | split; [|discriminate];
      first [ eapply blob_put_agree; eauto; eapply (map_Forall_lookup_1 _ _ _ _ Hf), lookup_insert_eq
            | eapply blob_delete_agree; eauto ] ].
Qed.

(** What an operation may do to blob [id]. *)
Definition blob_change_allowed (extent_size : Z) m (op : BlobOp) (id : string) : Prop :=
  match op with
  | BlobCreate _ i _ _ _ _ _ _ => id = i
  | BlobDelete i => id = i /\ is_Some (m !! i)
  | BlobSoftDelete u i | BlobRename _ u i _ =>
      id = i /\ exists b, m !! i = Some b /\ b_user_id_ b = u /\ b_status_ b <> kBlobStatusDeleted
  | BlobResize _ u i n =>
      id = i /\ (exists b, m !! i = Some b /\ b_user_id_ b = u /\
                  b_status_ b <> kBlobStatusDeleted /\ b_size_ b < n) /\
      n <= kMaxBlobSize /\ n mod extent_size = 0
  end.

(** an operation changes no blob but the one it names, and a rename, a
    resize or a soft delete changes it only for its owner, while it is not
    deleted, and, for a resize, only to a larger size that is a multiple of
    the extent size and within the limit. *)
Theorem blob_change_authorised extent_size pool_id db m op st db' m' id :
  blob_apply extent_size pool_id db m op = (st, db', m') ->
  m' !! id <> m !! id ->
  blob_change_allowed extent_size m op id.
Proof.
  intros E Hne.
  destruct op; cbn in E |- *;
    unfold create_blob, soft_delete_blob, rename_blob, resize_blob, delete_blob in E;
    blob_cases E; cbn in E; simplify_eq; try done.
  all: match goal with
    | Hne : <[?i := _]> (<[?i := _]> _) !! ?id <> _ |- _ =>
        exfalso; apply Hne; rewrite blob_restore by (by destruct b); done
    | Hne : <[?i := _]> _ !! ?id <> _ |- _ =>
        destruct (decide (id = i)) as [->|]; [|by rewrite lookup_insert_ne in Hne]
    | Hne : delete ?i _ !! ?id <> _ |- _ =>
        destruct (decide (id = i)) as [->|]; [|by rewrite lookup_delete_ne in Hne]
    end.
  all: unfold blobsize_valid in *; b2p; try done.
  all: repeat match goal with H : String.eqb _ _ = true |- _ => apply String.eqb_eq in H end.
  all: split_and!; eauto 10.
Qed.

(** A store that holds, under the prefix of the pool's blobs, only those. *)
Definition pool_prefix_clean (pool_id : string) (view : gmap string string) : Prop :=
  forall k v, view !! k = Some v -> String.prefix (blob_scan_prefix pool_id) k = true ->
    exists id, k = blob_key pool_id id.

(** A restart finds the blobs as they were. *)
Lemma blob_recovery pool_id db m :
  blob_agree pool_id (rdb_view db) m -> pool_prefix_clean pool_id (rdb_view db) ->
  BlobManager_recovery_from_store db ∅ pool_id = Some (true, m).
Proof.
  intros [Hs _] Hc. unfold BlobManager_recovery_from_store.
  rewrite (recover_synced Blob_codec b_id_ (blob_key pool_id) (fun b => b) (fun _ => eq_refl)
             Blob_decode_encode db _ m Hs (fun _ => prefix_app _ _) Hc).
  by rewrite map_fmap_id.
Qed.

(** a soft delete whose write to the store fails is reported as failed but
    hides the blob from every query, until a restart brings it back. *)
Theorem failed_soft_delete_hides_blob pool_id db m user_id blob_id b st db' m' :
  blob_agree pool_id (rdb_view db) m -> pool_prefix_clean pool_id (rdb_view db) ->
  m !! blob_id = Some b ->
  soft_delete_blob db m user_id blob_id = (st, db', m') -> code st = CYPRE_EM_STORE_ERROR ->
  blob_valid m blob_id = true /\ query_blob m blob_id false = (Status_default, Some (ToPbBlob b)) /\
  blob_valid m' blob_id = false /\ (query_blob m' blob_id false).2 = None /\
  BlobManager_recovery_from_store db' ∅ pool_id = Some (true, m).
Proof.
  intros Ha Hc Hm E Hst. unfold soft_delete_blob in E. rewrite Hm in E.
  blob_cases E; cbn in E; simplify_eq; try done.
  assert (Hv : rdb_view db' = rdb_view db) by eauto using put_view_fail.
  unfold blob_valid, query_blob. rewrite Hm, lookup_insert_eq. cbn [negb andb b_status_ set_blob_status].
  match goal with H : (b_status_ b =? _) = false |- _ => rewrite H end.
  split_and!; try done. apply blob_recovery; by rewrite Hv.
Qed.
End BlobTheorems.

(** ** Examples *)

Definition demo_blob : Blob :=
  Blob_new "2020-07-01 10:00:00" "bb-1" "disk" 4096 kBlobTypeGeneral "" "pool-a" "user-1" "vm-1".

#[local] Existing Instance example_crc.

Definition demo_blob_db (faults : list bool) : MemDB :=
  mkMemDB {[ Blob_kv_key demo_blob := encode_blob demo_blob ]} faults.

Lemma demo_blob_fits b :
  b = demo_blob \/ b = set_blob_size demo_blob 8192 "2020-07-02 10:00:00" -> fits Blob_codec b.
Proof.
  intros [-> | ->]; (split; [cbn; unfold slen; cbn; split_and!; vm_compute; intuition discriminate|by vm_compute]).
Qed.

Lemma demo_blob_agree faults :
  blob_agree "pool-a" (rdb_view (demo_blob_db faults)) {[ "bb-1" := demo_blob ]}.
Proof.
  split; [|by apply map_Forall_singleton]. cbn -[encode_blob Blob_kv_key].
  rewrite Blob_kv_key_eq. apply (synced_put Blob_codec b_id_ (blob_key "pool-a") ∅ ∅ demo_blob).
  - split; [done|]. intros id. by rewrite !lookup_empty.
  - apply demo_blob_fits. auto.
Qed.

Lemma demo_blob_clean faults : pool_prefix_clean "pool-a" (rdb_view (demo_blob_db faults)).
Proof.
  intros k v E _. change (({[ Blob_kv_key demo_blob := encode_blob demo_blob ]} : gmap string string) !! k = Some v) in E.
  apply lookup_singleton_Some in E as [<- _]. by exists "bb-1".
Qed.

Lemma blob_ops_agree_witness :
  exists db', blob_apply 4096 "pool-a" (demo_blob_db []) {[ "bb-1" := demo_blob ]}
    (BlobResize "2020-07-02 10:00:00" "user-1" "bb-1" 8192)
    = (Status_default, db', {[ "bb-1" := set_blob_size demo_blob 8192 "2020-07-02 10:00:00" ]}) /\
    blob_agree "pool-a" (rdb_view db')
      {[ "bb-1" := set_blob_size demo_blob 8192 "2020-07-02 10:00:00" ]}.
Proof.
  destruct (blob_apply 4096 "pool-a" (demo_blob_db []) {[ "bb-1" := demo_blob ]}
    (BlobResize "2020-07-02 10:00:00" "user-1" "bb-1" 8192)) as [[st db'] m'] eqn:E.
  assert (st = Status_default) as -> by (change st with (st, db', m').1.1; rewrite <- E; by vm_compute).
  assert (m' = {[ "bb-1" := set_blob_size demo_blob 8192 "2020-07-02 10:00:00" ]}) as ->
    by (change m' with (Status_default, db', m').2; rewrite <- E; by vm_compute).
  exists db'. split; [done|].
  apply (blob_ops_agree 4096 "pool-a" _ _ _ _ _ _ (demo_blob_agree []) E).
  - apply map_Forall_singleton, demo_blob_fits. auto.
  - intros [].
Defined.

Lemma blob_change_authorised_witness :
  let m' := {[ "bb-1" := set_blob_size demo_blob 8192 "2020-07-02 10:00:00" ]} : BlobManager in
  m' !! "bb-1" <> Some demo_blob /\
  blob_change_allowed 4096 {[ "bb-1" := demo_blob ]}
    (BlobResize "2020-07-02 10:00:00" "user-1" "bb-1" 8192) "bb-1".
Proof.
  cbn zeta. split; [by vm_compute|].
  eapply (blob_change_authorised 4096 "pool-a" (demo_blob_db []) {[ "bb-1" := demo_blob ]} _ _ _
    {[ "bb-1" := set_blob_size demo_blob 8192 "2020-07-02 10:00:00" ]}).
  - vm_compute. reflexivity.
  - by vm_compute.
Defined.

Lemma failed_soft_delete_hides_blob_witness :
  exists st db' m', soft_delete_blob (demo_blob_db [true]) {[ "bb-1" := demo_blob ]} "user-1" "bb-1"
    = (st, db', m') /\ blob_valid m' "bb-1" = false /\
    BlobManager_recovery_from_store db' ∅ "pool-a" = Some (true, {[ "bb-1" := demo_blob ]}).
Proof.
  destruct (soft_delete_blob (demo_blob_db [true]) {[ "bb-1" := demo_blob ]} "user-1" "bb-1")
    as [[st db'] m'] eqn:E.
  exists st, db', m'. split; [done|].
  eapply failed_soft_delete_hides_blob in E; [| | |reflexivity|].
  - destruct E as (_ & _ & H1 & _ & H2). split; [exact H1|exact H2].
  - apply demo_blob_agree.
  - apply demo_blob_clean.
  - change st with (st, db', m').1.1. rewrite <- E. by vm_compute.
Defined.
