(* ===== verification/User.v ===== *)
(** * Users

    [User] and [UserManager] (src/src/extentmanager/user.h and .cpp).  The
    GUIDs that [UUID::Generate] returns are a list argument: the loop of
    [gen_userid] takes them in order, and [None] is a loop that has not found
    a fresh one within the list. *)

From S2P Require Import Prelude Status Codec KvStore Persist Enums.

#[local] Open Scope string_scope.
#[local] Open Scope Z_scope.

Record User : Type := mkUser {
  u_id_ : string;
  u_name_ : string;
  u_email_ : string;
  u_comments_ : string;
  u_status_ : Z;
  u_pool_ids_ : list string;
  u_set_id_ : Z;
  u_create_time_ : string;
  u_update_time_ : string
}.

Definition User_new (now id name email comments : string) (set_id : Z) : User :=
  mkUser id name email comments kUserStatusCreated [] set_id now now.

Definition User_kv_key (u : User) : string := kUserKvPrefix +:+ "_" +:+ u_id_ u.

(** [ss << v << ", "] for every pool. *)
Definition get_poolid (u : User) : string :=
  foldl (fun ss v => ss +:+ v +:+ ", ") "" (u_pool_ids_ u).

Definition User_members : codec User := {|
  save u := save string_codec (u_id_ u) +:+ save string_codec (u_name_ u)
    +:+ save string_codec (u_email_ u) +:+ save string_codec (u_comments_ u)
    +:+ save int_codec (u_status_ u) +:+ save (vector_codec string_codec) (u_pool_ids_ u)
    +:+ save int_codec (u_set_id_ u) +:+ save string_codec (u_create_time_ u)
    +:+ save string_codec (u_update_time_ u);
  load s :=
    '(id, s) ← load string_codec s;
    '(name, s) ← load string_codec s;
    '(email, s) ← load string_codec s;
    '(comments, s) ← load string_codec s;
    '(status, s) ← load int_codec s;
    '(pool_ids, s) ← load (vector_codec string_codec) s;
    '(set_id, s) ← load int_codec s;
    '(create_time, s) ← load string_codec s;
    '(update_time, s) ← load string_codec s;
    Some (mkUser id name email comments status pool_ids set_id create_time update_time, s);
  storable u := storable string_codec (u_id_ u) /\ storable string_codec (u_name_ u) /\
    storable string_codec (u_email_ u) /\ storable string_codec (u_comments_ u) /\
    storable int_codec (u_status_ u) /\ storable (vector_codec string_codec) (u_pool_ids_ u) /\
    storable int_codec (u_set_id_ u) /\ storable string_codec (u_create_time_ u) /\
    storable string_codec (u_update_time_ u)
|}.

Definition User_codec : codec User := versioned 0 (fun _ => User_members).

Lemma User_codec_ok : codec_ok User_codec.
Proof.
  apply versioned_ok; [unfold is_u32; lia|].
  intros [] rest H. cbn -[u64_codec int_codec string_codec vector_codec] in *. by archive.
Qed.

(** [common::pb::User]. *)
Record PbUser : Type := mkPbUser {
  pb_user_id : string;
  pb_user_name : string;
  pb_user_email : string;
  pb_user_comments : string;
  pb_user_status : Z;
  pb_user_pool_id : string;
  pb_user_set_id : Z;
  pb_user_create_date : string;
  pb_user_update_date : string
}.

Definition ToPbUser (u : User) : PbUser :=
  mkPbUser (u_id_ u) (u_name_ u) (u_email_ u) (u_comments_ u) (ToPbUserStatus (u_status_ u))
    (get_poolid u) (u_set_id_ u) (u_create_time_ u) (u_update_time_ u).

Definition set_user_info (u : User) (name email comments time : string) : User :=
  mkUser (u_id_ u) name email comments (u_status_ u) (u_pool_ids_ u) (u_set_id_ u)
    (u_create_time_ u) time.

Definition set_user_status (u : User) (st : Z) : User :=
  mkUser (u_id_ u) (u_name_ u) (u_email_ u) (u_comments_ u) st (u_pool_ids_ u) (u_set_id_ u)
    (u_create_time_ u) (u_update_time_ u).

Definition set_user_pools (u : User) (pools : list string) : User :=
  mkUser (u_id_ u) (u_name_ u) (u_email_ u) (u_comments_ u) (u_status_ u) pools (u_set_id_ u)
    (u_create_time_ u) (u_update_time_ u).

(** ** The manager *)

(** [user_map_]. *)
Abbreviation UserManager := (gmap string User).

Definition username_exist (user_map_ : UserManager) (user_name : string) : bool :=
  existsb (fun p : string * User =>
             (u_status_ p.2 =? kUserStatusCreated) && String.eqb (u_name_ p.2) user_name)
    (map_to_list user_map_).

Fixpoint gen_userid (user_map_ : UserManager) (uuids : list string) : option string :=
  match uuids with
  | [] => None
  | uuid :: uuids' =>
      let user_id := kUserIdPrefix +:+ uuid in
      match user_map_ !! user_id with
      | None => Some user_id
      | Some _ => gen_userid user_map_ uuids'
      end
  end.

Definition user_not_found : Status := mkStatus CYPRE_EM_USER_NOT_FOUND "not found user".

Section UserManager.
Context `{RocksDB DB} `{Crc32c}.

Definition encode_user (u : User) : string := Serializer_Encode User_codec u.

(** The last component is what is written to [*user_id]. *)
Definition create_user (db : DB) (user_map_ : UserManager) (uuids : list string)
  (now name email comments : string) (set_id : Z)
  : option (Status * DB * UserManager * option string) :=
  if username_exist user_map_ name
  then Some (mkStatus CYPRE_EM_USER_DUPLICATED "duplicated user name", db, user_map_, None)
  else
    id ← gen_userid user_map_ uuids;
    let user := User_new now id name email comments set_id in
    let value := encode_user user in
    let '(status, db) := RocksStore_Put db (User_kv_key user) value in
    if negb (RocksStatus_ok status)
    then Some (mkStatus CYPRE_EM_STORE_ERROR "persist user meta failed", db, user_map_, None)
    else Some (Status_default, db, <[u_id_ user := user]> user_map_, Some (u_id_ user)).

(** [new.empty() ? old : new]. *)
Definition or_old (new old : string) : string := if String.eqb new "" then old else new.

Definition update_user (db : DB) (user_map_ : UserManager)
  (now user_id new_name new_email new_comments : string) : Status * DB * UserManager :=
  match user_map_ !! user_id with
  | None => (user_not_found, db, user_map_)
  | Some u =>
      if u_status_ u =? kUserStatusDeleted then (user_not_found, db, user_map_)
      else
        let old_name := u_name_ u in
        if username_exist user_map_ new_name
        then (mkStatus CYPRE_EM_USER_DUPLICATED "duplicated user name", db, user_map_)
        else
          let old_email := u_email_ u in
          let old_comments := u_comments_ u in
          let old_time := u_update_time_ u in
          let u1 := set_user_info u (or_old new_name old_name) (or_old new_email old_email)
                      (or_old new_comments old_comments) now in
          let user_map_ := <[user_id := u1]> user_map_ in
          let value := encode_user u1 in
          let '(status, db) := RocksStore_Put db (User_kv_key u1) value in
          if negb (RocksStatus_ok status)
          then (mkStatus CYPRE_EM_STORE_ERROR "persist user meta failed", db,
                <[user_id := set_user_info u1 old_name old_email old_comments old_time]> user_map_)
          else (Status_default, db, user_map_)
  end.

Definition soft_delete_user (db : DB) (user_map_ : UserManager) (user_id : string)
  : Status * DB * UserManager :=
  match user_map_ !! user_id with
  | None => (user_not_found, db, user_map_)
  | Some u =>
      let u1 := set_user_status u kUserStatusDeleted in
      let user_map_ := <[user_id := u1]> user_map_ in
      let value := encode_user u1 in
      let '(status, db) := RocksStore_Put db (User_kv_key u1) value in
      if negb (RocksStatus_ok status)
      then (mkStatus CYPRE_EM_STORE_ERROR "delete user meta from store failed", db, user_map_)
      else (Status_default, db, user_map_)
  end.

Definition delete_user (db : DB) (user_map_ : UserManager) (user_id : string)
  : Status * DB * UserManager :=
  match user_map_ !! user_id with
  | None => (user_not_found, db, user_map_)
  | Some u =>
      let '(status, db) := RocksStore_Delete db (User_kv_key u) in
      if negb (RocksStatus_ok status)
      then (mkStatus CYPRE_EM_DELETE_ERROR "delete user meta from store failed", db, user_map_)
      else (Status_default, db, delete user_id user_map_)
  end.

Definition UserManager_add_pool (user_map_ : UserManager) (user_id pool_id : string)
  : Status * UserManager :=
  match user_map_ !! user_id with
  | None => (user_not_found, user_map_)
  | Some u =>
      if u_status_ u =? kUserStatusDeleted then (user_not_found, user_map_)
      else if existsb (String.eqb pool_id) (u_pool_ids_ u) then (Status_default, user_map_)
      else (Status_default,
            <[user_id := set_user_pools u (u_pool_ids_ u ++ [pool_id])%list]> user_map_)
  end.

Definition UserManager_list_pools (user_map_ : UserManager) (user_id : string) (pools : list string)
  : Status * list string :=
  match user_map_ !! user_id with
  | None => (user_not_found, pools)
  | Some u => (Status_default, pools ++ u_pool_ids_ u)%list
  end.

Definition query_user (user_map_ : UserManager) (user_id : string) : Status * option PbUser :=
  match user_map_ !! user_id with
  | None => (user_not_found, None)
  | Some u =>
      if u_status_ u =? kUserStatusDeleted then (user_not_found, None)
      else (Status_default, Some (ToPbUser u))
  end.

Definition list_users (user_map_ : UserManager) (users : list PbUser) : Status * list PbUser :=
  (Status_default,
   users ++ map (fun p => ToPbUser p.2)
     (filter (fun p : string * User => (u_status_ p.2 =? kUserStatusCreated) = true)
        (map_to_list user_map_)))%list.

Definition list_deleted_users (user_map_ : UserManager) (users : list string) : Status * list string :=
  (Status_default,
   users ++ (filter (fun p : string * User => (u_status_ p.2 =? kUserStatusDeleted) = true)
               (map_to_list user_map_)).*1)%list.

Definition user_exist (user_map_ : UserManager) (user_id : string) : bool :=
  match user_map_ !! user_id with
  | Some u => negb (u_status_ u =? kUserStatusDeleted)
  | None => false
  end.

Definition UserManager_recovery_from_store (db : DB) (user_map_ : UserManager)
  : option (bool * UserManager) :=
  recover User_codec u_id_ db kUserKvPrefix user_map_.
End UserManager.

(** ** Names are unique *)

Section UserTheorems.
Context `{RocksDB DB} `{Crc32c}.
Implicit Types (db : DB) (m : UserManager).

Inductive user_step : DB * UserManager -> DB * UserManager -> Prop :=
  | user_step_create db m uuids now name email comments set_id st db' m' id :
      create_user db m uuids now name email comments set_id = Some (st, db', m', id) ->
      user_step (db, m) (db', m')
  | user_step_update db m now user_id name email comments st db' m' :
      update_user db m now user_id name email comments = (st, db', m') ->
      user_step (db, m) (db', m')
  | user_step_soft_delete db m user_id st db' m' :
      soft_delete_user db m user_id = (st, db', m') -> user_step (db, m) (db', m')
  | user_step_delete db m user_id st db' m' :
      delete_user db m user_id = (st, db', m') -> user_step (db, m) (db', m')
  | user_step_add_pool db m user_id pool_id st m' :
      UserManager_add_pool m user_id pool_id = (st, m') -> user_step (db, m) (db, m').

Definition live_user (u : User) (name : string) : Prop :=
  u_status_ u = kUserStatusCreated /\ u_name_ u = name.

Definition users_unique m : Prop :=
  map_Forall (fun id u => u_id_ u = id) m /\
  forall id1 id2 u1 u2 name, m !! id1 = Some u1 -> m !! id2 = Some u2 ->
    live_user u1 name -> live_user u2 name -> id1 = id2.

Lemma username_exist_false m name :
  username_exist m name = false <-> forall id u, m !! id = Some u -> ~ live_user u name.
Proof.
  unfold username_exist. rewrite <- not_true_iff_false, existsb_exists. split.
  - intros Hn id u Hm [Hs Hname]. apply Hn. exists (id, u).
    rewrite <- list_elem_of_In, elem_of_map_to_list. split; [done|]. cbn.
    by rewrite Hs, Hname, String.eqb_refl.
  - intros Hn ([id u] & Hin & [Hs He%String.eqb_eq]%andb_true_iff). b2p.
    rewrite <- list_elem_of_In, elem_of_map_to_list in Hin. by apply (Hn id u).
Qed.

Lemma gen_userid_fresh m uuids id : gen_userid m uuids = Some id -> m !! id = None.
Proof.
  induction uuids as [|uuid uuids IH]; [done|]. cbn [gen_userid].
  destruct (m !! (kUserIdPrefix +:+ uuid)) eqn:E; [by apply IH|]. by intros [= <-].
Qed.

(** Replacing a record keeps names unique if its name was free or its own. *)
Lemma users_unique_insert m id u :
  users_unique m -> u_id_ u = id ->
  (forall name id' u', live_user u name -> m !! id' = Some u' -> live_user u' name -> id' = id) ->
  users_unique (<[id := u]> m).
Proof.
  intros [Hi Hu] Hid Hname. split; [by apply map_Forall_insert_2|].
  intros id1 id2 u1 u2 name. rewrite !lookup_insert_Some.
  intros [[<- <-]|[_ Hm1]] [[<- <-]|[_ Hm2]] L1 L2; [done| | |eauto].
  - symmetry. eauto.
  - eauto.
Qed.

Lemma users_unique_delete m id : users_unique m -> users_unique (delete id m).
Proof.
  intros [Hi Hu]. split; [by apply map_Forall_delete|].
  intros id1 id2 u1 u2 name. rewrite !lookup_delete_Some. intros [_ ?] [_ ?]. eauto.
Qed.

(** Same liveness and name: nothing to check. *)
Lemma users_unique_same m id u u' :
  users_unique m -> m !! id = Some u -> u_id_ u' = u_id_ u ->
  (forall name, live_user u' name -> live_user u name) -> users_unique (<[id := u']> m).
Proof.
  intros [Hi Hu] Hm Hid Hl. apply users_unique_insert; [done| |].
  - rewrite Hid. exact (map_Forall_lookup_1 _ _ _ _ Hi Hm).
  - intros name id' v Hv Hm' Hl'. eapply Hu; eauto.
Qed.

Lemma or_old_live u m user_id new :
  users_unique m -> m !! user_id = Some u -> username_exist m new = false ->
  forall st name id' u', (u_status_ u = st -> or_old new (u_name_ u) = name -> st = kUserStatusCreated ->
    m !! id' = Some u' -> live_user u' name -> id' = user_id).
Proof.
  intros [Hi Hu] Hm Hn st name id' u' <- Hname Hc Hm' Hl. unfold or_old in Hname.
  destruct (String.eqb new "") eqn:E.
  - eapply Hu; eauto. done.
  - subst name. rewrite username_exist_false in Hn. by destruct (Hn id' u').
Qed.

Lemma user_step_unique s s' : user_step s s' -> users_unique s.2 -> users_unique s'.2.
Proof.
  intros Hstep Hu. destruct Hstep as
    [db m uuids now name email comments set_id st db' m' id E|db m now user_id name email comments st db' m' E
    |db m user_id st db' m' E|db m user_id st db' m' E|db m user_id pool_id st m' E]; cbn in *.
  - unfold create_user in E. destruct (username_exist m name) eqn:En; [by simplify_eq|].
    destruct (gen_userid m uuids) as [i|] eqn:Eg; cbn in E; [|done].
    destruct (RocksStore_Put _ _ _). bcase; simplify_eq; [done|]. cbn.
    apply users_unique_insert; [done|done|].
    intros nm id' u' [_ <-] Hm Hl. rewrite username_exist_false in En. by destruct (En id' u').
  - unfold update_user in E. destruct (m !! user_id) as [u|] eqn:Em; [|by simplify_eq].
    bcase; [by simplify_eq|]. destruct (username_exist m name) eqn:En; [by simplify_eq|].
    destruct (RocksStore_Put _ _ _). bcase; simplify_eq.
    + rewrite insert_insert_eq. eapply users_unique_same; eauto.
    + apply users_unique_insert; [done| |].
      * exact (map_Forall_lookup_1 _ _ _ _ (proj1 Hu) Em).
      * intros nm id' u' [Hc Hnm] Hm' Hl. eapply or_old_live; eauto.
  - unfold soft_delete_user in E. destruct (m !! user_id) as [u|] eqn:Em; [|by simplify_eq].
    destruct (RocksStore_Put _ _ _).
    assert (m' = <[user_id := set_user_status u kUserStatusDeleted]> m) as -> by (bcase; by simplify_eq).
    eapply users_unique_same; eauto. intros nm [[=] _].
  - unfold delete_user in E. destruct (m !! user_id) as [u|] eqn:Em; [|by simplify_eq].
    destruct (RocksStore_Delete _ _). bcase; simplify_eq; [done|]. by apply users_unique_delete.
  - unfold UserManager_add_pool in E. destruct (m !! user_id) as [u|] eqn:Em; [|by simplify_eq].
    repeat bcase; simplify_eq; try done. by eapply users_unique_same.
Qed.

(** in every state reached from an empty table by creating, updating and
    deleting users, no two users that are not deleted have the same name. *)
Theorem user_names_unique db0 s id1 id2 u1 u2 :
  rtc user_step (db0, ∅) s ->
  s.2 !! id1 = Some u1 -> s.2 !! id2 = Some u2 ->
  u_status_ u1 = kUserStatusCreated -> u_status_ u2 = kUserStatusCreated ->
  u_name_ u1 = u_name_ u2 -> id1 = id2.
Proof.
  intros Hr H1 H2 S1 S2 Hn.
  assert (Hu : users_unique s.2).
  { remember (db0, ∅) as s0. assert (users_unique s0.2) by (subst; split; [apply map_Forall_empty|by intros]).
    clear Heqs0. induction Hr; eauto using user_step_unique. }
  destruct Hu as [_ Hu]. by eapply Hu.
Qed.
End UserTheorems.

#[local] Existing Instance example_crc.

Lemma user_names_unique_witness :
  exists db m, rtc user_step (mkMemDB ∅ [], ∅) (db, m) /\ size m = 1%nat /\
    forall id1 id2 u1 u2, m !! id1 = Some u1 -> m !! id2 = Some u2 ->
      u_status_ u1 = kUserStatusCreated -> u_status_ u2 = kUserStatusCreated ->
      u_name_ u1 = u_name_ u2 -> id1 = id2.
Proof.
  destruct (create_user (mkMemDB ∅ []) ∅ ["a"] "t" "bob" "" "" 1) as [[[[st db] m] i]|] eqn:E.
  2: { exfalso. apply (f_equal (fun o => match o with Some _ => true | None => false end)) in E.
       by vm_compute in E. }
  assert (Hr : rtc user_step (mkMemDB ∅ [], ∅) (db, m)) by (eapply rtc_once, user_step_create, E).
  exists db, m. split; [exact Hr|]. split.
  - change m with (default (st, db, ∅, None) (Some (st, db, m, i))).1.2. rewrite <- E. by vm_compute.
  - intros id1 id2 u1 u2. apply (user_names_unique (mkMemDB ∅ []) (db, m) id1 id2 u1 u2 Hr).
Defined.
