(* ===== verification/Heap.v ===== *)
(** * Priority queues

    [std::priority_queue] over a vector: the sift-up and sift-down loops of
    [std::push_heap] and [std::pop_heap].  The comparator is evaluated on the
    objects the queue's pointers reach, whose fields change between calls, and
    it can be undefined (division by zero, signed overflow), so it returns an
    option and the operations are [None] when a comparison they make is
    undefined.  No order between elements is assumed here: the comparators of
    the extent manager are not all orders, and what the components rely on is
    that a queue keeps its elements. *)

From S2P Require Import Prelude.

#[local] Open Scope nat_scope.

Section Heap.
Context {A : Type} (cmp : A -> A -> option bool).

(** Sift [value] up from [hole]; [fuel] is at least [hole]. *)
Fixpoint push_up (fuel : nat) (l : list A) (hole : nat) (value : A) : option (list A) :=
  match fuel with
  | O => Some (<[hole := value]> l)
  | S fuel' =>
      if hole =? 0 then Some (<[hole := value]> l)
      else
        let parent := (hole - 1) / 2 in
        p ← l !! parent;
        less ← cmp p value;
        if less : bool then push_up fuel' (<[hole := p]> l) parent value
        else Some (<[hole := value]> l)
  end.

(** Move the hole down to a leaf, then sift [value] up; [fuel] is at least the
    number of elements. *)
Fixpoint adjust_heap (fuel : nat) (l : list A) (hole : nat) (value : A) : option (list A) :=
  let len := length l in
  match fuel with
  | O => None
  | S fuel' =>
      if hole <? (len - 1) / 2 then
        let second := 2 * (hole + 1) in
        x ← l !! second;
        y ← l !! (second - 1);
        less ← cmp x y;
        let '(child, z) := if less : bool then (second - 1, y) else (second, x) in
        adjust_heap fuel' (<[hole := z]> l) child value
      else if Nat.even len && (0 <? len) && (hole =? (len - 2) / 2) then
        let child := 2 * (hole + 1) - 1 in
        z ← l !! child;
        push_up child (<[hole := z]> l) child value
      else push_up hole l hole value
  end.

Definition pq_top (l : list A) : option A := head l.

Definition pq_push (l : list A) (x : A) : option (list A) :=
  push_up (length l) (l ++ [x]) (length l) x.

(** [None] on an empty queue. *)
Definition pq_pop (l : list A) : option (list A) :=
  if length l =? 0 then None
  else if length l =? 1 then Some []
  else
    value ← last l;
    let l' := take (length l - 1) l in
    adjust_heap (S (length l')) l' 0 value.

(** ** The elements of a queue *)

Lemma insert_swap_perm (l : list A) i j y v :
  i <> j -> i < length l -> l !! j = Some y -> <[j := v]> (<[i := y]> l) ≡ₚ <[i := v]> l.
Proof.
  intros Hij Hi Hj. rewrite <- (Permutation_insert_swap (<[i := v]> l) i j v y).
  - by rewrite list_insert_insert_eq.
  - by apply list_lookup_insert_eq.
  - by rewrite list_lookup_insert_ne.
Qed.

Lemma push_up_perm fuel l hole value l' :
  hole < length l -> push_up fuel l hole value = Some l' -> l' ≡ₚ <[hole := value]> l.
Proof.
  revert l hole. induction fuel as [|fuel IH]; intros l hole Hl E; cbn -[Nat.div] in E; [by simplify_eq|].
  destruct (Nat.eqb_spec hole 0); [by simplify_eq|].
  destruct (l !! _) as [p|] eqn:Ep; cbn -[Nat.div] in E; [|done].
  destruct (cmp p value) as [[]|]; cbn -[Nat.div] in E; simplify_eq; [|done].
  assert ((hole - 1) / 2 < hole) by (apply Nat.Div0.div_lt_upper_bound; lia).
  apply IH in E; [|rewrite length_insert; lia]. rewrite E. apply insert_swap_perm; [lia|lia|done].
Qed.

Lemma adjust_heap_perm fuel l hole value l' :
  hole < length l -> adjust_heap fuel l hole value = Some l' -> l' ≡ₚ <[hole := value]> l.
Proof.
  revert l hole. induction fuel as [|fuel IH]; intros l hole Hl E; cbn [adjust_heap mbind option_bind] in E; [done|].
  destruct (Nat.ltb_spec hole ((length l - 1) / 2)).
  - destruct (l !! (2 * (hole + 1))) as [x|] eqn:Ex; cbn [adjust_heap mbind option_bind] in E; [|done].
    destruct (l !! (2 * (hole + 1) - 1)) as [y|] eqn:Ey; cbn [adjust_heap mbind option_bind] in E; [|done].
    pose proof (lookup_lt_Some _ _ _ Ex). pose proof (lookup_lt_Some _ _ _ Ey).
    destruct (cmp x y) as [[]|]; cbn [adjust_heap mbind option_bind] in E; [..|done];
      (apply IH in E; [|rewrite length_insert; lia]; rewrite E; apply insert_swap_perm; [lia|lia|done]).
  - bcase.
    + destruct (l !! (2 * (hole + 1) - 1)) as [z|] eqn:Ez; cbn [adjust_heap mbind option_bind] in E; [|done].
      pose proof (lookup_lt_Some _ _ _ Ez).
      apply push_up_perm in E; [|rewrite length_insert; lia]. rewrite E.
      apply insert_swap_perm; [lia|lia|done].
    + by apply push_up_perm in E.
Qed.

Lemma pq_push_perm l x l' : pq_push l x = Some l' -> l' ≡ₚ x :: l.
Proof.
  unfold pq_push. intros E%push_up_perm; [|rewrite length_app; cbn; lia].
  rewrite E. rewrite insert_app_r_alt, Nat.sub_diag by lia. cbn. by rewrite Permutation_app_comm.
Qed.

Lemma pq_pop_perm l x l' : pq_top l = Some x -> pq_pop l = Some l' -> l ≡ₚ x :: l'.
Proof.
  intros Ht E. unfold pq_pop in E.
  destruct (Nat.eqb_spec (length l) 0); [done|].
  destruct (Nat.eqb_spec (length l) 1) as [H1|].
  { destruct l as [|a [|]]; try done. cbn in Ht. by simplify_eq. }
  destruct (last l) as [v|] eqn:Hv; cbn [mbind option_bind] in E; [|done].
  apply last_Some in Hv as [k ->]. rewrite length_app in *. cbn [length] in *.
  replace (length k + 1 - 1) with (length k) in E by lia. rewrite take_app_length in E.
  destruct k as [|c k]; [cbn in *; lia|]. cbn in Ht. simplify_eq.
  apply adjust_heap_perm in E; [|cbn; lia]. rewrite E. cbn.
  f_equiv. by rewrite Permutation_app_comm.
Qed.

(** ** When the operations are defined *)

Context (P : A -> Prop) (cmp_total : forall x y, P x -> P y -> is_Some (cmp x y)).

Lemma push_up_total fuel l hole value :
  Forall P l -> P value -> hole < length l -> is_Some (push_up fuel l hole value).
Proof.
  intros Hl Hv. revert l Hl hole. induction fuel as [|fuel IH]; intros l Hl hole Hh; cbn -[Nat.div]; [eauto|].
  destruct (Nat.eqb_spec hole 0); [eauto|].
  assert ((hole - 1) / 2 < hole) by (apply Nat.Div0.div_lt_upper_bound; lia).
  destruct (lookup_lt_is_Some_2 l ((hole - 1) / 2)) as [p Hp]; [lia|]. rewrite Hp. cbn -[Nat.div].
  assert (P p) by (by eapply Forall_lookup_1).
  destruct (cmp_total p value) as [[] ->]; cbn -[Nat.div]; [done|done| |eauto].
  apply IH; [by apply Forall_insert|rewrite length_insert; lia].
Qed.

Lemma adjust_heap_total fuel l hole value :
  Forall P l -> P value -> hole < length l -> length l - hole < fuel ->
  is_Some (adjust_heap fuel l hole value).
Proof.
  intros Hl Hv. revert l Hl hole. induction fuel as [|fuel IH]; intros l Hl hole Hh Hf; [lia|].
  cbn [adjust_heap mbind option_bind]. destruct (Nat.ltb_spec hole ((length l - 1) / 2)) as [Hlt|Hge].
  - assert (2 * (hole + 1) < length l).
    { pose proof (Nat.Div0.div_le_upper_bound (length l - 1) 2 ((length l - 1) / 2)).
      pose proof (Nat.Div0.mul_div_le (length l - 1) 2). lia. }
    destruct (lookup_lt_is_Some_2 l (2 * (hole + 1))) as [x Hx]; [lia|].
    destruct (lookup_lt_is_Some_2 l (2 * (hole + 1) - 1)) as [y Hy]; [lia|].
    rewrite Hx. cbn [adjust_heap mbind option_bind]. rewrite Hy. cbn [adjust_heap mbind option_bind].
    assert (P x /\ P y) as [? ?] by (split; by eapply Forall_lookup_1).
    destruct (cmp_total x y) as [[] ->]; cbn [adjust_heap mbind option_bind]; [done|done|..];
      (apply IH; [by apply Forall_insert|rewrite length_insert; lia..]).
  - bcase.
    + assert (2 * (hole + 1) - 1 < length l).
      { b2p. rewrite Nat.ltb_lt, Nat.eqb_eq in *. subst hole.
        pose proof (Nat.Div0.mul_div_le (length l - 2) 2).
        destruct (decide (length l = 1)) as [E|]; [|lia]. by rewrite E in *. }
      destruct (lookup_lt_is_Some_2 l (2 * (hole + 1) - 1)) as [z Hz]; [lia|].
      rewrite Hz. cbn [adjust_heap mbind option_bind]. assert (P z) by (by eapply Forall_lookup_1).
      apply push_up_total; [by apply Forall_insert|done|rewrite length_insert; lia].
    + by apply push_up_total.
Qed.

Lemma pq_push_total l x : Forall P l -> P x -> is_Some (pq_push l x).
Proof.
  intros. apply push_up_total; [|done|rewrite length_app; cbn; lia].
  apply Forall_app. auto.
Qed.

Lemma pq_pop_total l : Forall P l -> l <> [] -> is_Some (pq_pop l).
Proof.
  intros Hl Hn. unfold pq_pop.
  destruct (Nat.eqb_spec (length l) 0) as [?%length_zero_iff_nil|]; [done|].
  destruct (Nat.eqb_spec (length l) 1); [eauto|].
  destruct (last_is_Some l) as [_ [v Hv]]; [done|]. rewrite Hv. cbn [mbind option_bind].
  apply adjust_heap_total; [by apply Forall_take| |rewrite length_take; lia..].
  eapply Forall_forall; [exact Hl|]. by apply last_Some_elem_of.
Qed.
End Heap.
