(* ===== verification/EsMgr.v ===== *)
(** * Extent servers

    [ExtentServer] and [EsManager] (src/src/extentmanager/extent_server.h and
    .cpp): the servers of one pool, as they report themselves by heartbeat.
    The table is an ordered [std::map]; loops over it go by ascending id.  The
    counters [rgs_], [primary_rgs_], [secondary_rgs_] and [weight_] are not
    stored; a recovered object has them zeroed. *)

From stdpp Require Import sorting.
From S2P Require Import Prelude Status Codec KvStore Persist Enums Net.

#[local] Open Scope string_scope.
#[local] Open Scope Z_scope.

Record ExtentServer : Type := mkExtentServer {
  es_id_ : Z;
  es_name_ : string;
  es_status_ : Z;
  es_public_ip_ : string;
  es_public_port_ : Z;
  es_private_ip_ : string;
  es_private_port_ : Z;
  es_used_ : Z;
  es_capacity_ : Z;
  es_pool_id_ : string;
  es_host_ : string;
  es_rack_ : string;
  es_create_time_ : string;
  es_update_time_ : string;
  es_rgs_ : Z;
  es_primary_rgs_ : Z;
  es_secondary_rgs_ : Z;
  es_weight_ : Z
}.

(** The constructor; [weight_] is left uninitialised there and is not read
    before [set_weight]. *)
Definition ExtentServer_new (now : string) (id : Z) (name public_ip : string) (public_port : Z)
  (private_ip : string) (private_port size capacity : Z) (pool_id host rack : string) : ExtentServer :=
  mkExtentServer id name kESStatusOk public_ip public_port private_ip private_port size capacity
    pool_id host rack now now 0 0 0 0.

Definition ES_kv_key (e : ExtentServer) : string :=
  kESKvPrefix +:+ "_" +:+ es_pool_id_ e +:+ "_" +:+ dec (es_id_ e).

Definition set_used (e : ExtentServer) (used : Z) : ExtentServer :=
  mkExtentServer (es_id_ e) (es_name_ e) (es_status_ e) (es_public_ip_ e) (es_public_port_ e)
    (es_private_ip_ e) (es_private_port_ e) used (es_capacity_ e) (es_pool_id_ e) (es_host_ e)
    (es_rack_ e) (es_create_time_ e) (es_update_time_ e) (es_rgs_ e) (es_primary_rgs_ e)
    (es_secondary_rgs_ e) (es_weight_ e).

Definition set_counters (e : ExtentServer) (rgs primary_rgs secondary_rgs weight : Z) : ExtentServer :=
  mkExtentServer (es_id_ e) (es_name_ e) (es_status_ e) (es_public_ip_ e) (es_public_port_ e)
    (es_private_ip_ e) (es_private_port_ e) (es_used_ e) (es_capacity_ e) (es_pool_id_ e) (es_host_ e)
    (es_rack_ e) (es_create_time_ e) (es_update_time_ e) rgs primary_rgs secondary_rgs weight.

Definition ES_members : codec ExtentServer := {|
  save e := save int_codec (es_id_ e) +:+ save string_codec (es_name_ e)
    +:+ save int_codec (es_status_ e)
    +:+ save string_codec (es_public_ip_ e) +:+ save int_codec (es_public_port_ e)
    +:+ save string_codec (es_private_ip_ e) +:+ save int_codec (es_private_port_ e)
    +:+ save u64_codec (es_used_ e) +:+ save u64_codec (es_capacity_ e)
    +:+ save string_codec (es_pool_id_ e) +:+ save string_codec (es_host_ e)
    +:+ save string_codec (es_rack_ e) +:+ save string_codec (es_create_time_ e)
    +:+ save string_codec (es_update_time_ e);
  load s :=
    '(id, s) ← load int_codec s;
    '(name, s) ← load string_codec s;
    '(status, s) ← load int_codec s;
    '(public_ip, s) ← load string_codec s;
    '(public_port, s) ← load int_codec s;
    '(private_ip, s) ← load string_codec s;
    '(private_port, s) ← load int_codec s;
    '(used, s) ← load u64_codec s;
    '(capacity, s) ← load u64_codec s;
    '(pool_id, s) ← load string_codec s;
    '(host, s) ← load string_codec s;
    '(rack, s) ← load string_codec s;
    '(create_time, s) ← load string_codec s;
    '(update_time, s) ← load string_codec s;
    Some (mkExtentServer id name status public_ip public_port private_ip private_port used capacity
            pool_id host rack create_time update_time 0 0 0 0, s);
  storable e := storable int_codec (es_id_ e) /\ storable string_codec (es_name_ e) /\
    storable int_codec (es_status_ e) /\
    storable string_codec (es_public_ip_ e) /\ storable int_codec (es_public_port_ e) /\
    storable string_codec (es_private_ip_ e) /\ storable int_codec (es_private_port_ e) /\
    storable u64_codec (es_used_ e) /\ storable u64_codec (es_capacity_ e) /\
    storable string_codec (es_pool_id_ e) /\ storable string_codec (es_host_ e) /\
    storable string_codec (es_rack_ e) /\ storable string_codec (es_create_time_ e) /\
    storable string_codec (es_update_time_ e)
|}.

Definition ES_codec : codec ExtentServer := versioned 0 (fun _ => ES_members).

(** [common::pb::Endpoint], [common::pb::ExtentServer]; an [EsInstance] is the
    [ESInstance] of Net.v. *)
Record PbEndpoint : Type := mkPbEndpoint {
  pb_public_ip : string;
  pb_public_port : Z;
  pb_private_ip : string;
  pb_private_port : Z
}.

Record PbExtentServer : Type := mkPbExtentServer {
  pb_es_id : Z;
  pb_es_name : string;
  pb_es_size : Z;
  pb_es_capacity : Z;
  pb_es_pool_id : string;
  pb_es_host : string;
  pb_es_rack : string;
  pb_es_status : Z;
  pb_es_endpoint : PbEndpoint;
  pb_es_create_date : string;
  pb_es_update_date : string
}.

Definition ToPbEndpoint (e : ExtentServer) : PbEndpoint :=
  mkPbEndpoint (es_public_ip_ e) (es_public_port_ e) (es_private_ip_ e) (es_private_port_ e).

Definition ToPbExtentServer (e : ExtentServer) : PbExtentServer :=
  mkPbExtentServer (es_id_ e) (es_name_ e) (es_used_ e) (es_capacity_ e) (es_pool_id_ e) (es_host_ e)
    (es_rack_ e) (ToPbExtentServerStatus (es_status_ e)) (ToPbEndpoint e) (es_create_time_ e)
    (es_update_time_ e).

Definition ToPbEsInstance (e : ExtentServer) : ESInstance :=
  mkESInstance (es_id_ e) (es_public_ip_ e) (es_public_port_ e) (es_private_ip_ e) (es_private_port_ e).

(** ** The manager *)

(** [es_map_]. *)
Abbreviation EsManager := (gmap Z ExtentServer).

Definition id_le (p q : Z * ExtentServer) : Prop := p.1 <= q.1.
#[export] Instance id_le_dec : RelDecision id_le.
Proof. intros p q. unfold id_le. apply _. Defined.

(** [for (auto &e : es_map_)]. *)
Definition es_entries (es_map_ : EsManager) : list (Z * ExtentServer) :=
  merge_sort id_le (map_to_list es_map_).

(** The first test that fails names the conflict. *)
Fixpoint check_new_es_loop (entries : list (Z * ExtentServer)) (name public_ip : string)
  (public_port : Z) (private_ip : string) (private_port : Z) : Status :=
  match entries with
  | [] => Status_default
  | (_, e) :: entries' =>
      if String.eqb (es_name_ e) name
      then mkStatus CYPRE_ER_INVALID_ARGUMENT "es name conflict"
      else if String.eqb (es_public_ip_ e) public_ip && (es_public_port_ e =? public_port)
      then mkStatus CYPRE_ER_INVALID_ARGUMENT "es public addr conflict"
      else if String.eqb (es_private_ip_ e) private_ip && (es_private_port_ e =? private_port)
      then mkStatus CYPRE_ER_INVALID_ARGUMENT "es private addr conflict"
      else check_new_es_loop entries' name public_ip public_port private_ip private_port
  end.

Definition check_new_es (es_map_ : EsManager) (name public_ip : string) (public_port : Z)
  (private_ip : string) (private_port : Z) : Status :=
  check_new_es_loop (es_entries es_map_) name public_ip public_port private_ip private_port.

(** The last test that fails names the change. *)
Definition check_old_es (e : ExtentServer) (name public_ip : string) (public_port : Z)
  (private_ip : string) (private_port : Z) : Status :=
  let '(message, changed) := ("", false) in
  let '(message, changed) :=
    if negb (String.eqb (es_name_ e) name) then ("es name changed", true) else (message, changed) in
  let '(message, changed) :=
    if negb (String.eqb (es_public_ip_ e) public_ip) || negb (es_public_port_ e =? public_port)
    then ("es public addr changed", true) else (message, changed) in
  let '(message, changed) :=
    if negb (String.eqb (es_private_ip_ e) private_ip) || negb (es_private_port_ e =? private_port)
    then ("es private addr changed", true) else (message, changed) in
  if changed : bool then mkStatus CYPRE_ER_INVALID_ARGUMENT message else Status_default.

Definition es_not_found : Status := mkStatus CYPRE_EM_ES_NOT_FOUND "not found extentserver".

Section EsManager.
Context `{RocksDB DB} `{Crc32c}.

Definition encode_es (e : ExtentServer) : string := Serializer_Encode ES_codec e.

Definition create_es (db : DB) (es_map_ : EsManager) (now : string) (id : Z) (name public_ip : string)
  (public_port : Z) (private_ip : string) (private_port size capacity : Z) (pool_id host rack : string)
  : Status * DB * EsManager :=
  match es_map_ !! id with
  | Some _ => (mkStatus CYPRE_EM_ES_DUPLICATED "Es already exist", db, es_map_)
  | None =>
      let status := check_new_es es_map_ name public_ip public_port private_ip private_port in
      if negb (ok status) then (status, db, es_map_)
      else
        let es := ExtentServer_new now id name public_ip public_port private_ip private_port size
                    capacity pool_id host rack in
        let value := encode_es es in
        let '(kv_status, db) := RocksStore_Put db (ES_kv_key es) value in
        if negb (RocksStatus_ok kv_status)
        then (mkStatus CYPRE_EM_STORE_ERROR "persist es meta to store failed", db, es_map_)
        else (Status_default, db, <[es_id_ es := es]> es_map_)
  end.

Definition update_es (db : DB) (es_map_ : EsManager) (es_id : Z) (name public_ip : string)
  (public_port : Z) (private_ip : string) (private_port size : Z) : Status * DB * EsManager :=
  match es_map_ !! es_id with
  | None => (es_not_found, db, es_map_)
  | Some e =>
      let status := check_old_es e name public_ip public_port private_ip private_port in
      if negb (ok status) then (status, db, es_map_)
      else
        let e1 := set_used e size in
        let es_map_ := <[es_id := e1]> es_map_ in
        let value := encode_es e1 in
        let '(kv_status, db) := RocksStore_Put db (ES_kv_key e1) value in
        if negb (RocksStatus_ok kv_status)
        then (mkStatus CYPRE_EM_STORE_ERROR "persist es meta to store failed", db, es_map_)
        else (Status_default, db, es_map_)
  end.

Definition delete_es (db : DB) (es_map_ : EsManager) (es_id : Z) : Status * DB * EsManager :=
  match es_map_ !! es_id with
  | None => (es_not_found, db, es_map_)
  | Some e =>
      let '(kv_status, db) := RocksStore_Delete db (ES_kv_key e) in
      if negb (RocksStatus_ok kv_status)
      then (mkStatus CYPRE_EM_DELETE_ERROR "delete es meta from store failed", db, es_map_)
      else (Status_default, db, delete es_id es_map_)
  end.

(** Failed deletions are logged and otherwise ignored. *)
Definition delete_all_es (db : DB) (es_map_ : EsManager) : Status * DB * EsManager :=
  let db := foldl (fun db (m : Z * ExtentServer) => (RocksStore_Delete db (ES_kv_key m.2)).2)
              db (es_entries es_map_) in
  (Status_default, db, ∅).

Definition query_es (es_map_ : EsManager) (es_id : Z) : Status * option PbExtentServer :=
  match es_map_ !! es_id with
  | None => (es_not_found, None)
  | Some e => (Status_default, Some (ToPbExtentServer e))
  end.

(** The loop dereferences the iterator of a server without testing it:
    [None] if one is unknown.  [Some (primary, secondaries)] is what is written
    into the router. *)
Fixpoint query_es_router_loop (es_map_ : EsManager) (i : nat) (es_group : list Z)
  (primary : option ESInstance) (secondaries : list ESInstance)
  : option (option ESInstance * list ESInstance) :=
  match es_group with
  | [] => Some (primary, secondaries)
  | id :: es_group' =>
      e ← es_map_ !! id;
      if Nat.eqb i 0
      then query_es_router_loop es_map_ (S i) es_group' (Some (ToPbEsInstance e)) secondaries
      else query_es_router_loop es_map_ (S i) es_group' primary (secondaries ++ [ToPbEsInstance e])%list
  end.

Definition query_es_router (es_map_ : EsManager) (es_group : list Z)
  : option (Status * option ESInstance * list ESInstance) :=
  '(primary, secondaries) ← query_es_router_loop es_map_ 0 es_group None [];
  Some (Status_default, primary, secondaries).

Definition es_exist (es_map_ : EsManager) (es_id : Z) : bool :=
  match es_map_ !! es_id with Some _ => true | None => false end.

Definition es_count (es_map_ : EsManager) : Z := wrap32 (Z.of_nat (size es_map_)).

Definition total_capacity (es_map_ : EsManager) : Z :=
  foldl (fun all_ca (e : Z * ExtentServer) => wrap64 (all_ca + es_capacity_ e.2)) 0 (es_entries es_map_).

Definition total_used (es_map_ : EsManager) : Z :=
  foldl (fun all_used (e : Z * ExtentServer) => wrap64 (all_used + es_used_ e.2)) 0 (es_entries es_map_).

Definition list_es_pb (es_map_ : EsManager) (ess : list PbExtentServer) : Status * list PbExtentServer :=
  (Status_default, ess ++ map (fun e => ToPbExtentServer e.2) (es_entries es_map_))%list.

(** The overload that hands out the shared objects themselves: their ids. *)
Definition list_es (es_map_ : EsManager) (ess : list Z) : Status * list Z :=
  (Status_default, ess ++ map fst (es_entries es_map_))%list.

Definition EsManager_recovery_from_store (db : DB) (es_map_ : EsManager) (pool_id : string)
  : option (bool * EsManager) :=
  recover ES_codec es_id_ db (kESKvPrefix +:+ "_" +:+ pool_id) es_map_.
End EsManager.

(** ** Lemmas on the table *)

Lemma es_entries_perm (m : EsManager) : es_entries m ≡ₚ map_to_list m.
Proof. apply merge_sort_Permutation. Qed.

Lemma es_entries_elem (m : EsManager) id e : (id, e) ∈ es_entries m <-> m !! id = Some e.
Proof. rewrite es_entries_perm. apply elem_of_map_to_list. Qed.

(** Two servers that share no name and no address. *)
Definition es_apart (e : ExtentServer) (name public_ip : string) (public_port : Z)
  (private_ip : string) (private_port : Z) : Prop :=
  es_name_ e <> name /\
  (es_public_ip_ e, es_public_port_ e) <> (public_ip, public_port) /\
  (es_private_ip_ e, es_private_port_ e) <> (private_ip, private_port).

Lemma check_new_es_ok m name public_ip public_port private_ip private_port :
  ok (check_new_es m name public_ip public_port private_ip private_port) = true <->
  map_Forall (fun _ e => es_apart e name public_ip public_port private_ip private_port) m.
Proof.
  unfold check_new_es. transitivity (Forall (fun p : Z * ExtentServer =>
    es_apart p.2 name public_ip public_port private_ip private_port) (es_entries m)).
  - induction (es_entries m) as [|[id e] l IH]; [done|]. cbn [check_new_es_loop].
    rewrite Forall_cons, <- IH. unfold es_apart; cbn [snd].
    destruct (String.eqb_spec (es_name_ e) name).
    { split; [discriminate|]. by intros [(? & _) _]. }
    destruct (String.eqb (es_public_ip_ e) public_ip && _) eqn:E1.
    { apply andb_true_iff in E1 as [<-%String.eqb_eq <-%Z.eqb_eq].
      split; [discriminate|]. by intros [(_ & ? & _) _]. }
    destruct (String.eqb (es_private_ip_ e) private_ip && _) eqn:E2.
    { apply andb_true_iff in E2 as [<-%String.eqb_eq <-%Z.eqb_eq].
      split; [discriminate|]. by intros [(_ & _ & ?) _]. }
    clear IH. split; [|tauto]. intros Hok. split_and!; [done|..|done]; intros [= He Hp];
      rewrite He, Hp, String.eqb_refl, Z.eqb_refl in *; done.
  - rewrite Forall_forall. split.
    + intros H id e Hm. by apply (H (id, e)), es_entries_elem.
    + intros H [id e] Hm%es_entries_elem. exact (map_Forall_lookup_1 _ _ _ _ H Hm).
Qed.

Lemma check_old_es_ok e name public_ip public_port private_ip private_port :
  ok (check_old_es e name public_ip public_port private_ip private_port) = true <->
  es_name_ e = name /\ es_public_ip_ e = public_ip /\ es_public_port_ e = public_port /\
  es_private_ip_ e = private_ip /\ es_private_port_ e = private_port.
Proof.
  unfold check_old_es.
  destruct (String.eqb_spec (es_name_ e) name), (String.eqb_spec (es_public_ip_ e) public_ip),
    (Z.eqb_spec (es_public_port_ e) public_port), (String.eqb_spec (es_private_ip_ e) private_ip),
    (Z.eqb_spec (es_private_port_ e) private_port); cbn; split; try discriminate; tauto.
Qed.

Section EsTheorems.
Context `{RocksDB DB} `{Crc32c}.
Implicit Types (db : DB) (m : EsManager).

Inductive es_step : DB * EsManager -> DB * EsManager -> Prop :=
  | es_step_create db m now id name pip pport vip vport size capacity pool_id host rack st db' m' :
      create_es db m now id name pip pport vip vport size capacity pool_id host rack = (st, db', m') ->
      es_step (db, m) (db', m')
  | es_step_update db m id name pip pport vip vport size st db' m' :
      update_es db m id name pip pport vip vport size = (st, db', m') -> es_step (db, m) (db', m')
  | es_step_delete db m id st db' m' :
      delete_es db m id = (st, db', m') -> es_step (db, m) (db', m')
  | es_step_delete_all db m st db' m' :
      delete_all_es db m = (st, db', m') -> es_step (db, m) (db', m').

Definition es_distinct (e1 e2 : ExtentServer) : Prop :=
  es_apart e1 (es_name_ e2) (es_public_ip_ e2) (es_public_port_ e2) (es_private_ip_ e2)
    (es_private_port_ e2).

Definition es_wf m : Prop :=
  map_Forall (fun id e => es_id_ e = id) m /\
  forall id1 id2 e1 e2, m !! id1 = Some e1 -> m !! id2 = Some e2 -> id1 <> id2 -> es_distinct e1 e2.

Lemma es_distinct_sym e1 e2 : es_distinct e1 e2 -> es_distinct e2 e1.
Proof. unfold es_distinct, es_apart. intuition congruence. Qed.

Lemma es_wf_insert m id e :
  es_wf m -> es_id_ e = id ->
  (forall id' e', m !! id' = Some e' -> id' <> id -> es_distinct e' e) -> es_wf (<[id := e]> m).
Proof.
  intros [Hi Hd] Hid Hnew. split; [by apply map_Forall_insert_2|].
  intros id1 id2 e1 e2. rewrite !lookup_insert_Some.
  intros [[<- <-]|[? Hm1]] [[<- <-]|[? Hm2]] Hne; [done|..|eauto].
  - apply es_distinct_sym. eauto.
  - eauto.
Qed.

Lemma es_step_wf s s' : es_step s s' -> es_wf s.2 -> es_wf s'.2.
Proof.
  intros Hstep Hw. destruct Hstep; cbn in *.
  - unfold create_es in *. destruct (m !! id) eqn:Em; [by simplify_eq|].
    destruct (ok (check_new_es _ _ _ _ _ _)) eqn:Ec; cbn [negb] in *; [|by simplify_eq].
    destruct (RocksStore_Put _ _ _). bcase; simplify_eq; [done|].
    apply es_wf_insert; [done|done|]. intros id' e' Hm _.
    apply check_new_es_ok in Ec. exact (map_Forall_lookup_1 _ _ _ _ Ec Hm).
  - unfold update_es in *. destruct (m !! id) as [e|] eqn:Em; [|by simplify_eq].
    bcase; [by simplify_eq|]. destruct (RocksStore_Put _ _ _).
    assert (m' = <[id := set_used e size]> m) as -> by (bcase; by simplify_eq).
    destruct Hw as [Hi Hd]. apply es_wf_insert; [done|exact (map_Forall_lookup_1 _ _ _ _ Hi Em)|].
    intros id' e' Hm Hne. exact (Hd id' id e' e Hm Em Hne).
  - unfold delete_es in *. destruct (m !! id) as [e|] eqn:Em; [|by simplify_eq].
    destruct (RocksStore_Delete _ _). bcase; simplify_eq; [done|].
    destruct Hw as [Hi Hd]. split; [by apply map_Forall_delete|].
    intros i1 i2 e1 e2 [_ ?]%lookup_delete_Some [_ ?]%lookup_delete_Some. eauto.
  - unfold delete_all_es in *. simplify_eq. split; [apply map_Forall_empty|]. by intros.
Qed.

(** in every state the heartbeats of the servers and their removal lead
    to, no two servers of a pool share a name, a public address or a private
    address, and each is stored under its own id. *)
Theorem es_identities_distinct db0 s id1 id2 e1 e2 :
  rtc es_step (db0, ∅) s ->
  s.2 !! id1 = Some e1 -> s.2 !! id2 = Some e2 -> id1 <> id2 ->
  es_id_ e1 = id1 /\ es_name_ e1 <> es_name_ e2 /\
  (es_public_ip_ e1, es_public_port_ e1) <> (es_public_ip_ e2, es_public_port_ e2) /\
  (es_private_ip_ e1, es_private_port_ e1) <> (es_private_ip_ e2, es_private_port_ e2).
Proof.
  intros Hr H1 H2 Hne.
  assert (Hw : es_wf s.2).
  { remember (db0, ∅) as s0. assert (es_wf s0.2) by (subst; split; [apply map_Forall_empty|by intros]).
    clear Heqs0. induction Hr; eauto using es_step_wf. }
  destruct Hw as [Hi Hd]. split; [exact (map_Forall_lookup_1 _ _ _ _ Hi H1)|].
  exact (Hd _ _ _ _ H1 H2 Hne).
Qed.

(** The answer to a router query: the first server of the group is the
    primary, the others are the secondaries, in order. *)
Lemma query_es_router_spec m es_group ess :
  Forall2 (fun id e => m !! id = Some e) es_group ess ->
  query_es_router m es_group =
    Some (Status_default, ToPbEsInstance <$> head ess, ToPbEsInstance <$> tail ess).
Proof.
  assert (Hloop : forall i l k p s, Forall2 (fun id e => m !! id = Some e) l k ->
    query_es_router_loop m (S i) l p s = Some (p, (s ++ (ToPbEsInstance <$> k))%list)).
  { intros i l k p s Hl. revert i s. induction Hl as [|id e l k He Hl IH]; intros i s; cbn.
    - by rewrite app_nil_r.
    - rewrite He. cbn. rewrite IH. by rewrite <- app_assoc. }
  intros [|id e l k He Hl]; [done|]. unfold query_es_router. cbn. rewrite He. cbn.
  rewrite (Hloop _ _ k) by done. done.
Qed.
End EsTheorems.

#[local] Existing Instance example_crc.

Definition demo_es_1 : Status * MemDB * EsManager :=
  create_es (mkMemDB ∅ []) ∅ "t" 1 "es1" "10.0.0.1" 80 "10.1.0.1" 80 0 4096 "pool-a" "h1" "r1".
Definition demo_es_2 : Status * MemDB * EsManager :=
  create_es demo_es_1.1.2 demo_es_1.2 "t" 2 "es2" "10.0.0.2" 80 "10.1.0.2" 80 0 4096 "pool-a" "h2" "r2".

Lemma triple_eta {A B C} (p : A * B * C) : p = (p.1.1, p.1.2, p.2).
Proof. by destruct p as [[? ?] ?]. Qed.

Lemma es_identities_distinct_witness :
  exists e1 e2, rtc es_step (mkMemDB ∅ [], ∅) (demo_es_2.1.2, demo_es_2.2) /\
    demo_es_2.2 !! 1 = Some e1 /\ demo_es_2.2 !! 2 = Some e2 /\ es_name_ e1 <> es_name_ e2.
Proof.
  assert (Hr : rtc es_step (mkMemDB ∅ [], ∅) (demo_es_2.1.2, demo_es_2.2)).
  { eapply rtc_l; [eapply es_step_create, (triple_eta demo_es_1)|].
    eapply rtc_once, es_step_create, (triple_eta demo_es_2). }
  assert (Hm : demo_es_2.2 !! 1 <> None /\ demo_es_2.2 !! 2 <> None) by (split; vm_compute; discriminate).
  destruct (demo_es_2.2 !! 1) as [e1|] eqn:H1; [|by destruct Hm].
  destruct (demo_es_2.2 !! 2) as [e2|] eqn:H2; [|by destruct Hm].
  exists e1, e2. split; [exact Hr|]. split; [done|]. split; [done|].
  destruct (es_identities_distinct (mkMemDB ∅ []) _ 1 2 e1 e2 Hr H1 H2) as (_ & Hn & _).
  - lia.
  - exact Hn.
Defined.
