(* ===== verification/RgAllocater.v ===== *)
(** * Placement of replicas

    The three allocators of src/src/extentmanager/rg_allocater*.{h,cpp}, which
    choose the servers of a replication group so that no two of them share a
    server, a host or a rack, and the interface they implement
    ([RGAllocater]).

    Extent servers, hosts and racks are shared objects in the source: the
    queues hold pointers and the comparators read the objects' current
    counters.  Here the servers are in the manager's table (an argument that
    is threaded through, as the allocator mutates the manager's objects) and
    the hosts and racks in maps by name; the queues hold ids and names.
    [None] is undefined behaviour: a division by zero, a signed overflow, an
    unknown server, or use of the value read from an empty queue. *)

From S2P Require Import Prelude Status Enums Heap EsMgr.

#[local] Open Scope string_scope.
#[local] Open Scope Z_scope.

(** ** Weights *)

(** [std::__gcd] on [int]; [fuel] exceeds the absolute value of [n]. *)
Fixpoint std_gcd (fuel : nat) (m n : Z) : Z :=
  match fuel with
  | O => m
  | S fuel' => if n =? 0 then m else std_gcd fuel' n (Z.rem m n)
  end.

Definition std_gcd2 (m n : Z) : Z := std_gcd (S (Z.to_nat (Z.abs n))) m n.

(** [GCDUtil::gcd]: reads [nums[0]]. *)
Definition GCD (nums : list Z) : option Z :=
  r ← head nums;
  Some (foldl std_gcd2 r nums).

(** Division of unsigned integers. *)
Definition udiv (a b : Z) : option Z := if b =? 0 then None else Some (a / b).

(** ** Counters and comparators *)

Record Stat : Type := mkStat {
  stat_rgs : Z;
  stat_primary_rgs : Z;
  stat_secondary_rgs : Z;
  stat_weight : Z
}.

Definition Stat_new : Stat := mkStat 0 0 0 0.

(** [1000000 * count / weight], an [int] product converted to [uint64_t]. *)
Definition load_ratio (count weight : Z) : option Z :=
  let p := 1000000 * count in
  if (p <? -2147483648) || (2147483647 <? p) then None
  else udiv (wrap64 p) weight.

(** The comparison that [EsCmp], [HostCmp] and [RackCmp] share. *)
Definition stat_cmp (lhs rhs : Stat) : option bool :=
  a ← load_ratio (stat_secondary_rgs lhs) (stat_weight lhs);
  b ← load_ratio (stat_secondary_rgs rhs) (stat_weight rhs);
  if b <? a then Some true
  else
    c ← load_ratio (stat_primary_rgs lhs) (stat_weight lhs);
    d ← load_ratio (stat_primary_rgs rhs) (stat_weight rhs);
    Some (d <? c).

Definition es_stat (e : ExtentServer) : Stat :=
  mkStat (es_rgs_ e) (es_primary_rgs_ e) (es_secondary_rgs_ e) (es_weight_ e).

Definition EsCmp (ess : EsManager) (lhs rhs : Z) : option bool :=
  l ← ess !! lhs; r ← ess !! rhs; stat_cmp (es_stat l) (es_stat r).

Record Host : Type := mkHost { host_name : string; host_ess : list Z; host_stat : Stat }.

Definition HostCmp (hosts : gmap string Host) (lhs rhs : string) : option bool :=
  l ← hosts !! lhs; r ← hosts !! rhs; stat_cmp (host_stat l) (host_stat r).

Record Rack : Type := mkRack { rack_name : string; rack_hosts : list string; rack_stat : Stat }.

Definition RackCmp (racks : gmap string Rack) (lhs rhs : string) : option bool :=
  l ← racks !! lhs; r ← racks !! rhs; stat_cmp (rack_stat l) (rack_stat r).

(** [rgs++] and [primary_rgs++], or [rgs++] and [secondary_rgs++]. *)
Definition incr_stat (primary : bool) (s : Stat) : Stat :=
  if primary
  then mkStat (stat_rgs s + 1) (stat_primary_rgs s + 1) (stat_secondary_rgs s) (stat_weight s)
  else mkStat (stat_rgs s + 1) (stat_primary_rgs s) (stat_secondary_rgs s + 1) (stat_weight s).

Definition incr_es (primary : bool) (e : ExtentServer) : ExtentServer :=
  let s := incr_stat primary (es_stat e) in
  set_counters e (stat_rgs s) (stat_primary_rgs s) (stat_secondary_rgs s) (stat_weight s).

Definition set_weight (e : ExtentServer) (weight : Z) : ExtentServer :=
  set_counters e (es_rgs_ e) (es_primary_rgs_ e) (es_secondary_rgs_ e) weight.

(** ** Steps the allocators share *)

(** [host_rack_valid]. *)
Fixpoint host_rack_loop (ess : EsManager) (ids : list Z) (host_rack_map : gmap string string)
  : option Status :=
  match ids with
  | [] => Some Status_default
  | id :: ids' =>
      es ← ess !! id;
      match host_rack_map !! es_host_ es with
      | Some rack =>
          if negb (String.eqb rack (es_rack_ es)) then Some (mkStatus CYPRE_ER_INVALID_ARGUMENT "")
          else host_rack_loop ess ids' host_rack_map
      | None => host_rack_loop ess ids' (<[es_host_ es := es_rack_ es]> host_rack_map)
      end
  end.

Definition host_rack_valid (ess : EsManager) (ids : list Z) : option Status :=
  host_rack_loop ess ids ∅.

(** The divisor of the weights. *)
Definition weight_unit (ess : EsManager) (ids : list Z) (extent_size : Z) : option Z :=
  nums ← mapM (fun id => es ← ess !! id; q ← udiv (es_capacity_ es) extent_size; Some (to_int q)) ids;
  GCD nums.

(** [es->set_weight(es->get_capacity() / extent_size / r)]. *)
Definition weigh (ess : EsManager) (id extent_size r : Z) : option (ExtentServer * EsManager) :=
  es ← ess !! id;
  q ← udiv (es_capacity_ es) extent_size;
  w ← udiv q (wrap64 r);
  let es := set_weight es w in
  Some (es, <[id := es]> ess).

Section Queue.
Context {A : Type} (cmp : A -> A -> option bool).

(** The search loop of [select_secondary]: skip the entries for which
    [excluded] holds.  Results: the queue, the current entry, the skipped
    entries, and [find]. *)
Fixpoint skip_loop (fuel : nat) (excluded : A -> option bool) (q : list A) (cur : option A)
  (tmp : list A) : option (list A * option A * list A * bool) :=
  match fuel with
  | O => None
  | S fuel' =>
      x ← cur;
      ex ← excluded x;
      if ex : bool then
        let tmp := (tmp ++ [x])%list in
        q ← pq_pop cmp q;
        let cur := pq_top q in
        if Nat.eqb (length q) 0 then Some (q, cur, tmp, false)
        else skip_loop fuel' excluded q cur tmp
      else Some (q, cur, tmp, true)
  end.

(** [for (auto &e : tmp) q.push(e);] *)
Fixpoint restore (q tmp : list A) : option (list A) :=
  match tmp with
  | [] => Some q
  | e :: tmp' => q ← pq_push cmp q e; restore q tmp'
  end.

(** [q.pop(); q.push(x);] *)
Definition requeue (q : list A) (x : A) : option (list A) :=
  q ← pq_pop cmp q; pq_push cmp q x.
End Queue.

(** ** By server *)

Record RGAllocaterByEs : Type := mkRGAllocaterByEs { ess_ : list Z }.

Fixpoint ByEs_init_loop (ess : EsManager) (a : RGAllocaterByEs) (ids : list Z) (extent_size r : Z)
  : option (EsManager * RGAllocaterByEs) :=
  match ids with
  | [] => Some (ess, a)
  | id :: ids' =>
      '(_, ess) ← weigh ess id extent_size r;
      q ← pq_push (EsCmp ess) (ess_ a) id;
      ByEs_init_loop ess (mkRGAllocaterByEs q) ids' extent_size r
  end.

Definition ByEs_init (ess : EsManager) (a : RGAllocaterByEs) (ids : list Z) (extent_size : Z)
  : option (Status * EsManager * RGAllocaterByEs) :=
  status ← host_rack_valid ess ids;
  if negb (ok status) then Some (status, ess, a)
  else
    r ← weight_unit ess ids extent_size;
    '(ess, a) ← ByEs_init_loop ess a ids extent_size r;
    Some (Status_default, ess, a).

Definition ByEs_select_primary (ess : EsManager) (a : RGAllocaterByEs)
  : option (Z * EsManager * RGAllocaterByEs) :=
  id ← pq_top (ess_ a);
  e ← ess !! id;
  let ess := <[id := incr_es true e]> ess in
  q ← requeue (EsCmp ess) (ess_ a) id;
  Some (id, ess, mkRGAllocaterByEs q).

Definition ByEs_select_secondary (ess : EsManager) (a : RGAllocaterByEs) (group : list Z)
  : option (option Z * EsManager * RGAllocaterByEs) :=
  '(q, cur, tmp, find) ←
    skip_loop (EsCmp ess) (S (length (ess_ a)))
      (fun id => e ← ess !! id; Some (existsb (Z.eqb (es_id_ e)) group))
      (ess_ a) (pq_top (ess_ a)) [];
  if negb find then
    q ← restore (EsCmp ess) q tmp;
    Some (None, ess, mkRGAllocaterByEs q)
  else
    id ← cur;
    e ← ess !! id;
    let ess := <[id := incr_es false e]> ess in
    q ← requeue (EsCmp ess) q id;
    q ← restore (EsCmp ess) q tmp;
    Some (Some id, ess, mkRGAllocaterByEs q).

(** ** By host *)

Record RGAllocaterByHost : Type := mkRGAllocaterByHost {
  bh_es_map_ : gset Z;
  bh_hosts : gmap string Host;
  hosts_ : list string
}.

Definition add_weight (s : Stat) (w : Z) : Stat :=
  mkStat (stat_rgs s) (stat_primary_rgs s) (stat_secondary_rgs s) (wrap64 (stat_weight s + w)).

(** [host->ess.push(es); host->stat.weight += es->get_weight();] on the host
    of that name, or on a new one: the second result. *)
Definition host_add_es (ess : EsManager) (hosts : gmap string Host) (id : Z) (es : ExtentServer)
  : option (gmap string Host * bool) :=
  let name := es_host_ es in
  let '(host, is_new) := match hosts !! name with
                         | Some host => (host, false)
                         | None => (mkHost name [] Stat_new, true)
                         end in
  q ← pq_push (EsCmp ess) (host_ess host) id;
  Some (<[name := mkHost name q (add_weight (host_stat host) (es_weight_ es))]> hosts, is_new).

Fixpoint ByHost_init_loop (ess : EsManager) (a : RGAllocaterByHost) (ids : list Z) (extent_size r : Z)
  : option (EsManager * RGAllocaterByHost) :=
  match ids with
  | [] => Some (ess, a)
  | id :: ids' =>
      '(es, ess) ← weigh ess id extent_size r;
      '(hosts, is_new) ← host_add_es ess (bh_hosts a) id es;
      q ← (if is_new : bool then pq_push (HostCmp hosts) (hosts_ a) (es_host_ es) else Some (hosts_ a));
      ByHost_init_loop ess (mkRGAllocaterByHost ({[id]} ∪ bh_es_map_ a) hosts q) ids' extent_size r
  end.

Definition ByHost_init (ess : EsManager) (a : RGAllocaterByHost) (ids : list Z) (extent_size : Z)
  : option (Status * EsManager * RGAllocaterByHost) :=
  status ← host_rack_valid ess ids;
  if negb (ok status) then Some (status, ess, a)
  else
    r ← weight_unit ess ids extent_size;
    '(ess, a) ← ByHost_init_loop ess a ids extent_size r;
    Some (Status_default, ess, a).

(** Count the selection of a server of [host] and requeue the server. *)
Definition host_select (primary : bool) (ess : EsManager) (hosts : gmap string Host) (name : string)
  : option (Z * EsManager * gmap string Host) :=
  host ← hosts !! name;
  id ← pq_top (host_ess host);
  e ← ess !! id;
  let ess := <[id := incr_es primary e]> ess in
  q ← requeue (EsCmp ess) (host_ess host) id;
  Some (id, ess, <[name := mkHost (host_name host) q (incr_stat primary (host_stat host))]> hosts).

Definition ByHost_select_primary (ess : EsManager) (a : RGAllocaterByHost)
  : option (Z * EsManager * RGAllocaterByHost) :=
  name ← pq_top (hosts_ a);
  '(id, ess, hosts) ← host_select true ess (bh_hosts a) name;
  q ← requeue (HostCmp hosts) (hosts_ a) name;
  Some (id, ess, mkRGAllocaterByHost (bh_es_map_ a) hosts q).

(** Does a server of [group] have attribute [name]?  An id that is not in
    [es_map_] is a null pointer. *)
Fixpoint group_has (ess : EsManager) (es_map_ : gset Z) (attr : ExtentServer -> string)
  (group : list Z) (name : string) : option bool :=
  match group with
  | [] => Some false
  | id :: group' =>
      if decide (id ∈ es_map_) then
        e ← ess !! id;
        if String.eqb (attr e) name then Some true else group_has ess es_map_ attr group' name
      else None
  end.

Definition ByHost_select_secondary (ess : EsManager) (a : RGAllocaterByHost) (group : list Z)
  : option (option Z * EsManager * RGAllocaterByHost) :=
  '(q, cur, tmp, find) ←
    skip_loop (HostCmp (bh_hosts a)) (S (length (hosts_ a)))
      (fun name => host ← bh_hosts a !! name;
                   group_has ess (bh_es_map_ a) es_host_ group (host_name host))
      (hosts_ a) (pq_top (hosts_ a)) [];
  if negb find then
    q ← restore (HostCmp (bh_hosts a)) q tmp;
    Some (None, ess, mkRGAllocaterByHost (bh_es_map_ a) (bh_hosts a) q)
  else
    name ← cur;
    '(id, ess, hosts) ← host_select false ess (bh_hosts a) name;
    q ← requeue (HostCmp hosts) q name;
    q ← restore (HostCmp hosts) q tmp;
    Some (Some id, ess, mkRGAllocaterByHost (bh_es_map_ a) hosts q).

(** ** By rack *)

Record RGAllocaterByRack : Type := mkRGAllocaterByRack {
  br_es_map_ : gset Z;
  br_hosts : gmap string Host;
  br_racks : gmap string Rack;
  racks_ : list string
}.

(** The host is pushed into its rack once for every server on it. *)
Definition rack_add_host (hosts : gmap string Host) (racks : gmap string Rack) (es : ExtentServer)
  : option (gmap string Rack * bool) :=
  let name := es_rack_ es in
  let '(rack, is_new) := match racks !! name with
                         | Some rack => (rack, false)
                         | None => (mkRack name [] Stat_new, true)
                         end in
  q ← pq_push (HostCmp hosts) (rack_hosts rack) (es_host_ es);
  Some (<[name := mkRack name q (add_weight (rack_stat rack) (es_weight_ es))]> racks, is_new).

Fixpoint ByRack_init_loop (ess : EsManager) (a : RGAllocaterByRack) (ids : list Z) (extent_size r : Z)
  : option (EsManager * RGAllocaterByRack) :=
  match ids with
  | [] => Some (ess, a)
  | id :: ids' =>
      '(es, ess) ← weigh ess id extent_size r;
      '(hosts, _) ← host_add_es ess (br_hosts a) id es;
      '(racks, is_new) ← rack_add_host hosts (br_racks a) es;
      q ← (if is_new : bool then pq_push (RackCmp racks) (racks_ a) (es_rack_ es) else Some (racks_ a));
      ByRack_init_loop ess (mkRGAllocaterByRack ({[id]} ∪ br_es_map_ a) hosts racks q) ids' extent_size r
  end.

Definition ByRack_init (ess : EsManager) (a : RGAllocaterByRack) (ids : list Z) (extent_size : Z)
  : option (Status * EsManager * RGAllocaterByRack) :=
  status ← host_rack_valid ess ids;
  if negb (ok status) then Some (status, ess, a)
  else
    r ← weight_unit ess ids extent_size;
    '(ess, a) ← ByRack_init_loop ess a ids extent_size r;
    Some (Status_default, ess, a).

(** Select from the host at the top of [rack]; the host is requeued in it. *)
Definition rack_select (primary : bool) (ess : EsManager) (hosts : gmap string Host)
  (racks : gmap string Rack) (name : string)
  : option (Z * EsManager * gmap string Host * gmap string Rack) :=
  rack ← racks !! name;
  hname ← pq_top (rack_hosts rack);
  '(id, ess, hosts) ← host_select primary ess hosts hname;
  q ← requeue (HostCmp hosts) (rack_hosts rack) hname;
  Some (id, ess, hosts, <[name := mkRack (rack_name rack) q (incr_stat primary (rack_stat rack))]> racks).

Definition ByRack_select_primary (ess : EsManager) (a : RGAllocaterByRack)
  : option (Z * EsManager * RGAllocaterByRack) :=
  name ← pq_top (racks_ a);
  '(id, ess, hosts, racks) ← rack_select true ess (br_hosts a) (br_racks a) name;
  q ← requeue (RackCmp racks) (racks_ a) name;
  Some (id, ess, mkRGAllocaterByRack (br_es_map_ a) hosts racks q).

Definition ByRack_select_secondary (ess : EsManager) (a : RGAllocaterByRack) (group : list Z)
  : option (option Z * EsManager * RGAllocaterByRack) :=
  '(q, cur, tmp, find) ←
    skip_loop (RackCmp (br_racks a)) (S (length (racks_ a)))
      (fun name => rack ← br_racks a !! name;
                   group_has ess (br_es_map_ a) es_rack_ group (rack_name rack))
      (racks_ a) (pq_top (racks_ a)) [];
  if negb find then
    q ← restore (RackCmp (br_racks a)) q tmp;
    Some (None, ess, mkRGAllocaterByRack (br_es_map_ a) (br_hosts a) (br_racks a) q)
  else
    name ← cur;
    '(id, ess, hosts, racks) ← rack_select false ess (br_hosts a) (br_racks a) name;
    q ← requeue (RackCmp racks) q name;
    q ← restore (RackCmp racks) q tmp;
    Some (Some id, ess, mkRGAllocaterByRack (br_es_map_ a) hosts racks q).

(** ** Queues keep their entries *)

Section QueueLemmas.
Context {A : Type} (cmp : A -> A -> option bool).
Context (P : A -> Prop) (cmp_total : forall x y, P x -> P y -> is_Some (cmp x y)).

Lemma restore_spec q tmp :
  Forall P q -> Forall P tmp -> exists q', restore cmp q tmp = Some q' /\ q' ≡ₚ q ++ tmp.
Proof.
  intros Hq Ht. revert q Hq. induction Ht as [|e tmp He _ IH]; intros q Hq; cbn.
  - exists q. by rewrite app_nil_r.
  - destruct (pq_push_total cmp P cmp_total q e Hq He) as [q1 E1]. rewrite E1. cbn.
    apply pq_push_perm in E1.
    destruct (IH q1) as (q' & -> & Hp); [rewrite E1; by constructor|].
    exists q'. split; [done|]. rewrite Hp, E1. solve_Permutation.
Qed.

Lemma requeue_spec q x :
  Forall P q -> pq_top q = Some x -> exists q', requeue cmp q x = Some q' /\ q' ≡ₚ q.
Proof.
  intros Hq Ht. unfold requeue.
  destruct (pq_pop_total cmp P cmp_total q Hq) as [q1 E1]; [by destruct q|]. rewrite E1. cbn.
  pose proof (pq_pop_perm cmp q x q1 Ht E1) as Hp.
  assert (Forall P q1 /\ P x) as [H1 Hx] by (rewrite Hp in Hq; by inversion Hq).
  destruct (pq_push_total cmp P cmp_total q1 x H1 Hx) as [q2 E2]. exists q2. split; [done|].
  by rewrite (pq_push_perm cmp _ _ _ E2), Hp.
Qed.

Lemma skip_loop_spec fuel excluded q tmp :
  Forall P q -> (forall x, x ∈ q -> is_Some (excluded x)) -> q <> [] -> (length q < fuel)%nat ->
  exists q' cur' tmp' find,
    skip_loop cmp fuel excluded q (pq_top q) tmp = Some (q', cur', tmp', find) /\
    q' ++ tmp' ≡ₚ q ++ tmp /\
    if find : bool
    then exists x, cur' = Some x /\ pq_top q' = Some x /\ x ∈ q /\ excluded x = Some false
    else q' = [] /\ forall x, x ∈ q -> excluded x = Some true.
Proof.
  revert q tmp. induction fuel as [|fuel IH]; intros q tmp Hq Hex Hne Hf; [lia|].
  destruct (pq_top q) as [x|] eqn:Ht; [|by destruct q].
  assert (Hx : x ∈ q) by (destruct q; [done|]; cbn in Ht; simplify_eq; left).
  cbn [skip_loop mbind option_bind]. destruct (Hex x Hx) as [[] Ex]; rewrite Ex; cbn [mbind option_bind].
  2: { do 4 eexists. split; [done|]. split; [done|]. eauto. }
  destruct (pq_pop_total cmp P cmp_total q Hq Hne) as [q1 E1]. rewrite E1. cbn [mbind option_bind].
  pose proof (pq_pop_perm cmp q x q1 Ht E1) as Hp.
  destruct (Nat.eqb_spec (length q1) 0) as [Hz%length_zero_iff_nil|Hnz].
  { subst q1. do 4 eexists. split; [done|]. split; [rewrite Hp; solve_Permutation|]. split; [done|].
    intros y Hy. rewrite Hp in Hy. by apply list_elem_of_singleton in Hy as ->. }
  destruct (IH q1 (tmp ++ [x])%list) as (q' & cur' & tmp' & find & -> & Hp' & Hr).
  - rewrite Hp in Hq. by inversion Hq.
  - intros y Hy. apply Hex. rewrite Hp. by right.
  - by intros ->.
  - rewrite Hp in Hf. cbn in Hf. lia.
  - do 4 eexists. split; [done|]. split; [rewrite Hp', Hp; solve_Permutation|].
    destruct find.
    + destruct Hr as (y & ? & ? & ? & ?). exists y. split_and!; try done. rewrite Hp. by right.
    + destruct Hr as [? Hall]. split; [done|]. intros y Hy. rewrite Hp in Hy.
      apply elem_of_cons in Hy as [->|]; auto.
Qed.

(** The selected entry and the skipped ones go back. *)
Lemma reselect_spec q x tmp q0 :
  Forall P q0 -> q ++ tmp ≡ₚ q0 -> pq_top q = Some x ->
  exists q1 q2, requeue cmp q x = Some q1 /\ restore cmp q1 tmp = Some q2 /\ q2 ≡ₚ q0.
Proof.
  intros H0 Hp Ht. rewrite <- Hp in H0. apply Forall_app in H0 as [Hq Htmp].
  destruct (requeue_spec q x Hq Ht) as (q1 & E1 & Hp1).
  destruct (restore_spec q1 tmp) as (q2 & E2 & Hp2); [by rewrite Hp1|done|].
  exists q1, q2. split_and!; try done. by rewrite Hp2, Hp1.
Qed.
End QueueLemmas.

(** ** Counters within bounds *)

(** Counters at most [n] and a weight that can be divided by; [n] is the
    number of selections made so far. *)
Definition stat_ok (n : Z) (s : Stat) : Prop :=
  0 <= stat_primary_rgs s <= n /\ 0 <= stat_secondary_rgs s <= n /\ 0 < stat_weight s <= u64_max.

(** Up to this count the comparators' products fit an [int]. *)
Definition max_count : Z := 2147.

Lemma load_ratio_total c w : 0 <= c <= max_count -> 0 < w -> is_Some (load_ratio c w).
Proof.
  unfold max_count, load_ratio, udiv. intros.
  replace ((1000000 * c <? -2147483648) || (2147483647 <? 1000000 * c)) with false
    by (symmetry; apply orb_false_iff; rewrite !Z.ltb_ge; lia).
  destruct (Z.eqb_spec w 0); [lia|eauto].
Qed.

Lemma stat_cmp_total n l r : n <= max_count -> stat_ok n l -> stat_ok n r -> is_Some (stat_cmp l r).
Proof.
  intros Hn (Hl1 & Hl2 & Hl3) (Hr1 & Hr2 & Hr3). unfold stat_cmp.
  destruct (load_ratio_total (stat_secondary_rgs l) (stat_weight l)) as [a ->]; [lia..|].
  destruct (load_ratio_total (stat_secondary_rgs r) (stat_weight r)) as [b ->]; [lia..|].
  cbn. bcase; [eauto|].
  destruct (load_ratio_total (stat_primary_rgs l) (stat_weight l)) as [c ->]; [lia..|].
  destruct (load_ratio_total (stat_primary_rgs r) (stat_weight r)) as [d ->]; [lia..|].
  cbn. eauto.
Qed.

Lemma stat_ok_incr n p s : stat_ok n s -> stat_ok (n + 1) (incr_stat p s).
Proof. unfold stat_ok, incr_stat. destruct p; cbn; lia. Qed.

Lemma stat_ok_mono n n' s : n <= n' -> stat_ok n s -> stat_ok n' s.
Proof. unfold stat_ok. lia. Qed.

(** ** Servers up to their counters *)

Definition es_base (e : ExtentServer) : ExtentServer := set_counters e 0 0 0 0.
Definition es_same (ess ess' : EsManager) : Prop := es_base <$> ess = es_base <$> ess'.

#[export] Instance es_same_equiv : Equivalence es_same.
Proof. split; unfold es_same; [done|by intros ? ? ->|by intros ? ? ? -> ->]. Qed.

Lemma es_same_lookup ess ess' id e :
  es_same ess ess' -> ess !! id = Some e -> exists e', ess' !! id = Some e' /\ es_base e = es_base e'.
Proof.
  intros Hs He. apply (f_equal (lookup id)) in Hs. rewrite !lookup_fmap, He in Hs. cbn in Hs.
  destruct (ess' !! id); [|done]. apply (inj Some) in Hs. eauto.
Qed.

Lemma es_same_insert ess id e e' :
  ess !! id = Some e -> es_base e' = es_base e -> es_same ess (<[id := e']> ess).
Proof.
  intros He Hb. unfold es_same. rewrite fmap_insert, Hb. symmetry. apply insert_id.
  by rewrite lookup_fmap, He.
Qed.

(** [es_base] determines everything but the counters. *)
Lemma es_base_attrs e e' : es_base e = es_base e' ->
  es_id_ e = es_id_ e' /\ es_host_ e = es_host_ e' /\ es_rack_ e = es_rack_ e' /\
  es_capacity_ e = es_capacity_ e'.
Proof. unfold es_base, set_counters. intros [=]. auto. Qed.

(** A known server with counters within [n]; [Q] is a property of its host and
    rack. *)
Definition es_good (n : Z) (Q : ExtentServer -> Prop) (ess : EsManager) (id : Z) : Prop :=
  exists e, ess !! id = Some e /\ es_id_ e = id /\ stat_ok n (es_stat e) /\ Q (es_base e).

Lemma EsCmp_total n Q ess x y :
  n <= max_count -> es_good n Q ess x -> es_good n Q ess y -> is_Some (EsCmp ess x y).
Proof.
  intros Hn (ex & Ex & _ & Hx & _) (ey & Ey & _ & Hy & _). unfold EsCmp. rewrite Ex, Ey. cbn.
  by eapply stat_cmp_total.
Qed.

(** Counting a selection keeps every server good. *)
Lemma es_good_incr n Q ess p id e id' :
  ess !! id = Some e -> es_good n Q ess id' -> es_good (n + 1) Q (<[id := incr_es p e]> ess) id'.
Proof.
  intros He (e' & He' & Hid & Hs & HQ). destruct (decide (id' = id)) as [->|Hne].
  - simplify_eq. exists (incr_es p e). rewrite lookup_insert_eq. split_and!; try done.
    by apply (stat_ok_incr n p) in Hs; destruct p.
  - exists e'. rewrite lookup_insert_ne by done. split_and!; try done.
    eapply stat_ok_mono; [|done]. lia.
Qed.

Lemma incr_es_base p e : es_base (incr_es p e) = es_base e.
Proof. done. Qed.

(** ** The weights of a pool's servers *)

Lemma std_gcd_spec fuel m n :
  0 <= m -> 0 <= n -> n < Z.of_nat fuel -> std_gcd fuel m n = Z.gcd m n.
Proof.
  revert m n. induction fuel as [|fuel IH]; intros m n Hm Hn Hf; [lia|].
  cbn [std_gcd]. destruct (Z.eqb_spec n 0) as [->|].
  - rewrite Z.gcd_0_r. lia.
  - rewrite Z.rem_mod_nonneg by lia. rewrite IH by lia.
    rewrite (Z.gcd_comm m n), <- (Z.gcd_mod m n) by lia. apply Z.gcd_comm.
Qed.

Lemma std_gcd2_spec m n : 0 <= m -> 0 <= n -> std_gcd2 m n = Z.gcd m n.
Proof. intros. apply std_gcd_spec; lia. Qed.

Lemma GCD_spec nums :
  nums <> [] -> Forall (fun x => 0 < x) nums ->
  exists r, GCD nums = Some r /\ 0 < r /\ Forall (fun x => r <= x) nums.
Proof.
  intros Hne Hpos. destruct nums as [|x0 nums]; [done|]. unfold GCD. cbn [head mbind option_bind].
  assert (H0 : 0 < x0) by (by inversion Hpos).
  assert (Hf : forall l r, Forall (fun x => 0 < x) l -> 0 < r ->
    0 < foldl std_gcd2 r l /\ (foldl std_gcd2 r l | r) /\ Forall (fun x => (foldl std_gcd2 r l | x)) l).
  { induction l as [|x l IH]; intros r Hl Hr; cbn [foldl]; [split_and!; [done|apply Z.divide_refl|constructor]|].
    inversion Hl as [|? ? Hx Hl']; subst. rewrite std_gcd2_spec by lia.
    destruct (IH (Z.gcd r x) Hl') as (Hp & Hd & Hall).
    { pose proof (Z.gcd_nonneg r x). assert (Z.gcd r x <> 0) by (rewrite Z.gcd_eq_0; lia). lia. }
    split_and!; [done| |constructor; [|done]].
    - etransitivity; [exact Hd|apply Z.gcd_divide_l].
    - etransitivity; [exact Hd|apply Z.gcd_divide_r]. }
  destruct (Hf (x0 :: nums) x0 Hpos H0) as (Hp & _ & Hall).
  eexists. split; [done|]. split; [done|].
  eapply Forall_impl; [apply Forall_and; split; [exact Hall|exact Hpos]|].
  intros x [Hd Hx]. by apply Z.divide_pos_le.
Qed.

(** What [init] needs of the pool: known servers of sane sizes, whose
    counters are at most [n]. *)
Record init_pre (n : Z) (ess : EsManager) (ids : list Z) (extent_size : Z) : Prop := mkInitPre {
  pre_some : ids <> [];
  pre_nodup : NoDup ids;
  pre_count : Z.of_nat (length ids) <= 4294967296;
  pre_extent : 0 < extent_size;
  pre_n : 0 <= n <= max_count;
  pre_es : forall id, id ∈ ids -> exists e, ess !! id = Some e /\ es_id_ e = id /\
    0 <= es_primary_rgs_ e <= n /\ 0 <= es_secondary_rgs_ e <= n /\
    0 < es_capacity_ e / extent_size < 2147483648
}.

Lemma Forall2_elem_l {A B} (R : A -> B -> Prop) l k x :
  Forall2 R l k -> x ∈ l -> exists y, y ∈ k /\ R x y.
Proof. induction 1; [by intros ?%elem_of_nil|]. intros [->|?]%elem_of_cons; set_solver. Qed.

Lemma Forall2_elem_r {A B} (R : A -> B -> Prop) l k y :
  Forall2 R l k -> y ∈ k -> exists x, x ∈ l /\ R x y.
Proof. induction 1; [by intros ?%elem_of_nil|]. intros [->|?]%elem_of_cons; set_solver. Qed.

Lemma weight_unit_spec n ess ids extent_size :
  init_pre n ess ids extent_size ->
  exists r, weight_unit ess ids extent_size = Some r /\ 0 < r < 2147483648 /\
    forall id e, id ∈ ids -> ess !! id = Some e -> r <= es_capacity_ e / extent_size.
Proof.
  intros [Hne _ _ Hx _ Hes]. unfold weight_unit.
  set (f := fun id => es ← ess !! id; q ← udiv (es_capacity_ es) extent_size; Some (to_int q)).
  assert (Hf : forall id, id ∈ ids -> exists e, ess !! id = Some e /\
    f id = Some (es_capacity_ e / extent_size) /\ 0 < es_capacity_ e / extent_size < 2147483648).
  { intros id Hid. destruct (Hes id Hid) as (e & He & _ & _ & _ & Hc). exists e. unfold f. rewrite He.
    cbn. unfold udiv. destruct (Z.eqb_spec extent_size 0); [lia|]. cbn.
    unfold to_int. rewrite wrap32_small by (unfold is_u32; lia).
    destruct (Z.ltb_spec (es_capacity_ e / extent_size) 2147483648); [done|lia]. }
  clearbody f. destruct (mapM f ids) as [nums|] eqn:Em.
  2: { apply mapM_None_1, Exists_exists in Em as (id & Hid & Ef). destruct (Hf id Hid) as (? & _ & ? & _). congruence. }
  apply mapM_Some_1 in Em. cbn [mbind option_bind].
  destruct (GCD_spec nums) as (r & Hr & Hpos & Hall).
  - intros ->. by inversion Em; subst.
  - apply Forall_forall. intros x Hin. eapply Forall2_elem_r in Em as (id & Hid & Ef); [|exact Hin].
    destruct (Hf id Hid) as (e & _ & Ef' & ?). simplify_eq. lia.
  - assert (Hle : forall id e, id ∈ ids -> ess !! id = Some e -> r <= es_capacity_ e / extent_size).
    { intros id e Hid He. eapply Forall2_elem_l in Em as (x & Hin & Ef); [|exact Hid].
      destruct (Hf id Hid) as (e' & He' & Ef' & _). simplify_eq. by eapply Forall_forall in Hall. }
    exists r. split; [done|]. split; [|done]. split; [done|].
    destruct ids as [|id ids]; [done|]. destruct (Hf id) as (e & He & _ & ?); [left|].
    specialize (Hle id e ltac:(left) He). lia.
Qed.

Lemma weigh_spec ess id e extent_size r :
  ess !! id = Some e -> 0 < extent_size -> 0 < r < 2147483648 -> r <= es_capacity_ e / extent_size ->
  es_capacity_ e / extent_size < 2147483648 ->
  exists w, weigh ess id extent_size r = Some (set_weight e w, <[id := set_weight e w]> ess) /\
    0 < w < 2147483648.
Proof.
  intros He Hx Hr Hle Hlt. unfold weigh, udiv. rewrite He. cbn.
  destruct (Z.eqb_spec extent_size 0); [lia|]. cbn. unwrap.
  destruct (Z.eqb_spec r 0); [lia|]. cbn. eexists. split; [done|].
  split; [apply Z.div_str_pos; lia|].
  apply (Z.le_lt_trans _ (es_capacity_ e / extent_size)); [|done]. apply Z.div_le_upper_bound; nia.
Qed.
