(* ===== verification/Placement.v ===== *)
(** * Failure domains

    The interface of the replica allocators ([RGAllocater] of
    src/src/extentmanager/rg_allocater.h) with the contract its client, the
    replication group manager, relies on, and the proofs that the three
    allocators of RgAllocater.v meet it. *)

From S2P Require Import Prelude Status Enums Heap EsMgr RgAllocater.

#[local] Open Scope string_scope.
#[local] Open Scope Z_scope.

(** What two replicas of a group must not share. *)
Inductive Domain : Type :=
  | DomNode (id : Z)
  | DomHost (name : string)
  | DomRack (name : string).

Class RGAllocater (A : Type) := {
  ra_new : A;
  ra_init : EsManager -> A -> list Z -> Z -> option (Status * EsManager * A);
  ra_select_primary : EsManager -> A -> option (Z * EsManager * A);
  ra_select_secondary : EsManager -> A -> list Z -> option (option Z * EsManager * A);
  ra_domain : ExtentServer -> Domain
}.

(** The domain of a server of the table. *)
Definition domain_of `{RGAllocater A} (ess : EsManager) (id : Z) : option Domain :=
  (fun e => ra_domain (es_base e)) <$> ess !! id.

(** Servers on one host are in one rack. *)
Definition racks_consistent (ess : EsManager) (ids : list Z) : Prop :=
  forall id1 id2 e1 e2, id1 ∈ ids -> id2 ∈ ids -> ess !! id1 = Some e1 -> ess !! id2 = Some e2 ->
    es_host_ e1 = es_host_ e2 -> es_rack_ e1 = es_rack_ e2.

(** [ra_wf n ess a ids]: the allocator [a] holds the servers [ids], and no
    counter exceeds [n]. *)
Class RGAllocaterLaws (A : Type) `{RGAllocater A} := {
  ra_wf : Z -> EsManager -> A -> list Z -> Prop;
  ra_wf_known : forall n ess a ids id, ra_wf n ess a ids -> id ∈ ids -> is_Some (ess !! id);
  ra_init_law : forall n ess ids extent_size,
    init_pre n ess ids extent_size -> racks_consistent ess ids ->
    exists ess' a', ra_init ess ra_new ids extent_size = Some (Status_default, ess', a') /\
      es_same ess ess' /\ ra_wf n ess' a' ids;
  ra_primary_law : forall n ess a ids, ra_wf n ess a ids -> n < max_count ->
    exists id ess' a', ra_select_primary ess a = Some (id, ess', a') /\ id ∈ ids /\
      es_same ess ess' /\ ra_wf (n + 1) ess' a' ids;
  ra_secondary_law : forall n ess a ids group, ra_wf n ess a ids -> n < max_count -> group ⊆ ids ->
    exists r ess' a', ra_select_secondary ess a group = Some (r, ess', a') /\
      es_same ess ess' /\ ra_wf (n + 1) ess' a' ids /\
      match r with
      | Some id => id ∈ ids /\ forall g, g ∈ group -> domain_of ess g <> domain_of ess id
      | None => forall id, id ∈ ids -> exists g, g ∈ group /\ domain_of ess g = domain_of ess id
      end
}.

Lemma domain_of_same `{RGAllocater A} ess ess' id :
  es_same ess ess' -> domain_of ess id = domain_of ess' id.
Proof.
  intros Hs. apply (f_equal (lookup id)) in Hs. rewrite !lookup_fmap in Hs. unfold domain_of.
  destruct (ess !! id), (ess' !! id); cbn in *; try done.
  apply (inj Some) in Hs. by rewrite Hs.
Qed.

(** ** Validity of hosts and racks *)

Lemma host_rack_loop_ok ess ids acc :
  (forall id, id ∈ ids -> is_Some (ess !! id)) ->
  exists st, host_rack_loop ess ids acc = Some st /\
    (ok st = true ->
     (forall id e rack, id ∈ ids -> ess !! id = Some e -> acc !! es_host_ e = Some rack -> rack = es_rack_ e) /\
     racks_consistent ess ids).
Proof.
  revert acc. induction ids as [|id ids IH]; intros acc Hk; cbn [host_rack_loop].
  { eexists. split; [done|]. intros _. split; [by intros ? ? ? ?%elem_of_nil|by intros ? ? ? ? ?%elem_of_nil]. }
  destruct (Hk id) as [e He]; [left|]. rewrite He. cbn [mbind option_bind].
  assert (Hk' : forall id, id ∈ ids -> is_Some (ess !! id)) by (intros; apply Hk; by right).
  destruct (acc !! es_host_ e) as [rack|] eqn:Ea.
  - destruct (String.eqb_spec rack (es_rack_ e)) as [->|]; cbn [negb].
    + destruct (IH acc Hk') as (st & -> & Hst). eexists. split; [done|]. intros Hok.
      destruct (Hst Hok) as [Hacc Hc]. split.
      * intros i ei rack [->|Hi]%elem_of_cons Hei Hr; [congruence|eauto].
      * assert (Hone : forall i ei, i ∈ ids -> ess !! i = Some ei -> es_host_ e = es_host_ ei ->
                  es_rack_ e = es_rack_ ei) by (intros i ei Hi Hei Hh; apply (Hacc i ei); [done..|congruence]).
        intros i j ei ej [->|Hi]%elem_of_cons [->|Hj]%elem_of_cons Hei Hej Hh; simplify_eq; eauto.
        symmetry. eauto.
    + eexists. split; [done|]. done.
  - destruct (IH (<[es_host_ e := es_rack_ e]> acc) Hk') as (st & -> & Hst). eexists. split; [done|].
    intros Hok. destruct (Hst Hok) as [Hacc Hc].
    assert (Hone : forall i ei, i ∈ ids -> ess !! i = Some ei -> es_host_ e = es_host_ ei ->
              es_rack_ e = es_rack_ ei).
    { intros i ei Hi Hei Hh. apply (Hacc i ei); [done..|]. rewrite Hh. apply lookup_insert_eq. }
    split.
    * intros i ei rack [->|Hi]%elem_of_cons Hei Hr; [congruence|]. eapply Hacc; [done..|].
      rewrite lookup_insert_ne; [done|congruence].
    * intros i j ei ej [->|Hi]%elem_of_cons [->|Hj]%elem_of_cons Hei Hej Hh; simplify_eq; eauto.
      symmetry. eauto.
Qed.

Lemma host_rack_loop_complete ess ids acc :
  (forall id, id ∈ ids -> is_Some (ess !! id)) -> racks_consistent ess ids ->
  (forall id e rack, id ∈ ids -> ess !! id = Some e -> acc !! es_host_ e = Some rack -> rack = es_rack_ e) ->
  host_rack_loop ess ids acc = Some Status_default.
Proof.
  revert acc. induction ids as [|id ids IH]; intros acc Hk Hc Ha; cbn [host_rack_loop]; [done|].
  destruct (Hk id) as [e He]; [left|]. rewrite He. cbn [mbind option_bind].
  assert (Hk' : forall id, id ∈ ids -> is_Some (ess !! id)) by (intros; apply Hk; by right).
  assert (Hc' : racks_consistent ess ids) by (intros i j ? ? ? ?; apply Hc; by right).
  destruct (acc !! es_host_ e) as [rack|] eqn:Ea.
  - rewrite (Ha id e rack) by (done || left). rewrite String.eqb_refl. cbn [negb]. apply IH; [done..|].
    intros i ei r Hi. apply Ha. by right.
  - apply IH; [done..|]. intros i ei r Hi Hei. rewrite lookup_insert_Some.
    intros [[Hh <-]|[_ ?]]; [|eapply Ha; eauto; by right].
    apply (Hc id i); [left|by right|done..].
Qed.

Lemma host_rack_valid_ok n ess ids extent_size :
  init_pre n ess ids extent_size -> racks_consistent ess ids -> host_rack_valid ess ids = Some Status_default.
Proof.
  intros Hp Hc. apply host_rack_loop_complete; [|done|by intros].
  intros id Hid. destruct (pre_es _ _ _ _ Hp id Hid) as (e & -> & _). eauto.
Qed.

(** ** Weighing one server *)

Definition es_raw (n extent_size r : Z) (ess : EsManager) (id : Z) : Prop :=
  exists e, ess !! id = Some e /\ es_id_ e = id /\
    0 <= es_primary_rgs_ e <= n /\ 0 <= es_secondary_rgs_ e <= n /\
    r <= es_capacity_ e / extent_size < 2147483648.

Lemma weigh_step n extent_size r ess id e :
  0 < extent_size -> 0 < r < 2147483648 -> es_raw n extent_size r ess id -> ess !! id = Some e ->
  exists w, let es := set_weight e w in
    weigh ess id extent_size r = Some (es, <[id := es]> ess) /\ 0 < w < 2147483648 /\
    es_same ess (<[id := es]> ess) /\
    es_good n (fun e' => e' = es_base e) (<[id := es]> ess) id /\
    (forall id', id' <> id -> es_raw n extent_size r ess id' -> es_raw n extent_size r (<[id := es]> ess) id') /\
    (forall Q id', id' <> id -> es_good n Q ess id' -> es_good n Q (<[id := es]> ess) id').
Proof.
  intros Hx Hr (e' & He' & Hid & Hp & Hs & Hc) He. assert (e' = e) as -> by congruence. subst id.
  destruct (weigh_spec ess (es_id_ e) e extent_size r He Hx Hr) as (w & Ew & Hw); [lia..|].
  exists w. cbn zeta. split_and!; [done|lia|lia| | | |].
  - eapply es_same_insert; done.
  - eexists. rewrite lookup_insert_eq. split_and!; [done|done| |done].
    unfold stat_ok, es_stat, u64_max; cbn. lia.
  - intros id' Hne (e' & ? & ?). exists e'. by rewrite lookup_insert_ne.
  - intros Q id' Hne (e' & ? & ?). exists e'. by rewrite lookup_insert_ne.
Qed.

Lemma init_pre_raw n ess ids extent_size r :
  init_pre n ess ids extent_size ->
  (forall id e, id ∈ ids -> ess !! id = Some e -> r <= es_capacity_ e / extent_size) ->
  Forall (es_raw n extent_size r ess) ids.
Proof.
  intros Hp Hr. apply Forall_forall. intros id Hid.
  destruct (pre_es _ _ _ _ Hp id Hid) as (e & He & Hi & H1 & H2 & H3).
  exists e. specialize (Hr id e Hid He). split_and!; try done; lia.
Qed.

(** ** By server *)

Definition any_es : ExtentServer -> Prop := fun _ => True.

Definition ByEs_wf (n : Z) (ess : EsManager) (a : RGAllocaterByEs) (ids : list Z) : Prop :=
  0 <= n /\ ids <> [] /\ ess_ a ≡ₚ ids /\ Forall (es_good n any_es ess) ids.

Lemma ByEs_init_loop_spec n extent_size r ids ess a :
  0 <= n <= max_count -> 0 < extent_size -> 0 < r < 2147483648 ->
  NoDup (ess_ a ++ ids) -> Forall (es_raw n extent_size r ess) ids ->
  Forall (es_good n any_es ess) (ess_ a) ->
  exists ess' a', ByEs_init_loop ess a ids extent_size r = Some (ess', a') /\ es_same ess ess' /\
    ess_ a' ≡ₚ ess_ a ++ ids /\ Forall (es_good n any_es ess') (ess_ a').
Proof.
  intros Hn Hx Hr. revert ess a. induction ids as [|id ids IH]; intros ess a Hnd Hraw Hgood; cbn.
  { exists ess, a. rewrite app_nil_r. done. }
  inversion Hraw as [|? ? Hid Hraw']; subst. pose proof Hid as (e & He & _).
  destruct (weigh_step n extent_size r ess id e Hx Hr Hid He) as (w & Ew & _ & Hsame & Hg & Hr' & Hg').
  rewrite Ew. cbn [mbind option_bind]. set (ess1 := <[id := set_weight e w]> ess) in *.
  assert (Hid1 : (id ∉ ids) /\ (id ∉ ess_ a)).
  { apply NoDup_app in Hnd as (_ & Hd & [? _]%NoDup_cons). split; [done|]. intros ?. eapply Hd; [done|left]. }
  destruct Hid1 as [Hni Hna].
  assert (Hq : Forall (es_good n any_es ess1) (ess_ a)).
  { apply Forall_forall. intros i Hi. apply Hg'; [by intros ->|]. by eapply Forall_forall in Hgood. }
  destruct (pq_push_total (EsCmp ess1) (es_good n any_es ess1)) with (l := ess_ a) (x := id) as [q Eq].
  { intros x y. apply EsCmp_total. lia. }
  { done. }
  { destruct Hg as (e1 & ? & ? & ? & _). by exists e1. }
  rewrite Eq. cbn [mbind option_bind]. apply pq_push_perm in Eq.
  destruct (IH ess1 (mkRGAllocaterByEs q)) as (ess' & a' & -> & Hs & Hp & Hgd); cbn [ess_] in *.
  - rewrite Eq. eapply NoDup_Permutation_proper; [|exact Hnd]. solve_Permutation.
  - apply Forall_forall. intros i Hi. apply Hr'; [by intros ->|]. by eapply Forall_forall in Hraw'.
  - rewrite Eq. constructor; [|done]. destruct Hg as (e1 & ? & ? & ? & _). by exists e1.
  - exists ess', a'. split_and!; [done|by etransitivity|rewrite Hp, Eq; solve_Permutation|done].
Qed.

#[export] Instance ByEs_ops : RGAllocater RGAllocaterByEs := {|
  ra_new := mkRGAllocaterByEs [];
  ra_init := ByEs_init;
  ra_select_primary := ByEs_select_primary;
  ra_select_secondary := ByEs_select_secondary;
  ra_domain e := DomNode (es_id_ e)
|}.

Lemma pq_top_elem {A} (q : list A) x : pq_top q = Some x -> x ∈ q.
Proof. destruct q; cbn; intros; simplify_eq. left. Qed.

Lemma pq_top_some {A} (q : list A) : q <> [] -> exists x, pq_top q = Some x.
Proof. destruct q; [done|]. cbn. eauto. Qed.

Lemma ByEs_primary n ess a ids : ByEs_wf n ess a ids -> n < max_count ->
  exists id ess' a', ByEs_select_primary ess a = Some (id, ess', a') /\ id ∈ ids /\
    es_same ess ess' /\ ByEs_wf (n + 1) ess' a' ids.
Proof.
  intros (Hn & Hne & Hp & Hg) Hlt. unfold ByEs_select_primary.
  destruct (pq_top_some (ess_ a)) as [id Ht]; [intros E; by rewrite E in Hp; apply Permutation_nil_l in Hp|].
  rewrite Ht. cbn [mbind option_bind].
  assert (Hid : id ∈ ids) by (rewrite <- Hp; by apply pq_top_elem).
  pose proof Hg as Hg0. eapply Forall_forall in Hg0; [|exact Hid]. destruct Hg0 as (e & He & _).
  rewrite He. cbn [mbind option_bind]. set (ess1 := <[id := incr_es true e]> ess).
  assert (Hg1 : Forall (es_good (n + 1) any_es ess1) ids)
    by (eapply Forall_impl; [exact Hg|]; intros; by apply es_good_incr).
  destruct (requeue_spec (EsCmp ess1) (es_good (n + 1) any_es ess1)) with (q := ess_ a) (x := id)
    as (q & -> & Hq); [intros ? ?; apply EsCmp_total; lia|by rewrite Hp|done|].
  cbn [mbind option_bind]. do 3 eexists. split; [done|]. split; [done|].
  split; [by eapply es_same_insert|]. unfold ByEs_wf. split_and!; [lia|done|by rewrite <- Hp|done].
Qed.

Lemma existsb_elem x l : existsb (Z.eqb x) l = true <-> x ∈ l.
Proof.
  rewrite existsb_exists. setoid_rewrite <- list_elem_of_In. setoid_rewrite Z.eqb_eq. naive_solver.
Qed.

Lemma ByEs_secondary n ess a ids group :
  ByEs_wf n ess a ids -> n < max_count -> group ⊆ ids ->
  exists r ess' a', ByEs_select_secondary ess a group = Some (r, ess', a') /\
    es_same ess ess' /\ ByEs_wf (n + 1) ess' a' ids /\
    match r with
    | Some id => id ∈ ids /\ forall g, g ∈ group -> domain_of (A := RGAllocaterByEs) ess g <> domain_of ess id
    | None => forall id, id ∈ ids -> exists g, g ∈ group /\ domain_of (A := RGAllocaterByEs) ess g = domain_of ess id
    end.
Proof.
  intros (Hn & Hne & Hp & Hg) Hlt Hsub. unfold ByEs_select_secondary.
  assert (Hg' : Forall (es_good n any_es ess) (ess_ a)) by (by rewrite Hp).
  assert (Hdom : forall x, x ∈ ids -> exists e, ess !! x = Some e /\ es_id_ e = x /\
            domain_of (A := RGAllocaterByEs) ess x = Some (DomNode x)).
  { intros x Hx. eapply Forall_forall in Hg as (e & He & Hi & _); [|exact Hx].
    exists e. unfold domain_of. rewrite He. cbn. by rewrite Hi. }
  set (excl := fun id => e ← ess !! id; Some (existsb (Z.eqb (es_id_ e)) group)).
  assert (Hex : forall x, x ∈ ids -> excl x = Some (existsb (Z.eqb x) group)).
  { intros x Hx. destruct (Hdom x Hx) as (e & He & Hi & _). unfold excl. rewrite He. cbn. by rewrite Hi. }
  destruct (skip_loop_spec (EsCmp ess) (es_good n any_es ess)) with (fuel := S (length (ess_ a)))
    (excluded := excl) (q := ess_ a) (tmp := @nil Z) as (q & cur & tmp & find & E & Hperm & Hr).
  { intros ? ?. apply EsCmp_total. lia. }
  { done. }
  { intros x Hx. rewrite Hp in Hx. rewrite Hex by done. eauto. }
  { intros E. by rewrite E in Hp; apply Permutation_nil_l in Hp. }
  { lia. }
  rewrite E. cbn [mbind option_bind]. rewrite app_nil_r in Hperm. destruct find; cbn [negb].
  - destruct Hr as (id & -> & Ht & Hin & Hexc). cbn [mbind option_bind]. rewrite Hp in Hin.
    destruct (Hdom id Hin) as (e & He & Hi & Hd). rewrite He. cbn [mbind option_bind].
    set (ess1 := <[id := incr_es false e]> ess).
    assert (Hg1 : Forall (es_good (n + 1) any_es ess1) ids)
      by (eapply Forall_impl; [exact Hg|]; intros; by apply es_good_incr).
    destruct (reselect_spec (EsCmp ess1) (es_good (n + 1) any_es ess1)) with (q := q) (x := id) (tmp := tmp)
      (q0 := ess_ a) as (q1 & q2 & -> & E2 & Hq2); [intros ? ?; apply EsCmp_total; lia|by rewrite Hp|done|done|].
    cbn [mbind option_bind]. rewrite E2. cbn [mbind option_bind]. do 3 eexists. split; [done|].
    split; [by eapply es_same_insert|]. split; [unfold ByEs_wf; split_and!; [lia|done|by rewrite <- Hp|done]|].
    split; [done|]. intros g Hgr. rewrite Hd. destruct (Hdom g (Hsub _ Hgr)) as (_ & _ & _ & ->).
    intros [= ->]. rewrite Hex in Hexc by done. apply existsb_elem in Hgr. congruence.
  - destruct Hr as [-> Hall].
    destruct (restore_spec (EsCmp ess) (es_good n any_es ess)) with (q := @nil Z) (tmp := tmp)
      as (q2 & -> & Hq2); [intros ? ?; apply EsCmp_total; lia|constructor|by rewrite <- Hperm in Hg'|].
    cbn [mbind option_bind]. do 3 eexists. split; [done|]. split; [done|]. split.
    + unfold ByEs_wf. cbn [ess_]. split_and!; [lia|done|by rewrite Hq2; cbn; rewrite Hperm|]. eapply Forall_impl; [exact Hg|].
      intros x (e & ? & ? & ? & ?). exists e. split_and!; try done. eapply stat_ok_mono; [|done]. lia.
    + intros id Hid. exists id. split; [|done]. specialize (Hall id). rewrite Hex in Hall by done.
      rewrite Hp in Hall. apply existsb_elem. specialize (Hall Hid). congruence.
Qed.

#[export, refine] Instance ByEs_laws : RGAllocaterLaws RGAllocaterByEs := {| ra_wf := ByEs_wf |}.
Proof.
  - intros n ess a ids id (_ & _ & _ & Hg) Hid. eapply Forall_forall in Hg as (e & -> & _); eauto.
  - intros n ess ids extent_size Hpre Hc. cbn. unfold ByEs_init.
    rewrite (host_rack_valid_ok n _ _ extent_size) by done. cbn -[ByEs_init_loop].
    destruct (weight_unit_spec n ess ids extent_size Hpre) as (r & -> & Hr & Hle). cbn [mbind option_bind].
    destruct Hpre as [Hne Hnd Hcnt Hx Hn Hes] eqn:Ep.
    destruct (ByEs_init_loop_spec n extent_size r ids ess (mkRGAllocaterByEs []))
      as (ess' & a' & E & Hs & Hp & Hg); [done..|by eapply init_pre_raw|constructor|].
    cbn in E. rewrite E. cbn [mbind option_bind]. do 2 eexists. split; [done|]. split; [done|].
    unfold ByEs_wf. split_and!; [lia|done|done|]. by rewrite Hp in Hg.
  - exact ByEs_primary.
  - exact ByEs_secondary.
Defined.

(** ** Hosts *)

(** A host whose queue holds known servers of the host, all in [ids]. *)
Definition host_good (n : Z) (Q : ExtentServer -> Prop) (ess : EsManager) (ids : list Z)
  (hosts : gmap string Host) (name : string) : Prop :=
  exists h, hosts !! name = Some h /\ host_name h = name /\ stat_ok n (host_stat h) /\ host_ess h <> [] /\
    Forall (fun id => id ∈ ids /\ es_good n (fun e => es_host_ e = name /\ Q e) ess id) (host_ess h).

Lemma HostCmp_total n Q Q' ess ids hosts x y :
  n <= max_count -> host_good n Q ess ids hosts x -> host_good n Q' ess ids hosts y ->
  is_Some (HostCmp hosts x y).
Proof.
  intros Hn (hx & Ex & _ & Hx & _) (hy & Ey & _ & Hy & _). unfold HostCmp. rewrite Ex, Ey. cbn.
  by eapply stat_cmp_total.
Qed.

Lemma host_good_mono n Q Q' ess ess' ids ids' hosts name :
  host_good n Q ess ids hosts name -> ids ⊆ ids' ->
  (forall id, id ∈ ids -> es_good n (fun e => es_host_ e = name /\ Q e) ess id ->
    es_good n (fun e => es_host_ e = name /\ Q' e) ess' id) ->
  host_good n Q' ess' ids' hosts name.
Proof.
  intros (h & ? & ? & ? & ? & Hf) Hsub Hes. exists h. split_and!; try done.
  eapply Forall_impl; [exact Hf|]. intros id [Hid ?]. split; [by apply Hsub|by apply Hes].
Qed.

Lemma host_select_spec p n Q ess ids hosts name :
  host_good n Q ess ids hosts name -> n < max_count ->
  exists id ess' hosts', host_select p ess hosts name = Some (id, ess', hosts') /\ id ∈ ids /\
    (exists e, ess !! id = Some e /\ es_id_ e = id /\ es_host_ e = name /\ Q (es_base e)) /\
    es_same ess ess' /\
    (forall Q' ids' nm, host_good n Q' ess ids' hosts nm -> host_good (n + 1) Q' ess' ids' hosts' nm).
Proof.
  intros (h & Eh & Hname & Hst & Hne & Hf) Hlt. unfold host_select. rewrite Eh. cbn [mbind option_bind].
  destruct (pq_top_some (host_ess h) Hne) as [id Ht]. rewrite Ht. cbn [mbind option_bind].
  pose proof Hf as Hid. eapply Forall_forall in Hid; [|by apply pq_top_elem].
  destruct Hid as (Hin & e & He & Hi & Hes & Hh & HQ).
  rewrite He. cbn [mbind option_bind]. set (ess1 := <[id := incr_es p e]> ess).
  assert (Hinc : forall Q id', es_good n Q ess id' -> es_good (n + 1) Q ess1 id')
    by (intros; by apply es_good_incr).
  destruct (requeue_spec (EsCmp ess1) (es_good (n + 1) any_es ess1)) with (q := host_ess h) (x := id)
    as (q & -> & Hq); [intros ? ?; apply EsCmp_total; lia| |done|].
  { eapply Forall_impl; [exact Hf|]. intros x (_ & Hx). apply Hinc. destruct Hx as (? & ? & ? & ? & _).
    eexists; split_and!; done. }
  cbn [mbind option_bind]. do 3 eexists. split; [done|]. split; [done|]. split; [eauto 10|].
  split; [by eapply es_same_insert|].
  intros Q' ids' nm (h' & Eh' & Hname' & Hst' & Hne' & Hf').
  assert (Hf1 : Forall (fun id => id ∈ ids' /\ es_good (n + 1) (fun e => es_host_ e = nm /\ Q' e) ess1 id) (host_ess h')).
  { eapply Forall_impl; [exact Hf'|]. intros x [? ?]. split; [done|]. by apply Hinc. }
  destruct (decide (nm = name)) as [->|Hnm].
  - assert (h' = h) as -> by congruence. eexists. rewrite lookup_insert_eq.
    split; [done|]. cbn. split_and!; [done|by apply stat_ok_incr| |by rewrite Hq].
    intros ->. by apply Permutation_nil_l in Hq.
  - exists h'. rewrite lookup_insert_ne by done. split_and!; try done. eapply stat_ok_mono; [|done]. lia.
Qed.

(** Does a server of the group have the attribute? *)
Lemma group_has_spec ess es_map attr group name :
  (forall g, g ∈ group -> g ∈ es_map /\ is_Some (ess !! g)) ->
  exists b, group_has ess es_map attr group name = Some b /\
    (b = true <-> exists g e, g ∈ group /\ ess !! g = Some e /\ attr e = name).
Proof.
  induction group as [|g group IH]; intros Hk; cbn.
  { exists false. split; [done|]. split; [done|]. by intros (? & ? & ?%elem_of_nil & _). }
  destruct (Hk g) as [Hm [e He]]; [left|]. rewrite decide_True by done. rewrite He. cbn.
  destruct (String.eqb_spec (attr e) name) as [<-|Hne].
  - exists true. split; [done|]. split; [|done]. intros _. exists g, e. split; [left|done].
  - destruct IH as (b & -> & Hb); [intros; apply Hk; by right|]. exists b. split; [done|]. rewrite Hb. split.
    + intros (g' & e' & ? & ? & ?). exists g', e'. split; [by right|done].
    + intros (g' & e' & [->|]%elem_of_cons & ? & ?); [congruence|eauto].
Qed.

(** ** By host *)

Definition ByHost_wf (n : Z) (ess : EsManager) (a : RGAllocaterByHost) (ids : list Z) : Prop :=
  0 <= n /\ hosts_ a <> [] /\
  Forall (host_good n any_es ess ids (bh_hosts a)) (hosts_ a) /\
  Forall (fun id => id ∈ bh_es_map_ a /\ exists e, ess !! id = Some e /\ es_host_ e ∈ hosts_ a) ids.

#[export] Instance ByHost_ops : RGAllocater RGAllocaterByHost := {|
  ra_new := mkRGAllocaterByHost ∅ ∅ [];
  ra_init := ByHost_init;
  ra_select_primary := ByHost_select_primary;
  ra_select_secondary := ByHost_select_secondary;
  ra_domain e := DomHost (es_host_ e)
|}.

(** The servers' hosts stay in the queue when it is permuted. *)
Lemma homed_same ess ess' (attr : ExtentServer -> string) (m : gset Z) q q' ids :
  (forall e e', es_base e = es_base e' -> attr e = attr e') ->
  es_same ess ess' -> q' ≡ₚ q ->
  Forall (fun id => id ∈ m /\ exists e, ess !! id = Some e /\ attr e ∈ q) ids ->
  Forall (fun id => id ∈ m /\ exists e, ess' !! id = Some e /\ attr e ∈ q') ids.
Proof.
  intros Hattr Hs Hp Hf. eapply Forall_impl; [exact Hf|]. intros id (Hm & e & He & Hq). split; [done|].
  destruct (es_same_lookup _ _ _ _ Hs He) as (e' & He' & Hb). exists e'. split; [done|].
  rewrite Hp. by rewrite <- (Hattr e e').
Qed.

Lemma host_attr e e' : es_base e = es_base e' -> es_host_ e = es_host_ e'.
Proof. intros H%es_base_attrs. tauto. Qed.
Lemma rack_attr e e' : es_base e = es_base e' -> es_rack_ e = es_rack_ e'.
Proof. intros H%es_base_attrs. tauto. Qed.

Lemma ByHost_primary n ess a ids : ByHost_wf n ess a ids -> n < max_count ->
  exists id ess' a', ByHost_select_primary ess a = Some (id, ess', a') /\ id ∈ ids /\
    es_same ess ess' /\ ByHost_wf (n + 1) ess' a' ids.
Proof.
  intros (Hn & Hne & Hg & Hh) Hlt. unfold ByHost_select_primary.
  destruct (pq_top_some (hosts_ a) Hne) as [name Ht]. rewrite Ht. cbn [mbind option_bind].
  pose proof Hg as Hname. eapply Forall_forall in Hname; [|by apply pq_top_elem].
  destruct (host_select_spec true n any_es ess ids _ name Hname Hlt)
    as (id & ess1 & hosts1 & -> & Hid & _ & Hs & Hinc). cbn [mbind option_bind].
  assert (Hg1 : Forall (host_good (n + 1) any_es ess1 ids hosts1) (hosts_ a))
    by (eapply Forall_impl; [exact Hg|]; intros; by apply Hinc).
  destruct (requeue_spec (HostCmp hosts1) (host_good (n + 1) any_es ess1 ids hosts1))
    with (q := hosts_ a) (x := name) as (q & -> & Hq);
    [intros ? ?; apply HostCmp_total; lia|done|done|].
  cbn [mbind option_bind]. do 3 eexists. split; [done|]. split; [done|]. split; [done|].
  unfold ByHost_wf. cbn. split_and!; [lia| |by rewrite Hq|by eapply homed_same; eauto using host_attr].
  intros ->. by apply Permutation_nil_l in Hq.
Qed.

(** The group's members are known to the allocator. *)
Lemma homed_group (m : gset Z) (ess : EsManager) (attr : ExtentServer -> string) (q : list string)
  (ids group : list Z) :
  Forall (fun id => id ∈ m /\ exists e, ess !! id = Some e /\ attr e ∈ q) ids -> group ⊆ ids ->
  forall g, g ∈ group -> g ∈ m /\ is_Some (ess !! g).
Proof.
  intros Hh Hsub g Hg. eapply Forall_forall in Hh; [|by apply Hsub]. destruct Hh as (? & e & He & _). eauto.
Qed.

Lemma host_good_weaken n n' Q ess ids hosts name :
  n <= n' -> host_good n Q ess ids hosts name -> host_good n' Q ess ids hosts name.
Proof.
  intros Hn (h & ? & ? & ? & ? & Hf). exists h. split_and!; try done; [by eapply stat_ok_mono|].
  eapply Forall_impl; [exact Hf|]. intros id (? & e & ? & ? & ? & ?). split; [done|].
  exists e. split_and!; try tauto. by eapply stat_ok_mono.
Qed.

Lemma ByHost_secondary n ess a ids group :
  ByHost_wf n ess a ids -> n < max_count -> group ⊆ ids ->
  exists r ess' a', ByHost_select_secondary ess a group = Some (r, ess', a') /\
    es_same ess ess' /\ ByHost_wf (n + 1) ess' a' ids /\
    match r with
    | Some id => id ∈ ids /\ forall g, g ∈ group -> domain_of (A := RGAllocaterByHost) ess g <> domain_of ess id
    | None => forall id, id ∈ ids -> exists g, g ∈ group /\ domain_of (A := RGAllocaterByHost) ess g = domain_of ess id
    end.
Proof.
  intros (Hn & Hne & Hg & Hh) Hlt Hsub. unfold ByHost_select_secondary.
  pose proof (homed_group _ _ _ _ _ _ Hh Hsub) as Hgr.
  set (excl := fun name => _ ≫= _).
  assert (Hex : forall x, x ∈ hosts_ a -> exists b, excl x = Some b /\
    (b = true <-> exists g e, g ∈ group /\ ess !! g = Some e /\ es_host_ e = x)).
  { intros x Hx. pose proof Hg as Hgx. eapply Forall_forall in Hgx as (h & Eh & Hname & _); [|exact Hx].
    unfold excl. rewrite Eh. cbn [mbind option_bind]. rewrite Hname. by apply group_has_spec. }
  clearbody excl.
  destruct (skip_loop_spec (HostCmp (bh_hosts a)) (host_good n any_es ess ids (bh_hosts a)))
    with (fuel := S (length (hosts_ a))) (excluded := excl) (q := hosts_ a) (tmp := @nil string)
    as (q & cur & tmp & find & E & Hperm & Hr); [intros ? ?; apply HostCmp_total; lia|done| |done|lia|].
  { intros x Hx. destruct (Hex x Hx) as (b & -> & _). eauto. }
  rewrite E. cbn [mbind option_bind]. rewrite app_nil_r in Hperm. destruct find; cbn [negb].
  - destruct Hr as (name & -> & Ht & Hin & Hexc). cbn [mbind option_bind].
    pose proof Hg as Hname. eapply Forall_forall in Hname; [|exact Hin].
    destruct (host_select_spec false n any_es ess ids _ name Hname Hlt)
      as (id & ess1 & hosts1 & -> & Hid & (e & He & _ & Hhost & _) & Hs & Hinc). cbn [mbind option_bind].
    assert (Hg1 : Forall (host_good (n + 1) any_es ess1 ids hosts1) (hosts_ a))
      by (eapply Forall_impl; [exact Hg|]; intros; by apply Hinc).
    destruct (reselect_spec (HostCmp hosts1) (host_good (n + 1) any_es ess1 ids hosts1))
      with (q := q) (x := name) (tmp := tmp) (q0 := hosts_ a) as (q1 & q2 & -> & E2 & Hq2);
      [intros ? ?; apply HostCmp_total; lia|done|done|done|].
    cbn [mbind option_bind]. rewrite E2. cbn [mbind option_bind]. do 3 eexists. split; [done|]. split; [done|].
    split.
    { unfold ByHost_wf. cbn. split_and!; [lia| |by rewrite Hq2|by eapply homed_same; eauto using host_attr].
      intros ->. by apply Permutation_nil_l in Hq2. }
    split; [done|]. intros g Hgg. unfold domain_of. rewrite He. destruct (Hgr g Hgg) as [_ [eg Heg]].
    rewrite Heg. cbn. rewrite Hhost. intros [= Hname']. destruct (Hex name Hin) as (b & Eb & Hb).
    assert (b = true) as -> by (apply Hb; eauto). congruence.
  - destruct Hr as [-> Hall].
    destruct (restore_spec (HostCmp (bh_hosts a)) (host_good n any_es ess ids (bh_hosts a)))
      with (q := @nil string) (tmp := tmp) as (q2 & -> & Hq2);
      [intros ? ?; apply HostCmp_total; lia|constructor|by rewrite <- Hperm in Hg|].
    cbn [mbind option_bind]. do 3 eexists. split; [done|]. split; [done|].
    assert (Hq : q2 ≡ₚ hosts_ a) by (rewrite Hq2; cbn; by rewrite Hperm). split.
    + unfold ByHost_wf. cbn. split_and!; [lia| |rewrite Hq|by eapply homed_same; eauto using host_attr].
      * intros ->. by apply Permutation_nil_l in Hq.
      * eapply Forall_impl; [exact Hg|]. intros. eapply host_good_weaken; [|done]. lia.
    + intros id Hid. pose proof Hh as Hi. eapply Forall_forall in Hi as (_ & e & He & Hq'); [|exact Hid].
      destruct (Hex _ Hq') as (b & Eb & Hb). rewrite (Hall _ Hq') in Eb. injection Eb as <-.
      destruct (proj1 Hb eq_refl) as (g & eg & Hgg & Heg & Hsame). exists g. split; [done|].
      unfold domain_of. rewrite He, Heg. cbn. by rewrite Hsame.
Qed.

(** ** Building the hosts *)

(** The hosts built from the servers [done], [k] of them so far. *)
Definition hosts_inv (n : Z) (Q : string -> ExtentServer -> Prop) (k : Z) (ess : EsManager)
  (done : list Z) (hosts : gmap string Host) : Prop :=
  forall name h, hosts !! name = Some h ->
    host_good n (Q name) ess done hosts name /\ stat_weight (host_stat h) <= k * 2147483648.

Lemma host_add_spec n Q k ess done hosts id e w :
  0 <= n <= max_count -> 0 <= k < 4294967296 -> 0 < w < 2147483648 ->
  hosts_inv n Q k ess done hosts ->
  es_good n (fun e' => es_host_ e' = es_host_ e /\ Q (es_host_ e) e') ess id ->
  exists hosts' is_new, host_add_es ess hosts id (set_weight e w) = Some (hosts', is_new) /\
    hosts_inv n Q (k + 1) ess (id :: done) hosts' /\ is_Some (hosts' !! es_host_ e) /\
    (forall nm, nm <> es_host_ e -> hosts' !! nm = hosts !! nm) /\
    (is_new = true <-> hosts !! es_host_ e = None).
Proof.
  intros Hn Hk Hw Hinv Hes. unfold host_add_es.
  change (es_host_ (set_weight e w)) with (es_host_ e). change (es_weight_ (set_weight e w)) with w.
  set (P := es_good n any_es ess).
  assert (Hid : P id) by (destruct Hes as (e' & ? & ? & ? & ?); by exists e').
  assert (Hcmp : forall x y, P x -> P y -> is_Some (EsCmp ess x y)) by (intros ? ?; apply EsCmp_total; lia).
  (* the host before the push *)
  assert (exists q st is_new, (match hosts !! es_host_ e with
      | Some host => (host, false) | None => (mkHost (es_host_ e) [] Stat_new, true) end)
      = (mkHost (es_host_ e) q st, is_new) /\ (is_new = true <-> hosts !! es_host_ e = None) /\
      (0 <= stat_primary_rgs st <= n /\ 0 <= stat_secondary_rgs st <= n /\ 0 <= stat_weight st <= k * 2147483648) /\
      Forall (fun i => i ∈ done /\ es_good n (fun e' => es_host_ e' = es_host_ e /\ Q (es_host_ e) e') ess i) q)
    as (q & st & is_new & -> & Hnew & Hst & Hq).
  { destruct (hosts !! es_host_ e) as [h|] eqn:Eh.
    - destruct (Hinv _ _ Eh) as [(h' & Eh' & Hname & Hst & _ & Hf) Hwt]. assert (h' = h) as -> by congruence.
      destruct h as [nm q st]. cbn in *. subst nm. exists q, st, false.
      split; [done|]. split; [split; discriminate|]. split; [|done]. unfold stat_ok in Hst. lia.
    - exists [], Stat_new, true. split; [done|]. split; [done|]. split; [cbn; lia|constructor]. }
  assert (HqP : Forall P q).
  { eapply Forall_impl; [exact Hq|]. intros i (_ & e' & ? & ? & ? & _). by exists e'. }
  destruct (pq_push_total (EsCmp ess) P Hcmp q id HqP Hid) as [q' Eq]. cbn [host_ess host_stat].
  rewrite Eq. cbn [mbind option_bind]. apply pq_push_perm in Eq.
  do 2 eexists. split; [done|]. split_and!; [|rewrite lookup_insert_eq; eauto|intros; by rewrite lookup_insert_ne|done].
  intros nm h. rewrite lookup_insert_Some. intros [[<- <-]|[Hne Hh]].
  - unfold add_weight. cbn [host_stat stat_weight]. rewrite wrap64_small by (unfold is_u64, u64_max; lia). split; [|lia].
    eexists. rewrite lookup_insert_eq. split; [done|]. cbn. split_and!; [done| | |].
    + unfold stat_ok, u64_max. cbn. lia.
    + intros ->. by apply Permutation_nil_l in Eq.
    + rewrite Eq. constructor; [split; [left|done]|]. eapply Forall_impl; [exact Hq|].
      intros i [? ?]. split; [by right|done].
  - destruct (Hinv _ _ Hh) as [(h' & Eh' & Hrest) Hwt]. split; [|lia].
    destruct Hrest as (? & ? & ? & Hf). exists h'. rewrite lookup_insert_ne by done. split_and!; try done.
    eapply Forall_impl; [exact Hf|]. intros i [? ?]. split; [by right|done].
Qed.

Lemma hosts_inv_weigh n Q k ess ess' done hosts :
  (forall Q' id, id ∈ done -> es_good n Q' ess id -> es_good n Q' ess' id) ->
  hosts_inv n Q k ess done hosts -> hosts_inv n Q k ess' done hosts.
Proof.
  intros Hes Hinv nm h Hh. destruct (Hinv nm h Hh) as [Hg ?]. split; [|done].
  eapply host_good_mono; [exact Hg|done|]. intros; by apply Hes.
Qed.

Definition ByHost_building (n k : Z) (ess : EsManager) (done : list Z) (a : RGAllocaterByHost) : Prop :=
  hosts_inv n (fun _ => any_es) k ess done (bh_hosts a) /\
  (forall name, name ∈ hosts_ a <-> is_Some (bh_hosts a !! name)) /\
  Forall (fun id => id ∈ bh_es_map_ a /\ exists e, ess !! id = Some e /\ es_host_ e ∈ hosts_ a) done.

Lemma ByHost_init_loop_spec n extent_size r ids k ess a done :
  0 <= n <= max_count -> 0 < extent_size -> 0 < r < 2147483648 ->
  0 <= k -> k + Z.of_nat (length ids) <= 4294967296 ->
  NoDup (done ++ ids) -> Forall (es_raw n extent_size r ess) ids ->
  ByHost_building n k ess done a ->
  exists ess' a' k' done', ByHost_init_loop ess a ids extent_size r = Some (ess', a') /\ es_same ess ess' /\
    done' ≡ₚ done ++ ids /\ ByHost_building n k' ess' done' a'.
Proof.
  intros Hn Hx Hr. revert k ess a done. induction ids as [|id ids IH]; intros k ess a done Hk Hlen Hnd Hraw Hb; cbn.
  { exists ess, a, k, done. rewrite app_nil_r. done. }
  inversion Hraw as [|? ? Hid Hraw']; subst. pose proof Hid as (e & He & Hei & _). cbn [length] in Hlen.
  destruct (weigh_step n extent_size r ess id e Hx Hr Hid He) as (w & Ew & Hw & Hsame & Hg & Hr' & Hg').
  rewrite Ew. cbn [mbind option_bind]. set (ess1 := <[id := set_weight e w]> ess) in *.
  assert (Hni : (id ∉ ids) /\ (id ∉ done)).
  { apply NoDup_app in Hnd as (_ & Hd & [? _]%NoDup_cons). split; [done|]. intros ?. eapply Hd; [done|left]. }
  destruct Hni as [Hni Hnd']. destruct Hb as (Hinv & Hq & Hhome).
  apply (hosts_inv_weigh n _ k ess ess1) in Hinv; [|intros Q i Hi; apply Hg'; by intros ->].
  destruct (host_add_spec n (fun _ => any_es) k ess1 done (bh_hosts a) id e w) as (hosts & is_new & E & Hinv' & Hsome & Hoth & Hnew);
    [done|lia|done|done| |].
  { destruct Hg as (e1 & ? & ? & ? & Hb1). exists e1. rewrite Hb1. split_and!; done. }
  rewrite E. cbn [mbind option_bind]. change (es_host_ (set_weight e w)) with (es_host_ e).
  assert (Hgood : forall nm, nm = es_host_ e \/ is_Some (bh_hosts a !! nm) ->
            host_good n any_es ess1 (id :: done) hosts nm).
  { intros nm Hnm. assert (is_Some (hosts !! nm)) as [h Eh].
    { destruct (decide (nm = es_host_ e)) as [->|]; [done|]. rewrite Hoth by done. by destruct Hnm. }
    by destruct (Hinv' nm h Eh). }
  assert (exists q, (if is_new then pq_push (HostCmp hosts) (hosts_ a) (es_host_ e) else Some (hosts_ a)) = Some q /\
    forall nm, nm ∈ q <-> nm = es_host_ e \/ nm ∈ hosts_ a) as (q & -> & Hq').
  { destruct is_new.
    - destruct (pq_push_total (HostCmp hosts) (host_good n any_es ess1 (id :: done) hosts)) with
        (l := hosts_ a) (x := es_host_ e) as [q Eq]; [intros ? ?; apply HostCmp_total; lia| |apply Hgood; auto|].
      { apply Forall_forall. intros nm Hnm. apply Hgood. right. by apply Hq. }
      exists q. split; [done|]. intros nm. rewrite (pq_push_perm _ _ _ _ Eq). apply elem_of_cons.
    - exists (hosts_ a). split; [done|]. intros nm. split; [auto|]. intros [->|]; [|done].
      apply Hq. destruct (bh_hosts a !! es_host_ e) eqn:Eh; [eauto|]. discriminate (proj2 Hnew eq_refl). }
  cbn [mbind option_bind].
  destruct (IH (k + 1) ess1 (mkRGAllocaterByHost ({[id]} ∪ bh_es_map_ a) hosts q) (id :: done))
    as (ess' & a' & k' & done' & -> & Hs & Hp & Hb'); [lia|lia| | |split_and!|].
  - eapply NoDup_Permutation_proper; [|exact Hnd]. solve_Permutation.
  - apply Forall_forall. intros i Hi. apply Hr'; [by intros ->|]. by eapply Forall_forall in Hraw'.
  - exact Hinv'.
  - cbn. intros nm. rewrite Hq'. split.
    + intros Hnm. destruct (Hgood nm) as (h & Eh & _); [|eauto]. destruct Hnm; [auto|]. right. by apply Hq.
    + intros Hnm. destruct (decide (nm = es_host_ e)); [auto|]. right. apply Hq. by rewrite Hoth in Hnm.
  - cbn. constructor.
    + split; [set_solver|]. exists (set_weight e w). unfold ess1. rewrite lookup_insert_eq. split; [done|].
      apply Hq'. auto.
    + apply Forall_forall. intros i Hi. pose proof Hhome as Hi'. eapply Forall_forall in Hi' as (? & ei & Hei' & Hhi); [|exact Hi].
      split; [set_solver|]. exists ei. unfold ess1. rewrite lookup_insert_ne by (by intros ->). split; [done|]. apply Hq'. auto.
  - exists ess', a', k', done'. split_and!; [done|by etransitivity|rewrite Hp; solve_Permutation|done].
Qed.

#[export, refine] Instance ByHost_laws : RGAllocaterLaws RGAllocaterByHost := {| ra_wf := ByHost_wf |}.
Proof.
  - intros n ess a ids id (_ & _ & _ & Hh) Hid. eapply Forall_forall in Hh as (_ & e & -> & _); eauto.
  - intros n ess ids extent_size Hpre Hc. cbn. unfold ByHost_init.
    rewrite (host_rack_valid_ok n _ _ extent_size) by done. cbn -[ByHost_init_loop].
    destruct (weight_unit_spec n ess ids extent_size Hpre) as (r & -> & Hr & Hle). cbn [mbind option_bind].
    destruct Hpre as [Hne Hnd Hcnt Hx Hn Hes] eqn:Ep.
    destruct (ByHost_init_loop_spec n extent_size r ids 0 ess (mkRGAllocaterByHost ∅ ∅ []) [])
      as (ess' & a' & k' & placed & E & Hs & Hp & (Hinv & Hq & Hhome)); [done..|by eapply init_pre_raw| |].
    { split_and!; [|cbn; intros nm; rewrite lookup_empty; set_solver|constructor].
      intros nm h. cbn. by rewrite lookup_empty. }
    rewrite E. cbn [mbind option_bind]. do 2 eexists. split; [done|]. split; [done|]. cbn in Hp.
    unfold ByHost_wf. split_and!; [lia| | |by rewrite Hp in Hhome].
    + intros Hnil. destruct ids as [|id ids]; [done|]. rewrite Hp in Hhome.
      inversion Hhome as [|? ? (_ & e & _ & Hin) _]; subst. rewrite Hnil in Hin. by apply elem_of_nil in Hin.
    + apply Forall_forall. intros nm Hnm. apply Hq in Hnm as [h Eh]. destruct (Hinv nm h Eh) as [Hg _].
      eapply host_good_mono; [exact Hg|by rewrite Hp|done].
  - exact ByHost_primary.
  - exact ByHost_secondary.
Defined.
