(* ===== verification/PlacementRack.v ===== *)
(** * Placement by rack

    The allocator by rack (src/src/extentmanager/rg_allocater_by_rack.cpp)
    meets the contract of Placement.v: the servers of a group are in distinct
    racks. *)

From S2P Require Import Prelude Status Enums Heap EsMgr RgAllocater Placement.

#[local] Open Scope string_scope.
#[local] Open Scope Z_scope.

(** A rack whose queue holds hosts all of whose servers are in the rack. *)
Definition rack_good (n : Z) (ess : EsManager) (ids : list Z) (hosts : gmap string Host)
  (racks : gmap string Rack) (name : string) : Prop :=
  exists r, racks !! name = Some r /\ rack_name r = name /\ stat_ok n (rack_stat r) /\ rack_hosts r <> [] /\
    Forall (host_good n (fun e => es_rack_ e = name) ess ids hosts) (rack_hosts r).

Lemma RackCmp_total n ess ids hosts racks x y :
  n <= max_count -> rack_good n ess ids hosts racks x -> rack_good n ess ids hosts racks y ->
  is_Some (RackCmp racks x y).
Proof.
  intros Hn (rx & Ex & _ & Hx & _) (ry & Ey & _ & Hy & _). unfold RackCmp. rewrite Ex, Ey. cbn.
  by eapply stat_cmp_total.
Qed.

Lemma rack_good_weaken n n' ess ids hosts racks name :
  n <= n' -> rack_good n ess ids hosts racks name -> rack_good n' ess ids hosts racks name.
Proof.
  intros Hn (r & ? & ? & ? & ? & Hf). exists r. split_and!; try done; [by eapply stat_ok_mono|].
  eapply Forall_impl; [exact Hf|]. intros. by eapply host_good_weaken.
Qed.

Lemma rack_select_spec p n ess ids hosts racks name :
  rack_good n ess ids hosts racks name -> n < max_count -> 0 <= n ->
  exists id ess' hosts' racks', rack_select p ess hosts racks name = Some (id, ess', hosts', racks') /\
    id ∈ ids /\ (exists e, ess !! id = Some e /\ es_rack_ e = name) /\ es_same ess ess' /\
    (forall nm, rack_good n ess ids hosts racks nm -> rack_good (n + 1) ess' ids hosts' racks' nm).
Proof.
  intros (r & Er & Hname & Hst & Hne & Hf) Hlt Hn. unfold rack_select. rewrite Er. cbn [mbind option_bind].
  destruct (pq_top_some (rack_hosts r) Hne) as [hname Ht]. rewrite Ht. cbn [mbind option_bind].
  pose proof Hf as Hh. eapply Forall_forall in Hh; [|by apply pq_top_elem].
  destruct (host_select_spec p n _ ess ids hosts hname Hh Hlt)
    as (id & ess1 & hosts1 & -> & Hid & (e & He & _ & _ & Hrack) & Hs & Hinc). cbn [mbind option_bind].
  destruct (requeue_spec (HostCmp hosts1) (host_good (n + 1) (fun e => es_rack_ e = name) ess1 ids hosts1))
    with (q := rack_hosts r) (x := hname) as (q & -> & Hq);
    [intros ? ?; apply HostCmp_total; lia| |done|].
  { eapply Forall_impl; [exact Hf|]. intros; by apply Hinc. }
  cbn [mbind option_bind]. do 4 eexists. split; [done|]. split; [done|]. split; [eauto|]. split; [done|].
  intros nm (r' & Er' & Hname' & Hst' & Hne' & Hf').
  assert (Hf1 : Forall (host_good (n + 1) (fun e => es_rack_ e = nm) ess1 ids hosts1) (rack_hosts r')).
  { eapply Forall_impl; [exact Hf'|]. intros; by apply Hinc. }
  destruct (decide (nm = name)) as [->|Hnm].
  - assert (r' = r) as -> by congruence. eexists. rewrite lookup_insert_eq. split; [done|]. cbn.
    split_and!; [done|by apply stat_ok_incr| |by rewrite Hq]. intros ->. by apply Permutation_nil_l in Hq.
  - exists r'. rewrite lookup_insert_ne by done. split_and!; try done. eapply stat_ok_mono; [|done]. lia.
Qed.

Definition ByRack_wf (n : Z) (ess : EsManager) (a : RGAllocaterByRack) (ids : list Z) : Prop :=
  0 <= n /\ racks_ a <> [] /\
  Forall (rack_good n ess ids (br_hosts a) (br_racks a)) (racks_ a) /\
  Forall (fun id => id ∈ br_es_map_ a /\ exists e, ess !! id = Some e /\ es_rack_ e ∈ racks_ a) ids.

#[export] Instance ByRack_ops : RGAllocater RGAllocaterByRack := {|
  ra_new := mkRGAllocaterByRack ∅ ∅ ∅ [];
  ra_init := ByRack_init;
  ra_select_primary := ByRack_select_primary;
  ra_select_secondary := ByRack_select_secondary;
  ra_domain e := DomRack (es_rack_ e)
|}.

Lemma ByRack_primary n ess a ids : ByRack_wf n ess a ids -> n < max_count ->
  exists id ess' a', ByRack_select_primary ess a = Some (id, ess', a') /\ id ∈ ids /\
    es_same ess ess' /\ ByRack_wf (n + 1) ess' a' ids.
Proof.
  intros (Hn & Hne & Hg & Hh) Hlt. unfold ByRack_select_primary.
  destruct (pq_top_some (racks_ a) Hne) as [name Ht]. rewrite Ht. cbn [mbind option_bind].
  pose proof Hg as Hname. eapply Forall_forall in Hname; [|by apply pq_top_elem].
  destruct (rack_select_spec true n ess ids _ _ name Hname Hlt Hn)
    as (id & ess1 & hosts1 & racks1 & -> & Hid & _ & Hs & Hinc). cbn [mbind option_bind].
  assert (Hg1 : Forall (rack_good (n + 1) ess1 ids hosts1 racks1) (racks_ a))
    by (eapply Forall_impl; [exact Hg|]; intros; by apply Hinc).
  destruct (requeue_spec (RackCmp racks1) (rack_good (n + 1) ess1 ids hosts1 racks1))
    with (q := racks_ a) (x := name) as (q & -> & Hq);
    [intros ? ?; apply RackCmp_total; lia|done|done|].
  cbn [mbind option_bind]. do 3 eexists. split; [done|]. split; [done|]. split; [done|].
  unfold ByRack_wf. cbn. split_and!; [lia| |by rewrite Hq|by eapply homed_same; eauto using rack_attr].
  intros ->. by apply Permutation_nil_l in Hq.
Qed.

Lemma ByRack_secondary n ess a ids group :
  ByRack_wf n ess a ids -> n < max_count -> group ⊆ ids ->
  exists r ess' a', ByRack_select_secondary ess a group = Some (r, ess', a') /\
    es_same ess ess' /\ ByRack_wf (n + 1) ess' a' ids /\
    match r with
    | Some id => id ∈ ids /\ forall g, g ∈ group -> domain_of (A := RGAllocaterByRack) ess g <> domain_of ess id
    | None => forall id, id ∈ ids -> exists g, g ∈ group /\ domain_of (A := RGAllocaterByRack) ess g = domain_of ess id
    end.
Proof.
  intros (Hn & Hne & Hg & Hh) Hlt Hsub. unfold ByRack_select_secondary.
  pose proof (homed_group _ _ _ _ _ _ Hh Hsub) as Hgr.
  set (excl := fun name => _ ≫= _).
  assert (Hex : forall x, x ∈ racks_ a -> exists b, excl x = Some b /\
    (b = true <-> exists g e, g ∈ group /\ ess !! g = Some e /\ es_rack_ e = x)).
  { intros x Hx. pose proof Hg as Hgx. eapply Forall_forall in Hgx as (h & Eh & Hname & _); [|exact Hx].
    unfold excl. rewrite Eh. cbn [mbind option_bind]. rewrite Hname. by apply group_has_spec. }
  clearbody excl. set (P := rack_good n ess ids (br_hosts a) (br_racks a)) in *.
  assert (Htot : forall x y, P x -> P y -> is_Some (RackCmp (br_racks a) x y))
    by (intros ? ?; apply RackCmp_total; lia).
  destruct (skip_loop_spec (RackCmp (br_racks a)) P Htot (S (length (racks_ a))) excl (racks_ a) [])
    as (q & cur & tmp & find & E & Hperm & Hr); [done| |done|lia|].
  { intros x Hx. destruct (Hex x Hx) as (b & -> & _). eauto. }
  rewrite E. cbn [mbind option_bind]. rewrite app_nil_r in Hperm. destruct find; cbn [negb].
  - destruct Hr as (name & -> & Ht & Hin & Hexc). cbn [mbind option_bind].
    pose proof Hg as Hname. eapply Forall_forall in Hname; [|exact Hin].
    destruct (rack_select_spec false n ess ids _ _ name Hname Hlt Hn)
      as (id & ess1 & hosts1 & racks1 & -> & Hid & (e & He & Hrack) & Hs & Hinc). cbn [mbind option_bind].
    destruct (reselect_spec (RackCmp racks1) (rack_good (n + 1) ess1 ids hosts1 racks1))
      with (q := q) (x := name) (tmp := tmp) (q0 := racks_ a) as (q1 & q2 & -> & E2 & Hq2);
      [intros ? ?; apply RackCmp_total; lia|eapply Forall_impl; [exact Hg|]; intros; by apply Hinc|done|done|].
    cbn [mbind option_bind]. rewrite E2. cbn [mbind option_bind]. do 3 eexists. split; [done|]. split; [done|].
    split.
    { unfold ByRack_wf. cbn. split_and!; [lia| | |by eapply homed_same; eauto using rack_attr].
      - intros ->. by apply Permutation_nil_l in Hq2.
      - rewrite Hq2. eapply Forall_impl; [exact Hg|]; intros; by apply Hinc. }
    split; [done|]. intros g Hgg. unfold domain_of. rewrite He. destruct (Hgr g Hgg) as [_ [eg Heg]].
    rewrite Heg. cbn. rewrite Hrack. intros [= Hname']. destruct (Hex name Hin) as (b & Eb & Hb).
    assert (b = true) as -> by (apply Hb; eauto). congruence.
  - destruct Hr as [-> Hall].
    destruct (restore_spec (RackCmp (br_racks a)) P Htot [] tmp) as (q2 & -> & Hq2);
      [constructor|by rewrite <- Hperm in Hg|].
    cbn [mbind option_bind]. do 3 eexists. split; [done|]. split; [done|].
    assert (Hq : q2 ≡ₚ racks_ a) by (rewrite Hq2; cbn; by rewrite Hperm). split.
    + unfold ByRack_wf. cbn. split_and!; [lia| |rewrite Hq|by eapply homed_same; eauto using rack_attr].
      * intros ->. by apply Permutation_nil_l in Hq.
      * eapply Forall_impl; [exact Hg|]. intros. eapply rack_good_weaken; [|done]. lia.
    + intros id Hid. pose proof Hh as Hi. eapply Forall_forall in Hi as (_ & e & He & Hq'); [|exact Hid].
      destruct (Hex _ Hq') as (b & Eb & Hb). rewrite (Hall _ Hq') in Eb. injection Eb as <-.
      destruct (proj1 Hb eq_refl) as (g & eg & Hgg & Heg & Hsame). exists g. split; [done|].
      unfold domain_of. rewrite He, Heg. cbn. by rewrite Hsame.
Qed.

(** ** Building the racks *)

Section BuildRacks.
Context (ess0 : EsManager) (ids0 : list Z) (consistent : racks_consistent ess0 ids0).

(** Host [h] is in rack [nm]; every server of host [h] is in the host's rack. *)
Definition in_rack (h nm : string) : Prop :=
  exists id e, id ∈ ids0 /\ ess0 !! id = Some e /\ es_host_ e = h /\ es_rack_ e = nm.
Definition host_rack (h : string) (e : ExtentServer) : Prop :=
  forall nm, in_rack h nm -> es_rack_ e = nm.

Definition racks_inv (n k : Z) (hosts : gmap string Host) (racks : gmap string Rack) : Prop :=
  forall name r, racks !! name = Some r ->
    rack_name r = name /\ stat_ok n (rack_stat r) /\ stat_weight (rack_stat r) <= k * 2147483648 /\
    rack_hosts r <> [] /\ Forall (fun h => is_Some (hosts !! h) /\ in_rack h name) (rack_hosts r).

Lemma host_rack_known id e e' :
  id ∈ ids0 -> ess0 !! id = Some e -> es_rack_ e' = es_rack_ e -> host_rack (es_host_ e) e'.
Proof. intros Hid He Hr nm (id' & e1 & Hid' & He1 & Hh & <-). rewrite Hr. eapply (consistent id id'); eauto. Qed.

Lemma rack_add_spec n k k' ess placed hosts racks e w :
  0 <= n <= max_count -> 0 <= k < 4294967296 -> 0 < w < 2147483648 ->
  hosts_inv n host_rack k' ess placed hosts -> racks_inv n k hosts racks ->
  is_Some (hosts !! es_host_ e) -> in_rack (es_host_ e) (es_rack_ e) ->
  exists racks' is_new, rack_add_host hosts racks (set_weight e w) = Some (racks', is_new) /\
    racks_inv n (k + 1) hosts racks' /\ is_Some (racks' !! es_rack_ e) /\
    (forall nm, nm <> es_rack_ e -> racks' !! nm = racks !! nm) /\
    (is_new = true <-> racks !! es_rack_ e = None).
Proof.
  intros Hn Hk Hw Hh Hinv Hsome Hin. unfold rack_add_host.
  change (es_rack_ (set_weight e w)) with (es_rack_ e). change (es_weight_ (set_weight e w)) with w.
  change (es_host_ (set_weight e w)) with (es_host_ e).
  set (P := fun h => is_Some (hosts !! h)).
  assert (Hcmp : forall x y, P x -> P y -> is_Some (HostCmp hosts x y)).
  { intros x y [hx Hx] [hy Hy]. destruct (Hh _ _ Hx) as [Gx _]. destruct (Hh _ _ Hy) as [Gy _].
    eapply HostCmp_total; [|exact Gx|exact Gy]. lia. }
  assert (exists q st is_new, (match racks !! es_rack_ e with
      | Some rack => (rack, false) | None => (mkRack (es_rack_ e) [] Stat_new, true) end)
      = (mkRack (es_rack_ e) q st, is_new) /\ (is_new = true <-> racks !! es_rack_ e = None) /\
      (0 <= stat_primary_rgs st <= n /\ 0 <= stat_secondary_rgs st <= n /\ 0 <= stat_weight st <= k * 2147483648) /\
      Forall (fun h => P h /\ in_rack h (es_rack_ e)) q) as (q & st & is_new & -> & Hnew & Hst & Hq).
  { destruct (racks !! es_rack_ e) as [r|] eqn:Er.
    - destruct (Hinv _ _ Er) as (Hname & Hst & Hwt & _ & Hf). destruct r as [nm q st]. cbn in *. subst nm.
      exists q, st, false. split; [done|]. split; [split; discriminate|]. split; [|done].
      unfold stat_ok in Hst. lia.
    - exists [], Stat_new, true. split; [done|]. split; [done|]. split; [cbn; lia|constructor]. }
  assert (HqP : Forall P q) by (eapply Forall_impl; [exact Hq|]; by intros ? [? _]).
  destruct (pq_push_total (HostCmp hosts) P Hcmp q (es_host_ e) HqP Hsome) as [q' Eq].
  cbn [rack_hosts rack_stat]. rewrite Eq. cbn [mbind option_bind]. apply pq_push_perm in Eq.
  do 2 eexists. split; [done|].
  split_and!; [|rewrite lookup_insert_eq; eauto|intros; by rewrite lookup_insert_ne|done].
  intros nm r. rewrite lookup_insert_Some. intros [[<- <-]|[Hne Hr]].
  - unfold add_weight. cbn. rewrite wrap64_small by (unfold is_u64, u64_max; lia).
    split_and!; [done|unfold stat_ok, u64_max; cbn; lia|lia| |].
    + intros ->. by apply Permutation_nil_l in Eq.
    + rewrite Eq. constructor; [split; [exact Hsome|exact Hin]|exact Hq].
  - destruct (Hinv _ _ Hr) as (? & ? & ? & ? & ?). split_and!; try done. lia.
Qed.

Definition ByRack_building (n k : Z) (ess : EsManager) (placed : list Z) (a : RGAllocaterByRack) : Prop :=
  hosts_inv n host_rack k ess placed (br_hosts a) /\
  racks_inv n k (br_hosts a) (br_racks a) /\
  (forall name, name ∈ racks_ a <-> is_Some (br_racks a !! name)) /\
  Forall (fun id => id ∈ br_es_map_ a /\ exists e, ess !! id = Some e /\ es_rack_ e ∈ racks_ a) placed.

(** The racks under construction are good racks. *)
Lemma racks_inv_good n k ess placed hosts racks name :
  hosts_inv n host_rack k ess placed hosts -> racks_inv n k hosts racks -> is_Some (racks !! name) ->
  rack_good n ess placed hosts racks name.
Proof.
  intros Hh Hr [r Er]. destruct (Hr name r Er) as (Hname & Hst & _ & Hne & Hf).
  exists r. split_and!; try done. eapply Forall_impl; [exact Hf|]. intros h [[ho Eh] Hin].
  destruct (Hh h ho Eh) as [Hg _]. eapply host_good_mono; [exact Hg|done|].
  intros id _ (e & ? & ? & ? & ? & HQ). exists e. split_and!; try done. by apply HQ.
Qed.

Lemma racks_inv_hosts n k hosts hosts' racks :
  (forall h, is_Some (hosts !! h) -> is_Some (hosts' !! h)) ->
  racks_inv n k hosts racks -> racks_inv n k hosts' racks.
Proof.
  intros Hh Hr name r Er. destruct (Hr name r Er) as (? & ? & ? & ? & Hf). split_and!; try done.
  eapply Forall_impl; [exact Hf|]. intros h [? ?]. auto.
Qed.

(** One round of the loop. *)
Lemma ByRack_round n extent_size r k ess a placed id e :
  0 <= n <= max_count -> 0 < extent_size -> 0 < r < 2147483648 -> 0 <= k < 4294967296 ->
  (id ∉ placed) -> es_raw n extent_size r ess id -> ess !! id = Some e ->
  id ∈ ids0 -> es_same ess0 ess -> ByRack_building n k ess placed a ->
  exists w ess1 hosts racks q is_new,
    weigh ess id extent_size r = Some (set_weight e w, ess1) /\ ess1 = <[id := set_weight e w]> ess /\
    es_same ess ess1 /\
    (forall id', id' <> id -> es_raw n extent_size r ess id' -> es_raw n extent_size r ess1 id') /\
    host_add_es ess1 (br_hosts a) id (set_weight e w) = Some (hosts, is_new.1) /\
    rack_add_host hosts (br_racks a) (set_weight e w) = Some (racks, is_new.2) /\
    (if is_new.2 then pq_push (RackCmp racks) (racks_ a) (es_rack_ e) else Some (racks_ a)) = Some q /\
    ByRack_building n (k + 1) ess1 (id :: placed) (mkRGAllocaterByRack ({[id]} ∪ br_es_map_ a) hosts racks q).
Proof.
  intros Hn Hx Hr Hk Hni Hraw He Hid0 Hs0 (Hinv & Hrinv & Hq & Hhome).
  destruct (weigh_step n extent_size r ess id e Hx Hr Hraw He) as (w & Ew & Hw & Hsame & Hg & Hr' & Hg').
  set (ess1 := <[id := set_weight e w]> ess) in *.
  apply (hosts_inv_weigh n _ k ess ess1) in Hinv; [|intros Q i Hi; apply Hg'; by intros ->].
  destruct (es_same_lookup ess ess0 id e) as (e0 & He0 & Hb0); [by symmetry|done|].
  apply es_base_attrs in Hb0 as (_ & Hh0 & Hr0 & _).
  destruct (host_add_spec n host_rack k ess1 placed (br_hosts a) id e w)
    as (hosts & new1 & E & Hinv' & Hsome & Hoth & _); [done|lia|done|done| |].
  { destruct Hg as (e1 & ? & ? & ? & Hb1). exists e1. rewrite Hb1. split_and!; try done. cbn [es_base].
    rewrite Hh0. by eapply host_rack_known. }
  assert (Hrinv' : racks_inv n k hosts (br_racks a)).
  { eapply racks_inv_hosts; [|exact Hrinv]. intros h Hh. destruct (decide (h = es_host_ e)) as [->|]; [done|].
    by rewrite Hoth. }
  destruct (rack_add_spec n k (k + 1) ess1 (id :: placed) hosts (br_racks a) e w)
    as (racks & new2 & E2 & Hrinv2 & Hsome2 & Hoth2 & Hnew2); [done|lia|done|done|done|done| |].
  { exists id, e0. by rewrite Hh0, Hr0. }
  assert (Hgood : forall nm, nm = es_rack_ e \/ is_Some (br_racks a !! nm) ->
            rack_good n ess1 (id :: placed) hosts racks nm).
  { intros nm Hnm. eapply racks_inv_good; [exact Hinv'|exact Hrinv2|].
    destruct (decide (nm = es_rack_ e)) as [->|]; [done|]. rewrite Hoth2 by done. by destruct Hnm. }
  assert (exists q, (if new2 then pq_push (RackCmp racks) (racks_ a) (es_rack_ e) else Some (racks_ a)) = Some q /\
    forall nm, nm ∈ q <-> nm = es_rack_ e \/ nm ∈ racks_ a) as (q & Eq & Hq').
  { destruct new2.
    - destruct (pq_push_total (RackCmp racks) (rack_good n ess1 (id :: placed) hosts racks)) with
        (l := racks_ a) (x := es_rack_ e) as [q Eq]; [intros ? ?; apply RackCmp_total; lia| |apply Hgood; auto|].
      { apply Forall_forall. intros nm Hnm. apply Hgood. right. by apply Hq. }
      exists q. split; [done|]. intros nm. rewrite (pq_push_perm _ _ _ _ Eq). apply elem_of_cons.
    - exists (racks_ a). split; [done|]. intros nm. split; [auto|]. intros [->|]; [|done].
      apply Hq. destruct (br_racks a !! es_rack_ e) eqn:Eh; [eauto|]. discriminate (proj2 Hnew2 eq_refl). }
  exists w, ess1, hosts, racks, q, (new1, new2). split_and!; try done.
  split_and!; cbn; [done|done| |].
  - intros nm. rewrite Hq'. split.
    + intros Hnm. destruct (Hgood nm) as (rr & Er & _); [|eauto]. destruct Hnm; [auto|]. right. by apply Hq.
    + intros Hnm. destruct (decide (nm = es_rack_ e)); [auto|]. right. apply Hq. by rewrite Hoth2 in Hnm.
  - constructor.
    + split; [set_solver|]. exists (set_weight e w). unfold ess1. rewrite lookup_insert_eq. split; [done|].
      apply Hq'. auto.
    + apply Forall_forall. intros i Hi. pose proof Hhome as Hi'.
      eapply Forall_forall in Hi' as (? & ei & Hei' & Hhi); [|exact Hi].
      split; [set_solver|]. exists ei. unfold ess1. rewrite lookup_insert_ne by (by intros ->).
      split; [done|]. apply Hq'. auto.
Qed.

Lemma ByRack_init_loop_spec n extent_size r ids k ess a placed :
  0 <= n <= max_count -> 0 < extent_size -> 0 < r < 2147483648 ->
  0 <= k -> k + Z.of_nat (length ids) <= 4294967296 ->
  NoDup (placed ++ ids) -> ids ⊆ ids0 -> es_same ess0 ess -> Forall (es_raw n extent_size r ess) ids ->
  ByRack_building n k ess placed a ->
  exists ess' a' k' placed', ByRack_init_loop ess a ids extent_size r = Some (ess', a') /\ es_same ess ess' /\
    placed' ≡ₚ placed ++ ids /\ ByRack_building n k' ess' placed' a'.
Proof.
  intros Hn Hx Hr. revert k ess a placed.
  induction ids as [|id ids IH]; intros k ess a placed Hk Hlen Hnd Hsub Hs0 Hraw Hb.
  { exists ess, a, k, placed. rewrite app_nil_r. done. }
  inversion Hraw as [|? ? Hid Hraw']; subst. pose proof Hid as (e & He & _ & _). cbn [length] in Hlen.
  assert (Hni : (id ∉ ids) /\ (id ∉ placed)).
  { apply NoDup_app in Hnd as (_ & Hd & [? _]%NoDup_cons). split; [done|]. intros ?. eapply Hd; [done|left]. }
  destruct Hni as [Hni Hnp].
  destruct (ByRack_round n extent_size r k ess a placed id e)
    as (w & ess1 & hosts & racks & q & [new1 new2] & Ew & _ & Hs1 & Hr' & E1 & E2 & E3 & Hb');
    [done|done|done|lia|done|done|done|apply Hsub; left|done|done|].
  cbn in E1, E2, E3. cbn [ByRack_init_loop]. rewrite Ew. cbn [mbind option_bind]. rewrite E1. cbn [mbind option_bind].
  rewrite E2. cbn [mbind option_bind]. change (es_rack_ (set_weight e w)) with (es_rack_ e). rewrite E3.
  cbn [mbind option_bind].
  destruct (IH (k + 1) ess1 (mkRGAllocaterByRack ({[id]} ∪ br_es_map_ a) hosts racks q) (id :: placed))
    as (ess' & a' & k' & placed' & -> & Hs & Hp & Hbb); [lia|lia| | | | |exact Hb'|].
  - eapply NoDup_Permutation_proper; [|exact Hnd]. solve_Permutation.
  - intros i Hi. apply Hsub. by right.
  - by etransitivity.
  - apply Forall_forall. intros i Hi. apply Hr'; [by intros ->|]. by eapply Forall_forall in Hraw'.
  - exists ess', a', k', placed'. split_and!; [done|by etransitivity|rewrite Hp; solve_Permutation|done].
Qed.
End BuildRacks.

#[export, refine] Instance ByRack_laws : RGAllocaterLaws RGAllocaterByRack := {| ra_wf := ByRack_wf |}.
Proof.
  - intros n ess a ids id (_ & _ & _ & Hh) Hid. eapply Forall_forall in Hh as (_ & e & -> & _); eauto.
  - intros n ess ids extent_size Hpre Hc. cbn. unfold ByRack_init.
    rewrite (host_rack_valid_ok n _ _ extent_size) by done. cbn -[ByRack_init_loop].
    destruct (weight_unit_spec n ess ids extent_size Hpre) as (r & -> & Hr & Hle). cbn [mbind option_bind].
    destruct Hpre as [Hne Hnd Hcnt Hx Hn Hes] eqn:Ep.
    destruct (ByRack_init_loop_spec ess ids Hc n extent_size r ids 0 ess (mkRGAllocaterByRack ∅ ∅ ∅ []) [])
      as (ess' & a' & k' & placed & E & Hs & Hp & (Hinv & Hrinv & Hq & Hhome));
      [done..|by eapply init_pre_raw| |].
    { unfold ByRack_building. split_and!; cbn.
      - intros nm h. by rewrite lookup_empty.
      - intros nm h. by rewrite lookup_empty.
      - intros nm. rewrite lookup_empty. split; [by intros ?%elem_of_nil|by intros []].
      - constructor. }
    rewrite E. cbn [mbind option_bind]. do 2 eexists. split; [done|]. split; [done|]. cbn in Hp.
    unfold ByRack_wf. split_and!; [lia| | |by rewrite Hp in Hhome].
    + intros Hnil. destruct ids as [|id ids]; [done|]. rewrite Hp in Hhome.
      inversion Hhome as [|? ? (_ & e & _ & Hin) _]; subst. rewrite Hnil in Hin. by apply elem_of_nil in Hin.
    + apply Forall_forall. intros nm Hnm. apply Hq in Hnm.
      destruct (racks_inv_good ess ids n k' ess' placed (br_hosts a') (br_racks a') nm Hinv Hrinv Hnm)
        as (rr & ? & ? & ? & ? & Hf). exists rr. split_and!; try done.
      eapply Forall_impl; [exact Hf|]. intros h Hg. eapply host_good_mono; [exact Hg|by rewrite Hp|done].
  - exact ByRack_primary.
  - exact ByRack_secondary.
Defined.
