(* ===== verification/RgMgr.v ===== *)
(** * Replication groups

    [ReplicationGroup] and [RgManager]
    (src/src/extentmanager/replication_group.h and .cpp): the groups of
    servers that replicate a pool's extents, and the choice of a group for
    each new extent.

    Groups and per-server queues ([EsRg]) are shared objects in the source;
    here the groups are in [rg_map_], the [EsRg] objects in a map by server,
    and the queues hold their keys.  The allocator is used by [init] only, so
    it is not part of the state.  [None] is undefined behaviour. *)

From stdpp Require Import sorting.
From S2P Require Import Prelude Status Codec KvStore Persist Enums Net Heap EsMgr RgAllocater Placement PlacementRack.

#[local] Open Scope string_scope.
#[local] Open Scope Z_scope.

Record ReplicationGroup : Type := mkReplicationGroup {
  rg_id_ : string;
  rg_status_ : Z;
  rg_nr_extents_ : Z;
  rg_pool_id_ : string;
  rg_create_time_ : string;
  rg_update_time_ : string;
  rg_extent_servers_ : list Z
}.

Definition RG_new (now id pool_id : string) : ReplicationGroup :=
  mkReplicationGroup id kRGStatusOk 0 pool_id now now [].

Definition RG_kv_key (g : ReplicationGroup) : string :=
  kRGKvPrefix +:+ "_" +:+ rg_pool_id_ g +:+ "_" +:+ rg_id_ g.

(** A vector of [int]s is stored as its size and the bytes of its elements. *)
Definition RG_members : codec ReplicationGroup := {|
  save g := save string_codec (rg_id_ g) +:+ save int_codec (rg_status_ g)
    +:+ save u64_codec (rg_nr_extents_ g) +:+ save string_codec (rg_pool_id_ g)
    +:+ save string_codec (rg_create_time_ g) +:+ save string_codec (rg_update_time_ g)
    +:+ save (vector_codec int_codec) (rg_extent_servers_ g);
  load s :=
    '(id, s) ← load string_codec s;
    '(status, s) ← load int_codec s;
    '(nr_extents, s) ← load u64_codec s;
    '(pool_id, s) ← load string_codec s;
    '(create_time, s) ← load string_codec s;
    '(update_time, s) ← load string_codec s;
    '(extent_servers, s) ← load (vector_codec int_codec) s;
    Some (mkReplicationGroup id status nr_extents pool_id create_time update_time extent_servers, s);
  storable g := storable string_codec (rg_id_ g) /\ storable int_codec (rg_status_ g) /\
    storable u64_codec (rg_nr_extents_ g) /\ storable string_codec (rg_pool_id_ g) /\
    storable string_codec (rg_create_time_ g) /\ storable string_codec (rg_update_time_ g) /\
    storable (vector_codec int_codec) (rg_extent_servers_ g)
|}.

Definition RG_codec : codec ReplicationGroup := versioned 0 (fun _ => RG_members).

Lemma RG_codec_ok : codec_ok RG_codec.
Proof.
  apply versioned_ok; [unfold is_u32; lia|].
  intros [] rest H. cbn -[u64_codec int_codec string_codec vector_codec] in *. by archive.
Qed.

(** [common::pb::ReplicaGroup]. *)
Record PbReplicaGroup : Type := mkPbReplicaGroup {
  pb_rg_id : string;
  pb_rg_status : Z;
  pb_rg_extent_size : Z;
  pb_rg_nr_extents : Z;
  pb_rg_pool_id : string;
  pb_rg_create_date : string;
  pb_rg_update_date : string;
  pb_rg_extent_servers : list Z
}.

(** [extent_size] is the configured one; the message field is 32 bits wide. *)
Definition ToPbReplicationGroup (extent_size : Z) (g : ReplicationGroup) : PbReplicaGroup :=
  mkPbReplicaGroup (rg_id_ g) (ToPbRgStatus (rg_status_ g)) (wrap32 extent_size) (rg_nr_extents_ g)
    (rg_pool_id_ g) (rg_create_time_ g) (rg_update_time_ g) (rg_extent_servers_ g).

Definition set_servers (g : ReplicationGroup) (servers : list Z) : ReplicationGroup :=
  mkReplicationGroup (rg_id_ g) (rg_status_ g) (rg_nr_extents_ g) (rg_pool_id_ g) (rg_create_time_ g)
    (rg_update_time_ g) servers.

Definition set_nr_extents (g : ReplicationGroup) (n : Z) : ReplicationGroup :=
  mkReplicationGroup (rg_id_ g) (rg_status_ g) n (rg_pool_id_ g) (rg_create_time_ g)
    (rg_update_time_ g) (rg_extent_servers_ g).

(** [get_extent_servers().push_back(id)]. *)
Definition add_server (id : Z) (g : ReplicationGroup) : ReplicationGroup :=
  set_servers g (rg_extent_servers_ g ++ [id])%list.

Abbreviation RgMap := (gmap string ReplicationGroup).

Definition RGCmp (rgs : RgMap) (lhs rhs : string) : option bool :=
  l ← rgs !! lhs; r ← rgs !! rhs; Some (rg_nr_extents_ r <? rg_nr_extents_ l).

(** The groups with one primary. *)
Record EsRg : Type := mkEsRg { er_id : Z; er_weight : Z; er_nr_extents : Z; er_heap : list string }.

Definition EsRgCmp (es_rgs : gmap Z EsRg) (lhs rhs : Z) : option bool :=
  l ← es_rgs !! lhs; r ← es_rgs !! rhs;
  a ← udiv (wrap64 (10000 * er_nr_extents l)) (wrap64 (er_weight l));
  b ← udiv (wrap64 (10000 * er_nr_extents r)) (wrap64 (er_weight r));
  Some (b <? a).

Record RgManager : Type := mkRgManager {
  rg_map_ : RgMap;
  es_rgs_ : gmap Z EsRg;
  es_rg_heap_ : list Z
}.

Definition RgManager_new : RgManager := mkRgManager ∅ ∅ [].

(** The order in which [for (auto &rg : rg_map_)] visits the groups is not
    specified in the source; it is the same in every loop over an unchanged
    table. *)
Definition rg_order (m : RgMap) : list string := (map_to_list m).*1.

Section RgManager.
Context `{RocksDB DB} `{Crc32c}.

Definition encode_rg (g : ReplicationGroup) : string := Serializer_Encode RG_codec g.

(** The batched [MultiPut] loop: [limit] entries a batch, the rest at the
    end. *)
Fixpoint multi_put_loop (limit : nat) (db : DB) (entries kvs : list KV) : bool * DB :=
  match entries with
  | [] =>
      match kvs with
      | [] => (true, db)
      | _ => let '(status, db) := RocksStore_MultiPut db kvs in (RocksStatus_ok status, db)
      end
  | kv :: entries' =>
      let kvs := (kvs ++ [kv])%list in
      if Nat.eqb (length kvs) limit then
        let '(status, db) := RocksStore_MultiPut db kvs in
        if negb (RocksStatus_ok status) then (false, db)
        else multi_put_loop limit db entries' []
      else multi_put_loop limit db entries' kvs
  end.

(** The loop of [build_heap] over the groups. *)
Fixpoint build_heap_loop (rgs : RgMap) (order : list string) (es_rgs : gmap Z EsRg) (heap : list Z)
  : option (gmap Z EsRg * list Z) :=
  match order with
  | [] => Some (es_rgs, heap)
  | key :: order' =>
      g ← rgs !! key;
      primary ← head (rg_extent_servers_ g);
      match es_rgs !! primary with
      | Some er =>
          q ← pq_push (RGCmp rgs) (er_heap er) key;
          let er := mkEsRg (er_id er) (er_weight er + 1) (wrap64 (er_nr_extents er + rg_nr_extents_ g)) q in
          build_heap_loop rgs order' (<[primary := er]> es_rgs) heap
      | None =>
          q ← pq_push (RGCmp rgs) [] key;
          let er := mkEsRg primary 1 (wrap64 (0 + rg_nr_extents_ g)) q in
          let es_rgs := <[primary := er]> es_rgs in
          heap ← pq_push (EsRgCmp es_rgs) heap primary;
          build_heap_loop rgs order' es_rgs heap
      end
  end.

(** [es_rg_map] is a local of [build_heap]; the queue is a member, empty when
    [build_heap] is called: by [init], which succeeds once, and by recovery,
    on a new manager. *)
Definition build_heap (m : RgManager) : option RgManager :=
  '(es_rgs, heap) ← build_heap_loop (rg_map_ m) (rg_order (rg_map_ m)) ∅ (es_rg_heap_ m);
  Some (mkRgManager (rg_map_ m) es_rgs heap).

(** ** Placing the groups *)

Section Init.
Context `{RGAllocater A}.

Fixpoint assign_primaries (ess : EsManager) (a : A) (rgs : RgMap) (order : list string)
  : option (EsManager * A * RgMap) :=
  match order with
  | [] => Some (ess, a, rgs)
  | key :: order' =>
      '(id, ess, a) ← ra_select_primary ess a;
      assign_primaries ess a (alter (add_server id) key rgs) order'
  end.

(** One round over the groups; [false] is the early return. *)
Fixpoint assign_secondaries (ess : EsManager) (a : A) (rgs : RgMap) (order : list string)
  : option (bool * EsManager * A * RgMap) :=
  match order with
  | [] => Some (true, ess, a, rgs)
  | key :: order' =>
      g ← rgs !! key;
      '(es, ess, a) ← ra_select_secondary ess a (rg_extent_servers_ g);
      match es with
      | None => Some (false, ess, a, rgs)
      | Some id => assign_secondaries ess a (alter (add_server id) key rgs) order'
      end
  end.

Fixpoint secondary_rounds (rounds : nat) (ess : EsManager) (a : A) (rgs : RgMap) (order : list string)
  : option (bool * EsManager * A * RgMap) :=
  match rounds with
  | O => Some (true, ess, a, rgs)
  | S rounds' =>
      '(go, ess, a, rgs) ← assign_secondaries ess a rgs order;
      if negb go then Some (false, ess, a, rgs) else secondary_rounds rounds' ess a rgs order
  end.

(** [pool_id + "." + std::to_string(i)] for [i] below [n]. *)
Definition rg_ids (pool_id : string) (n : Z) : list string :=
  map (fun i => pool_id +:+ "." +:+ dec (Z.of_nat i)) (seq 0 (Z.to_nat n)).

(** [init] once the allocator has been chosen. *)
Definition init_with (rg_per_es extent_size : Z) (now : string) (db : DB) (m : RgManager)
  (ess : EsManager) (pool_id : string) (replica_count : Z) (ids : list Z)
  : option (Status * DB * RgManager * EsManager) :=
  '(status, ess, a) ← ra_init ess (ra_new (A := A)) ids extent_size;
  if negb (ok status) then Some (status, db, m, ess)
  else
    let rg_total := to_int (wrap64 (rg_per_es * Z.of_nat (length ids))) in
    let rgs := foldl (fun rgs id => <[id := RG_new now id pool_id]> rgs) (rg_map_ m)
                 (rg_ids pool_id rg_total) in
    let order := rg_order rgs in
    '(ess, a, rgs) ← assign_primaries ess a rgs order;
    '(go, ess, a, rgs) ← secondary_rounds (Z.to_nat (replica_count - 1)) ess a rgs order;
    let m := mkRgManager rgs (es_rgs_ m) (es_rg_heap_ m) in
    if negb go then Some (mkStatus CYPRE_EM_RG_ALLOCATE_FAIL "", db, m, ess)
    else
      let kvs := map (fun g => (RG_kv_key g, encode_rg g)) (map_to_list rgs).*2 in
      let '(stored, db) := multi_put_loop 50 db kvs [] in
      if negb stored
      then Some (mkStatus CYPRE_EM_STORE_ERROR "persist replication meta failed", db, m, ess)
      else m ← build_heap m; Some (Status_default, db, m, ess).
End Init.

Definition RgManager_init (rg_per_es extent_size : Z) (now : string) (db : DB) (m : RgManager)
  (ess : EsManager) (pool_id : string) (replica_count fd : Z) (ids : list Z)
  : option (Status * DB * RgManager * EsManager) :=
  if fd =? kFailureDomainRack
  then init_with (A := RGAllocaterByRack) rg_per_es extent_size now db m ess pool_id replica_count ids
  else if fd =? kFailureDomainHost
  then init_with (A := RGAllocaterByHost) rg_per_es extent_size now db m ess pool_id replica_count ids
  else if fd =? kFailureDomainNode
  then init_with (A := RGAllocaterByEs) rg_per_es extent_size now db m ess pool_id replica_count ids
  else Some (mkStatus CYPRE_ER_INVALID_ARGUMENT "failuredomain not defined", db, m, ess).

(** ** Choosing a group for an extent *)

(** [used / capacity] is a quotient of integers; the largest is compared with
    [kRatioNearfull = 0.85]. *)
Fixpoint nearfull_loop (ess : EsManager) (ids vec : list Z) (ratio : Z) : option Z :=
  match vec with
  | [] => Some ratio
  | v :: vec' =>
      if decide (v ∈ ids) then
        es ← ess !! v;
        tmp ← udiv (es_used_ es) (es_capacity_ es);
        nearfull_loop ess ids vec' (if ratio <? tmp then tmp else ratio)
      else None
  end.

Definition nearfull (rgs : RgMap) (ess : EsManager) (ids : list Z) (rg_id : string) : option bool :=
  g ← rgs !! rg_id;
  ratio ← nearfull_loop ess ids (rg_extent_servers_ g) 0;
  Some (85 <? 100 * ratio).

(** The outer loop of [allocate_rg]: [cur] is [es_rg], [tmp] is [es_rg_tmp].
    Results: the groups, the per-server objects and queue, the skipped
    servers, the chosen server and group. *)
Fixpoint allocate_rg_loop (fuel : nat) (ess : EsManager) (ids : list Z) (rgs : RgMap)
  (es_rgs : gmap Z EsRg) (heap : list Z) (cur : option Z) (tmp : list Z)
  : option (RgMap * gmap Z EsRg * list Z * list Z * option (Z * string)) :=
  match fuel with
  | O => None
  | S fuel' =>
      es ← cur;
      er ← es_rgs !! es;
      '(q, rg, rg_tmp, found) ←
        skip_loop (RGCmp rgs) (S (length (er_heap er))) (nearfull rgs ess ids) (er_heap er)
          (pq_top (er_heap er)) [];
      q ← restore (RGCmp rgs) q rg_tmp;
      if found : bool then
        key ← rg;
        g ← rgs !! key;
        let rgs := <[key := set_nr_extents g (wrap64 (rg_nr_extents_ g + 1))]> rgs in
        q ← requeue (RGCmp rgs) q key;
        let er := mkEsRg (er_id er) (er_weight er) (wrap64 (er_nr_extents er + 1)) q in
        Some (rgs, <[es := er]> es_rgs, heap, tmp, Some (es, key))
      else
        let es_rgs := <[es := mkEsRg (er_id er) (er_weight er) (er_nr_extents er) q]> es_rgs in
        let tmp := (tmp ++ [es])%list in
        heap ← pq_pop (EsRgCmp es_rgs) heap;
        let cur := pq_top heap in
        if Nat.eqb (length heap) 0 then Some (rgs, es_rgs, heap, tmp, None)
        else allocate_rg_loop fuel' ess ids rgs es_rgs heap cur tmp
  end.

(** The empty string when no group has room. *)
Definition allocate_rg (m : RgManager) (ess : EsManager) (ids : list Z) : option (string * RgManager) :=
  '(rgs, es_rgs, heap, tmp, res) ←
    allocate_rg_loop (S (length (es_rg_heap_ m))) ess ids (rg_map_ m) (es_rgs_ m) (es_rg_heap_ m)
      (pq_top (es_rg_heap_ m)) [];
  heap ← restore (EsRgCmp es_rgs) heap tmp;
  match res with
  | Some (es, key) =>
      g ← rgs !! key;
      heap ← requeue (EsRgCmp es_rgs) heap es;
      Some (rg_id_ g, mkRgManager rgs es_rgs heap)
  | None => Some ("", mkRgManager rgs es_rgs heap)
  end.

(** The first loop of [allocate_rgs]; the vector of ids is appended to. *)
Fixpoint allocate_rgs_loop (n : nat) (m : RgManager) (ess : EsManager) (ids : list Z)
  (rgs : gset string) (rg_ids : list string) : option (bool * RgManager * gset string * list string) :=
  match n with
  | O => Some (true, m, rgs, rg_ids)
  | S n' =>
      '(id, m) ← allocate_rg m ess ids;
      if negb (String.eqb id "")
      then allocate_rgs_loop n' m ess ids ({[id]} ∪ rgs) (rg_ids ++ [id])%list
      else Some (false, m, rgs, rg_ids)
  end.

Definition allocate_rgs (db : DB) (m : RgManager) (extent_num : Z) (ess : EsManager) (ids : list Z)
  (rg_ids : list string) : option (Status * DB * RgManager * list string) :=
  '(go, m, rgs, rg_ids) ← allocate_rgs_loop (Z.to_nat extent_num) m ess ids ∅ rg_ids;
  if negb go
  then Some (mkStatus CYPRE_EM_RG_ALLOCATE_FAIL "resource is not enough.", db, m, rg_ids)
  else
    kvs ← mapM (fun id => g ← rg_map_ m !! id; Some (RG_kv_key g, encode_rg g)) (elements rgs);
    let kvs := merge_sort key_le kvs in
    let '(stored, db) := multi_put_loop 100 db kvs [] in
    if negb stored
    then Some (mkStatus CYPRE_EM_STORE_ERROR "persist replication meta failed", db, m, rg_ids)
    else Some (Status_default, db, m, rg_ids).

(** ** Queries, removal and recovery *)

Definition query_rg (extent_size : Z) (m : RgManager) (rg_id : string) : Status * option PbReplicaGroup :=
  match rg_map_ m !! rg_id with
  | None => (mkStatus CYPRE_EM_RG_NOT_FOUND "not found rg", None)
  | Some g => (Status_default, Some (ToPbReplicationGroup extent_size g))
  end.

(** Dereferences the iterator without a test. *)
Definition query_es_group (m : RgManager) (rg_id : string) : option (list Z) :=
  rg_extent_servers_ <$> rg_map_ m !! rg_id.

Definition delete_all_rg (db : DB) (m : RgManager) : Status * DB * RgManager :=
  let db := foldl (fun db (p : string * ReplicationGroup) => (RocksStore_Delete db (RG_kv_key p.2)).2)
              db (map_to_list (rg_map_ m)) in
  (Status_default, db, mkRgManager ∅ (es_rgs_ m) []).

Definition total_nr_extents (m : RgManager) : Z :=
  foldl (fun all_nr (p : string * ReplicationGroup) => wrap64 (all_nr + rg_nr_extents_ p.2)) 0
    (map_to_list (rg_map_ m)).

Definition list_rg (extent_size : Z) (m : RgManager) (rgs : list PbReplicaGroup)
  : Status * list PbReplicaGroup :=
  (Status_default,
   rgs ++ map (fun p => ToPbReplicationGroup extent_size p.2) (map_to_list (rg_map_ m)))%list.

(** The table is recovered even when a record does not decode, up to it; the
    queues are built only if all did. *)
Definition RgManager_recovery_from_store (db : DB) (m : RgManager) (pool_id : string)
  : option (bool * RgManager) :=
  '(success, rgs) ← recover RG_codec rg_id_ db (kRGKvPrefix +:+ "_" +:+ pool_id) (rg_map_ m);
  let m := mkRgManager rgs (es_rgs_ m) (es_rg_heap_ m) in
  if negb success then Some (false, m)
  else m ← build_heap m; Some (true, m).
End RgManager.
