(* ===== verification/RgTheorems.v ===== *)
(** * Replication groups are placed correctly

    [RgManager::init] gives every group as many servers as the pool has
    replicas, no two of them in one failure domain; [allocate_rgs] charges
    each new extent to one existing group. *)

From stdpp Require Import sorting.
From S2P Require Import Prelude Status Codec KvStore Persist Enums Net Heap EsMgr RgAllocater Placement PlacementRack RgMgr.

#[local] Open Scope string_scope.
#[local] Open Scope Z_scope.

(** ** The ids of the groups *)

Lemma rg_ids_nodup pool_id n : NoDup (rg_ids pool_id n).
Proof.
  unfold rg_ids. apply NoDup_fmap_2; [|apply NoDup_seq].
  intros i j E. unfold dec in E. simplify_eq. lia.
Qed.

Lemma rg_ids_elem pool_id n key :
  key ∈ rg_ids pool_id n <-> exists i, 0 <= i < n /\ key = pool_id +:+ "." +:+ dec i.
Proof.
  unfold rg_ids. rewrite list_elem_of_fmap. setoid_rewrite elem_of_seq. split.
  - intros (i & -> & Hi). exists (Z.of_nat i). split; [lia|done].
  - intros (i & Hi & ->). exists (Z.to_nat i). rewrite Z2Nat.id by lia. split; [done|lia].
Qed.

Lemma rg_order_elem (m : RgMap) key : key ∈ rg_order m <-> is_Some (m !! key).
Proof.
  unfold rg_order. rewrite list_elem_of_fmap. split.
  - intros ([k g] & -> & Hg%elem_of_map_to_list). cbn. by exists g.
  - intros [g Hg]. exists (key, g). split; [done|]. by apply elem_of_map_to_list.
Qed.

Lemma rg_order_nodup (m : RgMap) : NoDup (rg_order m).
Proof. apply NoDup_fst_map_to_list. Qed.

(** The new groups replace the table. *)
Lemma new_groups now pool_id (l : list string) (m : RgMap) key :
  foldl (fun rgs id => <[id := RG_new now id pool_id]> rgs) m l !! key =
  if decide (key ∈ l) then Some (RG_new now key pool_id) else m !! key.
Proof.
  revert m. induction l as [|x l IH]; intros m; cbn; [done|]. rewrite IH.
  destruct (decide (key ∈ l)) as [Hin|Hni].
  - rewrite decide_True by (by right). done.
  - destruct (decide (key = x)) as [->|Hne].
    + rewrite decide_True by left. by rewrite lookup_insert_eq.
    + rewrite decide_False by (rewrite elem_of_cons; tauto). by rewrite lookup_insert_ne.
Qed.

(** ** Placement, for any allocator that meets the contract *)

Section Placement.
Context `{RGAllocaterLaws A}.
Context (ess0 : EsManager) (ids : list Z).

(** [j] servers of the pool in distinct failure domains. *)
Definition placed_ok (j : nat) (g : ReplicationGroup) : Prop :=
  length (rg_extent_servers_ g) = j /\ rg_extent_servers_ g ⊆ ids /\
  NoDup (domain_of ess0 <$> rg_extent_servers_ g).

(** All servers of the pool are in the failure domains of fewer than [n]. *)
Definition too_few_domains (n : nat) : Prop :=
  exists group, (length group < n)%nat /\
    forall id, id ∈ ids -> exists s, s ∈ group /\ domain_of ess0 s = domain_of ess0 id.

Lemma placed_add j g id ess :
  es_same ess0 ess -> placed_ok j g -> id ∈ ids ->
  (forall s, s ∈ rg_extent_servers_ g -> domain_of ess s <> domain_of ess id) ->
  placed_ok (S j) (add_server id g).
Proof.
  intros Hs (Hl & Hsub & Hnd) Hid Hdiff. unfold placed_ok, add_server; cbn. split_and!.
  - rewrite length_app. cbn. lia.
  - intros x [Hx|Hx%list_elem_of_singleton]%elem_of_app; [by apply Hsub|by subst].
  - rewrite fmap_app. cbn. apply NoDup_app. split; [done|]. split; [|apply NoDup_singleton].
    intros d (s & -> & Hin)%list_elem_of_fmap Hd%list_elem_of_singleton.
    apply (Hdiff s Hin). rewrite <- !(domain_of_same ess0 ess) by done. done.
Qed.

Lemma assign_primaries_spec order n ess a rgs :
  ra_wf n ess a ids -> es_same ess0 ess -> n + Z.of_nat (length order) <= max_count -> NoDup order ->
  (forall key, key ∈ order -> exists g, rgs !! key = Some g /\ rg_extent_servers_ g = []) ->
  exists ess' a' rgs', assign_primaries ess a rgs order = Some (ess', a', rgs') /\ es_same ess0 ess' /\
    ra_wf (n + Z.of_nat (length order)) ess' a' ids /\
    (forall key, key ∉ order -> rgs' !! key = rgs !! key) /\
    (forall key, key ∈ order -> exists g, rgs' !! key = Some g /\ placed_ok 1 g).
Proof.
  revert n ess a rgs. induction order as [|key order IH]; intros n ess a rgs Hwf Hs Hn Hnd Hrgs.
  { exists ess, a, rgs. cbn. rewrite Z.add_0_r. split_and!; try done. by intros ? ?%elem_of_nil. }
  apply NoDup_cons in Hnd as [Hni Hnd]. cbn [length] in *. cbn [assign_primaries].
  destruct (ra_primary_law n ess a ids Hwf) as (id & ess1 & a1 & -> & Hid & Hs1 & Hwf1); [lia|].
  cbn [mbind option_bind].
  destruct (IH (n + 1) ess1 a1 (alter (add_server id) key rgs)) as (ess' & a' & rgs' & -> & Hs' & Hwf' & Hout & Hin);
    [done|by etransitivity|lia|done| |].
  { intros k Hk. rewrite lookup_alter_ne by (by intros ->). apply Hrgs. by right. }
  exists ess', a', rgs'. split_and!; [done|done| | |].
  - by replace (n + Z.of_nat (S (length order))) with (n + 1 + Z.of_nat (length order)) by lia.
  - intros k Hk. rewrite Hout by (intros ?; apply Hk; by right). apply lookup_alter_ne.
    intros ->. apply Hk. left.
  - intros k [->|Hk]%elem_of_cons; [|by apply Hin].
    destruct (Hrgs key) as (g & Hg & Hempty); [left|]. rewrite Hout by done.
    exists (add_server id g). rewrite lookup_alter_eq, Hg. split; [done|].
    unfold placed_ok, add_server; cbn. rewrite Hempty. cbn. split_and!; [done| |apply NoDup_singleton].
    by intros x ->%list_elem_of_singleton.
Qed.

Lemma assign_secondaries_spec j order n ess a rgs :
  ra_wf n ess a ids -> es_same ess0 ess -> n + Z.of_nat (length order) <= max_count -> NoDup order ->
  (forall key, key ∈ order -> exists g, rgs !! key = Some g /\ placed_ok j g) ->
  exists go ess' a' rgs', assign_secondaries ess a rgs order = Some (go, ess', a', rgs') /\
    if go : bool
    then es_same ess0 ess' /\ ra_wf (n + Z.of_nat (length order)) ess' a' ids /\
      (forall key, key ∉ order -> rgs' !! key = rgs !! key) /\
      (forall key, key ∈ order -> exists g, rgs' !! key = Some g /\ placed_ok (S j) g)
    else too_few_domains (S j).
Proof.
  revert n ess a rgs. induction order as [|key order IH]; intros n ess a rgs Hwf Hs Hn Hnd Hrgs.
  { exists true, ess, a, rgs. cbn. rewrite Z.add_0_r. split_and!; try done. by intros ? ?%elem_of_nil. }
  apply NoDup_cons in Hnd as [Hni Hnd]. cbn [length] in *. cbn [assign_secondaries].
  destruct (Hrgs key) as (g & Hg & Hp); [left|]. rewrite Hg. cbn [mbind option_bind].
  destruct (ra_secondary_law n ess a ids (rg_extent_servers_ g) Hwf)
    as (r & ess1 & a1 & -> & Hs1 & Hwf1 & Hr); [lia|apply Hp|]. cbn [mbind option_bind].
  destruct r as [id|].
  2: { exists false, ess1, a1, rgs. split; [done|]. exists (rg_extent_servers_ g).
       split; [destruct Hp as [-> _]; lia|]. intros id Hid. destruct (Hr id Hid) as (s & Hin & Hd).
       exists s. split; [done|]. by rewrite !(domain_of_same ess0 ess). }
  destruct Hr as [Hid Hdiff].
  destruct (IH (n + 1) ess1 a1 (alter (add_server id) key rgs)) as (go & ess' & a' & rgs' & -> & Hgo);
    [done|by etransitivity|lia|done| |].
  { intros k Hk. rewrite lookup_alter_ne by (by intros ->). apply Hrgs. by right. }
  exists go, ess', a', rgs'. split; [done|]. destruct go; [|done].
  destruct Hgo as (Hs' & Hwf' & Hout & Hin). split_and!; [done| | |].
  - by replace (n + Z.of_nat (S (length order))) with (n + 1 + Z.of_nat (length order)) by lia.
  - intros k Hk. rewrite Hout by (intros ?; apply Hk; by right). apply lookup_alter_ne.
    intros ->. apply Hk. left.
  - intros k [->|Hk]%elem_of_cons; [|by apply Hin]. rewrite Hout by done.
    exists (add_server id g). rewrite lookup_alter_eq, Hg. split; [done|]. eapply placed_add; [exact Hs|exact Hp|exact Hid|exact Hdiff].
Qed.

Lemma secondary_rounds_spec rounds j order n ess a rgs :
  ra_wf n ess a ids -> es_same ess0 ess ->
  n + Z.of_nat rounds * Z.of_nat (length order) <= max_count -> NoDup order ->
  (forall key, key ∈ order <-> is_Some (rgs !! key)) ->
  map_Forall (fun _ => placed_ok j) rgs ->
  exists go ess' a' rgs', secondary_rounds rounds ess a rgs order = Some (go, ess', a', rgs') /\
    if go : bool
    then es_same ess0 ess' /\ (forall key, key ∈ order <-> is_Some (rgs' !! key)) /\
      map_Forall (fun _ => placed_ok (rounds + j)) rgs'
    else too_few_domains (rounds + j).
Proof.
  revert j n ess a rgs. induction rounds as [|rounds IH]; intros j n ess a rgs Hwf Hs Hn Hnd Hdom Hrgs.
  { exists true, ess, a, rgs. done. }
  cbn [secondary_rounds].
  destruct (assign_secondaries_spec j order n ess a rgs) as (go & ess1 & a1 & rgs1 & -> & Hgo); [done|done|lia|done| |].
  { intros key Hk. apply Hdom in Hk as [g Hg]. exists g. split; [done|]. exact (map_Forall_lookup_1 _ _ _ _ Hrgs Hg). }
  cbn [mbind option_bind]. destruct go; cbn [negb].
  2: { exists false, ess1, a1, rgs1. split; [done|]. destruct Hgo as (group & Hl & Hc). exists group. split; [lia|done]. }
  destruct Hgo as (Hs1 & Hwf1 & Hout & Hin).
  assert (Hdom1 : forall key, key ∈ order <-> is_Some (rgs1 !! key)).
  { intros key. split; [intros Hk; destruct (Hin key Hk) as (g & -> & _); eauto|].
    intros Hk. destruct (decide (key ∈ order)) as [|Hni]; [done|]. rewrite Hout in Hk by done. by apply Hdom. }
  destruct (IH (S j) (n + Z.of_nat (length order)) ess1 a1 rgs1) as (go & ess' & a' & rgs' & -> & Hgo);
    [done|done|nia|done|done| |].
  { intros key g Hg. destruct (Hin key) as (g' & Hg' & Hp); [apply Hdom1; eauto|]. by simplify_eq. }
  replace (rounds + S j)%nat with (S rounds + j)%nat in Hgo by lia. eauto 10.
Qed.
End Placement.

(** ** The queues *)

Definition queue_ok (rgs : RgMap) (er : EsRg) : Prop :=
  0 < er_weight er < 18446744073709551616 /\ er_heap er <> [] /\
  Forall (fun key => is_Some (rgs !! key)) (er_heap er).

Definition has_queue (rgs : RgMap) (es_rgs : gmap Z EsRg) (p : Z) : Prop :=
  exists er, es_rgs !! p = Some er /\ queue_ok rgs er.

Lemma RGCmp_total rgs x y : is_Some (rgs !! x) -> is_Some (rgs !! y) -> is_Some (RGCmp rgs x y).
Proof. intros [? Hx] [? Hy]. unfold RGCmp. rewrite Hx, Hy. cbn. eauto. Qed.

Lemma EsRgCmp_total rgs es_rgs x y :
  has_queue rgs es_rgs x -> has_queue rgs es_rgs y -> is_Some (EsRgCmp es_rgs x y).
Proof.
  intros (ex & Hx & (Hwx & _)) (ey & Hy & (Hwy & _)). unfold EsRgCmp, udiv. rewrite Hx, Hy.
  cbn -[wrap64]. rewrite !(wrap64_small (er_weight _)) by (unfold is_u64, u64_max; lia).
  destruct (Z.eqb_spec (er_weight ex) 0), (Z.eqb_spec (er_weight ey) 0); try lia. cbn. eauto.
Qed.

(** The queues after [k] groups. *)
Definition queues_inv (rgs : RgMap) (k : Z) (es_rgs : gmap Z EsRg) (heap : list Z) : Prop :=
  map_Forall (fun _ er => queue_ok rgs er /\ er_weight er <= k) es_rgs /\
  (forall p, p ∈ heap <-> is_Some (es_rgs !! p)).

Lemma build_heap_round rgs k es_rgs heap key g primary order :
  queues_inv rgs k es_rgs heap -> 0 <= k < 18446744073709551615 ->
  rgs !! key = Some g -> head (rg_extent_servers_ g) = Some primary ->
  exists es_rgs' heap',
    build_heap_loop rgs (key :: order) es_rgs heap = build_heap_loop rgs order es_rgs' heap' /\
    queues_inv rgs (k + 1) es_rgs' heap' /\ is_Some (es_rgs' !! primary).
Proof.
  intros [Hq Hh] Hk Hg Hp. cbn [build_heap_loop]. rewrite Hg. cbn [mbind option_bind].
  rewrite Hp. cbn [mbind option_bind].
  assert (Hkey : is_Some (rgs !! key)) by eauto.
  destruct (es_rgs !! primary) as [er|] eqn:Ee.
  - destruct (map_Forall_lookup_1 _ _ _ _ Hq Ee) as [(Hw & Hne & Hf) Hle].
    destruct (pq_push_total (RGCmp rgs) (fun x => is_Some (rgs !! x)) (RGCmp_total rgs) (er_heap er) key Hf Hkey) as [q Eq].
    rewrite Eq. cbn [mbind option_bind]. apply pq_push_perm in Eq. do 2 eexists. split; [done|]. split; [split|].
    + apply map_Forall_insert_2; [|eapply map_Forall_impl; [exact Hq|]; intros ? ? [? ?]; split; [done|lia]].
      split; [split_and!; cbn; [lia|lia|by intros ->; apply Permutation_nil_l in Eq|rewrite Eq; by constructor]|cbn; lia].
    + intros p. rewrite Hh. destruct (decide (p = primary)) as [->|]; [rewrite lookup_insert_eq, Ee; naive_solver|].
      by rewrite lookup_insert_ne.
    + rewrite lookup_insert_eq. eauto.
  - destruct (pq_push_total (RGCmp rgs) (fun x => is_Some (rgs !! x)) (RGCmp_total rgs) [] key) as [q Eq]; [constructor|done|].
    rewrite Eq. cbn [mbind option_bind]. apply pq_push_perm in Eq.
    set (er := mkEsRg primary 1 _ q). set (es_rgs1 := <[primary := er]> es_rgs).
    assert (Hq1 : map_Forall (fun _ er => queue_ok rgs er /\ er_weight er <= k + 1) es_rgs1).
    { apply map_Forall_insert_2; [|eapply map_Forall_impl; [exact Hq|]; intros ? ? [? ?]; split; [done|lia]].
      split; [split_and!; cbn; [lia|lia|by intros ->; apply Permutation_nil_l in Eq|rewrite Eq; by repeat constructor]|cbn; lia]. }
    assert (Hs1 : forall p, p ∈ primary :: heap <-> is_Some (es_rgs1 !! p)).
    { intros p. rewrite elem_of_cons, Hh. unfold es_rgs1.
      destruct (decide (p = primary)) as [->|]; [rewrite lookup_insert_eq; naive_solver|].
      rewrite lookup_insert_ne by done. naive_solver. }
    assert (Hall : forall p, p ∈ primary :: heap -> has_queue rgs es_rgs1 p).
    { intros p [e He]%Hs1. exists e. split; [done|]. by destruct (map_Forall_lookup_1 _ _ _ _ Hq1 He). }
    destruct (pq_push_total (EsRgCmp es_rgs1) (has_queue rgs es_rgs1) (EsRgCmp_total rgs es_rgs1) heap primary)
      as [heap' Eh]; [apply Forall_forall; intros; apply Hall; by right|apply Hall; left|].
    rewrite Eh. cbn [mbind option_bind]. apply pq_push_perm in Eh. do 2 eexists. split; [done|].
    split; [split; [done|]|apply Hs1; left]. intros p. by rewrite Eh.
Qed.

Lemma build_heap_loop_spec rgs order k es_rgs heap :
  queues_inv rgs k es_rgs heap -> 0 <= k -> k + Z.of_nat (length order) < 18446744073709551616 ->
  (forall key, key ∈ order -> exists g p, rgs !! key = Some g /\ head (rg_extent_servers_ g) = Some p) ->
  exists es_rgs' heap', build_heap_loop rgs order es_rgs heap = Some (es_rgs', heap') /\
    queues_inv rgs (k + Z.of_nat (length order)) es_rgs' heap' /\ (order <> [] \/ heap <> [] -> heap' <> []).
Proof.
  revert k es_rgs heap. induction order as [|key order IH]; intros k es_rgs heap Hinv Hk Hlen Hkeys.
  { exists es_rgs, heap. cbn [length]. replace (k + Z.of_nat 0) with k by lia. split_and!; try done. by intros [|]. }
  cbn [length] in Hlen. destruct (Hkeys key) as (g & p & Hg & Hp); [left|].
  destruct (build_heap_round rgs k es_rgs heap key g p order) as (es_rgs1 & heap1 & -> & Hinv1 & Hsome); [done|lia|done|done|].
  destruct (IH (k + 1) es_rgs1 heap1 Hinv1) as (es_rgs' & heap' & -> & Hinv' & Hne); [lia|lia|intros; apply Hkeys; by right|].
  exists es_rgs', heap'. split; [done|]. split.
  - cbn [length]. by replace (k + Z.of_nat (S (length order))) with (k + 1 + Z.of_nat (length order)) by lia.
  - intros _. apply Hne. right. intros ->. apply Hinv1 in Hsome. by apply elem_of_nil in Hsome.
Qed.

(** A manager that can hand out groups. *)
Definition mgr_wf (m : RgManager) : Prop :=
  es_rg_heap_ m <> [] /\ Forall (has_queue (rg_map_ m) (es_rgs_ m)) (es_rg_heap_ m) /\
  map_Forall (fun key g => rg_id_ g = key /\ key <> "") (rg_map_ m).

Lemma build_heap_spec m :
  es_rg_heap_ m = [] -> rg_map_ m <> ∅ -> Z.of_nat (size (rg_map_ m)) < 18446744073709551616 ->
  map_Forall (fun key g => rg_id_ g = key /\ key <> "" /\ rg_extent_servers_ g <> []) (rg_map_ m) ->
  exists m', build_heap m = Some m' /\ rg_map_ m' = rg_map_ m /\ mgr_wf m'.
Proof.
  intros He Hne Hsz Hg. unfold build_heap. rewrite He.
  assert (Hlen : length (rg_order (rg_map_ m)) = size (rg_map_ m))
    by (unfold rg_order; by rewrite length_fmap, length_map_to_list).
  destruct (build_heap_loop_spec (rg_map_ m) (rg_order (rg_map_ m)) 0 ∅ [])
    as (es_rgs & heap & -> & [Hq Hh] & Hne').
  - split; [apply map_Forall_empty|]. intros p. rewrite lookup_empty. split; [by intros ?%elem_of_nil|by intros []].
  - lia.
  - rewrite Hlen. lia.
  - intros key [g Hk]%rg_order_elem. destruct (map_Forall_lookup_1 _ _ _ _ Hg Hk) as (_ & _ & Hs).
    destruct (rg_extent_servers_ g) as [|p l] eqn:Es; [done|]. exists g, p. by rewrite Es.
  - cbn [mbind option_bind]. eexists. split; [done|]. split; [done|]. split_and!; cbn.
    + apply Hne'. left. intros Hnil. apply Hne. apply map_eq. intros i. rewrite lookup_empty.
      destruct (rg_map_ m !! i) eqn:Ei; [|done]. exfalso.
      assert (i ∈ rg_order (rg_map_ m)) by (apply rg_order_elem; eauto). rewrite Hnil in *. by eapply elem_of_nil.
    + apply Forall_forall. intros p Hp. apply Hh in Hp as [er Her]. exists er. split; [done|].
      by destruct (map_Forall_lookup_1 _ _ _ _ Hq Her).
    + eapply map_Forall_impl; [exact Hg|]. naive_solver.
Qed.

(** ** Batched writes *)

Lemma multi_put_loop_view `{RocksDBLaws DB} limit (db : DB) entries kvs db' :
  multi_put_loop limit db entries kvs = (true, db') ->
  rdb_view db' = foldl (fun m kv => <[kv.1 := kv.2]> m) (rdb_view db) (kvs ++ entries)%list.
Proof.
  revert db kvs. induction entries as [|kv entries IH]; intros db kvs; cbn [multi_put_loop].
  - rewrite app_nil_r. destruct kvs as [|kv kvs]; [by intros [= <-]|].
    destruct (RocksStore_MultiPut db (kv :: kvs)) as [st d] eqn:E. intros [= Hok <-].
    apply multiput_view in E. by rewrite Hok in E.
  - destruct (Nat.eqb (length (kvs ++ [kv])%list) limit).
    + destruct (RocksStore_MultiPut db (kvs ++ [kv])%list) as [st d] eqn:E. apply multiput_view in E.
      destruct (RocksStatus_ok st); cbn [negb]; [|done]. intros E'%IH. rewrite E', E.
      replace (kvs ++ kv :: entries)%list with ((kvs ++ [kv]) ++ entries)%list by (by rewrite <- app_assoc).
      by rewrite (foldl_app _ (kvs ++ [kv])%list).
    + intros E%IH. rewrite E. by rewrite <- app_assoc.
Qed.

Lemma foldl_insert_lookup (kvs : list KV) (v : gmap string string) k x :
  NoDup kvs.*1 -> (k, x) ∈ kvs -> foldl (fun m kv => <[kv.1 := kv.2]> m) v kvs !! k = Some x.
Proof.
  assert (Hout : forall l (w : gmap string string), k ∉ l.*1 ->
    foldl (fun m (kv : KV) => <[kv.1 := kv.2]> m) w l !! k = w !! k).
  { induction l as [|[k' x'] l IH]; intros w Hn; cbn in *; [done|].
    rewrite IH by (intros ?; apply Hn; by right). apply lookup_insert_ne. intros ->. apply Hn. left. }
  revert v. induction kvs as [|[k' x'] kvs IH]; intros v Hnd Hin; cbn in *; [by apply elem_of_nil in Hin|].
  apply NoDup_cons in Hnd as [Hni Hnd]. apply elem_of_cons in Hin as [[= <- <-]|Hin]; [|by apply IH].
  rewrite Hout by done. apply lookup_insert_eq.
Qed.

Lemma RG_kv_key_inj g1 g2 :
  rg_pool_id_ g1 = rg_pool_id_ g2 -> RG_kv_key g1 = RG_kv_key g2 -> rg_id_ g1 = rg_id_ g2.
Proof. unfold RG_kv_key. intros -> E. by simplify_eq. Qed.

(** All groups of a table, written under their keys. *)
Lemma groups_stored `{RocksDBLaws DB} `{Crc32c} limit (db : DB) (rgs : RgMap) pool_id db' key g :
  map_Forall (fun key g => rg_id_ g = key /\ rg_pool_id_ g = pool_id) rgs ->
  multi_put_loop limit db (map (fun g => (RG_kv_key g, encode_rg g)) (map_to_list rgs).*2) [] = (true, db') ->
  rgs !! key = Some g -> rdb_view db' !! RG_kv_key g = Some (encode_rg g).
Proof.
  intros Hrgs E%multi_put_loop_view Hg. rewrite E. cbn. apply foldl_insert_lookup.
  - rewrite map_map. cbn. fold (fmap (M := list) snd (map_to_list rgs)).
    assert (Hnd : NoDup (map_to_list rgs)) by apply NoDup_map_to_list.
    assert (Hl : forall p, p ∈ map_to_list rgs -> rgs !! p.1 = Some p.2)
      by (intros [? ?] ?%elem_of_map_to_list; done).
    revert Hnd Hl. generalize (map_to_list rgs). clear E. induction l as [|[k x] l IH]; intros Hnd Hl; cbn; [constructor|].
    apply NoDup_cons in Hnd as [Hni Hnd]. constructor; [|apply IH; [done|]; intros; apply Hl; by right].
    intros (y & Hy & ([k' y'] & -> & Hin)%list_elem_of_fmap)%list_elem_of_fmap. cbn in Hy. apply Hni.
    pose proof (Hl (k, x) ltac:(left)) as Hk1. pose proof (Hl (k', y') ltac:(by right)) as Hk2. cbn in Hk1, Hk2.
    destruct (map_Forall_lookup_1 _ _ _ _ Hrgs Hk1) as [<- Hp1]. destruct (map_Forall_lookup_1 _ _ _ _ Hrgs Hk2) as [<- Hp2].
    assert (rg_id_ x = rg_id_ y') as He by (apply (RG_kv_key_inj x y'); [by rewrite Hp1, Hp2|exact Hy]).
    rewrite He in *. by simplify_eq.
  - apply list_elem_of_fmap. exists g. split; [done|]. apply list_elem_of_fmap. exists (key, g).
    split; [done|]. by apply elem_of_map_to_list.
Qed.

(** ** [init] *)

(** What a call of [init] on a pool's servers is given: sane servers, a
    manager without queues whose groups, if an earlier attempt left any, are
    those about to be made, and few enough selections for the comparators. *)
Record init_ready (n rg_per_es extent_size : Z) (m : RgManager) (ess : EsManager) (pool_id : string)
  (replica_count : Z) (ids : list Z) : Prop := mkInitReady {
  ready_pre : init_pre n ess ids extent_size;
  ready_racks : racks_consistent ess ids;
  ready_per_es : 0 < rg_per_es;
  ready_replicas : 1 <= replica_count;
  ready_bound : n + rg_per_es * Z.of_nat (length ids) * replica_count <= max_count;
  ready_heap : es_rg_heap_ m = [];
  ready_map : forall key, is_Some (rg_map_ m !! key) ->
    key ∈ rg_ids pool_id (rg_per_es * Z.of_nat (length ids))
}.

Section InitTheorem.
Context `{RGAllocaterLaws A} `{RocksDBLaws DB} `{Crc32c}.

(** The fields of a group that placement does not touch. *)
Definition fresh_group (pool_id : string) (key : string) (g : ReplicationGroup) : Prop :=
  rg_id_ g = key /\ rg_pool_id_ g = pool_id.

Lemma alter_fresh pool_id id key (rgs : RgMap) :
  map_Forall (fresh_group pool_id) rgs -> map_Forall (fresh_group pool_id) (alter (add_server id) key rgs).
Proof.
  intros Hf k g. destruct (decide (k = key)) as [->|Hne].
  - rewrite lookup_alter_eq. destruct (rgs !! key) eqn:E; [|done]. cbn. intros [= <-].
    exact (map_Forall_lookup_1 _ _ _ _ Hf E).
  - rewrite lookup_alter_ne by done. apply Hf.
Qed.

Lemma assign_primaries_fresh pool_id order ess (a : A) rgs ess' a' rgs' :
  assign_primaries ess a rgs order = Some (ess', a', rgs') ->
  map_Forall (fresh_group pool_id) rgs -> map_Forall (fresh_group pool_id) rgs'.
Proof.
  revert ess a rgs. induction order as [|key order IH]; intros ess a rgs E Hf; cbn in E; [by simplify_eq|].
  destruct (ra_select_primary ess a) as [[[id ess1] a1]|]; cbn in E; [|done]. eauto using alter_fresh.
Qed.

Lemma secondary_rounds_fresh pool_id rounds order ess (a : A) rgs go ess' a' rgs' :
  secondary_rounds rounds ess a rgs order = Some (go, ess', a', rgs') ->
  map_Forall (fresh_group pool_id) rgs -> map_Forall (fresh_group pool_id) rgs'.
Proof.
  assert (Hone : forall order ess (a : A) rgs go ess' a' rgs',
    assign_secondaries ess a rgs order = Some (go, ess', a', rgs') ->
    map_Forall (fresh_group pool_id) rgs -> map_Forall (fresh_group pool_id) rgs').
  { clear. induction order as [|key order IH]; intros ess a rgs go ess' a' rgs' E Hf; cbn in E; [by simplify_eq|].
    destruct (rgs !! key) as [g|]; cbn in E; [|done].
    destruct (ra_select_secondary ess a _) as [[[[id|] ess1] a1]|]; cbn in E; [..|done].
    - eauto using alter_fresh.
    - by simplify_eq. }
  revert ess a rgs. induction rounds as [|rounds IH]; intros ess a rgs E Hf; cbn in E; [by simplify_eq|].
  destruct (assign_secondaries ess a rgs order) as [[[[go1 ess1] a1] rgs1]|] eqn:E1; cbn in E; [|done].
  destruct go1; cbn in E; simplify_eq; eauto.
Qed.

Lemma new_table_spec now pool_id total (m : RgMap) :
  0 < total -> (forall key, is_Some (m !! key) -> key ∈ rg_ids pool_id total) ->
  let rgs := foldl (fun rgs id => <[id := RG_new now id pool_id]> rgs) m (rg_ids pool_id total) in
  (forall key, rgs !! key = if decide (key ∈ rg_ids pool_id total) then Some (RG_new now key pool_id) else None) /\
  (forall key, key ∈ rg_ids pool_id total <-> is_Some (rgs !! key)) /\
  Z.of_nat (length (rg_order rgs)) = total /\ map_Forall (fresh_group pool_id) rgs.
Proof.
  intros Htot Hmap rgs.
  assert (Hrgs : forall key, rgs !! key = if decide (key ∈ rg_ids pool_id total) then Some (RG_new now key pool_id) else None).
  { intros key. unfold rgs. rewrite new_groups. case_decide as Hk; [done|].
    destruct (m !! key) eqn:E; [|done]. destruct Hk. apply Hmap. eauto. }
  assert (Hdom : forall key, key ∈ rg_ids pool_id total <-> is_Some (rgs !! key)).
  { intros key. rewrite Hrgs. case_decide; split; try done; by intros []. }
  split_and!; [done|done| |].
  - assert (rg_order rgs ≡ₚ rg_ids pool_id total) as ->.
    { apply NoDup_Permutation; [apply rg_order_nodup|apply rg_ids_nodup|]. intros. by rewrite rg_order_elem, Hdom. }
    unfold rg_ids. rewrite length_map, length_seq. lia.
  - intros key g. rewrite Hrgs. case_decide; [|done]. by intros [= <-].
Qed.

Lemma init_with_spec n rg_per_es extent_size now (db : DB) m ess pool_id replica_count ids :
  init_ready n rg_per_es extent_size m ess pool_id replica_count ids ->
  exists st db' m' ess',
    init_with (A := A) rg_per_es extent_size now db m ess pool_id replica_count ids
      = Some (st, db', m', ess') /\
    ((st = mkStatus CYPRE_EM_RG_ALLOCATE_FAIL "" /\ too_few_domains (A := A) ess ids (Z.to_nat replica_count)) \/
     (st = mkStatus CYPRE_EM_STORE_ERROR "persist replication meta failed" \/
      (st = Status_default /\ mgr_wf m' /\
       forall key g, rg_map_ m' !! key = Some g -> rdb_view db' !! RG_kv_key g = Some (encode_rg g))) /\
     es_same ess ess' /\
     (forall key, key ∈ rg_ids pool_id (rg_per_es * Z.of_nat (length ids)) <-> is_Some (rg_map_ m' !! key)) /\
     map_Forall (fun _ => placed_ok (A := A) ess ids (Z.to_nat replica_count)) (rg_map_ m')).
Proof.
  intros [Hpre Hc Hper Hrep Hb Hheap Hmap]. unfold init_with.
  destruct (ra_init_law n ess ids extent_size Hpre Hc) as (ess1 & a1 & -> & Hs1 & Hwf1).
  cbn [mbind option_bind]. change (negb (ok Status_default)) with false. cbn iota.
  assert (Hlen : 0 < Z.of_nat (length ids)) by (destruct Hpre as [Hne _ _ _ _ _]; destruct ids; [done|cbn; lia]).
  assert (Hn : 0 <= n) by (apply (pre_n _ _ _ _ Hpre)).
  set (total := rg_per_es * Z.of_nat (length ids)) in *.
  assert (Htot : 0 < total <= max_count) by (unfold total in *; split; nia). unfold max_count in Htot.
  assert (to_int (wrap64 total) = total) as ->.
  { unwrap. unfold to_int. rewrite wrap32_small by (unfold is_u32; lia).
    destruct (Z.ltb_spec total 2147483648); lia. }
  destruct (new_table_spec now pool_id total (rg_map_ m)) as (Hrgs & Hdom & Hol & Hfresh); [lia|done|].
  set (rgs := foldl _ (rg_map_ m) _) in *.
  assert (Hord : forall key, key ∈ rg_order rgs <-> is_Some (rgs !! key)) by apply rg_order_elem.
  clearbody rgs.
  destruct (assign_primaries_spec ess ids (rg_order rgs) n ess1 a1 rgs) as (ess2 & a2 & rgs2 & E2 & Hs2 & Hwf2 & Hout2 & Hin2);
    [done|done|nia|apply rg_order_nodup| |].
  { intros key Hk. apply Hord in Hk. rewrite Hrgs in *. case_decide; [|by destruct Hk]. eauto. }
  rewrite E2. cbn [mbind option_bind]. apply (assign_primaries_fresh pool_id) in E2; [|done].
  assert (Hord2 : forall key, key ∈ rg_order rgs <-> is_Some (rgs2 !! key)).
  { intros key. split; [intros Hk; destruct (Hin2 key Hk) as (g & -> & _); eauto|]. intros Hk.
    destruct (decide (key ∈ rg_order rgs)) as [|Hni]; [done|]. rewrite Hout2 in Hk by done. by apply Hord. }
  destruct (secondary_rounds_spec ess ids (Z.to_nat (replica_count - 1)) 1 (rg_order rgs)
    (n + Z.of_nat (length (rg_order rgs))) ess2 a2 rgs2) as (go & ess3 & a3 & rgs3 & E3 & Hgo);
    [done|done|nia|apply rg_order_nodup|done| |].
  { intros key g Hg. destruct (Hin2 key) as (g' & Hg' & ?); [apply Hord2; eauto|]. by simplify_eq. }
  replace (Z.to_nat (replica_count - 1) + 1)%nat with (Z.to_nat replica_count) in Hgo by lia.
  rewrite E3. cbn [mbind option_bind]. apply (secondary_rounds_fresh pool_id) in E3; [|done].
  destruct go; cbn [negb]; [|do 4 eexists; split; [done|]; left; done].
  destruct Hgo as (Hs3 & Hord3 & Hplaced).
  assert (Hkeys : forall key, key ∈ rg_ids pool_id total <-> is_Some (rgs3 !! key)).
  { intros key. by rewrite <- Hord3, Hord, Hdom. }
  destruct (multi_put_loop 50 db _ []) as [[] db'] eqn:Em; cbn [negb].
  2: { do 4 eexists. split; [done|]. right. split; [by left|]. done. }
  destruct (build_heap_spec (mkRgManager rgs3 (es_rgs_ m) (es_rg_heap_ m))) as (m' & Eb & Hm' & Hwf'); cbn in *.
  - done.
  - intros Hemp. rewrite Hemp in Hkeys. destruct (proj1 (Hkeys (pool_id +:+ "." +:+ dec 0))) as [? Hz]; [|done].
    apply rg_ids_elem. exists 0. split; [lia|done].
  - rewrite <- length_map_to_list.
    assert (Hl3 : length (rg_order rgs3) = length (rg_order rgs)).
    { apply Permutation_length, NoDup_Permutation; [apply rg_order_nodup..|]. intros. by rewrite rg_order_elem, Hord3. }
    unfold rg_order in Hl3 at 1. rewrite length_fmap in Hl3. lia.
  - intros key g Hg. destruct (map_Forall_lookup_1 _ _ _ _ E3 Hg) as [Hid _]. split_and!; [done| |].
    + assert (key ∈ rg_ids pool_id total) as (i & _ & ->)%rg_ids_elem by (apply Hkeys; eauto). by destruct pool_id.
    + destruct (map_Forall_lookup_1 _ _ _ _ Hplaced Hg) as [Hl _]. intros Hnil. rewrite Hnil in Hl. cbn in Hl. lia.
  - rewrite Eb. cbn [mbind option_bind]. do 4 eexists. split; [done|]. right. rewrite Hm'.
    split; [|done]. right. split_and!; [done|done|]. intros key g Hg. eapply groups_stored; eauto.
Qed.
End InitTheorem.

(** ** The contract of [RgManager::init] *)

(** What the replicas of a pool with failure domain [fd] must not share. *)
Definition replica_domain (fd : Z) (e : ExtentServer) : Domain :=
  if fd =? kFailureDomainRack then DomRack (es_rack_ e)
  else if fd =? kFailureDomainHost then DomHost (es_host_ e)
  else DomNode (es_id_ e).

Definition server_domain (fd : Z) (ess : EsManager) (id : Z) : option Domain :=
  replica_domain fd <$> ess !! id.

Definition known_domain (fd : Z) : Prop :=
  fd = kFailureDomainRack \/ fd = kFailureDomainHost \/ fd = kFailureDomainNode.

Section InitClaim.
Context `{RocksDBLaws DB} `{Crc32c}.

End InitClaim.

(** Two servers on two hosts, two groups per server, two replicas. *)
#[local] Existing Instance example_crc.

Definition demo_ess : EsManager :=
  {[ 1 := ExtentServer_new "t" 1 "es1" "10.0.0.1" 80 "10.1.0.1" 80 0 4096 "pool-a" "h1" "r1";
     2 := ExtentServer_new "t" 2 "es2" "10.0.0.2" 80 "10.1.0.2" 80 0 4096 "pool-a" "h2" "r1" ]}.

Lemma demo_ready : init_ready 0 2 1024 RgManager_new demo_ess "pool-a" 2 [1; 2].
Proof.
  split; [split| | | | | |].
  - done.
  - by repeat constructor; set_solver.
  - done.
  - done.
  - by unfold max_count.
  - intros id Hid. rewrite !elem_of_cons in Hid. destruct Hid as [-> | [-> | ?%elem_of_nil]]; [..|done];
      eexists; (split; [reflexivity|]); by vm_compute.
  - intros i j e1 e2 Hi Hj. rewrite !elem_of_cons in Hi, Hj.
    destruct Hi as [-> | [-> | ?%elem_of_nil]], Hj as [-> | [-> | ?%elem_of_nil]]; try done;
      intros [= <-] [= <-]; by vm_compute.
  - done.
  - done.
  - by vm_compute.
  - done.
  - intros key. cbn. rewrite lookup_empty. by intros [].
Qed.


(** ** [allocate_rgs] *)

(** Every server of every group is known and not entirely full. *)
Definition roomy (rgs : RgMap) (ess : EsManager) (ids : list Z) : Prop :=
  map_Forall (fun _ g => Forall (fun s => s ∈ ids /\ exists e, ess !! s = Some e /\
    0 <= es_used_ e < es_capacity_ e) (rg_extent_servers_ g)) rgs.

Lemma roomy_not_nearfull rgs ess ids key g :
  roomy rgs ess ids -> rgs !! key = Some g -> nearfull rgs ess ids key = Some false.
Proof.
  intros Hr Hg. unfold nearfull. rewrite Hg. cbn [mbind option_bind].
  assert (nearfull_loop ess ids (rg_extent_servers_ g) 0 = Some 0) as ->; [|done].
  pose proof (map_Forall_lookup_1 _ _ _ _ Hr Hg) as Hf. induction Hf as [|s l (Hs & e & He & Hu) _ IH]; cbn; [done|].
  rewrite decide_True by done. rewrite He. cbn. unfold udiv. destruct (Z.eqb_spec (es_capacity_ e) 0); [lia|]. cbn.
  rewrite Z.div_small by lia. cbn. exact IH.
Qed.

(** Charging one more extent to group [key]. *)
Definition charge (key : string) (rgs : RgMap) : RgMap :=
  alter (fun g => set_nr_extents g (wrap64 (rg_nr_extents_ g + 1))) key rgs.

Lemma charge_some key rgs k : is_Some (charge key rgs !! k) <-> is_Some (rgs !! k).
Proof. unfold charge. by rewrite lookup_alter_is_Some. Qed.

Lemma charge_forall (P : string -> ReplicationGroup -> Prop) key rgs :
  (forall k g n, P k g -> P k (set_nr_extents g n)) -> map_Forall P rgs -> map_Forall P (charge key rgs).
Proof.
  intros HP Hf k g. unfold charge. destruct (decide (k = key)) as [->|Hne].
  - rewrite lookup_alter_eq. destruct (rgs !! key) eqn:E; [|done]. cbn. intros [= <-].
    apply HP. exact (map_Forall_lookup_1 _ _ _ _ Hf E).
  - rewrite lookup_alter_ne by done. apply Hf.
Qed.

Lemma allocate_rg_spec m ess ids :
  mgr_wf m -> roomy (rg_map_ m) ess ids ->
  exists key m', allocate_rg m ess ids = Some (key, m') /\ key <> "" /\ is_Some (rg_map_ m !! key) /\
    rg_map_ m' = charge key (rg_map_ m) /\ mgr_wf m'.
Proof.
  intros (Hne & Hq & Hids) Hr. unfold allocate_rg. cbn [allocate_rg_loop].
  destruct (pq_top_some (es_rg_heap_ m) Hne) as [es Ht]. rewrite Ht. cbn [mbind option_bind].
  pose proof Hq as Hes. eapply Forall_forall in Hes as (er & Her & Hok); [|by apply pq_top_elem].
  rewrite Her. cbn [mbind option_bind]. destruct Hok as (Hw & Hhne & Hhf).
  destruct (pq_top_some (er_heap er) Hhne) as [key Hk]. rewrite Hk. cbn [skip_loop mbind option_bind].
  pose proof Hhf as Hkey. eapply Forall_forall in Hkey; [|by apply pq_top_elem]. destruct Hkey as [g Hg].
  rewrite (roomy_not_nearfull _ _ _ _ _ Hr Hg). cbn [mbind option_bind restore].
  rewrite Hg. cbn [mbind option_bind].
  assert (Hc : <[key := set_nr_extents g (wrap64 (rg_nr_extents_ g + 1))]> (rg_map_ m) = charge key (rg_map_ m)).
  { apply map_eq. intros k. unfold charge. destruct (decide (k = key)) as [->|].
    - by rewrite lookup_insert_eq, lookup_alter_eq, Hg.
    - by rewrite lookup_insert_ne, lookup_alter_ne. }
  rewrite Hc. set (rgs := charge key (rg_map_ m)).
  assert (Hsome : forall k, is_Some (rgs !! k) <-> is_Some (rg_map_ m !! k)) by apply charge_some.
  assert (Hhf' : Forall (fun k => is_Some (rgs !! k)) (er_heap er))
    by (eapply Forall_impl; [exact Hhf|]; intros; by apply Hsome).
  destruct (requeue_spec (RGCmp rgs) _ (RGCmp_total rgs) (er_heap er) key Hhf' Hk) as (q & -> & Hqp).
  cbn [mbind option_bind restore]. set (es_rgs := <[es := _]> (es_rgs_ m)).
  assert (Hhq : Forall (has_queue rgs es_rgs) (es_rg_heap_ m)).
  { eapply Forall_impl; [exact Hq|]. intros p (er' & Her' & Hw' & Hne' & Hf').
    unfold has_queue, es_rgs. destruct (decide (p = es)) as [->|].
    - eexists. rewrite lookup_insert_eq. split; [done|]. split_and!; cbn; [lia|lia| |by rewrite Hqp].
      intros ->. by apply Permutation_nil_l in Hqp.
    - exists er'. rewrite lookup_insert_ne by done. split; [done|]. split_and!; [lia|lia|done|].
      eapply Forall_impl; [exact Hf'|]. intros; by apply Hsome. }
  assert (Hg' : rgs !! key = Some (set_nr_extents g (wrap64 (rg_nr_extents_ g + 1)))).
  { unfold rgs, charge. by rewrite lookup_alter_eq, Hg. }
  rewrite Hg'. cbn [mbind option_bind].
  destruct (requeue_spec (EsRgCmp es_rgs) _ (EsRgCmp_total rgs es_rgs) (es_rg_heap_ m) es Hhq Ht) as (heap & -> & Hhp).
  cbn [mbind option_bind]. destruct (map_Forall_lookup_1 _ _ _ _ Hids Hg) as [Hid Hnonempty].
  exists key, (mkRgManager rgs es_rgs heap). cbn. rewrite Hid. split_and!; try done.
  split_and!; cbn; [|by rewrite Hhp|by apply charge_forall].
  intros ->. by apply Permutation_nil_l in Hhp.
Qed.

(** How often a group was chosen. *)
Definition chosen (key : string) (l : list string) : Z := Z.of_nat (length (filter (fun k => k = key) l)).

Lemma allocate_rgs_loop_spec n m ess ids rgs acc :
  mgr_wf m -> roomy (rg_map_ m) ess ids ->
  exists m' l, allocate_rgs_loop n m ess ids rgs acc = Some (true, m', list_to_set l ∪ rgs, (acc ++ l)%list) /\
    length l = n /\ Forall (fun k => is_Some (rg_map_ m !! k)) l /\ mgr_wf m' /\
    rg_map_ m' = foldl (fun rgs k => charge k rgs) (rg_map_ m) l.
Proof.
  revert m rgs acc. induction n as [|n IH]; intros m rgs acc Hwf Hr; cbn [allocate_rgs_loop].
  { exists m, []. rewrite app_nil_r. split_and!; try done. do 2 f_equal. f_equal. set_solver. }
  destruct (allocate_rg_spec m ess ids Hwf Hr) as (key & m1 & -> & Hne & Hkey & Hm1 & Hwf1). cbn [mbind option_bind].
  destruct (String.eqb_spec key ""); [done|]. cbn [negb].
  destruct (IH m1 ({[key]} ∪ rgs) (acc ++ [key])%list Hwf1) as (m' & l & -> & Hl & Hf & Hwf' & Hm').
  { rewrite Hm1. by apply charge_forall. }
  exists m', (key :: l). split_and!.
  - rewrite <- app_assoc. cbn. do 2 f_equal. f_equal. set_solver.
  - cbn. by rewrite Hl.
  - constructor; [done|]. eapply Forall_impl; [exact Hf|]. intros k. rewrite Hm1. apply charge_some.
  - done.
  - by rewrite Hm', Hm1.
Qed.

Lemma foldl_charge_lookup l rgs key g :
  rgs !! key = Some g -> is_u64 (rg_nr_extents_ g) ->
  foldl (fun rgs k => charge k rgs) rgs l !! key =
    Some (set_nr_extents g (wrap64 (rg_nr_extents_ g + chosen key l))).
Proof.
  revert rgs g. induction l as [|k l IH]; intros rgs g Hg Hu; cbn [foldl].
  - rewrite Hg. unfold chosen. cbn. rewrite Z.add_0_r, wrap64_small by done. by destruct g.
  - unfold chosen. rewrite filter_cons. destruct (decide (k = key)) as [->|Hne].
    + rewrite (IH _ (set_nr_extents g (wrap64 (rg_nr_extents_ g + 1)))).
      * cbn [length]. unfold set_nr_extents; cbn. do 2 f_equal. unfold chosen, wrap64. rewrite Zplus_mod_idemp_l.
        f_equal. lia.
      * unfold charge. by rewrite lookup_alter_eq, Hg.
      * cbn. apply wrap64_is_u64.
    + apply IH; [|done]. unfold charge. by rewrite lookup_alter_ne.
Qed.

Section AllocateClaim.
Context `{RocksDBLaws DB} `{Crc32c}.

(** The records written at the end of [allocate_rgs]. *)
Lemma charged_stored limit (db : DB) (rgs : RgMap) pool_id keys kvs db' key g :
  map_Forall (fresh_group pool_id) rgs -> NoDup keys ->
  mapM (fun id => g ← rgs !! id; Some (RG_kv_key g, encode_rg g)) keys = Some kvs ->
  multi_put_loop limit db (merge_sort key_le kvs) [] = (true, db') ->
  key ∈ keys -> rgs !! key = Some g -> rdb_view db' !! RG_kv_key g = Some (encode_rg g).
Proof.
  intros Hf Hnd Hm%mapM_Some_1 E%multi_put_loop_view Hin Hg. rewrite E. cbn [app]. apply foldl_insert_lookup.
  - rewrite merge_sort_Permutation. clear E Hin Hg.
    induction Hm as [|id kv keys kvs Hid Hm IH]; cbn; [constructor|].
    apply NoDup_cons in Hnd as [Hni Hnd]. constructor; [|auto].
    intros (kv' & Hk & Hin)%list_elem_of_fmap. apply Hni.
    destruct (Forall2_elem_r _ _ _ _ Hm Hin) as (id' & Hin' & Hid').
    destruct (rgs !! id) as [g1|] eqn:E1; [|done]. destruct (rgs !! id') as [g2|] eqn:E2; [|done].
    cbn [mbind option_bind] in Hid, Hid'. apply (inj Some) in Hid as <-, Hid' as <-. cbn [fst] in Hk.
    destruct (map_Forall_lookup_1 _ _ _ _ Hf E1) as [<- Hp1]. destruct (map_Forall_lookup_1 _ _ _ _ Hf E2) as [<- Hp2].
    assert (rg_id_ g1 = rg_id_ g2) as -> by (apply RG_kv_key_inj; [by rewrite Hp1, Hp2|exact Hk]). done.
  - rewrite merge_sort_Permutation. destruct (Forall2_elem_l _ _ _ _ Hm Hin) as (kv & Hkv & Hid).
    rewrite Hg in Hid. cbn in Hid. by simplify_eq.
Qed.

(** as long as no server of the pool is entirely full, asking for [n] extents
    returns [n] existing groups and charges each group exactly as many
    extents as it was chosen for; nothing else about a group changes.  If the
    store accepts the writes the charged groups are stored. *)
Theorem allocate_rgs_charges_groups (db : DB) m n ess ids acc pool_id :
  0 <= n -> mgr_wf m -> roomy (rg_map_ m) ess ids ->
  map_Forall (fresh_group pool_id) (rg_map_ m) ->
  map_Forall (fun _ g => is_u64 (rg_nr_extents_ g)) (rg_map_ m) ->
  exists st db' m' l, allocate_rgs db m n ess ids acc = Some (st, db', m', (acc ++ l)%list) /\
    Z.of_nat (length l) = n /\
    (forall key g, rg_map_ m !! key = Some g ->
       rg_map_ m' !! key = Some (set_nr_extents g (wrap64 (rg_nr_extents_ g + chosen key l)))) /\
    (forall key, key ∈ l -> is_Some (rg_map_ m !! key)) /\ mgr_wf m' /\
    (code st = CYPRE_EM_STORE_ERROR \/
     st = Status_default /\ forall key g, key ∈ l -> rg_map_ m' !! key = Some g ->
       rdb_view db' !! RG_kv_key g = Some (encode_rg g)).
Proof.
  intros Hn Hwf Hr Hf Hu. unfold allocate_rgs.
  destruct (allocate_rgs_loop_spec (Z.to_nat n) m ess ids ∅ acc Hwf Hr) as (m' & l & -> & Hl & Hin & Hwf' & Hm').
  cbn [mbind option_bind negb].
  assert (Hlook : forall key g, rg_map_ m !! key = Some g ->
    rg_map_ m' !! key = Some (set_nr_extents g (wrap64 (rg_nr_extents_ g + chosen key l)))).
  { intros key g Hg. rewrite Hm'. apply foldl_charge_lookup; [done|exact (map_Forall_lookup_1 _ _ _ _ Hu Hg)]. }
  assert (Hmem : forall key, key ∈ l -> is_Some (rg_map_ m !! key)) by (by apply Forall_forall).
  destruct (mapM _ (elements (list_to_set l ∪ ∅))) as [kvs|] eqn:Em.
  2: { apply mapM_None_1, Exists_exists in Em as (key & Hk & E). assert (key ∈ l) as [g Hg]%Hmem by set_solver.
       rewrite (Hlook _ _ Hg) in E. done. }
  cbn [mbind option_bind]. destruct (multi_put_loop 100 db (merge_sort key_le kvs) []) as [[] db'] eqn:E; cbn [negb].
  - exists Status_default, db', m', l. split_and!; [done|lia|done|done|done|]. right. split; [done|].
    intros key g Hk Hg. eapply (charged_stored 100 db (rg_map_ m') pool_id (elements (list_to_set l ∪ ∅ : gset string)) kvs db' key g);
      [|apply NoDup_elements|exact Em|exact E|set_solver|exact Hg].
    rewrite Hm'. clear - Hf. revert Hf. generalize (rg_map_ m). induction l as [|k l IH]; intros rgs Hf; [done|].
    cbn. apply IH. by apply charge_forall.
  - eexists _, db', m', l. split; [done|]. split_and!; [lia|done|done|done|by left].
Qed.
End AllocateClaim.

(** Two groups with primary 1; group [a] is on the full server 2. *)
Definition demo_full_ess : EsManager :=
  {[ 1 := ExtentServer_new "t" 1 "es1" "10.0.0.1" 80 "10.1.0.1" 80 0 4096 "pool-a" "h1" "r1";
     2 := ExtentServer_new "t" 2 "es2" "10.0.0.2" 80 "10.1.0.2" 80 4096 4096 "pool-a" "h2" "r1";
     3 := ExtentServer_new "t" 3 "es3" "10.0.0.3" 80 "10.1.0.3" 80 0 4096 "pool-a" "h3" "r1" ]}.

Definition demo_rgs : RgManager :=
  mkRgManager
    {[ "a" := set_servers (RG_new "t" "a" "pool-a") [1; 2];
       "b" := set_nr_extents (set_servers (RG_new "t" "b" "pool-a") [1; 3]) 5 ]}
    {[ 1 := mkEsRg 1 2 5 ["a"; "b"] ]} [1].

(** when a group is skipped because a server of it is full, the group is
    dropped from the queue and the chosen one is in it twice: [allocate_rg]
    puts the skipped groups back before it pops, and pops the wrong one. *)
Theorem allocate_rg_drops_full_group :
  exists m', allocate_rg demo_rgs demo_full_ess [1; 2; 3] = Some ("b", m') /\
    er_heap <$> es_rgs_ demo_rgs !! 1 = Some ["a"; "b"] /\
    er_heap <$> es_rgs_ m' !! 1 = Some ["b"; "b"].
Proof. eexists. split; [vm_compute; reflexivity|]. split; vm_compute; reflexivity. Qed.

Definition demo_roomy_ess : EsManager :=
  <[3 := ExtentServer_new "t" 3 "es3" "10.0.0.3" 80 "10.1.0.3" 80 0 4096 "pool-a" "h3" "r1"]> demo_ess.

Lemma demo_rgs_wf :
  mgr_wf demo_rgs /\ roomy (rg_map_ demo_rgs) demo_roomy_ess [1; 2; 3] /\
  map_Forall (fresh_group "pool-a") (rg_map_ demo_rgs) /\
  map_Forall (fun _ g => is_u64 (rg_nr_extents_ g)) (rg_map_ demo_rgs).
Proof.
  split_and!.
  - split_and!; [done| |].
    + constructor; [|constructor]. eexists. split; [reflexivity|]. split_and!; [done|done|done|].
      cbn. apply Forall_cons. split; [eexists; reflexivity|]. apply Forall_cons.
      split; [eexists; reflexivity|constructor].
    + apply map_Forall_insert_2; [by vm_compute|]. by apply map_Forall_singleton.
  - apply map_Forall_insert_2; [|apply map_Forall_singleton]; repeat constructor; try set_solver;
      eexists; (split; [reflexivity|]); by vm_compute.
  - apply map_Forall_insert_2; [by vm_compute|]. by apply map_Forall_singleton.
  - apply map_Forall_insert_2; [by vm_compute|]. by apply map_Forall_singleton.
Qed.

Lemma allocate_rgs_charges_groups_witness :
  exists st db' m' l, allocate_rgs (mkMemDB ∅ []) demo_rgs 3
      demo_roomy_ess
      [1; 2; 3] [] = Some (st, db', m', l) /\ Z.of_nat (length l) = 3.
Proof.
  destruct demo_rgs_wf as (H1 & H2 & H3 & H4).
  destruct (allocate_rgs_charges_groups (mkMemDB ∅ []) demo_rgs 3
      demo_roomy_ess
      [1; 2; 3] [] "pool-a") as (st & db' & m' & l & E & Hl & _).
  - lia.
  - exact H1.
  - exact H2.
  - exact H3.
  - exact H4.
  - exists st, db', m', l. split; [exact E|exact Hl].
Defined.
