(* ===== verification/Pool.v ===== *)
(** * Pools

    [Pool] and [PoolManager] (src/src/extentmanager/pool.h and .cpp): a pool
    owns its blobs, extent servers and replication groups; the manager finds
    the pool of a request and forwards to the managers of Blob.v, EsMgr.v and
    RgMgr.v.  [PoolMeta] is the stored part of a pool.  The table is an ordered
    [std::map]; loops over it go by ascending id.  [None] is undefined
    behaviour, an uncaught exception or, for [allocate_blobid], a run that has
    not ended with the uuids generated so far. *)

From Stdlib Require Import Ascii SpecFloat.
From stdpp Require Import sorting.
From S2P Require Import Prelude Status Codec KvStore Persist Enums Net Blob User EsMgr RgAllocater RgMgr.

#[local] Open Scope string_scope.
#[local] Open Scope Z_scope.

Record PoolMeta : Type := mkPoolMeta {
  p_id_ : string;
  p_name_ : string;
  p_type_ : Z;
  p_failure_domain_ : Z;
  p_status_ : Z;
  p_replica_num_ : Z;
  p_rg_num_ : Z;
  p_es_num_ : Z;
  p_extent_size_ : Z;
  p_router_version_ : Z;
  p_create_time_ : string;
  p_update_time_ : string
}.

Record Pool : Type := mkPool {
  p_meta : PoolMeta;
  p_rg_mgr_ : RgManager;
  p_blob_mgr_ : BlobManager;
  p_es_mgr_ : EsManager
}.

Definition replica_count_valid (replica_count : Z) : bool :=
  (0 <? replica_count) && (replica_count <=? kMaxReplicaCount).

Definition Pool_new (rg_per_es : Z) (now id name : string) (type pfd replica_num es_num extent_size : Z)
  : Pool :=
  mkPool (mkPoolMeta id name type pfd kPoolStatusCreated replica_num (wrap32 (es_num * rg_per_es)) es_num
            extent_size 0 now now)
    RgManager_new ∅ ∅.

Definition Pool_kv_key (p : PoolMeta) : string := kPoolKvPrefix +:+ "_" +:+ p_id_ p.

(** [Pool::serialize]; the default constructor leaves [router_version_] at 0
    when a record of version 0 is loaded. *)
Definition Pool_members (version : Z) : codec PoolMeta := {|
  save p := save string_codec (p_id_ p) +:+ save string_codec (p_name_ p)
    +:+ save int_codec (p_type_ p) +:+ save int_codec (p_failure_domain_ p)
    +:+ save int_codec (p_status_ p) +:+ save u32_codec (p_replica_num_ p)
    +:+ save u32_codec (p_rg_num_ p) +:+ save u32_codec (p_es_num_ p)
    +:+ save u64_codec (p_extent_size_ p) +:+ save string_codec (p_create_time_ p)
    +:+ save string_codec (p_update_time_ p)
    +:+ (if 0 <? version then save u32_codec (p_router_version_ p) else "");
  load s :=
    '(id, s) ← load string_codec s;
    '(name, s) ← load string_codec s;
    '(type, s) ← load int_codec s;
    '(failure_domain, s) ← load int_codec s;
    '(status, s) ← load int_codec s;
    '(replica_num, s) ← load u32_codec s;
    '(rg_num, s) ← load u32_codec s;
    '(es_num, s) ← load u32_codec s;
    '(extent_size, s) ← load u64_codec s;
    '(create_time, s) ← load string_codec s;
    '(update_time, s) ← load string_codec s;
    '(router_version, s) ← (if 0 <? version then load u32_codec s else Some (0, s));
    Some (mkPoolMeta id name type failure_domain status replica_num rg_num es_num extent_size
            router_version create_time update_time, s);
  storable p := storable string_codec (p_id_ p) /\ storable string_codec (p_name_ p) /\
    storable int_codec (p_type_ p) /\ storable int_codec (p_failure_domain_ p) /\
    storable int_codec (p_status_ p) /\ storable u32_codec (p_replica_num_ p) /\
    storable u32_codec (p_rg_num_ p) /\ storable u32_codec (p_es_num_ p) /\
    storable u64_codec (p_extent_size_ p) /\ storable string_codec (p_create_time_ p) /\
    storable string_codec (p_update_time_ p) /\ storable u32_codec (p_router_version_ p)
|}.

Definition Pool_codec : codec PoolMeta := versioned 1 Pool_members.

Lemma Pool_codec_ok : codec_ok Pool_codec.
Proof.
  apply versioned_ok; [unfold is_u32; lia|].
  intros [] rest H. cbn -[u64_codec u32_codec int_codec string_codec] in *. by archive.
Qed.

(** [common::pb::Pool]. *)
Record PbPool : Type := mkPbPool {
  pb_pool_id : string;
  pb_pool_name : string;
  pb_pool_type : Z;
  pb_pool_status : Z;
  pb_pool_replica_count : Z;
  pb_pool_rg_count : Z;
  pb_pool_es_count : Z;
  pb_pool_failure_domain : Z;
  pb_pool_create_date : string;
  pb_pool_update_date : string;
  pb_pool_capacity : Z;
  pb_pool_size : Z;
  pb_pool_extent_size : Z;
  pb_pool_num_extents : Z
}.

Definition Pool_total_capacity (p : Pool) : Z := total_capacity (p_es_mgr_ p).
Definition Pool_total_used (p : Pool) : Z := total_used (p_es_mgr_ p).
Definition Pool_total_nr_extents (p : Pool) : Z := total_nr_extents (p_rg_mgr_ p).

(** The counts are [int32] fields of the message, the extent size a [uint32]. *)
Definition ToPbPool (p : Pool) : PbPool :=
  let m := p_meta p in
  mkPbPool (p_id_ m) (p_name_ m) (ToPbPoolType (p_type_ m)) (ToPbPoolStatus (p_status_ m))
    (to_int (p_replica_num_ m)) (to_int (p_rg_num_ m)) (to_int (p_es_num_ m))
    (ToPbFailureDomain (p_failure_domain_ m)) (p_create_time_ m) (p_update_time_ m)
    (Pool_total_capacity p) (Pool_total_used p) (wrap32 (p_extent_size_ m)) (Pool_total_nr_extents p).

(** ** Field updates *)

Definition set_pool_status (m : PoolMeta) (st : Z) : PoolMeta :=
  mkPoolMeta (p_id_ m) (p_name_ m) (p_type_ m) (p_failure_domain_ m) st (p_replica_num_ m) (p_rg_num_ m)
    (p_es_num_ m) (p_extent_size_ m) (p_router_version_ m) (p_create_time_ m) (p_update_time_ m).

Definition set_pool_info (m : PoolMeta) (name : string) (type fd replica_num es_num : Z) : PoolMeta :=
  mkPoolMeta (p_id_ m) name type fd (p_status_ m) replica_num (p_rg_num_ m)
    es_num (p_extent_size_ m) (p_router_version_ m) (p_create_time_ m) (p_update_time_ m).

Definition with_meta (p : Pool) (m : PoolMeta) : Pool := mkPool m (p_rg_mgr_ p) (p_blob_mgr_ p) (p_es_mgr_ p).
Definition with_rgs (p : Pool) (r : RgManager) : Pool := mkPool (p_meta p) r (p_blob_mgr_ p) (p_es_mgr_ p).
Definition with_blobs (p : Pool) (b : BlobManager) : Pool := mkPool (p_meta p) (p_rg_mgr_ p) b (p_es_mgr_ p).
Definition with_ess (p : Pool) (e : EsManager) : Pool := mkPool (p_meta p) (p_rg_mgr_ p) (p_blob_mgr_ p) e.

(** ** The manager *)

Record PoolManager : Type := mkPoolManager {
  pool_map_ : gmap string Pool;
  pm_extent_size_ : Z
}.

Definition set_pool (m : PoolManager) (pool_id : string) (p : Pool) : PoolManager :=
  mkPoolManager (<[pool_id := p]> (pool_map_ m)) (pm_extent_size_ m).

Definition pool_le (p q : string * Pool) : Prop := String.leb p.1 q.1 = true.
#[export] Instance pool_le_dec : RelDecision pool_le.
Proof. intros p q. unfold pool_le. apply _. Defined.

(** [for (auto &p : pool_map_)]. *)
Definition pool_entries (m : PoolManager) : list (string * Pool) :=
  merge_sort pool_le (map_to_list (pool_map_ m)).

Definition pool_status (p : Pool) : Z := p_status_ (p_meta p).

Definition pool_not_found : Status := mkStatus CYPRE_EM_POOL_NOT_FOUND "not found pool".

(** [iter == end() || status_ == kPoolStatusDisabled], and with [status_ != st]. *)
Definition find_not_disabled (m : PoolManager) (pool_id : string) : option Pool :=
  match pool_map_ m !! pool_id with
  | Some p => if pool_status p =? kPoolStatusDisabled then None else Some p
  | None => None
  end.

Definition find_status (st : Z) (m : PoolManager) (pool_id : string) : option Pool :=
  match pool_map_ m !! pool_id with
  | Some p => if negb (pool_status p =? st) then None else Some p
  | None => None
  end.

Definition add_pool (m : PoolManager) (p : Pool) : PoolManager := set_pool m (p_id_ (p_meta p)) p.

Definition pool_valid (m : PoolManager) (pool_id : string) : bool :=
  match pool_map_ m !! pool_id with
  | Some p => negb (pool_status p =? kPoolStatusDisabled)
  | None => false
  end.

(** The letters the loop of [allocate_poolid] runs through. *)
Definition pool_letters : list ascii :=
  ["a"; "b"; "c"; "d"; "e"; "f"; "g"; "h"; "i"; "j"; "k"; "l"; "m"; "n"; "o"; "p"; "q"; "r"; "s"; "t";
   "u"; "v"; "w"; "x"; "y"; "z"]%char.

Fixpoint allocate_poolid_loop (m : PoolManager) (letters : list ascii) : string :=
  match letters with
  | [] => ""
  | index :: letters' =>
      let pool_id := kPoolIdPrefix +:+ String index "" in
      match pool_map_ m !! pool_id with
      | None => pool_id
      | Some _ => allocate_poolid_loop m letters'
      end
  end.

Definition allocate_poolid (m : PoolManager) : string := allocate_poolid_loop m pool_letters.

(** [-1] as a [uint32_t]. *)
Definition get_router_version (m : PoolManager) (pool_id : string) : Z :=
  match find_not_disabled m pool_id with
  | None => wrap32 (-1)
  | Some p => p_router_version_ (p_meta p)
  end.

Definition query_pool (m : PoolManager) (pool_id : string) : Status * option PbPool :=
  match find_not_disabled m pool_id with
  | None => (pool_not_found, None)
  | Some p => (Status_default, Some (ToPbPool p))
  end.

Definition list_pools_pb (m : PoolManager) (pools : list PbPool) : Status * list PbPool :=
  (Status_default,
   pools ++ map (fun p => ToPbPool p.2)
     (filter (fun p : string * Pool => (pool_status p.2 =? kPoolStatusEnabled) = true) (pool_entries m)))%list.

Definition list_pools (m : PoolManager) (pools : list string) : Status * list string :=
  (Status_default,
   pools ++ (filter (fun p : string * Pool => (pool_status p.2 =? kPoolStatusEnabled) = true)
               (pool_entries m)).*1)%list.

Definition list_deleted_pools (m : PoolManager) (pools : list string) : Status * list string :=
  (Status_default,
   pools ++ (filter (fun p : string * Pool => (pool_status p.2 =? kPoolStatusDisabled) = true)
               (pool_entries m)).*1)%list.

(** ** Least loaded pool

    [double] arithmetic, with the operations of the binary64 format. *)

Definition f64_of_u64 (z : Z) : spec_float := binary_normalize 53 1024 z 0 false.
Definition f64_div : spec_float -> spec_float -> spec_float := SFdiv 53 1024.
Definition f64_ltb : spec_float -> spec_float -> bool := SFltb.

Definition pool_ratio (p : Pool) : spec_float :=
  f64_div (f64_of_u64 (Pool_total_used p)) (f64_of_u64 (Pool_total_capacity p)).

Fixpoint get_pool_loop (entries : list (string * Pool)) (type : Z) (min : spec_float) (pool_id : string)
  : string :=
  match entries with
  | [] => pool_id
  | (_, p) :: entries' =>
      if (p_type_ (p_meta p) =? type) && (pool_status p =? kPoolStatusEnabled) then
        let ratio := pool_ratio p in
        if f64_ltb ratio min then get_pool_loop entries' type ratio (p_id_ (p_meta p))
        else get_pool_loop entries' type min pool_id
      else get_pool_loop entries' type min pool_id
  end.

Definition get_pool (m : PoolManager) (type : Z) : string :=
  get_pool_loop (pool_entries m) type (f64_of_u64 1) "".

Definition allocate_pool (m : PoolManager) (type : Z) : string :=
  if type =? kBlobTypeGeneral then get_pool m kPoolTypeHDD
  else if type =? kBlobTypeSuperior then get_pool m kPoolTypeSSD
  else if type =? kBlobTypeExcellent then get_pool m kPoolTypeNVMeSSD
  else get_pool m kPoolTypeHDD.

Section PoolManager.
Context `{RocksDB DB} `{Crc32c}.

Definition encode_pool (p : PoolMeta) : string := Serializer_Encode Pool_codec p.

(** ** Pools *)

(** The last component is what is written to [*pool_id]. *)
Definition create_pool (rg_per_es : Z) (db : DB) (m : PoolManager) (now name : string)
  (type pfd replica_num es_num : Z) : Status * DB * PoolManager * option string :=
  if existsb (fun p : string * Pool => String.eqb (p_name_ (p_meta p.2)) name) (pool_entries m)
  then (mkStatus CYPRE_EM_POOL_DUPLICATED "duplicated pool name", db, m, None)
  else
    let id := allocate_poolid m in
    if String.eqb id ""
    then (mkStatus CYPRE_EM_POOL_ALLOCATE_FAIL "allocate pool id failed", db, m, None)
    else
      let pool := Pool_new rg_per_es now id name type pfd replica_num es_num (pm_extent_size_ m) in
      let value := encode_pool (p_meta pool) in
      let '(status, db) := RocksStore_Put db (Pool_kv_key (p_meta pool)) value in
      if negb (RocksStatus_ok status)
      then (mkStatus CYPRE_EM_STORE_ERROR "failed to store pool meta", db, m, None)
      else (Status_default, db, add_pool m pool, Some id).

(** [x == 0 ? old : x]. *)
Definition or_default (dflt new old : Z) : Z := if new =? dflt then old else new.

Definition update_pool (db : DB) (m : PoolManager) (pool_id name : string)
  (type fd replica_num es_num : Z) : Status * DB * PoolManager :=
  if existsb (fun p : string * Pool => negb (String.eqb (p_id_ (p_meta p.2)) pool_id)
                && String.eqb (p_name_ (p_meta p.2)) name) (pool_entries m)
  then (mkStatus CYPRE_EM_POOL_DUPLICATED "duplicated pool name", db, m)
  else
    match find_not_disabled m pool_id with
    | None => (mkStatus CYPRE_EM_POOL_NOT_FOUND "pool not found", db, m)
    | Some p =>
        let old := p_meta p in
        let meta := set_pool_info old (or_old name (p_name_ old))
                      (or_default kPoolTypeUnknown type (p_type_ old))
                      (or_default kFailureDomainUnknown fd (p_failure_domain_ old))
                      (or_default 0 replica_num (p_replica_num_ old))
                      (or_default 0 es_num (p_es_num_ old)) in
        let m := set_pool m pool_id (with_meta p meta) in
        let '(status, db) := RocksStore_Put db (Pool_kv_key meta) (encode_pool meta) in
        if negb (RocksStatus_ok status)
        then (mkStatus CYPRE_EM_STORE_ERROR "failed to store pool meta", db, m)
        else (Status_default, db, m)
    end.

(** The groups and the servers' counters stay as [RgManager::init] leaves them
    when it fails. *)
Definition init_pool (extent_size rg_per_es : Z) (db : DB) (m : PoolManager) (now pool_id : string)
  : option (Status * DB * PoolManager) :=
  match pool_map_ m !! pool_id with
  | None => Some (pool_not_found, db, m)
  | Some p =>
      if negb (pool_status p =? kPoolStatusCreated)
      then Some (mkStatus CYPRE_EM_POOL_ALREADY_INIT "pool already created", db, m)
      else if negb (p_es_num_ (p_meta p) =? es_count (p_es_mgr_ p))
      then Some (mkStatus CYPRE_EM_POOL_NOT_READY "pool not ready", db, m)
      else
        let '(status, ess) := list_es (p_es_mgr_ p) [] in
        if negb (ok status) then Some (status, db, m)
        else
          '(status, db, rgs, es_mgr) ←
            RgManager_init rg_per_es extent_size now db (p_rg_mgr_ p) (p_es_mgr_ p) (p_id_ (p_meta p))
              (to_int (p_replica_num_ (p_meta p))) (p_failure_domain_ (p_meta p)) ess;
          let p := with_ess (with_rgs p rgs) es_mgr in
          if negb (ok status) then Some (status, db, set_pool m pool_id p)
          else
            let meta := set_pool_status (p_meta p) kPoolStatusEnabled in
            let m := set_pool m pool_id (with_meta p meta) in
            let '(rock_status, db) := RocksStore_Put db (Pool_kv_key meta) (encode_pool meta) in
            if negb (RocksStatus_ok rock_status)
            then Some (mkStatus CYPRE_EM_STORE_ERROR "failed to store pool meta", db, m)
            else Some (Status_default, db, m)
  end.

Definition soft_delete_pool (db : DB) (m : PoolManager) (pool_id : string) : Status * DB * PoolManager :=
  match find_not_disabled m pool_id with
  | None => (pool_not_found, db, m)
  | Some p =>
      let meta := set_pool_status (p_meta p) kPoolStatusDisabled in
      let m := set_pool m pool_id (with_meta p meta) in
      let '(status, db) := RocksStore_Put db (Pool_kv_key meta) (encode_pool meta) in
      if negb (RocksStatus_ok status)
      then (mkStatus CYPRE_EM_STORE_ERROR "failed to delete pool meta", db, m)
      else (Status_default, db, m)
  end.

Definition delete_pool (db : DB) (m : PoolManager) (pool_id : string) : Status * DB * PoolManager :=
  match pool_map_ m !! pool_id with
  | None => (pool_not_found, db, m)
  | Some p =>
      let '(status, db) := RocksStore_Delete db (Pool_kv_key (p_meta p)) in
      if negb (RocksStatus_ok status)
      then (mkStatus CYPRE_EM_DELETE_ERROR "failed to delete pool meta", db, m)
      else (Status_default, db, mkPoolManager (delete pool_id (pool_map_ m)) (pm_extent_size_ m))
  end.

(** ** Recovery *)

(** A recovered pool starts with new managers. *)
Definition recovered_pool (meta : PoolMeta) : Pool := mkPool meta RgManager_new ∅ ∅.

Fixpoint recover_metas (tmp : list string) (m : gmap string Pool) : option (bool * gmap string Pool) :=
  match tmp with
  | [] => Some (true, m)
  | v :: tmp' =>
      match Serializer_Decode Pool_codec v with
      | Decoded meta => recover_metas tmp' (<[p_id_ meta := recovered_pool meta]> m)
      | DecodeFailed => Some (false, m)
      | DecodeThrows => None
      end
  end.

(** The loop over the pools.  The result of the groups' recovery is dropped:
    the test after it reads the [success] of the servers'. *)
Fixpoint recover_parts (db : DB) (order : list string) (m : gmap string Pool)
  : option (bool * gmap string Pool) :=
  match order with
  | [] => Some (true, m)
  | pool_id :: order' =>
      p ← m !! pool_id;
      '(success, ess) ← EsManager_recovery_from_store db (p_es_mgr_ p) pool_id;
      let p := with_ess p ess in
      if negb success then Some (success, <[pool_id := p]> m)
      else
        '(_, rgs) ← RgManager_recovery_from_store db (p_rg_mgr_ p) pool_id;
        let p := with_rgs p rgs in
        '(success, blobs) ← BlobManager_recovery_from_store db (p_blob_mgr_ p) pool_id;
        let p := with_blobs p blobs in
        if negb success then Some (success, <[pool_id := p]> m)
        else recover_parts db order' (<[pool_id := p]> m)
  end.

Definition PoolManager_recovery_from_store (db : DB) (m : PoolManager) : option (bool * PoolManager) :=
  let '(status, iter) := RocksStore_ScanPrefix db kPoolKvPrefix in
  if negb (RocksStatus_ok status) then Some (false, m)
  else
    let tmp := map snd (scan_values iter) in
    '(success, pools) ← recover_metas tmp (pool_map_ m);
    let m := mkPoolManager pools (pm_extent_size_ m) in
    if negb success then Some (false, m)
    else
      '(success, pools) ← recover_parts db (pool_entries m).*1 pools;
      Some (success, mkPoolManager pools (pm_extent_size_ m)).

(** ** Blobs *)

(** [PoolManager::blobid_exist]. *)
Definition pm_blobid_exist (m : PoolManager) (blob_id : string) : bool :=
  existsb (fun p : string * Pool => blobid_exist (p_blob_mgr_ p.2) blob_id) (pool_entries m).

(** [uuids]: what [UUID::Generate] returns, call by call. *)
Fixpoint allocate_blobid (m : PoolManager) (uuids : list string) : option string :=
  match uuids with
  | [] => None
  | uuid :: uuids' =>
      let blob_id := kBlobIdPrefix +:+ uuid in
      if negb (pm_blobid_exist m blob_id) then Some blob_id else allocate_blobid m uuids'
  end.

(** The operations below that have the name of one of BlobManager carry the
    prefix [pm_].  Results: status, store, manager, [*blob_id] and [*rg_ids]. *)
Definition pm_create_blob (db : DB) (m : PoolManager) (uuids : list string)
  (now pool_id blob_name : string) (size type : Z) (desc user_id instance_id : string)
  : option (Status * DB * PoolManager * string * list string) :=
  id ← allocate_blobid m uuids;
  match find_status kPoolStatusEnabled m pool_id with
  | None => Some (mkStatus CYPRE_EM_POOL_NOT_FOUND "not find pool", db, m, id, [])
  | Some p =>
      let '(status, db, blobs) :=
        create_blob db (p_blob_mgr_ p) now id blob_name size type desc pool_id user_id instance_id in
      let p := with_blobs p blobs in
      let m := set_pool m pool_id p in
      if negb (ok status) then Some (status, db, m, id, [])
      else
        q ← udiv size (pm_extent_size_ m);
        let extent_num := to_int q in
        let '(_, ess) := list_es (p_es_mgr_ p) [] in
        '(status, db, rgs, rg_ids) ← allocate_rgs db (p_rg_mgr_ p) extent_num (p_es_mgr_ p) ess [];
        Some (status, db, set_pool m pool_id (with_rgs p rgs), id, rg_ids)
  end.

(** [for (auto &p : pool_map_) if (p.second->get_blob_mgr()->blob_valid(blob_id))]. *)
Fixpoint find_pool (f : Pool -> bool) (entries : list (string * Pool)) : option (string * Pool) :=
  match entries with
  | [] => None
  | e :: entries' => if f e.2 then Some e else find_pool f entries'
  end.

Definition pool_of_blob (m : PoolManager) (blob_id : string) : option (string * Pool) :=
  find_pool (fun p => blob_valid (p_blob_mgr_ p) blob_id) (pool_entries m).

Definition pm_blob_not_found : Status := mkStatus CYPRE_EM_BLOB_NOT_FOUND "not find blob".

(** The last components are [*pool_id], [*old_size] (if written) and
    [*rg_ids]. *)
Definition pm_resize_blob (extent_size : Z) (db : DB) (m : PoolManager) (now user_id blob_id : string)
  (new_size : Z) : option (Status * DB * PoolManager * string * option Z * list string) :=
  match pool_of_blob m blob_id with
  | None => Some (pm_blob_not_found, db, m, "", None, [])
  | Some (pool_id, p) =>
      let '(status, db, blobs, old_size) :=
        resize_blob extent_size db (p_blob_mgr_ p) now user_id blob_id new_size in
      let p := with_blobs p blobs in
      let m := set_pool m pool_id p in
      if negb (ok status) then Some (status, db, m, "", old_size, [])
      else
        old ← old_size;
        q ← udiv (wrap64 (new_size - old)) (pm_extent_size_ m);
        let extent_num := to_int q in
        let '(_, ess) := list_es (p_es_mgr_ p) [] in
        '(status, db, rgs, rg_ids) ← allocate_rgs db (p_rg_mgr_ p) extent_num (p_es_mgr_ p) ess [];
        Some (status, db, set_pool m pool_id (with_rgs p rgs), pool_id, Some old, rg_ids)
  end.

Definition pm_soft_delete_blob (db : DB) (m : PoolManager) (user_id blob_id : string)
  : Status * DB * PoolManager :=
  match pool_of_blob m blob_id with
  | None => (pm_blob_not_found, db, m)
  | Some (pool_id, p) =>
      let '(status, db, blobs) := soft_delete_blob db (p_blob_mgr_ p) user_id blob_id in
      (status, db, set_pool m pool_id (with_blobs p blobs))
  end.

Definition pm_delete_blob (db : DB) (m : PoolManager) (pool_id blob_id : string)
  : Status * DB * PoolManager :=
  match pool_map_ m !! pool_id with
  | None => (mkStatus CYPRE_EM_POOL_NOT_FOUND "not find pool", db, m)
  | Some p =>
      let '(status, db, blobs) := delete_blob db (p_blob_mgr_ p) blob_id in
      (status, db, set_pool m pool_id (with_blobs p blobs))
  end.

Definition pm_rename_blob (db : DB) (m : PoolManager) (now user_id blob_id new_name : string)
  : Status * DB * PoolManager :=
  match pool_of_blob m blob_id with
  | None => (pm_blob_not_found, db, m)
  | Some (pool_id, p) =>
      let '(status, db, blobs) := rename_blob db (p_blob_mgr_ p) now user_id blob_id new_name in
      (status, db, set_pool m pool_id (with_blobs p blobs))
  end.

Definition pm_query_blob (m : PoolManager) (blob_id : string) (all : bool) : Status * option PbBlob :=
  match find_pool (fun p => blobid_exist (p_blob_mgr_ p) blob_id) (pool_entries m) with
  | None => (pm_blob_not_found, None)
  | Some (_, p) => query_blob (p_blob_mgr_ p) blob_id all
  end.

Fixpoint pm_list_blobs_loop (entries : list (string * Pool)) (user_id : string) (blobs : list PbBlob)
  : list PbBlob :=
  match entries with
  | [] => blobs
  | (_, p) :: entries' =>
      if pool_status p =? kPoolStatusDisabled then pm_list_blobs_loop entries' user_id blobs
      else
        let '(status, res) := list_blobs_of_user (p_blob_mgr_ p) user_id [] in
        pm_list_blobs_loop entries' user_id (if ok status then (blobs ++ res)%list else blobs)
  end.

(** The three overloads of [list_blobs]. *)
Definition pm_list_blobs (m : PoolManager) (user_id : string) (blobs : list PbBlob)
  : Status * list PbBlob :=
  (Status_default, pm_list_blobs_loop (pool_entries m) user_id blobs).

Definition pm_list_blob_ids_of_user (m : PoolManager) (pool_id user_id : string) (blobs : list string)
  : Status * list string :=
  match find_not_disabled m pool_id with
  | None => (pool_not_found, blobs)
  | Some p => list_blob_ids_of_user (p_blob_mgr_ p) user_id blobs
  end.

Definition pm_list_blob_ids (m : PoolManager) (pool_id : string) (deleted : bool) (blobs : list string)
  : Status * list string :=
  match pool_map_ m !! pool_id with
  | None => (mkStatus CYPRE_EM_POOL_NOT_FOUND "not find pool", blobs)
  | Some p => list_blob_ids (p_blob_mgr_ p) deleted blobs
  end.

Definition pm_blob_valid (m : PoolManager) (pool_id blob_id : string) : bool :=
  match pool_map_ m !! pool_id with
  | None => false
  | Some p => blob_valid (p_blob_mgr_ p) blob_id
  end.

(** ** Extent servers *)

Definition pm_es_exist (m : PoolManager) (pool_id : string) (id : Z) : bool :=
  match find_not_disabled m pool_id with
  | None => false
  | Some p => es_exist (p_es_mgr_ p) id
  end.

Definition pm_query_es (m : PoolManager) (pool_id : string) (id : Z) : Status * option PbExtentServer :=
  match find_not_disabled m pool_id with
  | None => (pool_not_found, None)
  | Some p => query_es (p_es_mgr_ p) id
  end.

Definition pm_delete_es (db : DB) (m : PoolManager) (pool_id : string) (id : Z)
  : Status * DB * PoolManager :=
  match find_status kPoolStatusCreated m pool_id with
  | None => (pool_not_found, db, m)
  | Some p =>
      let '(status, db, ess) := delete_es db (p_es_mgr_ p) id in
      (status, db, set_pool m pool_id (with_ess p ess))
  end.

Definition pm_delete_all_es (db : DB) (m : PoolManager) (pool_id : string) : Status * DB * PoolManager :=
  match pool_map_ m !! pool_id with
  | None => (pool_not_found, db, m)
  | Some p =>
      let '(status, db, ess) := delete_all_es db (p_es_mgr_ p) in
      (status, db, set_pool m pool_id (with_ess p ess))
  end.

Definition pm_update_es (db : DB) (m : PoolManager) (pool_id : string) (id : Z) (name public_ip : string)
  (public_port : Z) (private_ip : string) (private_port size : Z) : Status * DB * PoolManager :=
  match find_not_disabled m pool_id with
  | None => (pool_not_found, db, m)
  | Some p =>
      let '(status, db, ess) :=
        update_es db (p_es_mgr_ p) id name public_ip public_port private_ip private_port size in
      (status, db, set_pool m pool_id (with_ess p ess))
  end.

Definition pm_list_es_pb (m : PoolManager) (pool_id : string) (ess : list PbExtentServer)
  : Status * list PbExtentServer :=
  match find_not_disabled m pool_id with
  | None => (pool_not_found, ess)
  | Some p => list_es_pb (p_es_mgr_ p) ess
  end.

Definition pm_list_es (m : PoolManager) (pool_id : string) (ess : list Z) : Status * list Z :=
  match find_not_disabled m pool_id with
  | None => (pool_not_found, ess)
  | Some p => list_es (p_es_mgr_ p) ess
  end.

Definition pm_create_es (db : DB) (m : PoolManager) (now : string) (id : Z) (name public_ip : string)
  (public_port : Z) (private_ip : string) (private_port size capacity : Z) (pool_id host rack : string)
  : Status * DB * PoolManager :=
  match find_status kPoolStatusCreated m pool_id with
  | None => (mkStatus CYPRE_EM_POOL_NOT_FOUND "not found pool or pool busy", db, m)
  | Some p =>
      let '(status, db, ess) :=
        create_es db (p_es_mgr_ p) now id name public_ip public_port private_ip private_port size
          capacity pool_id host rack in
      (status, db, set_pool m pool_id (with_ess p ess))
  end.

(** The router's primary and secondaries, if they are written. *)
Definition pm_query_es_router (m : PoolManager) (pool_id : string) (es_group : list Z)
  : option (Status * option ESInstance * list ESInstance) :=
  match find_status kPoolStatusEnabled m pool_id with
  | None => Some (pool_not_found, None, [])
  | Some p => query_es_router (p_es_mgr_ p) es_group
  end.

(** ** Replication groups *)

Definition pm_query_rg (extent_size : Z) (m : PoolManager) (pool_id rg_id : string)
  : Status * option PbReplicaGroup :=
  match find_status kPoolStatusEnabled m pool_id with
  | None => (pool_not_found, None)
  | Some p => query_rg extent_size (p_rg_mgr_ p) rg_id
  end.

Definition pm_list_rg (extent_size : Z) (m : PoolManager) (pool_id : string) (rgs : list PbReplicaGroup)
  : Status * list PbReplicaGroup :=
  match find_status kPoolStatusEnabled m pool_id with
  | None => (pool_not_found, rgs)
  | Some p => list_rg extent_size (p_rg_mgr_ p) rgs
  end.

(** These two use the iterator without testing it. *)
Definition pm_delete_all_rg (db : DB) (m : PoolManager) (pool_id : string)
  : option (Status * DB * PoolManager) :=
  p ← pool_map_ m !! pool_id;
  let '(status, db, rgs) := delete_all_rg db (p_rg_mgr_ p) in
  Some (status, db, set_pool m pool_id (with_rgs p rgs)).

Definition pm_query_es_group (m : PoolManager) (pool_id rg_id : string) : option (list Z) :=
  p ← pool_map_ m !! pool_id;
  query_es_group (p_rg_mgr_ p) rg_id.
End PoolManager.
