(* ===== verification/PoolTheorems.v ===== *)
(** * Theorems on pools

    The choice of a pool for a blob, the registry of pools (identifiers, names
    and the limit on their number) as an invariant of every operation of
    [PoolManager]. *)

From Stdlib Require Import Ascii SpecFloat.
From stdpp Require Import sorting.
From S2P Require Import Prelude Status Codec KvStore Persist Enums Net Blob User EsMgr RgAllocater RgMgr Pool.

#[local] Open Scope string_scope.
#[local] Open Scope Z_scope.

(** ** Lookup and iteration *)

Lemma pool_entries_elem m id p : (id, p) ∈ pool_entries m <-> pool_map_ m !! id = Some p.
Proof. unfold pool_entries. by rewrite merge_sort_Permutation, elem_of_map_to_list. Qed.

Lemma existsb_pools_false m (f : string * Pool -> bool) :
  existsb f (pool_entries m) = false <-> forall id p, pool_map_ m !! id = Some p -> f (id, p) = false.
Proof.
  rewrite <- not_true_iff_false, existsb_exists. split.
  - intros Hn id p Hp. apply not_true_iff_false. intros Hf. apply Hn. exists (id, p).
    by rewrite <- list_elem_of_In, pool_entries_elem.
  - intros Hn ([id p] & Hin & Hf). rewrite <- list_elem_of_In, pool_entries_elem in Hin.
    by rewrite (Hn id p Hin) in Hf.
Qed.

Lemma find_not_disabled_Some m id p :
  find_not_disabled m id = Some p <->
  pool_map_ m !! id = Some p /\ pool_status p <> kPoolStatusDisabled.
Proof.
  unfold find_not_disabled. destruct (pool_map_ m !! id) as [q|]; [|naive_solver].
  destruct (Z.eqb_spec (pool_status q) kPoolStatusDisabled); naive_solver.
Qed.

Lemma find_status_Some st m id p :
  find_status st m id = Some p <-> pool_map_ m !! id = Some p /\ pool_status p = st.
Proof.
  unfold find_status. destruct (pool_map_ m !! id) as [q|]; [|naive_solver].
  destruct (Z.eqb_spec (pool_status q) st); naive_solver.
Qed.

Lemma find_pool_Some f entries e : find_pool f entries = Some e -> e ∈ entries /\ f e.2 = true.
Proof.
  induction entries as [|x entries IH]; [done|]. cbn. destruct (f x.2) eqn:E.
  - intros [= <-]. split; [left|done].
  - intros [? ?]%IH. split; [by right|done].
Qed.

Lemma pool_of_blob_Some m blob_id id p :
  pool_of_blob m blob_id = Some (id, p) ->
  pool_map_ m !! id = Some p /\ blob_valid (p_blob_mgr_ p) blob_id = true.
Proof. intros [Hin Hv]%find_pool_Some. by apply pool_entries_elem in Hin. Qed.

(** ** Least loaded pool *)

Lemma f64_ltb_trans x y z : f64_ltb x y = true -> f64_ltb y z = true -> f64_ltb x z = true.
Proof.
  unfold f64_ltb, SFltb. destruct x as [[]|[]| |[] m1 e1], y as [[]|[]| |[] m2 e2], z as [[]|[]| |[] m3 e3];
    cbn; try done.
  all: change (Pos.compare_cont Eq) with Pos.compare.
  all: destruct (Z.compare_spec e1 e2), (Z.compare_spec e2 e3), (Z.compare_spec e1 e3); try done; try lia.
  all: destruct (Pos.compare_spec m1 m2), (Pos.compare_spec m2 m3), (Pos.compare_spec m1 m3); try done; lia.
Qed.

Lemma f64_ltb_irrefl x : f64_ltb x x = false.
Proof.
  unfold f64_ltb, SFltb. destruct x as [[]|[]| |[] m e]; cbn; try done.
  all: rewrite Z.compare_refl; change (Pos.compare_cont Eq) with Pos.compare; by rewrite Pos.compare_refl.
Qed.

Lemma f64_ltb_asym x y : f64_ltb x y = true -> f64_ltb y x = false.
Proof.
  intros Hxy. destruct (f64_ltb y x) eqn:E; [|done].
  pose proof (f64_ltb_trans _ _ _ Hxy E) as Hc. by rewrite f64_ltb_irrefl in Hc.
Qed.

(** An enabled pool of the type, and its load. *)
Definition eligible (type : Z) (p : Pool) : Prop :=
  p_type_ (p_meta p) = type /\ pool_status p = kPoolStatusEnabled.

Lemma get_pool_loop_spec type entries : forall min best,
  let r := get_pool_loop entries type min best in
  (r = best /\ forall id p, (id, p) ∈ entries -> eligible type p -> f64_ltb (pool_ratio p) min = false) \/
  exists id p, (id, p) ∈ entries /\ r = p_id_ (p_meta p) /\ eligible type p /\
    f64_ltb (pool_ratio p) min = true /\
    forall id' q, (id', q) ∈ entries -> eligible type q -> f64_ltb (pool_ratio q) (pool_ratio p) = false.
Proof.
  induction entries as [|[id p] entries IH]; intros min best; cbn [get_pool_loop].
  { left. split; [done|]. by intros ? ? ?%elem_of_nil. }
  destruct (_ && _) eqn:E.
  - apply andb_true_iff in E as [E1%Z.eqb_eq E2%Z.eqb_eq]. destruct (f64_ltb (pool_ratio p) min) eqn:El.
    + right. destruct (IH (pool_ratio p) (p_id_ (p_meta p))) as [[-> Hall]|(id' & q & Hin & -> & Hq & Hlt & Hall)].
      * exists id, p. split_and!; [left|done|done..|done|].
        intros id' q [[= -> ->]|Hin]%elem_of_cons Hq; [|eauto].
        apply f64_ltb_irrefl.
      * exists id', q. split_and!; [by right|done|apply Hq..|by eapply f64_ltb_trans|].
        intros id'' q' [[= -> ->]|Hin']%elem_of_cons Hq'; [|eauto].
        by apply f64_ltb_asym.
    + destruct (IH min best) as [[-> Hall]|(id' & q & Hin & -> & Hq & Hlt & Hall)].
      * left. split; [done|]. intros id' q [[= -> ->]|Hin]%elem_of_cons Hq; eauto.
      * right. exists id', q. split_and!; [by right|done|apply Hq..|done|].
        intros id'' q' [[= -> ->]|Hin']%elem_of_cons Hq'; [|eauto].
        destruct (f64_ltb (pool_ratio p) (pool_ratio q)) eqn:Er; [|done].
        by rewrite (f64_ltb_trans _ _ _ Er Hlt) in El.
  - assert (Hne : ~ eligible type p).
    { intros [Ht Hs]. by rewrite Ht, Hs, !Z.eqb_refl in E. }
    destruct (IH min best) as [[-> Hall]|(id' & q & Hin & -> & Hq & Hlt & Hall)].
    + left. split; [done|]. intros id' q [[= -> ->]|Hin]%elem_of_cons Hq; [done|eauto].
    + right. exists id', q. split_and!; [by right|done|apply Hq..|done|].
      intros id'' q' [[= -> ->]|Hin']%elem_of_cons Hq'; [done|eauto].
Qed.

(** [get_pool] returns an enabled pool of the requested type whose fill
    ratio, in the source's double arithmetic, is below 1 and that no other
    such pool undercuts; it returns the empty string only when every enabled
    pool of the type is full (or has a ratio that is not a number). *)
Theorem get_pool_least_loaded m type :
  (forall id p, pool_map_ m !! id = Some p -> p_id_ (p_meta p) = id) ->
  (get_pool m type = "" /\
   forall id p, pool_map_ m !! id = Some p -> eligible type p ->
     f64_ltb (pool_ratio p) (f64_of_u64 1) = false) \/
  exists p, pool_map_ m !! get_pool m type = Some p /\ eligible type p /\
    f64_ltb (pool_ratio p) (f64_of_u64 1) = true /\
    forall id q, pool_map_ m !! id = Some q -> eligible type q ->
      f64_ltb (pool_ratio q) (pool_ratio p) = false.
Proof.
  intros Hid. unfold get_pool.
  destruct (get_pool_loop_spec type (pool_entries m) (f64_of_u64 1) "")
    as [[-> Hall]|(id & p & Hin & -> & Hp & Hlt & Hall)].
  - left. split; [done|]. intros id p Hm. by apply (Hall id), pool_entries_elem.
  - right. apply pool_entries_elem in Hin. exists p. rewrite (Hid id p Hin). split_and!; [done|apply Hp..|done|].
    intros id' q Hq. by apply (Hall id'), pool_entries_elem.
Qed.

(** ** The registry *)

(** Pools are filed under their own identifier, which is [pool-] and a
    letter, and have distinct names. *)
Definition registry_ok (m : gmap string Pool) : Prop :=
  (forall id p, m !! id = Some p ->
     p_id_ (p_meta p) = id /\ exists c, c ∈ pool_letters /\ id = kPoolIdPrefix +:+ String c "") /\
  (forall id1 id2 p1 p2, m !! id1 = Some p1 -> m !! id2 = Some p2 ->
     p_name_ (p_meta p1) = p_name_ (p_meta p2) -> id1 = id2).

Lemma allocate_poolid_spec m :
  (allocate_poolid m = "" /\
   forall c, c ∈ pool_letters -> is_Some (pool_map_ m !! (kPoolIdPrefix +:+ String c ""))) \/
  (pool_map_ m !! allocate_poolid m = None /\
   exists c, c ∈ pool_letters /\ allocate_poolid m = kPoolIdPrefix +:+ String c "").
Proof.
  unfold allocate_poolid. generalize pool_letters. induction l as [|c l IH]; cbn [allocate_poolid_loop].
  { left. split; [done|]. by intros ? ?%elem_of_nil. }
  destruct (pool_map_ m !! (kPoolIdPrefix +:+ String c "")) eqn:E.
  - destruct IH as [[-> Hall]|(Hn & d & Hd & Heq)].
    + left. split; [done|]. intros d [->|Hd]%elem_of_cons; [by rewrite E|eauto].
    + right. split; [done|]. exists d. split; [by right|done].
  - right. split; [done|]. exists c. split; [left|done].
Qed.

(** Replacing a pool by one with the same identifier and name. *)
Lemma registry_same m id p p' :
  registry_ok m -> m !! id = Some p -> p_id_ (p_meta p') = p_id_ (p_meta p) ->
  p_name_ (p_meta p') = p_name_ (p_meta p) -> registry_ok (<[id := p']> m).
Proof.
  intros [Hi Hn] Hm He Hne. destruct (Hi id p Hm) as [Hid Hc]. split.
  - intros i q [[<- <-]|[_ Hq]]%lookup_insert_Some; [|eauto]. by rewrite He.
  - intros i1 i2 q1 q2. rewrite !lookup_insert_Some.
    intros [[<- <-]|[_ H1]] [[<- <-]|[_ H2]]; rewrite ?Hne; eauto.
Qed.

(** A pool whose name no other pool has. *)
Lemma registry_insert m id p :
  registry_ok m -> p_id_ (p_meta p) = id ->
  (exists c, c ∈ pool_letters /\ id = kPoolIdPrefix +:+ String c "") ->
  (forall id' q, m !! id' = Some q -> id' <> id -> p_name_ (p_meta q) <> p_name_ (p_meta p)) ->
  registry_ok (<[id := p]> m).
Proof.
  intros [Hi Hn] Hid Hc Hname. split.
  - intros i q [[<- <-]|[_ Hq]]%lookup_insert_Some; eauto.
  - intros i1 i2 q1 q2. rewrite !lookup_insert_Some.
    intros [[<- <-]|[Hne1 H1]] [[<- <-]|[Hne2 H2]] He; [done| | |eauto].
    + by destruct (Hname i2 q2).
    + by destruct (Hname i1 q1).
Qed.

Lemma registry_delete m id : registry_ok m -> registry_ok (delete id m).
Proof.
  intros [Hi Hn]. split.
  - intros i q [_ ?]%lookup_delete_Some; eauto.
  - intros i1 i2 q1 q2. rewrite !lookup_delete_Some. intros [_ ?] [_ ?]; eauto.
Qed.

(** At most one pool per letter. *)
Lemma registry_size m : registry_ok m -> (size m <= 26)%nat.
Proof.
  intros [Hi _].
  assert (Hsub : dom m ⊆ list_to_set (map (fun c => kPoolIdPrefix +:+ String c "") pool_letters)).
  { intros id [p Hp]%elem_of_dom. destruct (Hi id p Hp) as (_ & c & Hc & ->).
    apply elem_of_list_to_set, list_elem_of_fmap. eauto. }
  apply subseteq_size in Hsub. rewrite size_dom in Hsub. etransitivity; [exact Hsub|].
  by vm_compute.
Qed.

(** ** Operations as steps

    Every state-changing operation of [PoolManager].  The two removals of a
    pool's servers and groups are issued by the garbage collector for pools
    that are disabled. *)

Section PoolSteps.
Context `{RocksDB DB} `{Crc32c}.
Implicit Types (db : DB) (m : PoolManager).

Inductive pool_step : DB * PoolManager -> DB * PoolManager -> Prop :=
  | ps_create rg_per_es db m now name type pfd rn en st db' m' id :
      create_pool rg_per_es db m now name type pfd rn en = (st, db', m', id) ->
      pool_step (db, m) (db', m')
  | ps_update db m pool_id name type fd rn en st db' m' :
      update_pool db m pool_id name type fd rn en = (st, db', m') -> pool_step (db, m) (db', m')
  | ps_init extent_size rg_per_es db m now pool_id st db' m' :
      init_pool extent_size rg_per_es db m now pool_id = Some (st, db', m') ->
      pool_step (db, m) (db', m')
  | ps_soft_delete db m pool_id st db' m' :
      soft_delete_pool db m pool_id = (st, db', m') -> pool_step (db, m) (db', m')
  | ps_delete db m pool_id st db' m' :
      delete_pool db m pool_id = (st, db', m') -> pool_step (db, m) (db', m')
  | ps_create_blob db m uuids now pool_id name sz type desc user_id inst st db' m' id rgs :
      pm_create_blob db m uuids now pool_id name sz type desc user_id inst = Some (st, db', m', id, rgs) ->
      pool_step (db, m) (db', m')
  | ps_resize_blob extent_size db m now user_id blob_id sz st db' m' pool_id old rgs :
      pm_resize_blob extent_size db m now user_id blob_id sz = Some (st, db', m', pool_id, old, rgs) ->
      pool_step (db, m) (db', m')
  | ps_soft_delete_blob db m user_id blob_id st db' m' :
      pm_soft_delete_blob db m user_id blob_id = (st, db', m') -> pool_step (db, m) (db', m')
  | ps_delete_blob db m pool_id blob_id st db' m' :
      pm_delete_blob db m pool_id blob_id = (st, db', m') -> pool_step (db, m) (db', m')
  | ps_rename_blob db m now user_id blob_id name st db' m' :
      pm_rename_blob db m now user_id blob_id name = (st, db', m') -> pool_step (db, m) (db', m')
  | ps_create_es db m now id name pip pport vip vport sz cap pool_id host rack st db' m' :
      pm_create_es db m now id name pip pport vip vport sz cap pool_id host rack = (st, db', m') ->
      pool_step (db, m) (db', m')
  | ps_update_es db m pool_id id name pip pport vip vport sz st db' m' :
      pm_update_es db m pool_id id name pip pport vip vport sz = (st, db', m') ->
      pool_step (db, m) (db', m')
  | ps_delete_es db m pool_id id st db' m' :
      pm_delete_es db m pool_id id = (st, db', m') -> pool_step (db, m) (db', m')
  | ps_delete_all_es db m pool_id p st db' m' :
      pool_map_ m !! pool_id = Some p -> pool_status p = kPoolStatusDisabled ->
      pm_delete_all_es db m pool_id = (st, db', m') -> pool_step (db, m) (db', m')
  | ps_delete_all_rg db m pool_id p st db' m' :
      pool_map_ m !! pool_id = Some p -> pool_status p = kPoolStatusDisabled ->
      pm_delete_all_rg db m pool_id = Some (st, db', m') -> pool_step (db, m) (db', m').

(** What a step does to the table: it adds a new pool, removes one, leaves it
    alone or replaces one pool by a successor. *)
Definition group_servers (p : Pool) : gmap string (list Z) := rg_extent_servers_ <$> rg_map_ (p_rg_mgr_ p).

Record succeeds (p p' : Pool) : Prop := mkSucceeds {
  succ_id : p_id_ (p_meta p') = p_id_ (p_meta p);
  succ_status : pool_status p' = pool_status p \/ pool_status p' = kPoolStatusDisabled \/
    pool_status p = kPoolStatusCreated /\ pool_status p' = kPoolStatusEnabled;
  succ_frozen : pool_status p = kPoolStatusEnabled ->
    dom (p_es_mgr_ p') = dom (p_es_mgr_ p) /\ group_servers p' = group_servers p
}.

Inductive table_change m : PoolManager -> Prop :=
  | tc_same : table_change m m
  | tc_add rg_per_es now id name type pfd rn en :
      pool_map_ m !! id = None -> (exists c, c ∈ pool_letters /\ id = kPoolIdPrefix +:+ String c "") ->
      (forall id' q, pool_map_ m !! id' = Some q -> p_name_ (p_meta q) <> name) ->
      table_change m (set_pool m id (Pool_new rg_per_es now id name type pfd rn en (pm_extent_size_ m)))
  | tc_remove id : table_change m (mkPoolManager (delete id (pool_map_ m)) (pm_extent_size_ m))
  | tc_replace id p p' :
      pool_map_ m !! id = Some p -> succeeds p p' ->
      (p_name_ (p_meta p') = p_name_ (p_meta p) \/
       forall id' q, pool_map_ m !! id' = Some q -> p_id_ (p_meta q) <> id ->
         p_name_ (p_meta q) <> p_name_ (p_meta p')) ->
      table_change m (set_pool m id p').

(** ** Groups keep their servers

    An allocation changes the count of extents of groups, and nothing else of
    them. *)

Section Keeps.
Context {B : Type} (f : ReplicationGroup -> B) (f_count : forall g n, f (set_nr_extents g n) = f g).

Lemma allocate_rg_loop_keeps fuel ess ids rgs es_rgs heap cur tmp rgs' es_rgs' heap' tmp' res :
  allocate_rg_loop fuel ess ids rgs es_rgs heap cur tmp = Some (rgs', es_rgs', heap', tmp', res) ->
  f <$> rgs' = f <$> rgs.
Proof.
  revert es_rgs heap cur tmp. induction fuel as [|fuel IH]; [done|]. intros es_rgs heap cur tmp.
  cbn [allocate_rg_loop]. intros E.
  repeat match type of E with
  | (?x ≫= _) = _ => let q := fresh "q" in let Eq := fresh "Eq" in
      destruct x as [q|] eqn:Eq; cbn [mbind option_bind] in E; [|done]
  | (let '(_, _) := ?x in _) = _ => destruct x
  | (if ?b then _ else _) = _ => destruct b
  end; simplify_eq; [|done|by eapply IH].
  rewrite fmap_insert, f_count. apply insert_id. by rewrite lookup_fmap, Eq4.
Qed.

Lemma allocate_rg_keeps rm ess ids id rm' :
  allocate_rg rm ess ids = Some (id, rm') -> f <$> rg_map_ rm' = f <$> rg_map_ rm.
Proof.
  unfold allocate_rg. destruct (allocate_rg_loop _ _ _ _ _ _ _ _) as [[[[[rgs es_rgs] heap] tmp] res]|] eqn:E;
    [|done]. apply allocate_rg_loop_keeps in E. cbn [mbind option_bind].
  destruct (restore _ _ _); [|done]. cbn [mbind option_bind].
  destruct res as [[es key]|]; [|by intros; simplify_eq].
  destruct (rgs !! key); [|done]. cbn [mbind option_bind].
  destruct (requeue _ _ _); [|done]. cbn. by intros; simplify_eq.
Qed.

Lemma allocate_rgs_loop_keeps n : forall rm ess ids rgs acc go rm' rgs' acc',
  allocate_rgs_loop n rm ess ids rgs acc = Some (go, rm', rgs', acc') ->
  f <$> rg_map_ rm' = f <$> rg_map_ rm.
Proof.
  induction n as [|n IH]; intros rm ess ids rgs acc go rm' rgs' acc'; cbn [allocate_rgs_loop];
    [by intros; simplify_eq|].
  destruct (allocate_rg rm ess ids) as [[id rm1]|] eqn:E; [|done]. cbn [mbind option_bind].
  apply allocate_rg_keeps in E. destruct (negb _); [|by intros; simplify_eq].
  intros ->%IH. done.
Qed.

Lemma allocate_rgs_keeps db rm n ess ids acc st db' rm' acc' :
  allocate_rgs db rm n ess ids acc = Some (st, db', rm', acc') ->
  f <$> rg_map_ rm' = f <$> rg_map_ rm.
Proof.
  unfold allocate_rgs.
  destruct (allocate_rgs_loop _ _ _ _ _ _) as [[[[go rm1] rgs] acc1]|] eqn:E; [|done]. cbn [mbind option_bind].
  apply allocate_rgs_loop_keeps in E. destruct (negb go); [by intros; simplify_eq|].
  destruct (mapM _ _); [|done]. cbn [mbind option_bind].
  destruct (multi_put_loop _ _ _ _) as [[] ?]; cbn [negb]; by intros; simplify_eq.
Qed.
End Keeps.

Lemma allocate_rgs_servers db rm n ess ids acc st db' rm' acc' :
  allocate_rgs db rm n ess ids acc = Some (st, db', rm', acc') ->
  rg_extent_servers_ <$> rg_map_ rm' = rg_extent_servers_ <$> rg_map_ rm.
Proof. by apply allocate_rgs_keeps. Qed.

(** ** Steps change the table in these ways *)

Lemma succeeds_parts p rgs blobs ess :
  rg_extent_servers_ <$> rg_map_ rgs = group_servers p ->
  (pool_status p = kPoolStatusEnabled -> dom ess = dom (p_es_mgr_ p)) ->
  succeeds p (mkPool (p_meta p) rgs blobs ess).
Proof. intros Hg He. split; [done|by left|]. cbn. auto. Qed.

Lemma tc_parts m id p rgs blobs ess :
  pool_map_ m !! id = Some p -> rg_extent_servers_ <$> rg_map_ rgs = group_servers p ->
  (pool_status p = kPoolStatusEnabled -> dom ess = dom (p_es_mgr_ p)) ->
  table_change m (set_pool m id (mkPool (p_meta p) rgs blobs ess)).
Proof. intros Hm Hg He. eapply tc_replace; [done|by apply succeeds_parts|by left]. Qed.

Lemma set_pool_twice m id p q : set_pool (set_pool m id p) id q = set_pool m id q.
Proof. unfold set_pool. cbn. by rewrite insert_insert_eq. Qed.

Lemma create_pool_change rg_per_es db m now name type pfd rn en st db' m' id :
  create_pool rg_per_es db m now name type pfd rn en = (st, db', m', id) -> table_change m m'.
Proof.
  unfold create_pool. destruct (existsb _ _) eqn:Ex; [intros; simplify_eq; constructor|].
  destruct (allocate_poolid_spec m) as [[-> _]|(Hn & c & Hc & Heq)].
  { cbn. intros; simplify_eq. constructor. }
  destruct (String.eqb (allocate_poolid m) "") eqn:Ee; [intros; simplify_eq; constructor|].
  destruct (RocksStore_Put _ _ _). destruct (negb _); intros; simplify_eq; [constructor|].
  unfold add_pool. cbn. apply tc_add; [done|eauto|].
  intros id' q Hq Hname. rewrite existsb_pools_false in Ex. specialize (Ex id' q Hq). cbn in Ex.
  by rewrite Hname, String.eqb_refl in Ex.
Qed.

Lemma update_pool_change db m pool_id name type fd rn en st db' m' :
  update_pool db m pool_id name type fd rn en = (st, db', m') -> table_change m m'.
Proof.
  unfold update_pool. destruct (existsb _ _) eqn:Ex; [intros; simplify_eq; constructor|].
  destruct (find_not_disabled m pool_id) as [p|] eqn:Ep; [|intros; simplify_eq; constructor].
  apply find_not_disabled_Some in Ep as [Hp _].
  destruct (RocksStore_Put _ _ _). set (meta := set_pool_info _ _ _ _ _ _).
  assert (Hc : table_change m (set_pool m pool_id (with_meta p meta))).
  { eapply tc_replace; [done|split; [done|by left|done]|]. cbn. unfold or_old.
    destruct (String.eqb name "") eqn:Ee; [by left|]. right. intros id' q Hq Hne Hname.
    rewrite existsb_pools_false in Ex. specialize (Ex id' q Hq). cbn in Ex.
    rewrite Hname, String.eqb_refl, andb_true_r in Ex. by apply negb_false_iff, String.eqb_eq in Ex. }
  destruct (negb _); intros; by simplify_eq.
Qed.

Lemma init_pool_change extent_size rg_per_es db m now pool_id st db' m' :
  init_pool extent_size rg_per_es db m now pool_id = Some (st, db', m') -> table_change m m'.
Proof.
  unfold init_pool. destruct (pool_map_ m !! pool_id) as [p|] eqn:Ep; [|intros; simplify_eq; constructor].
  destruct (Z.eqb_spec (pool_status p) kPoolStatusCreated) as [Hs|]; cbn [negb]; [|intros; simplify_eq; constructor].
  destruct (negb _); [intros; simplify_eq; constructor|]. cbn [list_es].
  change (ok Status_default) with true. cbn [negb].
  destruct (RgManager_init _ _ _ _ _ _ _ _ _ _) as [[[[st1 db1] rgs] ess]|]; [|done]. cbn [mbind option_bind].
  assert (Hne : pool_status p <> kPoolStatusEnabled) by (rewrite Hs; done).
  destruct (negb _).
  { intros [= <- <- <-]. eapply tc_replace; [done|split; [done|by left|by intros ?]|by left]. }
  destruct (RocksStore_Put _ _ _).
  assert (Hc : table_change m (set_pool m pool_id
    (with_meta (with_ess (with_rgs p rgs) ess) (set_pool_status (p_meta p) kPoolStatusEnabled)))).
  { eapply tc_replace; [done|split; [done|by right; right|by intros ?]|by left]. }
  destruct (negb _); intros [= <- <- <-]; exact Hc.
Qed.

Lemma es_frozen_insert (ess : EsManager) id e e' : ess !! id = Some e -> dom (<[id := e']> ess) = dom ess.
Proof. intros He. apply dom_insert_lookup_L. eauto. Qed.

Lemma soft_delete_pool_change db m pool_id st db' m' :
  soft_delete_pool db m pool_id = (st, db', m') -> table_change m m'.
Proof.
  unfold soft_delete_pool.
  destruct (find_not_disabled m pool_id) as [p|] eqn:Ep; [|intros; simplify_eq; constructor].
  apply find_not_disabled_Some in Ep as [Hp _]. destruct (RocksStore_Put _ _ _).
  assert (Hc : table_change m (set_pool m pool_id (with_meta p (set_pool_status (p_meta p) kPoolStatusDisabled)))).
  { eapply tc_replace; [done|split; [done|by right; left|done]|by left]. }
  destruct (negb _); intros; by simplify_eq.
Qed.

Lemma pm_create_blob_change db m uuids now pool_id name sz type desc user_id inst st db' m' id rgs :
  pm_create_blob db m uuids now pool_id name sz type desc user_id inst = Some (st, db', m', id, rgs) ->
  table_change m m'.
Proof.
  unfold pm_create_blob. destruct (allocate_blobid m uuids) as [i|]; [|done]. cbn [mbind option_bind].
  destruct (find_status _ m pool_id) as [p|] eqn:Ep; [|intros; simplify_eq; constructor].
  apply find_status_Some in Ep as [Hp _]. destruct (create_blob _ _ _ _ _ _ _ _ _ _ _) as [[st1 db1] blobs].
  destruct (negb _); [intros; simplify_eq; by apply tc_parts|].
  destruct (udiv _ _); [|done]. cbn [mbind option_bind list_es].
  destruct (allocate_rgs _ _ _ _ _ _) as [[[[st2 db2] rm] ids]|] eqn:Ea; [|done]. cbn.
  intros; simplify_eq. rewrite set_pool_twice. apply allocate_rgs_servers in Ea.
  by apply (tc_parts _ _ p rm blobs (p_es_mgr_ p)).
Qed.

Lemma pm_resize_blob_change extent_size db m now user_id blob_id sz st db' m' pool_id old rgs :
  pm_resize_blob extent_size db m now user_id blob_id sz = Some (st, db', m', pool_id, old, rgs) ->
  table_change m m'.
Proof.
  unfold pm_resize_blob. destruct (pool_of_blob m blob_id) as [[i p]|] eqn:Ep;
    [|intros; simplify_eq; constructor].
  apply pool_of_blob_Some in Ep as [Hp _]. destruct (resize_blob _ _ _ _ _ _ _) as [[[st1 db1] blobs] o].
  destruct (negb _); [intros; simplify_eq; by apply tc_parts|].
  destruct o; [|done]. cbn [mbind option_bind]. destruct (udiv _ _); [|done]. cbn [mbind option_bind list_es].
  destruct (allocate_rgs _ _ _ _ _ _) as [[[[st2 db2] rm] ids]|] eqn:Ea; [|done]. cbn.
  intros; simplify_eq. rewrite set_pool_twice. apply allocate_rgs_servers in Ea.
  by apply (tc_parts _ _ p rm blobs (p_es_mgr_ p)).
Qed.

Lemma update_es_dom db ess id name pip pport vip vport sz st db' ess' :
  update_es db ess id name pip pport vip vport sz = (st, db', ess') -> dom ess' = dom ess.
Proof.
  unfold update_es. destruct (ess !! id) as [e|] eqn:E; [|by intros; simplify_eq].
  destruct (negb _); [by intros; simplify_eq|]. destruct (RocksStore_Put _ _ _).
  destruct (negb _); intros; simplify_eq; by eapply es_frozen_insert.
Qed.

Lemma pool_step_change s s' : pool_step s s' -> table_change s.2 s'.2.
Proof.
  destruct 1 as [| | | |db m pool_id st db' m' E| | |db m user_id blob_id st db' m' E
    |db m pool_id blob_id st db' m' E|db m now user_id blob_id name st db' m' E
    |db m now id name pip pport vip vport sz cap pool_id host rack st db' m' E
    |db m pool_id id name pip pport vip vport sz st db' m' E|db m pool_id id st db' m' E
    |db m pool_id p st db' m' Hp Hd E|db m pool_id p st db' m' Hp Hd E]; cbn [snd].
  - by eapply create_pool_change.
  - by eapply update_pool_change.
  - by eapply init_pool_change.
  - by eapply soft_delete_pool_change.
  - unfold delete_pool in E. destruct (pool_map_ m !! pool_id); [|simplify_eq; constructor].
    destruct (RocksStore_Delete _ _). destruct (negb _); simplify_eq; constructor.
  - by eapply pm_create_blob_change.
  - by eapply pm_resize_blob_change.
  - unfold pm_soft_delete_blob in E. destruct (pool_of_blob m blob_id) as [[i p]|] eqn:Ep; [|simplify_eq; constructor].
    apply pool_of_blob_Some in Ep as [Hp _]. destruct (soft_delete_blob _ _ _ _) as [[? ?] ?].
    simplify_eq. by apply tc_parts.
  - unfold pm_delete_blob in E. destruct (pool_map_ m !! pool_id) as [p|] eqn:Hp; [|simplify_eq; constructor].
    destruct (delete_blob _ _ _) as [[? ?] ?]. simplify_eq. by apply tc_parts.
  - unfold pm_rename_blob in E. destruct (pool_of_blob m blob_id) as [[i p]|] eqn:Ep; [|simplify_eq; constructor].
    apply pool_of_blob_Some in Ep as [Hp _]. destruct (rename_blob _ _ _ _ _ _) as [[? ?] ?].
    simplify_eq. by apply tc_parts.
  - unfold pm_create_es in E. destruct (find_status _ m pool_id) as [p|] eqn:Ep; [|simplify_eq; constructor].
    apply find_status_Some in Ep as [Hp Hs]. destruct (create_es _ _ _ _ _ _ _ _ _ _ _ _ _ _) as [[? ?] ?].
    simplify_eq. apply tc_parts; [done..|]. by rewrite Hs.
  - unfold pm_update_es in E. destruct (find_not_disabled m pool_id) as [p|] eqn:Ep; [|simplify_eq; constructor].
    apply find_not_disabled_Some in Ep as [Hp _]. destruct (update_es _ _ _ _ _ _ _ _ _) as [[? ?] ?] eqn:Eu.
    simplify_eq. apply tc_parts; [done..|]. intros _. by eapply update_es_dom.
  - unfold pm_delete_es in E. destruct (find_status _ m pool_id) as [p|] eqn:Ep; [|simplify_eq; constructor].
    apply find_status_Some in Ep as [Hp Hs]. destruct (delete_es _ _ _) as [[? ?] ?].
    simplify_eq. apply tc_parts; [done..|]. by rewrite Hs.
  - unfold pm_delete_all_es in E. rewrite Hp in E. destruct (delete_all_es _ _) as [[? ?] ?].
    simplify_eq. apply tc_parts; [done..|]. by rewrite Hd.
  - unfold pm_delete_all_rg in E. rewrite Hp in E. cbn in E. simplify_eq.
    eapply tc_replace; [done|split; [done|by left|by rewrite Hd]|by left].
Qed.

(** ** Invariants *)

Lemma table_change_registry m m' :
  table_change m m' -> registry_ok (pool_map_ m) -> registry_ok (pool_map_ m').
Proof.
  intros Hc Hr. destruct Hc as [|rg_per_es now id name type pfd rn en Hn Hid Hname|id|id p p' Hp Hs Hname].
  - done.
  - apply registry_insert; [done|done|done|]. intros id' q Hq _. cbn. eauto.
  - by apply registry_delete.
  - destruct Hname as [Hname|Hname].
    + by eapply registry_same; [..|apply Hs|].
    + destruct (proj1 Hr id p Hp) as [Hid Hc]. apply registry_insert; [done|by rewrite (succ_id _ _ Hs)|done|].
      intros id' q Hq Hne. apply (Hname id' q Hq). by rewrite (proj1 (proj1 Hr id' q Hq)).
Qed.

Lemma pool_steps_registry s s' :
  rtc pool_step s s' -> registry_ok (pool_map_ s.2) -> registry_ok (pool_map_ s'.2).
Proof.
  induction 1 as [|s1 s2 s3 Hs _ IH]; [done|]. intros Hr.
  eauto using table_change_registry, pool_step_change.
Qed.

Lemma allocate_poolid_exhausted m : allocate_poolid m = "" -> (26 <= size (pool_map_ m))%nat.
Proof.
  intros E. destruct (allocate_poolid_spec m) as [[_ Hall]|(_ & c & _ & Hc)]; [|by rewrite E in Hc].
  assert (Hsub : list_to_set (map (fun c => kPoolIdPrefix +:+ String c "") pool_letters) ⊆ dom (pool_map_ m)).
  { intros id (c & -> & Hc)%elem_of_list_to_set%list_elem_of_fmap. apply elem_of_dom. by apply Hall. }
  apply subseteq_size in Hsub. rewrite size_dom in Hsub. etransitivity; [|exact Hsub]. by vm_compute.
Qed.

(** in every state reached by the operations of [PoolManager] from an
    empty table, a pool is filed under its own identifier, no two pools (deleted
    ones included) have the same name, there are at most 26 pools, and
    identifiers run out only when there are 26. *)
Theorem pool_registry_invariant db0 extent_size s :
  rtc pool_step (db0, mkPoolManager ∅ extent_size) s ->
  (forall id p, pool_map_ s.2 !! id = Some p -> p_id_ (p_meta p) = id) /\
  (forall id1 id2 p1 p2, pool_map_ s.2 !! id1 = Some p1 -> pool_map_ s.2 !! id2 = Some p2 ->
     p_name_ (p_meta p1) = p_name_ (p_meta p2) -> id1 = id2) /\
  (size (pool_map_ s.2) <= 26)%nat /\
  (allocate_poolid s.2 = "" -> size (pool_map_ s.2) = 26%nat).
Proof.
  intros Hr%pool_steps_registry; [|by split; intros; simplify_map_eq].
  pose proof (registry_size _ Hr). destruct Hr as [Hi Hn]. split_and!; [|done..|].
  - intros id p Hp. apply (Hi id p Hp).
  - intros E%allocate_poolid_exhausted. lia.
Qed.

End PoolSteps.

(** ** Examples *)

#[local] Existing Instance example_crc.

Definition demo_start : MemDB * PoolManager := (mkMemDB ∅ [], mkPoolManager ∅ 1024).

Definition demo_create_pool (s : MemDB * PoolManager) (name : string) (fd rn en : Z) : MemDB * PoolManager :=
  let '(_, db, m, _) := create_pool 2 s.1 s.2 "t" name kPoolTypeHDD fd rn en in (db, m).

Definition demo_create_es (s : MemDB * PoolManager) (id : Z) (name host : string) : MemDB * PoolManager :=
  let '(_, db, m) := pm_create_es s.1 s.2 "t" id name "ip" id "ip" id 0 4096 "pool-a" host "r" in (db, m).

(** The result of [init_pool] on [pool-a], the state unchanged where it has no
    result. *)
Definition demo_init (s : MemDB * PoolManager) : MemDB * PoolManager :=
  match init_pool 1024 2 s.1 s.2 "t" "pool-a" with
  | Some (_, db, m) => (db, m)
  | None => s
  end.

Lemma demo_create_pool_step s name fd rn en : pool_step s (demo_create_pool s name fd rn en).
Proof.
  destruct s as [db m]. unfold demo_create_pool. cbn [fst snd].
  destruct (create_pool _ _ _ _ _ _ _ _ _) as [[[? ?] ?] ?] eqn:E. by eapply ps_create.
Qed.

Lemma demo_create_es_step s id name host : pool_step s (demo_create_es s id name host).
Proof.
  destruct s as [db m]. unfold demo_create_es. cbn [fst snd].
  destruct (pm_create_es _ _ _ _ _ _ _ _ _ _ _ _ _ _) as [[? ?] ?] eqn:E. by eapply ps_create_es.
Qed.

Lemma demo_init_step s :
  is_Some (init_pool 1024 2 s.1 s.2 "t" "pool-a") -> pool_step s (demo_init s).
Proof.
  destruct s as [db m]. unfold demo_init. cbn [fst snd].
  destruct (init_pool _ _ _ _ _ _) as [[[? ?] ?]|] eqn:E; [|by intros []]. intros _. by eapply ps_init.
Qed.

(** A pool of two servers on two hosts, enabled. *)
Definition demo_pools : MemDB * PoolManager :=
  demo_init (demo_create_es (demo_create_es (demo_create_pool demo_start "p" kFailureDomainHost 2 2)
    1 "e1" "h1") 2 "e2" "h2").

Lemma demo_pools_reached : rtc pool_step demo_start demo_pools.
Proof.
  eapply rtc_l; [apply (demo_create_pool_step _ "p" kFailureDomainHost 2 2)|].
  eapply rtc_l; [apply (demo_create_es_step _ 1 "e1" "h1")|].
  eapply rtc_l; [apply (demo_create_es_step _ 2 "e2" "h2")|].
  apply rtc_once, demo_init_step. vm_compute. by eexists.
Qed.

Lemma demo_pools_enabled : pool_status <$> pool_map_ demo_pools.2 !! "pool-a" = Some kPoolStatusEnabled.
Proof. by vm_compute. Qed.

Lemma pool_registry_invariant_witness :
  (size (pool_map_ demo_pools.2) <= 26)%nat /\ is_Some (pool_map_ demo_pools.2 !! "pool-a").
Proof.
  split.
  - pose proof (pool_registry_invariant (mkMemDB ∅ []) 1024 demo_pools demo_pools_reached) as (_ & _ & Hsz & _).
    exact Hsz.
  - apply (fmap_is_Some pool_status). rewrite demo_pools_enabled. by eexists.
Defined.

Lemma demo_pools_ids id p : pool_map_ demo_pools.2 !! id = Some p -> p_id_ (p_meta p) = id.
Proof.
  assert (Hr : registry_ok (pool_map_ demo_pools.2)).
  { apply (pool_steps_registry _ _ demo_pools_reached). by split; intros; simplify_map_eq. }
  intros Hp. apply (proj1 Hr id p Hp).
Qed.

Lemma get_pool_least_loaded_witness :
  get_pool demo_pools.2 kPoolTypeHDD = "pool-a" /\
  exists p, pool_map_ demo_pools.2 !! "pool-a" = Some p /\ eligible kPoolTypeHDD p.
Proof.
  assert (E : get_pool demo_pools.2 kPoolTypeHDD = "pool-a") by (by vm_compute).
  split; [exact E|].
  destruct (get_pool_least_loaded demo_pools.2 kPoolTypeHDD demo_pools_ids) as [[E' _]|(p & Hp & He & _)].
  - rewrite E in E'. done.
  - exists p. rewrite <- E. split; [exact Hp|exact He].
Defined.


(** ** Retrying a failed initialisation *)

Definition demo_delete_es (s : MemDB * PoolManager) (id : Z) : MemDB * PoolManager :=
  let '(_, db, m) := pm_delete_es s.1 s.2 "pool-a" id in (db, m).

Definition demo_shrink (s : MemDB * PoolManager) : MemDB * PoolManager :=
  let '(_, db, m) := update_pool s.1 s.2 "pool-a" "" kPoolTypeUnknown kFailureDomainUnknown 1 1 in (db, m).

Lemma demo_delete_es_step s id : pool_step s (demo_delete_es s id).
Proof.
  destruct s as [db m]. unfold demo_delete_es. cbn [fst snd].
  destruct (pm_delete_es _ _ _ _) as [[? ?] ?] eqn:E. by eapply ps_delete_es.
Qed.

Lemma demo_shrink_step s : pool_step s (demo_shrink s).
Proof.
  destruct s as [db m]. unfold demo_shrink. cbn [fst snd].
  destruct (update_pool _ _ _ _ _ _ _ _) as [[? ?] ?] eqn:E. by eapply ps_update.
Qed.

(** Both servers on one host, while replicas must be on two. *)
Definition demo_failed_init : MemDB * PoolManager :=
  demo_init (demo_create_es (demo_create_es (demo_create_pool demo_start "p" kFailureDomainHost 2 2)
    1 "e1" "h") 2 "e2" "h").

Definition demo_retried_init : MemDB * PoolManager :=
  demo_init (demo_shrink (demo_delete_es demo_failed_init 1)).

Lemma demo_retried_init_reached : rtc pool_step demo_start demo_retried_init.
Proof.
  eapply rtc_l; [apply (demo_create_pool_step _ "p" kFailureDomainHost 2 2)|].
  eapply rtc_l; [apply (demo_create_es_step _ 1 "e1" "h")|].
  eapply rtc_l; [apply (demo_create_es_step _ 2 "e2" "h")|].
  eapply rtc_l; [apply demo_init_step; vm_compute; by eexists|].
  eapply rtc_l; [apply (demo_delete_es_step _ 1)|].
  eapply rtc_l; [apply demo_shrink_step|].
  apply rtc_once, demo_init_step. vm_compute. by eexists.
Qed.

(** a failed [RgManager::init] leaves its groups in the table.  When the
    pool is shrunk and initialised again, the groups beyond the new count keep
    servers that are no longer in the pool: the state below is reached by
    operations of [PoolManager], the pool is enabled, and routing an extent of
    group pool-a.3 dereferences the iterator of a missing server. *)
Theorem retried_init_keeps_stale_group :
  rtc pool_step demo_start demo_retried_init /\
  pool_status <$> pool_map_ demo_retried_init.2 !! "pool-a" = Some kPoolStatusEnabled /\
  pm_query_es_group demo_retried_init.2 "pool-a" "pool-a.3" = Some [1; 2] /\
  pm_es_exist demo_retried_init.2 "pool-a" 1 = false /\
  pm_query_es_router demo_retried_init.2 "pool-a" [1; 2] = None.
Proof. split; [apply demo_retried_init_reached|]. by vm_compute. Qed.
