(* ===== verification/RouterMgr.v ===== *)
(** * Extent routers of the extent manager

    [HashUtil::mur_mur_hash] (src/src/utils/hash.cpp) and the
    [extentmanager::ExtentRouter] and [RouterManager] of
    src/src/extentmanager/extent_router.h and .cpp: which pool and replication
    group an extent belongs to, stored under the extent's key and cached in
    memory in shards chosen by the hash.  (The [ExtentRouter] of Net.v is the
    one of src/src/common, cached by extent servers and clients.)

    [None] is undefined behaviour or an uncaught exception.  The shard a call
    works on is locked while it does; [query_router] holds no lock between
    reading the store and filling the cache, so its two halves are separate
    definitions. *)

From Stdlib Require Import Ascii.
From stdpp Require Import sorting.
From S2P Require Import Prelude Status Codec KvStore Persist Net EsMgr RgMgr RgTheorems.

#[local] Open Scope string_scope.
#[local] Open Scope Z_scope.

(** ** Murmur hash *)

Definition mur_m : Z := 1540483477.

Definition byte_of (c : ascii) : Z := Z.of_N (N_of_ascii c).

(** A byte read through [const int8_t *]. *)
Definition int8_of (c : ascii) : Z := let b := byte_of c in if b <? 128 then b else b - 256.

(** [h ^= x] where [x] is an [int]. *)
Definition xor_int (h x : Z) : Z := Z.lxor h (wrap32 x).

Definition mix_word (h k : Z) : Z :=
  let k := wrap32 (k * mur_m) in
  let k := Z.lxor k (Z.shiftr k 24) in
  let k := wrap32 (k * mur_m) in
  let h := wrap32 (h * mur_m) in
  Z.lxor h k.

(** The loop over whole words and the [switch] on what is left. *)
Fixpoint mur_mur_loop (h : Z) (data : list ascii) : Z :=
  match data with
  | a :: b :: c :: d :: data' =>
      mur_mur_loop (mix_word h (byte_of a + 256 * byte_of b + 65536 * byte_of c + 16777216 * byte_of d)) data'
  | [a; b; c] =>
      let h := xor_int h (int8_of c * 65536) in
      let h := xor_int h (int8_of b * 256) in
      wrap32 (xor_int h (int8_of a) * mur_m)
  | [a; b] =>
      let h := xor_int h (int8_of b * 256) in
      wrap32 (xor_int h (int8_of a) * mur_m)
  | [a] => wrap32 (xor_int h (int8_of a) * mur_m)
  | [] => h
  end.

Definition mur_mur_hash_seed (key : string) (seed : Z) : Z :=
  let h := Z.lxor seed (wrap32 (slen key)) in
  let h := mur_mur_loop h (list_ascii_of_string key) in
  let h := Z.lxor h (Z.shiftr h 13) in
  let h := wrap32 (h * mur_m) in
  Z.lxor h (Z.shiftr h 15).

Definition mur_mur_hash (key : string) : Z := mur_mur_hash_seed key 97.

(** ** Routers *)

Record EMRouter : Type := mkEMRouter {
  er_extent_id_ : string;
  er_pool_id_ : string;
  er_rg_id_ : string;
  er_blob_id_ : string;
  er_create_time_ : string;
  er_update_time_ : string
}.

Definition EMRouter_new (now extent_id pool_id rg_id blob_id : string) : EMRouter :=
  mkEMRouter extent_id pool_id rg_id blob_id now now.

(** The key, as [kv_key], [delete_router] and [query_router] build it. *)
Definition er_key (extent_id : string) : string := kERKvPrefix +:+ "_" +:+ extent_id.
Definition EMRouter_kv_key (r : EMRouter) : string := er_key (er_extent_id_ r).

Definition EMRouter_members : codec EMRouter := {|
  save r := save string_codec (er_extent_id_ r) +:+ save string_codec (er_pool_id_ r)
    +:+ save string_codec (er_rg_id_ r) +:+ save string_codec (er_blob_id_ r)
    +:+ save string_codec (er_create_time_ r) +:+ save string_codec (er_update_time_ r);
  load s :=
    '(extent_id, s) ← load string_codec s;
    '(pool_id, s) ← load string_codec s;
    '(rg_id, s) ← load string_codec s;
    '(blob_id, s) ← load string_codec s;
    '(create_time, s) ← load string_codec s;
    '(update_time, s) ← load string_codec s;
    Some (mkEMRouter extent_id pool_id rg_id blob_id create_time update_time, s);
  storable r := storable string_codec (er_extent_id_ r) /\ storable string_codec (er_pool_id_ r) /\
    storable string_codec (er_rg_id_ r) /\ storable string_codec (er_blob_id_ r) /\
    storable string_codec (er_create_time_ r) /\ storable string_codec (er_update_time_ r)
|}.

Definition EMRouter_codec : codec EMRouter := versioned 0 (fun _ => EMRouter_members).

Lemma EMRouter_codec_ok : codec_ok EMRouter_codec.
Proof.
  apply versioned_ok; [unfold is_u32; lia|].
  intros [] rest H. cbn -[string_codec] in *. by archive.
Qed.

(** ** The cache *)

(** [multi_extent_router_map_]; [shift] is the configured
    [router_inst_shift]. *)
Abbreviation RouterCache := (gmap Z (gmap string EMRouter)).

Definition RouterManager_new (shift : Z) : RouterCache :=
  foldl (fun c i => <[Z.of_nat i := ∅]> c) ∅ (seq 0 (Z.to_nat (Z.shiftl 1 shift))).

Definition shard (shift : Z) (extent_id : string) : Z := mur_mur_hash extent_id mod Z.shiftl 1 shift.

Definition router_miss : Status := mkStatus CYPRE_EM_ROUTER_NOT_FOUND "".

(** On a hit, the pool and the group. *)
Definition look_in_cache (shift : Z) (cache : RouterCache) (extent_id : string)
  : option (Status * option (string * string)) :=
  m ← cache !! shard shift extent_id;
  match m !! extent_id with
  | Some r => Some (Status_default, Some (er_pool_id_ r, er_rg_id_ r))
  | None => Some (router_miss, None)
  end.

Definition put_in_cache (shift : Z) (cache : RouterCache) (extent_id : string) (er : EMRouter)
  : option RouterCache :=
  m ← cache !! shard shift extent_id;
  match m !! extent_id with
  | Some _ => Some cache
  | None => Some (<[shard shift extent_id := <[extent_id := er]> m]> cache)
  end.

Definition delete_in_cache (shift : Z) (cache : RouterCache) (extent_id : string) : option RouterCache :=
  m ← cache !! shard shift extent_id;
  match m !! extent_id with
  | None => Some cache
  | Some _ => Some (<[shard shift extent_id := delete extent_id m]> cache)
  end.

Section RouterManager.
Context `{RocksDB DB} `{Crc32c}.

Definition encode_router (r : EMRouter) : string := Serializer_Encode EMRouter_codec r.

(** The loop that fills [map], for the [n] indices from [i] on; [rg_ids] is
    read at [index]. *)
Fixpoint create_router_loop (now pool_id blob_id : string) (n : nat) (i : Z) (index : nat)
  (rg_ids : list string) (map : gmap string string) : option (gmap string string) :=
  match n with
  | O => Some map
  | S n' =>
      let id := GenerateExtentID blob_id i in
      rg_id ← rg_ids !! index;
      let router := EMRouter_new now id pool_id rg_id blob_id in
      create_router_loop now pool_id blob_id n' (i + 1) (S index) rg_ids
        (<[EMRouter_kv_key router := encode_router router]> map)
  end.

(** [for (int i = begin; i <= end; i++)], then the entries of the ordered map
    in batches of 100. *)
Definition create_router (db : DB) (now pool_id blob_id : string) (begin_ end_ : Z) (rg_ids : list string)
  : option (Status * DB) :=
  map ← create_router_loop now pool_id blob_id (Z.to_nat (end_ - begin_ + 1)) begin_ 0 rg_ids ∅;
  let '(stored, db) := multi_put_loop 100 db (merge_sort key_le (map_to_list map)) [] in
  if negb stored
  then Some (mkStatus CYPRE_EM_STORE_ERROR "persist extent router meta failed", db)
  else Some (Status_default, db).

Definition delete_router (shift : Z) (db : DB) (cache : RouterCache) (extent_id : string)
  : option (Status * DB * RouterCache) :=
  let '(kv_status, db) := RocksStore_Delete db (er_key extent_id) in
  if negb (RocksStatus_ok kv_status)
  then Some (mkStatus CYPRE_EM_DELETE_ERROR "delete extent router meta failed", db, cache)
  else cache ← delete_in_cache shift cache extent_id; Some (Status_default, db, cache).

(** The part of [query_router] that reads the store: a router or an error. *)
Definition load_router (db : DB) (extent_id : string) : option (Status * option EMRouter) :=
  let '(status, value) := RocksStore_Get db (er_key extent_id) in
  if negb (RocksStatus_ok status) then
    if RocksStatus_IsNotFound status
    then Some (mkStatus CYPRE_EM_ROUTER_NOT_FOUND "Extent router not found.", None)
    else Some (mkStatus CYPRE_EM_LOAD_ERROR "Get extent router failed.", None)
  else
    match Serializer_Decode EMRouter_codec value with
    | Decoded er => Some (Status_default, Some er)
    | DecodeFailed => Some (mkStatus CYPRE_EM_DECODE_ERROR "Decode extent router meta failed", None)
    | DecodeThrows => None
    end.

(** Results: the status, the cache, and the pool and group if found. *)
Definition query_router (shift : Z) (db : DB) (cache : RouterCache) (extent_id : string)
  : option (Status * RouterCache * option (string * string)) :=
  '(ret, hit) ← look_in_cache shift cache extent_id;
  if ok ret then Some (ret, cache, hit)
  else
    '(status, er) ← load_router db extent_id;
    match er with
    | None => Some (status, cache, None)
    | Some er =>
        cache ← put_in_cache shift cache extent_id er;
        Some (Status_default, cache, Some (er_pool_id_ er, er_rg_id_ er))
    end.
End RouterManager.

(** ** Creating routers *)

Lemma create_router_loop_total `{Crc32c} now pool_id blob_id n i index rg_ids map :
  (index + n <= length rg_ids)%nat ->
  is_Some (create_router_loop now pool_id blob_id n i index rg_ids map).
Proof.
  revert i index map. induction n as [|n IH]; intros i index map Hl; cbn; [by eexists|].
  destruct (lookup_lt_is_Some_2 rg_ids index) as [rg Hrg]; [lia|]. rewrite Hrg. cbn. apply IH. lia.
Qed.

#[export] Instance er_key_inj : Inj (=) (=) er_key.
Proof. intros a b E. unfold er_key in E. by simplify_eq. Qed.

(** The table [create_router] writes. *)
Lemma create_router_loop_spec `{Crc32c} now pool_id blob_id n i index rg_ids map map' :
  no_dot blob_id = true ->
  create_router_loop now pool_id blob_id n i index rg_ids map = Some map' ->
  (forall k, (k < n)%nat -> exists rg, rg_ids !! (index + k)%nat = Some rg /\
     let id := GenerateExtentID blob_id (i + Z.of_nat k) in
     map' !! er_key id = Some (encode_router (EMRouter_new now id pool_id rg blob_id))) /\
  (forall key, (forall k, (k < n)%nat -> key <> er_key (GenerateExtentID blob_id (i + Z.of_nat k))) ->
     map' !! key = map !! key).
Proof.
  intros Hd. revert i index map. induction n as [|n IH]; intros i index map; cbn [create_router_loop].
  { intros [= <-]. split; [lia|done]. }
  destruct (rg_ids !! index) as [rg|] eqn:Hrg; [|done]. cbn [mbind option_bind].
  intros [Hall Hout]%IH. split.
  - intros [|k] Hk.
    + exists rg. rewrite Nat.add_0_r, Z.add_0_r. split; [done|]. cbn.
      rewrite Hout; [by rewrite lookup_insert_eq|].
      intros k _ [_ E]%(inj er_key)%GenerateExtentID_inj; [|done..]. lia.
    + destruct (Hall k) as (rg' & Hrg' & Hm); [lia|]. exists rg'.
      rewrite <- Nat.add_succ_comm. split; [done|].
      replace (i + Z.of_nat (S k)) with (i + 1 + Z.of_nat k) by lia. done.
  - intros key Hkey. rewrite Hout.
    + apply lookup_insert_ne. unfold EMRouter_kv_key. cbn. intros <-. apply (Hkey 0%nat); [lia|].
      by rewrite Z.add_0_r.
    + intros k Hk ->. apply (Hkey (S k)); [lia|]. by replace (i + Z.of_nat (S k)) with (i + 1 + Z.of_nat k) by lia.
Qed.

Lemma foldl_insert_list_to_map (l : list KV) (v : gmap string string) (k : string) :
  NoDup l.*1 ->
  foldl (fun m (kv : KV) => <[kv.1 := kv.2]> m) v l !! k =
  match (list_to_map l : gmap string string) !! k with Some x => Some x | None => v !! k end.
Proof.
  intros Hnd. destruct ((list_to_map l : gmap string string) !! k) as [x|] eqn:E.
  - apply elem_of_list_to_map in E; [|done]. by apply foldl_insert_lookup.
  - apply not_elem_of_list_to_map in E. clear Hnd. revert v. induction l as [|[k' x] l IH]; intros v; cbn in *; [done|].
    apply not_elem_of_cons in E as [Hne E]. rewrite IH by done. by apply lookup_insert_ne.
Qed.

(** Batches of an ordered map: its entries replace the store's. *)
Lemma multi_put_map `{RocksDBLaws DB} limit (db : DB) (map : gmap string string) db' :
  multi_put_loop limit db (merge_sort key_le (map_to_list map)) [] = (true, db') ->
  rdb_view db' = map ∪ rdb_view db.
Proof.
  intros E%multi_put_loop_view. rewrite E. cbn [app]. apply map_eq. intros k.
  rewrite foldl_insert_list_to_map by (rewrite merge_sort_Permutation; apply NoDup_fst_map_to_list).
  replace (list_to_map (merge_sort key_le (map_to_list map))) with map.
  - rewrite lookup_union. by destruct (map !! k), (rdb_view db !! k).
  - rewrite <- (list_to_map_to_list map) at 1. apply list_to_map_proper; [apply NoDup_fst_map_to_list|].
    by rewrite merge_sort_Permutation.
Qed.

(** What the router of an extent is, according to the store. *)
Definition stored_router `{Crc32c} (view : gmap string string) (extent_id : string) : option EMRouter :=
  v ← view !! er_key extent_id;
  match Serializer_Decode EMRouter_codec v with Decoded er => Some er | _ => None end.

Definition router_fits (r : EMRouter) : Prop := fits EMRouter_codec r.

Lemma router_decode_encode `{Crc32c} r : router_fits r ->
  Serializer_Decode EMRouter_codec (encode_router r) = Decoded r.
Proof. intros [? ?]. apply Serializer_roundtrip; auto using EMRouter_codec_ok. Qed.

Section RouterTheorems.
Context `{RocksDBLaws DB} `{Crc32c}.
Implicit Types (db : DB) (cache : RouterCache).

Lemma create_router_spec db now pool_id blob_id b e rg_ids st db' :
  no_dot blob_id = true ->
  create_router db now pool_id blob_id b e rg_ids = Some (st, db') -> ok st = true ->
  (forall i, b <= i <= e -> exists rg, rg_ids !! Z.to_nat (i - b) = Some rg /\
     let id := GenerateExtentID blob_id i in
     rdb_view db' !! er_key id = Some (encode_router (EMRouter_new now id pool_id rg blob_id))) /\
  (forall key, (forall i, b <= i <= e -> key <> er_key (GenerateExtentID blob_id i)) ->
     rdb_view db' !! key = rdb_view db !! key).
Proof.
  intros Hd E Hok. unfold create_router in E.
  destruct (create_router_loop _ _ _ _ _ _ _ _) as [map|] eqn:El; [|done]. cbn [mbind option_bind] in E.
  destruct (multi_put_loop _ _ _ _) as [stored d] eqn:Em. destruct stored; cbn [negb] in E; [|by simplify_eq].
  injection E as <- <-. apply multi_put_map in Em. rewrite Em.
  apply create_router_loop_spec in El as [Hall Hout]; [|done]. split.
  - intros i Hi. destruct (Hall (Z.to_nat (i - b))) as (rg & Hrg & Hm); [lia|]. exists rg.
    split; [done|]. cbv zeta in *. rewrite Z2Nat.id in Hm by lia. rewrite Zplus_minus in Hm.
    by apply lookup_union_Some_l.
  - intros key Hkey. rewrite lookup_union_r; [done|].
    rewrite Hout; [done|]. intros k Hk. apply Hkey. lia.
Qed.

(** Total when every index has a group. *)
Lemma create_router_total db now pool_id blob_id b e rg_ids :
  e - b + 1 <= Z.of_nat (length rg_ids) -> is_Some (create_router db now pool_id blob_id b e rg_ids).
Proof.
  intros Hl. unfold create_router.
  destruct (create_router_loop_total now pool_id blob_id (Z.to_nat (e - b + 1)) b 0 rg_ids ∅) as [map ->]; [lia|].
  cbn [mbind option_bind]. destruct (multi_put_loop _ _ _ _) as [[] ?]; by eexists.
Qed.

(** ** The cache agrees with the store *)

Record cache_ok (shift : Z) (view : gmap string string) cache : Prop := mkCacheOk {
  cache_shards : forall r, 0 <= r < Z.shiftl 1 shift -> is_Some (cache !! r);
  cache_coherent : forall r m e er, cache !! r = Some m -> m !! e = Some er ->
    r = shard shift e /\ stored_router view e = Some er
}.

Lemma shard_range shift e : 0 <= shift -> 0 <= shard shift e < Z.shiftl 1 shift.
Proof.
  intros Hs. unfold shard. rewrite Z.shiftl_1_l. apply Z.mod_pos_bound. by apply Z.pow_pos_nonneg.
Qed.

Lemma cache_shard shift view cache e :
  0 <= shift -> cache_ok shift view cache -> exists m, cache !! shard shift e = Some m.
Proof. intros Hs [Hr _]. by apply Hr, shard_range. Qed.

Lemma RouterManager_new_ok shift view : 0 <= shift -> cache_ok shift view (RouterManager_new shift).
Proof.
  intros Hs. unfold RouterManager_new.
  assert (Hgen : forall (l : list nat) c r,
    foldl (fun c i => <[Z.of_nat i := ∅]> c) c l !! r = Some (∅ : gmap string EMRouter) \/
    (foldl (fun c i => <[Z.of_nat i := ∅]> c) c l !! r = (c : RouterCache) !! r /\ forall i, r = Z.of_nat i -> i ∉ l)).
  { induction l as [|i l IH]; intros c r; cbn; [right; split; [done|by intros ? ? ?%elem_of_nil]|].
    destruct (IH (<[Z.of_nat i := ∅]> c) r) as [->|[-> Hn]]; [by left|].
    destruct (decide (r = Z.of_nat i)) as [->|Hne]; [left; apply lookup_insert_eq|].
    right. rewrite lookup_insert_ne by done. split; [done|].
    intros j -> [->|Hj]%elem_of_cons; [done|by apply (Hn j)]. }
  split.
  - intros r Hr. destruct (Hgen (seq 0 (Z.to_nat (Z.shiftl 1 shift))) ∅ r) as [->|[_ Hn]]; [by eexists|].
    exfalso. apply (Hn (Z.to_nat r)); [lia|]. apply elem_of_seq. lia.
  - intros r m e er Hm He. destruct (Hgen (seq 0 (Z.to_nat (Z.shiftl 1 shift))) ∅ r) as [E|[E _]]; rewrite E in Hm.
    + injection Hm as <-. by rewrite lookup_empty in He.
    + by rewrite lookup_empty in Hm.
Qed.

(** A write that leaves the cached extents' records alone. *)
Lemma cache_ok_frame shift view view' cache :
  cache_ok shift view cache ->
  (forall e, is_Some (stored_router view e) -> view' !! er_key e = view !! er_key e) ->
  cache_ok shift view' cache.
Proof.
  intros [Hr Hc] Hv. split; [done|]. intros r m e er Hm He. destruct (Hc r m e er Hm He) as [-> Hs].
  split; [done|]. unfold stored_router in *. by rewrite Hv by (unfold stored_router; eauto).
Qed.

Lemma put_in_cache_ok shift view cache e er cache' :
  cache_ok shift view cache -> stored_router view e = Some er ->
  put_in_cache shift cache e er = Some cache' -> cache_ok shift view cache'.
Proof.
  intros [Hr Hc] Hs. unfold put_in_cache. destruct (cache !! shard shift e) as [m|] eqn:Em; [|done].
  cbn [mbind option_bind]. destruct (m !! e) eqn:Ee; intros [= <-]; [done|]. split.
  - intros r Hrr. destruct (decide (r = shard shift e)) as [->|Hne].
    + rewrite lookup_insert_eq. by eexists.
    + rewrite lookup_insert_ne by done. by apply Hr.
  - intros r m' e' er' [[<- <-]|[_ Hm']]%lookup_insert_Some He'; [|by eapply Hc].
    apply lookup_insert_Some in He' as [[<- <-]|[_ He']]; [done|by eapply Hc].
Qed.

Lemma delete_in_cache_ok shift view view' cache e cache' :
  cache_ok shift view cache -> (forall e', e' <> e -> view' !! er_key e' = view !! er_key e') ->
  delete_in_cache shift cache e = Some cache' -> cache_ok shift view' cache'.
Proof.
  intros [Hr Hc] Hv. unfold delete_in_cache. destruct (cache !! shard shift e) as [m|] eqn:Em; [|done].
  cbn [mbind option_bind].
  assert (Hcoh : forall e' er, e' <> e -> stored_router view e' = Some er -> stored_router view' e' = Some er).
  { intros e' er Hne. unfold stored_router. by rewrite Hv. }
  destruct (m !! e) as [er|] eqn:Ee; intros [= <-]; split.
  - intros r Hrr. destruct (decide (r = shard shift e)) as [->|Hne].
    + rewrite lookup_insert_eq. by eexists.
    + rewrite lookup_insert_ne by done. by apply Hr.
  - intros r m' e' er' [[<- <-]|[Hne Hm']]%lookup_insert_Some He'.
    + apply lookup_delete_Some in He' as [Hne He']. destruct (Hc _ _ _ _ Em He') as [? ?]. eauto.
    + destruct (Hc _ _ _ _ Hm' He') as [-> ?]. split; [done|]. apply Hcoh; [congruence|done].
  - done.
  - intros r m' e' er' Hm' He'. destruct (Hc _ _ _ _ Hm' He') as [-> ?]. split; [done|].
    apply Hcoh; [|done]. intros ->. by simplify_eq.
Qed.

(** A batched write, failed or not, touches only the given keys. *)
Lemma multi_put_loop_frame limit db entries kvs r db' key :
  multi_put_loop limit db entries kvs = (r, db') -> key ∉ (kvs ++ entries)%list.*1 ->
  rdb_view db' !! key = rdb_view db !! key.
Proof.
  assert (Hput : forall d l st d', RocksStore_MultiPut (DB := DB) d l = (st, d') -> key ∉ l.*1 ->
    rdb_view d' !! key = rdb_view d !! key).
  { intros d l st d' E%multiput_view Hn. rewrite E. destruct (RocksStatus_ok st); [|done].
    clear E. generalize (rdb_view d). induction l as [|[k x] l IH]; intros v; cbn in *; [done|].
    apply not_elem_of_cons in Hn as [Hne Hn]. rewrite IH by done. by apply lookup_insert_ne. }
  revert db kvs. induction entries as [|kv entries IH]; intros db kvs; cbn [multi_put_loop].
  - rewrite app_nil_r. destruct kvs as [|kv kvs]; [by intros [= _ <-]|].
    destruct (RocksStore_MultiPut db (kv :: kvs)) as [st d] eqn:E. intros [= _ <-]. by apply (Hput _ _ _ _ E).
  - destruct (Nat.eqb _ limit).
    + destruct (RocksStore_MultiPut db (kvs ++ [kv])%list) as [st d] eqn:E. intros E' Hn.
      rewrite cons_middle, app_assoc in Hn. rewrite fmap_app, not_elem_of_app in Hn. destruct Hn as [Hn1 Hn2].
      apply Hput in E; [|done]. destruct (RocksStatus_ok st); cbn [negb] in E'; [|by injection E' as _ <-].
      apply IH in E'; [|done]. congruence.
    + intros E Hn. apply IH in E; [done|]. by rewrite cons_middle, app_assoc in Hn.
Qed.

Lemma create_router_frame db now pool_id blob_id b e rg_ids st db' key :
  no_dot blob_id = true -> create_router db now pool_id blob_id b e rg_ids = Some (st, db') ->
  (forall i, b <= i <= e -> key <> er_key (GenerateExtentID blob_id i)) ->
  rdb_view db' !! key = rdb_view db !! key.
Proof.
  intros Hd E Hkey. unfold create_router in E.
  destruct (create_router_loop _ _ _ _ _ _ _ _) as [map|] eqn:El; [|done]. cbn [mbind option_bind] in E.
  destruct (multi_put_loop _ _ _ _) as [stored d] eqn:Em.
  assert (db' = d) as -> by (destruct stored; cbn in E; congruence).
  eapply multi_put_loop_frame; [exact Em|]. cbn [app]. rewrite merge_sort_Permutation.
  apply create_router_loop_spec in El as [_ Hout]; [|done].
  intros ([k v] & -> & Hin%elem_of_map_to_list)%list_elem_of_fmap. cbn in *.
  rewrite Hout in Hin; [done|]. intros j Hj. apply Hkey. lia.
Qed.

(** ** Operations as steps *)

(** Routers are made for extents that have none: those of a new blob, or past
    the old end of a resized one. *)
Inductive router_step (shift : Z) : DB * RouterCache -> DB * RouterCache -> Prop :=
  | rs_create db cache now pool_id blob_id b e rg_ids st db' :
      no_dot blob_id = true ->
      (forall i, b <= i <= e -> rdb_view db !! er_key (GenerateExtentID blob_id i) = None) ->
      create_router db now pool_id blob_id b e rg_ids = Some (st, db') ->
      router_step shift (db, cache) (db', cache)
  | rs_delete db cache extent_id st db' cache' :
      delete_router shift db cache extent_id = Some (st, db', cache') ->
      router_step shift (db, cache) (db', cache')
  | rs_query db cache extent_id st cache' r :
      query_router shift db cache extent_id = Some (st, cache', r) ->
      router_step shift (db, cache) (db, cache').

Lemma load_router_stored db e st er :
  load_router db e = Some (st, er) -> er = None /\ ok st = false \/
  exists r, er = Some r /\ st = Status_default /\ stored_router (rdb_view db) e = Some r.
Proof.
  unfold load_router. destruct (RocksStore_Get db (er_key e)) as [s v] eqn:Eg.
  pose proof (rdb_get_law _ _ _ _ Eg) as Hg.
  destruct s; cbn [RocksStatus_ok RocksStatus_IsNotFound negb]; [|intros [= <- <-]; by left..].
  destruct (Serializer_Decode EMRouter_codec v) as [r| |] eqn:Ed; [|intros [= <- <-]; by left|done].
  intros [= <- <-]. right. exists r. split_and!; [done..|]. unfold stored_router. rewrite Hg. cbn. by rewrite Ed.
Qed.

Lemma router_step_ok shift s s' :
  router_step shift s s' -> cache_ok shift (rdb_view s.1) s.2 -> cache_ok shift (rdb_view s'.1) s'.2.
Proof.
  intros Hs Hc. destruct Hs as [db cache now pool_id blob_id b e rg_ids st db' Hd Hfresh E
    |db cache x st db' cache' E|db cache x st cache' r E]; cbn [fst snd] in *.
  - eapply cache_ok_frame; [done|]. intros x [er Hx]. eapply create_router_frame; [done..|].
    intros i Hi ->%(inj er_key). unfold stored_router in Hx. by rewrite Hfresh in Hx.
  - unfold delete_router in E. destruct (RocksStore_Delete db (er_key x)) as [ks d] eqn:Ed.
    pose proof (delete_view _ _ _ _ Ed) as Hv. destruct (RocksStatus_ok ks); cbn [negb] in E.
    + destruct (delete_in_cache shift cache x) as [c|] eqn:Ec; [|done]. cbn in E. injection E as <- <- <-.
      eapply delete_in_cache_ok; [done| |done]. intros x' Hne. rewrite Hv.
      apply lookup_delete_ne. intros ?%(inj er_key). congruence.
    + injection E as <- <- <-. by rewrite Hv.
  - unfold query_router in E. destruct (look_in_cache shift cache x) as [[ret hit]|]; [|done].
    cbn [mbind option_bind] in E. destruct (ok ret); [by simplify_eq|].
    destruct (load_router db x) as [[st1 er]|] eqn:El; [|done]. cbn [mbind option_bind] in E.
    apply load_router_stored in El as [[-> _]|(er' & -> & _ & Hst)]; [by simplify_eq|].
    destruct (put_in_cache shift cache x er') as [c|] eqn:Ep; [|done]. cbn in E. injection E as <- <- <-.
    by eapply put_in_cache_ok.
Qed.

Lemma query_router_sound shift db cache e st cache' r :
  0 <= shift -> cache_ok shift (rdb_view db) cache ->
  query_router shift db cache e = Some (st, cache', r) ->
  (ok st = true -> exists er, stored_router (rdb_view db) e = Some er /\
     r = Some (er_pool_id_ er, er_rg_id_ er)) /\
  (code st = CYPRE_EM_ROUTER_NOT_FOUND -> rdb_view db !! er_key e = None).
Proof.
  intros Hs Hc E. destruct (cache_shard shift _ cache e Hs Hc) as [m Hm].
  unfold query_router, look_in_cache in E. rewrite Hm in E. cbn [mbind option_bind] in E.
  destruct (m !! e) as [er0|] eqn:He.
  { destruct (cache_coherent _ _ _ Hc _ _ _ _ Hm He) as [_ Hst]. injection E as <- <- <-. split; [eauto|done]. }
  change (ok router_miss) with false in E. destruct (load_router db e) as [[st1 er]|] eqn:El; [|done].
  cbn [mbind option_bind] in E. pose proof El as Hst.
  apply load_router_stored in Hst as [[-> Hf]|(er' & -> & _ & Hst)].
  - injection E as <- <- <-. split; [congruence|]. unfold load_router in El.
    destruct (RocksStore_Get db (er_key e)) as [s v] eqn:Eg. pose proof (rdb_get_law _ _ _ _ Eg) as Hg.
    destruct s; cbn in El; [|done|by simplify_eq]. by destruct (Serializer_Decode _ _); simplify_eq.
  - unfold put_in_cache in E. rewrite Hm in E. cbn in E. rewrite He in E. cbn in E.
    injection E as <- <- <-. split; [eauto|done].
Qed.

Lemma query_router_found shift db cache e er :
  0 <= shift -> cache_ok shift (rdb_view db) cache -> stored_router (rdb_view db) e = Some er ->
  (forall t, (rdb_Get db (er_key e)).1 <> RdbError t) ->
  exists cache', query_router shift db cache e =
    Some (Status_default, cache', Some (er_pool_id_ er, er_rg_id_ er)).
Proof.
  intros Hs Hc Her Hget. destruct (cache_shard shift _ cache e Hs Hc) as [m Hm].
  unfold query_router, look_in_cache. rewrite Hm. cbn [mbind option_bind].
  destruct (m !! e) as [er0|] eqn:He.
  { destruct (cache_coherent _ _ _ Hc _ _ _ _ Hm He) as [_ Hst]. eexists. by simplify_eq. }
  change (ok router_miss) with false. unfold load_router.
  destruct (RocksStore_Get db (er_key e)) as [s v] eqn:Eg. pose proof (rdb_get_law _ _ _ _ Eg) as Hg.
  unfold stored_router in Her. destruct s as [| |t].
  - rewrite Hg in Her. cbn [mbind option_bind] in Her. cbn [RocksStatus_ok negb].
    destruct (Serializer_Decode _ _); simplify_eq. cbn [mbind option_bind].
    unfold put_in_cache. rewrite Hm. cbn [mbind option_bind]. rewrite He. cbn. by eexists.
  - by rewrite Hg in Her.
  - destruct (Hget t). unfold RocksStore_Get in Eg. by rewrite Eg.
Qed.

Lemma router_steps_ok shift s s' :
  rtc (router_step shift) s s' -> cache_ok shift (rdb_view s.1) s.2 -> cache_ok shift (rdb_view s'.1) s'.2.
Proof. induction 1; eauto using router_step_ok. Qed.


(** [query_router] fills the cache without a lock that spans its read of
    the store.  If the router is deleted between the two halves of a query,
    the cache is left with a router that the store no longer has, and later
    queries of the deleted extent succeed. *)
Theorem late_fill_revives_router shift db cache e er st db1 cache1 cache2 :
  load_router db e = Some (Status_default, Some er) ->
  delete_router shift db cache e = Some (st, db1, cache1) -> ok st = true ->
  put_in_cache shift cache1 e er = Some cache2 ->
  stored_router (rdb_view db) e = Some er /\ stored_router (rdb_view db1) e = None /\
  query_router shift db1 cache2 e = Some (Status_default, cache2, Some (er_pool_id_ er, er_rg_id_ er)).
Proof.
  intros [[]|(er' & [= <-] & _ & Hst)]%load_router_stored Ed Hok Ep; [done|]. split; [exact Hst|]. clear Hst.
  unfold delete_router in Ed.
  destruct (RocksStore_Delete db (er_key e)) as [ks d] eqn:Ek. pose proof (delete_view _ _ _ _ Ek) as Hv.
  destruct (RocksStatus_ok ks); cbn [negb] in Ed; [|by simplify_eq].
  unfold delete_in_cache in Ed. destruct (cache !! shard shift e) as [m|] eqn:Em; [|done].
  cbn [mbind option_bind] in Ed.
  assert (Hm1 : exists m1, cache1 !! shard shift e = Some m1 /\ m1 !! e = None /\ d = db1).
  { destruct (m !! e) eqn:Ee; cbn in Ed; injection Ed as _ <- <-.
    - rewrite lookup_insert_eq. eexists. split_and!; [done| |done]. apply lookup_delete_eq.
    - eauto. }
  destruct Hm1 as (m1 & Hm1 & He & ->). unfold put_in_cache in Ep. rewrite Hm1 in Ep. cbn [mbind option_bind] in Ep.
  rewrite He in Ep. injection Ep as <-. split.
  - unfold stored_router. by rewrite Hv, lookup_delete_eq.
  - unfold query_router, look_in_cache. rewrite lookup_insert_eq. cbn [mbind option_bind].
    by rewrite lookup_insert_eq.
Qed.
End RouterTheorems.

(** ** Examples *)

#[local] Existing Instance example_crc.

Definition demo_routers : option (Status * MemDB) :=
  create_router (mkMemDB ∅ []) "t" "pool-a" "bb-x" 1 2 ["pool-a.0"; "pool-a.1"].


Lemma late_fill_revives_router_witness :
  exists db cache, query_router 2 db cache "bb-x.2" =
    Some (Status_default, cache, Some ("pool-a", "pool-a.1")) /\ stored_router (rdb_view db) "bb-x.2" = None.
Proof.
  destruct demo_routers as [[st db]|] eqn:E; [|by vm_compute in E].
  set (er := EMRouter_new "t" "bb-x.2" "pool-a" "pool-a.1" "bb-x").
  assert (Hl : load_router db "bb-x.2" = Some (Status_default, Some er)).
  { change db with (default (st, mkMemDB ∅ []) (Some (st, db))).2. rewrite <- E. by vm_compute. }
  destruct (delete_router 2 db (RouterManager_new 2) "bb-x.2") as [[[st1 db1] c1]|] eqn:Ed.
  2: { exfalso. revert Ed. change db with (default (st, mkMemDB ∅ []) (Some (st, db))).2. rewrite <- E. by vm_compute. }
  assert (Hok : ok st1 = true).
  { change st1 with (default (st1, db, ∅) (Some (st1, db1, c1))).1.1. rewrite <- Ed.
    change db with (default (st, mkMemDB ∅ []) (Some (st, db))).2. rewrite <- E. by vm_compute. }
  assert (Hc1 : c1 = RouterManager_new 2).
  { change c1 with (default (st1, db, ∅) (Some (st1, db1, c1))).2. rewrite <- Ed.
    change db with (default (st, mkMemDB ∅ []) (Some (st, db))).2. rewrite <- E. vm_compute. reflexivity. }
  subst c1.
  destruct (put_in_cache 2 (RouterManager_new 2) "bb-x.2" er) as [c2|] eqn:Ep; [|by vm_compute in Ep].
  exists db1, c2. apply and_comm.
  exact (proj2 (late_fill_revives_router 2 db (RouterManager_new 2) "bb-x.2" er st1 db1 (RouterManager_new 2) c2 Hl Ed Hok Ep)).
Defined.
