(* ===== verification/Services.v ===== *)
(** * The extent manager's RPC services

    The handlers of [ResourceService], [ClusterService], [RouterService] and
    [HeartbeatService] (src/src/extentmanager/resource_service.cpp,
    cluster_service.cpp, router_service.cpp, heartbeat_service.cpp) over the
    state of one extent manager, and its recovery at start-up
    ([ExtentManager::DoRecovery], extent_manager.cpp).

    A handler's arguments are the fields of its request; an optional string
    that is absent reads as the empty string.  A response carries the status
    code, the message if one is set, and what else the handler fills in.
    [now] is the clock string, [uuids] what [UUID::Generate] returns, call by
    call.  [None] is undefined behaviour, an uncaught exception or a wait for
    further uuids. *)

From S2P Require Import Prelude Status Codec KvStore Persist Enums Net Blob User EsMgr RgAllocater RgMgr Pool RouterMgr.

#[local] Open Scope string_scope.
#[local] Open Scope Z_scope.

(** The configuration the handlers read. *)
Record EmCfg : Type := mkEmCfg {
  cfg_extent_size : Z;
  cfg_max_block_size : Z;
  cfg_rg_per_es : Z;
  cfg_router_inst_shift : Z;
  cfg_gc_begin : Z;
  cfg_gc_end : Z
}.

(** The managers and the store they share. *)
Record EmState (DB : Type) : Type := mkEmState {
  em_db : DB;
  em_users : UserManager;
  em_pools : PoolManager;
  em_routers : RouterCache;
  em_set_id : Z
}.
Arguments mkEmState {DB}.
Arguments em_db {DB}.
Arguments em_users {DB}.
Arguments em_pools {DB}.
Arguments em_routers {DB}.
Arguments em_set_id {DB}.

Record Response (A : Type) : Type := mkResponse {
  r_code : Z;
  r_message : option string;
  r_body : option A
}.
Arguments mkResponse {A}.
Arguments r_code {A}.
Arguments r_message {A}.
Arguments r_body {A}.

(** A failing handler sets code and message and returns. *)
Definition reply_error {A} (code : Z) (message : string) : Response A := mkResponse code (Some message) None.
Definition reply_status {A} (st : Status) : Response A := reply_error (code st) (msg st).
(** The others set the code and their result. *)
Definition reply {A} (st : Status) (body : A) : Response A := mkResponse (code st) None (Some body).

Definition str_empty (s : string) : bool := String.eqb s "".

Section Services.
Context `{RocksDB DB} `{Crc32c} (cfg : EmCfg).
Implicit Types s : EmState DB.

Definition with_db s (db : DB) : EmState DB := mkEmState db (em_users s) (em_pools s) (em_routers s) (em_set_id s).
Definition with_users s (u : UserManager) : EmState DB :=
  mkEmState (em_db s) u (em_pools s) (em_routers s) (em_set_id s).
Definition with_pools s (p : PoolManager) : EmState DB :=
  mkEmState (em_db s) (em_users s) p (em_routers s) (em_set_id s).
Definition with_routers s (c : RouterCache) : EmState DB :=
  mkEmState (em_db s) (em_users s) (em_pools s) c (em_set_id s).

(** ** Users *)

Definition CreateUser s (uuids : list string) (now user_name email comments : string)
  : option (Response string * EmState DB) :=
  if str_empty user_name || str_empty email
  then Some (reply_error CYPRE_ER_INVALID_ARGUMENT "username or email empty", s)
  else
    '(status, db, users, user_id) ←
      create_user (em_db s) (em_users s) uuids now user_name email comments (em_set_id s);
    let s := with_users (with_db s db) users in
    if negb (ok status) then Some (reply_status status, s)
    else Some (reply status (default "" user_id), s).

Definition DeleteUser s (user_id : string) : Response () * EmState DB :=
  if str_empty user_id then (reply_error CYPRE_ER_INVALID_ARGUMENT "userid empty", s)
  else
    let '(status, db, users) := soft_delete_user (em_db s) (em_users s) user_id in
    let s := with_users (with_db s db) users in
    if negb (ok status) then (reply_status status, s) else (reply status (), s).

Definition UpdateUser s (now user_id new_name new_email new_comments : string) : Response () * EmState DB :=
  if str_empty user_id || (str_empty new_name && str_empty new_email && str_empty new_comments)
  then (reply_error CYPRE_ER_INVALID_ARGUMENT "userid or new information empty", s)
  else
    let '(status, db, users) :=
      update_user (em_db s) (em_users s) now user_id new_name new_email new_comments in
    let s := with_users (with_db s db) users in
    if negb (ok status) then (reply_status status, s) else (reply status (), s).

Definition QueryUser s (user_id : string) : Response PbUser :=
  if str_empty user_id then reply_error CYPRE_ER_INVALID_ARGUMENT "userid empty"
  else
    let '(status, user) := query_user (em_users s) user_id in
    if negb (ok status) then reply_status status
    else mkResponse (code status) None user.

Definition ListUsers s : Response (list PbUser) :=
  let '(status, users) := list_users (em_users s) [] in reply status users.

(** ** Blobs *)

(** [*response]: the blob id. *)
Definition CreateBlob s (uuids : list string) (now user_id blob_name : string) (blob_size blob_type : Z)
  (instance_id blob_desc req_pool_id : string) : option (Response string * EmState DB) :=
  if str_empty user_id || str_empty blob_name || str_empty instance_id
     || negb (blobsize_valid (cfg_extent_size cfg) blob_size) || negb (blobtype_valid blob_type)
  then Some (reply_error CYPRE_ER_INVALID_ARGUMENT "argument invalid", s)
  else if negb (user_exist (em_users s) user_id)
  then Some (reply_error CYPRE_EM_USER_NOT_FOUND "User not exist", s)
  else
    let type := FromPbBlobType blob_type in
    let pool_id := if str_empty req_pool_id then allocate_pool (em_pools s) type else req_pool_id in
    if str_empty pool_id then Some (reply_error CYPRE_ER_INVALID_ARGUMENT "can't find valid pool", s)
    else
      '(status, db, pools, blob_id, rg_ids) ←
        pm_create_blob (em_db s) (em_pools s) uuids now pool_id blob_name blob_size type blob_desc
          user_id instance_id;
      let s := with_pools (with_db s db) pools in
      if negb (ok status) then Some (reply_status status, s)
      else
        let '(_, users) := UserManager_add_pool (em_users s) user_id pool_id in
        let s := with_users s users in
        q ← udiv blob_size (pm_extent_size_ (em_pools s));
        let extent_num := to_int q in
        '(status, db) ← create_router (em_db s) now pool_id blob_id 1 extent_num rg_ids;
        let s := with_db s db in
        if negb (ok status) then Some (reply_status status, s)
        else Some (reply status blob_id, s).

Definition ResizeBlob s (now user_id blob_id : string) (new_size : Z) : option (Response () * EmState DB) :=
  if str_empty user_id || str_empty blob_id || negb (blobsize_valid (cfg_extent_size cfg) new_size)
  then Some (reply_error CYPRE_ER_INVALID_ARGUMENT "usreid or or blobid or blobsize invalid", s)
  else if negb (user_exist (em_users s) user_id)
  then Some (reply_error CYPRE_EM_USER_NOT_FOUND "not found user", s)
  else
    '(status, db, pools, pool_id, old_size, rg_ids) ←
      pm_resize_blob (cfg_extent_size cfg) (em_db s) (em_pools s) now user_id blob_id new_size;
    let s := with_pools (with_db s db) pools in
    if negb (ok status) then Some (reply_status status, s)
    else
      old ← old_size;
      q ← udiv new_size (pm_extent_size_ (em_pools s));
      q' ← udiv old (pm_extent_size_ (em_pools s));
      let new_extent_num := to_int q in
      let old_extent_num := to_int q' in
      '(status, db) ← create_router (em_db s) now pool_id blob_id (old_extent_num + 1) new_extent_num rg_ids;
      let s := with_db s db in
      if negb (ok status) then Some (reply_status status, s)
      else Some (reply status (), s).

Definition DeleteBlob s (user_id blob_id : string) : Response () * EmState DB :=
  if str_empty user_id || str_empty blob_id
  then (reply_error CYPRE_ER_INVALID_ARGUMENT "userid or blobid empty", s)
  else if negb (user_exist (em_users s) user_id)
  then (reply_error CYPRE_EM_USER_NOT_FOUND "user not found", s)
  else
    let '(status, db, pools) := pm_soft_delete_blob (em_db s) (em_pools s) user_id blob_id in
    let s := with_pools (with_db s db) pools in
    if negb (ok status) then (reply_status status, s) else (reply status (), s).

Definition RenameBlob s (now user_id blob_id new_name : string) : Response () * EmState DB :=
  if str_empty user_id || str_empty blob_id || str_empty new_name
  then (reply_error CYPRE_ER_INVALID_ARGUMENT "userid or blobid or newname empty", s)
  else if negb (user_exist (em_users s) user_id)
  then (reply_error CYPRE_EM_USER_NOT_FOUND "user not found", s)
  else
    let '(status, db, pools) := pm_rename_blob (em_db s) (em_pools s) now user_id blob_id new_name in
    let s := with_pools (with_db s db) pools in
    if negb (ok status) then (reply_status status, s) else (reply status (), s).

(** The blob, the extent size and the largest block size. *)
Definition QueryBlob s (blob_id : string) : Response (option PbBlob * Z * Z) :=
  if str_empty blob_id then reply_error CYPRE_ER_INVALID_ARGUMENT "blob_id empty"
  else
    let '(status, blob) := pm_query_blob (em_pools s) blob_id false in
    if negb (ok status) then reply_status status
    else reply status (blob, cfg_extent_size cfg, cfg_max_block_size cfg).

Definition ListBlobs s (user_id : string) : Response (list PbBlob) :=
  if str_empty user_id then reply_error CYPRE_ER_INVALID_ARGUMENT "userid empty"
  else if negb (user_exist (em_users s) user_id)
  then reply_error CYPRE_EM_USER_NOT_FOUND "user not found"
  else
    let '(status, blobs) := pm_list_blobs (em_pools s) user_id [] in reply status blobs.

(** ** Pools *)

Definition CreatePool s (now name : string) (type replica_count es_count failure_domain : Z)
  : Response string * EmState DB :=
  if str_empty name || negb (pool_type_valid type) || negb (failure_domain_valid failure_domain)
     || (es_count <? 1) || negb (replica_count_valid replica_count) || (es_count <? replica_count)
  then (reply_error CYPRE_ER_INVALID_ARGUMENT "argument invalid", s)
  else
    let '(status, db, pools, pool_id) :=
      create_pool (cfg_rg_per_es cfg) (em_db s) (em_pools s) now name (FromPbPoolType type)
        (FromPbFailureDomain failure_domain) replica_count es_count in
    let s := with_pools (with_db s db) pools in
    if negb (ok status) then (reply_status status, s)
    else (reply status (default "" pool_id), s).

(** [Some x] is a field that is present. *)
Definition UpdatePool s (pool_id : string) (name : option string)
  (type replica_count es_count failure_domain : option Z) : Response () * EmState DB :=
  if str_empty pool_id then (reply_error CYPRE_ER_INVALID_ARGUMENT "argument invalid", s)
  else
    let valid := true in
    let new_name := default "" name in
    let '(new_type, valid) :=
      match type with
      | Some t => if pool_type_valid t then (FromPbPoolType t, valid) else (kPoolTypeUnknown, false)
      | None => (kPoolTypeUnknown, valid)
      end in
    let '(new_replicas, valid) :=
      match replica_count with
      | Some r => if replica_count_valid r then (r, valid) else (0, false)
      | None => (0, valid)
      end in
    let '(new_es_count, valid) :=
      match es_count with
      | Some e => if 0 <? e then (e, valid) else (0, false)
      | None => (0, valid)
      end in
    let '(fd, valid) :=
      match failure_domain with
      | Some f => if failure_domain_valid f then (FromPbFailureDomain f, valid)
                  else (kFailureDomainUnknown, false)
      | None => (kFailureDomainUnknown, valid)
      end in
    if negb valid then (reply_error CYPRE_ER_INVALID_ARGUMENT "argument invalid", s)
    else
      let '(status, db, pools) :=
        update_pool (em_db s) (em_pools s) pool_id new_name new_type fd new_replicas new_es_count in
      let s := with_pools (with_db s db) pools in
      if negb (ok status) then (reply_status status, s) else (reply status (), s).

Definition DeletePool s (pool_id : string) : Response () * EmState DB :=
  if str_empty pool_id then (reply_error CYPRE_ER_INVALID_ARGUMENT "pool id empty", s)
  else
    let '(status, db, pools) := soft_delete_pool (em_db s) (em_pools s) pool_id in
    let s := with_pools (with_db s db) pools in
    if negb (ok status) then (reply_status status, s) else (reply status (), s).

Definition InitPool s (now pool_id : string) : option (Response () * EmState DB) :=
  if str_empty pool_id then Some (reply_error CYPRE_ER_INVALID_ARGUMENT "poolid empty", s)
  else
    '(status, db, pools) ←
      init_pool (cfg_extent_size cfg) (cfg_rg_per_es cfg) (em_db s) (em_pools s) now pool_id;
    let s := with_pools (with_db s db) pools in
    if negb (ok status) then Some (reply_status status, s) else Some (reply status (), s).

Definition QueryPool s (pool_id : string) : Response PbPool :=
  if str_empty pool_id then reply_error CYPRE_ER_INVALID_ARGUMENT "pool id empty"
  else
    let '(status, pool) := query_pool (em_pools s) pool_id in
    if negb (ok status) then reply_status status
    else mkResponse (code status) None pool.

Definition ListPools s : Response (list PbPool) :=
  let '(status, pools) := list_pools_pb (em_pools s) [] in reply status pools.

(** ** Extent servers and groups *)

Definition QueryExtentServer s (pool_id : string) (es_id : Z) : Response PbExtentServer :=
  if str_empty pool_id then reply_error CYPRE_ER_INVALID_ARGUMENT "pool_id empty"
  else
    let '(status, es) := pm_query_es (em_pools s) pool_id es_id in
    if negb (ok status) then reply_status status
    else mkResponse (code status) None es.

Definition DeleteExtentServer s (pool_id : string) (es_id : Z) : Response () * EmState DB :=
  if str_empty pool_id then (reply_error CYPRE_ER_INVALID_ARGUMENT "pool_id empty", s)
  else
    let '(status, db, pools) := pm_delete_es (em_db s) (em_pools s) pool_id es_id in
    let s := with_pools (with_db s db) pools in
    if negb (ok status) then (reply_status status, s) else (reply status (), s).

Definition ListExtentServers s (pool_id : string) : Response (list PbExtentServer) :=
  if str_empty pool_id then reply_error CYPRE_ER_INVALID_ARGUMENT "pool_id empty"
  else if negb (pool_valid (em_pools s) pool_id)
  then reply_error CYPRE_EM_POOL_NOT_FOUND "pool not found"
  else
    let '(status, ess) := pm_list_es_pb (em_pools s) pool_id [] in reply status ess.

Definition QueryReplicationGroup s (pool_id rg_id : string) : Response PbReplicaGroup :=
  if str_empty pool_id || str_empty rg_id then reply_error CYPRE_ER_INVALID_ARGUMENT "pool_id or rg_id empty"
  else
    let '(status, rg) := pm_query_rg (cfg_extent_size cfg) (em_pools s) pool_id rg_id in
    if negb (ok status) then reply_status status
    else mkResponse (code status) None rg.

Definition ListReplicationGroups s (pool_id : string) : Response (list PbReplicaGroup) :=
  if str_empty pool_id then reply_error CYPRE_ER_INVALID_ARGUMENT "pool_id empty"
  else
    let '(status, rgs) := pm_list_rg (cfg_extent_size cfg) (em_pools s) pool_id [] in reply status rgs.

(** ** Routers *)

(** [QueryRouterResponse]: the version, and the [ExtentRouter] message, whose
    primary is missing when the pool has none for it. *)
Record RouterReply : Type := mkRouterReply {
  rr_router_version : Z;
  rr_extent_id : string;
  rr_rg_id : string;
  rr_primary : option ESInstance;
  rr_secondaries : list ESInstance
}.

Definition QueryRouter s (extent_id : string) : option (Response RouterReply * EmState DB) :=
  if str_empty extent_id then Some (reply_error CYPRE_ER_INVALID_ARGUMENT "extentid empty", s)
  else
    '(status, cache, found) ←
      query_router (cfg_router_inst_shift cfg) (em_db s) (em_routers s) extent_id;
    let s := with_routers s cache in
    if negb (ok status) then Some (reply_status status, s)
    else
      '(pool_id, rg_id) ← found;
      let blob_id := GetBlobId extent_id in
      if negb (pool_valid (em_pools s) pool_id) || negb (pm_blob_valid (em_pools s) pool_id blob_id)
      then Some (reply_error CYPRE_EM_BLOB_NOT_FOUND "extent router not found", s)
      else
        es_group ← pm_query_es_group (em_pools s) pool_id rg_id;
        '(_, primary, secondaries) ← pm_query_es_router (em_pools s) pool_id es_group;
        let router_version := get_router_version (em_pools s) pool_id in
        Some (mkResponse CYPRE_OK None
                (Some (mkRouterReply router_version extent_id rg_id primary secondaries)), s).

(** ** Heartbeats *)

(** The reply's extent size and router version, a [uint64] set from an
    [int]. *)
Definition ReportHeartbeat s (now : string) (es : PbExtentServer) : Response (Z * Z) * EmState DB :=
  let pool_id := pb_es_pool_id es in
  let ep := pb_es_endpoint es in
  if str_empty (pb_es_name es) || str_empty pool_id
  then (reply_error CYPRE_ER_INVALID_ARGUMENT "es name or pool id empty", s)
  else if negb (pool_valid (em_pools s) pool_id)
  then (reply_error CYPRE_EM_POOL_NOT_FOUND "not found pool", s)
  else
    let '(status, db, pools) :=
      if negb (pm_es_exist (em_pools s) pool_id (pb_es_id es))
      then pm_create_es (em_db s) (em_pools s) now (pb_es_id es) (pb_es_name es) (pb_public_ip ep)
             (pb_public_port ep) (pb_private_ip ep) (pb_private_port ep) (pb_es_size es)
             (pb_es_capacity es) pool_id (pb_es_host es) (pb_es_rack es)
      else pm_update_es (em_db s) (em_pools s) pool_id (pb_es_id es) (pb_es_name es) (pb_public_ip ep)
             (pb_public_port ep) (pb_private_ip ep) (pb_private_port ep) (pb_es_size es) in
    let s := with_pools (with_db s db) pools in
    if negb (ok status) then (reply_status status, s)
    else
      let router_version := to_int (get_router_version (em_pools s) pool_id) in
      (mkResponse CYPRE_OK None (Some (cfg_extent_size cfg, wrap64 router_version)), s).

(** ** Start-up *)

(** [ExtentManager::Init] from step 5 on: new managers over the opened store. *)
Definition ExtentManager_new (db : DB) (set_id : Z) : EmState DB :=
  mkEmState db ∅ (mkPoolManager ∅ (cfg_extent_size cfg)) (RouterManager_new (cfg_router_inst_shift cfg)) set_id.

(** 0, or -1 when a table cannot be recovered. *)
Definition DoRecovery s : option (Z * EmState DB) :=
  '(success, pools) ← PoolManager_recovery_from_store (em_db s) (em_pools s);
  let s := with_pools s pools in
  if negb success then Some (-1, s)
  else
    '(success, users) ← UserManager_recovery_from_store (em_db s) (em_users s);
    let s := with_users s users in
    if negb success then Some (-1, s) else Some (0, s).
End Services.
