(* ===== verification/ServicesTheorems.v ===== *)
(** * From a new blob to the servers of its extents

    What the handlers of Services.v achieve together: the extents of a blob
    that [CreateBlob] made are found by [QueryRouter], which answers with the
    servers of a replication group of the blob's pool. *)

From stdpp Require Import sorting.
From S2P Require Import Prelude Status Codec KvStore Persist Enums Net Blob User EsMgr RgAllocater RgMgr RgTheorems Pool PoolTheorems RouterMgr Services.

#[local] Open Scope string_scope.
#[local] Open Scope Z_scope.

(** ** Allocated groups *)

Lemma allocate_rg_loop_found fuel ess ids rgs es_rgs heap cur tmp rgs' es_rgs' heap' tmp' es key :
  allocate_rg_loop fuel ess ids rgs es_rgs heap cur tmp = Some (rgs', es_rgs', heap', tmp', Some (es, key)) ->
  is_Some (rgs' !! key).
Proof.
  revert es_rgs heap cur tmp. induction fuel as [|fuel IH]; [done|]. intros es_rgs heap cur tmp.
  cbn [allocate_rg_loop]. intros E.
  repeat match type of E with
  | (?x ≫= _) = _ => let q := fresh "q" in let Eq := fresh "Eq" in
      destruct x as [q|] eqn:Eq; cbn [mbind option_bind] in E; [|done]
  | (let '(_, _) := ?x in _) = _ => destruct x
  | (if ?b then _ else _) = _ => destruct b
  end; simplify_eq; [|by eapply IH].
  rewrite lookup_insert_eq. by eexists.
Qed.

(** Groups are filed under their own identifier. *)
Definition rg_keys (rm : RgManager) : Prop := map_Forall (fun key g => rg_id_ g = key) (rg_map_ rm).

Lemma rg_keys_keeps (rm rm' : RgManager) :
  rg_id_ <$> rg_map_ rm' = rg_id_ <$> rg_map_ rm -> rg_keys rm -> rg_keys rm'.
Proof.
  intros He Hk key g Hg. apply (f_equal (lookup key)) in He. rewrite !lookup_fmap, Hg in He. cbn in He.
  destruct (rg_map_ rm !! key) as [g0|] eqn:E0; [|done]. cbn in He. injection He as ->.
  exact (map_Forall_lookup_1 _ _ _ _ Hk E0).
Qed.

Lemma rg_map_some_keeps (rm rm' : RgManager) key :
  rg_id_ <$> rg_map_ rm' = rg_id_ <$> rg_map_ rm -> is_Some (rg_map_ rm' !! key) -> is_Some (rg_map_ rm !! key).
Proof.
  intros He [g Hg]. apply (f_equal (lookup key)) in He. rewrite !lookup_fmap, Hg in He.
  destruct (rg_map_ rm !! key); [by eexists|done].
Qed.

Lemma allocate_rg_member rm ess ids id rm' :
  rg_keys rm -> allocate_rg rm ess ids = Some (id, rm') -> id <> "" -> is_Some (rg_map_ rm !! id).
Proof.
  intros Hk E Hne. pose proof (allocate_rg_keeps rg_id_ (fun _ _ => eq_refl) _ _ _ _ _ E) as Hkeep.
  eapply rg_map_some_keeps; [exact Hkeep|]. apply (rg_keys_keeps _ _ Hkeep) in Hk. clear Hkeep.
  unfold allocate_rg in E.
  destruct (allocate_rg_loop _ _ _ _ _ _ _ _) as [[[[[rgs es_rgs] heap] tmp] res]|] eqn:El; [|done].
  cbn [mbind option_bind] in E. destruct (restore _ _ _); [|done]. cbn [mbind option_bind] in E.
  destruct res as [[es key]|]; [|by simplify_eq].
  apply allocate_rg_loop_found in El as [g Hg]. rewrite Hg in E. cbn [mbind option_bind] in E.
  destruct (requeue _ _ _); [|done]. cbn in E. injection E as <- <-.
  rewrite (map_Forall_lookup_1 _ _ _ _ Hk Hg). by eexists.
Qed.

Lemma allocate_rgs_loop_members n : forall rm ess ids rgs acc rm' rgs' acc',
  rg_keys rm -> allocate_rgs_loop n rm ess ids rgs acc = Some (true, rm', rgs', acc') ->
  exists new, acc' = (acc ++ new)%list /\ length new = n /\ Forall (fun id => is_Some (rg_map_ rm !! id)) new.
Proof.
  induction n as [|n IH]; intros rm ess ids rgs acc rm' rgs' acc' Hk; cbn [allocate_rgs_loop].
  { intros [= <- <- <-]. exists []. rewrite app_nil_r. auto. }
  destruct (allocate_rg rm ess ids) as [[id rm1]|] eqn:E; [|done]. cbn [mbind option_bind].
  pose proof (allocate_rg_keeps rg_id_ (fun _ _ => eq_refl) _ _ _ _ _ E) as Hkeep.
  destruct (String.eqb_spec id "") as [|Hne]; cbn [negb]; [done|].
  intros (new & -> & Hl & Hf)%IH; [|by eapply rg_keys_keeps]. exists (id :: new).
  rewrite <- app_assoc. split_and!; [done|by cbn; rewrite Hl|]. constructor.
  - by eapply allocate_rg_member.
  - eapply Forall_impl; [exact Hf|]. intros x. by apply rg_map_some_keeps.
Qed.

Section RoutedBlob.
Context `{RocksDBLaws DB} `{Crc32c} (cfg : EmCfg).
Implicit Types s : EmState DB.

(** Keys of different tables differ. *)
Lemma RG_key_not_er g e : RG_kv_key g <> er_key e.
Proof. unfold RG_kv_key, er_key. intros E. by simplify_eq. Qed.

Lemma blob_key_not_er b e : Blob_kv_key b <> er_key e.
Proof. unfold Blob_kv_key, er_key. intros E. by simplify_eq. Qed.

Lemma allocate_rgs_spec (db : DB) rm n ess ids st db' rm' acc' :
  rg_keys rm -> allocate_rgs db rm n ess ids [] = Some (st, db', rm', acc') -> ok st = true ->
  length acc' = Z.to_nat n /\ Forall (fun id => is_Some (rg_map_ rm !! id)) acc' /\
  forall e, rdb_view db' !! er_key e = rdb_view db !! er_key e.
Proof.
  intros Hk. unfold allocate_rgs.
  destruct (allocate_rgs_loop _ _ _ _ _ _) as [[[[go rm1] rgs] acc1]|] eqn:E; [|done]. cbn [mbind option_bind].
  destruct go; cbn [negb]; [|by intros; simplify_eq].
  destruct (mapM _ _) as [kvs|] eqn:Em; [|done]. cbn [mbind option_bind].
  destruct (multi_put_loop _ _ _ _) as [stored d] eqn:Ep. intros E' Hok.
  assert (stored = true) as -> by (destruct stored; [done|cbn in E'; by simplify_eq]). cbn [negb] in E'.
  injection E' as <- <- <- <-. apply allocate_rgs_loop_members in E as (new & -> & Hl & Hf); [|done].
  split_and!; [done..|]. intros e. eapply multi_put_loop_frame; [exact Ep|]. cbn [app].
  rewrite merge_sort_Permutation. intros ([k v] & Hke & Hin)%list_elem_of_fmap. cbn in Hke. subst k.
  apply mapM_Some_1 in Em. apply list_elem_of_lookup in Hin as [i Hi].
  destruct (Forall2_lookup_r _ _ _ _ _ Em Hi) as (id & _ & Hid). cbn in Hid.
  destruct (rg_map_ rm1 !! id) as [g|]; [|done]. cbn in Hid. injection Hid as Hkey _.
  by apply (RG_key_not_er g e).
Qed.

(** ** The pool after a blob is made *)

Lemma allocate_blobid_fresh (m : PoolManager) uuids id :
  allocate_blobid m uuids = Some id ->
  pm_blobid_exist m id = false /\ exists uuid, uuid ∈ uuids /\ id = kBlobIdPrefix +:+ uuid.
Proof.
  induction uuids as [|uuid uuids IH]; cbn [allocate_blobid]; [done|].
  destruct (pm_blobid_exist m (kBlobIdPrefix +:+ uuid)) eqn:E; cbn [negb].
  - intros (? & u & ? & ?)%IH. split; [done|]. exists u. split; [by right|done].
  - intros [= <-]. split; [done|]. exists uuid. split; [left|done].
Qed.

Lemma create_blob_view (db : DB) m now id name sz type desc pool_id user_id inst st db' m' e :
  create_blob db m now id name sz type desc pool_id user_id inst = (st, db', m') ->
  rdb_view db' !! er_key e = rdb_view db !! er_key e.
Proof.
  unfold create_blob. destruct (RocksStore_Put _ _ _) as [ks d] eqn:Ep. apply put_view in Ep.
  intros E. assert (db' = d) as -> by (destruct (RocksStatus_ok ks); cbn in E; congruence).
  rewrite Ep. destruct (RocksStatus_ok ks); [|done]. apply lookup_insert_ne, blob_key_not_er.
Qed.

(** A pool of which routers can be made and answered: enabled, groups filed
    under their identifiers, their servers known. *)
Record routable (p : Pool) : Prop := mkRoutable {
  routable_enabled : pool_status p = kPoolStatusEnabled;
  routable_keys : rg_keys (p_rg_mgr_ p);
  routable_servers : forall key servers, group_servers p !! key = Some servers ->
    Forall (fun id => is_Some (p_es_mgr_ p !! id)) servers
}.

Record blob_made (m : PoolManager) (pool_id blob_id : string) (rg_ids : list string) (m' : PoolManager)
  : Prop := mkBlobMade {
  made_fresh : pm_blobid_exist m blob_id = false;
  made_pool : exists p', pool_map_ m' !! pool_id = Some p' /\ routable p' /\
    blob_valid (p_blob_mgr_ p') blob_id = true /\
    Forall (fun rg => is_Some (group_servers p' !! rg)) rg_ids
}.

Lemma pm_create_blob_spec (db : DB) m uuids now pool_id name sz type desc user_id inst st db' m' id rg_ids :
  (forall p, pool_map_ m !! pool_id = Some p -> pool_status p = kPoolStatusEnabled -> routable p) ->
  pm_create_blob db m uuids now pool_id name sz type desc user_id inst = Some (st, db', m', id, rg_ids) ->
  ok st = true ->
  blob_made m pool_id id rg_ids m' /\ (exists uuid, uuid ∈ uuids /\ id = kBlobIdPrefix +:+ uuid) /\
  length rg_ids = Z.to_nat (to_int (sz / pm_extent_size_ m)) /\ pm_extent_size_ m <> 0 /\
  pm_extent_size_ m' = pm_extent_size_ m /\
  forall e, rdb_view db' !! er_key e = rdb_view db !! er_key e.
Proof.
  intros Hrt. unfold pm_create_blob. destruct (allocate_blobid m uuids) as [i|] eqn:Ei; [|done].
  cbn [mbind option_bind]. apply allocate_blobid_fresh in Ei as [Hfresh Huuid].
  destruct (find_status _ m pool_id) as [p|] eqn:Ep; [|by intros; simplify_eq].
  apply find_status_Some in Ep as [Hp Hs]. specialize (Hrt p Hp Hs).
  destruct (create_blob _ _ _ _ _ _ _ _ _ _ _) as [[st1 db1] blobs] eqn:Ec.
  destruct (ok st1) eqn:Eok; cbn [negb]; [|by intros; simplify_eq; congruence].
  unfold udiv. cbn [pm_extent_size_ set_pool].
  destruct (Z.eqb_spec (pm_extent_size_ m) 0) as [|Hz]; [done|]. cbn [mbind option_bind list_es].
  destruct (allocate_rgs _ _ _ _ _ _) as [[[[st2 db2] rm] ids]|] eqn:Ea; [|done]. cbn [mbind option_bind].
  intros [= <- <- <- <- <-] Hok. rewrite set_pool_twice. cbn [with_blobs p_rg_mgr_] in Ea.
  pose proof (allocate_rgs_keeps rg_id_ (fun _ _ => eq_refl) _ _ _ _ _ _ _ _ _ _ Ea) as Hids.
  pose proof (allocate_rgs_servers _ _ _ _ _ _ _ _ _ _ Ea) as Hserv.
  apply allocate_rgs_spec in Ea as (Hl & Hf & Hv); [|apply Hrt|done].
  split_and!; [|done..|intros e; by rewrite Hv, (create_blob_view _ _ _ _ _ _ _ _ _ _ _ _ _ _ e Ec)].
  split; [done|]. eexists. split; [apply lookup_insert_eq|]. split_and!.
  - destruct Hrt as [_ Hk Hsv]. split; [done|by eapply rg_keys_keeps|].
    unfold group_servers. cbn. rewrite Hserv. exact Hsv.
  - cbn. unfold create_blob in Ec. destruct (RocksStore_Put _ _ _) as [ks d].
    destruct (RocksStatus_ok ks); cbn in Ec; injection Ec as <- <- <-; [|done].
    unfold blob_valid. by rewrite lookup_insert_eq.
  - eapply Forall_impl; [exact Hf|]. intros rg Hrg. unfold group_servers. cbn. rewrite Hserv, lookup_fmap.
    by apply fmap_is_Some.
Qed.

(** ** A record of short strings fits *)

Lemma slen_save_string x : slen (save string_codec x) = 8 + slen x.
Proof. cbn [save string_codec u64_codec uint_codec]. rewrite slen_app. unfold slen at 1. rewrite le_bytes_length. lia. Qed.

Definition short (x : string) : Prop := slen x <= 65536.

Lemma router_fits_short r :
  short (er_extent_id_ r) -> short (er_pool_id_ r) -> short (er_rg_id_ r) -> short (er_blob_id_ r) ->
  short (er_create_time_ r) -> short (er_update_time_ r) -> router_fits r.
Proof.
  unfold short. intros. split.
  - cbn. unfold u64_max. lia.
  - cbn [save EMRouter_codec versioned EMRouter_members]. rewrite !slen_app, !slen_save_string.
    unfold slen at 1. cbn [save u32_codec uint_codec]. rewrite le_bytes_length. lia.
Qed.

(** ** The state of an extent manager *)

Record em_ok s : Prop := mkEmOk {
  em_ok_cfg : 0 <= cfg_router_inst_shift cfg;
  em_ok_cache : cache_ok (cfg_router_inst_shift cfg) (rdb_view (em_db s)) (em_routers s);
  (** routers are of blobs that exist *)
  em_ok_owned : forall e, is_Some (rdb_view (em_db s) !! er_key e) ->
    pm_blobid_exist (em_pools s) (GetBlobId e) = true;
  em_ok_pools : forall id p, pool_map_ (em_pools s) !! id = Some p ->
    pool_status p = kPoolStatusEnabled -> routable p
}.

Lemma Forall_exists_Forall2 {K A} `{Countable K} (m : gmap K A) (l : list K) :
  Forall (fun id => is_Some (m !! id)) l -> exists xs, Forall2 (fun id x => m !! id = Some x) l xs.
Proof.
  induction 1 as [|id l [x Hx] _ [xs IH]]; [by exists []|]. exists (x :: xs). by constructor.
Qed.

(** What [QueryRouter] answers for an extent whose router is stored. *)
Lemma QueryRouter_answers s e er p servers :
  e <> "" -> 0 <= cfg_router_inst_shift cfg ->
  cache_ok (cfg_router_inst_shift cfg) (rdb_view (em_db s)) (em_routers s) ->
  stored_router (rdb_view (em_db s)) e = Some er ->
  (forall t, (rdb_Get (em_db s) (er_key e)).1 <> RdbError t) ->
  pool_map_ (em_pools s) !! er_pool_id_ er = Some p -> routable p ->
  blob_valid (p_blob_mgr_ p) (GetBlobId e) = true ->
  group_servers p !! er_rg_id_ er = Some servers ->
  exists s' ess, Forall2 (fun id x => p_es_mgr_ p !! id = Some x) servers ess /\
    QueryRouter cfg s e = Some (mkResponse CYPRE_OK None (Some (mkRouterReply
      (p_router_version_ (p_meta p)) e (er_rg_id_ er)
      (ToPbEsInstance <$> head ess) (ToPbEsInstance <$> tail ess))), s').
Proof.
  intros He Hs Hc Her Hget Hp Hrt Hb Hg.
  destruct (query_router_found _ _ _ _ _ Hs Hc Her Hget) as [cache' Hq].
  destruct (Forall_exists_Forall2 _ _ (routable_servers _ Hrt _ _ Hg)) as [ess Hess]. exists (with_routers s cache'), ess. split; [done|].
  unfold QueryRouter. unfold str_empty. rewrite (proj2 (String.eqb_neq e "") He), Hq.
  cbn [mbind option_bind]. change (negb (ok Status_default)) with false.
  cbn [with_routers em_pools]. pose proof (routable_enabled _ Hrt) as Hen.
  unfold pool_valid. rewrite Hp, Hen. change (kPoolStatusEnabled =? kPoolStatusDisabled) with false.
  unfold pm_blob_valid. rewrite Hp, Hb. cbn [negb orb].
  unfold pm_query_es_group. rewrite Hp. cbn [mbind option_bind].
  unfold query_es_group. unfold group_servers in Hg. rewrite lookup_fmap in Hg. rewrite Hg. cbn [mbind option_bind].
  unfold pm_query_es_router. rewrite (proj2 (find_status_Some kPoolStatusEnabled (em_pools s) _ p)) by done.
  rewrite (query_es_router_spec _ _ _ Hess). cbn [mbind option_bind].
  unfold get_router_version. rewrite (proj2 (find_not_disabled_Some (em_pools s) (er_pool_id_ er) p)); [done|].
  split; [done|]. by rewrite Hen.
Qed.

(** C9: end to end.  If [CreateBlob] succeeds, then [QueryRouter] answers for
    every extent of the new blob: it names a replication group of the pool the
    blob is in, that group's first server as primary and its other servers, in
    order, as secondaries.  Assumed are a consistent extent manager state,
    uuids without dots, router records that fit the archive and a store whose
    reads do not fail. *)
Theorem create_blob_routes_extents s uuids now user_id name size type inst desc pool resp s' blob_id i :
  em_ok s -> Forall (fun u => no_dot u = true) uuids ->
  CreateBlob cfg s uuids now user_id name size type inst desc pool = Some (resp, s') ->
  r_code resp = CYPRE_OK -> r_body resp = Some blob_id ->
  1 <= i <= to_int (size / pm_extent_size_ (em_pools s)) ->
  (forall pool_id p rg, pool_map_ (em_pools s') !! pool_id = Some p -> is_Some (group_servers p !! rg) ->
     router_fits (EMRouter_new now (GenerateExtentID blob_id i) pool_id rg blob_id)) ->
  (forall k t, (rdb_Get (em_db s') k).1 <> RdbError t) ->
  exists pool_id p rg servers ess s'',
    pool_map_ (em_pools s') !! pool_id = Some p /\ group_servers p !! rg = Some servers /\
    Forall2 (fun id x => p_es_mgr_ p !! id = Some x) servers ess /\
    QueryRouter cfg s' (GenerateExtentID blob_id i) = Some (mkResponse CYPRE_OK None (Some (mkRouterReply
      (p_router_version_ (p_meta p)) (GenerateExtentID blob_id i) rg
      (ToPbEsInstance <$> head ess) (ToPbEsInstance <$> tail ess))), s'').
Proof.
  intros [Hsh Hc Hown Hpools] Hu E Hcode Hbody Hi Hfit Hget. unfold CreateBlob in E.
  destruct (_ || _ || _ || _ || _); [by simplify_eq|]. destruct (negb _); [by simplify_eq|].
  set (pool_id := if str_empty pool then _ else _) in E.
  destruct (str_empty pool_id); [by simplify_eq|].
  destruct (pm_create_blob _ _ _ _ _ _ _ _ _ _ _) as [[[[[st db1] pools1] id] rgs]|] eqn:Ec; [|done].
  cbn [mbind option_bind] in E. destruct (ok st) eqn:Eok; cbn [negb] in E.
  2: { injection E as <- <-. cbn in Hcode. unfold ok in Eok. b2p. done. }
  apply pm_create_blob_spec in Ec as ([Hfresh (p' & Hp' & Hrt & Hbv & Hrgs)] & (u & Huin & ->) & Hl & Hz & Hes & Hv);
    [|by apply Hpools|done].
  destruct (UserManager_add_pool _ _ _) as [? users1]. unfold udiv in E.
  cbn [with_users with_pools with_db em_pools em_db] in E. rewrite Hes in E.
  rewrite (proj2 (Z.eqb_neq _ _) Hz) in E. cbn [mbind option_bind] in E.
  destruct (create_router _ _ _ _ _ _ _) as [[st2 db2]|] eqn:Er; [|done]. cbn [mbind option_bind] in E.
  destruct (ok st2) eqn:Eok2; cbn [negb] in E.
  2: { injection E as <- <-. cbn in Hcode. unfold ok in Eok2. b2p. done. }
  injection E as <- <-. cbn in Hbody. injection Hbody as <-. cbn [with_db with_pools with_users em_pools em_db em_routers] in *.
  assert (Hd : no_dot (kBlobIdPrefix +:+ u) = true) by (cbn; by apply (proj1 (Forall_forall _ _) Hu)).
  set (bid := kBlobIdPrefix +:+ u) in *.
  pose proof (create_router_spec _ _ _ _ _ _ _ _ _ Hd Er Eok2) as [Hall Hframe].
  destruct (Hall i Hi) as (rg & Hrg & Hst). cbv zeta in Hst.
  assert (Hgrp : is_Some (group_servers p' !! rg)) by (exact (Forall_lookup_1 _ _ _ _ Hrgs Hrg)).
  pose proof Hgrp as [servers Hserv].
  pose proof (Hfit pool_id p' rg Hp' Hgrp) as Hf.
  assert (Hstored : stored_router (rdb_view db2) (GenerateExtentID bid i) =
    Some (EMRouter_new now (GenerateExtentID bid i) pool_id rg bid)).
  { unfold stored_router. rewrite Hst. cbn [mbind option_bind]. by rewrite router_decode_encode. }
  assert (Hcache : cache_ok (cfg_router_inst_shift cfg) (rdb_view db2) (em_routers s)).
  { eapply cache_ok_frame; [exact Hc|]. intros e [er Her].
    rewrite Hframe, Hv; [done|]. intros j Hj ->%(inj er_key).
    unfold stored_router in Her. destruct (rdb_view (em_db s) !! er_key (GenerateExtentID bid j)) eqn:Ej; [|done].
    pose proof (Hown (GenerateExtentID bid j) ltac:(rewrite Ej; eauto)) as Hx.
    rewrite GetBlobId_Generate in Hx by done. congruence. }
  destruct (QueryRouter_answers (mkEmState db2 users1 pools1 (em_routers s) (em_set_id s))
    (GenerateExtentID bid i) _ p' servers ltac:(done) Hsh Hcache Hstored ltac:(intros t; apply Hget) Hp' Hrt)
    as (s'' & ess & Hess & Hq); [by rewrite GetBlobId_Generate|done|].
  exists pool_id, p', rg, servers, ess, s''. split_and!; try done.
Qed.
End RoutedBlob.

(** ** Example *)

#[local] Existing Instance example_crc.

Definition demo_cfg : EmCfg := mkEmCfg 1024 4096 2 2 0 24.

Definition demo_em : EmState MemDB :=
  mkEmState demo_pools.1 {["user-a" := User_new "t" "user-a" "ann" "a@b" "" 1]} demo_pools.2
    (RouterManager_new 2) 1.

Definition demo_create : option (Response string * EmState MemDB) :=
  CreateBlob demo_cfg demo_em ["x"] "t" "user-a" "disk" 2048 BLOB_TYPE_GENERAL "vm" "" "".

Definition demo_created : EmState MemDB := default demo_em (snd <$> demo_create).

(** [em_ok] and the fit of routers, in a form that computes. *)
Definition pool_check (id : string) (p : Pool) : Prop :=
  slen id <= 65536 /\ map_Forall (fun key g => rg_id_ g = key) (rg_map_ (p_rg_mgr_ p)) /\
  map_Forall (fun key servers => slen key <= 65536 /\ Forall (fun id => is_Some (p_es_mgr_ p !! id)) servers)
    (group_servers p).

#[export] Instance pool_check_dec id p : Decision (pool_check id p).
Proof. unfold pool_check. apply _. Defined.

Lemma pool_check_routable id p : pool_check id p -> pool_status p = kPoolStatusEnabled -> routable p.
Proof.
  intros (_ & Hk & Hs) He. split; [done|done|]. intros key servers Hg.
  exact (proj2 (map_Forall_lookup_1 _ _ _ _ Hs Hg)).
Qed.

Lemma demo_pools_check : map_Forall pool_check (pool_map_ demo_pools.2).
Proof. refine (bool_decide_eq_true_1 _ _). by vm_compute. Qed.

Lemma demo_created_check : map_Forall pool_check (pool_map_ (em_pools demo_created)).
Proof. refine (bool_decide_eq_true_1 _ _). by vm_compute. Qed.

Lemma demo_no_routers e : rdb_view (em_db demo_em) !! er_key e = None.
Proof.
  assert (Hm : map_Forall (fun k _ => String.prefix kERKvPrefix k = false) (rdb_view (em_db demo_em))).
  { refine (bool_decide_eq_true_1 _ _). by vm_compute. }
  destruct (rdb_view (em_db demo_em) !! er_key e) as [v|] eqn:E; [|done].
  pose proof (map_Forall_lookup_1 _ _ _ _ Hm E) as Hp. unfold er_key in Hp. by rewrite prefix_app in Hp.
Qed.

Lemma demo_em_ok : em_ok demo_cfg demo_em.
Proof.
  split; [cbn; lia|apply RouterManager_new_ok; cbn; lia| |].
  - intros e. rewrite demo_no_routers. by intros [].
  - intros id p Hp. eapply (pool_check_routable id), demo_pools_check. exact Hp.
Qed.

Lemma create_blob_routes_extents_witness :
  exists p rg servers ess s'', pool_map_ (em_pools demo_created) !! "pool-a" = Some p /\
    group_servers p !! rg = Some servers /\
    Forall2 (fun id x => p_es_mgr_ p !! id = Some x) servers ess /\
    QueryRouter demo_cfg demo_created "bb-x.2" = Some (mkResponse CYPRE_OK None (Some (mkRouterReply
      (p_router_version_ (p_meta p)) "bb-x.2" rg
      (ToPbEsInstance <$> head ess) (ToPbEsInstance <$> tail ess))), s'').
Proof.
  assert (Hx : demo_create = Some (reply Status_default "bb-x", demo_created))
    by (vm_compute; reflexivity).
  destruct (create_blob_routes_extents demo_cfg demo_em ["x"] "t" "user-a" "disk" 2048 BLOB_TYPE_GENERAL "vm" "" ""
    (reply Status_default "bb-x") demo_created "bb-x" 2 demo_em_ok ltac:(by repeat constructor) Hx eq_refl eq_refl)
    as (pool_id & p & rg & servers & ess & s'' & Hp & Hg & Hess & Hq).
  - cut (to_int (2048 / pm_extent_size_ (em_pools demo_em)) = 2); [intros ->; lia|by vm_compute].
  - intros pool_id p rg Hp [servers Hg].
    pose proof (map_Forall_lookup_1 _ _ _ _ demo_created_check Hp) as (Hs1 & _ & Hm).
    destruct (map_Forall_lookup_1 _ _ _ _ Hm Hg) as [Hs2 _].
    by apply router_fits_short; try exact Hs1; try exact Hs2; vm_compute.
  - intros k t. cbn [rdb_Get MemDB_RocksDB]. by destruct (mem_entries _ !! k).
  - assert (Hid : pool_id = "pool-a").
    { assert (Hall : map_Forall (fun id _ => id = "pool-a") (pool_map_ (em_pools demo_created)))
        by (refine (bool_decide_eq_true_1 _ _); by vm_compute).
      exact (map_Forall_lookup_1 _ _ _ _ Hall Hp). }
    subst pool_id. exists p, rg, servers, ess, s''. split; [exact Hp|]. split; [exact Hg|].
    split; [exact Hess|exact Hq].
Defined.
