(* ===== verification/Recovery.v ===== *)
(** * A restart of the extent manager

    [ExtentManager::Init], [RegisterServices], [Start], [WaitToQuit] and
    [Destroy] (src/src/extentmanager/extent_manager.cpp), and what the recovery
    in [Init] finds: the tables of the process that ran before, as the store
    has them.

    The configuration, the log, the channel, the store and the timers are calls
    into libraries; what they return is a parameter. *)

From Stdlib Require Import Ascii.
From stdpp Require Import sorting.
From S2P Require Import Prelude Status Codec KvStore Persist Enums Net Blob User EsMgr RgAllocater RgMgr RgTheorems Pool RouterMgr Services.

#[local] Open Scope string_scope.
#[local] Open Scope Z_scope.

(** ** Start-up *)

(** What the calls return: [GlobalConfig().Init], [Log::Init], the address of
    the set manager and its [Channel::Init], [RocksStore::Open] with the store,
    the timer of the garbage collector, [GetOrCreateGlobalTimerThread] and the
    heartbeat timer. *)
Record EmStartEnv (DB : Type) : Type := mkEmStartEnv {
  se_config : Z; se_log : Z; se_set_ip : string; se_set_port : Z; se_channel : Z;
  se_open : Status * DB; se_gc_timer : Z; se_timer_thread : bool; se_hb_timer : Z
}.
Arguments mkEmStartEnv {DB}.
Arguments se_config {DB}.
Arguments se_log {DB}.
Arguments se_set_ip {DB}.
Arguments se_set_port {DB}.
Arguments se_channel {DB}.
Arguments se_open {DB}.
Arguments se_gc_timer {DB}.
Arguments se_timer_thread {DB}.
Arguments se_hb_timer {DB}.

Section Startup.
Context `{RocksDB DB} `{Crc32c} (cfg : EmCfg).

(** The result and the managers, once they exist.  [None]: recovery throws. *)
Definition ExtentManager_Init (env : EmStartEnv DB) (set_id : Z) : option (Z * option (EmState DB)) :=
  if negb (se_config env =? 0) then Some (-1, None)
  else if negb (se_log env =? 0) then Some (-1, None)
  else if String.eqb (se_set_ip env) "" || (se_set_port env =? 0) then Some (-1, None)
  else if negb (se_channel env =? 0) then Some (-1, None)
  else
    let '(status, db) := se_open env in
    if negb (ok status) then Some (-1, None)
    else
      let s := ExtentManager_new cfg db set_id in
      if negb (se_gc_timer env =? 0) then Some (-1, Some s)
      else
        '(r, s) ← DoRecovery s;
        if negb (r =? 0) then Some (-1, Some s)
        else if negb (se_timer_thread env) then Some (-1, Some s)
        else if negb (se_hb_timer env =? 0) then Some (-1, Some s)
        else Some (0, Some s).

(** [RegisterServices]: [add] is what [AddService] returns, service by
    service. *)
Definition RegisterServices (add : nat -> Z) : Z :=
  if negb (add 0%nat =? 0) then -1
  else if negb (add 1%nat =? 0) then -1
  else if negb (add 2%nat =? 0) then -1
  else if negb (add 3%nat =? 0) then -1
  else 0.

(** [stop_] after [Destroy]; [close]: what [RocksStore::Close] returns. *)
Definition ExtentManager_Destroy (close : Status) (stop : bool) : bool := if negb (ok close) then stop else true.

End Startup.

(** ** Keys *)

Definition pool_key (id : string) : string := kPoolKvPrefix +:+ "_" +:+ id.
Definition user_key (id : string) : string := kUserKvPrefix +:+ "_" +:+ id.
Definition es_key (pool_id : string) (id : Z) : string := kESKvPrefix +:+ "_" +:+ pool_id +:+ "_" +:+ dec id.
Definition rg_key (pool_id id : string) : string := kRGKvPrefix +:+ "_" +:+ pool_id +:+ "_" +:+ id.

#[export] Instance pool_key_inj : Inj (=) (=) pool_key.
Proof. intros a b E. unfold pool_key in E. by simplify_eq. Qed.
#[export] Instance user_key_inj : Inj (=) (=) user_key.
Proof. intros a b E. unfold user_key in E. by simplify_eq. Qed.

#[export] Instance es_key_inj pool_id : Inj (=) (=) (es_key pool_id).
Proof. intros a b E. unfold es_key, dec in E. by simplify_eq. Qed.
#[export] Instance rg_key_inj pool_id : Inj (=) (=) (rg_key pool_id).
Proof. intros a b E. unfold rg_key in E. by simplify_eq. Qed.

(** The keys of the store, for pools whose ids have [n] characters. *)
Inductive em_key (n : nat) : string -> Prop :=
  | KPool id : em_key n (pool_key id)
  | KUser id : em_key n (user_key id)
  | KRouter id : em_key n (kERKvPrefix +:+ id)
  | KEs pool_id id : String.length pool_id = n -> em_key n (es_key pool_id id)
  | KRg pool_id id : String.length pool_id = n -> em_key n (rg_key pool_id id)
  | KBlob pool_id id : String.length pool_id = n -> em_key n (blob_key pool_id id).

Lemma prefix_same_length p q t : String.length p = String.length q -> String.prefix p (q +:+ t) = true -> p = q.
Proof.
  revert q. induction p as [|c p IH]; intros [|d q] Hl Hp; try done. cbn in *.
  destruct (ascii_dec c d) as [->|]; [|done]. f_equal. apply IH; [lia|done].
Qed.

Lemma prefix_cancel a p q : String.prefix (a +:+ p) (a +:+ q) = String.prefix p q.
Proof. induction a as [|c a IH]; cbn; [done|]. by destruct (ascii_dec c c). Qed.

Lemma es_prefix n pool_id k : String.length pool_id = n -> em_key n k ->
  String.prefix (kESKvPrefix +:+ "_" +:+ pool_id) k = true -> exists id, k = es_key pool_id id.
Proof.
  intros Hn [id|id|id|q id Hq|q id Hq|q id Hq] Hp; try done.
  unfold es_key in Hp. rewrite prefix_cancel, (prefix_cancel "_") in Hp. apply prefix_same_length in Hp as ->; [eauto|lia].
Qed.

Lemma rg_prefix n pool_id k : String.length pool_id = n -> em_key n k ->
  String.prefix (kRGKvPrefix +:+ "_" +:+ pool_id) k = true -> exists id, k = rg_key pool_id id.
Proof.
  intros Hn [id|id|id|q id Hq|q id Hq|q id Hq] Hp; try done.
  unfold rg_key in Hp. rewrite prefix_cancel, (prefix_cancel "_") in Hp. apply prefix_same_length in Hp as ->; [eauto|lia].
Qed.

Lemma blob_prefix n pool_id k : String.length pool_id = n -> em_key n k ->
  String.prefix (blob_scan_prefix pool_id) k = true -> exists id, k = blob_key pool_id id.
Proof.
  intros Hn [id|id|id|q id Hq|q id Hq|q id Hq] Hp; try done.
  unfold blob_key, blob_scan_prefix in Hp. rewrite <- !str_append_assoc, prefix_cancel, (prefix_cancel "_") in Hp.
  apply prefix_same_length in Hp as ->; [eauto|lia].
Qed.

Lemma pool_prefix n k : em_key n k -> String.prefix kPoolKvPrefix k = true -> exists id, k = pool_key id.
Proof. intros [id|id|id|q id Hq|q id Hq|q id Hq] Hp; try done. eauto. Qed.

Lemma user_prefix n k : em_key n k -> String.prefix kUserKvPrefix k = true -> exists id, k = user_key id.
Proof. intros [id|id|id|q id Hq|q id Hq|q id Hq] Hp; try done. eauto. Qed.

(** ** Records *)

(** The counters of a server are not stored. *)
Definition stored_es (e : ExtentServer) : ExtentServer := set_counters e 0 0 0 0.

Lemma ES_decode_encode `{Crc32c} e : fits ES_codec e ->
  Serializer_Decode ES_codec (Serializer_Encode ES_codec e) = Decoded (stored_es e).
Proof.
  intros [Hs Hl]. apply Serializer_decodes; [|done]. rewrite <- (str_append_nil_r (save ES_codec e)).
  apply versioned_load; [unfold is_u32; lia|]. destruct e. cbn -[u64_codec int_codec string_codec] in *. by archive.
Qed.

Lemma RG_decode_encode `{Crc32c} g : fits RG_codec g ->
  Serializer_Decode RG_codec (Serializer_Encode RG_codec g) = Decoded g.
Proof. intros [? ?]. apply Serializer_roundtrip; auto using RG_codec_ok. Qed.

Lemma User_decode_encode `{Crc32c} u : fits User_codec u ->
  Serializer_Decode User_codec (Serializer_Encode User_codec u) = Decoded u.
Proof. intros [? ?]. apply Serializer_roundtrip; auto using User_codec_ok. Qed.

Lemma Pool_decode_encode `{Crc32c} p : fits Pool_codec p ->
  Serializer_Decode Pool_codec (Serializer_Encode Pool_codec p) = Decoded p.
Proof. intros [? ?]. apply Serializer_roundtrip; auto using Pool_codec_ok. Qed.

(** ** The tables and the store *)

(** The groups of a pool: each has an id and servers. *)
Definition groups_ok (rgs : RgMap) : Prop :=
  Z.of_nat (size rgs) < 18446744073709551616 /\
  map_Forall (fun key g => rg_id_ g = key /\ key <> "" /\ rg_extent_servers_ g <> []) rgs.

Record pool_stored `{Crc32c} (view : gmap string string) (pool_id : string) (p : Pool) : Prop := {
  ps_ess : synced ES_codec es_id_ (es_key pool_id) view (p_es_mgr_ p);
  ps_rgs : synced RG_codec rg_id_ (rg_key pool_id) view (rg_map_ (p_rg_mgr_ p));
  ps_blobs : synced Blob_codec b_id_ (blob_key pool_id) view (p_blob_mgr_ p);
  ps_groups : groups_ok (rg_map_ (p_rg_mgr_ p))
}.

(** The store has the tables of [s], and nothing else but routers and the
    remains of other pools. *)
Record tables_stored `{Crc32c} {DB} (n : nat) (view : gmap string string) (s : EmState DB) : Prop := {
  ts_pools : synced Pool_codec p_id_ pool_key view (p_meta <$> pool_map_ (em_pools s));
  ts_users : synced User_codec u_id_ user_key view (em_users s);
  ts_parts : forall pool_id p, pool_map_ (em_pools s) !! pool_id = Some p ->
    String.length pool_id = n /\ pool_stored view pool_id p;
  ts_keys : forall k v, view !! k = Some v -> em_key n k
}.

(** A pool after a restart: the same, with the counters of the servers at zero
    and the queues of the groups built again. *)
Definition same_pool (p p' : Pool) : Prop :=
  p_meta p' = p_meta p /\ p_es_mgr_ p' = stored_es <$> p_es_mgr_ p /\ p_blob_mgr_ p' = p_blob_mgr_ p /\
  rg_map_ (p_rg_mgr_ p') = rg_map_ (p_rg_mgr_ p) /\
  (rg_map_ (p_rg_mgr_ p) <> ∅ -> mgr_wf (p_rg_mgr_ p')).

Section Restart.
Context `{RocksDBLaws DB} `{Crc32c} (n : nat).
Implicit Types (db : DB) (s : EmState DB).

Lemma recover_ess db pool_id p : pool_stored (rdb_view db) pool_id p -> String.length pool_id = n ->
  (forall k v, rdb_view db !! k = Some v -> em_key n k) ->
  EsManager_recovery_from_store db ∅ pool_id = Some (true, stored_es <$> p_es_mgr_ p).
Proof.
  intros Hp Hn Hk. unfold EsManager_recovery_from_store.
  apply (recover_synced ES_codec es_id_ (es_key pool_id) stored_es (fun _ => eq_refl) ES_decode_encode db); [apply Hp| |].
  - intros id. unfold es_key. rewrite prefix_cancel, (prefix_cancel "_"). apply prefix_app.
  - intros k v Hv Hpr. by eapply es_prefix; eauto.
Qed.

Lemma build_heap_total m : es_rg_heap_ m = [] -> groups_ok (rg_map_ m) ->
  exists m', build_heap m = Some m' /\ rg_map_ m' = rg_map_ m /\ (rg_map_ m <> ∅ -> mgr_wf m').
Proof.
  intros He [Hsz Hg]. destruct (decide (rg_map_ m = ∅)) as [Hm|Hm].
  - unfold build_heap. rewrite Hm. eexists. by split.
  - destruct (build_heap_spec m He Hm Hsz Hg) as (m' & E & Er & Hw). eauto.
Qed.

Lemma recover_groups db pool_id p : pool_stored (rdb_view db) pool_id p -> String.length pool_id = n ->
  (forall k v, rdb_view db !! k = Some v -> em_key n k) ->
  exists m, RgManager_recovery_from_store db RgManager_new pool_id = Some (true, m) /\
    rg_map_ m = rg_map_ (p_rg_mgr_ p) /\ (rg_map_ (p_rg_mgr_ p) <> ∅ -> mgr_wf m).
Proof.
  intros Hp Hn Hk. unfold RgManager_recovery_from_store. cbn [rg_map_ RgManager_new].
  rewrite (recover_synced RG_codec rg_id_ (rg_key pool_id) (fun g => g) (fun _ => eq_refl) RG_decode_encode db _ _ (ps_rgs _ _ _ Hp)).
  - rewrite map_fmap_id. cbn [mbind option_bind negb es_rgs_ es_rg_heap_ RgManager_new].
    destruct (build_heap_total (mkRgManager (rg_map_ (p_rg_mgr_ p)) ∅ [])) as (m & -> & Hm & Hw); [done|apply Hp|].
    exists m. split; [done|]. by split.
  - intros id. unfold rg_key. rewrite prefix_cancel, (prefix_cancel "_"). apply prefix_app.
  - intros k v Hv Hpr. by eapply rg_prefix; eauto.
Qed.

Lemma recover_blobs db pool_id p : pool_stored (rdb_view db) pool_id p -> String.length pool_id = n ->
  (forall k v, rdb_view db !! k = Some v -> em_key n k) ->
  BlobManager_recovery_from_store db ∅ pool_id = Some (true, p_blob_mgr_ p).
Proof.
  intros Hp Hn Hk. unfold BlobManager_recovery_from_store.
  rewrite (recover_synced Blob_codec b_id_ (blob_key pool_id) (fun b => b) (fun _ => eq_refl) Blob_decode_encode db _ _
             (ps_blobs _ _ _ Hp) (fun _ => prefix_app _ _)).
  - by rewrite map_fmap_id.
  - intros k v Hv Hpr. by eapply blob_prefix; eauto.
Qed.

Lemma recover_users db users : synced User_codec u_id_ user_key (rdb_view db) users ->
  (forall k v, rdb_view db !! k = Some v -> em_key n k) -> UserManager_recovery_from_store db ∅ = Some (true, users).
Proof.
  intros Hs Hk. unfold UserManager_recovery_from_store.
  rewrite (recover_synced User_codec u_id_ user_key (fun u => u) (fun _ => eq_refl) User_decode_encode db _ _ Hs
             (fun _ => prefix_app _ _)).
  - by rewrite map_fmap_id.
  - intros k v Hv Hpr. by eapply user_prefix; eauto.
Qed.

(** The pools' own records, read by a loop of their own. *)
Lemma recover_metas_loop tmp m b m' : recovery_loop Pool_codec p_id_ tmp m = Some (b, m') ->
  recover_metas tmp (recovered_pool <$> m) = Some (b, recovered_pool <$> m').
Proof.
  revert m. induction tmp as [|v tmp IH]; intros m; cbn [recovery_loop recover_metas]; [by intros [= <- <-]|].
  destruct (Serializer_Decode Pool_codec v) as [meta| |]; [|by intros [= <- <-]|done].
  intros E. rewrite <- IH with (1 := E). by rewrite fmap_insert.
Qed.

Lemma recover_pools_metas db pools : synced Pool_codec p_id_ pool_key (rdb_view db) (p_meta <$> pools) ->
  (forall k v, rdb_view db !! k = Some v -> em_key n k) ->
  recover_metas (map snd (scan_values (RocksStore_ScanPrefix db kPoolKvPrefix).2)) ∅ =
    Some (true, recovered_pool <$> (p_meta <$> pools)).
Proof.
  intros Hs Hk.
  pose proof (recover_synced Pool_codec p_id_ pool_key (fun p => p) (fun _ => eq_refl) Pool_decode_encode db kPoolKvPrefix _ Hs
    (fun _ => prefix_app _ _) (fun k v Hv Hpr => pool_prefix n k (Hk k v Hv) Hpr)) as E.
  rewrite map_fmap_id in E. unfold recover in E. destruct (RocksStore_ScanPrefix db kPoolKvPrefix) as [st iter] eqn:Es.
  assert (st = RdbOk) as -> by (unfold RocksStore_ScanPrefix in Es; congruence). cbn [RocksStatus_ok negb snd] in *.
  apply recover_metas_loop in E. by rewrite fmap_empty in E.
Qed.

(** The parts of the pools, one after the other. *)
Lemma recover_parts_spec db (pools : gmap string Pool) : (forall k v, rdb_view db !! k = Some v -> em_key n k) ->
  (forall pool_id p, pools !! pool_id = Some p -> String.length pool_id = n /\ pool_stored (rdb_view db) pool_id p) ->
  forall order m, NoDup order ->
  (forall pool_id, pool_id ∈ order -> exists p, pools !! pool_id = Some p /\ m !! pool_id = Some (recovered_pool (p_meta p))) ->
  exists m', recover_parts db order m = Some (true, m') /\
    (forall pool_id, pool_id ∉ order -> m' !! pool_id = m !! pool_id) /\
    (forall pool_id p, pool_id ∈ order -> pools !! pool_id = Some p -> exists p', m' !! pool_id = Some p' /\ same_pool p p').
Proof.
  intros Hk Hp. induction order as [|id order IH]; intros m Hnd Hm.
  { exists m. split; [done|]. split; [done|]. by intros ? ? ?%elem_of_nil. }
  apply NoDup_cons in Hnd as [Hni Hnd]. destruct (Hm id) as (p & Hpid & Hmid); [left|]. destruct (Hp id p Hpid) as [Hn Hst].
  cbn [recover_parts]. rewrite Hmid. cbn [mbind option_bind recovered_pool p_es_mgr_].
  rewrite (recover_ess db id p Hst Hn Hk). cbn [mbind option_bind negb with_ess p_rg_mgr_ recovered_pool].
  destruct (recover_groups db id p Hst Hn Hk) as (rgs & -> & Hrg & Hw). cbn [mbind option_bind with_rgs with_ess p_blob_mgr_ recovered_pool].
  rewrite (recover_blobs db id p Hst Hn Hk). cbn [mbind option_bind negb with_blobs with_rgs with_ess recovered_pool p_meta p_rg_mgr_ p_es_mgr_].
  set (p1 := mkPool (p_meta p) rgs (p_blob_mgr_ p) (stored_es <$> p_es_mgr_ p)).
  destruct (IH (<[id := p1]> m) Hnd) as (m' & E & Hout & Hin).
  - intros q Hq. rewrite lookup_insert_ne by congruence. apply Hm. by right.
  - exists m'. split; [exact E|]. split.
    + intros q [Hne Hq]%not_elem_of_cons. rewrite Hout by done. by rewrite lookup_insert_ne.
    + intros q p0 [->|Hq]%elem_of_cons Hq'; [|by apply Hin]. rewrite Hout, lookup_insert_eq by done.
      eexists. split; [done|]. assert (p0 = p) as -> by congruence. by split_and!.
Qed.

Lemma recover_pools db pools ext : synced Pool_codec p_id_ pool_key (rdb_view db) (p_meta <$> pools) ->
  (forall pool_id p, pools !! pool_id = Some p -> String.length pool_id = n /\ pool_stored (rdb_view db) pool_id p) ->
  (forall k v, rdb_view db !! k = Some v -> em_key n k) ->
  exists pools', PoolManager_recovery_from_store db (mkPoolManager ∅ ext) = Some (true, mkPoolManager pools' ext) /\
    dom pools' = dom pools /\
    forall pool_id p, pools !! pool_id = Some p -> exists p', pools' !! pool_id = Some p' /\ same_pool p p'.
Proof.
  intros Hs Hp Hk. unfold PoolManager_recovery_from_store. cbn [pool_map_ pm_extent_size_].
  pose proof (recover_pools_metas db pools Hs Hk) as E. destruct (RocksStore_ScanPrefix db kPoolKvPrefix) as [st iter] eqn:Es.
  assert (st = RdbOk) as -> by (unfold RocksStore_ScanPrefix in Es; congruence). cbn [RocksStatus_ok negb snd] in *.
  rewrite E. cbn [mbind option_bind negb]. clear E Es iter.
  set (m := mkPoolManager (recovered_pool <$> (p_meta <$> pools)) ext).
  assert (Hperm : (pool_entries m).*1 ≡ₚ (map_to_list pools).*1).
  { unfold pool_entries. rewrite merge_sort_Permutation. cbn [pool_map_ m]. rewrite !map_to_list_fmap, <- !list_fmap_compose. done. }
  destruct (recover_parts_spec db pools Hk Hp (pool_entries m).*1 (recovered_pool <$> (p_meta <$> pools)))
    as (m' & -> & Hout & Hin).
  - rewrite Hperm. apply NoDup_fst_map_to_list.
  - intros id. rewrite Hperm. intros ([i p] & -> & Hi%elem_of_map_to_list)%list_elem_of_fmap. exists p. cbn [fst].
    split; [done|]. by rewrite !lookup_fmap, Hi.
  - assert (Hord : forall id p, pools !! id = Some p -> id ∈ (pool_entries m).*1).
    { intros id p Hi. rewrite Hperm. apply list_elem_of_fmap. exists (id, p). split; [done|]. by apply elem_of_map_to_list. }
    exists m'. split; [done|]. split; [|intros id p Hi; by eapply Hin; eauto].
    apply set_eq. intros id. rewrite !elem_of_dom. split.
    + intros [p' Hp']. destruct (pools !! id) as [p|] eqn:Ei; [by eexists|]. exfalso.
      rewrite Hout in Hp'; [by rewrite !lookup_fmap, Ei in Hp'|]. rewrite Hperm.
      intros ([i p] & -> & Hi%elem_of_map_to_list)%list_elem_of_fmap. cbn in Ei. congruence.
    + intros [p Hi]. destruct (Hin id p (Hord id p Hi) Hi) as (p' & ? & _). by eexists.
Qed.

End Restart.

(** C11: a restart of the extent manager finds its metadata.  If the store has
    the tables of the process that ran before (pool ids of one length, as the
    ids from uuids are), and the calls into libraries succeed, [Init] of the
    next process returns 0 with the same users and the same pools; every pool
    has its servers, its blobs and its replication groups, and the queues the
    groups are allocated from are built again. *)
Theorem manager_restart_recovers `{RocksDBLaws DB} `{Crc32c} cfg (env : EmStartEnv DB) db set_id n (s : EmState DB) :
  se_config env = 0 -> se_log env = 0 -> se_set_ip env <> "" -> se_set_port env <> 0 -> se_channel env = 0 ->
  se_open env = (Status_default, db) -> se_gc_timer env = 0 -> se_timer_thread env = true -> se_hb_timer env = 0 ->
  tables_stored n (rdb_view db) s ->
  exists s', ExtentManager_Init cfg env set_id = Some (0, Some s') /\ em_db s' = db /\ em_users s' = em_users s /\
    dom (pool_map_ (em_pools s')) = dom (pool_map_ (em_pools s)) /\
    forall pool_id p, pool_map_ (em_pools s) !! pool_id = Some p ->
      exists p', pool_map_ (em_pools s') !! pool_id = Some p' /\ same_pool p p'.
Proof.
  intros Hc Hl Hip%String.eqb_neq Hport%Z.eqb_neq Hch Ho Hg Ht Hh [Hp Hu Hparts Hk].
  unfold ExtentManager_Init. rewrite Hc, Hl, Hip, Hport, Hch, Ho, Hg, Ht, Hh. cbn [Z.eqb negb orb ok Status_default].
  unfold DoRecovery. cbn [em_db em_pools ExtentManager_new].
  destruct (recover_pools n db (pool_map_ (em_pools s)) (cfg_extent_size cfg) Hp Hparts Hk) as (pools' & -> & Hd & Hs).
  cbn [mbind option_bind negb with_pools em_db em_users ExtentManager_new].
  rewrite (recover_users n db (em_users s) Hu Hk). cbn [mbind option_bind negb Z.eqb].
  eexists. split; [done|]. by split_and!.
Qed.

(** ** Example *)

#[local] Existing Instance example_crc.

Definition demo_meta : PoolMeta :=
  mkPoolMeta "pool-a" "ssd" kPoolTypeSSD kFailureDomainHost kPoolStatusEnabled 1 1 1 4096 1 "2020-07-01" "2020-07-01".
Definition demo_es : ExtentServer :=
  set_counters (ExtentServer_new "2020-07-01" 7 "es-7" "10.0.0.7" 80 "10.0.0.7" 81 0 1048576 "pool-a" "host-7" "rack-1") 1 1 0 3.
Definition demo_rg : ReplicationGroup := mkReplicationGroup "rg-1" 0 5 "pool-a" "2020-07-01" "2020-07-01" [7].
Definition demo_user : User := User_new "2020-07-01" "user-1" "alice" "" "" 0.

Definition demo_view : gmap string string :=
  <[pool_key "pool-a" := Serializer_Encode Pool_codec demo_meta]> (<[user_key "user-1" := Serializer_Encode User_codec demo_user]>
  (<[es_key "pool-a" 7 := Serializer_Encode ES_codec demo_es]> (<[rg_key "pool-a" "rg-1" := Serializer_Encode RG_codec demo_rg]>
  {[blob_key "pool-a" "bb-1" := Serializer_Encode Blob_codec demo_blob]}))).

Definition demo_pool : Pool :=
  mkPool demo_meta (mkRgManager {["rg-1" := demo_rg]} ∅ []) {["bb-1" := demo_blob]} {[7 := demo_es]}.

Definition demo_db : MemDB := mkMemDB demo_view [].

Definition demo_state : EmState MemDB :=
  mkEmState demo_db {["user-1" := demo_user]} (mkPoolManager {["pool-a" := demo_pool]} 4096) (RouterManager_new 0) 0.

(** A table of one record. *)
Lemma synced_one `{Countable K} {R} (c : codec R) (rid : R -> K) (key : K -> string) view id r :
  rid r = id -> fits c r -> view !! key id = Some (Serializer_Encode c r) -> (forall i, i <> id -> view !! key i = None) ->
  synced c rid key view {[id := r]}.
Proof.
  intros Hid Hf Hv Hn. split.
  - intros i r' [<- <-]%lookup_singleton_Some. done.
  - intros i. destruct (decide (i = id)) as [->|Hne]; [by rewrite lookup_singleton_eq|].
    rewrite lookup_singleton_ne by done. by apply Hn.
Qed.

Ltac fits_one := split; [cbn; unfold slen; cbn; split_and!;
  lazymatch goal with
  | |- Forall _ _ => repeat constructor; lia
  | |- _ => vm_compute; intuition discriminate
  end|by vm_compute].
Ltac other_key := first [intros ?%(inj (es_key _)); congruence | discriminate
  | intros ?%(inj pool_key); congruence | intros ?%(inj user_key); congruence | intros ?%(inj (rg_key _)); congruence
  | intros ?%(inj (blob_key _)); congruence].
Ltac not_there := intros ? ?; unfold demo_view; rewrite !lookup_insert_ne by other_key; apply lookup_singleton_ne; other_key.

Lemma demo_stored : tables_stored 6 (rdb_view demo_db) demo_state.
Proof.
  change (rdb_view demo_db) with demo_view. split; cbn [em_pools em_users demo_state pool_map_].
  - rewrite map_fmap_singleton. apply synced_one; [done|fits_one|by vm_compute|not_there].
  - apply synced_one; [done|fits_one|by vm_compute|not_there].
  - intros pool_id p [<- <-]%lookup_singleton_Some. split; [done|]. split; cbn [demo_pool p_es_mgr_ p_rg_mgr_ p_blob_mgr_ rg_map_].
    + apply synced_one; [done|fits_one|by vm_compute|not_there].
    + apply synced_one; [done|fits_one|by vm_compute|not_there].
    + apply synced_one; [done|fits_one|by vm_compute|not_there].
    + split; [by vm_compute|]. by apply map_Forall_singleton.
  - intros k v E. unfold demo_view in E.
    repeat (apply lookup_insert_Some in E as [[<- _]|[_ E]]; [by constructor|]).
    apply lookup_singleton_Some in E as [<- _]. by constructor.
Qed.

Lemma manager_restart_recovers_witness :
  exists s', ExtentManager_Init (mkEmCfg 4096 0 0 0 0 0)
    (mkEmStartEnv 0 0 "10.0.0.1" 8080 0 (Status_default, demo_db) 0 true 0) 0 = Some (0, Some s') /\
    em_users s' = {["user-1" := demo_user]} /\
    exists p', pool_map_ (em_pools s') !! "pool-a" = Some p' /\ same_pool demo_pool p'.
Proof.
  destruct (manager_restart_recovers (mkEmCfg 4096 0 0 0 0 0)
    (mkEmStartEnv 0 0 "10.0.0.1" 8080 0 (Status_default, demo_db) 0 true 0) demo_db 0 6 demo_state eq_refl eq_refl
    ltac:(discriminate) ltac:(discriminate) eq_refl eq_refl eq_refl eq_refl eq_refl demo_stored) as (s' & E & _ & Hu & _ & Hp).
  exists s'. split; [exact E|]. split; [exact Hu|]. apply Hp. apply lookup_singleton_eq.
Defined.

(** A close of the store that fails leaves the process waiting for ever. *)
Lemma failed_store_close_never_quits close : ok close = false -> ExtentManager_Destroy close false = false.
Proof. intros E. unfold ExtentManager_Destroy. by rewrite E. Qed.
