(* ===== verification/GcMgr.v ===== *)
(** * Garbage collection

    [GcManager] (src/src/extentmanager/gc_manager.h and .cpp): the periodic
    removal of disabled pools, of the blobs of deleted users and of deleted
    blobs, with the space of their extents on the extent servers.

    The clock, the connections and the answers of the extent servers come from
    outside: they are the operations of the class [GcEnv] over a world [W].
    The functions run in the monad [GM]: the state of the extent manager and
    the world are threaded, [None] is undefined behaviour in a callee. *)

From S2P Require Import Prelude Status Codec KvStore Persist Enums Net Blob User EsMgr RgAllocater RgMgr Pool RouterMgr Services.

#[local] Open Scope string_scope.
#[local] Open Scope Z_scope.

(** An RPC either fails in transport or brings a response code. *)
Inductive RpcResult : Type :=
  | RpcFailed
  | RpcCode (code : Z).

Class GcEnv (W : Type) := {
  env_hour : W -> Z * W;                                  (* localtime()->tm_hour *)
  env_connect : W -> ESInstance -> bool * W;              (* conn_pool_->GetConnection *)
  env_delete : W -> ESInstance -> string -> Z -> Z -> RpcResult * W;   (* ExtentIOService.Delete *)
  env_reclaim : W -> ESInstance -> string -> RpcResult * W             (* ExtentControlService.ReclaimExtent *)
}.

(** ** The monad *)

Definition GM (DB W A : Type) : Type := EmState DB * W -> option (A * (EmState DB * W)).

#[export] Instance GM_ret DB W : MRet (GM DB W) := fun A a s => Some (a, s).
#[export] Instance GM_bind DB W : MBind (GM DB W) := fun A B f m s =>
  match m s with Some (a, s') => f a s' | None => None end.

Section Primitives.
Context {DB W : Type}.

Definition gm_get : GM DB W (EmState DB) := fun s => Some (s.1, s).
Definition gm_put (st : EmState DB) : GM DB W () := fun s => Some ((), (st, s.2)).
(** A call of the environment. *)
Definition gm_env {A} (f : W -> A * W) : GM DB W A := fun s => let '(a, w) := f s.2 in Some (a, (s.1, w)).
(** A call of a manager that may have no result. *)
Definition gm_lift {A} (f : EmState DB -> option (A * EmState DB)) : GM DB W A := fun s =>
  match f s.1 with Some (a, st) => Some (a, (st, s.2)) | None => None end.
End Primitives.

Section GcManager.
Context `{RocksDB DB} `{Crc32c} `{GcEnv W} (cfg : EmCfg).
Let M : Type -> Type := GM DB W.

Definition block_size_ : Z := Z.shiftl 4 10.

Definition timeValid : M bool :=
  tm_hour ← gm_env env_hour;
  mret ((cfg_gc_begin cfg <? tm_hour) && (tm_hour <? cfg_gc_end cfg)).

(** ** Extents *)

(** [common::pb::ExtentRouter] as the collector reads it: unset fields of a
    message have their default values. *)
Record GcRouter : Type := mkGcRouter { gr_primary : ESInstance; gr_secondaries : list ESInstance }.

Definition default_es : ESInstance := mkESInstance 0 "" 0 "" 0.

(** The status of [query_es_router] is ignored. *)
Definition getRouter (extent_id : string) : M (Status * option GcRouter) :=
  '(status, found) ← gm_lift (fun s =>
    '(status, cache, found) ← query_router (cfg_router_inst_shift cfg) (em_db s) (em_routers s) extent_id;
    Some ((status, found), with_routers s cache));
  if negb (ok status) then mret (status, None)
  else
    gm_lift (fun s =>
      '(pool_id, rg_id) ← found;
      es_group ← pm_query_es_group (em_pools s) pool_id rg_id;
      '(_, primary, secondaries) ← pm_query_es_router (em_pools s) pool_id es_group;
      Some ((Status_default, Some (mkGcRouter (default default_es primary) secondaries)), s)).

(** [1 + secondaries().size()] replicas, the primary first. *)
Definition replicas (r : GcRouter) : list ESInstance := gr_primary r :: gr_secondaries r.

(** [true] where the source returns 0. *)
Fixpoint getConns (targets : list ESInstance) : M bool :=
  match targets with
  | [] => mret true
  | t :: targets' =>
      ok ← gm_env (fun w => env_connect w t);
      if negb ok then mret false else getConns targets'
  end.

(** All requests are sent before the first answer is awaited. *)
Fixpoint send_all (call : W -> ESInstance -> RpcResult * W) (targets : list ESInstance)
  : M (list RpcResult) :=
  match targets with
  | [] => mret []
  | t :: targets' =>
      r ← gm_env (fun w => call w t);
      rs ← send_all call targets';
      mret (r :: rs)
  end.

(** The loop over the answers: the first that is not a success is returned. *)
Fixpoint join_all (rs : list RpcResult) : Status :=
  match rs with
  | [] => Status_default
  | RpcFailed :: _ => mkStatus CYPRE_EM_BRPC_SEND_FAIL ""
  | RpcCode c :: rs' => if negb (c =? 0) then mkStatus c "" else join_all rs'
  end.

Definition deleteOneBlock (extent_id : string) (offset : Z) (router : GcRouter) : M Status :=
  connected ← getConns (replicas router);
  if negb connected then mret (mkStatus CYPRE_EM_GET_CONN_ERROR "couldn't get connections")
  else
    ctxs ← send_all (fun w t => env_delete w t extent_id offset block_size_) (replicas router);
    mret (join_all ctxs).

Definition reclaimExtent (extent_id : string) (router : GcRouter) : M Status :=
  connected ← getConns (replicas router);
  if negb connected then mret (mkStatus CYPRE_EM_GET_CONN_ERROR "couldn't get connections")
  else
    ctxs ← send_all (fun w t => env_reclaim w t extent_id) (replicas router);
    mret (join_all ctxs).

(** [for (offset = 0; offset < extent_size; offset += block_size_)]: [n] rounds
    are left. *)
Fixpoint deleteBlocks_loop (n : nat) (extent_id : string) (offset : Z) (router : GcRouter) : M Status :=
  match n with
  | O => mret Status_default
  | S n' =>
      status ← deleteOneBlock extent_id offset router;
      if negb (ok status) then mret status
      else deleteBlocks_loop n' extent_id (offset + block_size_) router
  end.

Definition num_blocks (extent_size : Z) : nat := Z.to_nat ((extent_size + block_size_ - 1) / block_size_).

Definition deleteRemoteExtent (extent_id : string) : M Status :=
  '(status, router) ← getRouter extent_id;
  match router with
  | Some router =>
      status ← deleteBlocks_loop (num_blocks (cfg_extent_size cfg)) extent_id 0 router;
      if negb (ok status) then mret status else reclaimExtent extent_id router
  | None => mret status
  end.

(** ** Blobs *)

Definition gc_delete_router (id : string) : M Status :=
  gm_lift (fun s =>
    '(status, db, cache) ← delete_router (cfg_router_inst_shift cfg) (em_db s) (em_routers s) id;
    Some (status, with_routers (with_db s db) cache)).

Definition gc_delete_blob (pool_id blob_id : string) : M Status :=
  gm_lift (fun s =>
    let '(status, db, pools) := pm_delete_blob (em_db s) (em_pools s) pool_id blob_id in
    Some (status, with_pools (with_db s db) pools)).

(** The body of the loop over the extents of a blob. *)
Definition deleteOneExtent (id : string) (delete_remote : bool) : M Status :=
  status ← (if delete_remote then deleteRemoteExtent id else mret Status_default);
  if negb (ok status) then mret status else gc_delete_router id.

(** The extents from [index] on, [n] of them. *)
Fixpoint deleteExtents_loop (n : nat) (blob_id : string) (index : Z) (delete_remote : bool) : M Status :=
  match n with
  | O => mret Status_default
  | S n' =>
      status ← deleteOneExtent (GenerateExtentID blob_id index) delete_remote;
      if negb (ok status) then mret status
      else deleteExtents_loop n' blob_id (index + 1) delete_remote
  end.

Definition deleteOneBlob (pool_id blob_id : string) (delete_remote : bool) : M Status :=
  s ← gm_get;
  match pm_query_blob (em_pools s) blob_id true with
  | (status, Some blob) =>
      extent_num ← gm_lift (fun s => q ← udiv (pb_blob_size blob) (cfg_extent_size cfg); Some (q, s));
      status ← deleteExtents_loop (Z.to_nat extent_num) blob_id 1 delete_remote;
      if negb (ok status) then mret status else gc_delete_blob pool_id blob_id
  | (status, None) => mret status
  end.

Fixpoint deleteBlobs_loop (pool_id : string) (blobs : list string) (delete_remote success : bool)
  : M Status :=
  match blobs with
  | [] => mret (if success then Status_default else mkStatus CYPRE_EM_TRY_AGAIN "")
  | blob_id :: blobs' =>
      valid ← timeValid;
      if negb valid then mret (mkStatus CYPRE_EM_EXCEED_TIME_LIMIT "")
      else
        status ← deleteOneBlob pool_id blob_id delete_remote;
        deleteBlobs_loop pool_id blobs' delete_remote (if negb (ok status) then false else success)
  end.

Definition deleteBlobs (pool_id : string) (blobs : list string) (delete_remote : bool) : M Status :=
  deleteBlobs_loop pool_id blobs delete_remote true.

(** ** The three passes *)

Fixpoint deletePools_loop (pools : list string) : M () :=
  match pools with
  | [] => mret ()
  | pool_id :: pools' =>
      s ← gm_get;
      let '(status, blobs) := pm_list_blob_ids (em_pools s) pool_id false [] in
      if negb (ok status) then deletePools_loop pools'
      else
        status ← deleteBlobs pool_id blobs false;
        (if ok status then
           gm_lift (fun s =>
             let '(_, db, pools) := pm_delete_all_es (em_db s) (em_pools s) pool_id in
             '(_, db, pools) ← pm_delete_all_rg db pools pool_id;
             let '(_, db, pools) := delete_pool db pools pool_id in
             Some ((), with_pools (with_db s db) pools))
         else mret ());;
        deletePools_loop pools'
  end.

Definition deletePools : M () :=
  s ← gm_get;
  let '(_, pools) := list_deleted_pools (em_pools s) [] in
  deletePools_loop pools.

(** [success] is shared by all users. *)
Fixpoint user_pools_loop (user_id : string) (pools : list string) (success : bool) : M bool :=
  match pools with
  | [] => mret success
  | pool_id :: pools' =>
      s ← gm_get;
      let '(status, blobs) := pm_list_blob_ids_of_user (em_pools s) pool_id user_id [] in
      if negb (ok status) then user_pools_loop user_id pools' false
      else
        status ← deleteBlobs pool_id blobs true;
        user_pools_loop user_id pools' (ok status && success)
  end.

Fixpoint deleteUserBlobs_loop (users : list string) (success : bool) : M () :=
  match users with
  | [] => mret ()
  | user_id :: users' =>
      s ← gm_get;
      let '(_, pools) := UserManager_list_pools (em_users s) user_id [] in
      success ← user_pools_loop user_id pools success;
      (if negb success then mret ()
       else gm_lift (fun s =>
              let '(_, db, users) := delete_user (em_db s) (em_users s) user_id in
              Some ((), with_users (with_db s db) users)));;
      deleteUserBlobs_loop users' success
  end.

Definition deleteUserBlobs : M () :=
  s ← gm_get;
  let '(_, users) := list_deleted_users (em_users s) [] in
  deleteUserBlobs_loop users true.

Fixpoint deleteDeletedBlobs_loop (pools : list string) : M () :=
  match pools with
  | [] => mret ()
  | pool_id :: pools' =>
      s ← gm_get;
      let '(status, blobs) := pm_list_blob_ids (em_pools s) pool_id true [] in
      (if negb (ok status) then mret ()
       else _ ← deleteBlobs pool_id blobs true; mret ());;
      deleteDeletedBlobs_loop pools'
  end.

(** The [deleteBlobs] without arguments. *)
Definition deleteDeletedBlobs : M () :=
  s ← gm_get;
  let '(_, pools) := list_pools (em_pools s) [] in
  deleteDeletedBlobs_loop pools.

(** [gcing_] is read and written by the timer thread only; a call that finds
    it set returns at once. *)
Definition gc (gcing_ : bool) : M () :=
  if gcing_ then mret ()
  else
    valid ← timeValid;
    if negb valid then mret ()
    else deletePools;; deleteUserBlobs;; deleteDeletedBlobs.
End GcManager.
