(* ===== verification/GcTheorems.v ===== *)
(** * Theorems on garbage collection

    What a pass of the collector leaves alone, that it collects what it should
    when its calls succeed, and how an interrupted collection gets stuck. *)

From stdpp Require Import sorting.
From S2P Require Import Prelude Status Codec KvStore Persist Enums Net Blob User EsMgr RgAllocater RgMgr RgTheorems Pool PoolTheorems RouterMgr Services ServicesTheorems GcMgr.

#[local] Open Scope string_scope.
#[local] Open Scope Z_scope.

#[local] Arguments er_key : simpl never.

(** ** Invariants of monadic code *)

Section Keeps.
Context {DB W : Type} (I : EmState DB -> Prop).

Definition keeps {A} (m : GM DB W A) : Prop :=
  forall s w a s' w', m (s, w) = Some (a, (s', w')) -> I s -> I s'.

Lemma keeps_ret {A} (a : A) : keeps (mret a).
Proof. intros s w a' s' w' [= <- <- <-]. done. Qed.

Lemma keeps_bind {A B} (m : GM DB W A) (f : A -> GM DB W B) :
  keeps m -> (forall a, keeps (f a)) -> keeps (m ≫= f).
Proof.
  intros Hm Hf s w b s' w'. unfold mbind, GM_bind. destruct (m (s, w)) as [[a [s1 w1]]|] eqn:E; [|done].
  intros E' Hs. eapply Hf; [exact E'|]. by eapply Hm.
Qed.

Lemma keeps_env {A} (f : W -> A * W) : keeps (gm_env f).
Proof. intros s w a s' w'. unfold gm_env. cbn. destruct (f w). intros [= _ <- _]. done. Qed.

Lemma keeps_get {B} (f : EmState DB -> GM DB W B) :
  (forall s, I s -> keeps (f s)) -> keeps (gm_get ≫= f).
Proof. intros Hf s w b s' w' E Hs. exact (Hf s Hs s w b s' w' E Hs). Qed.

Lemma keeps_lift {A} (f : EmState DB -> option (A * EmState DB)) :
  (forall s a s', f s = Some (a, s') -> I s -> I s') -> keeps (gm_lift f).
Proof.
  intros Hf s w a s' w'. unfold gm_lift. cbn. destruct (f s) as [[a1 s1]|] eqn:E; [|done].
  intros [= _ <- _]. by eapply Hf.
Qed.

Lemma keeps_if {A} (b : bool) (m m' : GM DB W A) : keeps m -> keeps m' -> keeps (if b then m else m').
Proof. by destruct b. Qed.
End Keeps.

Create HintDb gm.
#[export] Hint Resolve keeps_ret keeps_env keeps_if : gm.

(** ** Writes to other tables leave routers alone *)

Section Frames.
Context `{RocksDBLaws DB} `{Crc32c}.
Implicit Types db : DB.

(** The two views hold the same router records. *)
Definition same_routers db db' : Prop :=
  forall e, rdb_view db' !! er_key e = rdb_view db !! er_key e.

#[export] Instance same_routers_preorder : PreOrder same_routers.
Proof. split; [by intros ? ?|]. intros x y z Hxy Hyz e. by rewrite Hyz, Hxy. Qed.

Lemma delete_other db key st db' :
  (forall e, key <> er_key e) -> RocksStore_Delete db key = (st, db') -> same_routers db db'.
Proof.
  intros Hk E%delete_view e. rewrite E. destruct (RocksStatus_ok st); [|done].
  apply lookup_delete_ne, Hk.
Qed.

Lemma delete_all_other {A} (key : A -> string) (l : list A) db :
  (forall a e, key a <> er_key e) ->
  same_routers db (foldl (fun db a => (RocksStore_Delete db (key a)).2) db l).
Proof.
  intros Hk. revert db. induction l as [|a l IH]; intros db; cbn; [done|].
  etransitivity; [|apply IH]. destruct (RocksStore_Delete db (key a)) as [st db'] eqn:E.
  by eapply delete_other.
Qed.

Lemma ES_key_not_er x e : ES_kv_key x <> er_key e.
Proof. unfold ES_kv_key, er_key. intros E. by simplify_eq. Qed.

Lemma Pool_key_not_er x e : Pool_kv_key x <> er_key e.
Proof. unfold Pool_kv_key, er_key. intros E. by simplify_eq. Qed.

Lemma User_key_not_er x e : User_kv_key x <> er_key e.
Proof. unfold User_kv_key, er_key. intros E. by simplify_eq. Qed.

Lemma pm_delete_blob_frame db m pool_id blob_id st db' m' :
  pm_delete_blob db m pool_id blob_id = (st, db', m') ->
  same_routers db db' /\
  (m' = m \/ exists p, pool_map_ m !! pool_id = Some p /\
     (m' = set_pool m pool_id p \/ m' = set_pool m pool_id (with_blobs p (delete blob_id (p_blob_mgr_ p))))).
Proof.
  unfold pm_delete_blob. destruct (pool_map_ m !! pool_id) as [p|] eqn:Ep; [|intros [= <- <- <-]; split; [done|by left]].
  unfold delete_blob. destruct (p_blob_mgr_ p !! blob_id) as [b|] eqn:Eb.
  2: { intros [= <- <- <-]. split; [done|]. right. exists p. split; [done|]. left. by destruct p. }
  destruct (RocksStore_Delete db (Blob_kv_key b)) as [ks d] eqn:Ed.
  assert (Hs : same_routers db d) by (eapply delete_other; [|exact Ed]; apply blob_key_not_er).
  destruct (negb _); intros [= <- <- <-]; (split; [done|]); right; exists p; (split; [done|]); [left|by right].
  by destruct p.
Qed.
End Frames.

(** ** A live blob survives *)

Section Spare.
Context `{RocksDBLaws DB} `{Crc32c} `{GcEnv W} (cfg : EmCfg).
(** The blob, its pool and the routers of its extents. *)
Context (P B : string) (b : Blob) (routers : Z -> option string).
Context (B_dot : no_dot B = true) (b_live : b_status_ b <> kBlobStatusDeleted).

Record spared (s : EmState DB) : Prop := mkSpared {
  sp_pool : exists p, pool_map_ (em_pools s) !! P = Some p /\ pool_status p <> kPoolStatusDisabled /\
    p_blob_mgr_ p !! B = Some b;
  sp_owner : exists u, em_users s !! b_user_id_ b = Some u /\ u_status_ u <> kUserStatusDeleted;
  sp_routers : forall i, rdb_view (em_db s) !! er_key (GenerateExtentID B i) = routers i;
  (** blob ids have no dot and are of one pool *)
  sp_ids : forall P' p' B', pool_map_ (em_pools s) !! P' = Some p' -> is_Some (p_blob_mgr_ p' !! B') ->
    no_dot B' = true /\ (B' = B -> P' = P)
}.

#[local] Abbreviation kept := (keeps (DB := DB) (W := W) spared).

Lemma spared_db s db : same_routers (em_db s) db -> spared s -> spared (with_db s db).
Proof. intros Hdb [Hp Ho Hr Hi]. split; try done. intros i. cbn. by rewrite Hdb. Qed.

Lemma spared_cache s c : spared s -> spared (with_routers s c).
Proof. by intros [Hp Ho Hr Hi]. Qed.

(** Replacing another pool, or the pool by one that still has the blob. *)
Lemma spared_set_pool s P' p p' :
  spared s -> pool_map_ (em_pools s) !! P' = Some p -> pool_status p' = pool_status p ->
  (forall x, is_Some (p_blob_mgr_ p' !! x) -> is_Some (p_blob_mgr_ p !! x)) ->
  (P' = P -> p_blob_mgr_ p' !! B = p_blob_mgr_ p !! B) ->
  spared (with_pools s (set_pool (em_pools s) P' p')).
Proof.
  intros [(q & Hq & Hs & Hb) Ho Hr Hi] Hp Hst Hsub HB. split; [|done|done|].
  - cbn. destruct (decide (P' = P)) as [->|Hne].
    + exists p'. rewrite lookup_insert_eq. rewrite Hq in Hp. injection Hp as <-. rewrite Hst, HB by done. auto.
    + exists q. rewrite lookup_insert_ne by done. auto.
  - cbn. intros P1 p1 B1 [[<- <-]|[_ Hp1]]%lookup_insert_Some Hx; eauto.
Qed.

Lemma spared_no_pool s P' :
  spared s -> P' <> P ->
  spared (with_pools s (mkPoolManager (delete P' (pool_map_ (em_pools s))) (pm_extent_size_ (em_pools s)))).
Proof.
  intros [(q & Hq & Hs & Hb) Ho Hr Hi] Hne. split; [|done|done|].
  - exists q. cbn. rewrite lookup_delete_ne by done. auto.
  - cbn. intros P1 p1 B1 [_ Hp1]%lookup_delete_Some Hx; eauto.
Qed.

Lemma kept_getConns targets : kept (getConns targets).
Proof. induction targets; cbn; eauto using keeps_bind with gm. Qed.

Lemma kept_send_all call targets : kept (send_all call targets).
Proof. induction targets; cbn; eauto using keeps_bind with gm. Qed.

Lemma kept_deleteOneBlock e o r : kept (deleteOneBlock e o r).
Proof. apply keeps_bind; [apply kept_getConns|]. eauto using keeps_bind, kept_send_all with gm. Qed.

Lemma kept_reclaimExtent e r : kept (reclaimExtent e r).
Proof. apply keeps_bind; [apply kept_getConns|]. eauto using keeps_bind, kept_send_all with gm. Qed.

Lemma kept_deleteBlocks n e o r : kept (deleteBlocks_loop n e o r).
Proof.
  revert o. induction n; intros o; cbn [deleteBlocks_loop]; [apply keeps_ret|].
  apply keeps_bind; [apply kept_deleteOneBlock|]. eauto with gm.
Qed.

Lemma kept_getRouter e : kept (getRouter cfg e).
Proof.
  apply keeps_bind.
  - apply keeps_lift. intros s a s'. destruct (query_router _ _ _ _) as [[[st c] f]|]; [|done]. cbn.
    intros [= <- <-]. apply spared_cache.
  - intros [st found]. apply keeps_if; [apply keeps_ret|]. apply keeps_lift. intros s a s'.
    destruct found as [[pid rid]|]; [|done]. cbn. destruct (pm_query_es_group _ _ _); [|done]. cbn.
    destruct (pm_query_es_router _ _ _) as [[[? ?] ?]|]; [|done]. cbn. by intros [= <- <-].
Qed.

Lemma kept_deleteRemoteExtent e : kept (deleteRemoteExtent cfg e).
Proof.
  apply keeps_bind; [apply kept_getRouter|]. intros [st [r|]]; [|apply keeps_ret].
  apply keeps_bind; [apply kept_deleteBlocks|]. eauto using kept_reclaimExtent with gm.
Qed.

Lemma kept_delete_router e : (forall i, e <> GenerateExtentID B i) -> kept (gc_delete_router cfg e).
Proof.
  intros Hne. apply keeps_lift. intros s a s'. unfold delete_router.
  destruct (RocksStore_Delete (em_db s) (er_key e)) as [ks d] eqn:Ed.
  assert (Hd : spared s -> spared (with_db s d)).
  { intros [Hp Ho Hr Hi]. split; try done. intros i. cbn. rewrite <- Hr, (delete_view _ _ _ _ Ed).
    destruct (RocksStatus_ok ks); [|done]. apply lookup_delete_ne. intros ?%(inj er_key). by apply (Hne i). }
  destruct (negb _); cbn.
  - intros [= <- <-] Hs. by apply (spared_cache (with_db s d) (em_routers s)), Hd.
  - destruct (delete_in_cache _ _ _) as [c|]; [|done]. cbn. intros [= <- <-] Hs.
    by apply (spared_cache (with_db s d) c), Hd.
Qed.

Lemma kept_deleteExtents n B' idx remote :
  no_dot B' = true -> B' <> B -> kept (deleteExtents_loop cfg n B' idx remote).
Proof.
  intros Hd Hne. revert idx. induction n as [|n IH]; intros idx; cbn [deleteExtents_loop]; [apply keeps_ret|].
  apply keeps_bind; [|intros; eauto with gm].
  apply keeps_bind.
  - destruct remote; [apply kept_deleteRemoteExtent|apply keeps_ret].
  - intros st. apply keeps_if; [apply keeps_ret|]. apply kept_delete_router.
    intros i [E _]%GenerateExtentID_inj; done.
Qed.

Lemma kept_delete_blob P' B' : (P' = P -> B' <> B) -> kept (gc_delete_blob P' B').
Proof.
  intros Hne. apply keeps_lift. intros s a s'.
  destruct (pm_delete_blob (em_db s) (em_pools s) P' B') as [[st db] m] eqn:E. intros [= <- <-] Hs.
  apply pm_delete_blob_frame in E as [Hdb Hm].
  apply (spared_db (with_pools s m) db); [done|]. destruct Hm as [->|(p & Hp & [->| ->])].
  - by destruct Hs.
  - by eapply spared_set_pool.
  - eapply spared_set_pool; [done|done|done| |].
    + intros x [y Hx]. cbn in Hx. apply lookup_delete_Some in Hx as [_ Hx]. by eexists.
    + intros HP. cbn. apply lookup_delete_ne. auto.
Qed.

(** A blob that may be collected. *)
Definition other (B' : string) : Prop := no_dot B' = true /\ B' <> B.

Lemma kept_deleteOneBlob P' B' remote : other B' -> kept (deleteOneBlob cfg P' B' remote).
Proof.
  intros [Hd Hne]. apply keeps_get. intros s0 _.
  destruct (pm_query_blob _ _ _) as [st [bl|]]; [|apply keeps_ret].
  apply keeps_bind.
  - apply keeps_lift. intros s a s'. destruct (udiv _ _); [|done]. cbn. by intros [= <- <-].
  - intros n. apply keeps_bind; [by apply kept_deleteExtents|]. intros st'.
    apply keeps_if; [apply keeps_ret|]. by apply kept_delete_blob.
Qed.

Lemma kept_deleteBlobs P' blobs remote : Forall other blobs -> kept (deleteBlobs cfg P' blobs remote).
Proof.
  unfold deleteBlobs. generalize true as success. intros success Hf. revert success.
  induction Hf as [|B' blobs HB _ IH]; intros success; cbn [deleteBlobs_loop]; [apply keeps_ret|].
  apply keeps_bind; [apply keeps_bind; [apply keeps_env|intros; apply keeps_ret]|]. intros v.
  apply keeps_if; [apply keeps_ret|]. apply keeps_bind; [by apply kept_deleteOneBlob|]. auto.
Qed.

(** What the listings contain. *)
Lemma list_blob_ids_elem m del B' :
  B' ∈ (list_blob_ids m del []).2 -> exists x, m !! B' = Some x /\ (del = true -> b_status_ x = kBlobStatusDeleted).
Proof.
  cbn. intros ([k x] & -> & [Hc Hin]%list_elem_of_filter)%list_elem_of_fmap.
  apply elem_of_map_to_list in Hin. exists x. split; [done|]. intros ->. cbn in Hc.
  rewrite orb_false_r in Hc. by b2p.
Qed.

Lemma list_blob_ids_of_user_elem m u B' :
  B' ∈ (list_blob_ids_of_user m u []).2 -> exists x, m !! B' = Some x /\ b_user_id_ x = u.
Proof.
  cbn. intros ([k x] & -> & [Hc Hin]%list_elem_of_filter)%list_elem_of_fmap.
  apply elem_of_map_to_list in Hin. exists x. split; [done|]. by apply String.eqb_eq in Hc.
Qed.

(** A listed blob is not the live one. *)
Lemma listed_other s P' p' B' x :
  spared s -> pool_map_ (em_pools s) !! P' = Some p' -> p_blob_mgr_ p' !! B' = Some x ->
  (P' = P -> x <> b) -> other B'.
Proof.
  intros [(p & Hp & _ & Hb) _ _ Hi] Hp' Hx Hne.
  destruct (Hi P' p' B' Hp' ltac:(eauto)) as [Hd Hu]. split; [done|]. intros ->.
  specialize (Hu eq_refl). subst P'. rewrite Hp in Hp'. injection Hp' as <-.
  rewrite Hb in Hx. injection Hx as <-. by apply Hne.
Qed.

Lemma pm_list_other s P' del :
  spared s -> (P' = P -> del = true) -> Forall other (pm_list_blob_ids (em_pools s) P' del []).2.
Proof.
  intros Hs Hdel. apply Forall_forall. intros B'. unfold pm_list_blob_ids.
  destruct (pool_map_ (em_pools s) !! P') as [p'|] eqn:Ep; [|by intros ?%elem_of_nil].
  intros (x & Hx & Hst)%list_blob_ids_elem. eapply listed_other; [done..|]. intros HP ->. auto.
Qed.

Lemma pm_list_user_other s P' u :
  spared s -> u <> b_user_id_ b -> Forall other (pm_list_blob_ids_of_user (em_pools s) P' u []).2.
Proof.
  intros Hs Hu. apply Forall_forall. intros B'. unfold pm_list_blob_ids_of_user.
  destruct (find_not_disabled (em_pools s) P') as [p'|] eqn:Ep; [|by intros ?%elem_of_nil].
  apply find_not_disabled_Some in Ep as [Ep _].
  intros (x & Hx & Hst)%list_blob_ids_of_user_elem. eapply listed_other; [done..|]. intros HP ->. auto.
Qed.

Lemma kept_drop_pool P' : P' <> P -> kept (gm_lift (fun s =>
  let '(_, db, pools) := pm_delete_all_es (em_db s) (em_pools s) P' in
  '(_, db, pools) ← pm_delete_all_rg db pools P';
  let '(_, db, pools) := delete_pool db pools P' in
  Some ((), with_pools (with_db s db) pools))).
Proof.
  intros Hne. apply keeps_lift. intros s a s'. unfold pm_delete_all_es.
  destruct (pool_map_ (em_pools s) !! P') as [p|] eqn:Ep.
  2: { unfold pm_delete_all_rg. rewrite Ep. done. }
  cbn [delete_all_es]. unfold pm_delete_all_rg, set_pool. cbn [pool_map_]. rewrite lookup_insert_eq.
  cbn [mbind option_bind delete_all_rg]. unfold delete_pool. cbn [pool_map_ set_pool]. rewrite lookup_insert_eq.
  set (db1 := foldl _ (em_db s) _). set (db2 := foldl _ db1 _).
  assert (Hdb : same_routers (em_db s) db2).
  { etransitivity; [apply (delete_all_other (fun x : Z * ExtentServer => ES_kv_key x.2)); intros; apply ES_key_not_er|].
    apply (delete_all_other (fun x : string * ReplicationGroup => RG_kv_key x.2)). intros. apply RG_key_not_er. }
  destruct (RocksStore_Delete db2 _) as [ks d] eqn:Ed.
  assert (Hd : same_routers (em_db s) d).
  { etransitivity; [exact Hdb|]. eapply delete_other; [|exact Ed]. intros. apply Pool_key_not_er. }
  destruct (negb _); intros [= <- <-] Hs; cbn [with_db with_pools em_pools].
  - rewrite insert_insert_eq. apply (spared_db (with_pools s _) d Hd). eapply spared_set_pool; [done|exact Ep|done|done|done].
  - rewrite !delete_insert_eq. apply (spared_db (with_pools s _) d Hd). by apply spared_no_pool.
Qed.

Lemma kept_deletePools_loop pools : P ∉ pools -> kept (deletePools_loop cfg pools).
Proof.
  induction pools as [|P' pools IH]; intros Hn; cbn [deletePools_loop]; [apply keeps_ret|].
  apply not_elem_of_cons in Hn as [Hne Hn]. apply keeps_get. intros s0 Hs0.
  pose proof (pm_list_other s0 P' false Hs0 ltac:(intros; congruence)) as Hl.
  destruct (pm_list_blob_ids _ _ _ _) as [st blobs]. apply keeps_if; [by apply IH|].
  apply keeps_bind; [by apply kept_deleteBlobs|]. intros st'. apply keeps_bind; [|intros _; by apply IH].
  apply keeps_if; [|apply keeps_ret]. by apply kept_drop_pool.
Qed.

Lemma kept_user_pools u pools success : u <> b_user_id_ b -> kept (user_pools_loop cfg u pools success).
Proof.
  intros Hu. revert success. induction pools as [|P' pools IH]; intros success; cbn [user_pools_loop]; [apply keeps_ret|].
  apply keeps_get. intros s0 Hs0. pose proof (pm_list_user_other s0 P' u Hs0 Hu) as Hl.
  destruct (pm_list_blob_ids_of_user _ _ _ _) as [st blobs]. apply keeps_if; [by apply IH|].
  apply keeps_bind; [by apply kept_deleteBlobs|]. auto.
Qed.

Lemma kept_delete_user u : u <> b_user_id_ b -> kept (gm_lift (fun s =>
  let '(_, db, users) := delete_user (em_db s) (em_users s) u in
  Some ((), with_users (with_db s db) users))).
Proof.
  intros Hu. apply keeps_lift. intros s a s'. unfold delete_user.
  destruct (em_users s !! u) as [x|] eqn:Ex.
  2: { intros [= <- <-] Hs. by destruct Hs. }
  destruct (RocksStore_Delete _ _) as [ks d] eqn:Ed.
  assert (Hd : same_routers (em_db s) d) by (eapply delete_other; [|exact Ed]; intros; apply User_key_not_er).
  destruct (negb _); intros [= <- <-] Hs; apply (spared_db _ d Hd) in Hs; destruct Hs as [Hp (v & Hv & Hl) Hr Hi];
    (split; [done| |done|done]); exists v; [done|]. cbn in *. by rewrite lookup_delete_ne.
Qed.

Lemma kept_deleteUserBlobs_loop users success :
  b_user_id_ b ∉ users -> kept (deleteUserBlobs_loop cfg users success).
Proof.
  revert success. induction users as [|u users IH]; intros success Hn; cbn [deleteUserBlobs_loop]; [apply keeps_ret|].
  apply not_elem_of_cons in Hn as [Hne Hn]. apply keeps_get. intros s0 _.
  destruct (UserManager_list_pools _ _ _) as [st pools].
  apply keeps_bind; [by apply kept_user_pools|]. intros ok'. apply keeps_bind; [|intros _; by apply IH].
  apply keeps_if; [apply keeps_ret|]. by apply kept_delete_user.
Qed.

Lemma kept_deleteDeletedBlobs_loop pools : kept (deleteDeletedBlobs_loop cfg pools).
Proof.
  induction pools as [|P' pools IH]; cbn [deleteDeletedBlobs_loop]; [apply keeps_ret|].
  apply keeps_get. intros s0 Hs0. pose proof (pm_list_other s0 P' true Hs0 ltac:(done)) as Hl.
  destruct (pm_list_blob_ids _ _ _ _) as [st blobs]. apply keeps_bind; [|by intros _].
  apply keeps_if; [apply keeps_ret|]. apply keeps_bind; [by apply kept_deleteBlobs|]. intros; apply keeps_ret.
Qed.

Lemma kept_gc gcing : kept (gc cfg gcing).
Proof.
  apply keeps_if; [apply keeps_ret|].
  apply keeps_bind; [apply keeps_bind; [apply keeps_env|intros; apply keeps_ret]|]. intros v.
  apply keeps_if; [apply keeps_ret|].
  apply keeps_bind.
  { apply keeps_get. intros s0 [(p & Hp & Hs & _) _ _ _]. apply kept_deletePools_loop. cbn.
    intros ([k q] & -> & [Hq Hin]%list_elem_of_filter)%list_elem_of_fmap. cbn in *.
    apply pool_entries_elem in Hin. rewrite Hin in Hp. injection Hp as ->. by b2p. }
  intros _. apply keeps_bind.
  { apply keeps_get. intros s0 [_ (u & Hu & Hl) _ _]. apply kept_deleteUserBlobs_loop. cbn.
    intros ([k q] & Hk & [Hq Hin]%list_elem_of_filter)%list_elem_of_fmap. cbn in *. subst k.
    apply elem_of_map_to_list in Hin. rewrite Hin in Hu. injection Hu as ->. by b2p. }
  intros _. apply keeps_get. intros s0 _. apply kept_deleteDeletedBlobs_loop.
Qed.
End Spare.

Section GcTheorems.
Context `{RocksDBLaws DB} `{Crc32c} `{GcEnv W} (cfg : EmCfg).
Implicit Types (s : EmState DB) (w : W).

(** C8: a run of the collector never touches a live blob.  Whatever the clock,
    the connections and the extent servers answer and whichever store writes
    fail, a blob that is not deleted, in a pool that is not disabled, of a user
    who is not deleted, is still there afterwards with the same record, and so
    are the routers of all its extents. *)
Theorem gc_spares_live_blobs s w gcing P p B b u s' w' :
  pool_map_ (em_pools s) !! P = Some p -> pool_status p <> kPoolStatusDisabled ->
  p_blob_mgr_ p !! B = Some b -> b_status_ b <> kBlobStatusDeleted ->
  em_users s !! b_user_id_ b = Some u -> u_status_ u <> kUserStatusDeleted ->
  (forall P' p' B', pool_map_ (em_pools s) !! P' = Some p' -> is_Some (p_blob_mgr_ p' !! B') ->
     no_dot B' = true /\ (B' = B -> P' = P)) ->
  gc cfg gcing (s, w) = Some ((), (s', w')) ->
  (exists p', pool_map_ (em_pools s') !! P = Some p' /\ p_blob_mgr_ p' !! B = Some b) /\
  forall i, rdb_view (em_db s') !! er_key (GenerateExtentID B i) =
            rdb_view (em_db s) !! er_key (GenerateExtentID B i).
Proof.
  intros Hp Hps Hb Hbl Hu Hul Hids E. destruct (Hids P p B Hp ltac:(eauto)) as [Hd _].
  destruct (kept_gc cfg P B b (fun i => rdb_view (em_db s) !! er_key (GenerateExtentID B i)) Hd Hbl gcing s w () s' w' E)
    as [(p' & Hp' & _ & Hb') _ Hr _]; [split; eauto|eauto].
Qed.

(** ** A blob with a missing router *)

(** collecting a deleted blob is not restartable.  Once the router of its
    first extent is gone from the store, as it is after a run that failed at a
    later extent, deleting the blob with its remote extents fails and changes
    nothing, whatever the environment answers: no later run collects it. *)
Theorem gc_interrupted_blob_stuck s w P B st blob :
  0 <= cfg_router_inst_shift cfg ->
  cache_ok (cfg_router_inst_shift cfg) (rdb_view (em_db s)) (em_routers s) ->
  0 < cfg_extent_size cfg -> pm_query_blob (em_pools s) B true = (st, Some blob) ->
  cfg_extent_size cfg <= pb_blob_size blob ->
  rdb_view (em_db s) !! er_key (GenerateExtentID B 1) = None ->
  exists st', ok st' = false /\ deleteOneBlob cfg P B true (s, w) = Some (st', (s, w)).
Proof.
  intros Hsh Hc Hes Hq Hsz Hr.
  assert (Hn : exists n, Z.to_nat (pb_blob_size blob / cfg_extent_size cfg) = S n).
  { pose proof (Z.div_le_lower_bound (pb_blob_size blob) (cfg_extent_size cfg) 1 ltac:(lia) ltac:(lia)).
    exists (pred (Z.to_nat (pb_blob_size blob / cfg_extent_size cfg))). lia. }
  destruct Hn as [n Hn]. set (e := GenerateExtentID B 1) in *.
  destruct (cache_shard _ _ _ e Hsh Hc) as [m Hm].
  assert (Hmiss : m !! e = None).
  { destruct (m !! e) as [er|] eqn:Ee; [|done]. destruct (cache_coherent _ _ _ Hc _ _ _ _ Hm Ee) as [_ Hst].
    unfold stored_router in Hst. by rewrite Hr in Hst. }
  assert (Hl : exists st1, ok st1 = false /\ load_router (em_db s) e = Some (st1, None)).
  { unfold load_router. destruct (RocksStore_Get (em_db s) (er_key e)) as [ks v] eqn:Eg.
    pose proof (rdb_get_law _ _ _ _ Eg) as Hg. destruct ks; cbn; [congruence|eexists; split; [|reflexivity]; done..]. }
  destruct Hl as (st1 & Hok & Hl). exists st1. split; [done|].
  unfold deleteOneBlob. unfold mbind at 1, GM_bind at 1, gm_get. cbn [fst].
  rewrite Hq. unfold mbind at 1, GM_bind at 1, gm_lift at 1. cbn [fst snd].
  unfold udiv. rewrite (proj2 (Z.eqb_neq _ _)) by lia. cbn [mbind option_bind]. rewrite Hn.
  cbn [deleteExtents_loop]. unfold deleteOneExtent, deleteRemoteExtent, getRouter.
  unfold mbind, GM_bind, gm_lift. cbn [fst snd]. unfold query_router, look_in_cache.
  fold e. rewrite Hm. cbn [mbind option_bind]. rewrite Hmiss. change (ok router_miss) with false.
  rewrite Hl. cbn. rewrite Hok. cbn. rewrite Hok. cbn.
  rewrite Hok. cbn. rewrite Hok. cbn. by destruct s.
Qed.
End GcTheorems.

(** ** A deleted blob is collected *)

(** Worlds in which every call to an extent server succeeds; [reclaimed w t e]
    is that server [t] has given extent [e] back. *)
Class GcEnvUp (W : Type) `{GcEnv W} (reclaimed : W -> ESInstance -> string -> Prop) : Prop := {
  up_connect : forall w t, (env_connect w t).1 = true;
  up_delete : forall w t e o n, (env_delete w t e o n).1 = RpcCode 0;
  up_reclaim : forall w t e, (env_reclaim w t e).1 = RpcCode 0 /\ reclaimed (env_reclaim w t e).2 t e;
  up_connect_keeps : forall w t t' e', reclaimed w t' e' -> reclaimed (env_connect w t).2 t' e';
  up_delete_keeps : forall w t e o n t' e', reclaimed w t' e' -> reclaimed (env_delete w t e o n).2 t' e';
  up_reclaim_keeps : forall w t e t' e', reclaimed w t' e' -> reclaimed (env_reclaim w t e).2 t' e'
}.

(** Stores that do not fail. *)
Class Reliable (DB : Type) `{RocksDB DB} (reliable : DB -> Prop) : Prop := {
  rel_delete : forall d k st d', reliable d -> rdb_Delete d k = (st, d') -> st = RdbOk /\ reliable d';
  rel_get : forall d k t, reliable d -> (rdb_Get d k).1 <> RdbError t
}.

Section Collect.
Context `{RocksDBLaws DB} `{Crc32c} `{GcEnvUp W reclaimed} `{!Reliable DB reliable} (cfg : EmCfg).
Implicit Types (s : EmState DB) (w : W).

(** What stays reclaimed. *)
Definition later w w' : Prop := forall t e, reclaimed w t e -> reclaimed w' t e.

#[export] Instance later_preorder : PreOrder later.
Proof. split; [by intros ? ?|]. intros x y z Hxy Hyz t e Ht. auto. Qed.

Lemma getConns_up s w targets : exists w', getConns targets (s, w) = Some (true, (s, w')) /\ later w w'.
Proof.
  revert w. induction targets as [|t targets IH]; intros w; cbn [getConns]; [by exists w|].
  unfold mbind, GM_bind, gm_env. cbn [fst snd]. pose proof (up_connect w t) as Hc.
  pose proof (up_connect_keeps w t) as Hk. destruct (env_connect w t) as [c w1]. cbn in Hc. subst c. cbn.
  destruct (IH w1) as (w2 & -> & Hl). exists w2. split; [done|]. intros t' e' Ht. apply Hl. by apply Hk.
Qed.

(** The calls of [send_all], one by one. *)
Lemma send_all_up s w call targets (Q : W -> ESInstance -> Prop) :
  (forall w t, (call w t).1 = RpcCode 0 /\ Q (call w t).2 t /\ later w (call w t).2 /\
     forall t', Q w t' -> Q (call w t).2 t') ->
  exists w' rs, send_all call targets (s, w) = Some (rs, (s, w')) /\ join_all rs = Status_default /\
    later w w' /\ (forall t, t ∈ targets -> Q w' t) /\ (forall t, Q w t -> Q w' t).
Proof.
  intros Hcall. revert w. induction targets as [|t targets IH]; intros w; cbn [send_all].
  { exists w, []. split_and!; try done. by intros ? ?%elem_of_nil. }
  unfold mbind, GM_bind, gm_env. cbn [fst snd]. destruct (Hcall w t) as (Hc & Hq & Hl & Hk).
  destruct (call w t) as [c w1]. cbn in Hc, Hq, Hl, Hk. subst c.
  destruct (IH w1) as (w2 & rs & -> & Hj & Hl2 & Hin & Hk2). exists w2, (RpcCode 0 :: rs).
  split_and!; [done|done|by etransitivity| |auto].
  intros t' [->|Ht']%elem_of_cons; auto.
Qed.

Lemma deleteBlocks_up s w n e o r :
  exists w', deleteBlocks_loop n e o r (s, w) = Some (Status_default, (s, w')) /\ later w w'.
Proof.
  revert w o. induction n as [|n IH]; intros w o; cbn [deleteBlocks_loop]; [by exists w|].
  unfold deleteOneBlock. unfold mbind, GM_bind.
  destruct (getConns_up s w (replicas r)) as (w1 & -> & Hl1). cbn [negb].
  destruct (send_all_up s w1 (fun w t => env_delete w t e o block_size_) (replicas r) (fun _ _ => True))
    as (w2 & rs & -> & Hj & Hl2 & _).
  { intros w' t. split_and!; [apply up_delete|done| |done]. intros t' e'. apply up_delete_keeps. }
  cbn. rewrite Hj. cbn. destruct (IH w2 (o + block_size_)) as (w3 & -> & Hl3).
  exists w3. split; [done|]. by do 2 (etransitivity; [eassumption|]).
Qed.

Lemma reclaimExtent_up s w e r :
  exists w', reclaimExtent e r (s, w) = Some (Status_default, (s, w')) /\ later w w' /\
    forall t, t ∈ replicas r -> reclaimed w' t e.
Proof.
  unfold reclaimExtent, mbind, GM_bind.
  destruct (getConns_up s w (replicas r)) as (w1 & -> & Hl1). cbn [negb].
  destruct (send_all_up s w1 (fun w t => env_reclaim w t e) (replicas r) (fun w t => reclaimed w t e))
    as (w2 & rs & -> & Hj & Hl2 & Hq & _).
  { intros w' t. destruct (up_reclaim w' t e). split_and!; [done..| |].
    - intros t' e'. apply up_reclaim_keeps.
    - intros t'. apply up_reclaim_keeps. }
  cbn. rewrite Hj. exists w2. split_and!; [done|by etransitivity|done].
Qed.

(** The router of an extent names a group of pool [P]. *)
Definition routed s (P : string) (p : Pool) (e : string) : Prop :=
  exists er servers, stored_router (rdb_view (em_db s)) e = Some er /\ er_pool_id_ er = P /\
    group_servers p !! er_rg_id_ er = Some servers /\ servers <> [].

(** All servers of the extent's group have given it back. *)
Definition given_back (view : gmap string string) (p : Pool) (e : string) w : Prop :=
  exists er servers, stored_router view e = Some er /\
    group_servers p !! er_rg_id_ er = Some servers /\
    forall id x, id ∈ servers -> p_es_mgr_ p !! id = Some x -> reclaimed w (ToPbEsInstance x) e.

Definition gc_ready s : Prop :=
  reliable (em_db s) /\ cache_ok (cfg_router_inst_shift cfg) (rdb_view (em_db s)) (em_routers s).

Context (shift_pos : 0 <= cfg_router_inst_shift cfg).

Lemma getRouter_up s w P p e :
  gc_ready s -> pool_map_ (em_pools s) !! P = Some p -> routable p -> routed s P p e ->
  exists c er servers ess, stored_router (rdb_view (em_db s)) e = Some er /\
    group_servers p !! er_rg_id_ er = Some servers /\
    Forall2 (fun id x => p_es_mgr_ p !! id = Some x) servers ess /\
    gc_ready (with_routers s c) /\
    getRouter cfg e (s, w) = Some ((Status_default,
      Some (mkGcRouter (default default_es (ToPbEsInstance <$> head ess)) (ToPbEsInstance <$> tail ess))),
      (with_routers s c, w)) /\ ess <> [].
Proof.
  intros [Hrel Hc] Hp Hrt (er & servers & Her & HP & Hg & Hne).
  destruct (query_router_found _ _ _ _ _ shift_pos Hc Her ltac:(intros; by apply rel_get)) as [c Hq].
  destruct (Forall_exists_Forall2 _ _ (routable_servers _ Hrt _ _ Hg)) as [ess Hess].
  exists c, er, servers, ess. split_and!; [done|done|done| | |].
  - split; [done|]. exact (router_step_ok _ _ _ (rs_query _ _ _ _ _ _ _ Hq) Hc).
  - unfold getRouter, mbind, GM_bind, gm_lift. cbn [fst snd]. rewrite Hq.
    cbn [mbind option_bind]. unfold mbind, option_bind. change (negb (ok Status_default)) with false. cbn [fst snd with_routers em_pools].
    unfold pm_query_es_group. rewrite HP, Hp. cbn [mbind option_bind]. unfold query_es_group.
    unfold group_servers in Hg. rewrite lookup_fmap in Hg. rewrite Hg. cbn [mbind option_bind].
    unfold pm_query_es_router.
    rewrite (proj2 (find_status_Some kPoolStatusEnabled (em_pools s) P p)) by (split; [done|apply Hrt]).
    by rewrite (query_es_router_spec _ _ _ Hess).
  - intros ->. by inversion Hess; subst.
Qed.

Lemma deleteRemoteExtent_up s w P p e :
  gc_ready s -> pool_map_ (em_pools s) !! P = Some p -> routable p -> routed s P p e ->
  exists c w', deleteRemoteExtent cfg e (s, w) = Some (Status_default, (with_routers s c, w')) /\
    gc_ready (with_routers s c) /\ later w w' /\ given_back (rdb_view (em_db s)) p e w'.
Proof.
  intros Hs Hp Hrt Hro.
  destruct (getRouter_up s w P p e Hs Hp Hrt Hro) as (c & er & servers & ess & Her & Hg & Hess & Hr & Hget & Hne).
  unfold deleteRemoteExtent, mbind, GM_bind. rewrite Hget. set (r := mkGcRouter _ _).
  destruct (deleteBlocks_up (with_routers s c) w (num_blocks (cfg_extent_size cfg)) e 0 r) as (w1 & -> & Hl1).
  cbn [negb ok]. change (negb (ok Status_default)) with false.
  destruct (reclaimExtent_up (with_routers s c) w1 e r) as (w2 & -> & Hl2 & Hall).
  exists c, w2. split_and!; [done|done|by etransitivity|].
  exists er, servers. split_and!; [done..|]. intros id x Hid Hx. apply Hall.
  destruct ess as [|x0 ess]; [done|]. unfold r, replicas. cbn.
  apply list_elem_of_lookup in Hid as [i Hi]. destruct (Forall2_lookup_l _ _ _ _ _ Hess Hi) as (y & Hy & Hy').
  rewrite Hx in Hy'. injection Hy' as <-. destruct i; cbn in Hy.
  - injection Hy as ->. left.
  - right. apply list_elem_of_fmap. exists x. split; [done|]. by eapply list_elem_of_lookup_2.
Qed.

(** Deleting a router: gone from the store, nothing else changed. *)
Lemma gc_delete_router_up s w e :
  gc_ready s -> exists s', gc_delete_router cfg e (s, w) = Some (Status_default, (s', w)) /\
    gc_ready s' /\ em_pools s' = em_pools s /\ rdb_view (em_db s') = delete (er_key e) (rdb_view (em_db s)).
Proof.
  intros [Hrel Hc]. destruct (RocksStore_Delete (em_db s) (er_key e)) as [ks d] eqn:Ed.
  destruct (rel_delete _ _ _ _ Hrel Ed) as [-> Hrel'].
  destruct (cache_shard _ _ _ e shift_pos Hc) as [m Hm].
  assert (Hdel : exists c, delete_router (cfg_router_inst_shift cfg) (em_db s) (em_routers s) e =
    Some (Status_default, d, c)).
  { unfold delete_router. rewrite Ed. cbn [RocksStatus_ok negb]. unfold delete_in_cache. rewrite Hm.
    cbn [mbind option_bind]. destruct (m !! e); cbn; by eexists. }
  destruct Hdel as [c Hdel]. exists (with_routers (with_db s d) c). split_and!.
  - unfold gc_delete_router, gm_lift. cbn [fst snd]. by rewrite Hdel.
  - split; [done|]. exact (router_step_ok _ _ _ (rs_delete _ _ _ _ _ _ _ Hdel) Hc).
  - done.
  - exact (delete_view _ _ _ _ Ed).
Qed.

Lemma given_back_later view p e w w' : later w w' -> given_back view p e w -> given_back view p e w'.
Proof. intros Hl (er & servers & ? & ? & Hall). exists er, servers. split_and!; [done..|]. intros. apply Hl. eauto. Qed.

Lemma given_back_view view view' p e w :
  view' !! er_key e = view !! er_key e -> given_back view' p e w -> given_back view p e w.
Proof. intros Hv (er & servers & Hs & Hr). exists er, servers. unfold stored_router in *. by rewrite <- Hv. Qed.

Lemma deleteExtents_up n B P p : no_dot B = true -> routable p -> forall s w idx,
  gc_ready s -> pool_map_ (em_pools s) !! P = Some p ->
  (forall i, idx <= i < idx + Z.of_nat n -> routed s P p (GenerateExtentID B i)) ->
  exists s' w', deleteExtents_loop cfg n B idx true (s, w) = Some (Status_default, (s', w')) /\
    gc_ready s' /\ em_pools s' = em_pools s /\ later w w' /\
    (forall i, idx <= i < idx + Z.of_nat n ->
       rdb_view (em_db s') !! er_key (GenerateExtentID B i) = None /\
       given_back (rdb_view (em_db s)) p (GenerateExtentID B i) w') /\
    (forall i, ~ idx <= i < idx + Z.of_nat n ->
       rdb_view (em_db s') !! er_key (GenerateExtentID B i) = rdb_view (em_db s) !! er_key (GenerateExtentID B i)).
Proof.
  intros Hd Hrt. induction n as [|n IH]; intros s w idx Hs Hp Hro; cbn [deleteExtents_loop].
  { exists s, w. split_and!; try done. lia. }
  unfold deleteOneExtent, mbind, GM_bind.
  destruct (deleteRemoteExtent_up s w P p _ Hs Hp Hrt (Hro idx ltac:(lia))) as (c & w1 & -> & Hs1 & Hl1 & Hg1).
  change (negb (ok Status_default)) with false.
  destruct (gc_delete_router_up (with_routers s c) w1 (GenerateExtentID B idx) Hs1) as (s2 & -> & Hs2 & Hp2 & Hv2).
  cbn [with_routers em_db em_pools] in Hp2, Hv2. change (negb (ok Status_default)) with false. cbn iota.
  assert (Hother : forall i, i <> idx ->
    rdb_view (em_db s2) !! er_key (GenerateExtentID B i) = rdb_view (em_db s) !! er_key (GenerateExtentID B i)).
  { intros i Hi. rewrite Hv2. apply lookup_delete_ne. intros [_ ?]%(inj er_key)%GenerateExtentID_inj; [|done..].
    by apply Hi. }
  destruct (IH s2 w1 (idx + 1) Hs2) as (s3 & w3 & E & Hs3 & Hp3 & Hl3 & Hall & Hout); [by rewrite Hp2| |].
  { intros i Hi. destruct (Hro i ltac:(lia)) as (er & servers & Her & Hrest). exists er, servers.
    split; [|done]. unfold stored_router in *. by rewrite Hother by lia. }
  exists s3, w3. split_and!; [exact E|done|congruence|by etransitivity| |].
  2: { intros i Hi. rewrite Hout by lia. apply Hother. lia. }
  intros i Hi. destruct (decide (i = idx)) as [->|Hne].
  - split; [|by eapply given_back_later]. rewrite Hout by lia. by rewrite Hv2, lookup_delete_eq.
  - destruct (Hall i ltac:(lia)) as [Hn Hg]. split; [done|]. eapply given_back_view; [|exact Hg]. by apply Hother.
Qed.

End Collect.

(** ** Examples *)

#[local] Existing Instance example_crc.

(** A world that answers without errors at noon and logs what is reclaimed. *)
Record UpWorld : Type := mkUpWorld { up_log : list (ESInstance * string) }.

#[export] Instance UpWorld_env : GcEnv UpWorld := {|
  env_hour w := (12, w);
  env_connect w _ := (true, w);
  env_delete w _ _ _ _ := (RpcCode 0, w);
  env_reclaim w t e := (RpcCode 0, mkUpWorld ((t, e) :: up_log w))
|}.

Definition up_reclaimed (w : UpWorld) (t : ESInstance) (e : string) : Prop := (t, e) ∈ up_log w.

#[export] Instance UpWorld_up : GcEnvUp UpWorld up_reclaimed.
Proof. split; try done. - intros w t e. split; [done|left]. - intros w t e t' e' Hr. by right. Qed.

(** One in which an extent cannot be reclaimed. *)
Record DownWorld : Type := mkDownWorld { down_extent : string }.

#[export] Instance DownWorld_env : GcEnv DownWorld := {|
  env_hour w := (12, w);
  env_connect w _ := (true, w);
  env_delete w _ _ _ _ := (RpcCode 0, w);
  env_reclaim w _ e := (if String.eqb e (down_extent w) then RpcFailed else RpcCode 0, w)
|}.

#[export] Instance MemDB_reliable : Reliable MemDB (fun d => mem_faults d = []).
Proof.
  split.
  - intros d k st d' Hf. cbn. unfold mem_write. rewrite Hf. by intros [= <- <-].
  - intros d k t _. cbn. by destruct (mem_entries d !! k).
Qed.

#[export] Instance EMRouter_eq_dec : EqDecision EMRouter.
Proof. solve_decision. Defined.

(** [cache_ok] of four shards, in a form that computes. *)
Definition cache_check (view : gmap string string) (cache : RouterCache) : Prop :=
  Forall (fun r => is_Some (cache !! r)) [0; 1; 2; 3] /\
  map_Forall (fun r m => map_Forall (fun e er => r = shard 2 e /\ stored_router view e = Some er) m) cache.

#[export] Instance cache_check_dec view cache : Decision (cache_check view cache).
Proof. unfold cache_check. apply _. Defined.

Lemma cache_check_ok view cache : cache_check view cache -> cache_ok 2 view cache.
Proof.
  intros [Hs Hc]. split.
  - intros r Hr. rewrite Forall_forall in Hs. apply Hs.
    assert (r = 0 \/ r = 1 \/ r = 2 \/ r = 3) as Hr' by (change (Z.shiftl 1 2) with 4 in Hr; lia).
    rewrite !elem_of_cons. naive_solver.
  - intros r m e er Hm He. pose proof (map_Forall_lookup_1 _ _ _ _ Hc Hm) as Hm'.
    exact (map_Forall_lookup_1 _ _ _ _ Hm' He).
Qed.

Lemma demo_created_cache : cache_ok 2 (rdb_view (em_db demo_created)) (em_routers demo_created).
Proof. apply cache_check_ok. refine (bool_decide_eq_true_1 _ _). by vm_compute. Qed.

(** The blob of the state after [CreateBlob] and its pool. *)
Definition demo_gc_pool : Pool :=
  default (mkPool (mkPoolMeta "" "" 0 0 0 0 0 0 0 0 "" "") RgManager_new ∅ ∅)
    (pool_map_ (em_pools demo_created) !! "pool-a").

Definition demo_gc_blob : Blob :=
  default (Blob_new "" "" "" 0 0 "" "" "" "") (p_blob_mgr_ demo_gc_pool !! "bb-x").

Lemma demo_gc_pool_eq : pool_map_ (em_pools demo_created) !! "pool-a" = Some demo_gc_pool.
Proof. unfold demo_gc_pool. by destruct (pool_map_ (em_pools demo_created) !! "pool-a") eqn:E; vm_compute in E. Qed.

Lemma demo_gc_blob_eq : p_blob_mgr_ demo_gc_pool !! "bb-x" = Some demo_gc_blob.
Proof. by vm_compute. Qed.

Lemma demo_gc_ids P p B :
  pool_map_ (em_pools demo_created) !! P = Some p -> is_Some (p_blob_mgr_ p !! B) ->
  no_dot B = true /\ P = "pool-a" /\ B = "bb-x".
Proof.
  assert (Hall : map_Forall (fun P p => map_Forall (fun B _ => no_dot B = true /\ P = "pool-a" /\ B = "bb-x")
    (p_blob_mgr_ p)) (pool_map_ (em_pools demo_created))) by (refine (bool_decide_eq_true_1 _ _); by vm_compute).
  intros Hp [x Hx]. pose proof (map_Forall_lookup_1 _ _ _ _ Hall Hp) as Hm.
  exact (map_Forall_lookup_1 _ _ _ _ Hm Hx).
Qed.

Definition demo_gc_run : option (() * (EmState MemDB * UpWorld)) :=
  gc demo_cfg false (demo_created, mkUpWorld []).

Lemma gc_spares_live_blobs_witness :
  exists s' w', demo_gc_run = Some ((), (s', w')) /\
    exists p', pool_map_ (em_pools s') !! "pool-a" = Some p' /\ p_blob_mgr_ p' !! "bb-x" = Some demo_gc_blob.
Proof.
  destruct demo_gc_run as [[[] [s' w']]|] eqn:E; [|by vm_compute in E]. exists s', w'. split; [done|].
  destruct (em_users demo_created !! b_user_id_ demo_gc_blob) as [u|] eqn:Eu; [|by vm_compute in Eu].
  refine (proj1 (gc_spares_live_blobs demo_cfg demo_created (mkUpWorld []) false "pool-a" demo_gc_pool "bb-x"
    demo_gc_blob u s' w' demo_gc_pool_eq _ demo_gc_blob_eq _ Eu _ _ E)).
  - by vm_compute.
  - by vm_compute.
  - assert (Hl : u_status_ <$> em_users demo_created !! b_user_id_ demo_gc_blob = Some kUserStatusCreated)
      by (by vm_compute). rewrite Eu in Hl. injection Hl as ->. done.
  - intros P p B Hp HB. destruct (demo_gc_ids P p B Hp HB) as (Hd & HP & _). auto.
Defined.

(** The collector fails at extent 2, then runs in a world without faults. *)
Definition demo_interrupted : EmState MemDB :=
  match deleteOneBlob demo_cfg "pool-a" "bb-x" true (demo_created, mkDownWorld "bb-x.2") with
  | Some (_, (s, _)) => s
  | None => demo_created
  end.

Lemma gc_interrupted_blob_stuck_witness :
  (exists st, deleteOneBlob demo_cfg "pool-a" "bb-x" true (demo_created, mkDownWorld "bb-x.2") =
     Some (st, (demo_interrupted, mkDownWorld "bb-x.2"))) /\
  exists st', ok st' = false /\ deleteOneBlob demo_cfg "pool-a" "bb-x" true (demo_interrupted, mkUpWorld []) =
    Some (st', (demo_interrupted, mkUpWorld [])).
Proof.
  split.
  - exists (mkStatus CYPRE_EM_BRPC_SEND_FAIL ""). vm_compute. reflexivity.
  - destruct (pm_query_blob (em_pools demo_interrupted) "bb-x" true) as [st [blob|]] eqn:Eq;
      [|by vm_compute in Eq].
    apply (gc_interrupted_blob_stuck demo_cfg demo_interrupted (mkUpWorld []) "pool-a" "bb-x" st blob).
    + cbn. lia.
    + apply cache_check_ok. refine (bool_decide_eq_true_1 _ _). by vm_compute.
    + cbn. lia.
    + exact Eq.
    + assert (Hs : pb_blob_size <$> (pm_query_blob (em_pools demo_interrupted) "bb-x" true).2 = Some 2048)
        by (by vm_compute). rewrite Eq in Hs. injection Hs as ->. cbn. lia.
    + by vm_compute.
Defined.

