(* ===== verification/SetManager.v ===== *)
(** * The set manager

    The registry of sets ([SetManager], src/src/setmanager/setmanager.h and
    .cpp) and its two RPC services (set_service.cpp, heartbeat_service.cpp).  A
    set is one extent manager with its pools; it is registered and refreshed by
    heartbeats, and offered to clients while its last heartbeat is recent.

    [set_map_] is an unordered map: the order in which a call visits it is an
    argument, any permutation of the entries.  The clock is an argument too and
    stands still during one call. *)

From Stdlib Require Import SpecFloat.
From S2P Require Import Prelude Status Enums Net Pool PoolTheorems Services.

#[local] Open Scope string_scope.
#[local] Open Scope Z_scope.

(** The fields of the message [Set] that the manager reads. *)
Record PbSet : Type := mkPbSet {
  pb_set_id : Z;
  pb_set_name : string;
  pb_set_em_ip : string;
  pb_set_em_port : Z;
  pb_set_pools : list PbPool
}.

Record SetRoute : Type := mkSetRoute {
  route_set_id : Z;
  route_set_name : string;
  route_ip : string;
  route_port : Z
}.

Definition ToPbSetRoute (s : PbSet) : SetRoute :=
  mkSetRoute (pb_set_id s) (pb_set_name s) (pb_set_em_ip s) (pb_set_em_port s).

(** [Set]: the last message and when it came. *)
Record SetInfo : Type := mkSetInfo { created_time : Z; pb_set : PbSet }.

Record SmCfg : Type := mkSmCfg { obsolete_interval_sec : Z; cfg_num_sets : Z }.

Abbreviation SetMap := (gmap Z SetInfo).

Definition obsoleted (cfg : SmCfg) (now : Z) (s : SetInfo) : bool :=
  created_time s + obsolete_interval_sec cfg <? now.

(** [Set::empty] of what [AllocateSet] returned; no set is [Set()]. *)
Definition set_empty (s : option SetInfo) : bool :=
  match s with Some s => match pb_set_pools (pb_set s) with [] => true | _ => false end | None => true end.

Definition AddSet (now : Z) (set_map_ : SetMap) (s : PbSet) : SetMap :=
  <[pb_set_id s := mkSetInfo now s]> set_map_.

(** ** Allocation *)

Definition f64_eqb : spec_float -> spec_float -> bool := SFeqb.

Definition capacity_utils (p : PbPool) : spec_float :=
  f64_div (f64_of_u64 (pb_pool_size p)) (f64_of_u64 (pb_pool_capacity p)).

(** The pools that [AllocateSet] does not skip. *)
Definition pool_offered (type : Z) (p : PbPool) : bool :=
  negb (negb (pb_pool_type p =? type) || (pb_pool_capacity p =? 0)
        || negb (pb_pool_status p =? POOL_STATUS_ENABLED)).

(** The locals of [AllocateSet]: [set_id], [minimun_capacity_utils] and
    [num_extents]. *)
Record Best : Type := mkBest { best_id : Z; best_utils : spec_float; best_extents : Z }.

Fixpoint pools_loop (type set_id : Z) (pools : list PbPool) (b : Best) : Best :=
  match pools with
  | [] => b
  | p :: pools' =>
      if pool_offered type p then
        let utils := capacity_utils p in
        if f64_ltb utils (best_utils b)
        then pools_loop type set_id pools' (mkBest set_id utils (pb_pool_num_extents p))
        else if f64_eqb utils (best_utils b) && (pb_pool_num_extents p <? best_extents b)
        then pools_loop type set_id pools' (mkBest set_id (best_utils b) (pb_pool_num_extents p))
        else pools_loop type set_id pools' b
      else pools_loop type set_id pools' b
  end.

(** The loop ends at the first set that is obsolete. *)
Fixpoint sets_loop (cfg : SmCfg) (now type : Z) (entries : list (Z * SetInfo)) (b : Best) : Best :=
  match entries with
  | [] => b
  | (id, s) :: entries' =>
      if obsoleted cfg now s then b
      else sets_loop cfg now type entries' (pools_loop type id (pb_set_pools (pb_set s)) b)
  end.

Definition best_init : Best := mkBest (-1) (f64_of_u64 1) 0.

Definition AllocateSet (cfg : SmCfg) (now : Z) (set_map_ : SetMap) (entries : list (Z * SetInfo)) (type : Z)
  : option SetInfo :=
  let b := sets_loop cfg now type entries best_init in
  if best_id b =? -1 then None else set_map_ !! best_id b.

Fixpoint ListSets (cfg : SmCfg) (now : Z) (entries : list (Z * SetInfo)) : list SetInfo :=
  match entries with
  | [] => []
  | (_, s) :: entries' => if obsoleted cfg now s then [] else s :: ListSets cfg now entries'
  end.

Definition num_sets (m : SetMap) : Z := Z.of_nat (size m).
Definition Available (cfg : SmCfg) (m : SetMap) : bool := cfg_num_sets cfg =? num_sets m.

(** ** Services *)

Definition not_ready {A} : Response A := reply_error CYPRE_SM_NOT_READY "Setmanager not ready, please retry".

Definition Set_List (cfg : SmCfg) (now : Z) (m : SetMap) (entries : list (Z * SetInfo)) : Response (list SetRoute) :=
  if negb (Available cfg m) then not_ready
  else mkResponse CYPRE_OK None (Some ((fun s => ToPbSetRoute (pb_set s)) <$> ListSets cfg now entries)).

(** [pool_type] is optional. *)
Definition Set_Allocate (cfg : SmCfg) (now : Z) (m : SetMap) (entries : list (Z * SetInfo)) (req_type : option Z)
  : Response SetRoute :=
  if negb (Available cfg m) then not_ready
  else
    let pool_type := default POOL_TYPE_HDD req_type in
    if pool_type =? POOL_TYPE_UNKNOWN then reply_error CYPRE_ER_INVALID_ARGUMENT "Unknown pool type"
    else
      let s := AllocateSet cfg now m entries pool_type in
      if set_empty s then reply_error CYPRE_SM_RESOURCE_EXHAUSTED "Couldn't allocate set"
      else mkResponse CYPRE_OK None ((fun s => ToPbSetRoute (pb_set s)) <$> s).

(** What became of the query sent to one set: its channel could not be set up,
    the call failed, or the extent manager answered with a code. *)
Inductive QueryOutcome : Type := ChannelFailed | CallFailed | Answered (code : Z).

(** The index of the first set whose answer has code 0, or -1.  [None]: the join
    on a call that was never issued does not return. *)
Fixpoint BroadcastRequest (outcome : PbSet -> QueryOutcome) (sets : list SetInfo) (i : Z) : option Z :=
  match sets with
  | [] => Some (-1)
  | s :: sets' =>
      match outcome (pb_set s) with
      | ChannelFailed => None
      | CallFailed => BroadcastRequest outcome sets' (i + 1)
      | Answered code => if code =? 0 then Some i else BroadcastRequest outcome sets' (i + 1)
      end
  end.

Definition Set_Query (cfg : SmCfg) (now : Z) (entries : list (Z * SetInfo)) (outcome : PbSet -> QueryOutcome)
  : option (Response SetRoute) :=
  let sets := ListSets cfg now entries in
  index ← BroadcastRequest outcome sets 0;
  if index <? 0 then Some (reply_error CYPRE_SM_USER_NOT_FOUND "user id not found")
  else s ← sets !! Z.to_nat index; Some (mkResponse CYPRE_OK None (Some (ToPbSetRoute (pb_set s)))).

Definition Set_ReportHeartbeat (now : Z) (m : SetMap) (s : PbSet) : Response () * SetMap :=
  (mkResponse CYPRE_OK None (Some ()), AddSet now m s).

(** ** Order of the candidates *)

Lemma f64_compare_trans x y z : f64_eqb x y = true ->
  f64_ltb y z = f64_ltb x z /\ f64_ltb z y = f64_ltb z x /\ f64_eqb y z = f64_eqb x z.
Proof.
  unfold f64_ltb, f64_eqb, SFltb, SFeqb.
  destruct x as [[]|[]| |[] m1 e1], y as [[]|[]| |[] m2 e2], z as [[]|[]| |[] m3 e3]; cbn; try done.
  all: change (Pos.compare_cont Eq) with Pos.compare.
  all: try (destruct (Z.compare_spec e1 e2); try done; subst;
            destruct (Pos.compare_spec m1 m2); try done; by subst).
Qed.

Lemma f64_eqb_sym x y : f64_eqb x y = f64_eqb y x.
Proof.
  unfold f64_eqb, SFeqb. destruct x as [[]|[]| |[] m1 e1], y as [[]|[]| |[] m2 e2]; cbn; try done.
  all: change (Pos.compare_cont Eq) with Pos.compare; rewrite (Z.compare_antisym e2 e1), (Pos.compare_antisym m2 m1).
  all: destruct (Z.compare e2 e1), (Pos.compare m2 m1); done.
Qed.

(** A pool that the loops prefer to the one they hold. *)
Definition better (u : spec_float) (n : Z) (u' : spec_float) (n' : Z) : bool :=
  f64_ltb u u' || (f64_eqb u u' && (n <? n')).

Lemma better_trans u1 n1 u2 n2 u3 n3 :
  better u1 n1 u2 n2 = true -> better u2 n2 u3 n3 = true -> better u1 n1 u3 n3 = true.
Proof.
  unfold better. rewrite !orb_true_iff, !andb_true_iff, !Z.ltb_lt.
  intros [H1|[H1 L1]] [H2|[H2 L2]].
  - left. by eapply f64_ltb_trans.
  - left. destruct (f64_compare_trans u2 u3 u1 H2) as (_ & E & _). congruence.
  - left. destruct (f64_compare_trans u1 u2 u3 H1) as (E & _ & _). congruence.
  - right. split; [|lia]. destruct (f64_compare_trans u1 u2 u3 H1) as (_ & _ & E). congruence.
Qed.

Lemma better_irrefl u n : better u n u n = false.
Proof. unfold better. by rewrite f64_ltb_irrefl, Z.ltb_irrefl, andb_false_r. Qed.

(** ** Loops *)

(** The pools the loops look at, with the set they are in: those of the sets
    visited before the first obsolete one. *)
Fixpoint visited (cfg : SmCfg) (now type : Z) (entries : list (Z * SetInfo)) : list (Z * PbPool) :=
  match entries with
  | [] => []
  | (id, s) :: entries' =>
      if obsoleted cfg now s then []
      else ((pair id <$> filter (fun p => pool_offered type p = true) (pb_set_pools (pb_set s)))
            ++ visited cfg now type entries')%list
  end.

Definition pool_better (p : PbPool) (b : Best) : bool :=
  better (capacity_utils p) (pb_pool_num_extents p) (best_utils b) (best_extents b).

(** [b] stands for pool [p] of set [id]. *)
Definition holds (b : Best) (id : Z) (p : PbPool) : Prop :=
  best_id b = id /\ forall q, pool_better q b = better (capacity_utils q) (pb_pool_num_extents q)
                                                 (capacity_utils p) (pb_pool_num_extents p).

(** What a loop over [l] leaves of [b]: a best candidate, or [b] itself. *)
Definition best_of (l : list (Z * PbPool)) (b r : Best) : Prop :=
  (forall id p, (id, p) ∈ l -> pool_better p r = false) /\
  (r = b \/ exists id p, (id, p) ∈ l /\ holds r id p /\ pool_better p b = true).

Lemma best_of_nil b : best_of [] b b.
Proof. split; [by intros ? ? ?%elem_of_nil|by left]. Qed.

Lemma holds_trans r id p b q : holds r id p -> pool_better p b = true -> pool_better q r = true -> pool_better q b = true.
Proof. intros [_ Hr] Hp Hq. rewrite Hr in Hq. by eapply better_trans. Qed.

Lemma best_of_app l1 l2 b1 b2 b3 : best_of l1 b1 b2 -> best_of l2 b2 b3 -> best_of (l1 ++ l2) b1 b3.
Proof.
  intros [Hn1 H1] [Hn2 H2]. split.
  - intros id p [Hp|Hp]%elem_of_app; [|eauto]. destruct H2 as [-> |(id' & q & Hq & Hh & Hb)]; [eauto|].
    destruct (pool_better p b3) eqn:E; [|done]. rewrite <- (Hn1 id p Hp). symmetry. by eapply holds_trans.
  - destruct H2 as [-> |(id' & q & Hq & Hh & Hb)].
    + destruct H1 as [-> |(id' & q & Hq & Hh & Hb)]; [by left|]. right. exists id', q. split_and!; [set_solver|done..].
    + right. exists id', q. split_and!; [set_solver|done|]. destruct H1 as [-> |(id1 & p1 & _ & Hh1 & Hb1)]; [done|].
      exact (holds_trans _ _ _ _ _ Hh1 Hb1 Hb).
Qed.

Lemma best_of_take id p b b' :
  pool_better p b = true -> holds b' id p -> best_of [(id, p)] b b'.
Proof.
  intros Hp [Hi Hh]. split; [|right; exists id, p; split_and!; [set_solver|by split|done]].
  intros ? ? [= -> ->]%list_elem_of_singleton. rewrite Hh. apply better_irrefl.
Qed.

Lemma pools_loop_best type id pools b :
  best_of (pair id <$> filter (fun p => pool_offered type p = true) pools) b (pools_loop type id pools b).
Proof.
  revert b. induction pools as [|p pools IH]; intros b; cbn [pools_loop]; [apply best_of_nil|].
  rewrite filter_cons. destruct (pool_offered type p) eqn:Eo; [|by rewrite decide_False by done].
  rewrite decide_True by done. rewrite fmap_cons. change ((id, p) :: ?l) with ([(id, p)] ++ l)%list.
  destruct (f64_ltb (capacity_utils p) (best_utils b)) eqn:El; [|destruct (_ && _) eqn:Ee].
  - eapply best_of_app; [|apply IH]. apply best_of_take; [|by split]. unfold pool_better, better. by rewrite El.
  - eapply best_of_app; [|apply IH]. apply best_of_take; [unfold pool_better, better; by rewrite Ee, orb_true_r|].
    apply andb_true_iff in Ee as [Ee _]. split; [done|]. intros q. unfold pool_better, better. cbn [best_utils best_extents].
    pose proof (f64_compare_trans _ _ (capacity_utils q) Ee) as (_ & -> & E).
    by rewrite (f64_eqb_sym (capacity_utils q) (best_utils b)), E, f64_eqb_sym.
  - eapply best_of_app; [|apply IH]. split; [|by left]. intros ? ? [= -> ->]%list_elem_of_singleton.
    unfold pool_better, better. by rewrite El, Ee.
Qed.

Lemma sets_loop_best cfg now type entries b :
  best_of (visited cfg now type entries) b (sets_loop cfg now type entries b).
Proof.
  revert b. induction entries as [|[id s] entries IH]; intros b; cbn [visited sets_loop]; [apply best_of_nil|].
  destruct (obsoleted cfg now s); [apply best_of_nil|]. eapply best_of_app; [apply pools_loop_best|apply IH].
Qed.

Lemma visited_elem cfg now type entries id p :
  (id, p) ∈ visited cfg now type entries ->
  exists s, (id, s) ∈ entries /\ obsoleted cfg now s = false /\ p ∈ pb_set_pools (pb_set s) /\ pool_offered type p = true.
Proof.
  induction entries as [|[id' s] entries IH]; cbn [visited]; [by intros ?%elem_of_nil|].
  destruct (obsoleted cfg now s) eqn:E; [by intros ?%elem_of_nil|].
  intros [(q & [= -> ->] & [Hq Hin]%list_elem_of_filter)%list_elem_of_fmap|Hin]%elem_of_app.
  - exists s. split_and!; [left|done..].
  - destruct (IH Hin) as (s' & ? & ?). exists s'. by split; [right|].
Qed.

Lemma visited_all cfg now type entries id s p :
  (forall id s, (id, s) ∈ entries -> obsoleted cfg now s = false) ->
  (id, s) ∈ entries -> p ∈ pb_set_pools (pb_set s) -> pool_offered type p = true ->
  (id, p) ∈ visited cfg now type entries.
Proof.
  induction entries as [|[id' s'] entries IH]; intros Hf Hin Hp Ho; [by apply elem_of_nil in Hin|].
  cbn [visited]. rewrite (Hf id' s') by left. apply elem_of_app. apply elem_of_cons in Hin as [[= -> ->]|Hin].
  - left. apply list_elem_of_fmap. exists p. split; [done|]. by apply list_elem_of_filter.
  - right. apply IH; [|done..]. intros i t Ht. apply (Hf i). by right.
Qed.

(** ** Allocation *)

Definition all_fresh (cfg : SmCfg) (now : Z) (m : SetMap) : Prop :=
  forall id s, m !! id = Some s -> obsoleted cfg now s = false.

Lemma AllocateSet_fresh cfg now (m : SetMap) entries type s :
  entries ≡ₚ map_to_list m -> AllocateSet cfg now m entries type = Some s ->
  exists id p, m !! id = Some s /\ obsoleted cfg now s = false /\
    p ∈ pb_set_pools (pb_set s) /\ pool_offered type p = true.
Proof.
  intros Hperm. unfold AllocateSet. destruct (sets_loop_best cfg now type entries best_init) as [_ Hb].
  destruct (Z.eqb_spec (best_id (sets_loop cfg now type entries best_init)) (-1)) as [|Hne]; [done|].
  destruct Hb as [E|(id & p & (s' & Hs & Ho & Hp)%visited_elem & [-> _] & _)]; [by rewrite E in Hne|].
  assert (Hm : m !! id = Some s') by (apply elem_of_map_to_list; by rewrite <- Hperm).
  rewrite Hm. intros [= <-]. by exists id, p.
Qed.

(** [AllocateSet] returns a registered set whose last heartbeat is recent,
    with an enabled pool of the requested type that is not full; when no set is
    obsolete, no pool of any set is used less (in the source's double
    arithmetic), or as much with fewer extents, and no set is returned only when
    every such pool is full. *)
Theorem allocate_set_best cfg now (m : SetMap) entries type :
  entries ≡ₚ map_to_list m -> m !! (-1) = None ->
  (forall id s p, m !! id = Some s -> p ∈ pb_set_pools (pb_set s) -> 0 <= pb_pool_num_extents p) ->
  match AllocateSet cfg now m entries type with
  | Some s =>
      obsoleted cfg now s = false /\
      exists id p, m !! id = Some s /\ p ∈ pb_set_pools (pb_set s) /\ pool_offered type p = true /\
        f64_ltb (capacity_utils p) (f64_of_u64 1) = true /\
        (all_fresh cfg now m ->
         forall id' s' q, m !! id' = Some s' -> q ∈ pb_set_pools (pb_set s') -> pool_offered type q = true ->
           better (capacity_utils q) (pb_pool_num_extents q) (capacity_utils p) (pb_pool_num_extents p) = false)
  | None =>
      all_fresh cfg now m ->
      forall id s p, m !! id = Some s -> p ∈ pb_set_pools (pb_set s) -> pool_offered type p = true ->
        f64_ltb (capacity_utils p) (f64_of_u64 1) = false
  end.
Proof.
  intros Hperm Hm1 Hext. assert (Hin : forall id s, (id, s) ∈ entries <-> m !! id = Some s).
  { intros id s. rewrite Hperm. apply elem_of_map_to_list. }
  assert (Hvis : all_fresh cfg now m -> forall id s p, m !! id = Some s -> p ∈ pb_set_pools (pb_set s) ->
            pool_offered type p = true -> (id, p) ∈ visited cfg now type entries).
  { intros Hf id s p Hs Hp Ho. apply (visited_all cfg now type entries id s p); [|by apply Hin|done..].
    intros i t Ht. by apply (Hf i), Hin. }
  unfold AllocateSet. destruct (sets_loop_best cfg now type entries best_init) as [Hno Hb].
  set (r := sets_loop cfg now type entries best_init) in *.
  destruct Hb as [-> |(id & p & Hv & [Hid Hh] & Hb)].
  - cbn [best_id best_init Z.eqb]. intros Hf id s p Hs Hp Ho.
    specialize (Hno id p (Hvis Hf id s p Hs Hp Ho)). by apply orb_false_iff in Hno as [? _].
  - apply visited_elem in Hv as (s & Hs & Hobs & Hp & Ho). apply Hin in Hs. rewrite Hid.
    destruct (Z.eqb_spec id (-1)) as [-> |Hne]; [congruence|]. rewrite Hs. split; [done|]. exists id, p. split_and!; try done.
    + unfold pool_better, better in Hb. apply orb_true_iff in Hb as [Hb|[_ Hb]%andb_true_iff]; [done|].
      apply Z.ltb_lt in Hb. specialize (Hext id s p Hs Hp). cbn in Hb. lia.
    + intros Hf id' s' q Hs' Hq Hoq. rewrite <- Hh. by apply (Hno id'), (Hvis Hf id' s' q).
Qed.

(** ** The registry after a history of heartbeats *)

(** Heartbeats with the time they came, oldest first. *)
Definition registry (hs : list (Z * PbSet)) : SetMap := foldl (fun m h => (Set_ReportHeartbeat h.1 m h.2).2) ∅ hs.

(** The last heartbeat of a set. *)
Definition latest (hs : list (Z * PbSet)) (t : Z) (s : PbSet) : Prop :=
  exists hs1 hs2, hs = (hs1 ++ (t, s) :: hs2)%list /\ Forall (fun h => pb_set_id h.2 <> pb_set_id s) hs2.

Lemma registry_lookup hs id i :
  registry hs !! id = Some i <-> pb_set_id (pb_set i) = id /\ latest hs (created_time i) (pb_set i).
Proof.
  unfold registry. induction hs as [|[t s] hs IH] using rev_ind.
  - cbn [foldl]. rewrite lookup_empty. split; [done|]. intros (_ & [|] & ? & ? & _); done.
  - rewrite foldl_app. cbn [foldl fst snd Set_ReportHeartbeat]. unfold AddSet. rewrite lookup_insert_Some, IH. split.
    + intros [[<- <-]|(Hne & <- & hs1 & hs2 & -> & Hf)]; (split; [done|]).
      * exists hs, []. by split.
      * exists hs1, (hs2 ++ [(t, s)])%list. rewrite <- app_assoc. split; [done|].
        apply Forall_app. split; [done|]. by repeat constructor.
    + intros (<- & hs1 & hs2 & Heq & Hf). destruct hs2 as [|h hs2 _] using rev_ind.
      * apply app_inj_tail in Heq as [-> [= -> ->]]. left. by destruct i.
      * rewrite app_comm_cons, app_assoc in Heq. apply app_inj_tail in Heq as [-> <-].
        apply Forall_app in Hf as [Hf Hs]. apply Forall_cons in Hs as [Hs _]. right.
        split; [exact Hs|]. split; [done|]. by exists hs1, hs2.
Qed.

Lemma ListSets_fresh cfg now entries s :
  s ∈ ListSets cfg now entries -> exists id, (id, s) ∈ entries /\ obsoleted cfg now s = false.
Proof.
  induction entries as [|[id s'] entries IH]; cbn [ListSets]; [by intros ?%elem_of_nil|].
  destruct (obsoleted cfg now s') eqn:E; [by intros ?%elem_of_nil|].
  intros [-> |Hin]%elem_of_cons; [exists id; split; [left|done]|].
  destruct (IH Hin) as (id' & ? & ?). exists id'. by split; [right|].
Qed.

Lemma ListSets_all cfg now entries :
  (forall id s, (id, s) ∈ entries -> obsoleted cfg now s = false) -> ListSets cfg now entries = entries.*2.
Proof.
  induction entries as [|[id s] entries IH]; intros Hf; [done|]. cbn [ListSets fmap list_fmap].
  rewrite (Hf id s) by left. rewrite IH; [done|]. intros i t Ht. apply (Hf i). by right.
Qed.

Lemma BroadcastRequest_found outcome sets i j :
  BroadcastRequest outcome sets i = Some j -> 0 <= i ->
  j = -1 \/ exists s, sets !! Z.to_nat (j - i) = Some s /\ i <= j /\ outcome (pb_set s) = Answered 0.
Proof.
  revert i. induction sets as [|s sets IH]; intros i; cbn [BroadcastRequest]; [intros [= <-]; by left|].
  destruct (outcome (pb_set s)) as [| |c] eqn:Eo; [done| |destruct (Z.eqb_spec c 0) as [-> |]].
  2: { intros [= <-] Hi. right. exists s. rewrite Z.sub_diag. split_and!; [done|lia|done]. }
  all: intros H Hi; destruct (IH _ H) as [? |(s' & Hl & Hj & Ho)]; [lia|by left|right; exists s'].
  all: replace (Z.to_nat (j - i)) with (S (Z.to_nat (j - (i + 1)))) by lia; split_and!; [done|lia|done].
Qed.

Lemma BroadcastRequest_answered outcome sets i :
  (forall s, outcome s <> ChannelFailed) -> i ∈ sets -> outcome (pb_set i) = Answered 0 ->
  exists j s, 0 <= j /\ BroadcastRequest outcome sets 0 = Some j /\ sets !! Z.to_nat j = Some s.
Proof.
  intros Hc Hin Ho. assert (Hgen : forall k, 0 <= k -> exists j s, k <= j /\ BroadcastRequest outcome sets k = Some j /\
    sets !! Z.to_nat (j - k) = Some s).
  { induction sets as [|s sets IH]; [by apply elem_of_nil in Hin|]. intros k Hk. cbn [BroadcastRequest].
    assert (Hhere : exists j s', k <= j /\ Some k = Some j /\ (s :: sets) !! Z.to_nat (j - k) = Some s').
    { exists k, s. rewrite Z.sub_diag. split_and!; [lia|done..]. }
    assert (Hnext : i ∈ sets -> exists j s', k <= j /\ BroadcastRequest outcome sets (k + 1) = Some j /\
              (s :: sets) !! Z.to_nat (j - k) = Some s').
    { intros Hi. destruct (IH Hi (k + 1) ltac:(lia)) as (j & s' & Hj & Hb & Hl). exists j, s'.
      replace (Z.to_nat (j - k)) with (S (Z.to_nat (j - (k + 1)))) by lia. split_and!; [lia|done..]. }
    apply elem_of_cons in Hin as [<- |Hin]; [by rewrite Ho|].
    destruct (outcome (pb_set s)) as [| |c] eqn:E; [by destruct (Hc (pb_set s))|by apply Hnext|].
    destruct (c =? 0); [done|by apply Hnext]. }
  destruct (Hgen 0 ltac:(lia)) as (j & s & Hj & Hb & Hl). rewrite Z.sub_0_r in Hl. by exists j, s.
Qed.

Lemma obsoleted_false cfg now s : obsoleted cfg now s = false <-> now <= created_time s + obsolete_interval_sec cfg.
Proof. apply Z.ltb_ge. Qed.

(** every set that the set manager lists, allocates or names for a user is
    described by the last heartbeat it sent, received within the configured
    interval; a set named for a user is one whose extent manager answered that
    it has the user; and when no set is obsolete and as many sets reported as
    are configured, the list holds every one of them. *)
Theorem offered_sets_recent cfg now hs entries :
  entries ≡ₚ map_to_list (registry hs) ->
  (forall route type outcome resp,
    route ∈ default [] (r_body (Set_List cfg now (registry hs) entries)) \/
    r_body (Set_Allocate cfg now (registry hs) entries type) = Some route \/
    (Set_Query cfg now entries outcome = Some resp /\ r_body resp = Some route) ->
    exists t s, latest hs t s /\ route = ToPbSetRoute s /\ now <= t + obsolete_interval_sec cfg) /\
  (forall outcome resp route, Set_Query cfg now entries outcome = Some resp -> r_body resp = Some route ->
     exists s, route = ToPbSetRoute s /\ outcome s = Answered 0) /\
  (all_fresh cfg now (registry hs) -> num_sets (registry hs) = cfg_num_sets cfg ->
   forall t s, latest hs t s -> ToPbSetRoute s ∈ default [] (r_body (Set_List cfg now (registry hs) entries))).
Proof.
  intros Hperm. assert (Hin : forall id s, (id, s) ∈ entries <-> registry hs !! id = Some s).
  { intros id s. rewrite Hperm. apply elem_of_map_to_list. }
  assert (Hlist : forall s, s ∈ ListSets cfg now entries ->
            exists t p, latest hs t p /\ ToPbSetRoute (pb_set s) = ToPbSetRoute p /\ now <= t + obsolete_interval_sec cfg).
  { intros s (id & [_ Hl]%Hin%registry_lookup & Ho%obsoleted_false)%ListSets_fresh. by exists (created_time s), (pb_set s). }
  split_and!.
  - intros route type outcome resp [Hr|[Hr|[Hq Hr]]].
    + unfold Set_List in Hr. destruct (Available _ _); cbn in Hr; [|by apply elem_of_nil in Hr].
      apply list_elem_of_fmap in Hr as (s & -> & Hs). by apply Hlist.
    + unfold Set_Allocate in Hr. destruct (Available _ _); [|done]. cbn [negb] in Hr. destruct (_ =? _); [done|].
      destruct (AllocateSet _ _ _ _ _) as [s|] eqn:Ea; [|done]. destruct (set_empty _); [done|]. injection Hr as <-.
      destruct (AllocateSet_fresh _ _ _ _ _ _ Hperm Ea) as (id & ? & [_ Hl]%registry_lookup & Ho%obsoleted_false & _).
      by exists (created_time s), (pb_set s).
    + unfold Set_Query in Hq. apply bind_Some in Hq as (j & Hj & Hq).
      destruct (j <? 0); [by injection Hq as <-|]. apply bind_Some in Hq as (s & Hs & [= <-]). cbn in Hr.
      injection Hr as <-. by apply Hlist, list_elem_of_lookup_2 with (Z.to_nat j).
  - intros outcome resp route Hq Hr. unfold Set_Query in Hq. apply bind_Some in Hq as (j & Hj & Hq).
    destruct (Z.ltb_spec j 0) as [|Hj0]; [by injection Hq as <-|]. apply bind_Some in Hq as (s & Hs & [= <-]).
    injection Hr as <-. exists (pb_set s). split; [done|].
    destruct (BroadcastRequest_found _ _ _ _ Hj ltac:(lia)) as [? |(s' & Hs' & _ & Ho)]; [lia|]. rewrite Z.sub_0_r in Hs'. congruence.
  - intros Hf Hn t s Hl. unfold Set_List, Available. rewrite Hn, Z.eqb_refl. cbn.
    rewrite ListSets_all by (intros id i Hi; by apply (Hf id), Hin).
    apply list_elem_of_fmap. exists (mkSetInfo t s). split; [done|].
    apply list_elem_of_fmap. exists (pb_set_id s, mkSetInfo t s). split; [done|]. apply Hin, registry_lookup. by split.
Qed.

(** ** Samples *)

Definition sample_pool (size extents : Z) : PbPool :=
  mkPbPool "pool-a" "a" POOL_TYPE_HDD POOL_STATUS_ENABLED 3 10 3 0 "" "" 1000 size 64 extents.
Definition sample_set (id size : Z) : PbSet := mkPbSet id "set" "10.0.0.1" 8000 [sample_pool size 7].
Definition sample_cfg : SmCfg := mkSmCfg 5 2.
Definition sample_heartbeats : list (Z * PbSet) := [(100, sample_set 1 500); (103, sample_set 2 400); (104, sample_set 1 300)].
Definition sample_entries : list (Z * SetInfo) := map_to_list (registry sample_heartbeats).

Lemma registry_pools (P : PbPool -> Prop) hs :
  Forall (fun h => Forall P (pb_set_pools h.2)) hs ->
  forall id s p, registry hs !! id = Some s -> p ∈ pb_set_pools (pb_set s) -> P p.
Proof.
  intros Hf id s p (_ & hs1 & hs2 & -> & _)%registry_lookup Hp.
  apply Forall_app in Hf as [_ [Hs _]%Forall_cons]. by apply (proj1 (Forall_forall _ _) Hs).
Qed.

Lemma allocate_set_best_witness :
  exists s, AllocateSet sample_cfg 106 (registry sample_heartbeats) sample_entries POOL_TYPE_HDD = Some s /\
    pb_set_id (pb_set s) = 1 /\ obsoleted sample_cfg 106 s = false.
Proof.
  eexists. split; [vm_compute; reflexivity|]. split; [reflexivity|].
  pose proof (allocate_set_best sample_cfg 106 (registry sample_heartbeats) sample_entries POOL_TYPE_HDD) as H.
  assert (H1 : sample_entries ≡ₚ map_to_list (registry sample_heartbeats)) by reflexivity.
  assert (H2 : registry sample_heartbeats !! (-1) = None) by (vm_compute; reflexivity).
  assert (H3 := registry_pools (fun p => 0 <= pb_pool_num_extents p) sample_heartbeats ltac:(repeat constructor; cbn; lia)).
  exact (proj1 (H H1 H2 H3)).
Defined.

Lemma offered_sets_recent_witness :
  Forall (fun route => exists t s, latest sample_heartbeats t s /\ route = ToPbSetRoute s /\ 106 <= t + 5)
    (default [] (r_body (Set_List sample_cfg 106 (registry sample_heartbeats) sample_entries))).
Proof.
  apply Forall_forall. intros route Hr.
  destruct (offered_sets_recent sample_cfg 106 sample_heartbeats sample_entries) as (H & _); [reflexivity|].
  apply (H route None (fun _ => CallFailed) not_ready). by left.
Defined.

(** The loops stop at an obsolete set: a fresh set behind it in the order of the
    map is neither listed nor allocated. *)
Lemma obsolete_hides_fresh :
  let old := (1, mkSetInfo 100 (sample_set 1 500)) in
  let fresh := (2, mkSetInfo 200 (sample_set 2 400)) in
  let m : SetMap := list_to_map [old; fresh] in
  ListSets sample_cfg 201 [old; fresh] = [] /\ ListSets sample_cfg 201 [fresh; old] = [fresh.2] /\
  AllocateSet sample_cfg 201 m [old; fresh] POOL_TYPE_HDD = None /\
  AllocateSet sample_cfg 201 m [fresh; old] POOL_TYPE_HDD = Some fresh.2.
Proof. vm_compute. repeat split. Qed.
