(* ===== verification/Access.v ===== *)
(** * The access service

    The proxy in front of the extent managers (src/src/access): [SetMgr]
    (set_manager.cpp) asks the set manager where a user lives, [ResourceMgr]
    (resource_manager.cpp) checks the arguments, keeps the answers and the
    channels, and forwards each call to the extent manager of the user's set;
    the handlers of [AccessServiceImpl] (access_service.cpp) copy the result
    into the reply.  The patterns of [RegexUtil] (src/src/utils/regex_util.h)
    are here too, with the classes of the C locale.

    The set manager and the extent managers are reached over the network: they
    are the operations of the class [AccessEnv] over a world [W].  One call of
    this service is one step; its locks are not modelled. *)

From Stdlib Require Import Ascii.
From S2P Require Import Prelude Status Codec Enums Net Blob User Pool Services SetManager.

#[local] Open Scope string_scope.
#[local] Open Scope Z_scope.

(** ** Argument patterns *)

Definition in_chars (lo hi c : ascii) : bool :=
  (nat_of_ascii lo <=? nat_of_ascii c)%nat && (nat_of_ascii c <=? nat_of_ascii hi)%nat.
Definition is_alnum (c : ascii) : bool := in_chars "A" "Z" c || in_chars "a" "z" c || in_chars "0" "9" c.
Definition is_word (c : ascii) : bool := is_alnum c || Ascii.eqb c "_".

Fixpoint all_chars (f : ascii -> bool) (s : string) : bool :=
  match s with "" => true | String c s' => f c && all_chars f s' end.

(** [[class]+] *)
Definition some_chars (f : ascii -> bool) (s : string) : bool := negb (str_empty s) && all_chars f s.

(** A literal, then [[class]+]. *)
Fixpoint prefixed (lit : string) (f : ascii -> bool) (s : string) : bool :=
  match lit, s with
  | "", _ => some_chars f s
  | String a lit', String c s' => Ascii.eqb a c && prefixed lit' f s'
  | _, "" => false
  end.

(** [[class]+], then a literal. *)
Fixpoint suffixed (f : ascii -> bool) (lit s : string) : bool :=
  match s with
  | "" => false
  | String c s' => f c && (String.eqb s' lit || suffixed f lit s')
  end.

Module RegexUtil.
Definition UserNameValid (s : string) : bool :=
  some_chars (fun c => is_word c || Ascii.eqb c "." || Ascii.eqb c "-" || Ascii.eqb c "@") s.
Definition UserIdValid (s : string) : bool := prefixed "user-" (fun c => is_word c || Ascii.eqb c "-") s.
Definition EmailValid (s : string) : bool := suffixed is_alnum "@jd.com" s.
Definition BlobIdValid (s : string) : bool := prefixed "bb-" (fun c => is_word c || Ascii.eqb c "-") s.
End RegexUtil.

Definition USERNAME_LIMIT : Z := 64.
Definition USERID_LIMIT : Z := 64.
Definition EMAIL_LIMIT : Z := 64.
Definition BLOBID_LIMIT : Z := 128.

Definition ParamLengthValid (s : string) (limit : Z) : bool := slen s <=? limit.
Definition UserNameValid (s : string) : bool := RegexUtil.UserNameValid s && (slen s <=? USERNAME_LIMIT).
Definition UserIdValid (s : string) : bool := RegexUtil.UserIdValid s && (slen s <=? USERID_LIMIT).
Definition BlobIdValid (s : string) : bool := RegexUtil.BlobIdValid s && (slen s <=? BLOBID_LIMIT).
Definition EmailValid (s : string) : bool := RegexUtil.EmailValid s && (slen s <=? EMAIL_LIMIT).

(** ** The network *)

(** The requests of the extent manager's [ResourceService] that the access
    service sends, with what their responses carry. *)
Inductive EmReq : Type -> Type :=
  | RqCreateUser (user_name email comments : string) : EmReq string
  | RqDeleteUser (user_id : string) : EmReq ()
  | RqUpdateUser (user_id new_name new_email new_comments : string) : EmReq ()
  | RqQueryUser (user_id : string) : EmReq PbUser
  | RqListUsers : EmReq (list PbUser)
  | RqCreateBlob (user_id blob_name : string) (blob_size blob_type : Z)
      (instance_id blob_desc pool_id : string) : EmReq string
  | RqDeleteBlob (user_id blob_id : string) : EmReq ()
  | RqRenameBlob (user_id blob_id new_name : string) : EmReq ()
  | RqResizeBlob (user_id blob_id : string) (new_size : Z) : EmReq ()
  | RqQueryBlob (blob_id : string) : EmReq (option PbBlob * Z * Z)
  | RqListBlobs (user_id : string) : EmReq (list PbBlob).

(** A call that failed has an error text. *)
Inductive RpcOutcome (A : Type) : Type := RpcFailed (text : string) | RpcDone (response : Response A).
Arguments RpcFailed {A}.
Arguments RpcDone {A}.

Class AccessEnv (W : Type) := {
  channel_init : W -> string -> bool;                                  (* brpc::Channel::Init *)
  em_call : forall {A}, W -> string -> EmReq A -> RpcOutcome A * W;    (* ResourceService *)
  sm_query : W -> string -> RpcOutcome SetRoute * W;                   (* SetService.Query *)
  sm_allocate : W -> string -> Z -> RpcOutcome SetRoute * W;           (* SetService.Allocate *)
  sm_list : W -> RpcOutcome (list SetRoute) * W                        (* SetService.List *)
}.

Record PbStatus : Type := mkPbStatus { st_code : Z; st_message : option string }.

Definition st_ok : PbStatus := mkPbStatus CYPRE_OK None.
Definition net_error (text : string) : PbStatus := mkPbStatus CYPRE_ER_NET_ERROR (Some text).
Definition invalid_argument (message : string) : PbStatus := mkPbStatus CYPRE_ER_INVALID_ARGUMENT (Some message).
Definition status_of {A} (r : Response A) : PbStatus := mkPbStatus (r_code r) (r_message r).

(** The maps of [SetMgr] and of [ResourceMgr]; a channel is the address it is
    for. *)
Record Access : Type := mkAccess {
  set_map_ : gmap Z SetRoute;
  em_channel_map_ : gmap string string;
  user_map_ : gmap string SetRoute
}.

Definition Access_new : Access := mkAccess ∅ ∅ ∅.

Definition em_address (ip : string) (port : Z) : string := ip +:+ ":" +:+ dec port.

Section Access.
Context `{AccessEnv W}.
Implicit Types (a : Access) (w : W).

(** ** SetMgr *)

(** A failed call or a status other than 0 is logged only: the map is replaced
    by what the response holds. *)
Definition UpdateSets a w : Access * W :=
  let '(r, w) := sm_list w in
  let sets := match r with RpcFailed _ => [] | RpcDone resp => default [] (r_body resp) end in
  (mkAccess (foldl (fun m r => <[route_set_id r := r]> m) ∅ sets) (em_channel_map_ a) (user_map_ a), w).

Definition QuerySetById a (set_id : Z) : PbStatus * option SetRoute :=
  match set_map_ a !! set_id with
  | Some route => (st_ok, Some route)
  | None => (mkPbStatus CYPRE_AC_SET_NOT_FOUND (Some "set not found"), None)
  end.

(** The result of a call, as [QuerySet] and [AllocateSet] return it. *)
Definition call_result {A} (r : RpcOutcome A) : PbStatus * option A :=
  match r with
  | RpcFailed text => (net_error text, None)
  | RpcDone resp => if negb (r_code resp =? 0) then (status_of resp, None) else (st_ok, r_body resp)
  end.

Definition SetMgr_QuerySet w (user_id : string) : PbStatus * option SetRoute * W :=
  let '(r, w) := sm_query w user_id in (call_result r, w).

Definition SetMgr_AllocateSet w (user_name : string) (type : Z) : PbStatus * option SetRoute * W :=
  let '(r, w) := sm_allocate w user_name type in (call_result r, w).

(** ** ResourceMgr *)

Definition InitChannel a w (em_ip : string) (em_port : Z) : option string * Access :=
  match em_channel_map_ a !! em_ip with
  | Some ch => (Some ch, a)
  | None =>
      let ch := em_address em_ip em_port in
      if negb (channel_init w ch) then (None, a)
      else (Some ch, mkAccess (set_map_ a) (<[em_ip := ch]> (em_channel_map_ a)) (user_map_ a))
  end.

Definition GetChannel a w (em_ip : string) (em_port : Z) : option string * Access :=
  match em_channel_map_ a !! em_ip with
  | Some ch => (Some ch, a)
  | None => InitChannel a w em_ip em_port
  end.

(** The route in [*setroute], the default message when nothing was assigned. *)
Definition no_route : SetRoute := mkSetRoute 0 "" "" 0.

Definition QueryUserSet a w (user_id : string) : PbStatus * SetRoute * Access * W :=
  match user_map_ a !! user_id with
  | Some route => (st_ok, route, a, w)
  | None =>
      let '(status, route, w) := SetMgr_QuerySet w user_id in
      let route := default no_route route in
      if st_code status =? CYPRE_OK
      then (status, route, mkAccess (set_map_ a) (em_channel_map_ a) (<[user_id := route]> (user_map_ a)), w)
      else (status, route, a, w)
  end.

Definition DeleteUserSetCache a (user_id : string) : Access :=
  mkAccess (set_map_ a) (em_channel_map_ a) (delete user_id (user_map_ a)).

Definition no_channel : PbStatus := mkPbStatus CYPRE_AC_CHANNEL_ERROR (Some "channel not available").

(** From the route on, what every operation but [CreateUser] does: get the
    channel, call, and return the answer. *)
Definition forward {A} a w (route : SetRoute) (rq : EmReq A) : PbStatus * option A * Access * W :=
  let '(channel, a) := GetChannel a w (route_ip route) (route_port route) in
  match channel with
  | None => (no_channel, None, a, w)
  | Some ch => let '(r, w) := em_call w ch rq in (call_result r, a, w)
  end.

(** Steps 2 and following of the operations on a user. *)
Definition user_call {A} a w (user_id : string) (rq : EmReq A) : PbStatus * option A * Access * W :=
  let '(ret, route, a, w) := QueryUserSet a w user_id in
  if negb (st_code ret =? CYPRE_OK) then (ret, None, a, w) else forward a w route rq.

(** A failed call is logged and its status overwritten by [CYPRE_OK]. *)
Definition Access_CreateUser a w (user_name email comments : string) (set_id : Z) (pool_id : string) (type : Z)
  : PbStatus * option string * Access * W :=
  if negb (UserNameValid user_name) || negb (EmailValid email) || negb (ParamLengthValid comments 128)
  then (invalid_argument "user name or email or comments invalid", None, a, w)
  else
    let '(ret, route, w) :=
      if 0 <? set_id then (QuerySetById a set_id, w) else SetMgr_AllocateSet w user_name type in
    if negb (st_code ret =? CYPRE_OK) then (ret, None, a, w)
    else
      let route := default no_route route in
      let '(channel, a) := GetChannel a w (route_ip route) (route_port route) in
      match channel with
      | None => (no_channel, None, a, w)
      | Some ch =>
          let '(r, w) := em_call w ch (RqCreateUser user_name email comments) in
          match r with
          | RpcFailed text => (mkPbStatus CYPRE_OK (Some text), Some "", a, w)
          | RpcDone resp =>
              if negb (r_code resp =? 0) then (status_of resp, None, a, w)
              else (st_ok, Some (default "" (r_body resp)), a, w)
          end
      end.

Definition Access_DeleteUser a w (user_id : string) : PbStatus * option () * Access * W :=
  if negb (UserIdValid user_id) then (invalid_argument "user id invalid", None, a, w)
  else
    let '(status, body, a, w) := user_call a w user_id (RqDeleteUser user_id) in
    if st_code status =? CYPRE_OK then (status, body, DeleteUserSetCache a user_id, w) else (status, body, a, w).

(** One valid field is enough. *)
Definition Access_UpdateUser a w (user_id new_name new_email new_comments : string)
  : PbStatus * option () * Access * W :=
  if negb (UserIdValid user_id)
     || (negb (UserNameValid new_name) && negb (EmailValid new_email) && negb (ParamLengthValid new_comments 128))
  then (invalid_argument "user id or update info invalid", None, a, w)
  else user_call a w user_id (RqUpdateUser user_id new_name new_email new_comments).

Definition Access_QueryUser a w (user_id : string) : PbStatus * option PbUser * Access * W :=
  if negb (UserIdValid user_id) then (invalid_argument "user id invalid", None, a, w)
  else user_call a w user_id (RqQueryUser user_id).

Definition Access_ListUsers a w (set_id : Z) : PbStatus * option (list PbUser) * Access * W :=
  let '(ret, route) := QuerySetById a set_id in
  if negb (st_code ret =? CYPRE_OK) then (ret, None, a, w)
  else forward a w (default no_route route) RqListUsers.

Definition Access_CreateBlob a w (user_id blob_name : string) (blob_size type : Z)
    (instance_id blob_desc pool_id : string) : PbStatus * option string * Access * W :=
  if negb (UserIdValid user_id) || negb (ParamLengthValid blob_name 128) || negb (ParamLengthValid blob_desc 256)
  then (invalid_argument "user id or blob name or blob desc invalid", None, a, w)
  else user_call a w user_id (RqCreateBlob user_id blob_name blob_size type instance_id blob_desc pool_id).

Definition Access_DeleteBlob a w (user_id blob_id : string) : PbStatus * option () * Access * W :=
  if negb (UserIdValid user_id) || negb (BlobIdValid blob_id)
  then (invalid_argument "user id or blob id invalid", None, a, w)
  else user_call a w user_id (RqDeleteBlob user_id blob_id).

Definition Access_RenameBlob a w (user_id blob_id new_name : string) : PbStatus * option () * Access * W :=
  if negb (UserIdValid user_id) || negb (BlobIdValid blob_id) || negb (ParamLengthValid new_name 128)
  then (invalid_argument "user id or blob id or new name invalid", None, a, w)
  else user_call a w user_id (RqRenameBlob user_id blob_id new_name).

Definition Access_ResizeBlob a w (user_id blob_id : string) (blob_size : Z) : PbStatus * option () * Access * W :=
  if negb (UserIdValid user_id) || negb (BlobIdValid blob_id)
  then (invalid_argument "user id or blob id size invalid", None, a, w)
  else user_call a w user_id (RqResizeBlob user_id blob_id blob_size).

(** [*blob = response.blob()]. *)
Definition Access_QueryBlob a w (user_id blob_id : string) : PbStatus * option (option PbBlob) * Access * W :=
  if negb (UserIdValid user_id) || negb (BlobIdValid blob_id)
  then (invalid_argument "user id or blob id invalid", None, a, w)
  else
    let '(status, body, a, w) := user_call a w user_id (RqQueryBlob blob_id) in
    (status, (fun b => b.1.1) <$> body, a, w).

Definition Access_ListBlobs a w (user_id : string) : PbStatus * option (list PbBlob) * Access * W :=
  if negb (UserIdValid user_id) then (invalid_argument "user id invalid", None, a, w)
  else user_call a w user_id (RqListBlobs user_id).

(** ** AccessServiceImpl *)

(** The requests of the service; an absent field reads as its default. *)
Inductive AccReq : Type -> Type :=
  | AqCreateUser (user_name email comments : string) (set_id : Z) (pool_id : string) (pool_type : Z) : AccReq string
  | AqDeleteUser (user_id : string) : AccReq ()
  | AqUpdateUser (user_id new_name new_email new_comments : string) : AccReq ()
  | AqQueryUser (user_id : string) : AccReq PbUser
  | AqListUsers (set_id : Z) : AccReq (list PbUser)
  | AqCreateBlob (user_id blob_name : string) (blob_size blob_type : Z)
      (instance_id blob_desc pool_id : string) : AccReq string
  | AqDeleteBlob (user_id blob_id : string) : AccReq ()
  | AqRenameBlob (user_id blob_id new_name : string) : AccReq ()
  | AqResizeBlob (user_id blob_id : string) (new_size : Z) : AccReq ()
  | AqQueryBlob (user_id blob_id : string) : AccReq (option PbBlob)
  | AqListBlobs (user_id : string) : AccReq (list PbBlob)
  | AqQuerySet (user_id : string) : AccReq SetRoute.

(** The status is copied, and the result when the status is OK. *)
Definition access_reply {A} (r : PbStatus * option A * Access * W) : Response A * Access * W :=
  let '(status, body, a, w) := r in
  (mkResponse (st_code status) (st_message status) (if st_code status =? CYPRE_OK then body else None), a, w).

Definition serve {A} a w (rq : AccReq A) : Response A * Access * W :=
  match rq with
  | AqCreateUser user_name email comments set_id pool_id pool_type =>
      access_reply (Access_CreateUser a w user_name email comments set_id pool_id pool_type)
  | AqDeleteUser user_id => access_reply (Access_DeleteUser a w user_id)
  | AqUpdateUser user_id new_name new_email new_comments =>
      access_reply (Access_UpdateUser a w user_id new_name new_email new_comments)
  | AqQueryUser user_id => access_reply (Access_QueryUser a w user_id)
  | AqListUsers set_id => access_reply (Access_ListUsers a w set_id)
  | AqCreateBlob user_id blob_name blob_size blob_type instance_id blob_desc pool_id =>
      access_reply (Access_CreateBlob a w user_id blob_name blob_size blob_type instance_id blob_desc pool_id)
  | AqDeleteBlob user_id blob_id => access_reply (Access_DeleteBlob a w user_id blob_id)
  | AqRenameBlob user_id blob_id new_name => access_reply (Access_RenameBlob a w user_id blob_id new_name)
  | AqResizeBlob user_id blob_id new_size => access_reply (Access_ResizeBlob a w user_id blob_id new_size)
  | AqQueryBlob user_id blob_id => access_reply (Access_QueryBlob a w user_id blob_id)
  | AqListBlobs user_id => access_reply (Access_ListBlobs a w user_id)
  | AqQuerySet user_id =>
      let '(status, route, w) := SetMgr_QuerySet w user_id in access_reply (status, route, a, w)
  end.
End Access.
