(* ===== verification/AccessTheorems.v ===== *)
(** * Theorems on the access service

    Under what the network promises ([AccessLaws]: the set manager names one set
    for a user, and hosts run one extent manager each), the maps of the service
    stay right whatever it serves, and a request on a user reaches the extent
    manager of that user's set and no other. *)

From Stdlib Require Import Ascii.
From S2P Require Import Prelude Status Codec KvStore Persist Enums Net Blob User Pool Services ServicesTheorems SetManager Access.

#[local] Open Scope string_scope.
#[local] Open Scope Z_scope.

(** [home] is the set of a user, [port_of] the port of the extent manager on a
    host, as they are in the worlds that satisfy [good].  A reply with code 0
    carries a route. *)
Class AccessLaws (W : Type) `{AccessEnv W} (good : W -> Prop) (home : string -> option SetRoute)
    (port_of : string -> Z) : Prop := {
  query_home (w : W) u resp w' : good w -> sm_query w u = (RpcDone resp, w') -> r_code resp = 0 ->
    exists r, r_body resp = Some r /\ home u = Some r;
  home_port u r : home u = Some r -> route_port r = port_of (route_ip r);
  alloc_port (w : W) name type resp w' : good w -> sm_allocate w name type = (RpcDone resp, w') -> r_code resp = 0 ->
    exists r, r_body resp = Some r /\ route_port r = port_of (route_ip r);
  list_port (w : W) resp w' : good w -> sm_list w = (RpcDone resp, w') ->
    Forall (fun r => route_port r = port_of (route_ip r)) (default [] (r_body resp))
}.

(** The requests on a user: the user, the request for the extent manager, and
    what of its answer is returned. *)
Record Scoped (A : Type) : Type := mkScoped {
  sc_answer : Type;
  sc_user : string;
  sc_request : EmReq sc_answer;
  sc_result : sc_answer -> A
}.
Arguments mkScoped {A sc_answer}.
Arguments sc_answer {A}.
Arguments sc_user {A}.
Arguments sc_request {A}.
Arguments sc_result {A}.

Definition scoped {A} (rq : AccReq A) : option (Scoped A) :=
  match rq with
  | AqDeleteUser u => Some (mkScoped u (RqDeleteUser u) id)
  | AqUpdateUser u n e c => Some (mkScoped u (RqUpdateUser u n e c) id)
  | AqQueryUser u => Some (mkScoped u (RqQueryUser u) id)
  | AqCreateBlob u n s t i d p => Some (mkScoped u (RqCreateBlob u n s t i d p) id)
  | AqDeleteBlob u b => Some (mkScoped u (RqDeleteBlob u b) id)
  | AqRenameBlob u b n => Some (mkScoped u (RqRenameBlob u b n) id)
  | AqResizeBlob u b s => Some (mkScoped u (RqResizeBlob u b s) id)
  | AqQueryBlob u b => Some (mkScoped u (RqQueryBlob b) (fun x => x.1.1))
  | AqListBlobs u => Some (mkScoped u (RqListBlobs u) id)
  | _ => None
  end.

(** Which arguments are accepted. *)
Definition accepted {A} (rq : AccReq A) : bool :=
  match rq with
  | AqCreateUser n e c _ _ _ => UserNameValid n && EmailValid e && ParamLengthValid c 128
  | AqUpdateUser u n e c => UserIdValid u && (UserNameValid n || EmailValid e || ParamLengthValid c 128)
  | AqCreateBlob u n _ _ _ d _ => UserIdValid u && ParamLengthValid n 128 && ParamLengthValid d 256
  | AqRenameBlob u b n => UserIdValid u && BlobIdValid b && ParamLengthValid n 128
  | AqDeleteBlob u b | AqResizeBlob u b _ | AqQueryBlob u b => UserIdValid u && BlobIdValid b
  | AqDeleteUser u | AqQueryUser u | AqListBlobs u => UserIdValid u
  | AqListUsers _ | AqQuerySet _ => true
  end.

(** The reply made of the answer of an extent manager. *)
Definition relayed {A B} (f : B -> A) (r : RpcOutcome B) : Response A :=
  match r with
  | RpcFailed text => mkResponse CYPRE_ER_NET_ERROR (Some text) None
  | RpcDone resp => if r_code resp =? 0 then mkResponse CYPRE_OK None (f <$> r_body resp)
                    else mkResponse (r_code resp) (r_message resp) None
  end.

Section Theorems.
Context `{AccessEnv W} (good : W -> Prop) (home : string -> option SetRoute) (port_of : string -> Z).
Context `{!AccessLaws W good home port_of}.
Implicit Types (a : Access) (w : W).

Record access_ok a : Prop := {
  ao_sets : forall id r, set_map_ a !! id = Some r -> route_port r = port_of (route_ip r);
  ao_channels : forall ip ch, em_channel_map_ a !! ip = Some ch -> ch = em_address ip (port_of ip);
  ao_users : forall u r, user_map_ a !! u = Some r -> home u = Some r
}.

(** The set manager is asked for a user that is not known yet. *)
Definition asked a w (u : string) w' : Prop :=
  match user_map_ a !! u with Some _ => w' = w | None => exists r, sm_query w u = (r, w') end.

Lemma GetChannel_ok a w ip port ch a' :
  access_ok a -> port = port_of ip -> GetChannel a w ip port = (ch, a') ->
  access_ok a' /\ set_map_ a' = set_map_ a /\ user_map_ a' = user_map_ a /\
  match ch with Some ch => ch = em_address ip port | None => channel_init w (em_address ip port) = false end.
Proof.
  intros Hok -> . unfold GetChannel, InitChannel.
  destruct (em_channel_map_ a !! ip) as [c|] eqn:E.
  { intros [= <- <-]. split_and!; try done. by apply (ao_channels a Hok). }
  destruct (channel_init w _) eqn:Ei; intros [= <- <-]; [|done]. split_and!; try done.
  constructor; cbn; [apply Hok| |apply Hok].
  intros ip' c' [[<- <-]|[_ Hc]]%lookup_insert_Some; [done|by apply (ao_channels a Hok)].
Qed.

Lemma QueryUserSet_ok a w u ret route a' w' :
  access_ok a -> good w -> QueryUserSet a w u = (ret, route, a', w') ->
  access_ok a' /\ asked a w u w' /\ (st_code ret = CYPRE_OK -> home u = Some route).
Proof.
  intros Hok Hw. unfold QueryUserSet, asked. destruct (user_map_ a !! u) as [r|] eqn:E.
  { intros [= <- <- <- <-]. split_and!; try done. intros _. by apply (ao_users a Hok). }
  unfold SetMgr_QuerySet. destruct (sm_query w u) as [r w1] eqn:Eq.
  assert (Hr : st_code (call_result r).1 = CYPRE_OK -> exists r', (call_result r).2 = Some r' /\ home u = Some r').
  { destruct r as [text|resp]; [done|]. cbn [call_result]. destruct (Z.eqb_spec (r_code resp) 0) as [E0|E0]; cbn.
    - intros _. by apply (query_home w u resp w1).
    - intros ?. by destruct E0. }
  destruct (call_result r) as [st rt]. cbn in Hr. destruct (Z.eqb_spec (st_code st) CYPRE_OK) as [E0|E0].
  - destruct (Hr E0) as (r' & -> & Hh). intros [= <- <- <- <-]. split_and!; [|by exists r|done].
    constructor; cbn; [apply Hok..|]. intros u' r1 [[<- <-]|[_ Hl]]%lookup_insert_Some; [done|by apply (ao_users a Hok)].
  - intros [= <- <- <- <-]. split_and!; [done|by exists r|done].
Qed.

Lemma call_result_reply {A B} (f : B -> A) (r : RpcOutcome B) :
  mkResponse (st_code (call_result r).1) (st_message (call_result r).1)
    (if st_code (call_result r).1 =? CYPRE_OK then f <$> (call_result r).2 else None) = relayed f r.
Proof.
  destruct r as [text|resp]; [done|]. cbn [call_result relayed].
  destruct (Z.eqb_spec (r_code resp) 0) as [E|E]; [done|]. cbn. change CYPRE_OK with 0. by rewrite (proj2 (Z.eqb_neq _ _) E).
Qed.

(** What a call for a user does. *)
Definition user_served {A B} a w (u : string) (rq : EmReq B) (f : B -> A) (resp : Response A) w' : Prop :=
  (exists route w1 r, home u = Some route /\ asked a w u w1 /\
     em_call w1 (em_address (route_ip route) (route_port route)) rq = (r, w') /\ resp = relayed f r) \/
  (r_code resp <> CYPRE_OK /\ asked a w u w').

Lemma forward_ok {A} a w route (rq : EmReq A) st body a' w' :
  access_ok a -> route_port route = port_of (route_ip route) -> forward a w route rq = (st, body, a', w') ->
  access_ok a' /\
  ((exists r, em_call w (em_address (route_ip route) (route_port route)) rq = (r, w') /\ (st, body) = call_result r) \/
   (st = no_channel /\ body = None /\ w' = w)).
Proof.
  intros Hok Hp. unfold forward. destruct (GetChannel _ _ _ _) as [ch a1] eqn:Eg.
  destruct (GetChannel_ok _ _ _ _ _ _ Hok Hp Eg) as (Hok1 & _ & _ & Hch). destruct ch as [ch|].
  - subst ch. destruct (em_call w _ rq) as [r w1] eqn:Ec. destruct (call_result r) as [st1 b1] eqn:Er.
    intros [= <- <- <- <-]. split; [done|]. left. by exists r.
  - intros [= <- <- <- <-]. split; [done|]. by right.
Qed.

Lemma user_call_ok {A B} a w u (rq : EmReq B) (f : B -> A) st body a' w' :
  access_ok a -> good w -> user_call a w u rq = (st, body, a', w') ->
  access_ok a' /\
  user_served a w u rq f
    (mkResponse (st_code st) (st_message st) (if st_code st =? CYPRE_OK then f <$> body else None)) w'.
Proof.
  intros Hok Hw. unfold user_call. destruct (QueryUserSet a w u) as [[[ret route] a1] w1] eqn:Eq.
  destruct (QueryUserSet_ok _ _ _ _ _ _ _ Hok Hw Eq) as (Hok1 & Hasked & Hhome).
  destruct (Z.eqb_spec (st_code ret) CYPRE_OK) as [E|E]; cbn [negb].
  - specialize (Hhome E). intros Hf. apply forward_ok in Hf as [Hok2 Hf]; [|done|by eapply home_port].
    split; [done|]. destruct Hf as [(r & Hc & Hr)|(-> & -> & ->)].
    + left. exists route, w1, r. split_and!; try done.
      replace st with (call_result r).1 by (by rewrite <- Hr). replace body with (call_result r).2 by (by rewrite <- Hr).
      apply call_result_reply.
    + by right.
  - intros [= <- <- <- <-]. split; [done|]. by right.
Qed.

Lemma DeleteUserSetCache_ok a u : access_ok a -> access_ok (DeleteUserSetCache a u).
Proof.
  intros [Hs Hc Hu]. constructor; cbn; [done..|]. intros u' r [_ Hl]%lookup_delete_Some. by apply Hu.
Qed.

(** A request whose arguments are not accepted changes nothing and reaches no
    server. *)
Lemma serve_refused {A} a w (rq : AccReq A) : accepted rq = false ->
  exists msg, serve a w rq = (mkResponse CYPRE_ER_INVALID_ARGUMENT (Some msg) None, a, w).
Proof.
  destruct rq; cbn [accepted]; intros E; try done; cbn [serve];
    unfold Access_CreateUser, Access_DeleteUser, Access_UpdateUser, Access_QueryUser, Access_CreateBlob,
      Access_DeleteBlob, Access_RenameBlob, Access_ResizeBlob, Access_QueryBlob, Access_ListBlobs;
    rewrite ?(proj2 (negb_true_iff _) E), <- ?negb_orb, <- ?negb_andb, ?E; cbn; by eexists.
Qed.

Lemma serve_scoped {A} a w (rq : AccReq A) sc resp a' w' :
  access_ok a -> good w -> accepted rq = true -> scoped rq = Some sc -> serve a w rq = (resp, a', w') ->
  access_ok a' /\ user_served a w (sc_user sc) (sc_request sc) (sc_result sc) resp w'.
Proof.
  intros Hok Hw Hacc Hsc.
  assert (Huser : forall u B (q : EmReq B) (f : B -> A) st body a1 w1,
    user_call a w u q = (st, body, a1, w1) ->
    access_reply (st, f <$> body, a1, w1) = (resp, a', w') -> access_ok a' /\ user_served a w u q f resp w').
  { intros u B q f st body a1 w1 Hu Hr. destruct (user_call_ok a w u q f _ _ _ _ Hok Hw Hu) as [Hok1 Hs].
    cbn in Hr. by injection Hr as <- <- <-. }
  destruct rq; cbn [scoped] in Hsc; try done; injection Hsc as <-; cbn [serve sc_user sc_request sc_result];
    cbn [accepted] in Hacc;
    unfold Access_DeleteUser, Access_UpdateUser, Access_QueryUser, Access_CreateBlob,
      Access_DeleteBlob, Access_RenameBlob, Access_ResizeBlob, Access_QueryBlob, Access_ListBlobs;
    rewrite <- ?negb_andb, <- ?negb_orb, <- ?negb_andb, ?Hacc; cbn [negb];
    destruct (user_call _ _ _ _) as [[[st body] a1] w1] eqn:Hu; intros Hr;
    try (apply (Huser _ _ _ _ st body a1 w1 Hu); rewrite ?option_fmap_id; exact Hr).
  destruct (user_call_ok a w _ _ id _ _ _ _ Hok Hw Hu) as [Hok1 Hs]. rewrite option_fmap_id in Hs.
  destruct (st_code st =? CYPRE_OK) eqn:E; cbn in Hr; rewrite E in Hr; injection Hr as <- <- <-;
    auto using DeleteUserSetCache_ok.
Qed.

Lemma QuerySetById_ok a id : access_ok a ->
  st_code (QuerySetById a id).1 = CYPRE_OK ->
  exists r, (QuerySetById a id).2 = Some r /\ route_port r = port_of (route_ip r).
Proof.
  intros Hok. unfold QuerySetById. destruct (set_map_ a !! id) as [r|] eqn:E; [|done].
  intros _. exists r. split; [done|]. by eapply (ao_sets a Hok).
Qed.

Lemma AllocateSet_ok w name type st route w' :
  good w -> SetMgr_AllocateSet w name type = (st, route, w') -> st_code st = CYPRE_OK ->
  exists r, route = Some r /\ route_port r = port_of (route_ip r).
Proof.
  intros Hw. unfold SetMgr_AllocateSet. destruct (sm_allocate w name type) as [r w1] eqn:Ea.
  destruct r as [text|resp]; cbn [call_result]; [by intros [= <- <- <-]|].
  destruct (Z.eqb_spec (r_code resp) 0) as [E|E]; cbn; intros [= <- <- <-]; [|by intros ?].
  intros _. by apply (alloc_port w name type resp w1).
Qed.

Lemma CreateUser_ok a w n e c sid p t st body a' w' :
  access_ok a -> good w -> Access_CreateUser a w n e c sid p t = (st, body, a', w') -> access_ok a'.
Proof.
  intros Hok Hw. unfold Access_CreateUser. destruct (_ || _); [by intros [= <- <- <- <-]|].
  destruct (if 0 <? sid then _ else _) as [[ret route] w1] eqn:Er.
  destruct (Z.eqb_spec (st_code ret) CYPRE_OK) as [E|E]; cbn [negb]; [|by intros [= <- <- <- <-]].
  assert (Hr : exists r, route = Some r /\ route_port r = port_of (route_ip r)).
  { destruct (0 <? sid); [|by eapply AllocateSet_ok]. pose proof (QuerySetById_ok a sid Hok) as Hq.
    destruct (QuerySetById a sid). injection Er as -> -> ->. by apply Hq. }
  destruct Hr as (r & -> & Hp). cbn [default]. destruct (GetChannel _ _ _ _) as [ch a1] eqn:Eg.
  destruct (GetChannel_ok _ _ _ _ _ _ Hok Hp Eg) as (Hok1 & _).
  destruct ch as [ch|]; [|by intros [= <- <- <- <-]]. destruct (em_call _ _ _) as [[text|resp] w2]; [by intros [= <- <- <- <-]|].
  destruct (negb _); by intros [= <- <- <- <-].
Qed.

Lemma UpdateSets_ok a w : access_ok a -> good w -> access_ok (UpdateSets a w).1.
Proof.
  intros Hok Hw. unfold UpdateSets. destruct (sm_list w) as [r w1] eqn:El. cbn.
  set (sets := match r with RpcFailed _ => [] | RpcDone resp => _ end).
  assert (Hsets : Forall (fun r => route_port r = port_of (route_ip r)) sets).
  { subst sets. destruct r as [text|resp]; [constructor|]. by eapply list_port. }
  constructor; cbn; [|apply Hok..]. clearbody sets. clear r El.
  induction sets as [|r sets IH] using rev_ind; intros id x; [cbn [foldl]; by intros ?%lookup_empty_Some|].
  apply Forall_app in Hsets as [Hs Hr]. rewrite foldl_app. cbn [foldl].
  intros [[_ <-]|[_ Hx]]%lookup_insert_Some; [by apply Forall_cons in Hr as [? _]|by eapply IH].
Qed.

(** The steps of the service: it serves a request, or refreshes its sets, in
    whatever good state the rest of the system is. *)
Inductive access_step a : Access -> Prop :=
  | step_serve A (rq : AccReq A) w resp a' w' : good w -> serve a w rq = (resp, a', w') -> access_step a a'
  | step_refresh w : good w -> access_step a (UpdateSets a w).1.

Lemma serve_ok {A} a w (rq : AccReq A) resp a' w' :
  access_ok a -> good w -> serve a w rq = (resp, a', w') -> access_ok a'.
Proof.
  intros Hok Hw Hs. destruct (accepted rq) eqn:Ea.
  2: { destruct (serve_refused a w rq Ea) as (msg & E). rewrite E in Hs. by injection Hs as _ <- _. }
  destruct (scoped rq) as [sc|] eqn:Esc; [by apply (serve_scoped a w rq sc resp a' w')|].
  destruct rq; try done; cbn [serve] in Hs.
  - destruct (Access_CreateUser _ _ _ _ _ _ _ _) as [[[st b] a1] w1] eqn:E. injection Hs as _ <- _. by eapply CreateUser_ok.
  - unfold Access_ListUsers in Hs. pose proof (QuerySetById_ok a set_id Hok) as Hq.
    destruct (QuerySetById a set_id) as [ret route]. cbn in Hq.
    destruct (Z.eqb_spec (st_code ret) CYPRE_OK) as [E|E]; cbn [negb] in Hs; [|by injection Hs as _ <- _].
    destruct (Hq E) as (r & -> & Hp). cbn [default] in Hs.
    destruct (forward _ _ _ _) as [[[st b] a1] w1] eqn:Ef. injection Hs as _ <- _. by eapply forward_ok.
  - unfold SetMgr_QuerySet in Hs. destruct (sm_query w user_id) as [r w1]. destruct (call_result r). by injection Hs as _ <- _.
Qed.

Lemma access_reach_ok a : rtc access_step Access_new a -> access_ok a.
Proof.
  apply (rtc_ind_r access_ok); [by constructor; cbn; intros ? ? ?%lookup_empty_Some|].
  intros a1 a2 _ Hstep Hok; destruct Hstep as [A rq w resp a' w' Hw Hs|w Hw]; [by eapply serve_ok|by apply UpdateSets_ok].
Qed.
End Theorems.

