(* ===== verification/AccessSystem.v ===== *)
(** * Access service, set manager and extent managers together

    A deployment: the registry of the set manager (SetManager.v) and the states
    of the extent managers (Services.v) by their address.  It implements the
    network of the access service ([AccessEnv]) and keeps its laws
    ([AccessLaws]), so the theorems on the access service hold of the whole; a
    user created through it is found through it. *)

From Stdlib Require Import Ascii.
From S2P Require Import Prelude Status Codec KvStore Persist Enums Net Blob User RouterMgr Pool Services ServicesTheorems SetManager Access AccessTheorems.

#[local] Open Scope string_scope.
#[local] Open Scope Z_scope.

(** [d_uuids]: what [UUID::Generate] returns during the calls to come. *)
Record Deployment (DB : Type) : Type := mkDeployment {
  d_now : Z;
  d_date : string;
  d_uuids : list (list string);
  d_sets : SetMap;
  d_ems : gmap string (EmState DB)
}.
Arguments mkDeployment {DB}.
Arguments d_now {DB}.
Arguments d_date {DB}.
Arguments d_uuids {DB}.
Arguments d_sets {DB}.
Arguments d_ems {DB}.

Section Deployment.
Context `{RocksDB DB} `{Crc32c} (cfg : EmCfg) (smcfg : SmCfg).
Implicit Types w : Deployment DB.

(** The handler of a request. *)
Definition em_serve {A} (s : EmState DB) (date : string) (uuids : list string) (rq : EmReq A)
  : option (Response A * EmState DB) :=
  match rq with
  | RqCreateUser n e c => CreateUser s uuids date n e c
  | RqDeleteUser u => Some (DeleteUser s u)
  | RqUpdateUser u n e c => Some (UpdateUser s date u n e c)
  | RqQueryUser u => Some (QueryUser s u, s)
  | RqListUsers => Some (ListUsers s, s)
  | RqCreateBlob u n size t i d p => CreateBlob cfg s uuids date u n size t i d p
  | RqDeleteBlob u b => Some (DeleteBlob s u b)
  | RqRenameBlob u b n => Some (RenameBlob s date u b n)
  | RqResizeBlob u b size => ResizeBlob cfg s date u b size
  | RqQueryBlob b => Some (QueryBlob cfg s b, s)
  | RqListBlobs u => Some (ListBlobs s u, s)
  end.

Definition set_address (s : PbSet) : string := em_address (pb_set_em_ip s) (pb_set_em_port s).

(** The answer of a set's extent manager to the set manager's query. *)
Definition query_outcome w (u : string) (s : PbSet) : QueryOutcome :=
  match d_ems w !! set_address s with
  | None => CallFailed
  | Some em => Answered (r_code (QueryUser em u))
  end.

(** A server that is not there, or does not answer, times out. *)
#[export] Instance Deployment_env : AccessEnv (Deployment DB) := {|
  channel_init _ _ := true;
  em_call A w addr rq :=
    match d_ems w !! addr with
    | None => (RpcFailed "timeout", w)
    | Some s =>
        match em_serve s (d_date w) (default [] (head (d_uuids w))) rq with
        | None => (RpcFailed "timeout", w)
        | Some (resp, s) =>
            (RpcDone resp, mkDeployment (d_now w) (d_date w) (tail (d_uuids w)) (d_sets w) (<[addr := s]> (d_ems w)))
        end
    end;
  sm_query w u :=
    match Set_Query smcfg (d_now w) (map_to_list (d_sets w)) (query_outcome w u) with
    | None => (RpcFailed "timeout", w)
    | Some resp => (RpcDone resp, w)
    end;
  sm_allocate w _ type := (RpcDone (Set_Allocate smcfg (d_now w) (d_sets w) (map_to_list (d_sets w)) (Some type)), w);
  sm_list w := (RpcDone (Set_List smcfg (d_now w) (d_sets w) (map_to_list (d_sets w))), w)
|}.

Context (home : string -> option SetRoute) (port_of : string -> Z).
Hypothesis Hhome : forall u r, home u = Some r -> route_port r = port_of (route_ip r).

(** One extent manager on a host, and a user only in the set [home] says. *)
Record deployed w : Prop := {
  dp_port : forall id i, d_sets w !! id = Some i ->
    pb_set_em_port (pb_set i) = port_of (pb_set_em_ip (pb_set i));
  dp_home : forall id i em u, d_sets w !! id = Some i -> d_ems w !! set_address (pb_set i) = Some em ->
    r_code (QueryUser em u) = 0 -> home u = Some (ToPbSetRoute (pb_set i))
}.

Lemma ListSets_registered w i :
  i ∈ ListSets smcfg (d_now w) (map_to_list (d_sets w)) -> exists id, d_sets w !! id = Some i.
Proof. intros (id & Hin%elem_of_map_to_list & _)%ListSets_fresh. by exists id. Qed.

Lemma Set_Query_Some w u resp :
  Set_Query smcfg (d_now w) (map_to_list (d_sets w)) (query_outcome w u) = Some resp -> r_code resp = 0 ->
  exists id i, d_sets w !! id = Some i /\ r_body resp = Some (ToPbSetRoute (pb_set i)) /\
    query_outcome w u (pb_set i) = Answered 0.
Proof.
  unfold Set_Query. intros (j & Hj & Hq)%bind_Some. destruct (Z.ltb_spec j 0) as [|Hj0]; [by injection Hq as <-|].
  apply bind_Some in Hq as (i & Hi & [= <-]). intros _.
  destruct (BroadcastRequest_found _ _ _ _ Hj ltac:(lia)) as [? |(i' & Hi' & _ & Ho)]; [lia|].
  rewrite Z.sub_0_r in Hi'. assert (i' = i) as -> by congruence.
  destruct (ListSets_registered w i (list_elem_of_lookup_2 _ _ _ Hi)) as [id Hid]. by exists id, i.
Qed.

Lemma query_outcome_answered w u s c : query_outcome w u s = Answered c ->
  exists em, d_ems w !! set_address s = Some em /\ r_code (QueryUser em u) = c.
Proof. unfold query_outcome. destruct (d_ems w !! _) as [em|]; [|done]. intros [= <-]. by exists em. Qed.

#[export] Instance Deployment_laws : AccessLaws (Deployment DB) deployed home port_of.
Proof.
  constructor.
  - intros w u resp w' Hw. cbn. destruct (Set_Query _ _ _ _) as [r|] eqn:E; [|done]. intros [= -> <-] Hc.
    destruct (Set_Query_Some w u resp E Hc) as (id & i & Hi & Hb & (em & He & Hq)%query_outcome_answered).
    exists (ToPbSetRoute (pb_set i)). split; [done|]. by eapply (dp_home w Hw).
  - exact Hhome.
  - intros w name type resp w' Hw [= <- <-]. unfold Set_Allocate. destruct (negb _); [done|]. destruct (_ =? _); [done|].
    destruct (AllocateSet _ _ _ _ _) as [i|] eqn:E; [|done]. destruct (set_empty _); [done|]. intros _.
    apply AllocateSet_fresh in E as (id & ? & Hi & _); [|done]. eexists. split; [done|]. by eapply (dp_port w Hw).
  - intros w resp w' Hw [= <- <-]. unfold Set_List. destruct (negb _); [constructor|]. cbn.
    apply Forall_fmap, Forall_forall. intros i [id Hi]%ListSets_registered. by eapply (dp_port w Hw).
Qed.
End Deployment.

(** ** Identifiers *)

(** What [UUID::Generate] returns: letters, digits and dashes, at most 59 of
    them. *)
Definition uuid_ok (uuid : string) : Prop :=
  some_chars (fun c => is_word c || Ascii.eqb c "-") uuid = true /\ slen uuid <= 59.

Lemma prefixed_app lit f s : prefixed lit f (lit +:+ s) = some_chars f s.
Proof. induction lit as [|c lit IH]; cbn; [by destruct s|]. by rewrite Ascii.eqb_refl. Qed.

Lemma UserIdValid_uuid uuid : uuid_ok uuid -> UserIdValid (kUserIdPrefix +:+ uuid) = true.
Proof.
  intros [Hc Hl]. unfold UserIdValid, RegexUtil.UserIdValid. rewrite (prefixed_app kUserIdPrefix), Hc. cbn [andb].
  apply Z.leb_le. rewrite slen_app. change (slen kUserIdPrefix) with 5. unfold USERID_LIMIT. lia.
Qed.

Lemma BlobIdValid_uuid uuid : uuid_ok uuid -> BlobIdValid (kBlobIdPrefix +:+ uuid) = true.
Proof.
  intros [Hc Hl]. unfold BlobIdValid, RegexUtil.BlobIdValid. rewrite (prefixed_app kBlobIdPrefix), Hc. cbn [andb].
  apply Z.leb_le. rewrite slen_app. change (slen kBlobIdPrefix) with 3. unfold BLOBID_LIMIT. lia.
Qed.

Lemma gen_userid_uuid m uuids id : gen_userid m uuids = Some id -> exists uuid, uuid ∈ uuids /\ id = kUserIdPrefix +:+ uuid.
Proof.
  induction uuids as [|uuid uuids IH]; [done|]. cbn [gen_userid]. destruct (m !! _) as [x|].
  - intros (u & ? & ?)%IH. exists u. by split; [right|].
  - intros [= <-]. exists uuid. by split; [left|].
Qed.

Section Found.
Context `{RocksDB DB} `{Crc32c}.

Lemma CreateUser_spec (s : EmState DB) uuids now n e c resp s' :
  CreateUser s uuids now n e c = Some (resp, s') -> r_code resp = CYPRE_OK ->
  exists uuid, uuid ∈ uuids /\ r_body resp = Some (kUserIdPrefix +:+ uuid) /\
    em_users s' !! (kUserIdPrefix +:+ uuid) = Some (User_new now (kUserIdPrefix +:+ uuid) n e c (em_set_id s)).
Proof.
  unfold CreateUser. destruct (_ || _); [by intros [= <- <-]|].
  intros ([[[st db] users] uid] & Hc & Hr)%bind_Some. unfold create_user in Hc.
  destruct (username_exist _ _); [injection Hc as <- <- <- <-; by injection Hr as <- <-|].
  apply bind_Some in Hc as (id & Hid & Hc). destruct (RocksStore_Put _ _ _) as [ks d].
  destruct (RocksStatus_ok ks); cbn [negb] in Hc; injection Hc as <- <- <- <-; [|by injection Hr as <- <-].
  injection Hr as <- <-. intros _. apply gen_userid_uuid in Hid as (uuid & Hin & ->).
  exists uuid. split_and!; [done|done|]. cbn. by rewrite lookup_insert_eq.
Qed.

Lemma QueryUser_found (s : EmState DB) u user :
  u <> "" -> em_users s !! u = Some user -> u_status_ user = kUserStatusCreated ->
  QueryUser s u = mkResponse CYPRE_OK None (Some (ToPbUser user)).
Proof.
  intros Hu Hm Hs. unfold QueryUser, query_user, str_empty. rewrite (proj2 (String.eqb_neq _ _) Hu), Hm, Hs. done.
Qed.

Lemma CreateBlob_uuid cfg (s : EmState DB) uuids now u n size t i d p resp s' b :
  CreateBlob cfg s uuids now u n size t i d p = Some (resp, s') -> r_body resp = Some b ->
  exists uuid, uuid ∈ uuids /\ b = kBlobIdPrefix +:+ uuid.
Proof.
  unfold CreateBlob. destruct (_ || _); [by intros [= <- <-]|]. destruct (negb _); [by intros [= <- <-]|].
  set (pool := if str_empty p then _ else p). destruct (str_empty pool); [by intros [= <- <-]|].
  intros ([[[[st db] pools] id] rgs] & Hc & Hr)%bind_Some. unfold pm_create_blob in Hc.
  apply bind_Some in Hc as (bid & (_ & Huuid)%allocate_blobid_fresh & Hc).
  assert (ok st = true -> id = bid) as Hb.
  { destruct (find_status _ _ _); [|injection Hc as <- <- <- <- <-; done].
    destruct (create_blob _ _ _ _ _ _ _ _ _ _ _) as [[st1 db1] blobs].
    destruct (ok st1) eqn:E1; cbn [negb] in Hc; [|injection Hc as <- <- <- <- <-; congruence].
    repeat (apply bind_Some in Hc as (? & _ & Hc)).
    by destruct_and?; repeat case_match; simplify_eq. }
  destruct (ok st); cbn [negb] in Hr; [|by injection Hr as <- <-]. rewrite (Hb eq_refl) in Hr.
  destruct (UserManager_add_pool _ _ _) as [st2 users]. apply bind_Some in Hr as (q & _ & Hr).
  apply bind_Some in Hr as ([st3 db3] & _ & Hr). destruct (ok st3); cbn [negb] in Hr; injection Hr as <- <-; [|done].
  intros [= <-]. done.
Qed.
End Found.

(** C40: the identifiers that an extent manager makes for users and blobs from
    well-formed uuids are accepted by the argument checks of the access service. *)
Theorem generated_ids_accepted `{RocksDB DB} `{Crc32c} cfg (s s' : EmState DB) uuids now :
  Forall uuid_ok uuids ->
  (forall n e c resp u, CreateUser s uuids now n e c = Some (resp, s') -> r_code resp = CYPRE_OK ->
     r_body resp = Some u -> UserIdValid u = true) /\
  (forall u n size t i d p resp b, CreateBlob cfg s uuids now u n size t i d p = Some (resp, s') ->
     r_body resp = Some b -> BlobIdValid b = true).
Proof.
  intros Hu. rewrite Forall_forall in Hu. split.
  - intros n e c resp u Hc Hcode Hb. destruct (CreateUser_spec _ _ _ _ _ _ _ _ Hc Hcode) as (uuid & Hin & Hb' & _).
    rewrite Hb' in Hb. injection Hb as <-. by apply UserIdValid_uuid, Hu.
  - intros u n size t i d p resp b Hc Hb. destruct (CreateBlob_uuid _ _ _ _ _ _ _ _ _ _ _ _ _ _ Hc Hb) as (uuid & Hin & ->).
    by apply BlobIdValid_uuid, Hu.
Qed.

(** ** Through the whole system *)

Section Whole.
Context `{RocksDB DB} `{Crc32c} (cfg : EmCfg) (smcfg : SmCfg) (home : string -> option SetRoute) (port_of : string -> Z).
Hypothesis Hhome : forall u r, home u = Some r -> route_port r = port_of (route_ip r).
Implicit Types w : Deployment DB.
#[local] Existing Instance Deployment_env.

(** What a successful creation through the access service did. *)
Lemma CreateUser_through a w n e c sid pool type resp a1 w1 u :
  access_ok home port_of a -> deployed home port_of w -> sid <= 0 ->
  serve (H := Deployment_env cfg smcfg) a w (AqCreateUser n e c sid pool type) = (resp, a1, w1) ->
  r_code resp = CYPRE_OK -> r_body resp = Some u -> u <> "" ->
  exists id i em uuid, d_sets w1 !! id = Some i /\ d_ems w1 !! set_address (pb_set i) = Some em /\
    u = kUserIdPrefix +:+ uuid /\ uuid ∈ default [] (head (d_uuids w)) /\
    exists set_id, em_users em !! u = Some (User_new (d_date w) u n e c set_id).
Proof.
  intros Hok Hw Hsid. cbn [serve]. unfold Access_CreateUser.
  destruct (_ || _); [by intros [= <- <- <-]|]. rewrite (proj2 (Z.ltb_ge _ _) Hsid).
  unfold SetMgr_AllocateSet, sm_allocate, Deployment_env at 1. unfold Set_Allocate.
  destruct (negb (Available _ _)); [by intros [= <- <- <-]|]. destruct (_ =? POOL_TYPE_UNKNOWN); [by intros [= <- <- <-]|].
  destruct (AllocateSet _ _ _ _ _) as [i|] eqn:Ea; [|by intros [= <- <- <-]].
  destruct (set_empty _); [by intros [= <- <- <-]|]. apply AllocateSet_fresh in Ea as (id & ? & Hi & _); [|done].
  cbn. destruct (GetChannel _ _ _ _) as [ch a2] eqn:Eg.
  destruct (GetChannel_ok home port_of _ _ _ _ _ _ Hok (dp_port _ _ w Hw id i Hi) Eg) as (_ & _ & _ & Hch).
  destruct ch as [ch|]; [|done]. subst ch. change (em_address _ _) with (set_address (pb_set i)).
  destruct (d_ems w !! _) as [s|] eqn:Es; [|intros [= <- <- <-] _ [= <-]; done].
  destruct (CreateUser _ _ _ _ _ _) as [[r s']|] eqn:Ec; [|intros [= <- <- <-] _ [= <-]; done].
  destruct (Z.eqb_spec (r_code r) 0) as [E|E]; cbn; [|intros [= <- <- <-] E'; by destruct E].
  destruct (CreateUser_spec _ _ _ _ _ _ _ _ Ec E) as (uuid & Hin & Hb & Hm). rewrite Hb.
  intros [= <- <- <-] _ [= <-] _. exists id, i, s', uuid. cbn. split_and!; [done|by rewrite lookup_insert_eq|done|done|by eexists].
Qed.

(** The set manager names the home of a user that one of its sets has. *)
Lemma Set_Query_finds w id i em u :
  deployed home port_of w -> all_fresh smcfg (d_now w) (d_sets w) -> d_sets w !! id = Some i ->
  d_ems w !! set_address (pb_set i) = Some em -> r_code (QueryUser em u) = 0 ->
  exists resp, Set_Query smcfg (d_now w) (map_to_list (d_sets w)) (query_outcome w u) = Some resp /\ r_code resp = 0.
Proof.
  intros Hw Hf Hi He Hq. unfold Set_Query.
  assert (Hall : ListSets smcfg (d_now w) (map_to_list (d_sets w)) = (map_to_list (d_sets w)).*2).
  { apply ListSets_all. intros id' i' Hin%elem_of_map_to_list. by apply (Hf id'). }
  assert (Hin : i ∈ ListSets smcfg (d_now w) (map_to_list (d_sets w))).
  { rewrite Hall. apply list_elem_of_fmap. exists (id, i). split; [done|]. by apply elem_of_map_to_list. }
  assert (Ho : query_outcome w u (pb_set i) = Answered 0) by (unfold query_outcome; by rewrite He, Hq).
  assert (Hb : exists j s, 0 <= j /\ BroadcastRequest (query_outcome w u) (ListSets smcfg (d_now w) (map_to_list (d_sets w))) 0 = Some j /\
             ListSets smcfg (d_now w) (map_to_list (d_sets w)) !! Z.to_nat j = Some s).
  { clear Hall. apply (BroadcastRequest_answered _ _ i); [intros s; unfold query_outcome; case_match; congruence|done|done]. }
  destruct Hb as (j & s & Hj & Hb & Hs). rewrite Hb. cbn [mbind option_bind].
  rewrite (proj2 (Z.ltb_ge _ _) Hj), Hs. by eexists.
Qed.

Lemma QueryUserSet_finds a w id i em u :
  access_ok home port_of a -> deployed home port_of w -> all_fresh smcfg (d_now w) (d_sets w) ->
  d_sets w !! id = Some i -> d_ems w !! set_address (pb_set i) = Some em -> r_code (QueryUser em u) = 0 ->
  exists ret a', QueryUserSet (H := Deployment_env cfg smcfg) a w u = (ret, ToPbSetRoute (pb_set i), a', w) /\
    st_code ret = CYPRE_OK /\ access_ok home port_of a'.
Proof.
  intros Hok Hw Hf Hi He Hq.
  pose proof (Deployment_laws cfg smcfg home port_of Hhome) as Hlaws.
  destruct (QueryUserSet (H := Deployment_env cfg smcfg) a w u) as [[[ret route] a'] w'] eqn:Eq.
  destruct (QueryUserSet_ok (deployed home port_of) home port_of _ _ _ _ _ _ _ Hok Hw Eq) as (Hok' & _ & Hr).
  assert (Hh : home u = Some (ToPbSetRoute (pb_set i))) by (by eapply (dp_home _ _ w Hw)).
  assert (Hret : st_code ret = CYPRE_OK /\ w' = w).
  { unfold QueryUserSet in Eq. destruct (user_map_ a !! u); [by injection Eq as <- <- <- <-|].
    unfold SetMgr_QuerySet, sm_query, Deployment_env in Eq.
    destruct (Set_Query_finds _ _ _ _ _ Hw Hf Hi He Hq) as (resp & Es & Ec). rewrite Es in Eq.
    cbn [call_result] in Eq. rewrite Ec in Eq. by injection Eq as <- <- <- <-. }
  destruct Hret as [Hret ->]. specialize (Hr Hret). rewrite Hh in Hr. injection Hr as <-. by exists ret, a'.
Qed.

(** The user's record is found, whatever the service has cached. *)
Lemma QueryUser_through a w id i em u user :
  access_ok home port_of a -> deployed home port_of w -> all_fresh smcfg (d_now w) (d_sets w) ->
  d_sets w !! id = Some i -> d_ems w !! set_address (pb_set i) = Some em ->
  UserIdValid u = true -> u <> "" -> em_users em !! u = Some user -> u_status_ user = kUserStatusCreated ->
  exists a' w', serve (H := Deployment_env cfg smcfg) a w (AqQueryUser u)
    = (mkResponse CYPRE_OK None (Some (ToPbUser user)), a', w').
Proof.
  intros Hok Hw Hf Hi He Hv Hu Hm Hs. pose proof (QueryUser_found em u user Hu Hm Hs) as Hq.
  destruct (QueryUserSet_finds a w id i em u Hok Hw Hf Hi He) as (ret & a1 & E1 & Hc & Hok1); [by rewrite Hq|].
  cbn [serve]. unfold Access_QueryUser. rewrite Hv. cbn [negb]. unfold user_call. rewrite E1, Hc. cbn [negb Z.eqb].
  unfold forward. destruct (GetChannel _ _ _ _) as [ch a2] eqn:Eg.
  destruct (GetChannel_ok home port_of _ _ _ _ _ _ Hok1 (dp_port _ _ w Hw id i Hi) Eg) as (_ & _ & _ & Hch).
  destruct ch as [ch|]; [|done]. subst ch. cbn. change (em_address _ _) with (set_address (pb_set i)).
  rewrite He, Hq. cbn. by eexists _, _.
Qed.
End Whole.


(** ** A small deployment *)

Section Demo.
#[local] Existing Instance example_crc.

Definition demo_set : PbSet := mkPbSet 1 "set-1" "10.0.0.1" 8000 [sample_pool 300 7].
Definition demo_sm_cfg : SmCfg := mkSmCfg 5 1.
Definition demo_home (u : string) : option SetRoute := if String.eqb u "user-x" then Some (ToPbSetRoute demo_set) else None.
Definition demo_port (ip : string) : Z := 8000.

Definition demo_deployment : Deployment MemDB :=
  mkDeployment 106 "now" [["x"]; []] (AddSet 104 ∅ demo_set)
    {[ "10.0.0.1:8000" := ExtentManager_new demo_cfg (mkMemDB ∅ []) 1 ]}.

Definition demo_after : Response string * Access * Deployment MemDB :=
  serve (H := Deployment_env demo_cfg demo_sm_cfg) Access_new demo_deployment
    (AqCreateUser "alice" "alice@jd.com" "" 0 "" POOL_TYPE_HDD).

Lemma demo_after_result :
  demo_after.1.1 = mkResponse CYPRE_OK None (Some "user-x").
Proof. vm_compute. reflexivity. Qed.

Lemma QueryUser_known `{RocksDB DB} (em : EmState DB) u : r_code (QueryUser em u) = 0 -> is_Some (em_users em !! u).
Proof.
  unfold QueryUser. destruct (str_empty u); [done|]. unfold query_user. destruct (em_users em !! u) as [x|]; [by exists x|done].
Qed.

(** The users of the deployment's extent managers. *)
Definition demo_users (w : Deployment MemDB) : bool :=
  bool_decide (map_Forall (fun _ em => map_Forall (fun u _ => u = "user-x") (em_users em)) (d_ems w)).

Lemma demo_deployed w : d_sets w = AddSet 104 ∅ demo_set -> demo_users w = true -> deployed demo_home demo_port w.
Proof.
  intros Hs Hu. apply bool_decide_eq_true_1 in Hu. constructor; rewrite Hs; unfold AddSet.
  - intros id i [[_ <-]|[_ ?%lookup_empty_Some]]%lookup_insert_Some; done.
  - intros id i em u [[_ <-]|[_ ?%lookup_empty_Some]]%lookup_insert_Some He Hq; [|done].
    apply QueryUser_known in Hq as [x Hx]. pose proof (map_Forall_lookup_1 _ _ _ _ Hu He) as Hf.
    pose proof (map_Forall_lookup_1 _ _ _ _ Hf Hx) as Hux. cbv beta in Hux. by subst u.
Qed.

Lemma demo_home_port u r : demo_home u = Some r -> route_port r = demo_port (route_ip r).
Proof. unfold demo_home. destruct (String.eqb u "user-x"); [|done]. by intros [= <-]. Qed.

Lemma demo_fresh_sets (w : Deployment MemDB) : d_sets w = AddSet 104 ∅ demo_set -> d_now w = 106 -> all_fresh demo_sm_cfg (d_now w) (d_sets w).
Proof.
  intros -> ->. unfold AddSet. intros id s [[_ <-]|[_ ?%lookup_empty_Some]]%lookup_insert_Some; done.
Qed.

Lemma demo_uuid : uuid_ok "x".
Proof. split; [done|]. unfold slen. cbn. lia. Qed.



Lemma generated_ids_accepted_witness : UserIdValid "user-x" = true.
Proof.
  pose proof (generated_ids_accepted demo_cfg (ExtentManager_new demo_cfg (mkMemDB ∅ []) 1)
    (default (ExtentManager_new demo_cfg (mkMemDB ∅ []) 1) (d_ems demo_after.2 !! "10.0.0.1:8000")) ["x"] "now") as [H _].
  - constructor; [exact demo_uuid|constructor].
  - apply (H "alice" "alice@jd.com" "" (mkResponse CYPRE_OK None (Some "user-x")) "user-x"); vm_compute; reflexivity.
Defined.

(** ** Defects *)

(** When the call that creates a user fails, the reply says OK and names the
    empty string as the user. *)
Lemma create_user_failure_ok :
  let w := mkDeployment 106 "now" [] (AddSet 104 ∅ demo_set) (∅ : gmap string (EmState MemDB)) in
  (serve (H := Deployment_env demo_cfg demo_sm_cfg) Access_new w
     (AqCreateUser "alice" "alice@jd.com" "" 0 "" POOL_TYPE_HDD)).1.1 = mkResponse CYPRE_OK (Some "timeout") (Some "").
Proof. vm_compute. reflexivity. Qed.

(** A failed refresh empties the table of sets. *)
Lemma failed_refresh_clears `{AccessEnv W} a w w' text :
  sm_list w = (RpcFailed text, w') -> set_map_ (UpdateSets a w).1 = ∅.
Proof. intros E. unfold UpdateSets. by rewrite E. Qed.

(** Channels are kept by host: a second extent manager on a host is never
    reached. *)
Lemma channel_ignores_port `{AccessEnv W} a w ip port ch :
  em_channel_map_ a !! ip = Some ch -> GetChannel a w ip port = (Some ch, a).
Proof. intros E. unfold GetChannel. by rewrite E. Qed.

(** A name that the pattern forbids is forwarded when the comment is short. *)
Lemma update_user_accepts_bad_name :
  accepted (AqUpdateUser "user-x" "a b" "" "") = true /\ UserNameValid "a b" = false.
Proof. vm_compute. split; reflexivity. Qed.
End Demo.
