(* ===== verification/Heartbeats.v ===== *)
(** * Heartbeats between the servers

    How a server joins the system: the reporter of the extent server
    (src/src/extentserver/heartbeat_reporter.cpp, extentserver.cpp) against the
    [HeartbeatService] of the extent manager (Services.v), and the report of the
    extent manager (src/src/extentmanager/extent_manager.cpp) against the set
    manager (SetManager.v). *)

From stdpp Require Import sorting.
From S2P Require Import Prelude Status Bitmap Codec KvStore ExtentLocation Enums Net StorageEngine Config EsMgr RouterMgr Pool PoolTheorems Services ServicesTheorems SetManager.

#[local] Open Scope string_scope.
#[local] Open Scope Z_scope.

(** ** Extent server *)

Inductive ExtentServerStatus : Type :=
  | kExtentServerOk | kExtentServerStarting | kExtentServerReady | kExtentServerFailed
  | kExtentServerRecovering | kExtentServerRebalancing | kExtentServerUnknown.

#[export] Instance ExtentServerStatus_eq_dec : EqDecision ExtentServerStatus.
Proof. solve_decision. Defined.

(** [ExtentServer], with [once_] of its reporter, the checks' and the location
    manager's part of its storage engine, and the capacity of its device. *)
Record EsProcess (DB : Type) : Type := mkEsProcess {
  instance_id_ : Z; instance_name_ : string; es_set_id_ : Z; es_set_name_ : string;
  pool_id_ : string; host_ : string; rack_ : string; status_ : ExtentServerStatus; once_ : bool;
  engine_ : EngineCfg; loc_mgr_ : ExtentLocationMgr SpaceAlloc DB; bdev_capacity : Z
}.
Arguments mkEsProcess {DB}.
Arguments instance_id_ {DB}.
Arguments instance_name_ {DB}.
Arguments es_set_id_ {DB}.
Arguments es_set_name_ {DB}.
Arguments pool_id_ {DB}.
Arguments host_ {DB}.
Arguments rack_ {DB}.
Arguments status_ {DB}.
Arguments once_ {DB}.
Arguments engine_ {DB}.
Arguments loc_mgr_ {DB}.
Arguments bdev_capacity {DB}.

Section ExtentServer.
Context {DB : Type}.

(** [initMyself], on a server whose storage engine is ready: the constructor
    leaves it starting, and the reporter has not been answered. *)
Definition initMyself (c : Config) (hostname : string) (e : EngineCfg) (m : ExtentLocationMgr SpaceAlloc DB)
  (capacity : Z) : EsProcess DB :=
  let id := cc_instance (common_ c) in
  let set_id := cc_set_id (common_ c) in
  mkEsProcess id ("es-" +:+ dec id) set_id (cc_set_prefix (common_ c) +:+ "-" +:+ dec set_id)
    (esc_pool_id (extentserver_ c)) hostname (esc_rack (extentserver_ c)) kExtentServerStarting false e m capacity.

Definition StorageEngine_SetExtentSize (e : EngineCfg) (extent_size : Z) : EngineCfg :=
  mkEngineCfg (engine_type_ e) (replication_type_ e) (align_size_ e) extent_size (net_ip e) (net_port e).

Definition LocMgr_SetExtentSize (m : ExtentLocationMgr SpaceAlloc DB) (extent_size : Z)
  : ExtentLocationMgr SpaceAlloc DB :=
  mkExtentLocationMgr extent_size (rocks_store_ m) (space_alloc_ m) (extent_loc_map_ m).

(** The request of [DoHeartbeatReport]. *)
Definition es_report (net : NetworkCfg) (p : EsProcess DB) : option PbExtentServer :=
  bitmap ← bitmap_alloc_ (space_alloc_ (loc_mgr_ p));
  used ← BitmapAllocator_UsedSize bitmap;
  Some (mkPbExtentServer (instance_id_ p) (instance_name_ p) used (bdev_capacity p) (pool_id_ p) (host_ p) (rack_ p)
          ES_STATUS_OK
          (mkPbEndpoint (nc_public_ip net) (nc_public_port net) (nc_private_ip net) (nc_private_port net)) "" "").

Definition set_status (p : EsProcess DB) (st : ExtentServerStatus) : EsProcess DB :=
  mkEsProcess (instance_id_ p) (instance_name_ p) (es_set_id_ p) (es_set_name_ p) (pool_id_ p) (host_ p) (rack_ p)
    st (once_ p) (engine_ p) (loc_mgr_ p) (bdev_capacity p).

(** What follows the call: [None] when it failed.  A field that the answer does
    not have is 0. *)
Definition on_answer (p : EsProcess DB) (answer : option (Response (Z * Z))) : EsProcess DB :=
  match answer with
  | None => p
  | Some response =>
      if negb (r_code response =? 0) then p
      else if negb (once_ p) then
        let extent_size := match r_body response with Some b => b.1 | None => 0 end in
        mkEsProcess (instance_id_ p) (instance_name_ p) (es_set_id_ p) (es_set_name_ p) (pool_id_ p) (host_ p) (rack_ p)
          kExtentServerReady true (StorageEngine_SetExtentSize (engine_ p) extent_size)
          (LocMgr_SetExtentSize (loc_mgr_ p) extent_size) (bdev_capacity p)
      else p
  end.

(** [Start] once [WaitEsReady] returns: the server takes requests. *)
Definition Start_serving (p : EsProcess DB) : EsProcess DB := set_status p kExtentServerOk.
End ExtentServer.

(** ** Extent manager *)

(** The options that the manager reads. *)
Definition em_cfg (c : Config) : EmCfg :=
  let e := extentmanager_ c in
  mkEmCfg (emc_extent_size e) (emc_max_block_size e) (emc_rg_per_es e) (emc_router_inst_shift e) (emc_gc_begin e)
    (emc_gc_end e).

(** The request of [ExtentManager::ReportHeartbeat]: its set, address and
    enabled pools. *)
Definition em_report {DB : Type} (c : Config) (s : EmState DB) : PbSet :=
  let set_id := cc_set_id (common_ c) in
  mkPbSet set_id (cc_set_prefix (common_ c) +:+ "-" +:+ dec set_id) (nc_public_ip (network_ c))
    (nc_public_port (network_ c)) (list_pools_pb (em_pools s) []).2.

(** ** A heartbeat of an extent server *)

Section Join.
Context `{RocksDB DB} `{Crc32c} {EDB : Type}.

(** What the manager keeps of a report. *)
Definition recorded (es : PbExtentServer) (e : ExtentServer) : Prop :=
  es_name_ e = pb_es_name es /\ ToPbEndpoint e = pb_es_endpoint es /\ es_used_ e = pb_es_size es.

Lemma create_es_recorded db ess now es st db' ess' : let ep := pb_es_endpoint es in
  create_es db ess now (pb_es_id es) (pb_es_name es) (pb_public_ip ep) (pb_public_port ep) (pb_private_ip ep)
    (pb_private_port ep) (pb_es_size es) (pb_es_capacity es) (pb_es_pool_id es) (pb_es_host es) (pb_es_rack es) =
    (st, db', ess') -> ok st = true ->
  exists e, ess' !! pb_es_id es = Some e /\ recorded es e.
Proof.
  cbn zeta. unfold create_es. destruct (ess !! _); [by intros [= <- _ _]|].
  destruct (ok (check_new_es _ _ _ _ _ _)) eqn:Ec; cbn [negb]; [|intros [= <- _ _]; congruence].
  destruct (RocksStore_Put _ _ _) as [kv db1]. destruct (RocksStatus_ok kv); cbn [negb]; [|by intros [= <- _ _]].
  intros [= <- <- <-] _. eexists. split; [apply lookup_insert_eq|]. unfold recorded, ToPbEndpoint. cbn.
  by destruct (pb_es_endpoint es).
Qed.

Lemma update_es_recorded db ess es st db' ess' : let ep := pb_es_endpoint es in
  update_es db ess (pb_es_id es) (pb_es_name es) (pb_public_ip ep) (pb_public_port ep) (pb_private_ip ep)
    (pb_private_port ep) (pb_es_size es) = (st, db', ess') -> ok st = true ->
  exists e, ess' !! pb_es_id es = Some e /\ recorded es e.
Proof.
  cbn zeta. unfold update_es. destruct (ess !! _) as [e|]; [|by intros [= <- _ _]].
  destruct (ok (check_old_es _ _ _ _ _ _)) eqn:Ec; cbn [negb]; [|intros [= <- _ _]; congruence].
  destruct (RocksStore_Put _ _ _) as [kv db1]. destruct (RocksStatus_ok kv); cbn [negb]; [|by intros [= <- _ _]].
  intros [= <- <- <-] _. apply check_old_es_ok in Ec as (Hn & Hpi & Hpp & Hvi & Hvp).
  exists (set_used e (pb_es_size es)). split; [apply lookup_insert_eq|]. split_and!; [done| |done].
  unfold ToPbEndpoint. cbn. rewrite Hpi, Hpp, Hvi, Hvp. by destruct (pb_es_endpoint es).
Qed.

Lemma ReportHeartbeat_ok cfg (s : EmState DB) now es r s' :
  ReportHeartbeat cfg s now es = (r, s') -> r_code r = CYPRE_OK ->
  (exists v, r_body r = Some (cfg_extent_size cfg, v)) /\
  exists p e, pool_map_ (em_pools s') !! pb_es_pool_id es = Some p /\
    p_es_mgr_ p !! pb_es_id es = Some e /\ recorded es e.
Proof.
  unfold ReportHeartbeat. destruct (_ || _); [by intros [= <- _]|].
  destruct (negb (pool_valid _ _)); [by intros [= <- _]|].
  destruct (if negb (pm_es_exist _ _ _) then _ else _) as [[st db] pools] eqn:E.
  destruct (ok st) eqn:Eo; cbn [negb].
  2: { intros [= <- _] Hc. unfold ok in Eo. cbn in Hc. rewrite Hc in Eo. done. }
  intros [= <- <-] _. cbn. split; [by eexists|]. destruct (negb (pm_es_exist _ _ _)).
  - unfold pm_create_es in E. destruct (find_status _ _ _) as [p|]; [|injection E as <- _ _; done].
    destruct (create_es _ _ _ _ _ _ _ _ _ _ _ _ _ _) as [[st1 db1] ess] eqn:Ec. injection E as <- <- <-.
    destruct (create_es_recorded _ _ _ _ _ _ _ Ec Eo) as (e & He & Hr).
    exists (with_ess p ess), e. split_and!; [apply lookup_insert_eq|done..].
  - unfold pm_update_es in E. destruct (find_not_disabled _ _) as [p|]; [|injection E as <- _ _; done].
    destruct (update_es _ _ _ _ _ _ _ _ _) as [[st1 db1] ess] eqn:Ec. injection E as <- <- <-.
    destruct (update_es_recorded _ _ _ _ _ _ Ec Eo) as (e & He & Hr).
    exists (with_ess p ess), e. split_and!; [apply lookup_insert_eq|done..].
Qed.

(** ** The life of an extent server *)

(** Its reports are answered by the manager in whatever state that is, or lost;
    it serves once it is ready; its requests leave the extent size alone. *)
Inductive es_step (cfg : EmCfg) (net : NetworkCfg) : EsProcess EDB -> EsProcess EDB -> Prop :=
  | es_answered p (s : EmState DB) now report :
      es_report net p = Some report ->
      es_step cfg net p (on_answer p (Some (ReportHeartbeat cfg s now report).1))
  | es_unanswered p : es_step cfg net p (on_answer p None)
  | es_serves p : status_ p <> kExtentServerStarting -> es_step cfg net p (Start_serving p)
  | es_works p m :
      extent_size_ m = extent_size_ (loc_mgr_ p) ->
      es_step cfg net p
        (mkEsProcess (instance_id_ p) (instance_name_ p) (es_set_id_ p) (es_set_name_ p) (pool_id_ p) (host_ p) (rack_ p)
           (status_ p) (once_ p) (engine_ p) m (bdev_capacity p)).

Definition agreed (cfg : EmCfg) (p : EsProcess EDB) : Prop :=
  se_extent_size_ (engine_ p) = cfg_extent_size cfg /\ extent_size_ (loc_mgr_ p) = cfg_extent_size cfg.

Definition es_inv (cfg : EmCfg) (p : EsProcess EDB) : Prop :=
  if once_ p then status_ p <> kExtentServerStarting /\ agreed cfg p else status_ p = kExtentServerStarting.

Lemma es_step_inv cfg net p p' : es_step cfg net p p' -> es_inv cfg p -> es_inv cfg p'.
Proof.
  intros Hs. destruct Hs as [p s now report Hr|p|p Hst|p m Hm]; unfold es_inv, agreed; cbn; [|done| |].
  - destruct (ReportHeartbeat cfg s now report) as [r s'] eqn:E. cbn [fst].
    destruct (Z.eqb_spec (r_code r) 0) as [Hc|]; cbn [negb]; [|done]. destruct (once_ p) eqn:Eo; cbn [negb once_]; [by rewrite Eo|].
    destruct (ReportHeartbeat_ok _ _ _ _ _ _ E Hc) as [(v & ->) _]. done.
  - destruct (once_ p); [by intros [_ ?]|]. intros ?. by destruct Hst.
  - by rewrite Hm.
Qed.

(** whenever the manager answers a report of an extent server with OK, it
    has the server in its pool under the reported name, addresses and used
    size; and however its reports are answered or lost, an extent server that
    takes requests checks them against, and allocates extents of, the extent
    size that its manager is configured with. *)
Theorem es_joins cfg net :
  (forall (p : EsProcess EDB) (s : EmState DB) now report, es_report net p = Some report ->
     let '(r, s') := ReportHeartbeat cfg s now report in
     r_code r = CYPRE_OK ->
     (exists q e, pool_map_ (em_pools s') !! pool_id_ p = Some q /\ p_es_mgr_ q !! instance_id_ p = Some e /\
        recorded report e) /\
     once_ (on_answer p (Some r)) = true) /\
  (forall c hostname e m capacity (p : EsProcess EDB),
     rtc (es_step cfg net) (initMyself c hostname e m capacity) p -> status_ p = kExtentServerOk ->
     se_extent_size_ (engine_ p) = cfg_extent_size cfg /\ extent_size_ (loc_mgr_ p) = cfg_extent_size cfg).
Proof.
  split.
  - intros p s now report Hr. destruct (ReportHeartbeat cfg s now report) as [r s'] eqn:E. intros Hc.
    destruct (ReportHeartbeat_ok _ _ _ _ _ _ E Hc) as [_ (q & e & Hq & He & Hrec)].
    unfold es_report in Hr. apply bind_Some in Hr as (b & _ & Hr). apply bind_Some in Hr as (used & _ & [= <-]). split; [by exists q, e|].
    unfold on_answer. rewrite Hc. by destruct (once_ p) eqn:Eo; cbn; rewrite ?Eo.
  - intros c hostname e m capacity p Hs Hok.
    assert (Hi : es_inv cfg p).
    { assert (H0' : es_inv cfg (initMyself c hostname e m capacity)) by done. revert H0'. clear Hok.
      induction Hs; [done|]. eauto using es_step_inv. }
    unfold es_inv in Hi. rewrite Hok in Hi. destruct (once_ p); [apply Hi|done].
Qed.
End Join.

(** ** The sets behind the set manager *)

(** Heartbeats of extent managers, with the configuration and the state they
    report. *)
Definition em_history {DB : Type} (hs : list (Z * (Config * EmState DB))) : list (Z * PbSet) :=
  (fun h => (h.1, em_report h.2.1 h.2.2)) <$> hs.

(** C37: when extent managers are what reports to the set manager, a set that it
    allocates for a pool type is one whose extent manager reported last, within
    the configured interval, at the address it is reached under, and had then an
    enabled pool of that type with some capacity. *)
Theorem allocated_set_backed {DB : Type} cfg now (hs : list (Z * (Config * EmState DB))) entries type i :
  entries ≡ₚ map_to_list (registry (em_history hs)) ->
  AllocateSet cfg now (registry (em_history hs)) entries type = Some i ->
  exists t c (s : EmState DB) id p, (t, (c, s)) ∈ hs /\ now <= t + obsolete_interval_sec cfg /\
    latest (em_history hs) t (em_report c s) /\ pb_set i = em_report c s /\
    route_ip (ToPbSetRoute (pb_set i)) = nc_public_ip (network_ c) /\
    pool_map_ (em_pools s) !! id = Some p /\ pool_status p = kPoolStatusEnabled /\
    pb_pool_type (ToPbPool p) = type /\ Pool_total_capacity p <> 0.
Proof.
  intros Hperm Ha.
  destruct (AllocateSet_fresh _ _ _ _ _ _ Hperm Ha) as (sid & q & [_ Hl]%registry_lookup & Ho%obsoleted_false & Hq & Hoff).
  assert (Hin : (created_time i, pb_set i) ∈ em_history hs).
  { destruct Hl as (hs1 & hs2 & -> & _). apply elem_of_app. right. left. }
  apply list_elem_of_fmap in Hin as ([t [c s]] & [= Et Es] & Hin). rewrite Es in Hq. cbn in Hq.
  apply list_elem_of_In, in_map_iff in Hq as ([id p] & <- & Hp%list_elem_of_In). cbn in *.
  apply list_elem_of_filter in Hp as [He%Z.eqb_eq Hp]. unfold pool_entries in Hp.
  rewrite merge_sort_Permutation, elem_of_map_to_list in Hp.
  apply negb_true_iff, orb_false_iff in Hoff as [[Ht Hc]%orb_false_iff _]. apply negb_false_iff, Z.eqb_eq in Ht.
  apply Z.eqb_neq in Hc. exists t, c, s, id, p. rewrite Et, Es in *. by split_and!.
Qed.

(** ** Examples *)

#[local] Existing Instance example_crc.

Definition hb_network : NetworkCfg := mkNetworkCfg "10.0.0.7" "10.0.1.7" 8007 8007.
Definition hb_config : Config :=
  mkConfig (mkCommonCfg 7 3 "cypre" "extentserver" "bj" "/NS" "set") no_names hb_network no_log (mkBrpcCfg 8 0 "")
    (mkRocksDBCfg "" 0) "" no_spdk 0 no_setmanager no_extentmanager
    (mkExtentServerCfg 5 "pool-a" "r7" "Nvme0n1" "nvme" "standard" 0 2 "" 400).

(** A pool of the manager that waits for servers, and a server with a 4 MB
    device. *)
Definition hb_em : EmState MemDB :=
  let d := demo_create_pool demo_start "a" kFailureDomainNode 2 2 in mkEmState d.1 ∅ d.2 (RouterManager_new 2) 3.
Definition hb_es : EsProcess MemDB :=
  initMyself hb_config "node7" (StorageEngine_new "nvme" "standard" "10.0.0.7" 8007) ExtentLocation.demo_mgr 4194304.
Definition hb_report : PbExtentServer :=
  mkPbExtentServer 7 "es-7" 0 4194304 "pool-a" "node7" "r7" ES_STATUS_OK (mkPbEndpoint "10.0.0.7" 8007 "10.0.1.7" 8007) "" "".
Definition hb_reply : Response (Z * Z) := (ReportHeartbeat demo_cfg hb_em "t" hb_report).1.
Definition hb_serving : EsProcess MemDB := Start_serving (on_answer hb_es (Some hb_reply)).

Lemma hb_es_reports : es_report hb_network hb_es = Some hb_report.
Proof. vm_compute. reflexivity. Qed.

Lemma hb_serving_reached : rtc (es_step (DB := MemDB) demo_cfg hb_network) hb_es hb_serving.
Proof.
  eapply rtc_l; [exact (es_answered _ _ hb_es hb_em "t" hb_report hb_es_reports)|].
  apply rtc_once, es_serves. vm_compute. congruence.
Qed.

Lemma es_joins_witness :
  (exists q e, pool_map_ (em_pools (ReportHeartbeat demo_cfg hb_em "t" hb_report).2) !! "pool-a" = Some q /\
     p_es_mgr_ q !! 7 = Some e /\ recorded hb_report e) /\
  se_extent_size_ (engine_ hb_serving) = 1024.
Proof.
  destruct (es_joins (DB := MemDB) (EDB := MemDB) demo_cfg hb_network) as [Hj Hs]. split.
  - specialize (Hj hb_es hb_em "t" hb_report hb_es_reports).
    destruct (ReportHeartbeat demo_cfg hb_em "t" hb_report) as [r s'] eqn:E. refine (proj1 (Hj _)).
    change r with ((r, s').1). rewrite <- E. vm_compute. reflexivity.
  - refine (proj1 (Hs hb_config "node7" _ _ 4194304 hb_serving hb_serving_reached _)). vm_compute. reflexivity.
Defined.

Definition hb_history : list (Z * (Config * EmState MemDB)) := [(100, (hb_config, demo_em))].
Definition hb_entries : list (Z * SetInfo) := map_to_list (registry (em_history hb_history)).

Lemma allocated_set_backed_witness :
  exists i t c (s : EmState MemDB) id p,
    AllocateSet (mkSmCfg 5 1) 102 (registry (em_history hb_history)) hb_entries POOL_TYPE_HDD = Some i /\
    (t, (c, s)) ∈ hb_history /\ pool_map_ (em_pools s) !! id = Some p /\ pool_status p = kPoolStatusEnabled.
Proof.
  destruct (AllocateSet (mkSmCfg 5 1) 102 (registry (em_history hb_history)) hb_entries POOL_TYPE_HDD) as [i|] eqn:E.
  - destruct (allocated_set_backed (mkSmCfg 5 1) 102 hb_history hb_entries POOL_TYPE_HDD i)
      as (t & c & s & id & p & H1 & _ & _ & _ & _ & H2 & H3 & _); [reflexivity|exact E|].
    exists i, t, c, s, id, p. exact (conj eq_refl (conj H1 (conj H2 H3))).
  - exfalso. apply (f_equal (fun o => match o with Some _ => true | None => false end)) in E. by vm_compute in E.
Defined.
