(* ===== verification/IoConcurrency.v ===== *)
(** * The request concurrency controller of the client library

    [IoShard] and [IoConcurrency]
    (src/clients/libcypre/concurrency/io_concurrency.h and .cpp): requests that
    overlap a request in flight wait in a queue.  The requests in flight are
    filed in 4096 shards by the 32MB slot their first byte lies in; a shard is
    an ordered map from the first byte to the byte after the last.  Each method
    runs under the locks it takes and is one step here. *)

From Stdlib Require Import Sorting.Sorted.
From S2P Require Import Prelude.

(** ** Shards *)

(** A [std::map<uint64_t, uint64_t>] in key order. *)
Abbreviation IoShard := (list (Z * Z)).

(** The entries before and from [lower_bound(offset)]. *)
Fixpoint lower_bound (m : IoShard) (offset : Z) : IoShard * IoShard :=
  match m with
  | [] => ([], [])
  | (k, e) :: m' =>
      if k <? offset then let '(l, r) := lower_bound m' offset in ((k, e) :: l, r)
      else ([], m)
  end.

Definition left_max (l : IoShard) : Z :=
  match last l with Some (_, e) => e | None => 0 end.

Definition shard_Check (m : IoShard) (offset len : Z) : bool :=
  match m with
  | [] => true
  | _ =>
    let '(l, r) := lower_bound m offset in
    match r with
    | (k, _) :: _ =>
        if k <? wrap64 (offset + len) then false else negb (offset <? left_max l)
    | [] => negb (offset <? left_max l)
    end
  end.

(** [doingMap_[offset] = end]. *)
Fixpoint map_assign (m : IoShard) (offset e : Z) : IoShard :=
  match m with
  | [] => [(offset, e)]
  | (k, v) :: m' =>
      if k <? offset then (k, v) :: map_assign m' offset e
      else if k =? offset then (offset, e) :: m'
      else (offset, e) :: m
  end.

Definition shard_Insert (m : IoShard) (offset len : Z) : bool * IoShard :=
  if shard_Check m offset len then (true, map_assign m offset (wrap64 (offset + len)))
  else (false, m).

(** [None]: an assertion fails. *)
Fixpoint shard_Erase (m : IoShard) (offset len : Z) : option IoShard :=
  match m with
  | [] => None
  | (k, v) :: m' =>
      if k =? offset then if v =? wrap64 (offset + len) then Some m' else None
      else m'' ← shard_Erase m' offset len; Some ((k, v) :: m'')
  end.

(** ** The controller *)

Definition IO_SHARD_SIZE : Z := 4096.
Definition IO_SHARD_SIZE_MASK : Z := IO_SHARD_SIZE - 1.
Definition IO_SPLIT_SIZE_SHIFT : Z := 25.

(** A user request: its range. *)
Record IoReq : Type := mkIoReq { logic_offset : Z; logic_len : Z }.

Record IoConcurrency : Type := mkIoConcurrency {
  doingList_ : list IoShard;
  pendingList_ : list IoReq;
  doingSize_ : Z;
  pendingSize_ : Z
}.

Definition IoConcurrency_new : IoConcurrency :=
  mkIoConcurrency (replicate (Z.to_nat IO_SHARD_SIZE) []) [] 0 0.

(** [Iterator::Clear], which drops the queue and everything in flight. *)
Definition Iterator_Clear (c : IoConcurrency) : IoConcurrency :=
  mkIoConcurrency (replicate (Z.to_nat IO_SHARD_SIZE) []) [] 0 0.

Definition shard_index (offset : Z) : Z :=
  Z.land (Z.shiftr offset IO_SPLIT_SIZE_SHIFT) IO_SHARD_SIZE_MASK.

Definition shard (d : list IoShard) (idx : Z) : IoShard := d !!! Z.to_nat idx.

(** The shards whose locks a check takes: the guard holds seven at most. *)
Definition kSize : Z := 8.

Definition Push (locks : list Z) (idx : Z) : list Z :=
  if Z.of_nat (length locks) <? kSize - 1 then locks ++ [idx] else locks.

Fixpoint lock_loop (fuel : nat) (idx idxe : Z) (locks : list Z) : option (list Z) :=
  match fuel with
  | O => None
  | S f =>
      let idx := if idx + 1 =? IO_SHARD_SIZE then 0 else idx + 1 in
      let locks := Push locks idx in
      if idx =? idxe then Some locks else lock_loop f idx idxe locks
  end.

(** The loop over the shards after the first, from the last one down.
    [None]: it has not ended within [fuel] rounds. *)
Fixpoint check_loop (fuel : nat) (d : list IoShard) (offset len idx idxs : Z) : option bool :=
  match fuel with
  | O => None
  | S f =>
      if idx =? idxs then Some true
      else
        let idx := if idx <? 0 then IO_SHARD_SIZE - 1 else idx in
        if negb (shard_Check (shard d idx) offset len) then Some false
        else check_loop f d offset len (idx - 1) idxs
  end.

Definition with_doing (c : IoConcurrency) (d : list IoShard) : IoConcurrency :=
  mkIoConcurrency d (pendingList_ c) (doingSize_ c) (pendingSize_ c).

(** [check]; the locks it holds, the answer and the controller. *)
Definition check (fuel : nat) (c : IoConcurrency) (offset len : Z)
    : option (list Z * bool * IoConcurrency) :=
  if len <? 1 then Some ([], true, c)
  else
    let idxs := shard_index offset in
    let idxe := shard_index (wrap64 (wrap64 (offset + len) - 1)) in
    locks ← lock_loop fuel (idxs - 1) idxe [];
    free ← check_loop fuel (doingList_ c) offset len idxe idxs;
    if negb free then Some (locks, false, c)
    else
      let '(ins, m) := shard_Insert (shard (doingList_ c) idxs) offset len in
      Some (locks, ins, with_doing c (<[Z.to_nat idxs := m]> (doingList_ c))).

Definition remove (c : IoConcurrency) (offset len : Z) : option IoConcurrency :=
  let idxs := shard_index offset in
  m ← shard_Erase (shard (doingList_ c) idxs) offset len;
  Some (with_doing c (<[Z.to_nat idxs := m]> (doingList_ c))).

(** [SendWriteRequest]; [SendReadRequest] has the same body. *)
Definition SendRequest (fuel : nat) (c : IoConcurrency) (req : IoReq) (enqueIfPending : bool)
    : option (bool * IoConcurrency) :=
  '(_, free, c) ← check fuel c (logic_offset req) (logic_len req);
  if negb free then
    Some (false,
      if enqueIfPending then
        mkIoConcurrency (doingList_ c) (pendingList_ c ++ [req]) (doingSize_ c)
          (wrap64 (pendingSize_ c + 1))
      else c)
  else
    Some (true, mkIoConcurrency (doingList_ c) (pendingList_ c) (wrap64 (doingSize_ c + 1))
      (pendingSize_ c)).

Definition SendWriteRequest := SendRequest.
Definition SendReadRequest := SendRequest.

(** The request to run next, if any. *)
Definition schedulePending (fuel : nat) (c : IoConcurrency)
    : option (option IoReq * IoConcurrency) :=
  if pendingSize_ c =? 0 then Some (None, c)
  else
    match pendingList_ c with
    | [] => Some (None, c)
    | req :: rest =>
        '(_, free, c) ← check fuel c (logic_offset req) (logic_len req);
        if negb free then Some (None, c)
        else Some (Some req, mkIoConcurrency (doingList_ c) rest (doingSize_ c)
               (wrap64 (pendingSize_ c - 1)))
    end.

(** [OnWriteDone]; [OnReadDone] has the same body. *)
Definition OnRequestDone (fuel : nat) (c : IoConcurrency) (offset len : Z)
    : option (option IoReq * IoConcurrency) :=
  let c := mkIoConcurrency (doingList_ c) (pendingList_ c) (wrap64 (doingSize_ c - 1))
             (pendingSize_ c) in
  c ← remove c offset len;
  schedulePending fuel c.

Definition OnWriteDone := OnRequestDone.
Definition OnReadDone := OnRequestDone.

Definition GetStats (c : IoConcurrency) : Z * Z := (doingSize_ c, pendingSize_ c).

(** ** Shards hold disjoint ranges *)

Definition disjoint_ranges (a b : Z * Z) : bool := (a.2 <=? b.1) || (b.2 <=? a.1).

(** The reference for [shard_Check]: compare with every entry. *)
Definition free_of (m : IoShard) (offset len : Z) : bool :=
  forallb (disjoint_ranges (offset, offset + len)) m.

Definition valid_range (offset len : Z) : Prop :=
  0 <= offset /\ 1 <= len /\ offset + len <= u64_max.

Record wf_shard (m : IoShard) : Prop := {
  ws_sorted : StronglySorted (fun a b => a.2 <= b.1) m;
  ws_valid : Forall (fun a => 0 <= a.1 /\ a.1 < a.2 /\ a.2 <= u64_max) m
}.

Lemma lower_bound_spec m o l r :
  lower_bound m o = (l, r) ->
  m = l ++ r /\ Forall (fun a => a.1 < o) l /\ (forall a r', r = a :: r' -> o <= a.1).
Proof.
  revert l r. induction m as [|[k e] m IH]; intros l r E; simpl in E.
  - injection E as <- <-. split_and!; [done|constructor|discriminate].
  - destruct (k <? o) eqn:Hk; b2p.
    + destruct (lower_bound m o) as [l' r'] eqn:El. injection E as <- <-.
      destruct (IH l' r' eq_refl) as (-> & Hl & Hr). split_and!; [done|by constructor|done].
    + injection E as <- <-. split_and!; [done|constructor|]. by intros a r' [= <- <-].
Qed.

Lemma sorted_app (l r : IoShard) :
  StronglySorted (fun a b => a.2 <= b.1) (l ++ r) <->
  StronglySorted (fun a b => a.2 <= b.1) l /\ StronglySorted (fun a b => a.2 <= b.1) r /\
  (forall a b, a ∈ l -> b ∈ r -> a.2 <= b.1).
Proof.
  induction l as [|x l IH]; simpl.
  - split; [intros H; split_and!; [constructor|done|]; set_solver|by intros (_ & H & _)].
  - split.
    + intros H. apply StronglySorted_inv in H as [H Hx]. apply IH in H as (Hl & Hr & Hlr).
      rewrite Forall_app in Hx. destruct Hx as [Hxl Hxr]. rewrite Forall_forall in Hxr.
      split_and!; [by constructor|done|]. intros a b [->|Ha]%elem_of_cons Hb; auto.
    + intros (Hl & Hr & Hlr). apply StronglySorted_inv in Hl as [Hl Hx]. constructor.
      * apply IH. split_and!; [done..|]. intros; apply Hlr; set_solver.
      * rewrite Forall_app, Forall_forall. split; [by rewrite <- Forall_forall|].
        rewrite Forall_forall. intros; apply Hlr; set_solver.
Qed.

Lemma wf_shard_app l r :
  wf_shard (l ++ r) <-> wf_shard l /\ wf_shard r /\ (forall a b, a ∈ l -> b ∈ r -> a.2 <= b.1).
Proof.
  split.
  - intros [Hs Hv]. apply sorted_app in Hs as (? & ? & ?). apply Forall_app in Hv as [? ?].
    split_and!; [by constructor..|done].
  - intros ([? ?] & [? ?] & ?). constructor; [by apply sorted_app|by apply Forall_app].
Qed.

(** The entry before the lower bound ends last of those on the left. *)
Lemma left_max_spec l offset :
  wf_shard l -> 0 <= offset ->
  (offset < left_max l -> exists a, a ∈ l /\ left_max l = a.2) /\
  Forall (fun a => a.2 <= left_max l) l.
Proof.
  intros W Ho. destruct l as [|x l _] using rev_ind; [split; [unfold left_max; simpl; lia|constructor]|].
  unfold left_max. rewrite last_snoc. destruct x as [k e].
  apply wf_shard_app in W as (Wl & [_ Wx] & Hlx). apply Forall_inv in Wx. simpl in Wx.
  split; [intros _; exists (k, e); set_solver|].
  rewrite Forall_app, Forall_singleton. split; [|done].
  apply Forall_forall. intros a Ha. pose proof (Hlx a (k, e) Ha ltac:(set_solver)). simpl in *. lia.
Qed.

Lemma free_of_spec m offset len :
  free_of m offset len = true <->
  forall a, a ∈ m -> offset + len <= a.1 \/ a.2 <= offset.
Proof.
  unfold free_of. rewrite forallb_forall. setoid_rewrite <- list_elem_of_In.
  unfold disjoint_ranges; simpl. setoid_rewrite orb_true_iff. by setoid_rewrite Z.leb_le.
Qed.

Lemma shard_Check_free m offset len :
  wf_shard m -> valid_range offset len -> shard_Check m offset len = free_of m offset len.
Proof.
  intros W (Ho & Hl & Hm). apply eq_iff_eq_true. rewrite free_of_spec.
  destruct (lower_bound m offset) as [l r] eqn:E.
  assert (Ec : shard_Check m offset len = match r with
    | (k, _) :: _ => if k <? offset + len then false else negb (offset <? left_max l)
    | [] => negb (offset <? left_max l) end).
  { unfold shard_Check. rewrite E, wrap64_small by (unfold is_u64; lia).
    destruct m; [|done]. simpl in E. injection E as <- <-. symmetry. apply negb_true_iff, Z.ltb_ge.
    unfold left_max; simpl; lia. }
  apply lower_bound_spec in E as (-> & Hlt & Hge). rewrite Ec. clear Ec.
  apply wf_shard_app in W as (Wl & Wr & Hlr).
  destruct (left_max_spec l offset Wl Ho) as [Hmax Hall]. rewrite Forall_forall in Hlt, Hall.
  assert (Hleft : negb (offset <? left_max l) = true <-> forall a, a ∈ l -> a.2 <= offset).
  { rewrite negb_true_iff, Z.ltb_ge. split; [intros H a Ha; specialize (Hall a Ha); lia|].
    intros H. destruct (decide (offset < left_max l)) as [Hd|Hd]; [|lia].
    destruct (Hmax Hd) as (a & Ha & ->). by apply H. }
  destruct r as [|[k e] r].
  - rewrite Hleft, app_nil_r. split; [intros H a Ha; right; auto|].
    intros H a Ha. specialize (H a Ha). specialize (Hlt a Ha). simpl in Hlt. lia.
  - specialize (Hge _ _ eq_refl). simpl in Hge. destruct Wr as [Ws Wv].
    apply StronglySorted_inv in Ws as [_ Ws]. rewrite Forall_cons in Wv. simpl in Wv.
    rewrite Forall_forall in Ws. destruct Wv as [Hke Wv]. rewrite Forall_forall in Wv.
    destruct (k <? offset + len) eqn:Hk; b2p.
    + split; [discriminate|]. intros H. specialize (H (k, e) ltac:(set_solver)). simpl in H. lia.
    + rewrite Hleft. setoid_rewrite elem_of_app. setoid_rewrite elem_of_cons. split.
      * intros H a [Ha|[->|Ha]]; [right; auto|simpl; lia|].
        specialize (Ws a Ha). simpl in Ws. lia.
      * intros H a Ha. specialize (H a (or_introl Ha)). specialize (Hlt a Ha). simpl in Hlt. lia.
Qed.

Lemma map_assign_split l r o e :
  Forall (fun a => a.1 < o) l -> (forall a r', r = a :: r' -> o < a.1) ->
  map_assign (l ++ r) o e = l ++ (o, e) :: r.
Proof.
  intros Hl Hr. induction Hl as [|[k v] l Hk _ IH]; simpl in *.
  - destruct r as [|[k v] r]; [done|]. specialize (Hr _ _ eq_refl). simpl in *.
    rewrite (proj2 (Z.ltb_ge k o)), (proj2 (Z.eqb_neq k o)) by lia. done.
  - rewrite (proj2 (Z.ltb_lt k o)) by lia. by rewrite IH.
Qed.

Lemma wf_tail_ge r o :
  wf_shard r -> (forall a r', r = a :: r' -> o <= a.1) -> Forall (fun a => o <= a.1) r.
Proof.
  intros [Ws Wv] Hge. destruct r as [|b r]; [constructor|]. specialize (Hge _ _ eq_refl).
  apply StronglySorted_inv in Ws as [_ Ws]. apply Forall_inv in Wv. constructor; [done|].
  apply (Forall_impl _ _ _ Ws). intros. lia.
Qed.

Lemma free_insert m o n :
  wf_shard m -> valid_range o n -> free_of m o n = true ->
  wf_shard (map_assign m o (o + n)) /\ map_assign m o (o + n) ≡ₚ (o, o + n) :: m.
Proof.
  intros W (Ho & Hn & Hm) F. rewrite free_of_spec in F.
  destruct (lower_bound m o) as [l r] eqn:E. apply lower_bound_spec in E as (-> & Hlt & Hge).
  apply wf_shard_app in W as (Wl & Wr & Hlr).
  assert (Hr : forall a, a ∈ r -> o + n <= a.1).
  { intros a Ha. pose proof (proj1 (Forall_forall _ _) (wf_tail_ge r o Wr Hge) a Ha) as H1.
    pose proof (proj1 (Forall_forall _ _) (ws_valid _ Wr) a Ha) as H2.
    destruct (F a ltac:(set_solver)); simpl in *; lia. }
  assert (Hl : forall a, a ∈ l -> a.2 <= o).
  { intros a Ha. pose proof (proj1 (Forall_forall _ _) Hlt a Ha) as H1.
    destruct (F a ltac:(set_solver)); simpl in *; lia. }
  rewrite map_assign_split; [|done|intros a r' ->; specialize (Hr a ltac:(set_solver)); lia].
  split; [|by rewrite Permutation_middle].
  apply wf_shard_app. split_and!; [done| |].
  - destruct Wr. constructor; constructor; simpl; try done; [|lia].
    apply Forall_forall. intros; simpl; auto.
  - intros a b Ha [->|Hb]%elem_of_cons; simpl; auto.
Qed.

Lemma erase_present m o n :
  wf_shard m -> valid_range o n -> (o, o + n) ∈ m ->
  exists m', shard_Erase m o n = Some m' /\ wf_shard m' /\ m ≡ₚ (o, o + n) :: m' /\
    (forall b, b ∈ m' -> b.2 <= o \/ o + n <= b.1).
Proof.
  intros W (Ho & Hn & Hm). induction m as [|[k v] m IH]; [set_solver|]. intros Hin. simpl.
  apply (wf_shard_app [(k, v)]) in W as ([_ W1] & Wm & Hkm). apply Forall_inv in W1. simpl in W1.
  apply elem_of_cons in Hin as [[= <- <-]|Hin].
  - rewrite Z.eqb_refl, wrap64_small, Z.eqb_refl by (unfold is_u64; lia).
    exists m. split_and!; [done..|]. intros b Hb. right. apply (Hkm (o, o + n) b); set_solver.
  - pose proof (Hkm (k, v) _ ltac:(set_solver) Hin) as Hlt. simpl in Hlt.
    rewrite (proj2 (Z.eqb_neq k o)) by lia.
    destruct (IH Wm Hin) as (m' & -> & W' & HP & Hd). simpl. eexists. split_and!; [done| | |].
    + apply (wf_shard_app [(k, v)]). split_and!; [split; repeat constructor; simpl; lia|done|].
      intros a b Ha Hb. apply (Hkm a b Ha). rewrite HP. set_solver.
    + rewrite HP. by constructor.
    + intros b [->|Hb]%elem_of_cons; [by left|auto].
Qed.

(** ** The invariant of the controller *)

Definition range (r : IoReq) : Z * Z := (logic_offset r, logic_offset r + logic_len r).
Definition valid_req (r : IoReq) : Prop := valid_range (logic_offset r) (logic_len r).

(** Every shard is well formed and holds ranges of its own slots only. *)
Definition doing_ok (d : list IoShard) : Prop :=
  Z.of_nat (length d) = IO_SHARD_SIZE /\
  forall i m, d !! i = Some m ->
    wf_shard m /\ Forall (fun a => shard_index a.1 = Z.of_nat i) m.

(** [fl]: the requests in flight, as their senders know them. *)
Record io_inv (c : IoConcurrency) (fl : list IoReq) : Prop := {
  ii_doing : doing_ok (doingList_ c);
  ii_flight : range <$> fl ≡ₚ concat (doingList_ c);
  ii_valid : Forall valid_req fl;
  ii_pending : Forall valid_req (pendingList_ c);
  ii_size : pendingSize_ c = wrap64 (Z.of_nat (length (pendingList_ c)))
}.

Lemma shard_index_bound o : 0 <= shard_index o < IO_SHARD_SIZE.
Proof.
  unfold shard_index. change IO_SHARD_SIZE_MASK with (Z.ones 12).
  rewrite Z.land_ones by lia. unfold IO_SHARD_SIZE. lia.
Qed.

Lemma shard_lookup d idx :
  Z.of_nat (length d) = IO_SHARD_SIZE -> 0 <= idx < IO_SHARD_SIZE ->
  d !! Z.to_nat idx = Some (shard d idx).
Proof. intros Hl Hi. apply list_lookup_lookup_total_lt. lia. Qed.

Lemma doing_insert d i m x :
  doing_ok d -> d !! i = Some m ->
  forall m', wf_shard m' -> Forall (fun a => shard_index a.1 = Z.of_nat i) m' -> m' ≡ₚ x ++ m ->
  doing_ok (<[i := m']> d) /\ concat (<[i := m']> d) ≡ₚ x ++ concat d.
Proof.
  intros [Hl Hd] Hi m' W F HP. split.
  - split; [by rewrite length_insert|]. intros j m2 Hj.
    apply list_lookup_insert_Some in Hj as [(-> & <- & _)|[_ Hj]]; auto.
  - rewrite <- (take_drop_middle d i m Hi) at 2.
    rewrite insert_take_drop by (by eapply lookup_lt_Some).
    rewrite !concat_app, !concat_cons, HP. solve_Permutation.
Qed.

Lemma check_inv fuel c o n locks b c' :
  doing_ok (doingList_ c) -> valid_range o n -> check fuel c o n = Some (locks, b, c') ->
  doing_ok (doingList_ c') /\
  concat (doingList_ c') ≡ₚ (if b then [(o, o + n)] else []) ++ concat (doingList_ c) /\
  pendingList_ c' = pendingList_ c /\ doingSize_ c' = doingSize_ c /\ pendingSize_ c' = pendingSize_ c.
Proof.
  intros D V. pose proof V as (Ho & Hn & Hm). unfold check.
  rewrite (proj2 (Z.ltb_ge n 1)) by lia.
  destruct (lock_loop _ _ _ _) as [lk|]; [|discriminate].
  destruct (check_loop _ _ _ _ _ _) as [[]|]; [| |discriminate]; cbn [mbind option_bind negb];
    [|by intros [= <- <- <-]].
  pose proof (shard_lookup (doingList_ c) _ (proj1 D) (shard_index_bound o)) as Hi.
  remember (shard (doingList_ c) (shard_index o)) as m eqn:Em.
  destruct (proj2 D _ _ Hi) as [W F]. rewrite Z2Nat.id in F by apply shard_index_bound.
  unfold shard_Insert. rewrite shard_Check_free by done.
  rewrite wrap64_small by (unfold is_u64; lia).
  destruct (free_of m o n) eqn:Hf.
  all: intros E; apply (inj Some) in E; apply pair_eq in E as [E <-]; apply pair_eq in E as [_ <-].
  all: cbn [with_doing doingList_ pendingList_ doingSize_ pendingSize_].
  - destruct (free_insert m o n W V Hf) as [W' HP].
    edestruct (doing_insert _ _ _ [(o, o + n)] D Hi _ W') as [D' HP']; [|exact HP|done].
    rewrite HP, Forall_cons, Z2Nat.id by apply shard_index_bound. done.
  - by rewrite list_insert_id.
Qed.

Lemma concat_shard d i m a :
  doing_ok d -> d !! i = Some m -> shard_index a.1 = Z.of_nat i -> a ∈ concat d -> a ∈ m.
Proof.
  intros D Hi Ha Hc. apply list_elem_of_In, in_concat in Hc as (m' & Hm' & Hx).
  apply list_elem_of_In, list_elem_of_lookup in Hm' as [j Hj]. apply list_elem_of_In in Hx.
  pose proof (proj1 (Forall_forall _ _) (proj2 (proj2 D _ _ Hj)) _ Hx) as E. simpl in E.
  assert (Ej : j = i) by lia. rewrite Ej, Hi in Hj. apply (inj Some) in Hj. by rewrite Hj.
Qed.

Lemma remove_inv c fl o n :
  doing_ok (doingList_ c) -> valid_range o n ->
  (o, o + n) :: fl ≡ₚ concat (doingList_ c) ->
  exists c', remove c o n = Some c' /\ doing_ok (doingList_ c') /\ fl ≡ₚ concat (doingList_ c') /\
    (forall b, b ∈ fl -> shard_index b.1 = shard_index o -> b.2 <= o \/ o + n <= b.1) /\
    pendingList_ c' = pendingList_ c /\ doingSize_ c' = doingSize_ c /\ pendingSize_ c' = pendingSize_ c.
Proof.
  intros D V HP. unfold remove.
  pose proof (shard_lookup (doingList_ c) _ (proj1 D) (shard_index_bound o)) as Hi.
  remember (shard (doingList_ c) (shard_index o)) as m eqn:Em.
  destruct (proj2 D _ _ Hi) as [W F].
  assert (Hin : (o, o + n) ∈ m).
  { apply (concat_shard (doingList_ c) _ _ _ D Hi); [rewrite Z2Nat.id; [done|apply shard_index_bound]|]. rewrite <- HP. apply list_elem_of_here. }
  destruct (erase_present m o n W V Hin) as (m' & -> & W' & HPm & Hdis). cbn [mbind option_bind].
  eexists. split; [done|]. cbn [with_doing doingList_ pendingList_ doingSize_ pendingSize_].
  rewrite HPm, Forall_cons in F.
  set (d' := <[Z.to_nat (shard_index o) := m']> (doingList_ c)).
  assert (D' : doing_ok d').
  { split; [unfold d'; rewrite length_insert; apply D|]. intros j m2 Hj.
    apply list_lookup_insert_Some in Hj as [(<- & <- & _)|[_ Hj]]; [by split; [|apply F]|by apply D]. }
  assert (HP' : fl ≡ₚ concat d').
  { apply (Permutation_cons_inv (a := (o, o + n))). rewrite HP. unfold d'.
    rewrite insert_take_drop by (by eapply lookup_lt_Some).
    rewrite <- (take_drop_middle (doingList_ c) _ _ Hi) at 1.
    rewrite !concat_app, !concat_cons, HPm. solve_Permutation. }
  split_and!; try done. intros b Hb Hs. apply Hdis. rewrite HP' in Hb.
  apply (concat_shard d' (Z.to_nat (shard_index o))); [done| | |done].
  - apply list_lookup_insert_eq. by eapply lookup_lt_Some.
  - rewrite Hs, Z2Nat.id; [done|apply shard_index_bound].
Qed.

(** One call of the controller, with the requests in flight. *)
Inductive io_step : IoConcurrency * list IoReq -> IoConcurrency * list IoReq -> Prop :=
  | io_send fuel c fl req enq b c' :
      valid_req req -> SendRequest fuel c req enq = Some (b, c') ->
      io_step (c, fl) (c', if b then req :: fl else fl)
  | io_done fuel c fl1 req fl2 next c' :
      OnRequestDone fuel c (logic_offset req) (logic_len req) = Some (next, c') ->
      io_step (c, fl1 ++ req :: fl2) (c', option_list next ++ fl1 ++ fl2)
  | io_clear c fl : io_step (c, fl) (Iterator_Clear c, []).

Lemma new_doing_ok : doing_ok (replicate (Z.to_nat IO_SHARD_SIZE) []).
Proof.
  split; [by rewrite length_replicate|]. intros i m [-> _]%lookup_replicate.
  split; [split; constructor|constructor].
Qed.

Lemma concat_replicate_nil {A} n : concat (replicate n ([] : list A)) = [].
Proof. induction n; simpl; auto. Qed.

Lemma new_io_inv : io_inv IoConcurrency_new [].
Proof.
  split; [apply new_doing_ok| |constructor|constructor|done].
  change (doingList_ IoConcurrency_new) with (replicate (Z.to_nat IO_SHARD_SIZE) ([] : IoShard)).
  by rewrite concat_replicate_nil.
Qed.

Lemma wrap64_add x y : wrap64 (wrap64 x + y) = wrap64 (x + y).
Proof. unfold wrap64. by rewrite Z.add_mod_idemp_l. Qed.

Lemma SendRequest_inv fuel c fl req enq b c' :
  io_inv c fl -> valid_req req -> SendRequest fuel c req enq = Some (b, c') ->
  io_inv c' (if b then req :: fl else fl).
Proof.
  intros [D HP Hv Hp Hs] V. unfold SendRequest.
  destruct (check _ _ _ _) as [[[locks free] c1]|] eqn:E; [|discriminate]. cbn [mbind option_bind].
  destruct (check_inv _ _ _ _ _ _ _ D V E) as (D1 & HP1 & Ep & _ & Es).
  destruct free; cbn [negb].
  - intros [= <- <-]. split; cbn; [done| |by constructor|by rewrite Ep|by rewrite Ep, Es].
    rewrite HP1, HP. done.
  - destruct enq; intros [= <- <-].
    + split; cbn; [done|by rewrite HP1, HP|done| |].
      * rewrite Ep, Forall_app, Forall_singleton. done.
      * rewrite Es, Ep, Hs, wrap64_add, length_app. cbn. f_equal. lia.
    + split; [done|by rewrite HP1, HP|done|by rewrite Ep|by rewrite Es, Ep].
Qed.

Lemma schedulePending_inv fuel c fl next c' :
  io_inv c fl -> schedulePending fuel c = Some (next, c') -> io_inv c' (option_list next ++ fl).
Proof.
  intros I. pose proof I as [D HP Hv Hp Hs]. unfold schedulePending.
  destruct (pendingSize_ c =? 0); [by intros [= <- <-]|].
  destruct (pendingList_ c) as [|req rest] eqn:Epl; [by intros [= <- <-]|].
  apply Forall_cons in Hp as [V Hp].
  destruct (check _ _ _ _) as [[[locks free] c1]|] eqn:E; [|discriminate]. cbn [mbind option_bind].
  destruct (check_inv _ _ _ _ _ _ _ D V E) as (D1 & HP1 & Ep & _ & Es).
  destruct free; cbn [negb]; intros [= <- <-].
  - split; cbn; [done|by rewrite HP1, HP|by constructor|done|].
    rewrite Es, Hs. unfold Z.sub. rewrite wrap64_add. cbn [length]. f_equal. lia.
  - split; cbn; [done|by rewrite HP1, HP|done|rewrite Ep, Epl; by constructor|by rewrite Es, Ep, Epl].
Qed.

Lemma flight_middle c fl1 req fl2 :
  io_inv c (fl1 ++ req :: fl2) ->
  doing_ok (doingList_ c) /\ valid_req req /\
  range req :: (range <$> fl1 ++ fl2) ≡ₚ concat (doingList_ c) /\ Forall valid_req (fl1 ++ fl2).
Proof.
  intros [D HP Hv _ _]. rewrite <- Permutation_middle, Forall_cons in Hv. destruct Hv.
  split_and!; try done. rewrite <- HP, !fmap_app, fmap_cons. apply Permutation_middle.
Qed.

Lemma OnRequestDone_inv fuel c fl1 req fl2 next c' :
  io_inv c (fl1 ++ req :: fl2) ->
  OnRequestDone fuel c (logic_offset req) (logic_len req) = Some (next, c') ->
  io_inv c' (option_list next ++ fl1 ++ fl2).
Proof.
  intros I. destruct (flight_middle _ _ _ _ I) as (D & V & HP & Hv). destruct I as [_ _ _ Hp Hs].
  unfold OnRequestDone. set (c0 := mkIoConcurrency _ _ _ _).
  destruct (remove_inv c0 _ _ _ D V HP) as (c1 & -> & D1 & HP1 & _ & Ep & _ & Es).
  cbn [mbind option_bind]. apply schedulePending_inv.
  split; [done|done|done|by rewrite Ep|by rewrite Es, Ep].
Qed.

Lemma io_step_inv s s' : io_step s s' -> io_inv s.1 s.2 -> io_inv s'.1 s'.2.
Proof.
  intros [fuel c fl req enq b c' V E|fuel c fl1 req fl2 next c' E|c fl] I.
  - exact (SendRequest_inv _ _ _ _ _ _ _ I V E).
  - exact (OnRequestDone_inv _ _ _ _ _ _ _ I E).
  - apply new_io_inv.
Qed.

Lemma io_reach_inv s s' : rtc io_step s s' -> io_inv s.1 s.2 -> io_inv s'.1 s'.2.
Proof. induction 1; eauto using io_step_inv. Qed.

(** ** Termination of [check] *)

Definition last_shard (offset len : Z) : Z := shard_index (offset + len - 1).

Lemma lock_loop_ends fuel idx idxe locks :
  -1 <= idx < IO_SHARD_SIZE -> 0 <= idxe < IO_SHARD_SIZE ->
  (if decide (idx < idxe) then idxe - idx else IO_SHARD_SIZE + idxe - idx) <= Z.of_nat fuel ->
  exists l, lock_loop fuel idx idxe locks = Some l.
Proof.
  unfold IO_SHARD_SIZE. revert idx locks. induction fuel as [|f IH]; intros idx locks Hi He Hf.
  - destruct (decide _); lia.
  - simpl. unfold IO_SHARD_SIZE. destruct (Z.eqb_spec (idx + 1) 4096).
    + destruct (Z.eqb_spec 0 idxe); [eauto|]. apply IH; [lia..|]. do 2 destruct (decide _); lia.
    + destruct (Z.eqb_spec (idx + 1) idxe); [eauto|]. apply IH; [lia..|]. do 2 destruct (decide _); lia.
Qed.

Lemma check_loop_ends fuel d o n idx idxs :
  -1 <= idx < IO_SHARD_SIZE -> 0 <= idxs < IO_SHARD_SIZE -> idxs <= idx \/ idxs < IO_SHARD_SIZE - 1 ->
  (if decide (idx < idxs) then IO_SHARD_SIZE + idx - idxs else idx - idxs) < Z.of_nat fuel ->
  exists b, check_loop fuel d o n idx idxs = Some b.
Proof.
  unfold IO_SHARD_SIZE. revert idx. induction fuel as [|f IH]; intros idx Hi Hs Ht Hf.
  - destruct (decide _); lia.
  - simpl. unfold IO_SHARD_SIZE. destruct (Z.eqb_spec idx idxs); [eauto|].
    destruct (Z.ltb_spec idx 0); (destruct (shard_Check _ _ _); simpl; [|eauto]).
    all: apply IH; [lia..|]; do 2 destruct (decide _); lia.
Qed.

(** From below the last shard the loop never meets it: it wraps to the last
    shard after the comparison and leaves it before the next one. *)
Lemma check_loop_diverges fuel d o n idx :
  (forall i, shard_Check (shard d i) o n = true) -> -1 <= idx < IO_SHARD_SIZE - 1 ->
  check_loop fuel d o n idx (IO_SHARD_SIZE - 1) = None.
Proof.
  intros Hd. unfold IO_SHARD_SIZE. revert idx. induction fuel as [|f IH]; intros idx Hi; [done|].
  simpl. unfold IO_SHARD_SIZE. rewrite (proj2 (Z.eqb_neq idx _)) by lia. rewrite Hd. simpl.
  destruct (Z.ltb_spec idx 0); apply IH; lia.
Qed.

(** ** Claims *)

(** C25: a shard implements a set of disjoint ranges: the two comparisons of
    [Check] around the lower bound decide whether the range overlaps any range
    of the set; [Insert] adds a free range, and only that; [Erase] of a member
    removes it and nothing else. *)
Theorem shard_refines_range_set m offset len :
  wf_shard m -> valid_range offset len ->
  shard_Check m offset len = free_of m offset len /\
  (free_of m offset len = false -> shard_Insert m offset len = (false, m)) /\
  (free_of m offset len = true -> exists m', shard_Insert m offset len = (true, m') /\ wf_shard m' /\
     m' ≡ₚ (offset, offset + len) :: m) /\
  ((offset, offset + len) ∈ m -> exists m', shard_Erase m offset len = Some m' /\ wf_shard m' /\
     m ≡ₚ (offset, offset + len) :: m').
Proof.
  intros W V. pose proof V as (Ho & Hn & Hm). unfold shard_Insert.
  rewrite (shard_Check_free m offset len W V), wrap64_small by (unfold is_u64; lia). split_and!.
  - done.
  - by intros ->.
  - intros Hf. rewrite Hf. eexists. split; [done|]. by apply free_insert.
  - intros Hin. destruct (erase_present m offset len W V Hin) as (m' & ? & ? & ? & _). eauto.
Qed.

Lemma shard_refines_range_set_witness :
  shard_Check [(0, 4096); (8192, 12288)] 4096 4096 = true /\
  exists m', shard_Insert [(0, 4096); (8192, 12288)] 4096 4096 = (true, m') /\ wf_shard m'.
Proof.
  destruct (shard_refines_range_set [(0, 4096); (8192, 12288)] 4096 4096) as (Hc & _ & Hi & _).
  - split; [repeat constructor; simpl; lia|repeat constructor; vm_compute; congruence].
  - vm_compute; split_and!; discriminate.
  - split; [rewrite Hc; vm_compute; reflexivity|].
    destruct Hi as (m' & E & W & _); [vm_compute; reflexivity|]. exists m'. by split.
Defined.

(** A request that does not cross a 32MB boundary. *)
Definition one_slot (r : IoReq) : Prop :=
  logic_offset r / 2 ^ IO_SPLIT_SIZE_SHIFT =
  (logic_offset r + logic_len r - 1) / 2 ^ IO_SPLIT_SIZE_SHIFT.


Definition run_send (c : IoConcurrency) (r : IoReq) : IoConcurrency :=
  match SendRequest 4096 c r true with Some (_, c') => c' | None => c end.

Definition demo_r1 : IoReq := mkIoReq 4096 4096.
Definition demo_r2 : IoReq := mkIoReq 67108864 8192.
Definition demo_c1 : IoConcurrency := run_send IoConcurrency_new demo_r1.
Definition demo_c2 : IoConcurrency := run_send demo_c1 demo_r2.


(** [check] returns within 4096 rounds of each loop for every request but
    those that start in the last shard and end in another one; such a request,
    when no range in flight overlaps it, is never answered. *)
Theorem check_terminates c offset len :
  valid_range offset len ->
  (shard_index offset <> IO_SHARD_SIZE - 1 \/ shard_index offset <= last_shard offset len ->
   exists r, check 4096 c offset len = Some r) /\
  (shard_index offset = IO_SHARD_SIZE - 1 -> last_shard offset len < shard_index offset ->
   (forall i, shard_Check (shard (doingList_ c) i) offset len = true) ->
   forall fuel, check fuel c offset len = None).
Proof.
  intros (Ho & Hn & Hm). unfold check. rewrite (proj2 (Z.ltb_ge len 1)) by lia.
  rewrite (wrap64_small (offset + len)), wrap64_small by (unfold is_u64; lia).
  fold (last_shard offset len).
  pose proof (shard_index_bound offset) as Hs.
  assert (He : 0 <= last_shard offset len < IO_SHARD_SIZE) by apply shard_index_bound.
  split.
  - intros Hc. destruct (lock_loop_ends 4096 (shard_index offset - 1) (last_shard offset len) [])
      as [l ->]; [lia|lia|destruct (decide _); unfold IO_SHARD_SIZE in *; lia|].
    destruct (check_loop_ends 4096 (doingList_ c) offset len (last_shard offset len) (shard_index offset))
      as [b ->]; [lia|lia|lia|destruct (decide _); unfold IO_SHARD_SIZE in *; lia|].
    cbn [mbind option_bind]. destruct b; cbn [negb]; [|eauto]. destruct (shard_Insert _ _ _). eauto.
  - intros El Hlt Hfree fuel. destruct (lock_loop _ _ _ _); [|done]. cbn [mbind option_bind].
    rewrite El, check_loop_diverges; [done|done|lia].
Qed.

Lemma check_terminates_witness :
  (exists r, check 4096 demo_c1 0 8192 = Some r) /\
  (forall fuel, check fuel IoConcurrency_new 137438949376 8192 = None).
Proof.
  split.
  - apply (check_terminates demo_c1 0 8192); [vm_compute; split_and!; discriminate|].
    left. vm_compute. discriminate.
  - apply (check_terminates IoConcurrency_new 137438949376 8192).
    + vm_compute; split_and!; discriminate.
    + vm_compute; reflexivity.
    + vm_compute; reflexivity.
    + intros i. unfold shard. change (doingList_ IoConcurrency_new) with
        (replicate (Z.to_nat IO_SHARD_SIZE) ([] : IoShard)).
      destruct (decide (Z.to_nat i < Z.to_nat IO_SHARD_SIZE)%nat) as [H|H].
      * by rewrite lookup_total_replicate_2.
      * rewrite list_lookup_total_alt, lookup_ge_None_2; [done|]. rewrite length_replicate. lia.
Defined.

(** ** Behaviour the controller does not promise *)

(** A range that crosses a 32MB boundary is filed in its first shard only: a
    request that starts behind the boundary does not see it. *)
Lemma crossing_request_missed :
  let '(b1, c1) := default (false, IoConcurrency_new)
    (SendWriteRequest 4096 IoConcurrency_new (mkIoReq 33550336 8192) true) in
  let '(b2, _) := default (false, IoConcurrency_new)
    (SendWriteRequest 4096 c1 (mkIoReq 33554432 4096) true) in
  b1 = true /\ b2 = true /\ disjoint_ranges (33550336, 33558528) (33554432, 33558528) = false.
Proof. vm_compute. auto. Qed.

(** A request taken from the queue is not counted in [doingSize_] but its
    completion is: the counter of an idle controller underflows. *)
Lemma scheduled_request_uncounted :
  let c1 := run_send (run_send IoConcurrency_new demo_r1) demo_r1 in
  let '(next, c2) := default (None, c1) (OnWriteDone 4096 c1 4096 4096) in
  let '(_, c3) := default (None, c2) (OnWriteDone 4096 c2 4096 4096) in
  next = Some demo_r1 /\ concat (doingList_ c3) = [] /\ GetStats c3 = (u64_max, 0).
Proof. vm_compute. auto. Qed.
