(* ===== verification/Ring.v ===== *)
(** * The ring buffer of the client library

    [Ring] (src/clients/common/ring.h and ring.cpp), the queue between the
    threads that issue requests and the sender threads.  Positions are 32-bit
    counters that wrap around; a slot is a position modulo the power-of-two
    size.  This file has the methods as one thread runs them and their
    refinement of a bounded queue; RingConc.v has the interleavings of several
    producers and consumers. *)

From S2P Require Import Prelude Status.

#[local] Open Scope string_scope.
#[local] Open Scope Z_scope.

Inductive RingType : Type := RING_SP_SC | RING_MP_SC | RING_SP_MC | RING_MP_MC.

(** Objects are pointers, as integers; the counters are 32-bit. *)
Record Ring : Type := mkRing {
  size_ : Z;
  mask_ : Z;
  capacity_ : Z;
  prod_head_ : Z;
  prod_tail_ : Z;
  cons_head_ : Z;
  cons_tail_ : Z;
  type_ : RingType;
  is_sp_ : bool;
  is_sc_ : bool;
  slots_ : list Z
}.

Definition Ring_new (type : RingType) (size : Z) : Ring :=
  mkRing size 0 0 0 0 0 0 type false false [].

Definition PowerOf2 (size : Z) : bool := Z.land size (wrap32 (size - 1)) =? 0.

Definition sp_type (t : RingType) : bool :=
  match t with RING_SP_SC | RING_SP_MC => true | _ => false end.
Definition sc_type (t : RingType) : bool :=
  match t with RING_SP_SC | RING_MP_SC => true | _ => false end.

Definition Ring_Init (r : Ring) : Status * Ring :=
  if negb (PowerOf2 (size_ r)) then
    (mkStatus CYPRE_ER_INVALID_ARGUMENT "size must be power of 2", r)
  else
    let mask := wrap32 (size_ r - 1) in
    (Status_default,
     mkRing (size_ r) mask mask 0 0 0 0 (type_ r)
       (if sp_type (type_ r) then true else is_sp_ r)
       (if sc_type (type_ r) then true else is_sc_ r)
       (resize (Z.to_nat (size_ r)) 0 (slots_ r))).

Definition set_prod (r : Ring) (head tail : Z) (slots : list Z) : Ring :=
  mkRing (size_ r) (mask_ r) (capacity_ r) head tail (cons_head_ r) (cons_tail_ r) (type_ r)
    (is_sp_ r) (is_sc_ r) slots.
Definition set_cons (r : Ring) (head tail : Z) : Ring :=
  mkRing (size_ r) (mask_ r) (capacity_ r) (prod_head_ r) (prod_tail_ r) head tail (type_ r)
    (is_sp_ r) (is_sc_ r) (slots_ r).

(** [Enqueue] run by one thread: the exchange of the head succeeds.  [None]:
    the slot is outside the vector, or the wait for the tail never ends. *)
Definition Enqueue (r : Ring) (obj : Z) : option (Status * Ring) :=
  let prod_head := prod_head_ r in
  if wrap32 (capacity_ r + cons_tail_ r - prod_head) <=? 0 then
    Some (mkStatus CYPRE_C_RING_FULL "ring has full", r)
  else
    let prod_next := wrap32 (prod_head + 1) in
    let i := Z.to_nat (Z.land prod_head (mask_ r)) in
    _ ← slots_ r !! i;
    if negb (is_sp_ r) && negb (prod_tail_ r =? prod_head) then None
    else Some (Status_default, set_prod r prod_next prod_next (<[i := obj]> (slots_ r))).

(** [Dequeue]; the object is left alone when the ring is empty. *)
Definition Dequeue (r : Ring) : option (Status * option Z * Ring) :=
  let cons_head := cons_head_ r in
  if wrap32 (prod_tail_ r - cons_head) <=? 0 then
    Some (mkStatus CYPRE_C_RING_EMPTY "ring empty", None, r)
  else
    let cons_next := wrap32 (cons_head + 1) in
    obj ← slots_ r !! Z.to_nat (Z.land cons_head (mask_ r));
    if negb (is_sc_ r) && negb (cons_tail_ r =? cons_head) then None
    else Some (Status_default, Some obj, set_cons r cons_next cons_next).

Definition Used (r : Ring) : Z :=
  let count := Z.land (wrap32 (prod_tail_ r - cons_tail_ r)) (mask_ r) in
  if capacity_ r <? count then capacity_ r else count.
Definition Ring_Free (r : Ring) : Z := wrap32 (capacity_ r - Used r).
Definition RingFull (r : Ring) : bool := Ring_Free r =? 0.
Definition RingEmpty (r : Ring) : bool := Used r =? 0.
Definition Ring_Size (r : Ring) : Z := size_ r.
Definition Ring_Capacity (r : Ring) : Z := capacity_ r.

(** ** Refinement of a bounded queue *)

(** The slot of a position of a ring of [2 ^ k] slots. *)
Definition slot (k pos : Z) : nat := Z.to_nat (pos mod 2 ^ k).

(** [r] holds [q], oldest first: [t] objects were taken before. *)
Record holds (r : Ring) (k t : Z) (q : list Z) : Prop := {
  ho_k : 0 <= k < 32;
  ho_t : 0 <= t;
  ho_size : size_ r = 2 ^ k;
  ho_mask : mask_ r = 2 ^ k - 1;
  ho_cap : capacity_ r = 2 ^ k - 1;
  ho_len : Z.of_nat (length q) <= 2 ^ k - 1;
  ho_ph : prod_head_ r = wrap32 (t + Z.of_nat (length q));
  ho_pt : prod_tail_ r = wrap32 (t + Z.of_nat (length q));
  ho_ch : cons_head_ r = wrap32 t;
  ho_ct : cons_tail_ r = wrap32 t;
  ho_slots : Z.of_nat (length (slots_ r)) = 2 ^ k;
  ho_vals : forall i v, q !! i = Some v -> slots_ r !! slot k (t + Z.of_nat i) = Some v
}.

Definition ring_holds (r : Ring) (q : list Z) : Prop := exists k t, holds r k t q.

Lemma pow2_bounds k : 0 <= k < 32 -> 1 <= 2 ^ k <= 2147483648.
Proof.
  intros Hk. split; [lia|]. change 2147483648 with (2 ^ 31). apply Z.pow_le_mono_r; lia.
Qed.

Lemma wrap32_add_l x y : wrap32 (wrap32 x + y) = wrap32 (x + y).
Proof. unfold wrap32. by rewrite Z.add_mod_idemp_l. Qed.

Lemma wrap32_sub x y : wrap32 (wrap32 x - wrap32 y) = wrap32 (x - y).
Proof. unfold wrap32. by rewrite <- Zminus_mod. Qed.

(** The mask of a wrapped counter selects the slot of the unbounded position. *)
Lemma mask_slot k x : 0 <= k < 32 -> Z.to_nat (Z.land (wrap32 x) (2 ^ k - 1)) = slot k x.
Proof.
  intros Hk. unfold slot. f_equal. rewrite Z.sub_1_r, <- Z.ones_equiv, Z.land_ones by lia.
  unfold wrap32. change 4294967296 with (2 ^ 32). rewrite Z.mod_mod_divide; [done|].
  exists (2 ^ (32 - k)). rewrite <- Z.pow_add_r by lia. f_equal. lia.
Qed.

Lemma slot_lt k x : 0 <= k < 32 -> Z.of_nat (slot k x) < 2 ^ k.
Proof. intros Hk. unfold slot. pose proof (pow2_bounds k Hk). lia. Qed.

(** Positions less than the size apart have different slots. *)
Lemma slot_inj k x y : 0 <= k < 32 -> slot k x = slot k y -> Z.abs (x - y) < 2 ^ k -> x = y.
Proof.
  intros Hk E H. pose proof (pow2_bounds k Hk). unfold slot in E.
  assert (Em : x mod 2 ^ k = y mod 2 ^ k) by lia.
  apply Z.cong_iff_0 in Em. apply Z.mod_divide in Em as [c Hc]; [|lia].
  assert (c = 0) by nia. lia.
Qed.

Lemma PowerOf2_pow k : 0 <= k < 32 -> PowerOf2 (2 ^ k) = true.
Proof.
  intros Hk. pose proof (pow2_bounds k Hk). unfold PowerOf2. rewrite wrap32_small by (unfold is_u32; lia).
  rewrite Z.sub_1_r, <- Z.ones_equiv, Z.land_ones by lia. apply Z.eqb_eq, Z_mod_same_full.
Qed.

Lemma wrap32_next x : wrap32 (wrap32 x + 1) = wrap32 (x + 1).
Proof. apply wrap32_add_l. Qed.

Lemma Init_holds type k :
  0 <= k < 32 ->
  exists r, Ring_Init (Ring_new type (2 ^ k)) = (Status_default, r) /\ holds r k 0 [].
Proof.
  intros Hk. pose proof (pow2_bounds k Hk). unfold Ring_Init. cbn [size_ Ring_new].
  rewrite (PowerOf2_pow k Hk). cbn [negb]. eexists. split; [done|].
  rewrite wrap32_small by (unfold is_u32; lia).
  split; cbn [size_ mask_ capacity_ prod_head_ prod_tail_ cons_head_ cons_tail_ slots_ length];
    try done; try lia.
  rewrite length_resize. lia.
Qed.

Lemma Enqueue_holds r k t q obj :
  holds r k t q ->
  exists s r', Enqueue r obj = Some (s, r') /\
    if Z.of_nat (length q) <? 2 ^ k - 1 then s = Status_default /\ holds r' k t (q ++ [obj])
    else code s = CYPRE_C_RING_FULL /\ r' = r.
Proof.
  intros [Hk Ht Hsz Hm Hc Hl Eph Ept Ech Ect Hs Hv]. pose proof (pow2_bounds k Hk) as Hb.
  unfold Enqueue. rewrite Hm, Hc, Eph, Ept, Ect.
  replace (wrap32 (2 ^ k - 1 + wrap32 t - wrap32 (t + Z.of_nat (length q))))
    with (2 ^ k - 1 - Z.of_nat (length q)).
  2:{ unfold wrap32. lia. }
  destruct (Z.ltb_spec (Z.of_nat (length q)) (2 ^ k - 1)).
  - rewrite (proj2 (Z.leb_gt _ 0)) by lia. rewrite mask_slot by done. set (i := slot k _).
    assert (Hi : Z.of_nat i < 2 ^ k) by (by apply slot_lt).
    destruct (lookup_lt_is_Some_2 (slots_ r) i) as [old ->]; [lia|]. cbn [mbind option_bind].
    rewrite Z.eqb_refl, andb_false_r. do 2 eexists. split; [done|]. split; [done|].
    rewrite wrap32_next.
    split; cbn [set_prod size_ mask_ capacity_ prod_head_ prod_tail_ cons_head_ cons_tail_ slots_];
      rewrite ?length_app, ?length_insert; cbn [length]; try done; try lia; try (f_equal; lia).
    intros j v Hj. apply lookup_app_Some in Hj as [Hj|[Hge Hj]].
    + rewrite list_lookup_insert_ne; [by apply Hv|]. intros E. apply slot_inj in E; [|done|].
      all: apply lookup_lt_Some in Hj; lia.
    + apply list_lookup_singleton_Some in Hj as [Ej <-].
      replace (slot k (t + Z.of_nat j)) with i by (unfold i; do 2 f_equal; lia).
      apply list_lookup_insert_eq. lia.
  - rewrite (proj2 (Z.leb_le _ 0)) by lia. do 2 eexists. by split.
Qed.

Lemma Dequeue_holds r k t q :
  holds r k t q ->
  exists s v r', Dequeue r = Some (s, v, r') /\
    match q with
    | obj :: q' => s = Status_default /\ v = Some obj /\ holds r' k (t + 1) q'
    | [] => code s = CYPRE_C_RING_EMPTY /\ v = None /\ r' = r
    end.
Proof.
  intros [Hk Ht Hsz Hm Hc Hl Eph Ept Ech Ect Hs Hv]. pose proof (pow2_bounds k Hk) as Hb.
  unfold Dequeue. rewrite Hm, Ept, Ech, Ect, wrap32_sub, Z.add_simpl_l.
  rewrite (wrap32_small (Z.of_nat _)) by (unfold is_u32; lia).
  destruct q as [|obj q]; cbn [length].
  - rewrite (proj2 (Z.leb_le _ 0)) by lia. do 3 eexists. by split.
  - rewrite (proj2 (Z.leb_gt _ 0)) by lia. rewrite mask_slot by done.
    pose proof (Hv 0%nat obj eq_refl) as H0. rewrite Z.add_0_r in H0. rewrite H0. cbn [mbind option_bind].
    rewrite Z.eqb_refl, andb_false_r. do 3 eexists. split; [done|]. split; [done|]. split; [done|].
    rewrite wrap32_next. cbn [length] in *.
    split; cbn [set_cons size_ mask_ capacity_ prod_head_ prod_tail_ cons_head_ cons_tail_ slots_];
      try done; try lia; try (rewrite ?Eph, ?Ept; f_equal; lia).
    intros i v Hi. replace (t + 1 + Z.of_nat i) with (t + Z.of_nat (S i)) by lia. by apply Hv.
Qed.

Lemma Used_holds r k t q : holds r k t q -> Used r = Z.of_nat (length q).
Proof.
  intros [Hk Ht Hsz Hm Hc Hl Eph Ept Ech Ect Hs Hv]. pose proof (pow2_bounds k Hk) as Hb.
  unfold Used. rewrite Ept, Ect, Hm, Hc, wrap32_sub, Z.add_simpl_l.
  rewrite wrap32_small by (unfold is_u32; lia).
  rewrite Z.sub_1_r, <- Z.ones_equiv, Z.land_ones, Z.mod_small by lia.
  rewrite (proj2 (Z.ltb_ge _ _)); [done|]. rewrite Z.ones_equiv. lia.
Qed.

(** ** Claims *)

(** the ring is a first-in first-out queue of one object less than its
    size, for ever: the 32-bit counters may wrap any number of times.  A ring
    of a power of two is empty after [Init]; [Enqueue] appends the object or,
    on a full ring, reports RING_FULL and changes nothing; [Dequeue] removes
    the oldest object or reports RING_EMPTY; and [Used] and [Free] count. *)
Theorem ring_refines_queue :
  (forall type k, 0 <= k < 32 ->
     exists r, Ring_Init (Ring_new type (2 ^ k)) = (Status_default, r) /\
       ring_holds r [] /\ Ring_Capacity r = 2 ^ k - 1) /\
  (forall r q, ring_holds r q ->
     Used r = Z.of_nat (length q) /\ Ring_Free r = Ring_Capacity r - Z.of_nat (length q) /\
     (forall obj, exists s r', Enqueue r obj = Some (s, r') /\ Ring_Capacity r' = Ring_Capacity r /\
        if RingFull r then code s = CYPRE_C_RING_FULL /\ r' = r
        else s = Status_default /\ ring_holds r' (q ++ [obj])) /\
     (exists s v r', Dequeue r = Some (s, v, r') /\ Ring_Capacity r' = Ring_Capacity r /\
        match q with
        | [] => code s = CYPRE_C_RING_EMPTY /\ v = None /\ r' = r
        | obj :: q' => s = Status_default /\ v = Some obj /\ ring_holds r' q'
        end)).
Proof.
  split.
  - intros type k Hk. destruct (Init_holds type k Hk) as (r & E & H). exists r.
    split_and!; [done|by exists k, 0|apply H].
  - intros r q (k & t & H). pose proof (Used_holds _ _ _ _ H) as Hu.
    pose proof (pow2_bounds k (ho_k _ _ _ _ H)) as Hb. pose proof (ho_len _ _ _ _ H) as Hl.
    assert (Hf : Ring_Free r = 2 ^ k - 1 - Z.of_nat (length q)).
    { unfold Ring_Free. rewrite Hu, (ho_cap _ _ _ _ H), wrap32_small; [done|unfold is_u32; lia]. }
    unfold Ring_Capacity, RingFull. rewrite Hf, (ho_cap _ _ _ _ H). split_and!; [done|done| |].
    + intros obj. destruct (Enqueue_holds r k t q obj H) as (s & r' & E & Hr). exists s, r'.
      split; [done|]. destruct (Z.ltb_spec (Z.of_nat (length q)) (2 ^ k - 1)).
      * destruct Hr as [-> Hr]. rewrite (proj2 (Z.eqb_neq _ 0)) by lia.
        split_and!; [apply Hr|done|by exists k, t].
      * destruct Hr as [? ->]. rewrite (proj2 (Z.eqb_eq _ 0)) by lia. split_and!; [apply H|done|done].
    + destruct (Dequeue_holds r k t q H) as (s & v & r' & E & Hr). exists s, v, r'.
      split; [done|]. destruct q as [|obj q].
      * destruct Hr as (? & ? & ->). split_and!; [apply H|done..].
      * destruct Hr as (-> & -> & Hr). split_and!; [apply Hr|done|done|by exists k, (t + 1)].
Qed.

(** A ring of size zero passes [Init] but has no slot: the first [Enqueue]
    stores outside the vector. *)
Lemma zero_size_ring obj :
  let '(s, r) := Ring_Init (Ring_new RING_MP_SC 0) in ok s = true /\ Enqueue r obj = None.
Proof. vm_compute. auto. Qed.
