(* ===== verification/RingConc.v ===== *)
(** * The ring buffer under concurrency

    [Ring::Enqueue] and [Ring::Dequeue] (src/clients/common/ring.cpp) run by
    any number of threads, one atomic access per step.  The two methods have
    the same shape: load the head of the own side, compare it with the tail of
    the other side, advance the head (by a store when the side has one thread,
    by compare-and-exchange otherwise), use the slot, wait until the tail of
    the own side reaches the slot (unless the side has one thread) and advance
    it.  A side of the ring is therefore one relation, used twice.

    The atomics are sequentially consistent here.  Counters are kept without
    bound and the code sees them modulo 2^32; that a thread does not sleep
    through 2^32 operations between its load and its exchange, when the
    exchange could not tell the difference, is a premise of the exchange. *)

From S2P Require Import Prelude Status Ring.

(** ** One side *)

(** Where a thread is, with its local copy of the head: before the load, after
    it, after the comparison, after the head was advanced, after the slot was
    used, and after the tail was seen to have arrived. *)
Inductive Stage : Type :=
  | Start
  | Loaded (pos : Z)
  | Checked (pos : Z)
  | Reserved (pos : Z)
  | Acted (pos : Z)
  | Ready (pos : Z).

(** A thread's stage and object: the one to store, or the one read. *)
Record Side : Type := mkSide {
  head_ : Z;
  tail_ : Z;
  threads : gmap nat (Stage * Z)
}.

Definition set_thread (s : Side) (t : nat) (st : Stage) (v : Z) : Side :=
  mkSide (head_ s) (tail_ s) (<[t := (st, v)]> (threads s)).

(** What a step does outside its side. *)
Inductive Event : Type :=
  | ETau
  | EReserve (v : Z)
  | EAct (pos v v' : Z)
  | EPublish (v : Z).

(** [single]: [is_sp_] or [is_sc_]; [free pos]: the comparison with the other
    side lets the thread go on. *)
Inductive side_step (single : bool) (free : Z -> bool) (s : Side) : Event -> Side -> Prop :=
  | ss_call t v :
      threads s !! t = None -> (single = true -> t = O) ->
      side_step single free s ETau (set_thread s t Start v)
  | ss_load t v :
      threads s !! t = Some (Start, v) ->
      side_step single free s ETau (set_thread s t (Loaded (head_ s)) v)
  | ss_refused t pos v :
      threads s !! t = Some (Loaded pos, v) -> free pos = false ->
      side_step single free s ETau (mkSide (head_ s) (tail_ s) (delete t (threads s)))
  | ss_checked t pos v :
      threads s !! t = Some (Loaded pos, v) -> free pos = true ->
      side_step single free s ETau (set_thread s t (Checked pos) v)
  | ss_exchange_failed t pos v :
      threads s !! t = Some (Checked pos, v) -> single = false ->
      side_step single free s ETau (set_thread s t Start v)
  | ss_reserve t pos v :
      threads s !! t = Some (Checked pos, v) ->
      (single = false -> wrap32 (head_ s) = wrap32 pos /\ head_ s - pos < 4294967296) ->
      side_step single free s (EReserve v)
        (mkSide (pos + 1) (tail_ s) (<[t := (Reserved pos, v)]> (threads s)))
  | ss_act t pos v v' :
      threads s !! t = Some (Reserved pos, v) ->
      side_step single free s (EAct pos v v') (set_thread s t (Acted pos) v')
  | ss_arrived t pos v :
      threads s !! t = Some (Acted pos, v) -> (single = false -> wrap32 (tail_ s) = wrap32 pos) ->
      side_step single free s ETau (set_thread s t (Ready pos) v)
  | ss_publish t pos v :
      threads s !! t = Some (Ready pos, v) ->
      side_step single free s (EPublish v)
        (mkSide (head_ s) (pos + 1) (delete t (threads s))).

(** ** The ring *)

Section Concurrent.

(** The ring has [2 ^ k] slots. *)
Context (k : Z) (is_sp is_sc : bool).

Definition cap : Z := 2 ^ k - 1.

(** The two sides and the slots; [put] are the objects in the order their
    positions were taken, [done_in] and [done_out] the objects in the order
    [Enqueue] and [Dequeue] finished. *)
Record RingState : Type := mkRingState {
  producers : Side;
  consumers : Side;
  slots : list Z;
  put : list Z;
  done_in : list Z;
  done_out : list Z
}.

Definition prod_free (s : RingState) (pos : Z) : bool :=
  negb (wrap32 (cap + wrap32 (tail_ (consumers s)) - wrap32 pos) <=? 0).
Definition cons_free (s : RingState) (pos : Z) : bool :=
  negb (wrap32 (wrap32 (tail_ (producers s)) - wrap32 pos) <=? 0).

(** The slot [pos & mask_]. *)
Definition code_slot (pos : Z) : nat := Z.to_nat (Z.land (wrap32 pos) (2 ^ k - 1)).

Definition after_prod (s : RingState) (p : Side) (e : Event) : RingState :=
  match e with
  | ETau => mkRingState p (consumers s) (slots s) (put s) (done_in s) (done_out s)
  | EReserve v => mkRingState p (consumers s) (slots s) (put s ++ [v]) (done_in s) (done_out s)
  | EAct pos v _ =>
      mkRingState p (consumers s) (<[code_slot pos := v]> (slots s)) (put s) (done_in s) (done_out s)
  | EPublish v => mkRingState p (consumers s) (slots s) (put s) (done_in s ++ [v]) (done_out s)
  end.

Definition after_cons (s : RingState) (c : Side) (e : Event) : RingState :=
  match e with
  | EPublish v => mkRingState (producers s) c (slots s) (put s) (done_in s) (done_out s ++ [v])
  | _ => mkRingState (producers s) c (slots s) (put s) (done_in s) (done_out s)
  end.

Inductive ring_step (s : RingState) : RingState -> Prop :=
  | rs_enqueue e p :
      side_step is_sp (prod_free s) (producers s) e p ->
      (forall pos v v', e = EAct pos v v' -> v' = v) ->
      ring_step s (after_prod s p e)
  | rs_dequeue e c :
      side_step is_sc (cons_free s) (consumers s) e c ->
      (forall pos v v', e = EAct pos v v' -> slots s !! code_slot pos = Some v') ->
      ring_step s (after_cons s c e).

Definition ring_init : RingState :=
  mkRingState (mkSide 0 0 ∅) (mkSide 0 0 ∅) (replicate (Z.to_nat (2 ^ k)) 0) [] [] [].

End Concurrent.

(** ** The invariant of a side *)

(** The position a thread owns. *)
Definition owns (st : Stage) : option Z :=
  match st with Reserved p | Acted p | Ready p => Some p | _ => None end.

(** [limit]: the head may not pass it. *)
Definition stage_ok (limit : Z) (s : Side) (st : Stage) : Prop :=
  match st with
  | Start => True
  | Loaded p => 0 <= p <= head_ s
  | Checked p => 0 <= p <= head_ s /\ p < limit
  | Reserved p | Acted p => tail_ s <= p < head_ s
  | Ready p => p = tail_ s /\ p < head_ s
  end.

(** With a single thread nothing moves but by that thread. *)
Definition single_ok (s : Side) (st : option Stage) : Prop :=
  match st with
  | Some (Loaded p) | Some (Checked p) => p = head_ s /\ tail_ s = head_ s
  | Some (Reserved p) | Some (Acted p) | Some (Ready p) => p = tail_ s /\ head_ s = p + 1
  | _ => tail_ s = head_ s
  end.

Record side_inv (single : bool) (limit : Z) (s : Side) : Prop := {
  si_order : 0 <= tail_ s <= head_ s /\ head_ s <= limit;
  si_stage : forall t st v, threads s !! t = Some (st, v) -> stage_ok limit s st;
  si_owner : forall t1 t2 st1 st2 v1 v2 p,
    threads s !! t1 = Some (st1, v1) -> threads s !! t2 = Some (st2, v2) ->
    owns st1 = Some p -> owns st2 = Some p -> t1 = t2;
  si_owned : forall p, tail_ s <= p < head_ s ->
    exists t st v, threads s !! t = Some (st, v) /\ owns st = Some p;
  si_single : single = true ->
    (forall t x, threads s !! t = Some x -> t = O) /\ single_ok s (fst <$> threads s !! O)
}.

#[local] Hint Extern 1 (_ = _) => congruence : core.

Lemma side_inv_limit single limit limit' s :
  side_inv single limit s -> limit <= limit' -> side_inv single limit' s.
Proof.
  intros [Ho Hst Hw Hc Hs] Hl. split; [lia| |done|done|done].
  intros t st v E. specialize (Hst t st v E). destruct st; simpl in *; lia.
Qed.

(** A thread moves on without moving a counter. *)
Lemma set_thread_inv single limit s t st' v' :
  side_inv single limit s ->
  owns st' = threads s !! t ≫= (fun x => owns x.1) ->
  stage_ok limit s st' -> (single = true -> t = O /\ single_ok s (Some st')) ->
  side_inv single limit (set_thread s t st' v').
Proof.
  intros [Ho Hst Hw Hc Hs] Eo Hok Hsg.
  assert (Hlk : forall t1 st1 v1, threads (set_thread s t st' v') !! t1 = Some (st1, v1) ->
    t1 = t /\ st1 = st' \/ t1 <> t /\ threads s !! t1 = Some (st1, v1)).
  { intros t1 st1 v1. simpl. rewrite lookup_insert_Some. intros [[<- [= <- <-]]|[? ?]]; auto. }
  assert (Hold : forall p, owns st' = Some p -> exists st v, threads s !! t = Some (st, v) /\ owns st = Some p).
  { intros p E. rewrite E in Eo. destruct (threads s !! t) as [[st v]|]; [|discriminate]. eauto. }
  split; [done| | | |].
  - intros t1 st1 v1 E. apply Hlk in E as [[-> ->]|[_ E]]; [by destruct st'|].
    specialize (Hst _ _ _ E). by destruct st1.
  - intros t1 t2 st1 st2 v1 v2 p E1 E2 O1 O2.
    apply Hlk in E1 as [[-> ->]|[N1 E1]]; apply Hlk in E2 as [[-> ->]|[N2 E2]]; [done| | |eauto].
    + destruct (Hold p O1) as (? & ? & ? & ?). eauto.
    + destruct (Hold p O2) as (? & ? & ? & ?). eauto.
  - intros p Hp. destruct (Hc p Hp) as (t1 & st1 & v1 & E1 & O1). simpl.
    destruct (decide (t1 = t)) as [->|N].
    + exists t, st', v'. rewrite lookup_insert_eq. split; [done|]. by rewrite Eo, E1.
    + exists t1, st1, v1. by rewrite lookup_insert_ne.
  - intros Es. destruct (Hs Es) as [H0 H1]. destruct (Hsg Es) as [-> Hsg']. split.
    + intros t1 x E. simpl in E. apply lookup_insert_Some in E as [[<- _]|[_ E]]; eauto.
    + simpl. by rewrite lookup_insert_eq.
Qed.

(** A thread that owns nothing returns. *)
Lemma refused_inv single limit s t st v :
  side_inv single limit s -> threads s !! t = Some (st, v) -> owns st = None ->
  side_inv single limit (mkSide (head_ s) (tail_ s) (delete t (threads s))).
Proof.
  intros [Ho Hst Hw Hc Hs] E O. split; simpl; [done| | | |].
  - intros t1 st1 v1 [_ E1]%lookup_delete_Some. specialize (Hst _ _ _ E1). by destruct st1.
  - intros t1 t2 st1 st2 v1 v2 p [_ E1]%lookup_delete_Some [_ E2]%lookup_delete_Some. eauto.
  - intros p Hp. destruct (Hc p Hp) as (t1 & st1 & v1 & E1 & O1). exists t1, st1, v1.
    rewrite lookup_delete_ne; auto. intros <-. congruence.
  - intros Es. destruct (Hs Es) as [H0 H1]. split; [intros t1 x [_ E1]%lookup_delete_Some; eauto|].
    specialize (H0 _ _ E) as ->. rewrite lookup_delete_eq. simpl. rewrite E in H1. simpl in H1.
    destruct st; try discriminate; simpl in *; lia.
Qed.

Lemma reserve_inv single limit s t v :
  side_inv single limit s -> threads s !! t = Some (Checked (head_ s), v) ->
  side_inv single limit
    (mkSide (head_ s + 1) (tail_ s) (<[t := (Reserved (head_ s), v)]> (threads s))).
Proof.
  intros [Ho Hst Hw Hc Hs] E. pose proof (Hst _ _ _ E) as Hok. simpl in Hok.
  assert (Hlt : forall t1 st1 v1 p, threads s !! t1 = Some (st1, v1) -> owns st1 = Some p -> p < head_ s).
  { intros t1 st1 v1 p E1 O1. specialize (Hst _ _ _ E1). destruct st1; simplify_eq/=; lia. }
  split; simpl; [lia| | | |].
  - intros t1 st1 v1 [[<- [= <- <-]]|[_ E1]]%lookup_insert_Some; [simpl; lia|].
    specialize (Hst _ _ _ E1). destruct st1; simpl in *; lia.
  - intros t1 t2 st1 st2 v1 v2 p [[<- [= <- <-]]|[N1 E1]]%lookup_insert_Some
      [[<- [= <- <-]]|[N2 E2]]%lookup_insert_Some O1 O2; [done| | |eauto].
    + specialize (Hlt _ _ _ _ E2 O2). simplify_eq/=. lia.
    + specialize (Hlt _ _ _ _ E1 O1). simplify_eq/=. lia.
  - intros p Hp. destruct (decide (p = head_ s)) as [->|N].
    + exists t. do 2 eexists. by rewrite lookup_insert_eq.
    + destruct (Hc p ltac:(lia)) as (t1 & st1 & v1 & E1 & O1). exists t1, st1, v1.
      rewrite lookup_insert_ne; auto. intros <-. rewrite E in E1. by simplify_eq/=.
  - intros Es. destruct (Hs Es) as [H0 H1]. split.
    + intros t1 x [[<- _]|[_ E1]]%lookup_insert_Some; eauto.
    + specialize (H0 _ _ E) as ->. rewrite lookup_insert_eq. simpl. rewrite E in H1. simpl in H1. lia.
Qed.

Lemma publish_inv single limit s t pos v :
  side_inv single limit s -> threads s !! t = Some (Ready pos, v) ->
  side_inv single limit (mkSide (head_ s) (pos + 1) (delete t (threads s))).
Proof.
  intros [Ho Hst Hw Hc Hs] E. pose proof (Hst _ _ _ E) as Hok. simpl in Hok.
  assert (Hne : forall t1 st1 v1 p, t1 <> t -> threads s !! t1 = Some (st1, v1) -> owns st1 = Some p ->
    p <> tail_ s).
  { intros t1 st1 v1 p N E1 O1 ->. apply N. apply (Hw t1 t _ _ _ _ (tail_ s) E1 E O1). simpl. f_equal. lia. }
  split; simpl; [lia| | | |].
  - intros t1 st1 v1 [N E1]%lookup_delete_Some. pose proof (Hst _ _ _ E1) as H1.
    pose proof (fun p => Hne t1 st1 v1 p (not_eq_sym N) E1) as H2.
    destruct st1; simpl in *; try lia; specialize (H2 _ eq_refl); lia.
  - intros t1 t2 st1 st2 v1 v2 p [_ E1]%lookup_delete_Some [_ E2]%lookup_delete_Some. eauto.
  - intros p Hp. destruct (Hc p ltac:(lia)) as (t1 & st1 & v1 & E1 & O1). exists t1, st1, v1.
    rewrite lookup_delete_ne; auto. intros <-. rewrite E in E1. simplify_eq/=. lia.
  - intros Es. destruct (Hs Es) as [H0 H1]. split; [intros t1 x [_ E1]%lookup_delete_Some; eauto|].
    specialize (H0 _ _ E) as ->. rewrite lookup_delete_eq. rewrite E in H1. simpl in *. lia.
Qed.

Lemma wrap32_inj x y : wrap32 x = wrap32 y -> Z.abs (x - y) < 4294967296 -> x = y.
Proof. unfold wrap32. lia. Qed.

(** A head is advanced from where it is. *)
Lemma reserve_at_head single limit s t pos v :
  side_inv single limit s -> threads s !! t = Some (Checked pos, v) ->
  (single = false -> wrap32 (head_ s) = wrap32 pos /\ head_ s - pos < 4294967296) -> pos = head_ s.
Proof.
  intros [_ Hs _ _ Hsg] E Ec. specialize (Hs _ _ _ E). simpl in Hs. destruct single.
  - destruct (Hsg eq_refl) as [H0 H1]. specialize (H0 _ _ E) as ->. rewrite E in H1. simpl in H1. lia.
  - destruct (Ec eq_refl) as [Ew Hd]. symmetry. apply wrap32_inj; [done|lia].
Qed.

Lemma side_step_inv single free limit s e s' :
  side_inv single limit s -> side_step single free s e s' ->
  (forall p, 0 <= p <= limit -> free p = true -> p < limit) -> limit - tail_ s < 4294967296 ->
  side_inv single limit s'.
Proof.
  intros I Hst Hfree Hlim. pose proof I as [Ho Hs Hw Hc Hsg].
  destruct Hst as [t v E Et|t v E|t pos v E Ef|t pos v E Ef|t pos v E Es|t pos v E Ec|t pos v v' E|t pos v E Ea|t pos v E].
  - apply set_thread_inv; [done|by rewrite E|done|]. intros Es. destruct (Hsg Es) as [_ H1].
    split; [auto|]. rewrite (Et Es) in E. rewrite E in H1. done.
  - apply set_thread_inv; [done|by rewrite E|simpl; lia|]. intros Es. destruct (Hsg Es) as [H0 H1].
    specialize (H0 _ _ E) as ->. rewrite E in H1. simpl in *. auto.
  - by eapply refused_inv.
  - specialize (Hs _ _ _ E). simpl in Hs.
    apply set_thread_inv; [done|by rewrite E|simpl; split; [lia|apply Hfree; [lia|done]]|].
    intros Es. destruct (Hsg Es) as [H0 H1]. specialize (H0 _ _ E) as ->. rewrite E in H1. done.
  - apply set_thread_inv; [done|by rewrite E|done|congruence].
  - pose proof (reserve_at_head _ _ _ _ _ _ I E Ec) as ->. by apply reserve_inv.
  - apply set_thread_inv; [done|by rewrite E|exact (Hs _ _ _ E)|].
    intros Es. destruct (Hsg Es) as [H0 H1]. specialize (H0 _ _ E) as ->. by rewrite E in H1.
  - specialize (Hs _ _ _ E). simpl in Hs.
    assert (pos = tail_ s).
    { destruct single; [|symmetry; apply wrap32_inj; [auto|lia]].
      destruct (Hsg eq_refl) as [H0 H1]. specialize (H0 _ _ E) as ->. rewrite E in H1. simpl in H1. lia. }
    apply set_thread_inv; [done|by rewrite E|simpl; lia|].
    intros Es. destruct (Hsg Es) as [H0 H1]. specialize (H0 _ _ E) as ->. by rewrite E in H1.
  - by eapply publish_inv.
Qed.

(** ** What a step of a side changes *)

Definition written (st : Stage) : bool :=
  match st with Acted _ | Ready _ => true | _ => false end.

(** Some thread owns position [p] with object [v] and has used the slot or
    not. *)
Definition owner (s : Side) (p v : Z) (w : bool) : Prop :=
  exists t st, threads s !! t = Some (st, v) /\ owns st = Some p /\ written st = w.

Definition side_effect (s : Side) (e : Event) (s' : Side) : Prop :=
  match e with
  | ETau => head_ s' = head_ s /\ tail_ s' = tail_ s /\
      (forall p v w, owner s' p v w -> owner s p v w)
  | EReserve v => head_ s' = head_ s + 1 /\ tail_ s' = tail_ s /\
      (forall p x w, owner s' p x w -> owner s p x w \/ p = head_ s /\ x = v /\ w = false)
  | EAct pos v v' => head_ s' = head_ s /\ tail_ s' = tail_ s /\ owner s pos v false /\
      (forall p x w, owner s' p x w -> p <> pos /\ owner s p x w \/ p = pos /\ x = v')
  | EPublish v => head_ s' = head_ s /\ tail_ s' = tail_ s + 1 /\ owner s (tail_ s) v true /\
      (forall p x w, owner s' p x w -> owner s p x w /\ p <> tail_ s)
  end.

Lemma owner_insert s t st v p x w h tl :
  owner (mkSide h tl (<[t := (st, v)]> (threads s))) p x w ->
  owns st = Some p /\ x = v /\ written st = w \/
  exists t1 st1, t1 <> t /\ threads s !! t1 = Some (st1, x) /\ owns st1 = Some p /\ written st1 = w.
Proof.
  intros (t1 & st1 & E & O & W). simpl in E.
  apply lookup_insert_Some in E as [[<- [= <- <-]]|[N E]]; [by left|]. right. exists t1, st1. auto.
Qed.

Lemma owner_bounds single limit s p v w :
  side_inv single limit s -> owner s p v w -> tail_ s <= p < head_ s.
Proof.
  intros I (t & st & E & O & _). pose proof (si_stage _ _ _ I _ _ _ E) as H. pose proof (si_order _ _ _ I).
  destruct st; simplify_eq/=; lia.
Qed.

Lemma side_step_effect single limit free s e s' :
  side_inv single limit s -> side_step single free s e s' -> side_effect s e s'.
Proof.
  intros I Hst. pose proof I as [Ho Hs Hw Hc Hsg].
  destruct Hst as [t v E Et|t v E|t pos v E Ef|t pos v E Ef|t pos v E Es|t pos v E Ec|t pos v v' E|t pos v E Ea|t pos v E];
    simpl; (split; [|split]); try done.
  1, 2, 4, 5: intros p x w [(? & _)|(t1 & st1 & _ & H)]%owner_insert; [done|by exists t1, st1].
  - intros p x w (t1 & st1 & E1 & H). simpl in E1. apply lookup_delete_Some in E1 as [_ E1]. by exists t1, st1.
  - rewrite (reserve_at_head _ _ _ _ _ _ I E Ec). done.
  - intros p x w [(O & -> & W)|(t1 & st1 & _ & H)]%owner_insert; [|left; by exists t1, st1].
    right. injection O as <-. by rewrite (reserve_at_head _ _ _ _ _ _ I E Ec).
  - split; [by exists t, (Reserved pos)|].
    intros p x w [(O & -> & _)|(t1 & st1 & N & E1 & O1 & W1)]%owner_insert.
    + right. simpl in O. by simplify_eq.
    + left. split; [|by exists t1, st1]. intros ->. apply N. by eapply (Hw t1 t).
  - intros p x w [(O & -> & W)|(t1 & st1 & _ & H)]%owner_insert; [|by exists t1, st1].
    by exists t, (Acted pos).
  - specialize (Hs _ _ _ E). simpl in Hs. lia.
  - specialize (Hs _ _ _ E). simpl in Hs. destruct Hs as [-> Hlt]. split; [by exists t, (Ready (tail_ s))|].
    intros p x w (t1 & st1 & E1 & O1 & W1). simpl in E1. apply lookup_delete_Some in E1 as [N E1].
    split; [by exists t1, st1|]. intros ->. apply N. by eapply (Hw t t1).
Qed.

(** ** The invariant of the ring *)

Section Invariant.
Context (k : Z) (is_sp is_sc : bool) (Hk : 0 <= k < 32).

Record ring_inv (s : RingState) : Prop := {
  ri_prod : side_inv is_sp (tail_ (consumers s) + cap k) (producers s);
  ri_cons : side_inv is_sc (tail_ (producers s)) (consumers s);
  ri_put : Z.of_nat (length (put s)) = head_ (producers s);
  ri_len : Z.of_nat (length (slots s)) = 2 ^ k;
  ri_obj : forall p v w, owner (producers s) p v w -> put s !! Z.to_nat p = Some v;
  ri_slot : forall p v,
    tail_ (consumers s) <= p < tail_ (producers s) \/ owner (producers s) p v true ->
    put s !! Z.to_nat p = Some v -> slots s !! slot k p = Some v;
  ri_read : forall p v, owner (consumers s) p v true -> put s !! Z.to_nat p = Some v;
  ri_in : done_in s = take (Z.to_nat (tail_ (producers s))) (put s);
  ri_out : done_out s = take (Z.to_nat (tail_ (consumers s))) (put s)
}.

Lemma ring_init_inv : ring_inv (ring_init k).
Proof.
  pose proof (pow2_bounds k Hk).
  assert (Hno : forall p v w, ~ owner (mkSide 0 0 ∅) p v w).
  { intros p v w (t & st & E & _). simpl in E. by rewrite lookup_empty in E. }
  assert (Hside : forall single limit, 0 <= limit -> side_inv single limit (mkSide 0 0 ∅)).
  { intros single limit Hl. split; simpl; [lia| | |lia|].
    - intros t st v E. by rewrite lookup_empty in E.
    - intros t1 t2 st1 st2 v1 v2 p E. by rewrite lookup_empty in E.
    - intros _. split; [intros t x E|done]. by rewrite lookup_empty in E. }
  split; cbn [ring_init producers consumers put slots done_in done_out head_ tail_].
  - apply Hside. unfold cap. lia.
  - by apply Hside.
  - done.
  - rewrite length_replicate. lia.
  - intros p v w Ho. by apply Hno in Ho.
  - intros p v [?|Ho]; [lia|by apply Hno in Ho].
  - intros p v Ho. by apply Hno in Ho.
  - done.
  - done.
Qed.

Lemma ring_order s :
  ring_inv s ->
  0 <= tail_ (consumers s) <= head_ (consumers s) /\
  head_ (consumers s) <= tail_ (producers s) <= head_ (producers s) /\
  head_ (producers s) <= tail_ (consumers s) + cap k.
Proof. intros I. pose proof (si_order _ _ _ (ri_prod _ I)). pose proof (si_order _ _ _ (ri_cons _ I)). lia. Qed.

Lemma prod_free_sound s p :
  ring_inv s -> 0 <= p <= tail_ (consumers s) + cap k -> prod_free k s p = true ->
  p < tail_ (consumers s) + cap k.
Proof.
  intros _ Hp. unfold prod_free. rewrite negb_true_iff, Z.leb_gt. intros H.
  destruct (decide (p = tail_ (consumers s) + cap k)) as [->|]; [|lia].
  unfold wrap32 in H. lia.
Qed.

Lemma cons_free_sound s p :
  0 <= p <= tail_ (producers s) -> cons_free s p = true -> p < tail_ (producers s).
Proof.
  intros Hp. unfold cons_free. rewrite negb_true_iff, Z.leb_gt. intros H.
  destruct (decide (p = tail_ (producers s))) as [->|]; [|lia]. unfold wrap32 in H. lia.
Qed.

Lemma code_slot_slot p : code_slot k p = slot k p.
Proof. by apply mask_slot. Qed.

Ltac ring_fields := cbn [after_prod after_cons producers consumers slots put done_in done_out].

Lemma enqueue_reserve_inv s v p :
  ring_inv s -> side_inv is_sp (tail_ (consumers s) + cap k) p ->
  side_effect (producers s) (EReserve v) p -> ring_inv (after_prod k s p (EReserve v)).
Proof.
  intros I Ip (Eh & Et & Hown). pose proof (ring_order s I) as Ho.
  destruct I as [Hp Hc Hput Hlen Hobj Hslot Hread Hin Hout].
  assert (Hnew : forall q x, put s !! Z.to_nat q = Some x -> (put s ++ [v]) !! Z.to_nat q = Some x).
  { intros. by apply lookup_app_l_Some. }
  split; ring_fields; rewrite ?Eh, ?Et; eauto.
  - rewrite length_app. simpl. lia.
  - intros q x w [H|(-> & -> & _)]%Hown; [by eapply Hnew, Hobj|].
    rewrite lookup_app_r, list_lookup_singleton_Some by lia. split; [lia|done].
  - intros q x H E.
    assert (Hold : tail_ (consumers s) <= q < tail_ (producers s) \/ owner (producers s) q x true).
    { destruct H as [H|H]; [by left|]. apply Hown in H as [H|(_ & _ & ?)]; [by right|done]. }
    apply Hslot; [done|]. destruct Hold as [H1|H1]; [|eauto].
    rewrite lookup_app_l in E; [done|lia].
  - by rewrite take_app_le by lia.
  - by rewrite take_app_le by lia.
Qed.

Lemma enqueue_act_inv s pos v p :
  ring_inv s -> side_inv is_sp (tail_ (consumers s) + cap k) p ->
  side_effect (producers s) (EAct pos v v) p -> ring_inv (after_prod k s p (EAct pos v v)).
Proof.
  intros I Ip (Eh & Et & Hw & Hown). pose proof (ring_order s I) as Ho.
  pose proof (pow2_bounds k Hk) as Hb. pose proof (slot_lt k pos Hk).
  pose proof (owner_bounds _ _ _ _ _ _ (ri_prod _ I) Hw) as Hpos.
  destruct I as [Hp Hc Hput Hlen Hobj Hslot Hread Hin Hout].
  split; ring_fields; rewrite ?Eh, ?Et, ?length_insert; eauto.
  - intros q x w [[_ H1]|[-> ->]]%Hown; eauto.
  - intros q x H1 E. rewrite code_slot_slot. destruct (decide (q = pos)) as [->|N].
    + rewrite (Hobj _ _ _ Hw) in E. injection E as <-. apply list_lookup_insert_eq. lia.
    + assert (Hold : tail_ (consumers s) <= q < tail_ (producers s) \/ owner (producers s) q x true).
      { destruct H1 as [H1|H1]; [by left|]. apply Hown in H1 as [[_ H1]|[? _]]; [by right|done]. }
      rewrite list_lookup_insert_ne; [by apply Hslot|]. intros Es. apply N. symmetry.
      apply (slot_inj k); [done|done|]. unfold cap in *.
      destruct Hold as [H2|H2]; [lia|]. pose proof (owner_bounds _ _ _ _ _ _ Hp H2). lia.
Qed.

Lemma enqueue_publish_inv s v p :
  ring_inv s -> side_inv is_sp (tail_ (consumers s) + cap k) p ->
  side_effect (producers s) (EPublish v) p -> ring_inv (after_prod k s p (EPublish v)).
Proof.
  intros I Ip (Eh & Et & Hw & Hown). pose proof (ring_order s I) as Ho.
  destruct I as [Hp Hc Hput Hlen Hobj Hslot Hread Hin Hout].
  split; ring_fields; rewrite ?Eh, ?Et; eauto.
  - eapply side_inv_limit; [done|lia].
  - intros q x w [H _]%Hown. eauto.
  - intros q x H E. apply Hslot; [|done]. destruct H as [H|[H _]%Hown]; [|by right].
    destruct (decide (q = tail_ (producers s))) as [->|]; [|left; lia].
    rewrite (Hobj _ _ _ Hw) in E. injection E as <-. by right.
  - rewrite Hin. replace (Z.to_nat (tail_ (producers s) + 1)) with (S (Z.to_nat (tail_ (producers s)))) by lia.
    by rewrite (take_S_r _ _ v) by eauto.
Qed.

Lemma enqueue_step_inv s e p :
  ring_inv s -> side_step is_sp (prod_free k s) (producers s) e p ->
  (forall pos v v', e = EAct pos v v' -> v' = v) -> ring_inv (after_prod k s p e).
Proof.
  intros I Hst Hact. pose proof (ring_order s I) as Ho. pose proof (pow2_bounds k Hk) as Hb.
  assert (Ip : side_inv is_sp (tail_ (consumers s) + cap k) p).
  { eapply side_step_inv; [apply I|exact Hst| |unfold cap in *; lia].
    intros q Hq Hf. by apply prod_free_sound. }
  pose proof (side_step_effect _ _ _ _ _ _ (ri_prod _ I) Hst) as He.
  destruct e as [|v|pos v v'|v].
  - destruct He as (Eh & Et & Hown). destruct I as [Hp Hc Hput Hlen Hobj Hslot Hread Hin Hout].
    split; ring_fields; rewrite ?Eh, ?Et; eauto. intros q v [H|H]; eauto.
  - by apply enqueue_reserve_inv.
  - rewrite (Hact _ _ _ eq_refl) in *. by apply enqueue_act_inv.
  - by apply enqueue_publish_inv.
Qed.

Lemma dequeue_step_inv s e c :
  ring_inv s -> side_step is_sc (cons_free s) (consumers s) e c ->
  (forall pos v v', e = EAct pos v v' -> slots s !! code_slot k pos = Some v') ->
  ring_inv (after_cons s c e).
Proof.
  intros I Hst Hact. pose proof (ring_order s I) as Ho. pose proof (pow2_bounds k Hk) as Hb.
  assert (Ic : side_inv is_sc (tail_ (producers s)) c).
  { eapply side_step_inv; [apply I|exact Hst| |unfold cap in *; lia].
    intros q Hq Hf. by apply cons_free_sound. }
  pose proof (side_step_effect _ _ _ _ _ _ (ri_cons _ I) Hst) as He.
  destruct I as [Hp Hc Hput Hlen Hobj Hslot Hread Hin Hout].
  destruct e as [|v|pos v v'|v]; destruct He as (Eh & Et & Hown); split; ring_fields; rewrite ?Et; eauto.
  - intros q x [H|(_ & _ & ?)]%Hown; [eauto|done].
  - intros q x H. destruct Hown as [Hw Hown]. apply Hown in H as [[_ H]|[-> ->]]; [eauto|].
    pose proof (owner_bounds _ _ _ _ _ _ Hc Hw) as Hpos.
    destruct (lookup_lt_is_Some_2 (put s) (Z.to_nat pos)) as [y Hy]; [lia|].
    specialize (Hact _ _ _ eq_refl). rewrite code_slot_slot, (Hslot pos y) in Hact; [congruence|left; lia|done].
  - eapply side_inv_limit; [done|lia].
  - intros q x [H|H] E; apply Hslot; try done; [left; lia|by right].
  - intros q x H. destruct Hown as [_ Hown]. apply Hown in H as [H _]. eauto.
  - destruct Hown as [Hw _]. rewrite Hout.
    replace (Z.to_nat (tail_ (consumers s) + 1)) with (S (Z.to_nat (tail_ (consumers s)))) by lia.
    by rewrite (take_S_r _ _ v) by eauto.
Qed.

Lemma ring_reach_inv s s' : rtc (ring_step k is_sp is_sc) s s' -> ring_inv s -> ring_inv s'.
Proof.
  induction 1 as [|s1 s2 s3 Hst _ IH]; [done|]. intros I. apply IH.
  destruct Hst; [by apply enqueue_step_inv|by apply dequeue_step_inv].
Qed.

(** Some thread at work moves in a step from [s] to [s']. *)
Definition moves (s s' : Side) : Prop :=
  exists t x, threads s !! t = Some x /\ threads s' !! t <> Some x.

Lemma set_thread_moves s t st v st' v' :
  threads s !! t = Some (st, v) -> st <> st' -> moves s (set_thread s t st' v').
Proof. intros E N. exists t, (st, v). split; [done|]. simpl. rewrite lookup_insert_eq. congruence. Qed.

(** A side with a thread at work can move, whatever the other side does: only
    the wait for the tail blocks, and the owner of the tail's position does not
    wait. *)
Lemma side_moves single limit free act s :
  side_inv single limit s -> threads s <> ∅ ->
  exists e s', side_step single free s e s' /\ moves s s' /\
    (forall pos v v', e = EAct pos v v' -> v' = act pos v /\ owner s pos v false).
Proof.
  intros I Hne. apply map_choose in Hne as (t & [st v] & E).
  assert (Hown : forall t st v pos, threads s !! t = Some (st, v) -> owns st = Some pos ->
    single = true \/ pos = tail_ s -> exists e s', side_step single free s e s' /\ moves s s' /\
    (forall pos v v', e = EAct pos v v' -> v' = act pos v /\ owner s pos v false)).
  { clear t st v E. intros t st v pos E O Hc. destruct st; try discriminate; injection O as <-.
    - exists (EAct pos0 v (act pos0 v)). eexists. split_and!; [by apply ss_act|by eapply set_thread_moves|].
      intros ? ? ? [= <- <- <-]. split; [done|]. by exists t, (Reserved pos0).
    - exists ETau. eexists. split_and!; [eapply ss_arrived; [done|]|by eapply set_thread_moves|done].
      intros Es. destruct Hc as [?|<-]; congruence.
    - exists (EPublish v). eexists. split_and!; [by eapply ss_publish| |done].
      exists t, (Ready pos0, v). simpl. by rewrite lookup_delete_eq. }
  pose proof (si_stage _ _ _ I _ _ _ E) as Hs. destruct st; simpl in Hs.
  - exists ETau. eexists. split_and!; [by apply ss_load|by eapply set_thread_moves|done].
  - exists ETau. destruct (free pos) eqn:Ef; eexists; (split_and!; [| |done]).
    + by eapply ss_checked. + by eapply set_thread_moves.
    + by eapply ss_refused. + exists t, (Loaded pos, v). simpl. by rewrite lookup_delete_eq.
  - destruct single.
    + exists (EReserve v). eexists. split_and!; [by eapply ss_reserve| |done].
      exists t, (Checked pos, v). simpl. by rewrite lookup_insert_eq.
    + exists ETau. eexists. split_and!; [by eapply ss_exchange_failed|by eapply set_thread_moves|done].
  - destruct (si_owned _ _ _ I (tail_ s)) as (t1 & st1 & v1 & E1 & O1); [lia|]. eauto.
  - destruct (si_owned _ _ _ I (tail_ s)) as (t1 & st1 & v1 & E1 & O1); [lia|]. eauto.
  - destruct (si_owned _ _ _ I (tail_ s)) as (t1 & st1 & v1 & E1 & O1); [lia|]. eauto.
Qed.

Lemma enqueue_moves s :
  ring_inv s -> threads (producers s) <> ∅ ->
  exists s', ring_step k is_sp is_sc s s' /\ moves (producers s) (producers s').
Proof.
  intros I Hne.
  destruct (side_moves _ _ (prod_free k s) (fun _ v => v) _ (ri_prod _ I) Hne) as (e & p & Hst & Hm & Ha).
  exists (after_prod k s p e). split; [apply rs_enqueue; [done|]|by destruct e].
  intros pos v v' Ee. by apply Ha in Ee as [-> _].
Qed.

Lemma dequeue_moves s :
  ring_inv s -> threads (consumers s) <> ∅ ->
  exists s', ring_step k is_sp is_sc s s' /\ moves (consumers s) (consumers s').
Proof.
  intros I Hne.
  destruct (side_moves _ _ (cons_free s) (fun pos _ => default 0 (slots s !! code_slot k pos)) _
    (ri_cons _ I) Hne) as (e & c & Hst & Hm & Ha).
  exists (after_cons s c e). split; [apply rs_dequeue; [done|]|by destruct e].
  intros pos v v' Ee. apply Ha in Ee as [-> _]. rewrite code_slot_slot.
  destruct (lookup_lt_is_Some_2 (slots s) (slot k pos)) as [x ->]; [|done].
  pose proof (slot_lt k pos Hk). pose proof (ri_len _ I). lia.
Qed.

End Invariant.

(** ** Claims *)

(** C4: however many threads run [Enqueue] and [Dequeue] (one producer or one
    consumer when the ring is of such a type) and however their atomic accesses
    interleave, the objects that [Dequeue] returned are, in order, the first of
    the objects that [Enqueue] stored: none is lost, returned twice,
    overtaken or overwritten.  At most [capacity_] objects are in the ring. *)
Theorem ring_fifo k is_sp is_sc s :
  0 <= k < 32 -> rtc (ring_step k is_sp is_sc) (ring_init k) s ->
  done_out s `prefix_of` done_in s /\
  Z.of_nat (length (done_in s)) - Z.of_nat (length (done_out s)) <= cap k.
Proof.
  intros Hk Hr. pose proof (ring_reach_inv k is_sp is_sc Hk _ _ Hr (ring_init_inv k is_sp is_sc Hk)) as I.
  pose proof (ring_order k is_sp is_sc Hk s I) as Ho. destruct I as [_ _ Hput _ _ _ _ Hin Hout].
  rewrite Hin, Hout, !length_take. split; [|lia].
  replace (Z.to_nat (tail_ (producers s))) with
    (Z.to_nat (tail_ (consumers s)) + (Z.to_nat (tail_ (producers s)) - Z.to_nat (tail_ (consumers s))))%nat by lia.
  rewrite <- take_take_drop. apply prefix_app_r. done.
Qed.

(** the threads never block each other for good: in every reachable state
    in which a thread is inside [Enqueue], some thread inside [Enqueue] can
    take its next step, and likewise for [Dequeue]. *)
Theorem ring_never_stuck k is_sp is_sc s :
  0 <= k < 32 -> rtc (ring_step k is_sp is_sc) (ring_init k) s ->
  (threads (producers s) <> ∅ ->
   exists s', ring_step k is_sp is_sc s s' /\ moves (producers s) (producers s')) /\
  (threads (consumers s) <> ∅ ->
   exists s', ring_step k is_sp is_sc s s' /\ moves (consumers s) (consumers s')).
Proof.
  intros Hk Hr. pose proof (ring_reach_inv k is_sp is_sc Hk _ _ Hr (ring_init_inv k is_sp is_sc Hk)) as I.
  split; intros Hne; [by apply enqueue_moves|by apply dequeue_moves].
Qed.

(** A run of two producers: thread 1 wins the exchange with object 8, thread 0
    fails, takes the next slot for object 7, fills it first and waits; then
    both finish and one consumer takes the first object. *)
Ltac by_compute :=
  try match goal with |- _ -> _ => let H := fresh in intros H; try discriminate H; try split end;
  vm_compute; reflexivity.
Tactic Notation "enq" uconstr(c) :=
  eapply rtc_l; [eapply rs_enqueue; [eapply c; by_compute|by intros ??? [= <- <- <-]]|].
Tactic Notation "deq" uconstr(c) :=
  eapply rtc_l; [eapply rs_dequeue; [eapply c; by_compute|intros ??? [= <- <- <-]; by vm_compute]|].

Definition demo_waiting : RingState :=
  mkRingState (mkSide 2 0 {[0%nat := (Acted 1, 7); 1%nat := (Reserved 0, 8)]}) (mkSide 0 0 ∅)
    [0; 7; 0; 0] [8; 7] [] [].

Definition demo_taken : RingState :=
  mkRingState (mkSide 2 2 ∅) (mkSide 1 1 ∅) [8; 7; 0; 0] [8; 7] [8; 7] [8].

Lemma rtc_eq {A} (R : relation A) x y : x = y -> rtc R x y.
Proof. intros ->. apply rtc_refl. Qed.

Lemma demo_waiting_reachable : rtc (ring_step 2 false true) (ring_init 2) demo_waiting.
Proof.
  enq (ss_call false _ _ 0%nat 7). enq (ss_call false _ _ 1%nat 8).
  enq (ss_load false _ _ 0%nat 7). enq (ss_load false _ _ 1%nat 8).
  enq (ss_checked false _ _ 0%nat 0 7). enq (ss_checked false _ _ 1%nat 0 8).
  enq (ss_reserve false _ _ 1%nat 0 8).
  enq (ss_exchange_failed false _ _ 0%nat 0 7). enq (ss_load false _ _ 0%nat 7).
  enq (ss_checked false _ _ 0%nat 1 7). enq (ss_reserve false _ _ 0%nat 1 7).
  enq (ss_act false _ _ 0%nat 1 7 7).
  apply rtc_eq. vm_compute. reflexivity.
Qed.

Lemma demo_taken_reachable : rtc (ring_step 2 false true) demo_waiting demo_taken.
Proof.
  enq (ss_act false _ _ 1%nat 0 8 8). enq (ss_arrived false _ _ 1%nat 0 8).
  enq (ss_publish false _ _ 1%nat 0 8).
  deq (ss_call true _ _ 0%nat 0). deq (ss_load true _ _ 0%nat 0).
  deq (ss_checked true _ _ 0%nat 0 0). deq (ss_reserve true _ _ 0%nat 0 0).
  enq (ss_arrived false _ _ 0%nat 1 7). enq (ss_publish false _ _ 0%nat 1 7).
  deq (ss_act true _ _ 0%nat 0 0 8). deq (ss_arrived true _ _ 0%nat 0 8).
  deq (ss_publish true _ _ 0%nat 0 8).
  apply rtc_eq. vm_compute. reflexivity.
Qed.

Lemma ring_fifo_witness : [8] `prefix_of` [8; 7] /\ 2 - 1 <= cap 2.
Proof.
  apply (ring_fifo 2 false true demo_taken); [lia|].
  transitivity demo_waiting; [exact demo_waiting_reachable|exact demo_taken_reachable].
Defined.

Lemma ring_never_stuck_witness :
  exists s', ring_step 2 false true demo_waiting s' /\ moves (producers demo_waiting) (producers s').
Proof.
  apply (ring_never_stuck 2 false true demo_waiting); [lia|exact demo_waiting_reachable|].
  intros E. apply (f_equal (lookup 0%nat)) in E. vm_compute in E. discriminate.
Defined.
