(* ===== verification/Client.v ===== *)
(** * Blob streams of the client library

    [RBDStreamHandleImpl] (src/clients/libcypre/stream/rbd_stream_handle_impl.cpp),
    the handle through which a program reads and writes a blob, with the extent
    handles ([YStreamHandle], ystream_handle.cpp) and the wrapper that sends
    requests to extent servers (brpc_es_wrapper.cpp).  A request that crosses
    an extent boundary is split in two parts; each part is sent to the primary
    of its extent.  The extent manager and the extent servers behind the RPC
    are the class [EsRpc]. *)

From S2P Require Import Prelude Status Codec Net.

#[local] Open Scope string_scope.
#[local] Open Scope Z_scope.

(** ** The servers behind the RPC *)

(** A write or read message: the fields that the client sets. *)
Record IoMsg : Type := mkIoMsg {
  io_extent_id : string;
  io_offset : Z;
  io_size : Z;
  io_crc32 : Z;
  io_header_crc32 : Z
}.

Inductive IoReply : Type :=
  | IoFailed
  | IoReplied (code : Z) (attachment : string) (crc32 : option Z).

(** The world of servers: the answer of the extent manager to a router query,
    whether a channel to an address can be set up, and the extent servers'
    read and write calls. *)
Class EsRpc (W : Type) := {
  rpc_query_router : W -> string -> QueryRouterReply;
  rpc_channel_ok : W -> string -> bool;
  rpc_write : W -> string -> IoMsg -> string -> IoReply * W;
  rpc_read : W -> string -> IoMsg -> IoReply * W
}.

(** ** Handles *)

Inductive ExtentIoProtocol : Type := kBrpc | kNull.

(** [YStreamHandle]: its extent and the wrapper it uses. *)
Record YStreamHandle : Type := mkYStreamHandle {
  y_extent_id : string;
  y_extent_idx : Z;
  es_wrapper_ : ExtentIoProtocol
}.

(** The 32-bit signed value of an unsigned one. *)
Definition to_int32 (x : Z) : Z :=
  let y := wrap32 x in if y <? 2147483648 then y else y - 4294967296.

Definition YStreamHandle_new (extent_id : string) (extent_idx : Z) : YStreamHandle :=
  mkYStreamHandle extent_id (to_int32 extent_idx) kBrpc.

Definition YStreamHandle_Init (y : YStreamHandle) : Z := CYPRE_OK.
Definition YStreamHandle_Close (y : YStreamHandle) : Z := CYPRE_OK.

Definition YStreamHandle_SetExtentIoProto (y : YStreamHandle) (esio : ExtentIoProtocol)
    : Z * YStreamHandle :=
  (CYPRE_OK, mkYStreamHandle (y_extent_id y) (y_extent_idx y) esio).

(** [RBDStreamHandleImpl] with the options it uses, the connection pool of the
    handle and the routers of the cluster object. *)
Record RBDStream : Type := mkRBDStream {
  so_blob_id : string;
  so_extent_size : Z;
  so_blob_size : Z;
  conn_pool : ConnectionPool2;
  extent_router_mgr : ExtentRouterMgr;
  handleMap_ : gmap Z YStreamHandle;
  esio_proto_ : ExtentIoProtocol;
  ioInflight_ : Z;
  isClosed_ : bool
}.

Definition RBDStream_new (blob_id : string) (extent_size blob_size : Z) (rm : ExtentRouterMgr)
    : RBDStream :=
  mkRBDStream blob_id extent_size blob_size (mkConnectionPool2 ∅ 0) rm ∅ kBrpc 0 false.

Definition set_handles (h : RBDStream) (m : gmap Z YStreamHandle) : RBDStream :=
  mkRBDStream (so_blob_id h) (so_extent_size h) (so_blob_size h) (conn_pool h) (extent_router_mgr h)
    m (esio_proto_ h) (ioInflight_ h) (isClosed_ h).
Definition set_routers (h : RBDStream) (rm : ExtentRouterMgr) : RBDStream :=
  mkRBDStream (so_blob_id h) (so_extent_size h) (so_blob_size h) (conn_pool h) rm
    (handleMap_ h) (esio_proto_ h) (ioInflight_ h) (isClosed_ h).
Definition set_conns (h : RBDStream) (p : ConnectionPool2) : RBDStream :=
  mkRBDStream (so_blob_id h) (so_extent_size h) (so_blob_size h) p (extent_router_mgr h)
    (handleMap_ h) (esio_proto_ h) (ioInflight_ h) (isClosed_ h).
Definition set_inflight (h : RBDStream) (n : Z) : RBDStream :=
  mkRBDStream (so_blob_id h) (so_extent_size h) (so_blob_size h) (conn_pool h) (extent_router_mgr h)
    (handleMap_ h) (esio_proto_ h) n (isClosed_ h).
Definition set_closed (h : RBDStream) (b : bool) : RBDStream :=
  mkRBDStream (so_blob_id h) (so_extent_size h) (so_blob_size h) (conn_pool h) (extent_router_mgr h)
    (handleMap_ h) (esio_proto_ h) (ioInflight_ h) b.

(** [None]: a handle whose [Init] failed is dereferenced. *)
Definition GetExtentStreamHandle (h : RBDStream) (extent_index : Z)
    : option (YStreamHandle * RBDStream) :=
  match handleMap_ h !! extent_index with
  | Some y => Some (y, h)
  | None =>
      let y := YStreamHandle_new (GenerateExtentID (so_blob_id h) extent_index) extent_index in
      if negb (YStreamHandle_Init y =? CYPRE_OK) then None
      else
        let '(_, y) := YStreamHandle_SetExtentIoProto y (esio_proto_ h) in
        Some (y, set_handles h (<[extent_index := y]> (handleMap_ h)))
  end.

(** ** Splitting *)

(** One part: the handle, the offset in the extent and the length. *)
Record Part : Type := mkPart { p_handle : YStreamHandle; p_roff : Z; p_len : Z }.

(** The return code and, on success, the parts.  [None]: division by an extent
    size of zero. *)
Definition splitUserRequest (h : RBDStream) (logic_offset logic_len : Z)
    : option (Z * list Part * RBDStream) :=
  let extSize := so_extent_size h in
  if extSize =? 0 then None
  else
    let extent_index1 := wrap64 (logic_offset / extSize + 1) in
    let extent_index2 := wrap64 (wrap64 (wrap64 (logic_offset + logic_len) - 1) / extSize + 1) in
    if wrap64 (extent_index1 + 1) <? extent_index2 then Some (CYPRE_C_DATA_TOO_LARGE, [], h)
    else
      let two := extent_index1 <? extent_index2 in
      '(handle0, h) ← GetExtentStreamHandle h extent_index1;
      let roff0 := wrap64 (logic_offset - wrap64 (wrap64 (extent_index1 - 1) * extSize)) in
      if two then
        let len0 := wrap32 (wrap64 (extSize - roff0)) in
        '(handle1, h) ← GetExtentStreamHandle h extent_index2;
        Some (CYPRE_OK, [mkPart handle0 roff0 len0; mkPart handle1 0 (wrap32 (logic_len - len0))], h)
      else Some (CYPRE_OK, [mkPart handle0 roff0 logic_len], h).

(** ** One part *)

(** A user request's own state: the status so far and the parts to come. *)
Record UReq : Type := mkUReq { u_status : Z; u_ref : Z }.

(** [onWriteDone] and [onReadDone] of the stream handle: a part ended with
    [status]; [crc_bad]: the checksum of the data read does not match.  The
    status for the user's callback when this was the last part. *)
Definition onDone (h : RBDStream) (u : UReq) (status : Z) (crc_bad : bool)
    : option Z * UReq * RBDStream :=
  let st := if crc_bad then CYPRE_C_CRC_ERROR else u_status u in
  let st := if negb (status =? CYPRE_OK) && (st =? CYPRE_OK) then status else st in
  let u := mkUReq st (u_ref u - 1) in
  if 0 <? u_ref u then (None, u, h) else (Some st, u, set_inflight h (ioInflight_ h - 1)).

(** How a part reaches its server. *)
Inductive Channel : Type :=
  | NoServer
  | Server (c : Connection)
  | NullServer.

Section Stream.
Context `{EsRpc W} `{Crc32c}.

(** The connection of the pool, or a new one. *)
Definition get_conn (w : W) (h : RBDStream) (es : ESInstance) : option Connection * RBDStream :=
  match GetConnection2 (conn_pool h) (es_id es) with
  | Some c => (Some c, h)
  | None =>
      let '(c, p) := NewConnection (rpc_channel_ok w) (conn_pool h) (es_id es) (public_ip es)
                       (public_port es) in
      (c, set_conns h p)
  end.

(** The first halves of [YStreamHandle::AsyncRead] and [AsyncWrite] and of the
    wrappers: router, then connection. *)
Definition open_channel (w : W) (h : RBDStream) (y : YStreamHandle) : Channel * RBDStream :=
  let '(router, rm) := QueryRouter (extent_router_mgr h) (y_extent_id y)
                         (rpc_query_router w (y_extent_id y)) in
  let h := set_routers h rm in
  match router with
  | None => (NoServer, h)
  | Some r =>
      let '(conn, h) := get_conn w h (primary r) in
      match es_wrapper_ y, conn with
      | kNull, _ => (NullServer, h)
      | kBrpc, None => (NoServer, h)
      | kBrpc, Some c => (Server c, h)
      end
  end.

(** [generateHeaderCrc32]. *)
Definition header_crc32 (logic_len logic_offset : Z) : Z :=
  Crc32_Checksum (dec logic_len +:+ dec logic_offset).

(** The bytes of a buffer from [pos]. *)
Definition slice (buf : string) (pos len : Z) : string := substring (Z.to_nat pos) (Z.to_nat len) buf.

(** [BrpcEsWriter::onWriteDone]: the part's status. *)
Definition write_status (r : IoReply) : Z :=
  match r with
  | IoFailed => CYPRE_ER_NET_ERROR
  | IoReplied code _ _ => if negb (code =? 0) then code else CYPRE_OK
  end.

(** The message of a part.  Its offset and length are 32-bit. *)
Definition part_msg (p : Part) (data_crc header_crc : Z) : IoMsg :=
  mkIoMsg (y_extent_id (p_handle p)) (wrap32 (p_roff p)) (wrap32 (p_len p)) data_crc header_crc.

(** The part's checksum: of its own data when the request was split. *)
Definition part_crc (split : bool) (buf data : string) : Z :=
  if split then Crc32_Checksum data else Crc32_Checksum buf.

(** A synchronous part: the code [AsyncWrite] returns, the status of the part
    (which the null wrapper leaves at -1), and the world. *)
Definition write_part (w : W) (h : RBDStream) (p : Part) (data : string) (data_crc header_crc : Z)
    : Z * Z * RBDStream * W :=
  let '(ch, h) := open_channel w h (p_handle p) in
  match ch with
  | NoServer => (CYPRE_C_INTERNAL_ERROR, CYPRE_C_INTERNAL_ERROR, h, w)
  | NullServer => (CYPRE_OK, -1, h, w)
  | Server c =>
      let '(r, w) := rpc_write w (conn_target c) (part_msg p data_crc header_crc) data in
      (write_status r, write_status r, h, w)
  end.

(** The loop of [doUserWriteRequest] in synchronous mode; [pos]: where [buf]
    points, [rv]: the code to return. *)
Fixpoint write_parts (w : W) (h : RBDStream) (u : UReq) (split : bool) (buf : string)
    (header_crc pos rv : Z) (parts : list Part) : Z * UReq * RBDStream * W :=
  match parts with
  | [] => (rv, u, h, w)
  | p :: parts' =>
      let data := slice buf pos (p_len p) in
      let '(rc, status, h, w) := write_part w h p data (part_crc split buf data) header_crc in
      let rv := if negb (rc =? CYPRE_OK) then rc else rv in
      let '(_, u, h) := onDone h u status false in
      write_parts w h u split buf header_crc (pos + p_len p) rv parts'
  end.

(** [Write], that is [AsyncWrite] without a callback.  [buf] has the request's
    length. *)
Definition Stream_Write (w : W) (h : RBDStream) (buf : string) (offset : Z) : option (Z * RBDStream * W) :=
  if isClosed_ h then Some (CYPRE_C_DEVICE_CLOSED, h, w)
  else
    let len := slen buf in
    '(rv, parts, h) ← splitUserRequest h offset len;
    if negb (rv =? CYPRE_OK) then Some (rv, h, w)
    else
      let h := set_inflight h (ioInflight_ h + 1) in
      let ionum := Z.of_nat (length parts) in
      let '(rv, _, h, w) := write_parts w h (mkUReq CYPRE_OK ionum) (ionum =? 2) buf
                              (header_crc32 len offset) 0 rv parts in
      Some (rv, h, w).

(** [BrpcEsReader::onReadDone]: the status, and the data and checksum of an
    answer whose status is OK; the status field of a failed call is unset,
    that is OK, and its attachment empty. *)
Definition read_status (r : IoReply) : Z :=
  match r with
  | IoFailed => CYPRE_ER_NET_ERROR
  | IoReplied code _ _ => if negb (code =? 0) then code else CYPRE_OK
  end.
Definition read_data (r : IoReply) : string * option Z :=
  match r with
  | IoReplied code att crc => if code =? CYPRE_OK then (att, crc) else ("", None)
  | IoFailed => ("", None)
  end.

(** [IOBuf::copy_to(buf + pos)], which copies the whole attachment.  [None]: it
    does not fit the buffer. *)
Definition copy_at (buf : string) (pos : Z) (data : string) : option string :=
  if slen buf <? pos + slen data then None
  else Some (slice buf 0 pos +:+ data +:+ slice buf (pos + slen data) (slen buf - (pos + slen data))).

Definition read_part (w : W) (h : RBDStream) (p : Part) (buf : string) (pos header_crc : Z)
    : option (Z * Z * option Z * string * RBDStream * W) :=
  let '(ch, h) := open_channel w h (p_handle p) in
  match ch with
  | NoServer => Some (CYPRE_C_INTERNAL_ERROR, CYPRE_C_INTERNAL_ERROR, None, buf, h, w)
  | NullServer => Some (CYPRE_OK, -1, None, buf, h, w)
  | Server c =>
      let '(r, w) := rpc_read w (conn_target c) (part_msg p 0 header_crc) in
      let '(data, crc) := read_data r in
      buf ← copy_at buf pos data;
      Some (read_status r, read_status r, crc, buf, h, w)
  end.

(** The checksum test of [onReadDone]. *)
Definition crc_mismatch (status : Z) (crc : option Z) (data : string) : bool :=
  (status =? CYPRE_OK) &&
  match crc with Some x => negb (x =? Crc32_Checksum data) | None => false end.

Fixpoint read_parts (w : W) (h : RBDStream) (u : UReq) (buf : string) (header_crc pos rv : Z)
    (parts : list Part) : option (Z * UReq * string * RBDStream * W) :=
  match parts with
  | [] => Some (rv, u, buf, h, w)
  | p :: parts' =>
      '(rc, status, crc, buf, h, w) ← read_part w h p buf pos header_crc;
      let rv := if negb (rc =? CYPRE_OK) then rc else rv in
      let '(_, u, h) := onDone h u status (crc_mismatch status crc (slice buf pos (p_len p))) in
      read_parts w h u buf header_crc (pos + p_len p) rv parts'
  end.

(** [Read] into [buf], whose length is the request's: the code it returns and
    the buffer. *)
Definition Stream_Read (w : W) (h : RBDStream) (buf : string) (offset : Z)
    : option (Z * string * RBDStream * W) :=
  if isClosed_ h then Some (CYPRE_C_DEVICE_CLOSED, buf, h, w)
  else
    let len := slen buf in
    '(rv, parts, h) ← splitUserRequest h offset len;
    if negb (rv =? CYPRE_OK) then Some (rv, buf, h, w)
    else
      let h := set_inflight h (ioInflight_ h + 1) in
      '(rv, _, buf, h, w) ← read_parts w h (mkUReq CYPRE_OK (Z.of_nat (length parts))) buf
                              (header_crc32 len offset) 0 rv parts;
      Some (rv, buf, h, w).


(** ** Asynchronous requests *)

(** A part that waits in a sender's queue or for its server. *)
Record Pending : Type := mkPending { pd_part : Part; pd_channel : Channel; pd_pos : Z }.

(** An asynchronous request in progress: the handle, the world, the request,
    its parts, the calls of the user's callback, and the buffer. *)
Record AsyncIo : Type := mkAsyncIo {
  a_stream : RBDStream;
  a_world : W;
  a_ureq : UReq;
  a_pending : list Pending;
  a_calls : list Z;
  a_buf : string
}.

(** A part ended: [onReadDone] or [onWriteDone] and the user's callback. *)
Definition part_done (a : AsyncIo) (status : Z) (crc_bad : bool) : AsyncIo :=
  let '(call, u, h) := onDone (a_stream a) (a_ureq a) status crc_bad in
  mkAsyncIo h (a_world a) u (a_pending a) (a_calls a ++ option_list call) (a_buf a).

(** The loop of [doUserReadRequest] and [doUserWriteRequest] with a callback:
    a part without a server ends at once, the others are queued. *)
Fixpoint issue_parts (a : AsyncIo) (pos rv : Z) (parts : list Part) : Z * AsyncIo :=
  match parts with
  | [] => (rv, a)
  | p :: parts' =>
      let '(ch, h) := open_channel (a_world a) (a_stream a) (p_handle p) in
      match ch with
      | NoServer =>
          let a := mkAsyncIo h (a_world a) (a_ureq a) (a_pending a) (a_calls a) (a_buf a) in
          issue_parts (part_done a CYPRE_C_INTERNAL_ERROR false) (pos + p_len p)
            CYPRE_C_INTERNAL_ERROR parts'
      | _ =>
          let a := mkAsyncIo h (a_world a) (a_ureq a) (a_pending a ++ [mkPending p ch pos]) (a_calls a)
                     (a_buf a) in
          issue_parts a (pos + p_len p) rv parts'
      end
  end.

(** [AsyncRead] and [AsyncWrite]: the code returned and the request issued. *)
Definition AsyncIo_issue (w : W) (h : RBDStream) (buf : string) (offset : Z) : option (Z * AsyncIo) :=
  let idle h := mkAsyncIo h w (mkUReq CYPRE_OK 0) [] [] buf in
  if isClosed_ h then Some (CYPRE_C_DEVICE_CLOSED, idle h)
  else
    '(rv, parts, h) ← splitUserRequest h offset (slen buf);
    if negb (rv =? CYPRE_OK) then Some (rv, idle h)
    else
      let h := set_inflight h (ioInflight_ h + 1) in
      Some (issue_parts (mkAsyncIo h w (mkUReq CYPRE_OK (Z.of_nat (length parts))) [] [] buf) 0 rv parts).

(** The server's answer to a queued part of a write or read.  [None]: the
    answer does not fit the buffer. *)
Definition answer_write (a : AsyncIo) (split : bool) (header_crc : Z) (pd : Pending) : AsyncIo :=
  let p := pd_part pd in
  let data := slice (a_buf a) (pd_pos pd) (p_len p) in
  match pd_channel pd with
  | Server c =>
      let '(r, w) := rpc_write (a_world a) (conn_target c)
                       (part_msg p (part_crc split (a_buf a) data) header_crc) data in
      part_done (mkAsyncIo (a_stream a) w (a_ureq a) (a_pending a) (a_calls a) (a_buf a))
        (write_status r) false
  | _ => part_done a CYPRE_OK false
  end.

Definition answer_read (a : AsyncIo) (header_crc : Z) (pd : Pending) : option AsyncIo :=
  let p := pd_part pd in
  match pd_channel pd with
  | Server c =>
      let '(r, w) := rpc_read (a_world a) (conn_target c) (part_msg p 0 header_crc) in
      let '(data, crc) := read_data r in
      buf ← copy_at (a_buf a) (pd_pos pd) data;
      Some (part_done (mkAsyncIo (a_stream a) w (a_ureq a) (a_pending a) (a_calls a) buf)
              (read_status r) (crc_mismatch (read_status r) crc (slice buf (pd_pos pd) (p_len p))))
  | _ => Some (part_done a CYPRE_OK false)
  end.

(** [SetExpired], when the sender stops before the part was sent. *)
Definition expire (a : AsyncIo) : AsyncIo := part_done a CYPRE_C_DEVICE_CLOSED false.

Definition drop_pending (a : AsyncIo) (pds : list Pending) : AsyncIo :=
  mkAsyncIo (a_stream a) (a_world a) (a_ureq a) pds (a_calls a) (a_buf a).

(** One queued part of a read ([rd]) or write, in any order, is answered or
    expires. *)
Inductive async_step (rd : bool) (offset : Z) (split : bool) (a : AsyncIo) : AsyncIo -> Prop :=
  | as_write (l : list Pending) pd (r : list Pending) :
      rd = false -> a_pending a = (l ++ pd :: r)%list ->
      async_step rd offset split a
        (answer_write (drop_pending a (l ++ r)%list) split (header_crc32 (slen (a_buf a)) offset) pd)
  | as_read (l : list Pending) pd (r : list Pending) a' :
      rd = true -> a_pending a = (l ++ pd :: r)%list ->
      answer_read (drop_pending a (l ++ r)%list) (header_crc32 (slen (a_buf a)) offset) pd = Some a' ->
      async_step rd offset split a a'
  | as_expire (l : list Pending) pd (r : list Pending) :
      a_pending a = (l ++ pd :: r)%list ->
      async_step rd offset split a (expire (drop_pending a (l ++ r)%list)).

(** ** The rest of the handle *)

(** [SetExtentIoProto]. *)
Definition SetExtentIoProto (h : RBDStream) (esio : ExtentIoProtocol) : Z * RBDStream :=
  match esio_proto_ h, esio with
  | kBrpc, kBrpc | kNull, kNull => (CYPRE_OK, h)
  | _, _ =>
      (CYPRE_OK,
       mkRBDStream (so_blob_id h) (so_extent_size h) (so_blob_size h) (conn_pool h)
         (extent_router_mgr h) ((fun y => (YStreamHandle_SetExtentIoProto y esio).2) <$> handleMap_ h)
         esio (ioInflight_ h) (isClosed_ h))
  end.

(** [Close]; [None]: it waits for the requests in flight. *)
Definition Stream_Close (h : RBDStream) : option (Z * RBDStream) :=
  if isClosed_ h then Some (CYPRE_OK, h)
  else
    let h := set_closed h true in
    if negb (ioInflight_ h =? 0) then None
    else Some (CYPRE_OK, set_handles h ∅).

(** [write_blob] and [read_blob] of the C interface. *)
Definition write_blob (w : W) (h : RBDStream) (buf : string) (offset : Z) : option (Z * RBDStream * W) :=
  '(rv, h, w) ← Stream_Write w h buf offset;
  Some (if negb (rv =? CYPRE_OK) then -1 else 0, h, w).

Definition read_blob (w : W) (h : RBDStream) (buf : string) (offset : Z)
    : option (Z * string * RBDStream * W) :=
  '(rv, buf, h, w) ← Stream_Read w h buf offset;
  Some (if negb (rv =? CYPRE_OK) then -1 else 0, buf, h, w).
End Stream.
Arguments AsyncIo : clear implicits.

(** ** Opening a blob *)

(** The extent manager's answer to [QueryBlob]. *)
Inductive QueryBlobReply : Type :=
  | QbFailed
  | QbReplied (code : Z) (id : string) (size extent_size : Z).

(** [CypreClusterRBD::Open]: the code and the new handle.  [None]: the blob in
    the answer is not the one asked for and the assertion fails. *)
Definition Open (rm : ExtentRouterMgr) (proto : ExtentIoProtocol) (blob_id : string) (reply : QueryBlobReply)
    : option (Z * option RBDStream) :=
  match reply with
  | QbFailed => Some (CYPRE_ER_NET_ERROR, None)
  | QbReplied code id size extent_size =>
      if negb (code =? 0) then Some (code, None)
      else if negb (String.eqb blob_id id) then None
      else
        let '(rv, h) := SetExtentIoProto (RBDStream_new id extent_size size rm) proto in
        if negb (rv =? CYPRE_OK) then Some (rv, None) else Some (CYPRE_OK, Some h)
  end.

(** ** Sender threads *)

(** The tests of [StartSenderWorker]. *)
Definition sender_args (thread_size ring_size_power : Z) : Z :=
  if (30 <? ring_size_power) || (ring_size_power <? 10) then CYPRE_ER_INVALID_ARGUMENT
  else if (thread_size <? 0) || (64 <? thread_size) then CYPRE_ER_INVALID_ARGUMENT
  else if negb (Z.land thread_size (thread_size - 1) =? 0) then CYPRE_ER_INVALID_ARGUMENT
  else CYPRE_OK.

(** [HashKey]: the extent index as an unsigned 64-bit number. *)
Definition HashKey (y : YStreamHandle) : Z := wrap64 (y_extent_idx y).

(** The queue [Push] selects. *)
Definition sender_index (thread_size : Z) (y : YStreamHandle) : Z :=
  to_int32 (Z.land (HashKey y) (wrap64 (thread_size - 1))).
