(* ===== verification/ClientTheorems.v ===== *)
(** * What a blob stream promises

    A request is split along the extent boundary into parts that tile it
    exactly; a synchronous handle on a blob is an array of bytes, proved
    against the interface [EsLaws] of the extent servers; an asynchronous
    request calls the user back exactly once. *)

From Stdlib Require Import Ascii.
From stdpp Require Import pretty.
From S2P Require Import Prelude Status Codec KvStore Net StorageEngine Ring Client.

#[local] Open Scope string_scope.
#[local] Open Scope Z_scope.

(** ** Bytes of buffers *)

Lemma length_substring n m s :
  String.length (substring n m s) = Nat.min m (String.length s - n).
Proof. revert n m. induction s as [|c s IH]; intros [|n] [|m]; simpl; rewrite ?IH; try done; simpl; lia. Qed.

Lemma slen_slice buf pos len :
  0 <= pos -> 0 <= len -> pos + len <= slen buf -> slen (slice buf pos len) = len.
Proof. unfold slen, slice. intros. rewrite length_substring. lia. Qed.

Lemma byte_at_slice buf pos len i :
  0 <= pos -> 0 <= i < len -> byte_at (slice buf pos len) i = byte_at buf (pos + i).
Proof.
  intros. unfold byte_at, slice. rewrite substring_correct1 by lia.
  by replace (Z.to_nat i + Z.to_nat pos)%nat with (Z.to_nat (pos + i)) by lia.
Qed.

Lemma byte_at_app s t i :
  0 <= i -> byte_at (s +:+ t) i = if i <? slen s then byte_at s i else byte_at t (i - slen s).
Proof.
  intros Hi. unfold byte_at, slen. destruct (Z.ltb_spec i (Z.of_nat (String.length s))).
  - by rewrite <- append_correct1 by lia.
  - replace (Z.to_nat i) with (Z.to_nat (i - Z.of_nat (String.length s)) + String.length s)%nat by lia.
    by rewrite <- append_correct2.
Qed.

Lemma copy_at_spec buf pos data :
  0 <= pos -> pos + slen data <= slen buf ->
  exists buf', copy_at buf pos data = Some buf' /\ slen buf' = slen buf /\
    forall i, 0 <= i < slen buf ->
      byte_at buf' i = if in_range pos (slen data) i then byte_at data (i - pos) else byte_at buf i.
Proof.
  intros Hp Hl. pose proof (slen_nonneg data). unfold copy_at. rewrite (proj2 (Z.ltb_ge _ _)) by lia.
  eexists. split; [done|].
  assert (Hs0 : slen (slice buf 0 pos) = pos) by (apply slen_slice; lia).
  assert (Hs1 : slen (slice buf (pos + slen data) (slen buf - (pos + slen data))) = slen buf - (pos + slen data))
    by (apply slen_slice; lia).
  split; [rewrite !slen_app; lia|]. intros i Hi.
  rewrite byte_at_app, Hs0 by lia. destruct (Z.ltb_spec i pos).
  - rewrite byte_at_slice by lia. replace (in_range pos (slen data) i) with false; [done|].
    symmetry. apply in_range_false. lia.
  - rewrite byte_at_app by lia. destruct (Z.ltb_spec (i - pos) (slen data)).
    + replace (in_range pos (slen data) i) with true; [done|]. symmetry. apply in_range_spec. lia.
    + replace (in_range pos (slen data) i) with false by (symmetry; apply in_range_false; lia).
      rewrite byte_at_slice by lia. f_equal. lia.
Qed.

(** ** Extent ids are short *)

Lemma pretty_N_go_length (k : nat) (x : N) s :
  (x < 10 ^ N.of_nat k)%N -> (String.length (pretty_N_go x s) <= k + String.length s)%nat.
Proof.
  revert x s. induction k as [|k IH]; intros x s Hx.
  - assert (x = 0%N) as -> by (simpl in Hx; lia). by rewrite pretty_N_go_0.
  - destruct (decide (x = 0%N)) as [->|N]; [rewrite pretty_N_go_0; lia|].
    rewrite pretty_N_go_step by lia. etransitivity; [apply IH|simpl; lia].
    apply N.Div0.div_lt_upper_bound. rewrite Nat2N.inj_succ, N.pow_succ_r' in Hx. lia.
Qed.

Lemma dec_short z : is_u64 z -> slen (dec z) <= 20.
Proof.
  unfold is_u64, u64_max. intros Hz. unfold dec, slen.
  destruct z as [|p|p]; [done| |lia]. change (pretty (Z.pos p)) with (pretty (N.pos p)).
  unfold pretty, pretty_N. destruct (decide _); [done|].
  pose proof (pretty_N_go_length 20 (N.pos p) "") as H. simpl in H. lia.
Qed.

Lemma extent_id_short b i :
  slen b < 2147483000 -> is_u64 i -> slen (GenerateExtentID b i) < 2147483624.
Proof.
  intros Hb Hi. unfold GenerateExtentID. rewrite !slen_app. pose proof (dec_short i Hi).
  change (slen ".") with 1. lia.
Qed.

(** ** Splitting *)

(** The parts cover [pos, pos + total) of the blob in order, each within one
    extent. *)
Fixpoint tiles (blob_id : string) (es pos : Z) (parts : list Part) : Prop :=
  match parts with
  | [] => True
  | p :: parts' =>
      (exists i, y_extent_id (p_handle p) = GenerateExtentID blob_id i /\
         (i - 1) * es + p_roff p = pos /\ 0 <= p_roff p /\ 1 <= p_len p /\ p_roff p + p_len p <= es) /\
      tiles blob_id es (pos + p_len p) parts'
  end.

Fixpoint total_len (parts : list Part) : Z :=
  match parts with [] => 0 | p :: parts' => p_len p + total_len parts' end.

(** The extent handles belong to the blob's extents. *)
Record stream_ok (h : RBDStream) : Prop := {
  so_size : 4096 <= so_extent_size h < 4294967296;
  so_dot : no_dot (so_blob_id h) = true;
  so_short : slen (so_blob_id h) < 2147483000;
  so_handles : forall i y, handleMap_ h !! i = Some y ->
    y_extent_id y = GenerateExtentID (so_blob_id h) i /\ es_wrapper_ y = esio_proto_ h
}.

(** Everything but the routers, connections and handles. *)
Definition same_stream (h h' : RBDStream) : Prop :=
  so_blob_id h' = so_blob_id h /\ so_extent_size h' = so_extent_size h /\
  so_blob_size h' = so_blob_size h /\ esio_proto_ h' = esio_proto_ h /\ isClosed_ h' = isClosed_ h.

Lemma GetExtentStreamHandle_spec h i :
  stream_ok h -> exists y h', GetExtentStreamHandle h i = Some (y, h') /\ stream_ok h' /\
    y_extent_id y = GenerateExtentID (so_blob_id h) i /\ es_wrapper_ y = esio_proto_ h /\
    (h' = h \/ exists m, h' = set_handles h m).
Proof.
  intros [Hs Hd Hsh Hh]. unfold GetExtentStreamHandle.
  destruct (handleMap_ h !! i) as [y|] eqn:E.
  - destruct (Hh i y E). exists y, h. split_and!; auto. by split.
  - cbn. do 2 eexists. split; [done|]. split_and!; eauto. split; [done..|].
    cbn [set_handles handleMap_ so_blob_id esio_proto_].
    intros j y [[<- <-]|[_ Hj]]%lookup_insert_Some; [done|eauto].
Qed.

(** What a request must satisfy: a non-empty range within 64 bits. *)
Definition req_range (offset len : Z) : Prop :=
  0 <= offset /\ 1 <= len < 4294967296 /\ offset + len <= u64_max.

(** A request that spans more than two extents. *)
Definition too_large (h : RBDStream) (offset len : Z) : bool :=
  offset / so_extent_size h + 1 <? (offset + len - 1) / so_extent_size h.

Lemma splitUserRequest_spec h offset len :
  stream_ok h -> req_range offset len ->
  let es := so_extent_size h in
  exists rv parts h', splitUserRequest h offset len = Some (rv, parts, h') /\
    stream_ok h' /\ (h' = h \/ exists m, h' = set_handles h m) /\
    if too_large h offset len
    then rv = CYPRE_C_DATA_TOO_LARGE /\ parts = []
    else rv = CYPRE_OK /\ tiles (so_blob_id h) es offset parts /\ total_len parts = len /\
         (length parts = 1%nat \/ length parts = 2%nat) /\
         Forall (fun p => es_wrapper_ (p_handle p) = esio_proto_ h) parts.
Proof.
  intros Hok (Ho & Hl & Hm) es. pose proof (so_size h Hok) as Hes. fold es in Hes.
  unfold splitUserRequest, too_large. fold es. rewrite (proj2 (Z.eqb_neq es 0)) by lia.
  assert (Hd1 : 0 <= offset / es <= u64_max / 4096) by (split; [apply Z.div_pos; lia|];
    transitivity (offset / 4096); [apply Z.div_le_compat_l; lia|apply Z.div_le_mono; lia]).
  assert (Hd2 : 0 <= (offset + len - 1) / es <= u64_max / 4096) by (split; [apply Z.div_pos; lia|];
    transitivity ((offset + len - 1) / 4096); [apply Z.div_le_compat_l; lia|apply Z.div_le_mono; lia]).
  change (u64_max / 4096) with 4503599627370495 in Hd1, Hd2.
  rewrite (wrap64_small (offset + len)) by (unfold is_u64; lia).
  rewrite (wrap64_small (offset + len - 1)) by (unfold is_u64; lia).
  rewrite (wrap64_small (offset / es + 1)) by (unfold is_u64, u64_max; lia).
  rewrite (wrap64_small ((offset + len - 1) / es + 1)) by (unfold is_u64, u64_max; lia).
  rewrite (wrap64_small (offset / es + 1 + 1)) by (unfold is_u64, u64_max; lia).
  rewrite (wrap64_small (offset / es + 1 - 1)) by (unfold is_u64, u64_max; lia).
  replace (offset / es + 1 + 1 <? (offset + len - 1) / es + 1)
    with (offset / es + 1 <? (offset + len - 1) / es)
    by (apply eq_iff_eq_true; rewrite !Z.ltb_lt; lia).
  destruct (Z.ltb_spec (offset / es + 1) ((offset + len - 1) / es)) as [Hbig|Hfit].
  { do 3 eexists. split; [done|]. by split_and!; auto. }
  destruct (GetExtentStreamHandle_spec h (offset / es + 1) Hok) as (y0 & h0 & -> & Hok0 & Hid0 & Hw0 & Hh0).
  cbn [mbind option_bind].
  pose proof (Z.div_mod offset es ltac:(lia)) as Eo. pose proof (Z.mod_pos_bound offset es ltac:(lia)) as Hr.
  set (q := offset / es) in *. set (r := offset mod es) in *.
  pose proof (Z.div_mod (offset + len - 1) es ltac:(lia)) as Eo2.
  pose proof (Z.mod_pos_bound (offset + len - 1) es ltac:(lia)) as Hr2.
  set (q2 := (offset + len - 1) / es) in *. set (r2 := (offset + len - 1) mod es) in *.
  assert (Hqes : 0 <= q * es <= offset) by (unfold q, r in *; nia).
  assert (Hmono : q <= q2) by (apply Z.div_le_mono; lia).
  replace (q + 1 - 1) with q by lia.
  rewrite (wrap64_small (q * es)), (wrap64_small (offset - q * es)) by (unfold is_u64; lia).
  replace (offset - q * es) with r by lia.
  assert (Hpart0 : y_extent_id y0 = GenerateExtentID (so_blob_id h) (q + 1) /\ (q + 1 - 1) * es + r = offset)
    by (split; [done|lia]).
  destruct (Z.ltb_spec (q + 1) (q2 + 1)) as [Htwo|Hone].
  - assert (q2 = q + 1) as E2 by lia. rewrite E2 in *. clear Hmono Htwo.
    destruct (GetExtentStreamHandle_spec h0 (q + 1 + 1) Hok0) as (y1 & h1 & -> & Hok1 & Hid1 & Hw1 & Hh1).
    cbn [mbind option_bind]. rewrite (wrap64_small (es - r)) by (unfold is_u64, u64_max; lia).
    rewrite (wrap32_small (es - r)), wrap32_small by (unfold is_u32; nia).
    assert (Hsame : so_blob_id h0 = so_blob_id h /\ esio_proto_ h0 = esio_proto_ h)
      by (destruct Hh0 as [->|[m ->]]; done). destruct Hsame as [Hb0 Hp0].
    do 3 eexists. split; [done|]. split; [done|]. split.
    { destruct Hh0 as [->|[m0 ->]]; destruct Hh1 as [->|[m1 ->]]; eauto. }
    cbn [tiles total_len p_handle p_roff p_len length].
    split_and!; [done| | |done|lia|auto|by repeat constructor; cbn; congruence].
    + exists (q + 1). split_and!; [apply Hpart0|apply Hpart0|lia..].
    + exists (q + 1 + 1). split_and!; [by rewrite Hid1, Hb0|lia|lia|nia|nia].
  - assert (q2 = q) as E2 by lia. rewrite E2 in *.
    do 3 eexists. split; [done|]. split; [done|]. split; [done|].
    cbn [tiles total_len p_handle p_roff p_len length].
    split_and!; [done| |done|lia|auto|by repeat constructor; cbn].
    exists (q + 1). split_and!; [apply Hpart0|apply Hpart0|lia|lia|nia].
Qed.

Lemma total_len_nonneg b es pos parts : tiles b es pos parts -> 0 <= total_len parts.
Proof.
  revert pos. induction parts as [|p parts IH]; intros pos; simpl; [lia|].
  intros [(i & _ & _ & _ & ? & _) Ht]. specialize (IH _ Ht). lia.
Qed.

(** The bytes of the parts, in order. *)
Fixpoint parts_data (buf : string) (pos : Z) (parts : list Part) : string :=
  match parts with
  | [] => ""
  | p :: parts' => slice buf pos (p_len p) +:+ parts_data buf (pos + p_len p) parts'
  end.

Lemma parts_data_spec b es buf parts : forall pos g,
  tiles b es g parts -> 0 <= pos -> pos + total_len parts <= slen buf ->
  slen (parts_data buf pos parts) = total_len parts /\
  forall i, 0 <= i < total_len parts -> byte_at (parts_data buf pos parts) i = byte_at buf (pos + i).
Proof.
  induction parts as [|p parts IH]; intros pos g Ht Hp Hl; cbn [parts_data total_len] in *; [split; [done|lia]|].
  destruct Ht as [(i & _ & _ & _ & Hl1 & _) Ht]. pose proof (total_len_nonneg _ _ _ _ Ht).
  destruct (IH (pos + p_len p) _ Ht ltac:(lia) ltac:(lia)) as [Hs Hb].
  assert (Hd : slen (slice buf pos (p_len p)) = p_len p) by (apply slen_slice; lia).
  split; [rewrite slen_app; lia|]. intros j Hj. rewrite byte_at_app, Hd by lia.
  destruct (Z.ltb_spec j (p_len p)); [by rewrite byte_at_slice by lia|].
  rewrite Hb by lia. f_equal. lia.
Qed.

(** ** The promise of the extent servers *)

(** A message as the client sends it. *)
Definition msg_ok (m : IoMsg) : Prop :=
  is_u32 (io_offset m) /\ is_u32 (io_size m) /\ slen (io_extent_id m) < 2147483624.

(** [es_byte w target id x]: the byte the server at [target] keeps at offset
    [x] of an extent, when the extent has been written there. *)
Class EsLaws (W : Type) `{EsRpc W} := {
  es_ok : W -> Prop;
  es_byte : W -> string -> string -> Z -> option ascii;
  write_keeps : forall w tgt m data r w', es_ok w -> msg_ok m ->
    rpc_write w tgt m data = (r, w') -> es_ok w' /\
    (forall tgt' id' x c, ~ (tgt' = tgt /\ id' = io_extent_id m /\ io_offset m <= x < io_offset m + io_size m) ->
       es_byte w tgt' id' x = Some c -> es_byte w' tgt' id' x = Some c);
  write_stores : forall w tgt m data r w', es_ok w -> msg_ok m -> slen data = io_size m ->
    rpc_write w tgt m data = (r, w') -> write_status r = CYPRE_OK ->
    forall i, 0 <= i < io_size m ->
      es_byte w' tgt (io_extent_id m) (io_offset m + i) = Some (byte_at data i);
  read_keeps : forall w tgt m r w', es_ok w -> msg_ok m -> rpc_read w tgt m = (r, w') ->
    es_ok w' /\ forall tgt' id' x, es_byte w' tgt' id' x = es_byte w tgt' id' x;
  read_answers : forall w tgt m r w', es_ok w -> msg_ok m -> rpc_read w tgt m = (r, w') ->
    read_status r = CYPRE_OK ->
    slen (read_data r).1 = io_size m /\
    forall i c, 0 <= i < io_size m -> es_byte w tgt (io_extent_id m) (io_offset m + i) = Some c ->
      byte_at (read_data r).1 i = c
}.

(** ** Channels *)

(** The address of the server that the handle uses for an extent, once it
    knows the router and has the connection. *)
Definition target_of (h : RBDStream) (id : string) : option string :=
  r ← router_map (extent_router_mgr h) !! id;
  c ← connection_pool2_ (conn_pool h) !! es_id (primary r);
  Some (conn_target c).

(** The handle may learn routers and connections but forgets none. *)
Definition stream_ext (h h' : RBDStream) : Prop :=
  same_stream h h' /\ (stream_ok h -> stream_ok h') /\
  forall id tgt, target_of h id = Some tgt -> target_of h' id = Some tgt.

Lemma stream_ext_refl h : stream_ext h h.
Proof. done. Qed.

Lemma stream_ext_trans h1 h2 h3 : stream_ext h1 h2 -> stream_ext h2 h3 -> stream_ext h1 h3.
Proof.
  intros ((? & ? & ? & ? & ?) & H12 & T12) ((? & ? & ? & ? & ?) & H23 & T23).
  split; [split_and!; congruence|]. auto.
Qed.

Section Bytes.
Context `{EsLaws W} `{Crc32c}.
Implicit Types (w : W) (h : RBDStream).

Lemma QueryRouter_ext m id remote r m' :
  QueryRouter m id remote = (r, m') ->
  (forall id' r', router_map m !! id' = Some r' -> router_map m' !! id' = Some r') /\
  (forall r0, r = Some r0 -> router_map m' !! id = Some r0).
Proof.
  unfold QueryRouter. destruct (router_map m !! id) as [r0|] eqn:E.
  - intros [= <- <-]. split; [done|]. by intros r1 [= <-].
  - destruct (queryFromRemote id remote) as [r0|]; intros [= <- <-]; [|done].
    rewrite router_map_set. split.
    + intros id' r' E'. rewrite lookup_insert_ne; [done|]. congruence.
    + intros r1 [= <-]. apply lookup_insert_eq.
Qed.

Lemma get_conn_ext w h es c h' :
  get_conn w h es = (c, h') ->
  (h' = h \/ exists p, h' = set_conns h p) /\
  (forall e c', connection_pool2_ (conn_pool h) !! e = Some c' ->
     connection_pool2_ (conn_pool h') !! e = Some c') /\
  (forall c0, c = Some c0 -> connection_pool2_ (conn_pool h') !! es_id es = Some c0).
Proof.
  unfold get_conn, GetConnection2. destruct (connection_pool2_ (conn_pool h) !! es_id es) as [c0|] eqn:E.
  - intros [= <- <-]. split_and!; [by left|done|]. by intros ? [= <-].
  - unfold NewConnection. destruct (rpc_channel_ok w _); intros [= <- <-]; cbn.
    + split_and!; [by right; eexists| |].
      * intros e c' E'. rewrite lookup_insert_ne; [done|]. congruence.
      * intros c0 [= <-]. apply lookup_insert_eq.
    + split_and!; [right; by eexists|done|done].
Qed.

Lemma open_channel_ext w h y ch h' :
  open_channel w h y = (ch, h') ->
  stream_ext h h' /\ ioInflight_ h' = ioInflight_ h /\
  (forall c, ch = Server c -> target_of h' (y_extent_id y) = Some (conn_target c)) /\
  (es_wrapper_ y = kBrpc -> ch <> NullServer).
Proof.
  unfold open_channel.
  destruct (QueryRouter _ _ _) as [router rm] eqn:Eq. apply QueryRouter_ext in Eq as [Hgrow Hnew].
  assert (Hset : forall h0, (h0 = set_routers h rm \/ exists p, h0 = set_conns (set_routers h rm) p) ->
    same_stream h h0 /\ (stream_ok h -> stream_ok h0) /\ ioInflight_ h0 = ioInflight_ h).
  { intros h0 [->|[p ->]]; (split; [done|split; [|done]]); intros [? ? ? ?]; by split. }
  destruct router as [r|].
  - destruct (get_conn w (set_routers h rm) (primary r)) as [conn h1] eqn:Ec.
    apply get_conn_ext in Ec as (Hh1 & Hcg & Hcn). destruct (Hset h1 Hh1) as (Hsame & Hkeep & Hinf).
    assert (Hrm : extent_router_mgr h1 = rm) by (destruct Hh1 as [->|[p ->]]; done).
    assert (Hext : stream_ext h h1).
    { split; [done|]. split; [done|]. unfold target_of. intros id tgt. rewrite Hrm.
      destruct (router_map (extent_router_mgr h) !! id) as [r0|] eqn:E; [|done].
      rewrite (Hgrow _ _ E). cbn.
      destruct (connection_pool2_ (conn_pool h) !! _) as [c0|] eqn:E1; [|done]. by rewrite (Hcg _ _ E1). }
    destruct (es_wrapper_ y), conn as [c|]; intros [= <- <-]; (split_and!; [done|done| |done]); try done.
    intros c0 [= <-]. unfold target_of. rewrite Hrm, (Hnew r eq_refl). cbn. by rewrite (Hcn c eq_refl).
  - intros [= <- <-]. destruct (Hset (set_routers h rm) (or_introl eq_refl)) as (Hsame & Hkeep & Hinf).
    split_and!; try done. split; [done|split; [done|]]. unfold target_of. cbn. intros id tgt.
    destruct (router_map (extent_router_mgr h) !! id) as [r0|] eqn:E; [|done].
    by rewrite (Hgrow _ _ E).
Qed.

(** ** The blob as an array of bytes *)

(** The byte of the blob at [x], as far as the handle's servers know it. *)
Definition blob_byte w h (x : Z) : option ascii :=
  let id := GenerateExtentID (so_blob_id h) (x / so_extent_size h + 1) in
  tgt ← target_of h id; es_byte w tgt id (x mod so_extent_size h).

(** Bytes outside [lo, lo + n) that were known stay as they are. *)
Definition bytes_kept (lo n : Z) w h w' h' : Prop :=
  forall x c, 0 <= x -> in_range lo n x = false -> blob_byte w h x = Some c -> blob_byte w' h' x = Some c.

Lemma bytes_kept_trans lo n lo1 n1 lo2 n2 w1 h1 w2 h2 w3 h3 :
  bytes_kept lo1 n1 w1 h1 w2 h2 -> bytes_kept lo2 n2 w2 h2 w3 h3 ->
  (forall x, in_range lo n x = false -> in_range lo1 n1 x = false /\ in_range lo2 n2 x = false) ->
  bytes_kept lo n w1 h1 w3 h3.
Proof. intros H12 H23 Hr x c Hx Ho Hb. destruct (Hr x Ho). eauto. Qed.

Lemma stream_ext_bytes w h h' lo n : stream_ext h h' -> bytes_kept lo n w h w h'.
Proof.
  intros ((Eb & Ee & _) & _ & Ht) x c _ _. unfold blob_byte. rewrite Eb, Ee.
  destruct (target_of h _) as [tgt|] eqn:E; [|done]. by rewrite (Ht _ _ E).
Qed.

(** The handle knows the server of the byte at [x]. *)
Definition known h (x : Z) : Prop :=
  is_Some (target_of h (GenerateExtentID (so_blob_id h) (x / so_extent_size h + 1))).

Lemma known_ext w h h' x : stream_ext h h' -> known h x -> known h' x /\ blob_byte w h' x = blob_byte w h x.
Proof.
  intros ((Eb & Ee & _) & _ & Ht) [tgt Hk]. unfold known, blob_byte. rewrite Eb, Ee, (Ht _ _ Hk), Hk. split; [by eexists|done].
Qed.

Lemma blob_byte_known w h x c : blob_byte w h x = Some c -> known h x.
Proof. unfold blob_byte, known. destruct (target_of h _); [by eexists|done]. Qed.

Lemma blob_byte_es w w' h x : (forall tgt id y, es_byte w' tgt id y = es_byte w tgt id y) ->
  blob_byte w' h x = blob_byte w h x.
Proof. intros He. unfold blob_byte. destruct (target_of h _); [|done]. apply He. Qed.

(** A tile of the blob at [pos]: its extent and the message that names it. *)
Lemma tile_index h p pos i :
  stream_ok h -> 0 <= pos <= u64_max ->
  (i - 1) * so_extent_size h + p_roff p = pos -> 0 <= p_roff p -> 1 <= p_len p ->
  p_roff p + p_len p <= so_extent_size h ->
  is_u64 i /\ is_u32 (p_roff p) /\ is_u32 (p_len p) /\
  forall j, 0 <= j < p_len p ->
    (pos + j) / so_extent_size h + 1 = i /\ (pos + j) mod so_extent_size h = p_roff p + j.
Proof.
  intros Hok Hp Ei Hr Hl Hle. pose proof (so_size h Hok) as Hes. unfold is_u64, is_u32.
  assert (0 <= i - 1) by nia. assert ((i - 1) * 4096 <= u64_max) by nia. unfold u64_max in *.
  split_and!; try lia. intros j Hj. set (es := so_extent_size h) in *.
  rewrite <- (Z.div_unique_pos (pos + j) es (i - 1) (p_roff p + j)) by lia.
  rewrite <- (Z.mod_unique_pos (pos + j) es (i - 1) (p_roff p + j)) by lia. lia.
Qed.

Lemma part_msg_ok h p pos i dc hc :
  stream_ok h -> 0 <= pos <= u64_max -> y_extent_id (p_handle p) = GenerateExtentID (so_blob_id h) i ->
  (i - 1) * so_extent_size h + p_roff p = pos -> 0 <= p_roff p -> 1 <= p_len p ->
  p_roff p + p_len p <= so_extent_size h ->
  msg_ok (part_msg p dc hc) /\ io_offset (part_msg p dc hc) = p_roff p /\
  io_size (part_msg p dc hc) = p_len p.
Proof.
  intros Hok Hp Hid Ei Hr Hl Hle.
  destruct (tile_index h p pos i Hok Hp Ei Hr Hl Hle) as (Hi & H1' & H2' & _).
  unfold msg_ok, part_msg. cbn. rewrite !wrap32_small by done. split_and!; try done.
  rewrite Hid. apply extent_id_short; [apply Hok|done].
Qed.

(** What a write call does to the bytes of the blob. *)
Lemma rpc_write_spec w h p tgt data dc hc r w' pos :
  stream_ok h -> es_ok w -> slen data = p_len p -> 0 <= pos <= u64_max ->
  tiles (so_blob_id h) (so_extent_size h) pos [p] ->
  target_of h (y_extent_id (p_handle p)) = Some tgt ->
  rpc_write w tgt (part_msg p dc hc) data = (r, w') ->
  es_ok w' /\ bytes_kept pos (p_len p) w h w' h /\
  (write_status r = CYPRE_OK ->
   forall j, 0 <= j < p_len p -> blob_byte w' h (pos + j) = Some (byte_at data j)).
Proof.
  intros Hok Hw Hd Hpos [(i & Hid & Ei & Hr & Hl & Hle) _] Htgt Er.
  destruct (part_msg_ok h p pos i dc hc Hok Hpos Hid Ei Hr Hl Hle) as (Hm & Eoff & Esz).
  destruct (tile_index h p pos i Hok Hpos Ei Hr Hl Hle) as (_ & _ & _ & Hidx).
  destruct (write_keeps _ _ _ _ _ _ Hw Hm Er) as [Hw1 Hkeep].
  pose proof (write_stores _ _ _ _ _ _ Hw Hm (eq_trans Hd (eq_sym Esz)) Er) as Hst.
  rewrite Eoff, Esz in Hst, Hkeep. cbn [io_extent_id part_msg] in Hst, Hkeep. split_and!; [done| |].
  - intros x c0 Hx Ho Hb. unfold blob_byte in *. destruct (target_of h (GenerateExtentID _ _)); [|done].
    cbn [mbind option_bind] in *. apply Hkeep; [|done]. rewrite Hid. intros (_ & Eid & Hrange).
    apply in_range_false in Ho. apply Ho.
    apply GenerateExtentID_inj in Eid as [_ Eid]; [|apply Hok..].
    pose proof (so_size h Hok). pose proof (Z.div_mod x (so_extent_size h) ltac:(lia)) as Ex.
    replace (x / so_extent_size h) with (i - 1) in Ex by lia. lia.
  - intros Hrc j Hj. specialize (Hst Hrc j Hj). destruct (Hidx j Hj) as [Ej Em].
    unfold blob_byte. rewrite Ej, Em, <- Hid, Htgt. done.
Qed.

Lemma write_part_spec w h p data dc hc rc status h' w' pos :
  stream_ok h -> es_ok w -> es_wrapper_ (p_handle p) = kBrpc -> slen data = p_len p ->
  0 <= pos <= u64_max -> tiles (so_blob_id h) (so_extent_size h) pos [p] ->
  write_part w h p data dc hc = (rc, status, h', w') ->
  stream_ext h h' /\ es_ok w' /\ ioInflight_ h' = ioInflight_ h /\ status = rc /\
  bytes_kept pos (p_len p) w h w' h' /\
  (rc = CYPRE_OK -> forall j, 0 <= j < p_len p -> blob_byte w' h' (pos + j) = Some (byte_at data j)).
Proof.
  intros Hok Hw Hbr Hd Hpos Ht. unfold write_part.
  destruct (open_channel w h (p_handle p)) as [ch h1] eqn:Ec.
  apply open_channel_ext in Ec as (Hext & Hinf & Hsrv & Hnull).
  destruct ch as [|c|]; [| |by destruct (Hnull Hbr)].
  - intros [= <- <- <- <-]. split_and!; try done. by apply stream_ext_bytes.
  - destruct (rpc_write w _ _ data) as [r w1] eqn:Er. intros [= <- <- <- <-].
    destruct (rpc_write_spec w h1 p (conn_target c) data dc hc r w1 pos) as (Hw1 & Hk & Hs); auto.
    { by apply Hext. }
    { destruct Hext as ((-> & -> & _) & _). done. }
    split_and!; try done. eapply (bytes_kept_trans _ _ 0 0 pos (p_len p)); [|exact Hk|].
    + by apply stream_ext_bytes.
    + intros x Hx. split; [apply in_range_false; lia|done].
Qed.

Lemma onDone_spec h u status bad call u' h' :
  onDone h u status bad = (call, u', h') ->
  stream_ext h h' /\ u_ref u' = u_ref u - 1 /\
  ioInflight_ h' = ioInflight_ h - (if 0 <? u_ref u - 1 then 0 else 1).
Proof.
  unfold onDone. cbn [u_ref]. destruct (0 <? u_ref u - 1); intros [= <- <- <-].
  - split_and!; [done|done|lia].
  - split_and!; [|done|done]. split; [done|]. split; [|done]. intros [? ? ? ?]. by split.
Qed.

Lemma tiles_ext h h' pos parts :
  stream_ext h h' -> tiles (so_blob_id h) (so_extent_size h) pos parts ->
  tiles (so_blob_id h') (so_extent_size h') pos parts.
Proof. intros ((-> & -> & _) & _). done. Qed.

Lemma write_parts_spec split buf hc parts : forall w h u bpos rv pos rv' u' h' w',
  stream_ok h -> es_ok w -> Forall (fun p => es_wrapper_ (p_handle p) = kBrpc) parts ->
  tiles (so_blob_id h) (so_extent_size h) pos parts ->
  0 <= pos -> pos + total_len parts <= u64_max -> 0 <= bpos -> bpos + total_len parts <= slen buf ->
  u_ref u = Z.of_nat (length parts) ->
  write_parts w h u split buf hc bpos rv parts = (rv', u', h', w') ->
  stream_ext h h' /\ es_ok w' /\
  ioInflight_ h' = ioInflight_ h - match parts with [] => 0 | _ => 1 end /\
  bytes_kept pos (total_len parts) w h w' h' /\
  (rv' = CYPRE_OK -> rv = CYPRE_OK /\ forall j, 0 <= j < total_len parts ->
     blob_byte w' h' (pos + j) = Some (byte_at buf (bpos + j))).
Proof.
  induction parts as [|p parts IH]; intros w h u bpos rv pos rv' u' h' w' Hok Hw Hbr Ht Hp Hpt Hb Hbt Hu E.
  - simpl in E. injection E as <- <- <- <-. cbn [total_len]. split_and!; [done|done| |by intros x c|].
    + lia.
    + intros ->. split; [done|]. lia.
  - cbn [write_parts total_len] in *. apply Forall_cons in Hbr as [Hbr1 Hbr].
    destruct Ht as [Ht1 Ht]. pose proof (total_len_nonneg _ _ _ _ Ht) as Hnn.
    assert (Hl : 1 <= p_len p) by (destruct Ht1 as (? & _ & _ & _ & ? & _); done).
    assert (Hd : slen (slice buf bpos (p_len p)) = p_len p) by (apply slen_slice; lia).
    destruct (write_part _ _ _ _ _ _) as [[[rc status] h1] w1] eqn:E1.
    apply (write_part_spec _ _ _ _ _ _ _ _ _ _ pos) in E1 as (Hx1 & Hw1 & Hi1 & -> & Hk1 & Hs1);
      [|done|done|done|done|lia|by split].
    destruct (onDone h1 u rc false) as [[call u2] h2] eqn:E2. apply onDone_spec in E2 as (Hx2 & Hu2 & Hi2).
    pose proof (stream_ext_trans _ _ _ Hx1 Hx2) as Hx12.
    apply (IH _ _ _ _ _ (pos + p_len p)) in E as (Hx3 & Hw3 & Hi3 & Hk3 & Hs3);
      [|by apply Hx12|done|done|by apply (tiles_ext h)|lia|lia|lia|lia|cbn [length] in Hu; lia].
    pose proof (stream_ext_bytes w1 _ _ 0 0 Hx2) as Hk2.
    split_and!; [by eapply stream_ext_trans|done| | |].
    + rewrite Hi3, Hi2, Hi1, Hu. destruct parts; cbn [length]; [simpl; lia|].
      rewrite (proj2 (Z.ltb_lt _ _)) by lia. lia.
    + eapply (bytes_kept_trans _ _ pos (p_len p) (pos + p_len p) (total_len parts) _ _ w1 h2);
        [|exact Hk3|].
      * intros x c Hx Ho Hbx. apply Hk2; [done|by apply in_range_false; lia|]. by apply Hk1.
      * intros x Ho. rewrite !in_range_false in *. lia.
    + intros Hrv. destruct (Hs3 Hrv) as [Erv Hdata]. destruct (Z.eqb_spec rc CYPRE_OK) as [->|]; [|done].
      split; [done|]. intros j Hj. destruct (decide (j < p_len p)).
      * apply Hk3; [lia|apply in_range_false; lia|]. apply Hk2; [lia|apply in_range_false; lia|].
        rewrite Hs1 by (done || lia). by rewrite byte_at_slice by lia.
      * specialize (Hdata (j - p_len p) ltac:(lia)).
        replace (pos + p_len p + (j - p_len p)) with (pos + j) in Hdata by lia.
        by replace (bpos + p_len p + (j - p_len p)) with (bpos + j) in Hdata by lia.
Qed.

Lemma read_part_spec w h p buf bpos hc pos :
  stream_ok h -> es_ok w -> es_wrapper_ (p_handle p) = kBrpc ->
  0 <= pos <= u64_max -> tiles (so_blob_id h) (so_extent_size h) pos [p] ->
  0 <= bpos -> bpos + p_len p <= slen buf ->
  exists rc crc buf' h' w', read_part w h p buf bpos hc = Some (rc, rc, crc, buf', h', w') /\
  stream_ext h h' /\ es_ok w' /\ ioInflight_ h' = ioInflight_ h /\
  (forall tgt id x, es_byte w' tgt id x = es_byte w tgt id x) /\
  slen buf' = slen buf /\
  (forall i, 0 <= i < slen buf -> in_range bpos (p_len p) i = false -> byte_at buf' i = byte_at buf i) /\
  (rc = CYPRE_OK -> forall j, 0 <= j < p_len p -> known h' (pos + j) /\
     forall c, blob_byte w h' (pos + j) = Some c -> byte_at buf' (bpos + j) = c).
Proof.
  intros Hok Hw Hbr Hpos [(i & Hid & Ei & Hr & Hl & Hle) _] Hb Hbl. unfold read_part.
  destruct (open_channel w h (p_handle p)) as [ch h1] eqn:Ec.
  apply open_channel_ext in Ec as (Hext & Hinf & Hsrv & Hnull).
  destruct ch as [|c|]; [| |by destruct (Hnull Hbr)].
  - do 5 eexists. split; [done|]. by split_and!.
  - destruct (part_msg_ok h p pos i 0 hc Hok Hpos Hid Ei Hr Hl Hle) as (Hm & Eoff & Esz).
    destruct (tile_index h p pos i Hok Hpos Ei Hr Hl Hle) as (_ & _ & _ & Hidx).
    destruct (rpc_read w _ _) as [r w1] eqn:Er.
    destruct (read_keeps _ _ _ _ _ Hw Hm Er) as [Hw1 Hkeep].
    pose proof (read_answers _ _ _ _ _ Hw Hm Er) as Ha. rewrite Eoff, Esz in Ha.
    destruct (read_data r) as [data crc] eqn:Ed. cbn [fst] in Ha.
    assert (Hdl : slen data = p_len p \/ slen data = 0 /\ read_status r <> CYPRE_OK).
    { destruct (decide (read_status r = CYPRE_OK)) as [Hs|Hs]; [left; by apply Ha|]. right. split; [|done].
      destruct r as [|code att x]; cbn in Ed, Hs; [by simplify_eq|].
      destruct (Z.eqb_spec code CYPRE_OK) as [->|]; [done|]. by simplify_eq. }
    destruct (copy_at_spec buf bpos data) as (buf' & -> & Hlen & Hbytes); [lia|lia|]. cbn [mbind option_bind].
    specialize (Hsrv c eq_refl). pose proof Hext as ((Eb & Ee & _) & _ & _).
    do 5 eexists. split; [done|]. split_and!; try done.
    + intros k Hk Ho. rewrite Hbytes by done. replace (in_range bpos (slen data) k) with false; [done|].
      symmetry. rewrite in_range_false in *. lia.
    + intros Hs j Hj. destruct (Ha Hs) as [Hdlen Hdata]. destruct (Hidx j Hj) as [Ej Em]. unfold known, blob_byte.
      rewrite Eb, Ee, Ej, Em, <- Hid, Hsrv. split; [by eexists|]. intros c0 Hbx. rewrite Hbytes by lia.
      replace (in_range bpos (slen data) (bpos + j)) with true by (symmetry; apply in_range_spec; lia).
      replace (bpos + j - bpos) with j by lia. by apply Hdata.
Qed.

Lemma read_parts_spec hc parts : forall w h u buf bpos rv pos,
  stream_ok h -> es_ok w -> Forall (fun p => es_wrapper_ (p_handle p) = kBrpc) parts ->
  tiles (so_blob_id h) (so_extent_size h) pos parts ->
  0 <= pos -> pos + total_len parts <= u64_max -> 0 <= bpos -> bpos + total_len parts <= slen buf ->
  u_ref u = Z.of_nat (length parts) ->
  exists rv' u' buf' h' w', read_parts w h u buf hc bpos rv parts = Some (rv', u', buf', h', w') /\
  stream_ext h h' /\ es_ok w' /\ ioInflight_ h' = ioInflight_ h - match parts with [] => 0 | _ => 1 end /\
  (forall tgt id x, es_byte w' tgt id x = es_byte w tgt id x) /\ slen buf' = slen buf /\
  (forall i, 0 <= i < bpos -> byte_at buf' i = byte_at buf i) /\
  (rv' = CYPRE_OK -> rv = CYPRE_OK /\ forall j, 0 <= j < total_len parts -> known h' (pos + j) /\
     forall c, blob_byte w h' (pos + j) = Some c -> byte_at buf' (bpos + j) = c).
Proof.
  induction parts as [|p parts IH]; intros w h u buf bpos rv pos Hok Hw Hbr Ht Hp Hpt Hb Hbt Hu.
  - do 5 eexists. split; [done|]. cbn [total_len]. split_and!; [done|done|lia|by intros x c|done|done|].
    intros ->. split; [done|]. lia.
  - cbn [read_parts total_len] in *. apply Forall_cons in Hbr as [Hbr1 Hbr].
    destruct Ht as [Ht1 Ht]. pose proof (total_len_nonneg _ _ _ _ Ht) as Hnn.
    assert (Hl : 1 <= p_len p) by (destruct Ht1 as (? & _ & _ & _ & ? & _); done).
    destruct (read_part_spec w h p buf bpos hc pos) as
      (rc & crc & buf1 & h1 & w1 & -> & Hx1 & Hw1 & Hi1 & Hk1 & Hl1 & Ho1 & Hs1);
      [done|done|done|lia|by split|lia|lia|].
    cbn [mbind option_bind].
    destruct (onDone h1 u rc _) as [[call u2] h2] eqn:E2. apply onDone_spec in E2 as (Hx2 & Hu2 & Hi2).
    pose proof (stream_ext_trans _ _ _ Hx1 Hx2) as Hx12.
    edestruct (IH w1 h2 u2 buf1 (bpos + p_len p)) as
      (rv' & u' & buf' & h' & w' & -> & Hx3 & Hw3 & Hi3 & Hk3 & Hl3 & Ho3 & Hs3);
      [by apply Hx12|done|done|by apply (tiles_ext h)|lia|lia|lia|lia|cbn [length] in Hu; lia|].
    do 5 eexists. split; [done|]. split_and!; [by eapply stream_ext_trans|done| | |lia| |].
    + rewrite Hi3, Hi2, Hi1, Hu. destruct parts; cbn [length]; [simpl; lia|].
      rewrite (proj2 (Z.ltb_lt _ _)) by lia. lia.
    + intros tgt id x. by rewrite Hk3.
    + intros i Hi. rewrite Ho3, Ho1 by (lia || apply in_range_false; lia). done.
    + intros Hrv. destruct (Hs3 Hrv) as [Erv Hdata]. destruct (Z.eqb_spec rc CYPRE_OK) as [->|]; [|done].
      split; [done|]. intros j Hj. destruct (decide (j < p_len p)).
      * destruct (Hs1 eq_refl j ltac:(lia)) as [Hkn Hb1].
        destruct (known_ext w h1 h' (pos + j) (stream_ext_trans _ _ _ Hx2 Hx3) Hkn) as [Hkn' Heq].
        split; [done|]. intros c. rewrite Heq, Ho3 by lia. apply Hb1.
      * destruct (Hdata (j - p_len p) ltac:(lia)) as [Hkn Hb1].
        replace (pos + p_len p + (j - p_len p)) with (pos + j) in * by lia.
        replace (bpos + p_len p + (j - p_len p)) with (bpos + j) in * by lia.
        split; [done|]. intros c Hc. apply Hb1. by rewrite (blob_byte_es w w1).
Qed.

(** ** Asynchronous requests *)

(** A queued part of [buf] at [offset]: its tile and its server. *)
Definition pending_ok h (offset : Z) (buf : string) (pd : Pending) : Prop :=
  let p := pd_part pd in
  tiles (so_blob_id h) (so_extent_size h) (offset + pd_pos pd) [p] /\
  0 <= pd_pos pd /\ pd_pos pd + p_len p <= slen buf /\
  exists c, pd_channel pd = Server c /\ target_of h (y_extent_id (p_handle p)) = Some (conn_target c).

(** [more]: the parts still to be issued; [n]: the requests in flight before;
    [covered]: the bytes issued so far.  The callback is still to come while
    parts are left and was called once when none is; a good status means that
    every byte is stored or its part is queued. *)
Record async_inv (rd : bool) (n : Z) (offset more covered : Z) (buf : string) (a : AsyncIo W) : Prop := {
  ai_range : 0 <= offset /\ offset + slen buf <= u64_max;
  ai_stream : stream_ok (a_stream a);
  ai_world : es_ok (a_world a);
  ai_ref : u_ref (a_ureq a) = Z.of_nat (length (a_pending a)) + more;
  ai_more : 0 <= more;
  ai_calls : if 0 <? u_ref (a_ureq a)
    then a_calls a = [] /\ ioInflight_ (a_stream a) = n + 1
    else a_calls a = [u_status (a_ureq a)] /\ ioInflight_ (a_stream a) = n;
  ai_pending : Forall (pending_ok (a_stream a) offset buf) (a_pending a);
  ai_len : slen (a_buf a) = slen buf;
  ai_buf : rd = false -> a_buf a = buf;
  ai_stored : rd = false -> u_status (a_ureq a) = CYPRE_OK -> forall x, 0 <= x < covered ->
    blob_byte (a_world a) (a_stream a) (offset + x) = Some (byte_at buf x) \/
    exists pd, pd ∈ a_pending a /\ pd_pos pd <= x < pd_pos pd + p_len (pd_part pd)
}.

Lemma pending_ext h h' offset buf pd :
  stream_ext h h' -> pending_ok h offset buf pd -> pending_ok h' offset buf pd.
Proof.
  intros Hx (Ht & Hp & Hl & c & Ec & Htg). split; [by apply (tiles_ext h)|]. split_and!; try done.
  exists c. split; [done|]. by apply Hx.
Qed.

(** A part ends: the invariant but for the bytes. *)
Lemma part_done_inv rd n offset more covered buf a status bad :
  0 <= offset /\ offset + slen buf <= u64_max -> stream_ok (a_stream a) -> es_ok (a_world a) ->
  u_ref (a_ureq a) = Z.of_nat (length (a_pending a)) + 1 + more -> 0 <= more ->
  a_calls a = [] -> ioInflight_ (a_stream a) = n + 1 ->
  Forall (pending_ok (a_stream a) offset buf) (a_pending a) ->
  slen (a_buf a) = slen buf -> (rd = false -> a_buf a = buf) ->
  (rd = false -> u_status (a_ureq a) = CYPRE_OK -> status = CYPRE_OK -> forall x, 0 <= x < covered ->
    blob_byte (a_world a) (a_stream a) (offset + x) = Some (byte_at buf x) \/
    exists pd, pd ∈ a_pending a /\ pd_pos pd <= x < pd_pos pd + p_len (pd_part pd)) ->
  (rd = false -> bad = false) ->
  async_inv rd n offset more covered buf (part_done a status bad).
Proof.
  intros Hrg Hok Hw Hr Hm Hc Hi Hp Hl Hb Hs Hbad. unfold part_done.
  destruct (onDone _ _ _ _) as [[call u] h] eqn:E.
  pose proof (onDone_spec _ _ _ _ _ _ _ E) as (Hx & Hu & Hinf).
  assert (Hcall : call = if 0 <? u_ref u then None else Some (u_status u)).
  { revert E. unfold onDone. cbn [u_ref]. destruct (0 <? _) eqn:E0; intros [= <- <- <-]; cbn; by rewrite E0. }
  assert (Hst : rd = false -> u_status u = CYPRE_OK -> u_status (a_ureq a) = CYPRE_OK /\ status = CYPRE_OK).
  { intros Erd. rewrite (Hbad Erd) in E. revert E. unfold onDone. cbn [u_ref].
    destruct (Z.eqb_spec status CYPRE_OK), (Z.eqb_spec (u_status (a_ureq a)) CYPRE_OK);
      destruct (0 <? _); intros [= <- <- <-]; cbn; intros; try done; congruence. }
  split; cbn [a_stream a_world a_ureq a_pending a_calls a_buf].
  - done.
  - by apply Hx.
  - done.
  - lia.
  - done.
  - rewrite Hc, Hcall, Hinf, <- Hu. destruct (0 <? u_ref u); cbn; split; auto; lia.
  - eapply Forall_impl; [exact Hp|]. intros pd. by apply pending_ext.
  - done.
  - done.
  - intros Erd Es x Hxr. destruct (Hst Erd Es) as [H1' H2'].
    destruct (Hs Erd H1' H2' x Hxr) as [Hb'|Hp']; [left|by right].
    by apply (stream_ext_bytes _ _ _ 0 0 Hx) in Hb'; [|lia|apply in_range_false; lia].
Qed.

Lemma part_done_ext (a : AsyncIo W) status bad : stream_ext (a_stream a) (a_stream (part_done a status bad)).
Proof.
  unfold part_done. destruct (onDone _ _ _ _) as [[call u] h] eqn:E. by apply onDone_spec in E as [? _].
Qed.

Lemma issue_parts_inv rd n offset buf parts : forall a pos rv rv' a',
  async_inv rd n offset (Z.of_nat (length parts)) pos buf a ->
  tiles (so_blob_id (a_stream a)) (so_extent_size (a_stream a)) (offset + pos) parts ->
  Forall (fun p => es_wrapper_ (p_handle p) = kBrpc) parts ->
  0 <= pos -> pos + total_len parts <= slen buf ->
  issue_parts a pos rv parts = (rv', a') ->
  async_inv rd n offset 0 (pos + total_len parts) buf a'.
Proof.
  induction parts as [|p parts IH]; intros a pos rv rv' a' I Ht Hbr Hp Hpl E.
  - simpl in E. injection E as <- <-. cbn [total_len length] in *. by rewrite Z.add_0_r.
  - cbn [issue_parts total_len length] in *. apply Forall_cons in Hbr as [Hbr1 Hbr].
    destruct Ht as [Ht1 Ht]. pose proof (total_len_nonneg _ _ _ _ Ht) as Hnn.
    assert (Hl : 1 <= p_len p) by (destruct Ht1 as (? & _ & _ & _ & ? & _); done).
    destruct (open_channel _ _ _) as [ch h1] eqn:Ec.
    apply open_channel_ext in Ec as (Hext & Hinf & Hsrv & Hnull).
    pose proof I as [Hrg Hok Hw Hr Hm Hc Hpd Hbl Hbuf Hst].
    rewrite (proj2 (Z.ltb_lt _ _)) in Hc by lia. destruct Hc as [Hc Hi].
    assert (Hpd1 : Forall (pending_ok h1 offset buf) (a_pending a)).
    { eapply Forall_impl; [exact Hpd|]. intros pd. by apply pending_ext. }
    assert (Hbx : forall x, 0 <= offset + x -> forall c, blob_byte (a_world a) (a_stream a) (offset + x) = Some c ->
      blob_byte (a_world a) h1 (offset + x) = Some c).
    { intros x Hx c. apply (stream_ext_bytes _ _ _ 0 0 Hext); [done|apply in_range_false; lia]. }
    replace (pos + (p_len p + total_len parts)) with (pos + p_len p + total_len parts) by lia.
    rewrite <- Z.add_assoc in Ht.
    destruct ch as [|c|]; [| |by destruct (Hnull Hbr1)]; (apply IH in E; [done| | |done|lia|lia]).
    + apply part_done_inv; cbn [a_stream a_world a_ureq a_pending a_calls a_buf]; try done; try lia.
      by apply Hext.
    + eapply tiles_ext; [apply part_done_ext|]. by apply (tiles_ext (a_stream a)).
    + split; cbn [a_stream a_world a_ureq a_pending a_calls a_buf]; try done; try lia.
      * by apply Hext.
      * rewrite length_app. cbn [length]. lia.
      * rewrite (proj2 (Z.ltb_lt _ _)) by lia. split; [done|lia].
      * apply Forall_app. split; [done|]. constructor; [|done].
        split; [by apply (tiles_ext (a_stream a))|]. cbn. split_and!; [done|lia|]. exists c. auto.
      * intros Erd Es x Hx. destruct (decide (x < pos)) as [Hlt|Hge].
        -- destruct (Hst Erd Es x ltac:(lia)) as [Hb|(pd & Hin & Hr2)].
           ++ left. apply Hbx; [lia|done].
           ++ right. exists pd. split; [set_solver|done].
        -- right. exists (mkPending p (Server c) pos). split; [set_solver|]. cbn. lia.
    + by apply (tiles_ext (a_stream a)).
Qed.

Lemma async_write_inv n offset split covered buf l pd r a hc :
  async_inv false n offset 0 covered buf a -> covered <= slen buf -> a_pending a = (l ++ pd :: r)%list ->
  async_inv false n offset 0 covered buf (answer_write (drop_pending a (l ++ r)%list) split hc pd).
Proof.
  intros [Hrg Hok Hw Hr Hm Hc Hpd Hbl Hbuf Hst] Hcov E. specialize (Hbuf eq_refl).
  rewrite E in Hr, Hpd. rewrite length_app in Hr. cbn [length] in Hr.
  rewrite (proj2 (Z.ltb_lt _ _)) in Hc by lia. destruct Hc as [Hc Hi].
  rewrite <- Permutation_middle, Forall_cons in Hpd.
  destruct Hpd as ((Ht & Hp & Hl & c & Ec & Htg) & Hpd).
  unfold answer_write. rewrite Ec. cbn [drop_pending a_stream a_world a_ureq a_pending a_calls a_buf].
  assert (Hl1 : 1 <= p_len (pd_part pd)) by (destruct Ht as [(? & _ & _ & _ & ? & _) _]; done).
  assert (Hd : slen (slice (a_buf a) (pd_pos pd) (p_len (pd_part pd))) = p_len (pd_part pd))
    by (rewrite Hbuf; apply slen_slice; lia).
  destruct (rpc_write _ _ _ _) as [rp w'] eqn:Er.
  destruct (rpc_write_spec _ (a_stream a) (pd_part pd) _ _ _ _ _ _ (offset + pd_pos pd) Hok Hw
    Hd ltac:(lia) Ht Htg Er) as (Hw' & Hk & Hs).
  apply part_done_inv; cbn [a_stream a_world a_ureq a_pending a_calls a_buf]; try done.
  - rewrite length_app. lia.
  - intros _ Eu Es x Hx. destruct (decide (pd_pos pd <= x < pd_pos pd + p_len (pd_part pd))) as [Hin|Hout].
    + left. specialize (Hs Es (x - pd_pos pd) ltac:(lia)). rewrite Hbuf, byte_at_slice in Hs by lia.
      replace (offset + pd_pos pd + (x - pd_pos pd)) with (offset + x) in Hs by lia.
      by replace (pd_pos pd + (x - pd_pos pd)) with x in Hs by lia.
    + destruct (Hst eq_refl Eu x Hx) as [Hb|(pd' & Hin & Hr2)].
      * left. apply Hk; [lia|apply in_range_false; lia|done].
      * right. exists pd'. split; [|done]. rewrite E in Hin.
        apply elem_of_app in Hin as [?|[->|?]%elem_of_cons]; [set_solver|done|set_solver].
Qed.

(** The state in which a part of [a] is about to end. *)
Lemma drop_pending_inv rd n offset covered buf l pd r a :
  async_inv rd n offset 0 covered buf a -> a_pending a = (l ++ pd :: r)%list ->
  pending_ok (a_stream a) offset buf pd /\ Forall (pending_ok (a_stream a) offset buf) (l ++ r) /\
  u_ref (a_ureq a) = Z.of_nat (length (l ++ r)%list) + 1 + 0 /\ a_calls a = [] /\
  ioInflight_ (a_stream a) = n + 1.
Proof.
  intros [Hrg Hok Hw Hr Hm Hc Hpd Hbl Hbuf Hst] E. rewrite E in Hr, Hpd. rewrite length_app in *.
  cbn [length] in Hr. rewrite (proj2 (Z.ltb_lt _ _)) in Hc by lia. destruct Hc as [Hc Hi].
  rewrite <- Permutation_middle, Forall_cons in Hpd. destruct Hpd. split_and!; try done. lia.
Qed.

Lemma async_step_inv rd offset split n covered buf a a' :
  async_inv rd n offset 0 covered buf a -> covered <= slen buf ->
  async_step rd offset split a a' -> async_inv rd n offset 0 covered buf a'.
Proof.
  intros I Hcov Hst. destruct Hst as [l pd r -> E|l pd r a' -> E Ea|l pd r E].
  - by apply async_write_inv.
  - destruct (drop_pending_inv _ _ _ _ _ _ _ _ _ I E) as ((Ht & Hp & Hl & c & Ec & Htg) & Hpd & Hr & Hc & Hi).
    destruct I as [Hrg Hok Hw _ _ _ _ Hbl _ _]. revert Ea.
    unfold answer_read. rewrite Ec. cbn [drop_pending a_stream a_world a_ureq a_pending a_calls a_buf].
    destruct (rpc_read _ _ _) as [rp w'] eqn:Er. destruct (read_data rp) as [data crc].
    destruct (copy_at _ _ _) as [buf'|] eqn:Eb; [|done]. cbn [mbind option_bind]. intros [= <-].
    destruct Ht as [(i & Hid & Ei & Hro & Hl1 & Hle) _].
    destruct (part_msg_ok (a_stream a) (pd_part pd) (offset + pd_pos pd) i 0
      (header_crc32 (slen (a_buf a)) offset)) as (Hm & _); try done; [lia|].
    destruct (read_keeps _ _ _ _ _ Hw Hm Er) as [Hw' _].
    apply part_done_inv; cbn [a_stream a_world a_ureq a_pending a_calls a_buf]; try done.
    assert (Hfit : pd_pos pd + slen data <= slen (a_buf a)).
    { unfold copy_at in Eb. by destruct (Z.ltb_spec (slen (a_buf a)) (pd_pos pd + slen data)). }
    destruct (copy_at_spec (a_buf a) (pd_pos pd) data) as (b2 & E2 & Hl2 & _); [done|done|]. congruence.
  - destruct (drop_pending_inv _ _ _ _ _ _ _ _ _ I E) as (_ & Hpd & Hr & Hc & Hi).
    destruct I as [Hrg Hok Hw _ _ _ _ Hbl Hbuf _]. by apply part_done_inv.
Qed.

Lemma async_run_inv rd offset split n covered buf a a' :
  covered <= slen buf -> rtc (async_step rd offset split) a a' ->
  async_inv rd n offset 0 covered buf a -> async_inv rd n offset 0 covered buf a'.
Proof. intros Hc. induction 1; eauto using async_step_inv. Qed.

(** The handle after a split, with the request counted as in flight. *)
Lemma split_ext h h' n :
  h' = h \/ (exists m, h' = set_handles h m) -> stream_ok h' ->
  stream_ext h (set_inflight h' n) /\ stream_ok (set_inflight h' n) /\ ioInflight_ h' = ioInflight_ h /\
  isClosed_ h' = isClosed_ h.
Proof.
  intros Hh Hok. assert (Hok' : stream_ok (set_inflight h' n)) by (destruct Hok; by split).
  destruct Hh as [->|[m ->]]; (split_and!; [|done|done|done]); (split; [done|]; split; [done|]); done.
Qed.

Lemma Stream_Write_spec w h buf offset :
  stream_ok h -> es_ok w -> esio_proto_ h = kBrpc -> isClosed_ h = false -> req_range offset (slen buf) ->
  exists rv h' w', Stream_Write w h buf offset = Some (rv, h', w') /\
     stream_ext h h' /\ es_ok w' /\ ioInflight_ h' = ioInflight_ h /\
     bytes_kept offset (slen buf) w h w' h' /\
     (too_large h offset (slen buf) = true -> rv = CYPRE_C_DATA_TOO_LARGE) /\
     (rv = CYPRE_OK -> forall i, 0 <= i < slen buf -> blob_byte w' h' (offset + i) = Some (byte_at buf i)).
Proof.
  intros Hok Hw Hpr Hcl Hrg. pose proof Hrg as (Ho & Hl & Hm). unfold Stream_Write. rewrite Hcl.
  destruct (splitUserRequest_spec h offset (slen buf) Hok Hrg) as (rv & parts & h1 & -> & Hok1 & Hh1 & Hr).
  cbn [mbind option_bind]. pose proof (split_ext h h1 (ioInflight_ h1 + 1) Hh1 Hok1) as (Hx & Hok2 & Hi & _).
  destruct (too_large _ _ _).
  - destruct Hr as [-> ->]. cbn. do 3 eexists. split; [done|].
    assert (Hx1 : stream_ext h h1) by (destruct Hh1 as [->|[m ->]]; [done|]; split; [done|]; split; done).
    split_and!; [done|done|done|by apply stream_ext_bytes|done|done].
  - destruct Hr as (-> & Ht & Htot & Hn & Hbr). rewrite Z.eqb_refl. cbn [negb].
    destruct (write_parts _ _ _ _ _ _ _ _ _) as [[[rv u] h2] w2] eqn:E.
    apply (write_parts_spec _ _ _ _ _ _ _ _ _ offset) in E as (Hx2 & Hw2 & Hi2 & Hk2 & Hs2);
      try done; try lia; [|by rewrite Hpr in Hbr|by apply (tiles_ext h)].
    rewrite Htot in *. do 3 eexists. split; [done|]. split_and!; [by eapply stream_ext_trans|done| | |done|].
    + rewrite Hi2. cbn [set_inflight ioInflight_]. destruct parts; [cbn [length] in Hn; lia|]. lia.
    + eapply (bytes_kept_trans _ _ 0 0 offset (slen buf)); [by apply stream_ext_bytes|exact Hk2|].
      intros x Hx'. split; [apply in_range_false; lia|done].
    + intros Hrv i Hi'. by apply (Hs2 Hrv).
Qed.

Lemma Stream_Read_full w h buf offset :
  stream_ok h -> es_ok w -> esio_proto_ h = kBrpc -> isClosed_ h = false -> req_range offset (slen buf) ->
  exists rv out h' w', Stream_Read w h buf offset = Some (rv, out, h', w') /\
     stream_ext h h' /\ es_ok w' /\ ioInflight_ h' = ioInflight_ h /\
     (forall tgt id x, es_byte w' tgt id x = es_byte w tgt id x) /\ slen out = slen buf /\
     (too_large h offset (slen buf) = true -> rv = CYPRE_C_DATA_TOO_LARGE) /\
     (rv = CYPRE_OK -> forall i, 0 <= i < slen buf -> known h' (offset + i) /\
        forall c, blob_byte w h' (offset + i) = Some c -> byte_at out i = c).
Proof.
  intros Hok Hw Hpr Hcl Hrg. pose proof Hrg as (Ho & Hl & Hm). unfold Stream_Read. rewrite Hcl.
  destruct (splitUserRequest_spec h offset (slen buf) Hok Hrg) as (rv & parts & h1 & -> & Hok1 & Hh1 & Hr).
  cbn [mbind option_bind]. pose proof (split_ext h h1 (ioInflight_ h1 + 1) Hh1 Hok1) as (Hx & Hok2 & Hi & _).
  destruct (too_large _ _ _).
  - destruct Hr as [-> ->]. cbn. do 4 eexists. split; [done|].
    assert (Hx1 : stream_ext h h1) by (destruct Hh1 as [->|[m ->]]; [done|]; split; [done|]; split; done).
    by split_and!.
  - destruct Hr as (-> & Ht & Htot & Hn & Hbr). rewrite Z.eqb_refl. cbn [negb].
    destruct (read_parts_spec (header_crc32 (slen buf) offset) parts w
      (set_inflight h1 (ioInflight_ h1 + 1)) (mkUReq CYPRE_OK (Z.of_nat (length parts))) buf 0 CYPRE_OK offset)
      as (rv & u & out & h2 & w2 & -> & Hx2 & Hw2 & Hi2 & Hk2 & Hl2 & _ & Hs2);
      try done; try lia; [by rewrite Hpr in Hbr|by apply (tiles_ext h)|].
    cbn [mbind option_bind].
    rewrite Htot in *. do 4 eexists. split; [done|]. split_and!; [by eapply stream_ext_trans|done| |done|done|done|].
    + rewrite Hi2. cbn [set_inflight ioInflight_]. destruct parts; [cbn [length] in Hn; lia|]. lia.
    + intros Hrv i Hi'. by apply (Hs2 Hrv).
Qed.

Lemma Stream_Read_spec w h buf offset :
  stream_ok h -> es_ok w -> esio_proto_ h = kBrpc -> isClosed_ h = false -> req_range offset (slen buf) ->
  exists rv out h' w', Stream_Read w h buf offset = Some (rv, out, h', w') /\
     stream_ext h h' /\ es_ok w' /\ ioInflight_ h' = ioInflight_ h /\
     bytes_kept 0 0 w h w' h' /\ slen out = slen buf /\
     (too_large h offset (slen buf) = true -> rv = CYPRE_C_DATA_TOO_LARGE) /\
     (rv = CYPRE_OK -> forall i c, 0 <= i < slen buf ->
        blob_byte w h (offset + i) = Some c -> byte_at out i = c).
Proof.
  intros Hok Hw Hpr Hcl Hrg.
  destruct (Stream_Read_full w h buf offset Hok Hw Hpr Hcl Hrg) as (rv & out & h' & w' & E & Hx & Hw' & Hi & Hk & Hl & Ht & Hd).
  exists rv, out, h', w'. split_and!; [done..| |done|done|].
  - intros x c _ _ Hb. rewrite (blob_byte_es w w'), (proj2 (known_ext w h h' x Hx (blob_byte_known _ _ _ _ Hb))); done.
  - intros Hrv i c Hi' Hb. apply (Hd Hrv); [done|]. by rewrite (proj2 (known_ext w h h' _ Hx (blob_byte_known _ _ _ _ Hb))).
Qed.

(** ** Claims *)

(** C23: a request of the client is cut exactly along the extent boundary: for
    extents of 4KB to 4GB [splitUserRequest] refuses a request that spans more
    than two extents and otherwise yields one or two parts that lie in
    consecutive positions of the blob, each inside its extent; the 32-bit
    fields of the messages lose nothing, and the bytes of the parts, joined,
    are the bytes of the buffer. *)
Theorem split_parts_exact h offset buf :
  stream_ok h -> req_range offset (slen buf) ->
  exists rv parts h', splitUserRequest h offset (slen buf) = Some (rv, parts, h') /\ stream_ok h' /\
    if too_large h offset (slen buf) then rv = CYPRE_C_DATA_TOO_LARGE /\ parts = []
    else rv = CYPRE_OK /\ tiles (so_blob_id h) (so_extent_size h) offset parts /\
      (length parts = 1%nat \/ length parts = 2%nat) /\
      (forall p dc hc, p ∈ parts -> io_offset (part_msg p dc hc) = p_roff p /\
         io_size (part_msg p dc hc) = p_len p /\ p_roff p + p_len p <= so_extent_size h) /\
      parts_data buf 0 parts = buf.
Proof.
  intros Hok Hrg. pose proof Hrg as (Ho & Hl & Hm).
  destruct (splitUserRequest_spec h offset (slen buf) Hok Hrg) as (rv & parts & h' & E & Hok' & _ & Hr).
  exists rv, parts, h'. split_and!; [done|done|]. destruct (too_large _ _ _); [done|].
  destruct Hr as (-> & Ht & Htot & Hn & _). split_and!; try done.
  - intros p dc hc Hp. clear -Ht Hp Hok Ho. pose proof (so_size h Hok) as Hes.
    revert offset Ho Ht. induction Hp as [p parts|p q parts _ IH]; intros offset Ho [(i & _ & Ei & Hr & Hl & Hle) Ht].
    + cbn. rewrite !wrap32_small by (unfold is_u32; lia). done.
    + eapply IH; [|exact Ht]. lia.
  - destruct (parts_data_spec _ _ buf parts 0 _ Ht) as [Hs Hb]; [lia|lia|].
    apply string_ext; [lia|]. intros i Hi. rewrite Hb by lia. done.
Qed.

(** C7: to a handle on a blob the extent servers are one array of bytes: a
    synchronous write returns, changes no known byte outside its range and
    leaves no request in flight; if it returns OK the bytes of its range are
    those of the buffer; a read returns, changes nothing, stays within the
    buffer, and if it returns OK every byte that was known is in the buffer.
    Both refuse requests that span more than two extents. *)
Theorem stream_is_byte_array w h buf offset :
  stream_ok h -> es_ok w -> esio_proto_ h = kBrpc -> isClosed_ h = false -> req_range offset (slen buf) ->
  (exists rv h' w', Stream_Write w h buf offset = Some (rv, h', w') /\
     stream_ok h' /\ es_ok w' /\ same_stream h h' /\ ioInflight_ h' = ioInflight_ h /\
     bytes_kept offset (slen buf) w h w' h' /\
     (too_large h offset (slen buf) = true -> rv = CYPRE_C_DATA_TOO_LARGE) /\
     (rv = CYPRE_OK -> forall i, 0 <= i < slen buf -> blob_byte w' h' (offset + i) = Some (byte_at buf i))) /\
  (exists rv out h' w', Stream_Read w h buf offset = Some (rv, out, h', w') /\
     stream_ok h' /\ es_ok w' /\ same_stream h h' /\ ioInflight_ h' = ioInflight_ h /\
     bytes_kept 0 0 w h w' h' /\ slen out = slen buf /\
     (too_large h offset (slen buf) = true -> rv = CYPRE_C_DATA_TOO_LARGE) /\
     (rv = CYPRE_OK -> forall i c, 0 <= i < slen buf ->
        blob_byte w h (offset + i) = Some c -> byte_at out i = c)).
Proof.
  intros Hok Hw Hpr Hcl Hrg. split.
  - destruct (Stream_Write_spec w h buf offset Hok Hw Hpr Hcl Hrg) as (rv & h' & w' & E & Hx & Hrest).
    exists rv, h', w'. destruct Hx as (Hs & Hk & _). split_and!; try apply Hrest; auto.
  - destruct (Stream_Read_spec w h buf offset Hok Hw Hpr Hcl Hrg) as (rv & out & h' & w' & E & Hx & Hrest).
    exists rv, out, h', w'. destruct Hx as (Hs & Hk & _). split_and!; try apply Hrest; auto.
Qed.

(** C14: an asynchronous request that is accepted calls the user back exactly
    once, after its last part ended, in whatever order the parts are answered
    or expire; until then it counts as in flight, and afterwards no more.  When
    the callback of a write reports OK, every byte of the buffer is stored.  A
    request that spans more than two extents is refused without a callback. *)
Theorem async_calls_back_once rd split w h buf offset rv a0 a :
  stream_ok h -> es_ok w -> esio_proto_ h = kBrpc -> isClosed_ h = false -> req_range offset (slen buf) ->
  AsyncIo_issue w h buf offset = Some (rv, a0) -> rtc (async_step rd offset split) a0 a ->
  if too_large h offset (slen buf) then
    rv = CYPRE_C_DATA_TOO_LARGE /\ a_calls a = [] /\ ioInflight_ (a_stream a) = ioInflight_ h
  else if decide (a_pending a = []) then
    exists st, a_calls a = [st] /\ ioInflight_ (a_stream a) = ioInflight_ h /\
      (st = CYPRE_OK -> rd = false -> forall i, 0 <= i < slen buf ->
         blob_byte (a_world a) (a_stream a) (offset + i) = Some (byte_at buf i))
  else a_calls a = [] /\ ioInflight_ (a_stream a) = ioInflight_ h + 1.
Proof.
  intros Hok Hw Hpr Hcl Hrg Ei Hrun. pose proof Hrg as (Ho & Hl & Hm). revert Ei.
  unfold AsyncIo_issue. rewrite Hcl.
  destruct (splitUserRequest_spec h offset (slen buf) Hok Hrg) as (rv1 & parts & h1 & -> & Hok1 & Hh1 & Hr).
  cbn [mbind option_bind]. pose proof (split_ext h h1 (ioInflight_ h1 + 1) Hh1 Hok1) as (Hx & Hok2 & Hi & _).
  destruct (too_large _ _ _).
  - destruct Hr as [-> ->]. cbn. intros [= <- <-]. split; [done|]. apply rtc_inv in Hrun as [<-|(a1 & Hst & _)].
    + cbn. auto.
    + exfalso. destruct Hst as [l pd r _ E|l pd r a2 _ E _|l pd r E]; cbn in E; by destruct l.
  - destruct Hr as (-> & Ht & Htot & Hn & Hbr). rewrite Z.eqb_refl. cbn [negb].
    set (a1 := mkAsyncIo (set_inflight h1 (ioInflight_ h1 + 1)) w (mkUReq CYPRE_OK (Z.of_nat (length parts))) [] [] buf).
    intros [= E1]. assert (I1 : async_inv rd (ioInflight_ h) offset (Z.of_nat (length parts)) 0 buf a1).
    { split; cbn; try done; try lia. rewrite (proj2 (Z.ltb_lt _ _)) by lia. split; [done|lia]. }
    apply (issue_parts_inv rd (ioInflight_ h) offset buf) in E1; [|done| |by rewrite Hpr in Hbr|lia|lia].
    2:{ rewrite Z.add_0_r. by apply (tiles_ext h). }
    rewrite Htot in E1.
    assert (I : async_inv rd (ioInflight_ h) offset 0 (0 + slen buf) buf a)
      by (eapply async_run_inv; [|exact Hrun|exact E1]; lia).
    destruct I as [_ _ _ Hr Hmm Hc _ _ _ Hst]. destruct (decide (a_pending a = [])) as [Ep|Ep].
    + rewrite Ep in Hr, Hst. cbn [length] in Hr. rewrite (proj2 (Z.ltb_ge _ _)) in Hc by lia.
      destruct Hc as [Hc Hi']. exists (u_status (a_ureq a)). split_and!; [done|done|].
      intros Es Erd i Hi2. destruct (Hst Erd Es i ltac:(lia)) as [?|(pd & Hin & _)]; [done|set_solver].
    + destruct (a_pending a); [done|]. cbn [length] in Hr. rewrite (proj2 (Z.ltb_lt _ _)) in Hc by lia. done.
Qed.
End Bytes.

(** ** Sender threads *)

Lemma pow2_of_land n : 1 <= n <= 64 -> Z.land n (n - 1) = 0 -> exists k, 0 <= k <= 6 /\ n = 2 ^ k.
Proof.
  intros Hn Hl. assert (Hc : n = 2 ^ Z.log2 n).
  { assert (Hall : forallb (fun m => negb (Z.land m (m - 1) =? 0) || (m =? 2 ^ Z.log2 m))
      (Z.of_nat <$> seq 1 64) = true) by (vm_compute; reflexivity).
    rewrite forallb_forall in Hall. specialize (Hall n).
    rewrite Hl, Z.eqb_refl in Hall. cbn [negb orb] in Hall. apply Z.eqb_eq, Hall.
    apply list_elem_of_In, list_elem_of_fmap. exists (Z.to_nat n). split; [lia|].
    apply elem_of_seq. lia. }
  exists (Z.log2 n). split; [|done]. split; [apply Z.log2_nonneg|].
  change 6 with (Z.log2 64). apply Z.log2_le_mono. lia.
Qed.

(** with arguments that [StartSenderWorker] accepts and at least one
    thread, every part goes to a queue that exists, all parts of an extent to
    the same one, and each queue can be set up with a capacity of one less
    than its size. *)
Theorem sender_queues_in_bounds thread_size power y :
  sender_args thread_size power = CYPRE_OK -> 1 <= thread_size ->
  0 <= sender_index thread_size y < thread_size /\
  (forall y', y_extent_idx y' = y_extent_idx y -> sender_index thread_size y' = sender_index thread_size y) /\
  exists r, Ring_Init (Ring_new RING_MP_SC (Z.shiftl 1 power)) = (Status_default, r) /\
    Ring_Capacity r = Z.shiftl 1 power - 1.
Proof.
  unfold sender_args. intros E Ht. repeat (bcase; [discriminate|]). b2p.
  destruct (pow2_of_land thread_size) as (k & Hk & ->); [lia|done|].
  assert (Hpow : 1 <= 2 ^ k <= 64).
  { split; [lia|]. change 64 with (2 ^ 6). apply Z.pow_le_mono_r; lia. }
  split; [|split].
  - unfold sender_index. rewrite wrap64_small by (unfold is_u64, u64_max; lia).
    rewrite Z.sub_1_r, <- Z.ones_equiv, Z.land_ones by lia.
    pose proof (Z.mod_pos_bound (HashKey y) (2 ^ k) ltac:(lia)) as Hb.
    unfold to_int32. rewrite wrap32_small by (unfold is_u32; lia).
    by rewrite (proj2 (Z.ltb_lt _ _)) by lia.
  - unfold sender_index, HashKey. by intros y' ->.
  - rewrite Z.shiftl_1_l. destruct (Init_holds RING_MP_SC power) as (r & Er & Hh); [lia|].
    exists r. split; [done|]. apply Hh.
Qed.

Lemma sender_queues_in_bounds_witness :
  0 <= sender_index 4 (YStreamHandle_new "bb-a.7" 7) < 4.
Proof. apply (sender_queues_in_bounds 4 10); [vm_compute; reflexivity|lia]. Defined.

(** No thread at all is accepted as well; the queue is then selected outside
    the empty array. *)
Lemma zero_senders_accepted :
  sender_args 0 10 = CYPRE_OK /\ sender_index 0 (YStreamHandle_new "bb-a.7" 7) = 7.
Proof. vm_compute. auto. Qed.

(** ** Checksums of synchronous reads *)

(** A server that answers every read with the given data and checksum. *)
Section BadServer.
Context (data : string) (crc : Z).

#[local] Instance bad_rpc : EsRpc unit := {
  rpc_query_router _ _ := RpcReply 0 (Some (mkPbRouter (mkESInstance 1 "10.0.0.1" 80 "10.1.0.1" 81) []));
  rpc_channel_ok _ _ := true;
  rpc_write w _ _ _ := (IoReplied 0 "" None, w);
  rpc_read w _ _ := (IoReplied 0 data (Some crc), w)
}.

#[local] Instance len_crc : Crc32c := slen.

Definition bad_stream : RBDStream := RBDStream_new "bb-a" 1048576 4194304 (mkExtentRouterMgr ∅ ∅ false).

(** The code a synchronous read returns, and the callbacks of an asynchronous
    one, for the same answer. *)
Definition sync_code (buf : string) : option Z :=
  (fun x => x.1.1.1) <$> Stream_Read tt bad_stream buf 0.
Definition async_codes (buf : string) : option (list Z) :=
  '(_, a) ← AsyncIo_issue tt bad_stream buf 0;
  pd ← head (a_pending a);
  a' ← answer_read (drop_pending a []) (header_crc32 (slen buf) 0) pd;
  Some (a_calls a').
End BadServer.

(** A read whose data does not match the server's checksum: the asynchronous
    callback reports it, the synchronous call returns OK. *)
Lemma sync_read_ignores_checksum :
  async_codes "abcd" 5 "0000" = Some [CYPRE_C_CRC_ERROR] /\ sync_code "abcd" 5 "0000" = Some CYPRE_OK.
Proof. vm_compute. auto. Qed.
