(* ===== verification/ClientServer.v ===== *)
(** * Blob streams on extent servers

    The extent servers of StorageEngine.v and IoService.v behind the interface
    [EsLaws] of the client library: a cluster is a map from addresses to
    servers, each an engine with its device.  A read or write call runs the
    server's own handler, location table and device worker.  The theorems of
    the client then hold of the whole path from the client's buffer to the
    bytes of a device. *)

From Stdlib Require Import Ascii.
From S2P Require Import Prelude Status Bitmap Allocator Codec KvStore ExtentLocation Net StorageEngine IoService.
From S2P Require Import Client ClientTheorems.

#[local] Open Scope string_scope.
#[local] Open Scope Z_scope.

Section Cluster.
Context `{SpaceManagerLaws A} `{RocksDBLaws DB} `{Crc32c} `{BDevLaws D}.

(** A server: its configuration, engine and device. *)
Record EsNode : Type := mkEsNode {
  n_cfg : EngineCfg;
  n_state : EngineState A DB;
  n_disk : D
}.

(** What is decided outside the model during one call: the random start of an
    allocation, the room in the worker's ring, the object from the request
    pool, the I/O buffer, the channels to the secondaries and whether all of
    them stored the data. *)
Record Chance : Type := mkChance {
  ch_rand : Z;
  ch_enqueue : bool;
  ch_request : option Request;
  ch_buf : string;
  ch_channel : string -> bool;
  ch_replicas : bool
}.

(** The routers are the extent manager's; one [Chance] is used per call. *)
Record Cluster : Type := mkCluster {
  c_routers : string -> QueryRouterReply;
  c_nodes : gmap string EsNode;
  c_chances : list Chance
}.

Definition no_chance : Chance := mkChance 0 false None "" (fun _ => false) false.

Definition next_chance (w : Cluster) : Chance * Cluster :=
  match c_chances w with
  | [] => (no_chance, w)
  | c :: cs => (c, mkCluster (c_routers w) (c_nodes w) cs)
  end.

Definition to_world (w : Cluster) (id : string) (c : Chance) : World :=
  mkWorld (ch_rand c) (c_routers w id) (ch_channel c) (ch_enqueue c).

(** The worker takes the request from the ring. *)
Definition take_task (b : BareEngine A DB) : option (Request * BareEngine A DB) :=
  match task_queue_ b with
  | [] => None
  | r :: q => Some (r, mkBareEngine (extent_loc_mgr_ b) q)
  end.

Definition set_bare (st : EngineState A DB) (b : BareEngine A DB) : EngineState A DB :=
  mkEngineState (st_routers st) (st_pool st) b.

Definition err_reply : IoReply := IoReplied CYPRE_ES_PROCESS_REQ_ERROR "" None.

(** The write handler: the reply is OK when the request passes, the worker's
    command succeeds and every secondary stored the data. *)
Definition serve_write (n : EsNode) (w : World) (c : Chance) (m : IoMsg) (data : string)
    : option (IoReply * EsNode) :=
  match ch_request c with
  | None => Some (IoReplied CYPRE_ES_GET_REQ_UNIT_FAIL "" None, n)
  | Some r =>
      let req := SetOperationContext (Request_Reset r kTypeWrite)
                   (mkReqMsg (io_extent_id m) (io_offset m) (io_size m) (Some (io_crc32 m))) data in
      '(s, _, st, _) ← ProcessRequest (n_cfg n) w (n_state n) req;
      if negb (ok s) then Some (err_reply, mkEsNode (n_cfg n) st (n_disk n))
      else
        '(task, b) ← take_task (st_bare st);
        '(d, done) ← worker_dispatch (n_disk n) (ch_buf c) task;
        Some (if result_ done && ch_replicas c then IoReplied CYPRE_OK "" None else err_reply,
              mkEsNode (n_cfg n) (set_bare st b) d)
  end.

(** The read handler: an extent without location answers with zeroes. *)
Definition serve_read (n : EsNode) (w : World) (c : Chance) (m : IoMsg) : option (IoReply * EsNode) :=
  match ch_request c with
  | None => Some (IoReplied CYPRE_ES_GET_REQ_UNIT_FAIL "" None, n)
  | Some r =>
      let req := SetOperationContext (Request_Reset r kTypeRead)
                   (mkReqMsg (io_extent_id m) (io_offset m) (io_size m) None) "" in
      '(s, req, st, _) ← ProcessRequest (n_cfg n) w (n_state n) req;
      if ok s then
        '(task, b) ← take_task (st_bare st);
        '(d, done) ← worker_dispatch (n_disk n) (ch_buf c) task;
        Some (IoReplied (reply_code (d_reply (ReadDone done)))
                (default "" (d_attachment (ReadDone done))) None,
              mkEsNode (n_cfg n) (set_bare st b) d)
      else
        let req := SetResult req (IsEmpty s) in
        Some (IoReplied (reply_code (d_reply (ReadDone req))) (response_attachment req) None,
              mkEsNode (n_cfg n) st (n_disk n))
  end.

(** A call to an address; a server that is not there, or that dies on the
    request, does not answer. *)
Definition call (w : Cluster) (tgt id : string)
    (serve : EsNode -> World -> Chance -> option (IoReply * EsNode)) : IoReply * Cluster :=
  let '(c, w) := next_chance w in
  match c_nodes w !! tgt with
  | None => (IoFailed, w)
  | Some n =>
      match serve n (to_world w id c) c with
      | None => (IoFailed, w)
      | Some (r, n') => (r, mkCluster (c_routers w) (<[tgt := n']> (c_nodes w)) (c_chances w))
      end
  end.

#[global] Instance Cluster_rpc : EsRpc Cluster := {
  rpc_query_router w id := c_routers w id;
  rpc_channel_ok w tgt := bool_decide (is_Some (c_nodes w !! tgt));
  rpc_write w tgt m data := call w tgt (io_extent_id m) (fun n wd c => serve_write n wd c m data);
  rpc_read w tgt m := call w tgt (io_extent_id m) (fun n wd c => serve_read n wd c m)
}.

(** ** Servers keep their invariant *)

Record node_ok (n : EsNode) : Prop := {
  no_mgr : wf_mgr (extent_loc_mgr_ (st_bare (n_state n)));
  no_queue : task_queue_ (st_bare (n_state n)) = [];
  no_size : se_extent_size_ (n_cfg n) <= extent_size_ (extent_loc_mgr_ (st_bare (n_state n)))
}.

Definition cluster_ok (w : Cluster) : Prop :=
  map_Forall (fun _ => node_ok) (c_nodes w) /\ Forall (fun c => 0 <= ch_rand c) (c_chances w).

(** The byte of an extent on a server that has a location for it. *)
Definition node_byte (n : EsNode) (id : string) (x : Z) : option ascii :=
  l ← extent_loc_map_ (extent_loc_mgr_ (st_bare (n_state n))) !! id;
  if in_range 0 (loc_size l) x then Some (bdev_byte (n_disk n) (loc_offset l + x)) else None.

Definition cluster_byte (w : Cluster) (tgt id : string) (x : Z) : option ascii :=
  n ← c_nodes w !! tgt; node_byte n id x.

Lemma Send_loop_failed init_ok pool req es f req' pool' acts :
  Send_loop init_ok pool req true es = (f, req', pool', acts) -> f = true.
Proof.
  revert req pool f req' pool' acts.
  induction es as [|x es IH]; intros req pool f req' pool' acts; simpl; [by intros [= <- _ _ _]|].
  destruct (Send_loop _ _ _ _ es) as [[[f1 r1] p1] a1] eqn:E. intros [= <- _ _ _]. eauto.
Qed.

(** Replication that does not fail leaves the request alone. *)
Lemma Send_loop_ok init_ok pool req es req' pool' acts :
  Send_loop init_ok pool req false es = (false, req', pool', acts) -> req' = req.
Proof.
  revert pool req' pool' acts. induction es as [|x es IH]; intros pool req' pool' acts; simpl;
    [by intros [= <- _ _]|].
  destruct (GetConnection _ _ _ _) as [[c|] p1].
  - destruct (Send_loop _ _ _ _ es) as [[[f1 r1] p2] a1] eqn:E. intros [= -> <- _ _]. eauto.
  - destruct (Send_loop _ _ _ _ es) as [[[f1 r1] p2] a1] eqn:E. intros [= -> _ _ _].
    by apply Send_loop_failed in E.
Qed.

Definition same_req (req req' : Request) : Prop :=
  request_type_ req' = request_type_ req /\ op_request req' = op_request req /\
  request_attachment req' = request_attachment req /\ result_ req' = result_ req.

Lemma same_req_fields req req' :
  same_req req req' -> ExtentID req' = ExtentID req /\ Offset req' = Offset req /\ Size req' = Size req.
Proof. intros (Et & Em & _). unfold ExtentID, Offset, Size. by rewrite Et, Em. Qed.

Lemma checkOwnership_not_empty e req s : checkOwnership e req = Some s -> IsEmpty s = false.
Proof.
  unfold checkOwnership, checkOwnership_write.
  destruct (request_type_ req); try (by intros [= <-]);
    (destruct (extent_router_ req); [|done]); cbn [mbind option_bind]; intros [= <-];
    repeat bcase; done.
Qed.

Lemma doSafetyCheck_cases e rm req remote s req' rm' :
  doSafetyCheck e rm req remote = Some (s, req', rm') ->
  IsEmpty s = false /\ same_req req req' /\ (ok s = true -> ok (checkParameters e req') = true).
Proof.
  intros E. split_and!.
  - unfold doSafetyCheck in E. destruct (queryRouter rm req remote) as [[s0 r0] rm0] eqn:Eq.
    assert (IsEmpty s0 = false).
    { clear E. unfold queryRouter in Eq. bcase; [by simplify_eq|].
      by destruct (QueryRouter _ _ _) as [[?|] ?]; simplify_eq. }
    assert (IsEmpty (checkParameters e r0) = false) by (clear; unfold checkParameters; repeat bcase; done).
    destruct (ok s0); cbn [negb] in E; [|by injection E as <- _ _].
    destruct (ok (checkParameters e r0)); cbn [negb] in E; [|by injection E as <- _ _].
    destruct (checkOwnership e r0) as [s2|] eqn:Eo; [|done]. cbn [mbind option_bind] in E.
    destruct (ok s2); cbn [negb] in E; injection E as <- _ _; [|by eapply checkOwnership_not_empty].
    unfold checkChecksum. repeat case_match; done.
  - assert (Hr : req' = req \/ exists r, req' = SetExtentRouter req r); [|by destruct Hr as [->|[r ->]]].
    unfold doSafetyCheck in E. destruct (queryRouter rm req remote) as [[s0 r0] rm0] eqn:Eq.
    assert (Hr : r0 = req \/ exists r, r0 = SetExtentRouter req r).
    { clear E. unfold queryRouter in Eq. bcase; [by simplify_eq; left|].
      destruct (QueryRouter _ _ _) as [[r|] ?]; simplify_eq; eauto. }
    destruct (ok s0); cbn [negb] in E; [|by injection E as _ <- _].
    destruct (ok (checkParameters e r0)); cbn [negb] in E; [|by injection E as _ <- _].
    destruct (checkOwnership e r0) as [s2|]; [|done]. cbn [mbind option_bind] in E.
    by destruct (ok s2); cbn [negb] in E; injection E as _ <- _.
  - intros Hok. by apply doSafetyCheck_ok in E as [? _].
Qed.

Lemma doReplicate_cases e init_ok pool req s req' pool' acts :
  doReplicate e init_ok pool req = Some (s, req', pool', acts) ->
  IsEmpty s = false /\ (ok s = true -> same_req req req').
Proof.
  unfold doReplicate, Send. bcase; [by intros [= <- <- _ _]|]. bcase; [by intros [= <- <- _ _]|].
  destruct (extent_router_ req) as [r|]; [|done]. cbn [mbind option_bind].
  destruct (Send_loop _ _ _ _ _) as [[[f r1] p1] a1] eqn:E. intros [= <- <- _ _]. split; [by destruct f|].
  destruct f; [done|]. intros _. apply Send_loop_ok in E as ->. done.
Qed.

(** A request either fails before it reaches the bare engine, which then is
    as before, or the bare engine runs it after the checks. *)
Lemma ProcessRequest_cases e w st req s req' st' acts :
  ProcessRequest e w st req = Some (s, req', st', acts) ->
  (ok s = false /\ IsEmpty s = false /\ st_bare st' = st_bare st) \/
  exists req1 rm1 rm2, same_req req req1 /\ ok (checkParameters e req1) = true /\
    BareEngine_ProcessRequest (w_rand w) (w_enqueue w) rm1 (st_bare st) req1 =
      Some (s, req', st_bare st', rm2).
Proof.
  unfold ProcessRequest.
  destruct (doSafetyCheck _ _ _ _) as [[[s0 r0] rm0]|] eqn:E0; [|done]. cbn [mbind option_bind].
  apply doSafetyCheck_cases in E0 as (He0 & Hs0 & Hp0).
  destruct (ok s0) eqn:Ok0; cbn [negb]; [|intros [= <- <- <- <-]; left; done].
  destruct (doReplicate _ _ _ _) as [[[[s1 r1] p1] a1]|] eqn:E1; [|done]. cbn [mbind option_bind].
  apply doReplicate_cases in E1 as (He1 & Hs1).
  destruct (ok s1) eqn:Ok1; cbn [negb]; [|intros [= <- <- <- <-]; left; done].
  destruct (BareEngine_ProcessRequest _ _ _ _ _) as [[[[s2 r2] b2] rm2]|] eqn:E2; [|done].
  intros [= <- <- <- <-]. right. exists r1, rm0, rm2. split_and!; [| |done].
  - destruct Hs0 as (? & ? & ? & ?), (Hs1 eq_refl) as (? & ? & ? & ?). split_and!; congruence.
  - specialize (Hp0 eq_refl). revert Hp0. unfold checkParameters.
    destruct (same_req_fields _ _ (Hs1 eq_refl)) as (-> & -> & ->). done.
Qed.

(** A lookup keeps the table well formed and every location it has. *)
Lemma queryLocation_cases rand (b : BareEngine A DB) req alloc s rq b' :
  wf_mgr (extent_loc_mgr_ b) -> id_ok (ExtentID req) -> 0 <= rand -> in_extent (extent_loc_mgr_ b) req ->
  queryLocation rand b req alloc = Some (s, rq, b') ->
  wf_mgr (extent_loc_mgr_ b') /\ task_queue_ b' = task_queue_ b /\
  extent_size_ (extent_loc_mgr_ b') = extent_size_ (extent_loc_mgr_ b) /\
  (forall id l, extent_loc_map_ (extent_loc_mgr_ b) !! id = Some l ->
     extent_loc_map_ (extent_loc_mgr_ b') !! id = Some l) /\
  (if ok s then exists l, extent_loc_map_ (extent_loc_mgr_ b') !! ExtentID req = Some l /\
     rq = SetPhysicalOffset req (loc_offset l + Offset req) /\ Offset req + Size req <= loc_size l
   else extent_loc_map_ (extent_loc_mgr_ b) !! ExtentID req = None /\
     rq = SetPhysicalOffset req (physical_offset_ req)).
Proof.
  intros W Hid Hr Hin E.
  pose proof (fun Hok => queryLocation_own rand b req alloc s rq b' W Hid Hr Hin E Hok) as Hown.
  revert E. unfold queryLocation.
  destruct (QueryLocation_spec rand (extent_loc_mgr_ b) (ExtentID req) (Offset req)
    (physical_offset_ req) alloc W Hid Hr) as (st & phys & m' & -> & W' & _ & Hes & Hc).
  cbn [mbind option_bind]. intros [= <- <- <-]. cbn [extent_loc_mgr_ task_queue_].
  split_and!; [done|done|done| |].
  - intros id l Hl. destruct Hc as [(_ & l' & Hl' & _ & [[_ ->]|(Hn & _ & Em)])|(_ & _ & _ & _ & Em & _)].
    + done.
    + rewrite Em, lookup_insert_ne; [done|]. congruence.
    + by rewrite Em.
  - destruct (ok st) eqn:Hok.
    + destruct (Hown eq_refl) as (_ & _ & _ & l & Hl & Erq & Hle). cbn in Hl. eauto.
    + destruct Hc as [(? & _)|(_ & Hn & -> & _)]; [congruence|done].
Qed.

Lemma handleWrite_cases rand enq (b : BareEngine A DB) req s rq b' :
  wf_mgr (extent_loc_mgr_ b) -> id_ok (ExtentID req) -> 0 <= rand -> in_extent (extent_loc_mgr_ b) req ->
  handleWrite rand enq b req = Some (s, rq, b') ->
  wf_mgr (extent_loc_mgr_ b') /\
  extent_size_ (extent_loc_mgr_ b') = extent_size_ (extent_loc_mgr_ b) /\
  (forall id l, extent_loc_map_ (extent_loc_mgr_ b) !! id = Some l ->
     extent_loc_map_ (extent_loc_mgr_ b') !! id = Some l) /\
  (if ok s then exists l, extent_loc_map_ (extent_loc_mgr_ b') !! ExtentID req = Some l /\
     task_queue_ b' = (task_queue_ b ++ [SetPhysicalOffset req (loc_offset l + Offset req)])%list /\
     Offset req + Size req <= loc_size l
   else task_queue_ b' = task_queue_ b).
Proof.
  intros W Hid Hr Hin. unfold handleWrite.
  destruct (queryLocation rand b req true) as [[[s1 rq1] b1]|] eqn:E; [|done]. cbn [mbind option_bind].
  apply queryLocation_cases in E as (W1 & Hq & Hes & Hm & Hc); try done.
  destruct (ok s1) eqn:Ok1; cbn [negb].
  - destruct Hc as (l & Hl & -> & Hle). unfold submit, SpdkMgr_ProcessRequest.
    destruct enq; cbn [negb]; intros [= <- <- <-]; cbn; [|done]. rewrite Hq. eauto 10.
  - intros [= <- <- <-]. by rewrite Ok1.
Qed.

Lemma handleRead_cases rand enq (b : BareEngine A DB) req s rq b' :
  wf_mgr (extent_loc_mgr_ b) -> id_ok (ExtentID req) -> 0 <= rand -> in_extent (extent_loc_mgr_ b) req ->
  handleRead rand enq b req = Some (s, rq, b') ->
  wf_mgr (extent_loc_mgr_ b') /\
  extent_size_ (extent_loc_mgr_ b') = extent_size_ (extent_loc_mgr_ b) /\
  extent_loc_map_ (extent_loc_mgr_ b') = extent_loc_map_ (extent_loc_mgr_ b) /\
  (if ok s then exists l, extent_loc_map_ (extent_loc_mgr_ b) !! ExtentID req = Some l /\
     task_queue_ b' = (task_queue_ b ++ [SetPhysicalOffset req (loc_offset l + Offset req)])%list /\
     Offset req + Size req <= loc_size l
   else task_queue_ b' = task_queue_ b /\
     (IsEmpty s = true -> extent_loc_map_ (extent_loc_mgr_ b) !! ExtentID req = None /\
        result_ rq = result_ req /\ io_unit_ rq = io_unit_ req /\
        response_attachment rq = repeat_char zero (Z.to_nat (Size req)))).
Proof.
  intros W Hid Hr Hin. unfold handleRead.
  destruct (queryLocation rand b req false) as [[[s1 rq1] b1]|] eqn:E; [|done]. cbn [mbind option_bind].
  assert (Hsame : extent_loc_map_ (extent_loc_mgr_ b1) = extent_loc_map_ (extent_loc_mgr_ b)).
  { revert E. unfold queryLocation, QueryLocation.
    destruct (extent_loc_map_ (extent_loc_mgr_ b) !! ExtentID req); cbn; by intros [= _ _ <-]. }
  apply queryLocation_cases in E as (W1 & Hq & Hes & Hm & Hc); try done.
  destruct (ok s1) eqn:Ok1; cbn [negb].
  - destruct Hc as (l & Hl & -> & Hle). rewrite Hsame in Hl. unfold submit, SpdkMgr_ProcessRequest.
    destruct enq; cbn [negb]; intros [= <- <- <-]; cbn; rewrite ?Hq; split_and!; try done; eauto 10.
  - destruct Hc as [Hn ->]. intros [= <- <- <-]. cbn. split_and!; try done.
Qed.

(** A checked message lies in the server's extents. *)
Lemma checked_in_extent64 n req :
  node_ok n -> 0 <= Offset req -> 0 <= Size req -> Offset req + Size req <= u64_max ->
  ok (checkParameters (n_cfg n) req) = true -> in_extent (extent_loc_mgr_ (st_bare (n_state n))) req.
Proof.
  intros N Ho Hs Hb Hp. apply checkParameters_ok in Hp as (_ & _ & _ & Hle).
  rewrite wrap64_small in Hle by (unfold is_u64; lia). pose proof (no_size n N). split_and!; lia.
Qed.

Lemma checked_in_extent n req :
  node_ok n -> is_u32 (Offset req) -> is_u32 (Size req) -> ok (checkParameters (n_cfg n) req) = true ->
  in_extent (extent_loc_mgr_ (st_bare (n_state n))) req.
Proof. unfold is_u32. intros N Ho Hs. apply checked_in_extent64; [done|unfold u64_max; lia..]. Qed.

(** More locations and the same device keep every byte. *)
Lemma node_byte_grow n n' id x c :
  n_disk n' = n_disk n ->
  (forall id l, extent_loc_map_ (extent_loc_mgr_ (st_bare (n_state n))) !! id = Some l ->
     extent_loc_map_ (extent_loc_mgr_ (st_bare (n_state n'))) !! id = Some l) ->
  node_byte n id x = Some c -> node_byte n' id x = Some c.
Proof.
  intros Ed Hm. unfold node_byte. rewrite Ed. destruct (extent_loc_map_ _ !! id) as [l|] eqn:E; [|done].
  by rewrite (Hm _ _ E).
Qed.

(** The bytes of a server after a write command to its own extent. *)
Lemma doWrite_bytes (b : BareEngine A DB) d buf req l d' rq' :
  wf_mgr (extent_loc_mgr_ b) -> extent_loc_map_ (extent_loc_mgr_ b) !! ExtentID req = Some l ->
  0 <= Offset req -> 0 <= Size req -> Offset req + Size req <= loc_size l ->
  doWrite d buf (SetPhysicalOffset req (loc_offset l + Offset req)) = (d', rq') ->
  (forall id l2 x, extent_loc_map_ (extent_loc_mgr_ b) !! id = Some l2 -> in_range 0 (loc_size l2) x = true ->
     ~ (id = ExtentID req /\ Offset req <= x < Offset req + Size req) ->
     bdev_byte d' (loc_offset l2 + x) = bdev_byte d (loc_offset l2 + x)) /\
  (result_ rq' = true -> slen (request_attachment req) = Size req -> forall i, 0 <= i < Size req ->
     bdev_byte d' (loc_offset l + (Offset req + i)) = byte_at (request_attachment req) i).
Proof.
  intros W Hl Ho Hs Hle E.
  destruct (doWrite_own d buf (SetPhysicalOffset req (loc_offset l + Offset req)) l (Offset req) d' rq'
    eq_refl Ho Hle E) as [Hout Hin].
  split; [|intros Hr Hlen i Hi; rewrite Z.add_assoc; by apply Hin].
  intros id l2 x Hl2 Hx Hne. apply in_range_spec in Hx. destruct (decide (id = ExtentID req)) as [->|Hid].
  - assert (l2 = l) as -> by congruence. revert E. unfold doWrite.
    destruct (bdev_write _ _ _ _) as [d1|] eqn:Ew; intros [= <- <-]; [|done].
    rewrite (bdev_write_law _ _ _ _ _ Ew). cbn [physical_offset_ SetPhysicalOffset].
    replace (in_range _ _ _) with false; [done|]. symmetry. apply in_range_false.
    change (Size (SetPhysicalOffset req _)) with (Size req). intros Hx2. apply Hne. split; [done|lia].
  - apply Hout. apply (wm_disjoint _ W id (ExtentID req) l2 l); try done. apply in_range_spec. lia.
Qed.

Lemma serve_write_spec n w c m data r n' :
  node_ok n -> msg_ok m -> 0 <= w_rand w -> serve_write n w c m data = Some (r, n') ->
  node_ok n' /\
  (forall id x a, ~ (id = io_extent_id m /\ io_offset m <= x < io_offset m + io_size m) ->
     node_byte n id x = Some a -> node_byte n' id x = Some a) /\
  (slen data = io_size m -> write_status r = CYPRE_OK -> forall i, 0 <= i < io_size m ->
     node_byte n' (io_extent_id m) (io_offset m + i) = Some (byte_at data i)).
Proof.
  intros N (Ho & Hs & Hid) Hr. unfold serve_write.
  destruct (ch_request c) as [rq|]; [|intros [= <- <-]; by split_and!].
  set (req := SetOperationContext _ _ data).
  destruct (ProcessRequest _ _ _ req) as [[[[s rq'] st] acts]|] eqn:E; [|done]. cbn [mbind option_bind].
  apply ProcessRequest_cases in E as [(Hok & _ & Eb)|(req1 & rm1 & rm2 & Hsame & Hp & E)].
  { rewrite Hok. cbn [negb]. intros [= <- <-]. split_and!; [|by intros id x a _; apply node_byte_grow; cbn; [|rewrite Eb]|done].
    destruct N. split; cbn; by rewrite Eb. }
  destruct (same_req_fields _ _ Hsame) as (Fid & Foff & Fsz). pose proof Hsame as (Ft & _ & Fatt & Fres).
  cbn in Fid, Foff, Fsz, Ft, Fatt. unfold BareEngine_ProcessRequest in E. rewrite Ft in E.
  destruct (handleWrite _ _ _ req1) as [[[s1 rq1] b1]|] eqn:E1; [|done]. cbn in E.
  injection E as -> -> -> ->. apply handleWrite_cases in E1 as (W1 & Hes & Hm & Hc);
    [|apply N|by rewrite Fid|done|by apply checked_in_extent; rewrite ?Foff, ?Fsz].
  destruct (ok s) eqn:Hok; cbn [negb].
  2:{ intros [= <- <-]. split_and!; [|by intros id x a _; apply node_byte_grow|done].
      destruct N. split; cbn; [done|congruence|congruence]. }
  destruct Hc as (l & Hl & Hq & Hle). rewrite (no_queue n N) in Hq. unfold take_task. rewrite Hq. cbn [app].
  cbn [mbind option_bind]. unfold worker_dispatch.
  change (request_type_ (SetPhysicalOffset req1 _)) with (request_type_ req1). rewrite Ft.
  destruct (doWrite _ _ _) as [d' done'] eqn:Ew. intros [= <- <-].
  apply (doWrite_bytes (st_bare st)) in Ew as [Hkeep Hst]; try done;
    [|unfold is_u32 in *; lia..].
  rewrite Fid, Foff, Fsz, Fatt in *.
  split_and!.
  - destruct N. split; cbn; [done|done|congruence].
  - intros id x a Hne. unfold node_byte. cbn.
    destruct (extent_loc_map_ (extent_loc_mgr_ (st_bare (n_state n))) !! id) as [l2|] eqn:E2; [|done].
    rewrite (Hm _ _ E2). cbn. destruct (in_range 0 (loc_size l2) x) eqn:Ex; [|done]. intros [= <-].
    f_equal. by apply (Hkeep id l2 x); [apply Hm|..].
  - intros Hlen Hrs i Hi. unfold node_byte. cbn. rewrite Hl. cbn.
    replace (in_range 0 (loc_size l) (io_offset m + i)) with true
      by (symmetry; apply in_range_spec; unfold is_u32 in *; lia).
    f_equal. apply Hst; try done. by destruct (result_ done').
Qed.

Lemma slen_repeat_char a k : slen (repeat_char a k) = Z.of_nat k.
Proof. unfold slen. induction k; cbn; lia. Qed.

Lemma serve_read_spec n w c m r n' :
  node_ok n -> msg_ok m -> 0 <= w_rand w -> serve_read n w c m = Some (r, n') ->
  node_ok n' /\ (forall id x, node_byte n' id x = node_byte n id x) /\
  (read_status r = CYPRE_OK -> slen (read_data r).1 = io_size m /\
     forall i a, 0 <= i < io_size m -> node_byte n (io_extent_id m) (io_offset m + i) = Some a ->
       byte_at (read_data r).1 i = a).
Proof.
  intros N (Ho & Hs & Hid) Hr. unfold serve_read.
  destruct (ch_request c) as [rq|]; [|intros [= <- <-]; by split_and!].
  set (req := SetOperationContext _ _ "").
  destruct (ProcessRequest _ _ _ req) as [[[[s rq'] st] acts]|] eqn:E; [|done]. cbn [mbind option_bind].
  apply ProcessRequest_cases in E as [(Hok & He & Eb)|(req1 & rm1 & rm2 & Hsame & Hp & E)].
  { rewrite Hok, He. intros [= <- <-]. split_and!.
    - destruct N. split; cbn; by rewrite Eb.
    - intros id x. unfold node_byte. cbn. by rewrite Eb.
    - unfold ReadDone. cbn [result_ SetResult]. by rewrite andb_false_r. }
  destruct (same_req_fields _ _ Hsame) as (Fid & Foff & Fsz). pose proof Hsame as (Ft & _ & Fatt & Fres).
  cbn in Fid, Foff, Fsz, Ft, Fatt, Fres. unfold BareEngine_ProcessRequest in E. rewrite Ft in E.
  destruct (handleRead _ _ _ req1) as [[[s1 rq1] b1]|] eqn:E1; [|done]. cbn in E.
  injection E as -> -> -> ->. apply handleRead_cases in E1 as (W1 & Hes & Hm & Hc);
    [|apply N|by rewrite Fid|done|by apply checked_in_extent; rewrite ?Foff, ?Fsz].
  rewrite Fid, Foff, Fsz in Hc.
  destruct (ok s) eqn:Hok.
  - destruct Hc as (l & Hl & Hq & Hle). rewrite (no_queue n N) in Hq. unfold take_task. rewrite Hq. cbn [app].
    cbn [mbind option_bind]. unfold worker_dispatch.
    change (request_type_ (SetPhysicalOffset req1 _)) with (request_type_ req1). rewrite Ft.
    cbn [mbind option_bind]. intros [= <- <-]. split_and!.
    + destruct N. split; cbn; [done|done|congruence].
    + intros id x. unfold node_byte. cbn. by rewrite Hm.
    + unfold doRead. change (Size (SetPhysicalOffset req1 _)) with (Size req1). rewrite Fsz.
      cbn [physical_offset_ SetPhysicalOffset].
      destruct (bdev_read _ _ _) as [dat|] eqn:Er.
      2:{ unfold ReadDone. cbn [result_ SetResult]. by rewrite andb_false_r. }
      apply bdev_read_law in Er as [Hlen Hb]; [|unfold is_u32 in *; lia].
      unfold ReadDone. cbn [result_ SetResult SetPhysicalOffset io_unit_ response_attachment].
      rewrite Fres. cbn. intros _. split; [done|]. intros i a Hi. unfold node_byte. rewrite Hl. cbn.
      destruct (in_range _ _ _); [|done]. intros [= <-]. rewrite Hb by done. f_equal. lia.
  - destruct Hc as [Hq He]. intros [= <- <-]. split_and!.
    + destruct N. split; cbn; [done|congruence|congruence].
    + intros id x. unfold node_byte. cbn. by rewrite Hm.
    + destruct (IsEmpty s) eqn:Ee.
      2:{ unfold ReadDone. cbn [result_ SetResult]. by rewrite andb_false_r. }
      destruct (He eq_refl) as (Hn & Hres & Hio & Hatt).
      unfold ReadDone. cbn [result_ SetResult io_unit_ response_attachment]. rewrite Hres, Hio, Fres, Hatt.
      cbn [andb negb req result_ SetOperationContext Request_Reset].
      intros _. split; [|intros i a Hi; unfold node_byte; by rewrite Hn].
      destruct (io_unit_ req1); cbn; rewrite slen_repeat_char; unfold is_u32 in *; lia.
Qed.

Lemma call_spec w tgt id serve r w' :
  cluster_ok w -> call w tgt id serve = (r, w') ->
  (r = IoFailed /\ cluster_ok w' /\ c_nodes w' = c_nodes w) \/
  exists n n' wd c, c_nodes w !! tgt = Some n /\ node_ok n /\ 0 <= w_rand wd /\
    serve n wd c = Some (r, n') /\ c_nodes w' = <[tgt := n']> (c_nodes w) /\
    (node_ok n' -> cluster_ok w').
Proof.
  intros [Hn Hch]. unfold call.
  destruct (next_chance w) as [c w1] eqn:E.
  assert (Hw1 : c_nodes w1 = c_nodes w /\ 0 <= ch_rand c /\ cluster_ok w1).
  { revert E. unfold next_chance. destruct (c_chances w) as [|c0 cs] eqn:Ec; intros [= <- <-].
    - split_and!; [done|done|]. split; [done|]. by rewrite Ec.
    - apply Forall_cons in Hch as [? ?]. by split_and!. }
  destruct Hw1 as (En & Hc & Hok1). rewrite En.
  destruct (c_nodes w !! tgt) as [n|] eqn:En1; [|intros [= <- <-]; by left].
  destruct (serve n _ c) as [[r1 n']|] eqn:Es; [|intros [= <- <-]; by left].
  intros [= <- <-]. right. exists n, n', (to_world w1 id c), c.
  split_and!; try done; [by apply (map_Forall_lookup_1 _ _ _ _ Hn En1)|].
  intros Hn'. split; [|apply Hok1]. cbn. apply map_Forall_insert_2; [done|]. done.
Qed.

#[global] Program Instance Cluster_laws : EsLaws Cluster := {|
  es_ok := cluster_ok;
  es_byte := cluster_byte
|}.
Next Obligation.
  intros w tgt m data r w' Hw Hm E. apply call_spec in E as [(_ & Hok & En)|(n & n' & wd & c & Hn & N & Hr & E & En & Hok)];
    [| |done].
  - split; [done|]. intros. unfold cluster_byte in *. by rewrite En.
  - apply serve_write_spec in E as (N' & Hk & _); try done. split; [auto|].
    intros tgt' id' x a Hne. unfold cluster_byte. rewrite En. destruct (decide (tgt' = tgt)) as [->|Hd].
    + rewrite lookup_insert_eq, Hn. cbn. apply Hk. intros [? ?]. apply Hne. auto.
    + by rewrite lookup_insert_ne by done.
Qed.
Next Obligation.
  intros w tgt m data r w' Hw Hm Hlen E Hs i Hi.
  apply call_spec in E as [(-> & _)|(n & n' & wd & c & Hn & N & Hr & E & En & Hok)]; [done| |done].
  apply serve_write_spec in E as (_ & _ & Hst); try done.
  unfold cluster_byte. rewrite En, lookup_insert_eq. cbn. by apply Hst.
Qed.
Next Obligation.
  intros w tgt m r w' Hw Hm E. apply call_spec in E as [(_ & Hok & En)|(n & n' & wd & c & Hn & N & Hr & E & En & Hok)];
    [| |done].
  - split; [done|]. intros. unfold cluster_byte. by rewrite En.
  - apply serve_read_spec in E as (N' & Hk & _); try done. split; [auto|].
    intros tgt' id' x. unfold cluster_byte. rewrite En. destruct (decide (tgt' = tgt)) as [->|Hd].
    + rewrite lookup_insert_eq, Hn. cbn. apply Hk.
    + by rewrite lookup_insert_ne by done.
Qed.
Next Obligation.
  intros w tgt m r w' Hw Hm E Hs.
  apply call_spec in E as [(-> & _)|(n & n' & wd & c & Hn & N & Hr & E & En & Hok)]; [done| |done].
  apply serve_read_spec in E as (_ & _ & Hst); try done. destruct (Hst Hs) as [Hl Hb].
  split; [done|]. intros i a Hi. unfold cluster_byte. rewrite Hn. cbn. by apply Hb.
Qed.

(** Calls do not change the routers. *)
Lemma call_routers (w w' : Cluster) tgt id serve r : call w tgt id serve = (r, w') -> c_routers w' = c_routers w.
Proof.
  unfold call. destruct (next_chance w) as [c w1] eqn:E.
  assert (Hw1 : c_routers w1 = c_routers w) by (unfold next_chance in E; by destruct (c_chances w); injection E as <- <-).
  rewrite <- Hw1. destruct (c_nodes w1 !! tgt); [|by intros [= <- <-]]. by destruct (serve _ _ _) as [[? ?]|]; intros [= <- <-].
Qed.
End Cluster.
Arguments EsNode : clear implicits.
Arguments Cluster : clear implicits.

(** ** Claims *)

(** What a program does with a handle between a write and a read of a range:
    reads, and writes elsewhere, successful or not. *)
Inductive other_io `{EsLaws W} `{Crc32c} (lo n : Z) : W * RBDStream -> W * RBDStream -> Prop :=
  | other_write w h buf offset rv h' w' :
      req_range offset (slen buf) -> offset + slen buf <= lo \/ lo + n <= offset ->
      Stream_Write w h buf offset = Some (rv, h', w') -> other_io lo n (w, h) (w', h')
  | other_read w h buf offset rv out h' w' :
      req_range offset (slen buf) -> Stream_Read w h buf offset = Some (rv, out, h', w') ->
      other_io lo n (w, h) (w', h').

(** A handle that is open on a blob of the servers. *)
Definition open_stream `{EsLaws W} (w : W) (h : RBDStream) : Prop :=
  stream_ok h /\ es_ok w /\ esio_proto_ h = kBrpc /\ isClosed_ h = false.

Lemma open_stream_ext `{EsLaws W} (w w' : W) h h' :
  open_stream w h -> stream_ext h h' -> es_ok w' -> open_stream w' h'.
Proof. intros (Hok & _ & Hp & Hc) ((_ & _ & _ & Ep & Ec) & Hk & _) Hw. split_and!; auto; congruence. Qed.

Lemma other_io_keeps `{EsLaws W} `{Crc32c} lo n (s s' : W * RBDStream) :
  0 <= lo -> rtc (other_io lo n) s s' -> open_stream s.1 s.2 ->
  open_stream s'.1 s'.2 /\
  forall x c, lo <= x < lo + n -> blob_byte s.1 s.2 x = Some c -> blob_byte s'.1 s'.2 x = Some c.
Proof.
  intros Hlo. induction 1 as [s|s s1 s2 Hst _ IH]; [done|]. intros Ho.
  assert (Hone : open_stream s1.1 s1.2 /\
    forall x c, lo <= x < lo + n -> blob_byte s.1 s.2 x = Some c -> blob_byte s1.1 s1.2 x = Some c).
  { destruct Ho as (Hok & Hw & Hp & Hc). destruct Hst as [w h buf offset rv h' w' Hr Hd E|w h buf offset rv out h' w' Hr E].
    - destruct (Stream_Write_spec w h buf offset Hok Hw Hp Hc Hr) as (? & ? & ? & E' & Hx & Hw' & _ & Hk & _).
      rewrite E in E'. injection E' as <- <- <-. split; [by apply (open_stream_ext w w' h h')|].
      intros x c Hx'. apply Hk; [lia|apply in_range_false; lia].
    - destruct (Stream_Read_spec w h buf offset Hok Hw Hp Hc Hr) as (? & ? & ? & ? & E' & Hx & Hw' & _ & Hk & _).
      rewrite E in E'. injection E' as <- <- <- <-. split; [by apply (open_stream_ext w w' h h')|].
      intros x c Hx'. apply Hk; [lia|apply in_range_false; lia]. }
  destruct Hone as [Ho1 Hone]. destruct (IH Ho1) as [Ho2 Htwo]. split; [done|]. eauto.
Qed.

(** C1: what a client writes to a blob is what it reads, through the whole
    path of client library, extent servers and devices: after a write returned
    OK, and after any reads and any writes elsewhere, a read of any part of the
    range that returns OK yields the bytes written, even when the range lies in
    two extents on different servers and whatever fails in between. *)
Theorem client_reads_what_it_wrote `{SpaceManagerLaws A} `{RocksDBLaws DB} `{Crc32c} `{BDevLaws D}
    (w w1 w2 : Cluster A DB D) h h1 h2 buf offset rbuf roff :
  cluster_ok w -> stream_ok h -> esio_proto_ h = kBrpc -> isClosed_ h = false ->
  req_range offset (slen buf) -> req_range roff (slen rbuf) ->
  offset <= roff -> roff + slen rbuf <= offset + slen buf ->
  Stream_Write w h buf offset = Some (CYPRE_OK, h1, w1) ->
  rtc (other_io roff (slen rbuf)) (w1, h1) (w2, h2) ->
  exists rv out h3 w3, Stream_Read w2 h2 rbuf roff = Some (rv, out, h3, w3) /\
    (rv = CYPRE_OK -> out = slice buf (roff - offset) (slen rbuf)).
Proof.
  intros Hw Hok Hp Hc Hr1 Hr2 Hlo Hhi E Hrun. pose proof Hr2 as (Hr0 & Hrl & _).
  change (es_ok w) in Hw.
  destruct (Stream_Write_spec w h buf offset Hok Hw Hp Hc Hr1) as (? & ? & ? & E' & Hx & Hw1 & _ & _ & _ & Hst).
  rewrite E in E'. injection E' as <- <- <-.
  assert (Ho1 : open_stream w1 h1) by (by apply (open_stream_ext w w1 h h1); [split_and!|..]).
  apply other_io_keeps in Hrun as [(Hok2 & Hw2 & Hp2 & Hc2) Hk]; [|done|done]. cbn [fst snd] in *.
  destruct (Stream_Read_spec w2 h2 rbuf roff Hok2 Hw2 Hp2 Hc2 Hr2)
    as (rv & out & h3 & w3 & -> & _ & _ & _ & _ & Hl & _ & Hread).
  exists rv, out, h3, w3. split; [done|]. intros Hrv. apply string_ext.
  - rewrite Hl, slen_slice; lia.
  - intros i Hi. rewrite Hl in Hi. rewrite byte_at_slice by lia. apply (Hread Hrv); [done|].
    apply Hk; [lia|]. replace (roff + i) with (offset + (roff - offset + i)) by lia. apply Hst; [done|lia].
Qed.

#[local] Existing Instance demo_crc.

(** A cluster of one server; the write crosses the boundary of two extents of
    1MB, and a write elsewhere happens before the read. *)
Definition e2e_mgr : ExtentLocationMgr SpaceAlloc MemDB :=
  match ExtentLocationMgr_Init 1048576 4194304 (RdbOk, mkMemDB ∅ []) with
  | (_, Some m) => m
  | (_, None) => mkExtentLocationMgr 0 (mkMemDB ∅ []) (SpaceAlloc_new 0) ∅
  end.

Lemma e2e_mgr_on_device : on_device 1048576 4194304 e2e_mgr.
Proof.
  apply (Init_on_device _ _ (mkMemDB ∅ []));
    [vm_compute; split; discriminate..|vm_compute; discriminate|intros; apply lookup_empty|].
  vm_compute. reflexivity.
Qed.

Definition e2e_node : EsNode SpaceAlloc MemDB MemDisk :=
  mkEsNode demo_cfg (mkEngineState (mkExtentRouterMgr ∅ ∅ false) (mkConnectionPool ∅ 0) (mkBareEngine e2e_mgr []))
    (mkMemDisk (fun _ => "0"%char)).

Definition e2e_chance : Chance :=
  mkChance 0 true (Some (Request_new kTypeNoop)) "" (fun _ => true) true.

Definition e2e_cluster : Cluster SpaceAlloc MemDB MemDisk :=
  mkCluster (fun _ => RpcReply 0 (Some demo_router)) {["10.0.0.1:80" := e2e_node]} (replicate 8 e2e_chance).

Definition e2e_stream : RBDStream :=
  RBDStream_new "bb-a" 1048576 4194304 (mkExtentRouterMgr ∅ ∅ false).

Definition e2e_buf : string := repeat_char "a" 4096 +:+ repeat_char "b" 4096.
Definition e2e_w (r : option (Z * RBDStream * Cluster SpaceAlloc MemDB MemDisk)) :=
  default (e2e_stream, e2e_cluster) ((fun x => (x.1.2, x.2)) <$> r).
Definition e2e_1 := e2e_w (Stream_Write e2e_cluster e2e_stream e2e_buf 1044480).
Definition e2e_2 := e2e_w (Stream_Write e2e_1.2 e2e_1.1 (repeat_char "c" 4096) 0).

Lemma e2e_run r :
  match r with Some (rv, _, _) => rv | None => 1 end = CYPRE_OK ->
  r = Some (CYPRE_OK, (e2e_w r).1, (e2e_w r).2).
Proof. destruct r as [[[rv h] w]|]; [by intros ->|done]. Qed.

Lemma e2e_stream_ok : stream_ok e2e_stream.
Proof.
  split; [vm_compute; split; [discriminate|reflexivity]|vm_compute; reflexivity|vm_compute; reflexivity|].
  intros i y Hi. vm_compute in Hi. discriminate.
Qed.

Lemma e2e_cluster_ok : es_ok e2e_cluster.
Proof.
  split; [|by repeat constructor]. apply map_Forall_singleton.
  split; [apply e2e_mgr_on_device|vm_compute; reflexivity|vm_compute; discriminate].
Qed.

Lemma e2e_range : req_range 1044480 (slen e2e_buf).
Proof. vm_compute; split_and!; discriminate || reflexivity. Qed.

Lemma client_reads_what_it_wrote_witness :
  exists rv out h3 w3, Stream_Read e2e_2.2 e2e_2.1 (repeat_char "z" 4096) 1048576
    = Some (rv, out, h3, w3) /\ (rv = CYPRE_OK -> out = repeat_char "b" 4096).
Proof.
  destruct (client_reads_what_it_wrote
    e2e_cluster e2e_1.2 e2e_2.2 e2e_stream e2e_1.1 e2e_2.1 e2e_buf 1044480 (repeat_char "z" 4096) 1048576)
    as (rv & out & h3 & w3 & E & Hout).
  - exact e2e_cluster_ok.
  - exact e2e_stream_ok.
  - reflexivity.
  - reflexivity.
  - exact e2e_range.
  - vm_compute; split_and!; discriminate || reflexivity.
  - lia.
  - vm_compute; discriminate.
  - apply e2e_run. vm_compute; reflexivity.
  - apply rtc_once. apply (other_write _ _ _ _ (repeat_char "c" 4096) 0 CYPRE_OK);
      [vm_compute; split_and!; discriminate || reflexivity|vm_compute; left; discriminate|].
    apply e2e_run. vm_compute; reflexivity.
  - exists rv, out, h3, w3. split; [exact E|]. intros Hrv. rewrite (Hout Hrv). vm_compute. reflexivity.
Defined.

Lemma split_parts_exact_witness :
  exists parts h', splitUserRequest e2e_stream 1044480 (slen e2e_buf) = Some (CYPRE_OK, parts, h') /\
    parts_data e2e_buf 0 parts = e2e_buf.
Proof.
  destruct (split_parts_exact e2e_stream 1044480 e2e_buf e2e_stream_ok e2e_range)
    as (rv & parts & h' & E & _ & Hr).
  replace (too_large e2e_stream 1044480 (slen e2e_buf)) with false in Hr by (vm_compute; reflexivity).
  destruct Hr as (-> & _ & _ & _ & Hd). exists parts, h'. by split.
Defined.

Lemma stream_is_byte_array_witness :
  exists h' w', Stream_Write e2e_cluster e2e_stream e2e_buf 1044480 = Some (CYPRE_OK, h', w') /\
    blob_byte w' h' (1044480 + 5000) = Some "b"%char.
Proof.
  destruct (stream_is_byte_array e2e_cluster e2e_stream e2e_buf 1044480 e2e_stream_ok e2e_cluster_ok
    eq_refl eq_refl e2e_range) as [(rv & h' & w' & E & _ & _ & _ & _ & _ & _ & Hb) _].
  assert (Hrv : rv = CYPRE_OK).
  { assert (Hr : match Stream_Write e2e_cluster e2e_stream e2e_buf 1044480 with
      | Some (rv, _, _) => rv | None => 1 end = CYPRE_OK) by (vm_compute; reflexivity). by rewrite E in Hr. }
  exists h', w'. split; [by rewrite E, Hrv|]. rewrite (Hb Hrv 5000) by (vm_compute; split; [discriminate|reflexivity]).
  vm_compute. reflexivity.
Defined.

(** The second part of a write is answered before the first. *)
Definition e2e_a0 : AsyncIo (Cluster SpaceAlloc MemDB MemDisk) :=
  default (mkAsyncIo e2e_stream e2e_cluster (mkUReq 0 0) [] [] "")
    (snd <$> AsyncIo_issue e2e_cluster e2e_stream e2e_buf 1044480).

Definition e2e_answer (n : nat) (a : AsyncIo (Cluster SpaceAlloc MemDB MemDisk)) :=
  match drop n (a_pending a) with
  | pd :: r => answer_write (drop_pending a (take n (a_pending a) ++ r)%list) true
                 (header_crc32 (slen (a_buf a)) 1044480) pd
  | [] => a
  end.

Lemma e2e_answer_step n a :
  drop n (a_pending a) <> [] -> async_step false 1044480 true a (e2e_answer n a).
Proof.
  intros Hne. unfold e2e_answer. destruct (drop n (a_pending a)) as [|pd r] eqn:E; [done|].
  apply as_write; [done|]. by rewrite <- E, take_drop.
Qed.

Lemma async_calls_back_once_witness :
  exists st, a_calls (e2e_answer 0 (e2e_answer 1 e2e_a0)) = [st] /\
    (st = CYPRE_OK -> blob_byte (a_world (e2e_answer 0 (e2e_answer 1 e2e_a0)))
       (a_stream (e2e_answer 0 (e2e_answer 1 e2e_a0))) (1044480 + 5000) = Some "b"%char).
Proof.
  pose proof (async_calls_back_once false true e2e_cluster e2e_stream e2e_buf 1044480 CYPRE_OK e2e_a0
    (e2e_answer 0 (e2e_answer 1 e2e_a0)) e2e_stream_ok e2e_cluster_ok eq_refl eq_refl e2e_range) as H.
  replace (too_large e2e_stream 1044480 (slen e2e_buf)) with false in H by (vm_compute; reflexivity).
  rewrite decide_True in H by (vm_compute; reflexivity). destruct H as (st & Hc & _ & Hb).
  - assert (Hi : match AsyncIo_issue e2e_cluster e2e_stream e2e_buf 1044480 with
      | Some (rv, _) => rv | None => 1 end = CYPRE_OK) by (vm_compute; reflexivity).
    unfold e2e_a0. destruct (AsyncIo_issue _ _ _ _) as [[rv a]|]; [by rewrite Hi|done].
  - apply rtc_l with (e2e_answer 1 e2e_a0); [apply e2e_answer_step; vm_compute; discriminate|].
    apply rtc_once, e2e_answer_step. vm_compute; discriminate.
  - exists st. split; [exact Hc|]. intros Hst.
    rewrite (Hb Hst eq_refl 5000) by (vm_compute; split; [discriminate|reflexivity]). vm_compute. reflexivity.
Defined.
