(* ===== verification/ClientApi.v ===== *)
(** * The client library

    The object that a program opens blobs with and its C interface:
    [CypreClusterRBD] (src/clients/libcypre/cypre_cluster_rbd.h and .cpp,
    libcypre.h) with the table of open handles, and libcypre_c.cpp.  The handles
    share the routers of the object; each has its own connections.  What a
    handle does with a request is in Client.v. *)

From Stdlib Require Import Ascii.
From stdpp Require Import relations.
From S2P Require Import Prelude Status Bitmap Allocator Codec KvStore ExtentLocation Net StorageEngine Client ClientTheorems ClientServer.

#[local] Open Scope string_scope.
#[local] Open Scope Z_scope.

(** ** The object *)

Record CypreRBDOptions : Type := mkCypreRBDOptions {
  em_ip : string; em_port : Z; proto : ExtentIoProtocol; brpc_worker_thread_num : Z; brpc_sender_thread : Z;
  brpc_sender_ring_power : Z
}.

Definition CypreRBDOptions_new (eip : string) (eport : Z) : CypreRBDOptions := mkCypreRBDOptions eip eport kBrpc 9 4 10.

(** [streams]: the handles that were created, by their address; [cr_routers]:
    [extent_router_mgr_], [None] when it is null. *)
Record ClusterRBD : Type := mkClusterRBD {
  cr_options : CypreRBDOptions;
  em_channel_ : bool;
  cr_routers : option ExtentRouterMgr;
  brpc_sender_ : bool;
  stream_table_ : list nat;
  streams : gmap nat RBDStream;
  next_stream : nat
}.

Definition CypreClusterRBD_new : ClusterRBD :=
  mkClusterRBD (CypreRBDOptions_new "" 0) false None false [] ∅ 0.

(** [affinity], [channel], [senders]: what
    [bthread_set_concurrency_and_cpu_affinity], [Channel::Init] and
    [BrpcSenderWorker::Start] return. *)
Definition ClusterRBD_Init (affinity channel senders : Z) (opts : CypreRBDOptions) (r : ClusterRBD) : Z * ClusterRBD :=
  if negb (affinity =? 0) then (-1, r)
  else
    let r := mkClusterRBD opts true (cr_routers r) (brpc_sender_ r) (stream_table_ r) (streams r) (next_stream r) in
    if negb (channel =? 0) then (CYPRE_ER_INVALID_ARGUMENT, r)
    else
      let rv := sender_args (brpc_sender_thread opts) (brpc_sender_ring_power opts) in
      let rv := if negb (rv =? CYPRE_OK) then rv else senders in
      (rv, mkClusterRBD opts true (Some (mkExtentRouterMgr ∅ ∅ true)) ((rv =? CYPRE_OK) || brpc_sender_ r)
             (stream_table_ r) (streams r) (next_stream r)).

Definition with_stream (r : ClusterRBD) (i : nat) (h : RBDStream) : ClusterRBD :=
  mkClusterRBD (cr_options r) (em_channel_ r) (cr_routers r) (brpc_sender_ r) (stream_table_ r) (<[i := h]> (streams r))
    (next_stream r).
Definition with_routers (r : ClusterRBD) (rm : ExtentRouterMgr) : ClusterRBD :=
  mkClusterRBD (cr_options r) (em_channel_ r) (Some rm) (brpc_sender_ r) (stream_table_ r) (streams r) (next_stream r).
Definition with_table (r : ClusterRBD) (t : list nat) : ClusterRBD :=
  mkClusterRBD (cr_options r) (em_channel_ r) (cr_routers r) (brpc_sender_ r) t (streams r) (next_stream r).

(** The code and the new handle.  [None]: no channel, or the assertion of
    [Open] fails. *)
Definition ClusterRBD_Open (r : ClusterRBD) (blob_id : string) (reply : QueryBlobReply)
  : option (Z * option nat * ClusterRBD) :=
  if negb (em_channel_ r) then None
  else
    rm ← cr_routers r;
    '(rv, h) ← Open rm (proto (cr_options r)) blob_id reply;
    match h with
    | None => Some (rv, None, r)
    | Some h =>
        let i := next_stream r in
        Some (rv, Some i,
              mkClusterRBD (cr_options r) (em_channel_ r) (cr_routers r) (brpc_sender_ r) (stream_table_ r ++ [i])
                (<[i := h]> (streams r)) (S i))
    end.

(** [list::erase] of the first entry that is the handle. *)
Fixpoint erase_first (i : nat) (t : list nat) : list nat :=
  match t with
  | [] => []
  | j :: t' => if Nat.eqb j i then t' else j :: erase_first i t'
  end.

(** [Close] of a handle, null ([None]) included; the caller's pointer is null
    afterwards.  [None]: it waits for requests in flight. *)
Definition ClusterRBD_Close (r : ClusterRBD) (handle : option nat) : option (Z * ClusterRBD) :=
  match handle with
  | None => Some (CYPRE_OK, r)
  | Some i =>
      h ← streams r !! i;
      '(rv, h) ← Stream_Close h;
      let r := with_stream r i h in
      Some (rv, with_table r (erase_first i (stream_table_ r)))
  end.

(** The loop of [Finalize]: [rv] is what the last [Close] returned. *)
Fixpoint Finalize_loop (r : ClusterRBD) (rv : Z) (t : list nat) : option (Z * ClusterRBD) :=
  match t with
  | [] => Some (rv, r)
  | i :: t' =>
      h ← streams r !! i;
      '(rc, h) ← Stream_Close h;
      let rv := rc in
      let rv := if negb (rc =? CYPRE_OK) then rc else rv in
      Finalize_loop (with_stream r i h) rv t'
  end.

Definition Finalize (r : ClusterRBD) : option (Z * ClusterRBD) :=
  let r := mkClusterRBD (cr_options r) false None false (stream_table_ r) (streams r) (next_stream r) in
  '(rv, r) ← Finalize_loop r CYPRE_OK (stream_table_ r);
  Some (rv, with_table r []).

(** ** Requests on a handle *)

Section Calls.
Context `{EsRpc W} `{Crc32c}.
Implicit Types (w : W) (r : ClusterRBD).

(** The handle as it is used: with the routers of the object.  [None]: there is
    no such handle. *)
Definition use_stream r (i : nat) : option RBDStream :=
  rm ← cr_routers r; h ← streams r !! i; Some (set_routers h rm).

Definition used_stream r (i : nat) (h : RBDStream) : ClusterRBD := with_routers (with_stream r i h) (extent_router_mgr h).

(** ** The C interface *)

(** A [cypreblob_t] holds a handle, null after [close_blob]. *)
Definition open_cyprerbd (affinity channel senders : Z) (ip : string) (port : Z) : option (option ClusterRBD) :=
  let '(rv, r) := ClusterRBD_Init affinity channel senders (CypreRBDOptions_new ip port) CypreClusterRBD_new in
  if negb (rv =? CYPRE_OK) then '(_, _) ← Finalize r; Some None else Some (Some r).

Definition close_cyprerbd r : option () := '(_, _) ← Finalize r; Some ().

Definition open_blob r (blob_id : string) (reply : QueryBlobReply) : option (option nat * ClusterRBD) :=
  '(rv, h, r) ← ClusterRBD_Open r blob_id reply;
  Some (if negb (rv =? CYPRE_OK) then None else h, r).

Definition close_blob r (blob : option nat) : option (option nat * ClusterRBD) :=
  '(_, r) ← ClusterRBD_Close r blob; Some (None, r).

Definition get_blob_size r (blob : option nat) : option Z := i ← blob; h ← streams r !! i; Some (so_blob_size h).

Definition c_read_blob w r (blob : option nat) (buf : string) (offset : Z) : option (Z * string * ClusterRBD * W) :=
  i ← blob; h ← use_stream r i;
  '(rv, out, h, w) ← read_blob w h buf offset;
  Some (rv, out, used_stream r i h, w).

Definition c_write_blob w r (blob : option nat) (buf : string) (offset : Z) : option (Z * ClusterRBD * W) :=
  i ← blob; h ← use_stream r i;
  '(rv, h, w) ← write_blob w h buf offset;
  Some (rv, used_stream r i h, w).
End Calls.

(** ** What the handles share *)

(** Calls do not change what the extent manager answers about routers. *)
Class EsRouterLaws (W : Type) `{EsRpc W} : Prop := {
  write_router : forall w tgt m data r w' id, rpc_write w tgt m data = (r, w') -> rpc_query_router w' id = rpc_query_router w id;
  read_router : forall w tgt m r w' id, rpc_read w tgt m = (r, w') -> rpc_query_router w' id = rpc_query_router w id
}.

Definition es_target (e : ESInstance) : string := get_connection_id (public_ip e) (public_port e).

Section Shared.
Context `{EsLaws W} `{!EsRouterLaws W} `{Crc32c} (addr : Z -> string).
Implicit Types (w : W) (h : RBDStream).

(** An extent server has one address, in every router of the extent manager. *)
Definition addressed w : Prop := forall id r, queryFromRemote id (rpc_query_router w id) = Some r ->
  es_target (primary r) = addr (es_id (primary r)).

Definition routers_addressed (rm : ExtentRouterMgr) : Prop := forall id r, router_map rm !! id = Some r ->
  es_target (primary r) = addr (es_id (primary r)).

Definition conns_addressed h : Prop := forall e c, connection_pool2_ (conn_pool h) !! e = Some c -> conn_target c = addr e.

Definition addressed_stream h : Prop := routers_addressed (extent_router_mgr h) /\ conns_addressed h.

Definition routers_grow (rm rm' : ExtentRouterMgr) : Prop := forall id r, router_map rm !! id = Some r -> router_map rm' !! id = Some r.

(** What a step of a request does to the world and the handle, apart from
    bytes. *)
Definition shared_ok w h w' h' : Prop :=
  (forall id, rpc_query_router w' id = rpc_query_router w id) /\
  (addressed w -> addressed_stream h -> addressed_stream h') /\
  routers_grow (extent_router_mgr h) (extent_router_mgr h').

Lemma addressed_same w w' : (forall id, rpc_query_router w' id = rpc_query_router w id) -> addressed w -> addressed w'.
Proof. intros Hq Ha id r. rewrite Hq. apply Ha. Qed.

Lemma shared_trans w1 h1 w2 h2 w3 h3 : shared_ok w1 h1 w2 h2 -> shared_ok w2 h2 w3 h3 -> shared_ok w1 h1 w3 h3.
Proof.
  intros (Q1 & A1 & G1) (Q2 & A2 & G2). split_and!.
  - intros id. by rewrite Q2.
  - intros Ha Hs. apply A2; [by apply (addressed_same w1)|auto].
  - intros id r Hr. auto.
Qed.

Lemma shared_keep w h h' : extent_router_mgr h' = extent_router_mgr h -> conn_pool h' = conn_pool h -> shared_ok w h w h'.
Proof.
  intros Er Ec. unfold shared_ok, addressed_stream, conns_addressed, routers_grow. rewrite Er, Ec. by split_and!.
Qed.

Lemma shared_world w w' h : (forall id, rpc_query_router w' id = rpc_query_router w id) -> shared_ok w h w' h.
Proof. intros Hq. split_and!; [done|done|by intros id r]. Qed.

Lemma onDone_shared w h u status bad call u' h' : onDone h u status bad = (call, u', h') -> shared_ok w h w h'.
Proof. unfold onDone. destruct (0 <? _); intros [= <- <- <-]; by apply shared_keep. Qed.

Lemma open_channel_shared w h y ch h' : open_channel w h y = (ch, h') -> shared_ok w h w h'.
Proof.
  unfold open_channel. destruct (QueryRouter _ _ _) as [router rm] eqn:Eq.
  pose proof (QueryRouter_ext _ _ _ _ _ Eq) as [Hgrow Hnew].
  assert (Hrm : addressed w -> routers_addressed (extent_router_mgr h) -> routers_addressed rm).
  { intros Ha Hr id r. revert Eq. unfold QueryRouter. destruct (router_map (extent_router_mgr h) !! y_extent_id y) eqn:E; [intros [= _ <-]; apply Hr|].
    destruct (queryFromRemote _ _) as [x|] eqn:Ex; intros [= _ <-]; [|apply Hr]. rewrite router_map_set.
    intros [[<- <-]|[_ ?]]%lookup_insert_Some; [by apply (Ha (y_extent_id y))|by apply (Hr id)]. }
  assert (H0' : shared_ok w h w (set_routers h rm)) by (split_and!; [done|intros Ha [Hr Hc]; split; [by apply Hrm|done]|done]).
  destruct router as [r|]; [|by intros [= _ <-]].
  destruct (get_conn w (set_routers h rm) (primary r)) as [conn h1] eqn:Ec.
  assert (H1' : shared_ok w h w h1).
  { eapply shared_trans; [exact H0'|]. revert Ec. unfold get_conn. destruct (GetConnection2 _ _); [intros [= _ <-]; by apply shared_keep|].
    unfold NewConnection. destruct (rpc_channel_ok w _); cbn [negb]; intros [= _ <-]; [|by apply shared_keep].
    split_and!; [done| |intros ? ? Hr; exact Hr]. intros Ha [Hr Hc]. split; [done|]. intros e c. cbn.
    intros [[<- <-]|[_ ?]]%lookup_insert_Some; [|by apply Hc]. apply (Hr (y_extent_id y)). by apply Hnew. }
  by destruct (es_wrapper_ y), conn; intros [= _ <-].
Qed.

Lemma write_part_shared w h p data dc hc rc st h' w' : write_part w h p data dc hc = (rc, st, h', w') -> shared_ok w h w' h'.
Proof.
  unfold write_part. destruct (open_channel w h _) as [ch h1] eqn:E. apply open_channel_shared in E.
  destruct ch as [|c|]; [by intros [= _ _ <- <-]| |by intros [= _ _ <- <-]].
  destruct (rpc_write w _ _ data) as [r w1] eqn:Er. intros [= _ _ <- <-]. eapply shared_trans; [exact E|].
  apply shared_world. intros id. by eapply write_router.
Qed.

Lemma read_part_shared w h p buf pos hc x h' w' : read_part w h p buf pos hc = Some (x, h', w') -> shared_ok w h w' h'.
Proof.
  unfold read_part. destruct (open_channel w h _) as [ch h1] eqn:E. apply open_channel_shared in E.
  destruct ch as [|c|]; [by intros [= _ <- <-]| |by intros [= _ <- <-]].
  destruct (rpc_read w _ _) as [r w1] eqn:Er. destruct (read_data r) as [data crc]. destruct (copy_at _ _ _); [|done].
  cbn. intros [= _ <- <-]. eapply shared_trans; [exact E|]. apply shared_world. intros id. by eapply read_router.
Qed.

Lemma write_parts_shared split buf hc parts : forall w h u pos rv rv' u' h' w',
  write_parts w h u split buf hc pos rv parts = (rv', u', h', w') -> shared_ok w h w' h'.
Proof.
  induction parts as [|p parts IH]; intros w h u pos rv rv' u' h' w'; cbn [write_parts].
  - intros [= _ _ <- <-]. by apply shared_keep.
  - destruct (write_part _ _ _ _ _ _) as [[[rc st] h1] w1] eqn:E1. destruct (onDone _ _ _ _) as [[call u2] h2] eqn:E2.
    intros E3. eapply shared_trans; [by eapply write_part_shared|]. eapply shared_trans; [by eapply onDone_shared|]. by eapply IH.
Qed.

Lemma read_parts_shared hc parts : forall w h u buf pos rv rv' u' out h' w',
  read_parts w h u buf hc pos rv parts = Some (rv', u', out, h', w') -> shared_ok w h w' h'.
Proof.
  induction parts as [|p parts IH]; intros w h u buf pos rv rv' u' out h' w'; cbn [read_parts].
  - intros [= _ _ _ <- <-]. by apply shared_keep.
  - destruct (read_part _ _ _ _ _ _) as [[[[[[rc st] crc] buf1] h1] w1]|] eqn:E1; [|done]. cbn [mbind option_bind].
    destruct (onDone _ _ _ _) as [[call u2] h2] eqn:E2.
    intros E3. eapply shared_trans; [by eapply read_part_shared|]. eapply shared_trans; [by eapply onDone_shared|]. by eapply IH.
Qed.

Lemma split_shared w h offset len rv parts h' : stream_ok h -> req_range offset len ->
  splitUserRequest h offset len = Some (rv, parts, h') -> shared_ok w h w h'.
Proof.
  intros Hok Hr E. destruct (splitUserRequest_spec h offset len Hok Hr) as (? & ? & ? & E' & _ & Hh & _).
  rewrite E in E'. injection E' as <- <- <-. destruct Hh as [->|[m ->]]; by apply shared_keep.
Qed.

Lemma Stream_Write_shared w h buf offset rv h' w' : stream_ok h -> req_range offset (slen buf) ->
  Stream_Write w h buf offset = Some (rv, h', w') -> shared_ok w h w' h'.
Proof.
  intros Hok Hr. unfold Stream_Write. destruct (isClosed_ h); [intros [= _ <- <-]; by apply shared_keep|].
  destruct (splitUserRequest _ _ _) as [[[rv1 parts] h1]|] eqn:Es; [|done]. cbn [mbind option_bind].
  apply (split_shared w) in Es; [|done|done].
  destruct (negb _); [by intros [= _ <- <-]|]. destruct (write_parts _ _ _ _ _ _ _ _ _) as [[[rv2 u] h2] w2] eqn:E.
  intros [= _ <- <-]. eapply shared_trans; [exact Es|]. eapply shared_trans; [|by eapply write_parts_shared]. by apply shared_keep.
Qed.

Lemma Stream_Read_shared w h buf offset rv out h' w' : stream_ok h -> req_range offset (slen buf) ->
  Stream_Read w h buf offset = Some (rv, out, h', w') -> shared_ok w h w' h'.
Proof.
  intros Hok Hr. unfold Stream_Read. destruct (isClosed_ h); [intros [= _ _ <- <-]; by apply shared_keep|].
  destruct (splitUserRequest _ _ _) as [[[rv1 parts] h1]|] eqn:Es; [|done]. cbn [mbind option_bind].
  apply (split_shared w) in Es; [|done|done].
  destruct (negb _); [by intros [= _ _ <- <-]|]. destruct (read_parts _ _ _ _ _ _ _ _) as [[[[[rv2 u] o2] h2] w2]|] eqn:E; [|done].
  cbn. intros [= _ _ <- <-]. eapply shared_trans; [exact Es|]. eapply shared_trans; [|by eapply read_parts_shared].
  by apply shared_keep.
Qed.

(** ** The blob, whatever the handle *)

(** The byte of a blob at [x], as far as the routers of the object know the
    server. *)
Definition api_byte w (rm : ExtentRouterMgr) (b : string) (es x : Z) : option ascii :=
  let id := GenerateExtentID b (x / es + 1) in
  r ← router_map rm !! id; es_byte w (addr (es_id (primary r))) id (x mod es).

Lemma target_addressed h id tgt : addressed_stream h -> target_of h id = Some tgt ->
  exists r, router_map (extent_router_mgr h) !! id = Some r /\ tgt = addr (es_id (primary r)).
Proof.
  intros [Hr Hc]. unfold target_of. destruct (router_map _ !! id) as [r|]; [|done]. cbn.
  destruct (connection_pool2_ _ !! _) as [c|] eqn:E; [|done]. cbn. intros [= <-]. exists r. split; [done|]. by apply Hc.
Qed.

(** A handle that knows the server of a byte sees the byte of the blob. *)
Lemma known_api w h x : addressed_stream h -> known h x ->
  blob_byte w h x = api_byte w (extent_router_mgr h) (so_blob_id h) (so_extent_size h) x.
Proof.
  intros Ha [tgt Hk]. unfold blob_byte, api_byte. rewrite Hk. cbn.
  destruct (target_addressed h _ tgt Ha Hk) as (r & -> & ->). done.
Qed.

Lemma api_byte_grow w w' rm rm' b es x c : routers_grow rm rm' ->
  (forall tgt, es_byte w tgt (GenerateExtentID b (x / es + 1)) (x mod es) = Some c ->
     es_byte w' tgt (GenerateExtentID b (x / es + 1)) (x mod es) = Some c) ->
  api_byte w rm b es x = Some c -> api_byte w' rm' b es x = Some c.
Proof.
  intros Hg He. unfold api_byte. destruct (router_map rm !! _) as [r|] eqn:E; [|done]. cbn. rewrite (Hg _ _ E). cbn. apply He.
Qed.

(** The bytes that a part's message names. *)
Definition touches (p : Part) (id : string) (x : Z) : Prop :=
  id = y_extent_id (p_handle p) /\ p_roff p <= x < p_roff p + p_len p.

Lemma write_parts_keep split buf hc parts : forall w h u bpos rv pos rv' u' h' w',
  stream_ok h -> es_ok w -> tiles (so_blob_id h) (so_extent_size h) pos parts -> 0 <= pos -> pos + total_len parts <= u64_max ->
  write_parts w h u split buf hc bpos rv parts = (rv', u', h', w') ->
  forall tgt id x c, ~ Exists (fun p => touches p id x) parts -> es_byte w tgt id x = Some c -> es_byte w' tgt id x = Some c.
Proof.
  induction parts as [|p parts IH]; intros w h u bpos rv pos rv' u' h' w' Hok Hw Ht Hp Hm; cbn [write_parts].
  - by intros [= _ _ _ <-].
  - destruct (write_part _ _ _ _ _ _) as [[[rc st] h1] w1] eqn:E1. destruct (onDone _ _ _ _) as [[call u2] h2] eqn:E2.
    intros E3 tgt id x c Hx Hb. destruct Ht as [Ht1 Ht]. pose proof (total_len_nonneg _ _ _ _ Ht) as Hnn. cbn [total_len] in Hm.
    pose proof Ht1 as (i & Hid & Ei & Hr & Hl & Hle).
    assert (H1' : stream_ext h h1 /\ es_ok w1 /\ es_byte w1 tgt id x = Some c).
    { revert E1. unfold write_part. destruct (open_channel w h _) as [ch h0] eqn:Ec. apply open_channel_ext in Ec as (Hext & _).
      destruct ch as [|cn|]; [by intros [= _ _ <- <-]| |by intros [= _ _ <- <-]].
      destruct (rpc_write w _ _ _) as [r w0] eqn:Er. intros [= _ _ <- <-].
      destruct (part_msg_ok h p pos i (part_crc split buf (slice buf bpos (p_len p))) hc Hok ltac:(lia) Hid Ei Hr Hl Hle)
        as (Hmo & Eoff & Esz).
      destruct (write_keeps _ _ _ _ _ _ Hw Hmo Er) as [Hw0 Hk]. split_and!; [done|done|]. apply Hk; [|done].
      intros (_ & -> & Hxr). rewrite Eoff, Esz in Hxr. apply Hx. left. by split. }
    destruct H1' as (Hx1 & Hw1 & Hb1). apply onDone_spec in E2 as (Hx2 & _). pose proof (stream_ext_trans _ _ _ Hx1 Hx2) as Hx12.
    eapply IH; [|exact Hw1| | | |exact E3| |exact Hb1]; [by apply Hx12|by apply (tiles_ext h)|lia|lia|].
    intros Hex. apply Hx. by right.
Qed.

Lemma tiles_touch b es parts : 0 < es -> forall pos id x, tiles b es pos parts -> Exists (fun p => touches p id x) parts ->
  exists y, pos <= y < pos + total_len parts /\ id = GenerateExtentID b (y / es + 1) /\ x = y mod es.
Proof.
  intros Hes. induction parts as [|p parts IH]; intros pos id x Ht Hex; [by apply Exists_nil in Hex|].
  destruct Ht as [(i & Hid & Ei & Hr & Hl & Hle) Ht]. pose proof (total_len_nonneg _ _ _ _ Ht) as Hnn. cbn [total_len].
  apply Exists_cons in Hex as [[-> Hx]|Hex].
  - exists (pos + (x - p_roff p)). split; [lia|].
    rewrite <- (Z.div_unique_pos (pos + (x - p_roff p)) es (i - 1) x) by lia.
    rewrite <- (Z.mod_unique_pos (pos + (x - p_roff p)) es (i - 1) x) by lia.
    split; [|done]. by replace (i - 1 + 1) with i by lia.
  - destruct (IH (pos + p_len p) id x Ht Hex) as (y & Hy & Hrest). exists y. split; [lia|done].
Qed.

(** What a write through one handle does to any blob. *)
Lemma Stream_Write_api w h buf offset rv h' w' :
  stream_ok h -> es_ok w -> esio_proto_ h = kBrpc -> isClosed_ h = false -> req_range offset (slen buf) ->
  addressed w -> addressed_stream h -> Stream_Write w h buf offset = Some (rv, h', w') ->
  (forall b es x c, no_dot b = true -> (b = so_blob_id h -> es = so_extent_size h /\ ~ (offset <= x < offset + slen buf)) ->
     api_byte w (extent_router_mgr h) b es x = Some c -> api_byte w' (extent_router_mgr h') b es x = Some c) /\
  (rv = CYPRE_OK -> forall i, 0 <= i < slen buf ->
     api_byte w' (extent_router_mgr h') (so_blob_id h) (so_extent_size h) (offset + i) = Some (byte_at buf i)).
Proof.
  intros Hok Hw Hpr Hcl Hrg Haw Hah E. pose proof Hrg as (Ho & Hl & Hm).
  destruct (Stream_Write_shared w h buf offset rv h' w' Hok Hrg E) as (_ & Hah' & Hgrow). specialize (Hah' Haw Hah).
  destruct (Stream_Write_spec w h buf offset Hok Hw Hpr Hcl Hrg) as (rv0 & h0 & w0 & E0 & Hx & _ & _ & _ & _ & Hst).
  rewrite E in E0. injection E0 as <- <- <-. split.
  - intros b es x c Hdot Hout. apply api_byte_grow; [done|]. intros tgt.
    revert E. unfold Stream_Write. rewrite Hcl.
    destruct (splitUserRequest_spec h offset (slen buf) Hok Hrg) as (rv1 & parts & h1 & -> & Hok1 & Hh1 & Hr).
    cbn [mbind option_bind]. pose proof (split_ext h h1 (ioInflight_ h1 + 1) Hh1 Hok1) as (Hx1 & Hok2 & _).
    destruct (too_large _ _ _); [destruct Hr as [-> ->]; cbn; by intros [= _ _ <-]|].
    destruct Hr as (-> & Ht & Htot & _). rewrite Z.eqb_refl. cbn [negb].
    destruct (write_parts _ _ _ _ _ _ _ _ _) as [[[rv2 u] h2] w2] eqn:Ep. intros [= _ _ <-].
    eapply (write_parts_keep _ _ _ _ _ _ _ _ _ offset); [exact Hok2|exact Hw|by apply (tiles_ext h)|lia|lia|exact Ep|].
    intros Hex. pose proof (so_size h Hok) as Hes. destruct (tiles_touch (so_blob_id h) (so_extent_size h) parts ltac:(lia) _ _ _ Ht Hex) as (y & Hy & Hid & Hmod).
    apply GenerateExtentID_inj in Hid as [-> Hi]; [|done|apply Hok]. destruct (Hout eq_refl) as [-> Hxo].
    apply Hxo. replace x with y; [lia|]. rewrite (Z.div_mod x (so_extent_size h)), (Z.div_mod y (so_extent_size h)) by lia.
    rewrite Hmod. f_equal. f_equal. lia.
  - intros Hrv i Hi. pose proof (Hst Hrv i Hi) as Hb. pose proof Hx as ((Eb & Ee & _) & _).
    rewrite <- Hb, <- Eb, <- Ee. symmetry. apply known_api; [done|]. by eapply blob_byte_known.
Qed.

(** A read changes no byte, and what it returns is the blob's. *)
Lemma Stream_Read_api w h buf offset rv out h' w' :
  stream_ok h -> es_ok w -> esio_proto_ h = kBrpc -> isClosed_ h = false -> req_range offset (slen buf) ->
  addressed w -> addressed_stream h -> Stream_Read w h buf offset = Some (rv, out, h', w') ->
  (forall b es x c, api_byte w (extent_router_mgr h) b es x = Some c -> api_byte w' (extent_router_mgr h') b es x = Some c) /\
  slen out = slen buf /\
  (rv = CYPRE_OK -> forall i c, 0 <= i < slen buf ->
     api_byte w (extent_router_mgr h) (so_blob_id h) (so_extent_size h) (offset + i) = Some c -> byte_at out i = c).
Proof.
  intros Hok Hw Hpr Hcl Hrg Haw Hah E.
  destruct (Stream_Read_shared w h buf offset rv out h' w' Hok Hrg E) as (_ & Hah' & Hgrow). specialize (Hah' Haw Hah).
  destruct (Stream_Read_full w h buf offset Hok Hw Hpr Hcl Hrg) as (? & ? & ? & ? & E0 & Hx & _ & _ & Hk & Hlen & _ & Hd).
  rewrite E in E0. injection E0 as <- <- <- <-. split_and!; [|done|].
  - intros b es x c. apply api_byte_grow; [done|]. intros tgt. by rewrite Hk.
  - intros Hrv i c Hi Hb. destruct (Hd Hrv i Hi) as [Hkn Hdata]. apply Hdata. rewrite known_api by done.
    pose proof Hx as ((-> & -> & _) & _). by eapply api_byte_grow.
Qed.
End Shared.

(** ** Programs *)

Section Programs.
Context `{EsLaws W} `{!EsRouterLaws W} `{Crc32c} (addr : Z -> string) (es : Z).
Implicit Types (w : W) (r : ClusterRBD).

Definition handle_ok (h : RBDStream) : Prop :=
  stream_ok h /\ esio_proto_ h = kBrpc /\ so_extent_size h = es /\ ioInflight_ h = 0 /\ conns_addressed addr h.

(** An object that was initialised, with its handles: those in the table are
    the ones that are open. *)
Record api_ok w r : Prop := {
  ao_world : es_ok w;
  ao_addr : addressed addr w;
  ao_channel : em_channel_ r = true;
  ao_proto : proto (cr_options r) = kBrpc;
  ao_routers : exists rm, cr_routers r = Some rm /\ routers_addressed addr rm;
  ao_streams : forall i h, streams r !! i = Some h -> (i < next_stream r)%nat /\ handle_ok h;
  ao_nodup : NoDup (stream_table_ r);
  ao_table : forall i, i ∈ stream_table_ r <-> exists h, streams r !! i = Some h /\ isClosed_ h = false
}.

(** What a program does with the library between a write and a read of the
    range of a blob: it opens and closes handles, reads, and writes elsewhere,
    through any handle and with any result.  The extent manager gives all blobs
    the same extent size. *)
Inductive api_step (b : string) (lo n : Z) : W * ClusterRBD -> W * ClusterRBD -> Prop :=
  | api_open w r blob_id reply blob r' :
      no_dot blob_id = true -> slen blob_id < 2147483000 ->
      (forall code id size es', reply = QbReplied code id size es' -> es' = es) ->
      open_blob r blob_id reply = Some (blob, r') -> api_step b lo n (w, r) (w, r')
  | api_close w r blob blob' r' : close_blob r blob = Some (blob', r') -> api_step b lo n (w, r) (w, r')
  | api_write w r i h buf offset rv r' w' :
      streams r !! i = Some h -> req_range offset (slen buf) ->
      so_blob_id h <> b \/ offset + slen buf <= lo \/ lo + n <= offset ->
      c_write_blob w r (Some i) buf offset = Some (rv, r', w') -> api_step b lo n (w, r) (w', r')
  | api_read w r i buf offset rv out r' w' :
      req_range offset (slen buf) ->
      c_read_blob w r (Some i) buf offset = Some (rv, out, r', w') -> api_step b lo n (w, r) (w', r').

(** The bytes of the range that are known. *)
Definition range_kept (b : string) (lo n : Z) (s s' : W * ClusterRBD) : Prop :=
  forall rm x c, cr_routers s.2 = Some rm -> lo <= x < lo + n -> api_byte addr s.1 rm b es x = Some c ->
    exists rm', cr_routers s'.2 = Some rm' /\ api_byte addr s'.1 rm' b es x = Some c.

Lemma handle_ok_routers h rm : handle_ok h -> handle_ok (set_routers h rm).
Proof. intros ([? ? ? ?] & ? & ? & ? & ?). by split_and!. Qed.

Lemma handle_closes h : handle_ok h -> exists h', Stream_Close h = Some (CYPRE_OK, h') /\ isClosed_ h' = true /\ handle_ok h'.
Proof.
  intros (Hok & Hpr & He & Hfl & Hca). unfold Stream_Close. destruct (isClosed_ h) eqn:Ec; [by eexists|].
  cbn [set_closed ioInflight_]. rewrite Hfl. cbn. eexists. split; [done|]. split; [done|]. split_and!; try done.
  destruct Hok as [? ? ? ?]. by split.
Qed.

(** A handle after a request keeps its place. *)
Lemma used_stream_ok w r i h0 h w' : api_ok w r -> streams r !! i = Some h0 -> es_ok w' ->
  (forall id, rpc_query_router w' id = rpc_query_router w id) -> routers_addressed addr (extent_router_mgr h) ->
  handle_ok h -> isClosed_ h = isClosed_ h0 -> api_ok w' (used_stream r i h).
Proof.
  intros [Hw Ha Hc Hp Hr Hs Hn Ht] Hi Hw' Hq Hrm Hh Hcl. destruct (Hs i h0 Hi) as [Hlt _]. split; cbn; try done.
  - by apply (addressed_same addr w).
  - eauto.
  - intros j k [[<- <-]|[_ Hj]]%lookup_insert_Some; [done|by apply Hs].
  - intros j. rewrite Ht. destruct (decide (j = i)) as [->|Hd].
    + rewrite lookup_insert_eq, Hi. split; intros (k & [= <-] & Hk); eexists; (split; [done|]); congruence.
    + by rewrite lookup_insert_ne by done.
Qed.

Lemma open_blob_ok w r blob_id reply blob r' : api_ok w r -> 4096 <= es < 4294967296 ->
  no_dot blob_id = true -> slen blob_id < 2147483000 ->
  (forall code id size es', reply = QbReplied code id size es' -> es' = es) ->
  open_blob r blob_id reply = Some (blob, r') -> api_ok w r' /\ cr_routers r' = cr_routers r.
Proof.
  intros [Hw Ha Hc Hp (rm & Hr & Hrm) Hs Hn Ht] Hes Hd Hsh Hrep. unfold open_blob, ClusterRBD_Open. rewrite Hc, Hr. cbn [negb mbind option_bind].
  unfold Open. destruct reply as [|code id size es']; cbn [mbind option_bind].
  { intros [= _ <-]. split; [|done]. split; eauto. }
  destruct (negb (code =? 0)) eqn:Ecode; cbn [mbind option_bind]; [intros [= _ <-]; split; [|done]; split; eauto|].
  destruct (String.eqb_spec blob_id id) as [<-|]; cbn [negb mbind option_bind]; [|done].
  rewrite Hp. cbn. intros [= _ <-]. split; [|done]. rewrite (Hrep _ _ _ _ eq_refl).
  assert (Hnew : handle_ok (RBDStream_new blob_id es size rm)) by (split_and!; try done; by split).
  assert (Hfresh : streams r !! next_stream r = None).
  { destruct (streams r !! next_stream r) as [k|] eqn:E; [|done]. destruct (Hs _ _ E). lia. }
  assert (Hnot : next_stream r ∉ stream_table_ r) by (rewrite Ht, Hfresh; by intros (? & ? & _)).
  split; cbn; try done; [by eexists| | |].
  - intros j k [[<- <-]|[_ Hj]]%lookup_insert_Some; [split; [lia|done]|]. destruct (Hs j k Hj). split; [lia|done].
  - apply NoDup_app. split_and!; [done| |by apply NoDup_singleton]. intros j Hj Hin. apply list_elem_of_singleton in Hin. by subst j.
  - intros j. rewrite elem_of_app, list_elem_of_singleton, Ht. split.
    + intros [(k & Hk & Hck)| ->]; [|exists (RBDStream_new blob_id es size rm); by rewrite lookup_insert_eq].
      exists k. rewrite lookup_insert_ne; [done|]. intros <-. by rewrite Hfresh in Hk.
    + intros (k & [[<- _]|[_ Hj]]%lookup_insert_Some & Hck); [by right|left; eauto].
Qed.

Lemma erase_first_elem i j t : NoDup t -> j ∈ erase_first i t <-> j ∈ t /\ j <> i.
Proof.
  intros Hn. induction Hn as [|k t Hk Hn IH]; cbn; [set_solver|]. destruct (Nat.eqb_spec k i) as [->|Hd]; [set_solver|].
  rewrite !elem_of_cons, IH. set_solver.
Qed.

Lemma erase_first_nodup i t : NoDup t -> NoDup (erase_first i t).
Proof.
  intros Hn. induction Hn as [|k t Hk Hn IH]; cbn; [constructor|]. destruct (Nat.eqb_spec k i) as [->|Hd]; [done|].
  constructor; [|done]. rewrite erase_first_elem by done. set_solver.
Qed.

Lemma close_blob_ok w r blob blob' r' : api_ok w r -> close_blob r blob = Some (blob', r') ->
  api_ok w r' /\ cr_routers r' = cr_routers r /\ blob' = None.
Proof.
  intros A. unfold close_blob, ClusterRBD_Close. destruct blob as [i|]; cbn [mbind option_bind]; [|by intros [= <- <-]].
  destruct (streams r !! i) as [h|] eqn:Hi; [|done]. cbn [mbind option_bind]. destruct A as [Hw Ha Hc Hp Hr Hs Hn Ht].
  destruct (Hs i h Hi) as [Hlt Hh]. destruct (handle_closes h Hh) as (h' & -> & Hc' & Hh'). cbn. intros [= <- <-]. split_and!; [|done|done]. split; cbn; try done.
  - intros j k [[<- <-]|[_ Hj]]%lookup_insert_Some; [done|by apply Hs].
  - by apply erase_first_nodup.
  - intros j. rewrite erase_first_elem, Ht by done. split.
    + intros [(k & Hk & Hck) Hd]. exists k. by rewrite lookup_insert_ne by done.
    + intros (k & [[<- <-]|[Hd Hj]]%lookup_insert_Some & Hck); [congruence|]. split; [by exists k|done].
Qed.

(** The handle in use, and the state afterwards. *)
Lemma used_stream_kept w r i h rm h' w' : api_ok w r -> streams r !! i = Some h -> cr_routers r = Some rm ->
  es_ok w' -> stream_ext (set_routers h rm) h' -> ioInflight_ h' = 0 -> shared_ok addr w (set_routers h rm) w' h' ->
  api_ok w' (used_stream r i h').
Proof.
  intros A Hi Hr Hw' ((Eb & Ee & _ & Ep & Ec) & Hk & _) Hfl (Hq & Ha & _).
  destruct (ao_routers w r A) as (rm0 & Hr0 & Hrm). rewrite Hr in Hr0. injection Hr0 as <-.
  destruct (ao_streams w r A i h Hi) as [_ Hh]. pose proof (handle_ok_routers h rm Hh) as (Hok & Hp & He & _ & Hc).
  destruct (Ha (ao_addr w r A)) as [Hrm' Hc']; [by split|].
  apply (used_stream_ok w r i h); try done. split_and!; [auto|congruence|congruence|done|done].
Qed.

Lemma c_write_spec w r i h buf offset rv r' w' : api_ok w r -> streams r !! i = Some h -> req_range offset (slen buf) ->
  c_write_blob w r (Some i) buf offset = Some (rv, r', w') ->
  api_ok w' r' /\ exists rm rm', cr_routers r = Some rm /\ cr_routers r' = Some rm' /\
    (forall b x c, no_dot b = true -> (b = so_blob_id h -> ~ (offset <= x < offset + slen buf)) ->
       api_byte addr w rm b es x = Some c -> api_byte addr w' rm' b es x = Some c) /\
    (rv = 0 -> forall k, 0 <= k < slen buf -> api_byte addr w' rm' (so_blob_id h) es (offset + k) = Some (byte_at buf k)).
Proof.
  intros A Hi Hrg. unfold c_write_blob, use_stream, write_blob. cbn [mbind option_bind].
  destruct (ao_routers w r A) as (rm & Hr & Hrm). rewrite Hr, Hi. cbn [mbind option_bind].
  destruct (ao_streams w r A i h Hi) as [_ Hh]. pose proof (handle_ok_routers h rm Hh) as (Hok & Hp & He & Hfl & Hc).
  destruct (Stream_Write w (set_routers h rm) buf offset) as [[[rv1 h1] w1]|] eqn:E; [|done]. cbn [mbind option_bind].
  intros [= <- <- <-]. destruct (isClosed_ h) eqn:Ecl.
  { revert E. unfold Stream_Write. cbn [isClosed_ set_routers]. rewrite Ecl. intros [= <- <- <-]. split.
    - apply (used_stream_kept w r i h rm); try done; [apply A|by apply shared_keep].
    - exists rm, rm. by split_and!. }
  pose proof (Stream_Write_shared addr w _ buf offset rv1 h1 w1 Hok Hrg E) as Hsh.
  destruct (Stream_Write_spec w _ buf offset Hok (ao_world w r A) Hp Ecl Hrg) as (? & ? & ? & E' & Hx & Hw1 & Hf1 & _).
  rewrite E in E'. injection E' as <- <- <-.
  destruct (Stream_Write_api addr w _ buf offset rv1 h1 w1 Hok (ao_world w r A) Hp Ecl Hrg (ao_addr w r A)) as [Hk Hst]; [by split|done|].
  cbn [so_blob_id so_extent_size set_routers extent_router_mgr] in *. split.
  - apply (used_stream_kept w r i h rm); try done. congruence.
  - exists rm, (extent_router_mgr h1). split_and!; [done|done| |].
    + intros b x c Hd Hout. apply Hk; [done|]. intros Hb. split; [done|auto].
    + intros Hrv k Hk'. rewrite <- He. apply Hst; [|done]. by destruct (Z.eqb_spec rv1 CYPRE_OK).
Qed.

Lemma c_read_spec w r i h buf offset : api_ok w r -> streams r !! i = Some h -> req_range offset (slen buf) ->
  exists rv out r' w', c_read_blob w r (Some i) buf offset = Some (rv, out, r', w') /\
  api_ok w' r' /\ exists rm rm', cr_routers r = Some rm /\ cr_routers r' = Some rm' /\
    (forall b x c, api_byte addr w rm b es x = Some c -> api_byte addr w' rm' b es x = Some c) /\
    (rv = 0 -> slen out = slen buf /\ forall k c, 0 <= k < slen buf ->
       api_byte addr w rm (so_blob_id h) es (offset + k) = Some c -> byte_at out k = c).
Proof.
  intros A Hi Hrg. unfold c_read_blob, use_stream, read_blob. cbn [mbind option_bind].
  destruct (ao_routers w r A) as (rm & Hr & Hrm). rewrite Hr, Hi. cbn [mbind option_bind].
  destruct (ao_streams w r A i h Hi) as [_ Hh]. pose proof (handle_ok_routers h rm Hh) as (Hok & Hp & He & Hfl & Hc).
  destruct (isClosed_ h) eqn:Ecl.
  { unfold Stream_Read. cbn [isClosed_ set_routers]. rewrite Ecl. cbn. do 4 eexists. split; [done|]. split.
    - apply (used_stream_kept w r i h rm); try done; [apply A|by apply shared_keep].
    - exists rm, rm. by split_and!. }
  destruct (Stream_Read_full w _ buf offset Hok (ao_world w r A) Hp Ecl Hrg) as (rv1 & out & h1 & w1 & E & Hx & Hw1 & Hf1 & _).
  rewrite E. cbn. do 4 eexists. split; [done|].
  pose proof (Stream_Read_shared addr w _ buf offset rv1 out h1 w1 Hok Hrg E) as Hsh.
  destruct (Stream_Read_api addr w _ buf offset rv1 out h1 w1 Hok (ao_world w r A) Hp Ecl Hrg (ao_addr w r A)) as (Hk & Hl & Hd); [by split|done|].
  cbn [so_blob_id so_extent_size set_routers extent_router_mgr] in *. split.
  - apply (used_stream_kept w r i h rm); try done. congruence.
  - exists rm, (extent_router_mgr h1). split_and!; [done|done|intros; by apply Hk|].
    intros Hrv. split; [done|]. rewrite <- He. apply Hd. by destruct (Z.eqb_spec rv1 CYPRE_OK).
Qed.

Lemma api_step_kept b lo n s s' : 4096 <= es < 4294967296 -> no_dot b = true -> api_ok s.1 s.2 -> api_step b lo n s s' ->
  api_ok s'.1 s'.2 /\ range_kept b lo n s s'.
Proof.
  intros Hes Hdot A Hs. destruct Hs as [w r blob_id reply blob r' Hd Hsh Hrep E|w r blob blob' r' E|
    w r i h buf offset rv r' w' Hi Hrg Hout E|w r i buf offset rv out r' w' Hrg E]; cbn [fst snd] in *.
  - destruct (open_blob_ok w r blob_id reply blob r') as [A' Hr]; [done..|]. split; [done|].
    intros rm x c. cbn. rewrite Hr. eauto.
  - destruct (close_blob_ok w r blob blob' r' A E) as (A' & Hr & _). split; [done|]. intros rm x c. cbn. rewrite Hr. eauto.
  - destruct (c_write_spec w r i h buf offset rv r' w' A Hi Hrg E) as (A' & rm & rm' & Hr & Hr' & Hk & _).
    split; [done|]. intros rm0 x c Hr0 Hx Hb. cbn in *. rewrite Hr in Hr0. injection Hr0 as <-. exists rm'. split; [done|].
    apply Hk; [done| |done]. intros ->. destruct Hout as [|Hout]; [done|lia].
  - assert (Hi : exists h, streams r !! i = Some h).
    { revert E. unfold c_read_blob, use_stream. cbn [mbind option_bind]. destruct (cr_routers r); [|done]. cbn.
      destruct (streams r !! i); [by eexists|done]. }
    destruct Hi as [h Hi]. destruct (c_read_spec w r i h buf offset A Hi Hrg) as (? & ? & ? & ? & E' & A' & rm & rm' & Hr & Hr' & Hk & _).
    rewrite E in E'. injection E' as <- <- <- <-. split; [done|]. intros rm0 x c Hr0 Hx Hb. cbn in *. rewrite Hr in Hr0.
    injection Hr0 as <-. eauto.
Qed.

Lemma api_run_kept b lo n s s' : 4096 <= es < 4294967296 -> no_dot b = true -> rtc (api_step b lo n) s s' ->
  api_ok s.1 s.2 -> api_ok s'.1 s'.2 /\ range_kept b lo n s s'.
Proof.
  intros Hes Hd. induction 1 as [s|s s1 s2 Hs _ IH]; intros A; [split; [done|]; intros rm x c; eauto|].
  destruct (api_step_kept b lo n s s1 Hes Hd A Hs) as [A1 K1]. destruct (IH A1) as [A2 K2]. split; [done|].
  intros rm x c Hr Hx Hb. destruct (K1 rm x c Hr Hx Hb) as (rm1 & Hr1 & Hb1). eauto.
Qed.

(** C12: what a program wrote to a blob through one handle is what it reads
    through any other handle on that blob: after [write_blob] returned 0, and
    after opening and closing handles, reading, and writing elsewhere, in any
    order and with any result, a read of any part of the range returns, and if
    it returns 0 the buffer has the bytes that were written. *)
Theorem handles_share_blob b lo n w r i h buf offset w1 r1 w2 r2 j hj rbuf :
  4096 <= es < 4294967296 -> api_ok w r -> streams r !! i = Some h -> so_blob_id h = b ->
  req_range offset (slen buf) -> c_write_blob w r (Some i) buf offset = Some (0, r1, w1) ->
  offset <= lo -> lo + n <= offset + slen buf -> slen rbuf = n -> req_range lo n ->
  rtc (api_step b lo n) (w1, r1) (w2, r2) ->
  streams r2 !! j = Some hj -> so_blob_id hj = b ->
  exists rv out r3 w3, c_read_blob w2 r2 (Some j) rbuf lo = Some (rv, out, r3, w3) /\ api_ok w3 r3 /\
    (rv = 0 -> out = slice buf (lo - offset) n).
Proof.
  intros Hes A Hi <- Hrg E Hlo Hhi <- Hrr Hrun Hj Hb. pose proof Hrr as (Hr0 & Hrl & _).
  assert (Hdot : no_dot (so_blob_id h) = true) by (apply (ao_streams w r A i h Hi)).
  destruct (c_write_spec w r i h buf offset 0 r1 w1 A Hi Hrg E) as (A1 & rm & rm1 & _ & Hr1 & _ & Hst).
  destruct (api_run_kept _ _ _ _ _ Hes Hdot Hrun A1) as [A2 K]. cbn [fst snd] in *.
  destruct (c_read_spec w2 r2 j hj rbuf lo A2 Hj Hrr) as (rv & out & r3 & w3 & E3 & A3 & rm2 & rm3 & Hr2 & _ & _ & Hd).
  exists rv, out, r3, w3. split_and!; [done|done|]. intros Hrv. destruct (Hd Hrv) as [Hl Hdata]. apply string_ext.
  - rewrite Hl, slen_slice; lia.
  - intros k Hk. rewrite Hl in Hk. rewrite byte_at_slice by lia. apply Hdata; [done|]. rewrite Hb.
    assert (Hx : api_byte addr w1 rm1 (so_blob_id h) es (lo + k) = Some (byte_at buf (lo - offset + k))).
    { replace (lo + k) with (offset + (lo - offset + k)) by lia. apply Hst; [done|lia]. }
    destruct (K rm1 (lo + k) _ Hr1 ltac:(lia) Hx) as (rm2' & Hr2' & Hx2). cbn in Hr2'. rewrite Hr2 in Hr2'.
    by injection Hr2' as <-.
Qed.
End Programs.

(** ** The object's life *)

(** A new object is ready for the programs of [handles_share_blob]. *)
Lemma open_cyprerbd_ok `{EsLaws W} `{!EsRouterLaws W} addr es (w : W) affinity channel senders ip port r :
  es_ok w -> addressed addr w -> open_cyprerbd affinity channel senders ip port = Some (Some r) -> api_ok addr es w r.
Proof.
  intros Hw Ha. unfold open_cyprerbd. destruct (ClusterRBD_Init _ _ _ _ _) as [rv r0] eqn:E.
  destruct (rv =? CYPRE_OK) eqn:Eo; cbn [negb]; [|destruct (Finalize r0) as [[? ?]|]; done]. intros [= <-]. revert E.
  unfold ClusterRBD_Init. destruct (affinity =? 0); cbn [negb]; [|intros [= <- _]; done].
  destruct (channel =? 0); cbn [negb]; [|intros [= <- _]; done]. intros [= _ <-]. split; cbn; try done.
  - by eexists.
  - constructor.
  - intros i. split; [intros Hi; by apply not_elem_of_nil in Hi|by intros (? & ? & _)].
Qed.

Lemma Finalize_loop_closes addr es (t : list nat) : forall r rv,
  (forall i h, streams r !! i = Some h -> handle_ok addr es h) -> Forall (fun i => is_Some (streams r !! i)) t -> rv = CYPRE_OK ->
  exists r', Finalize_loop r rv t = Some (CYPRE_OK, r') /\ stream_table_ r' = stream_table_ r /\
    (forall i h, streams r' !! i = Some h -> (i ∈ t \/ (exists h0, streams r !! i = Some h0 /\ isClosed_ h0 = true)) -> isClosed_ h = true).
Proof.
  induction t as [|i t IH]; intros r rv Hs Ht ->; cbn [Finalize_loop].
  - eexists. split; [done|]. split; [done|]. intros i h Hi [Hin|(h0 & Hh0 & Hc)]; [by apply not_elem_of_nil in Hin|congruence].
  - apply Forall_cons in Ht as [[h Hi] Ht]. rewrite Hi. cbn [mbind option_bind].
    destruct (handle_closes addr es h (Hs i h Hi)) as (h' & -> & Hc' & Hh'). cbn [mbind option_bind]. rewrite Z.eqb_refl. cbn [negb].
    destruct (IH (with_stream r i h') CYPRE_OK) as (r' & -> & Htab & Hall).
    + cbn. intros j k [[<- <-]|[_ Hj]]%lookup_insert_Some; [done|eauto].
    + eapply Forall_impl; [exact Ht|]. cbn. intros j [k Hj]. destruct (decide (j = i)) as [->|]; [by rewrite lookup_insert_eq; eexists|].
      rewrite lookup_insert_ne by done. by eexists.
    + done.
    + exists r'. split; [done|]. split; [done|]. intros j k Hj Hor. apply (Hall j k Hj).
      destruct (decide (j = i)) as [->|Hd]; [right; exists h'; cbn; by rewrite lookup_insert_eq|].
      destruct Hor as [[?|Hin]%elem_of_cons|(h0 & Hh0 & Hc0)]; [done|by left|]. right. exists h0. cbn.
      by rewrite lookup_insert_ne by done.
Qed.

(** [Finalize] returns and leaves no handle open. *)
Lemma Finalize_closes `{EsLaws W} addr es (w : W) r : api_ok addr es w r ->
  exists r', Finalize r = Some (CYPRE_OK, r') /\ stream_table_ r' = [] /\
    forall i h, streams r' !! i = Some h -> (exists h0, streams r !! i = Some h0) -> isClosed_ h = true.
Proof.
  intros A. unfold Finalize. cbn [stream_table_].
  destruct (Finalize_loop_closes addr es (stream_table_ r)
    (mkClusterRBD (cr_options r) false None false (stream_table_ r) (streams r) (next_stream r)) CYPRE_OK) as (r' & -> & _ & Hall).
  - cbn. intros i h Hi. apply (ao_streams addr es w r A i h Hi).
  - cbn. apply Forall_forall. intros i Hi. apply (ao_table addr es w r A) in Hi as (h & -> & _). by eexists.
  - done.
  - cbn. eexists. split; [done|]. split; [done|]. cbn. intros i h Hi (h0 & Hh0). apply (Hall i h Hi). cbn.
    destruct (isClosed_ h0) eqn:Ec; [right; eauto|]. left. apply (ao_table addr es w r A). eauto.
Qed.

(** ** Completions *)

(** [aio_completion]; a field that was never set is [None]. *)
Record AioCompletion : Type := mkAioCompletion { is_done : option bool; aio_rc : option Z }.

Definition aio_create_completion : AioCompletion := mkAioCompletion None None.
Definition aio_inner_cb (c : AioCompletion) (rc : Z) : AioCompletion := mkAioCompletion (Some true) (Some rc).

(** [None]: the field is read before it was set. *)
Definition aio_is_complete (c : AioCompletion) : option bool := is_done c.
Definition aio_is_success (c : AioCompletion) : option bool := (fun rc => rc =? CYPRE_OK) <$> aio_rc c.

Section Aio.
Context `{EsRpc W} `{Crc32c}.
Implicit Types (w : W) (r : ClusterRBD).

(** [aio_read_blob] and [aio_write_blob]: the code, the request and the
    completion when the call returns. *)
Definition aio_blob w r (blob : option nat) (buf : string) (offset : Z) (c : option AioCompletion)
  : option (Z * option (AsyncIo W) * option AioCompletion) :=
  match c with
  | None => Some (-1, None, None)
  | Some c =>
      i ← blob; h ← use_stream r i;
      '(rv, a) ← AsyncIo_issue w h buf offset;
      let c := foldl aio_inner_cb (mkAioCompletion (Some false) (aio_rc c)) (a_calls a) in
      Some (if negb (rv =? CYPRE_OK) then -1 else 0, Some a, Some c)
  end.

(** The completion once the callbacks of the request ran. *)
Definition aio_after (c : AioCompletion) (a : AsyncIo W) : AioCompletion :=
  foldl aio_inner_cb (mkAioCompletion (Some false) (aio_rc c)) (a_calls a).

(** A completion is done exactly when the request was called back, and has the
    code of the callback. *)
Lemma aio_after_calls c (a : AsyncIo W) st :
  (a_calls a = [] -> aio_is_complete (aio_after c a) = Some false) /\
  (a_calls a = [st] -> aio_is_complete (aio_after c a) = Some true /\ aio_is_success (aio_after c a) = Some (st =? CYPRE_OK)).
Proof. unfold aio_after. by split; intros ->. Qed.
End Aio.

(** ** On the extent servers *)

#[global] Instance Cluster_router_laws `{SpaceManagerLaws A} `{RocksDBLaws DB} `{Crc32c} `{BDevLaws D} :
  EsRouterLaws (Cluster A DB D).
Proof.
  split; cbn.
  - intros w tgt m data r w' id E. by rewrite (call_routers _ _ _ _ _ _ E).
  - intros w tgt m r w' id E. by rewrite (call_routers _ _ _ _ _ _ E).
Qed.

#[local] Existing Instance demo_crc.

Definition api_addr (_ : Z) : string := "10.0.0.1:80".
Definition api_reply : QueryBlobReply := QbReplied 0 "bb-a" 4194304 1048576.

(** An object with two handles on one blob. *)
Definition api_new : ClusterRBD :=
  match open_cyprerbd 0 0 0 "10.0.0.9" 8000 with Some (Some r) => r | _ => CypreClusterRBD_new end.
Definition api_open1 : ClusterRBD := default api_new (snd <$> open_blob api_new "bb-a" api_reply).
Definition api_demo : ClusterRBD := default api_new (snd <$> open_blob api_open1 "bb-a" api_reply).

Lemma api_demo_addressed : addressed api_addr e2e_cluster.
Proof. intros id r. cbn. by intros [= <-]. Qed.

Lemma api_demo_ok : api_ok api_addr 1048576 e2e_cluster api_demo.
Proof.
  assert (A0 : api_ok api_addr 1048576 e2e_cluster api_new).
  { apply (open_cyprerbd_ok _ _ _ 0 0 0 "10.0.0.9" 8000); [exact e2e_cluster_ok|exact api_demo_addressed|reflexivity]. }
  assert (Hstep : forall r r' blob, api_ok api_addr 1048576 e2e_cluster r -> open_blob r "bb-a" api_reply = Some (blob, r') ->
    api_ok api_addr 1048576 e2e_cluster r').
  { intros r r' blob Ar E. apply (open_blob_ok api_addr 1048576 _ r "bb-a" api_reply blob r'); try done.
    by intros code id size es' [= _ _ _ <-]. }
  apply (Hstep api_open1 _ (Some 1%nat)); [|reflexivity]. apply (Hstep api_new _ (Some 0%nat)); [exact A0|reflexivity].
Qed.

Definition api_pick (x : option (Z * ClusterRBD * Cluster SpaceAlloc MemDB MemDisk)) :=
  default (api_demo, e2e_cluster) ((fun y => (y.1.2, y.2)) <$> x).
Definition api_written := api_pick (c_write_blob e2e_cluster api_demo (Some 0%nat) e2e_buf 1044480).
Definition api_closed : ClusterRBD := default api_demo (snd <$> close_blob api_written.1 (Some 0%nat)).

Lemma api_run x : match x with Some (rv, _, _) => rv | None => 1 end = 0 -> x = Some (0, (api_pick x).1, (api_pick x).2).
Proof. destruct x as [[[rv r] w]|]; [by intros ->|done]. Qed.

(** The first handle writes and is closed; the second reads. *)
Lemma handles_share_blob_witness :
  exists rv out r3 w3, c_read_blob api_written.2 api_closed (Some 1%nat) (repeat_char "z" 4096) 1048576 = Some (rv, out, r3, w3) /\
    (rv = 0 -> out = repeat_char "b" 4096).
Proof.
  assert (Hi : exists h, streams api_demo !! 0%nat = Some h /\ so_blob_id h = "bb-a") by (vm_compute; eexists; split; reflexivity).
  destruct Hi as (h & Hi & Hb).
  assert (Hj : exists h, streams api_closed !! 1%nat = Some h /\ so_blob_id h = "bb-a") by (vm_compute; eexists; split; reflexivity).
  destruct Hj as (hj & Hj & Hbj).
  destruct (handles_share_blob api_addr 1048576 "bb-a" 1048576 4096 e2e_cluster api_demo 0 h e2e_buf 1044480 api_written.2 api_written.1
    api_written.2 api_closed 1 hj (repeat_char "z" 4096)) as (rv & out & r3 & w3 & E & _ & Hout).
  - lia.
  - exact api_demo_ok.
  - exact Hi.
  - exact Hb.
  - exact e2e_range.
  - apply api_run. vm_compute; reflexivity.
  - lia.
  - vm_compute; discriminate.
  - vm_compute; reflexivity.
  - unfold req_range, u64_max; lia.
  - apply rtc_once. apply (api_close _ _ _ _ _ _ (Some 0%nat) None).
    assert (Hc : match close_blob api_written.1 (Some 0%nat) with Some (None, _) => true | _ => false end = true) by (vm_compute; reflexivity).
    unfold api_closed. destruct (close_blob api_written.1 (Some 0%nat)) as [[[?|] ?]|]; [discriminate|reflexivity|discriminate].
  - exact Hj.
  - exact Hbj.
  - exists rv, out, r3, w3. split; [exact E|]. intros Hrv. rewrite (Hout Hrv). vm_compute. reflexivity.
Defined.

(** A request of two parts, the second of which has no server: [aio_write_blob]
    returns -1, and its completion is written to later all the same, when the
    caller may have released it. *)
Definition half_cluster : Cluster SpaceAlloc MemDB MemDisk :=
  mkCluster (fun id => if String.eqb id "bb-a.1" then RpcReply 0 (Some demo_router) else RpcFailed)
    (c_nodes e2e_cluster) (c_chances e2e_cluster).

Lemma aio_refused_still_completes : exists a a',
  (fst <$> aio_blob half_cluster api_demo (Some 0%nat) e2e_buf 1044480 (Some aio_create_completion)) = Some (-1, Some a) /\
  aio_is_complete (aio_after aio_create_completion a) = Some false /\
  async_step false 1044480 true a a' /\ aio_is_complete (aio_after aio_create_completion a') = Some true.
Proof.
  destruct (aio_blob half_cluster api_demo (Some 0%nat) e2e_buf 1044480 (Some aio_create_completion)) as [[[rv [a|]] c]|] eqn:E.
  2, 3: apply (f_equal (fun x => match x with Some (_, Some _, _) => true | _ => false end)) in E; vm_compute in E; discriminate.
  exists a, (e2e_answer 0 a).
  assert (Hrv : rv = -1) by (apply (f_equal (fun x => match x with Some (z, _, _) => z | _ => 1 end)) in E; vm_compute in E; congruence).
  assert (Ha : a = match aio_blob half_cluster api_demo (Some 0%nat) e2e_buf 1044480 (Some aio_create_completion) with
    | Some (_, Some a, _) => a | _ => a end) by (by rewrite E).
  subst rv. split; [reflexivity|]. clear E. rewrite Ha. split; [vm_compute; reflexivity|]. split.
  - apply e2e_answer_step. vm_compute. discriminate.
  - vm_compute. reflexivity.
Qed.
