(* ===== verification/Scrub.v ===== *)
(** * Scrub

    The tool that compares the replicas of a blob (src/tools/cypretool/scrub.h
    and scrub.cpp), on the extent servers of ClientServer.v: what the tool asks
    is answered by the servers' own [Scrub] handler, location table and device
    worker. *)

From Stdlib Require Import Ascii.
From S2P Require Import Prelude Status Bitmap Allocator Codec KvStore ExtentLocation Net StorageEngine IoService.
From S2P Require Import Client ClientTheorems ClientServer.

#[local] Open Scope string_scope.
#[local] Open Scope Z_scope.

(** ** The tool *)

(** The calls of the tool; an answer is the code and what the tool reads of
    the message, or [None] when the call failed. *)
Class ScrubEnv (W : Type) := {
  sc_query_blob : W -> string -> option (Z * (Z * Z));
  sc_query_router : W -> string -> QueryRouterReply;
  sc_channel_ok : W -> string -> bool;
  sc_scrub : W -> string -> string -> Z -> Z -> IoReply * W
}.

Definition scrub_block_size : Z := Z.shiftl 4 10.

Section Tool.
Context `{ScrubEnv W}.
Implicit Types w : W.

(** The blob's size and the extent size. *)
Definition scrub_queryBlob w (blob_id : string) : option (Z * Z) :=
  match sc_query_blob w blob_id with
  | None => None
  | Some (code, sizes) => if negb (code =? 0) then None else Some sizes
  end.

(** A router that the answer does not have is the default message. *)
Definition no_instance : ESInstance := mkESInstance 0 "" 0 "" 0.
Definition scrub_queryRouter w (extent_id : string) : option PbRouter :=
  match sc_query_router w extent_id with
  | RpcFailed => None
  | RpcReply code router => if negb (code =? 0) then None else Some (default (mkPbRouter no_instance []) router)
  end.

Fixpoint getConns_loop w (pool : ConnectionPool) (es : list ESInstance) (conns : list Connection)
  : option (list Connection) * ConnectionPool :=
  match es with
  | [] => (Some conns, pool)
  | e :: es' =>
      match GetConnection (sc_channel_ok w) pool (public_ip e) (public_port e) with
      | (None, pool) => (None, pool)
      | (Some conn, pool) => getConns_loop w pool es' (conns ++ [conn])
      end
  end.

Definition getConns w (pool : ConnectionPool) (router : PbRouter) : option (list Connection) * ConnectionPool :=
  getConns_loop w pool (pb_primary router :: pb_secondaries router) [].

(** The calls are all started before the first is joined. *)
Fixpoint scrub_calls w (conns : list Connection) (extent_id : string) (offset : Z) : list IoReply * W :=
  match conns with
  | [] => ([], w)
  | conn :: conns' =>
      let '(r, w) := sc_scrub w (conn_target conn) extent_id offset scrub_block_size in
      let '(rs, w) := scrub_calls w conns' extent_id offset in
      (r :: rs, w)
  end.

(** The joins: the set of checksums, [None] at the first call without one. *)
Fixpoint scrub_joins (rs : list IoReply) (crc : gset Z) : option (gset Z) :=
  match rs with
  | [] => Some crc
  | IoFailed :: _ => None
  | IoReplied code _ c :: rs' => if negb (code =? 0) then None else scrub_joins rs' ({[ default 0 c ]} ∪ crc)
  end.

(** The loop over the blocks of an extent: 0 or -1.  [None]: the loop does not
    end. *)
Fixpoint doVerify_loop (fuel : nat) w (conns : list Connection) (extent_id : string) (extent_size offset : Z)
  : option (Z * W) :=
  if negb (offset <? extent_size) then Some (0, w)
  else
    match fuel with
    | O => None
    | S fuel' =>
        let '(rs, w) := scrub_calls w conns extent_id offset in
        match scrub_joins rs ∅ with
        | None => Some (-1, w)
        | Some crc =>
            if negb (Z.of_nat (size crc) =? 1) then Some (-1, w)
            else doVerify_loop fuel' w conns extent_id extent_size (wrap64 (offset + scrub_block_size))
        end
    end.

Definition doVerify (fuel : nat) w (pool : ConnectionPool) (extent_id : string) (router : PbRouter) (extent_size : Z)
  : option (Z * ConnectionPool * W) :=
  match getConns w pool router with
  | (None, pool) => Some (-1, pool, w)
  | (Some conns, pool) => '(r, w) ← doVerify_loop fuel w conns extent_id extent_size 0; Some (r, pool, w)
  end.

(** The loop over the extents; the counter has 32 bits. *)
Fixpoint Verify_loop (fuel : nat) (fuel_blocks : nat) w (pool : ConnectionPool) (blob_id : string)
    (extent_size count i : Z) : option (Z * W) :=
  if negb (i <=? count) then Some (0, w)
  else
    match fuel with
    | O => None
    | S fuel' =>
        let extent_id := blob_id +:+ "." +:+ dec i in
        match scrub_queryRouter w extent_id with
        | None => Some (-1, w)
        | Some router =>
            '(r, pool, w) ← doVerify fuel_blocks w pool extent_id router extent_size;
            if negb (r =? 0) then Some (-1, w)
            else Verify_loop fuel' fuel_blocks w pool blob_id extent_size count (wrap32 (i + 1))
        end
    end.

(** [None]: a division by an extent size of 0, or a loop that does not end. *)
Definition Verify (fuel fuel_blocks : nat) w (blob_id : string) : option (Z * W) :=
  match scrub_queryBlob w blob_id with
  | None => Some (-1, w)
  | Some (blob_size, extent_size) =>
      if extent_size =? 0 then None
      else
        let count := wrap32 (blob_size / extent_size) in
        Verify_loop fuel fuel_blocks w (mkConnectionPool ∅ 0) blob_id extent_size count 1
  end.
End Tool.

(** ** What the tool relies on *)

(** [block_is view off s]: the bytes at [off] are the block [s].  A scrub changes no stored byte, and an answer without
    error is the checksum of the stored block.  [sc_answers w size]: calls to a
    server for a block that it stores, in an extent of this size, do not fail. *)
Definition block_is (view : Z -> option ascii) (off : Z) (s : string) : Prop :=
  slen s = scrub_block_size /\ forall i, 0 <= i < scrub_block_size -> view (off + i) = Some (byte_at s i).

Class ScrubLaws (W : Type) `{ScrubEnv W} `{Crc32c} := {
  sc_ok : W -> Prop;
  sc_byte : W -> string -> string -> Z -> option ascii;
  sc_id_ok : string -> Prop;
  sc_scrub_law : forall w tgt id off r w', sc_ok w -> sc_id_ok id -> 0 <= off -> off + scrub_block_size <= u64_max ->
    sc_scrub w tgt id off scrub_block_size = (r, w') ->
    sc_ok w' /\ (forall tgt' id' x, sc_byte w' tgt' id' x = sc_byte w tgt' id' x) /\
    (forall id', sc_query_router w' id' = sc_query_router w id') /\
    (forall data c, r = IoReplied 0 data c ->
       exists s, block_is (sc_byte w tgt id) off s /\ c = Some (Crc32_Checksum s));
  sc_answers : W -> Z -> Prop;
  sc_answers_law : forall w size tgt id off s, sc_ok w -> sc_answers w size -> sc_id_ok id -> 0 <= off ->
    off mod scrub_block_size = 0 -> off + scrub_block_size <= size -> size <= u64_max - scrub_block_size ->
    block_is (sc_byte w tgt id) off s ->
    sc_channel_ok w tgt = true /\
    exists data c w', sc_scrub w tgt id off scrub_block_size = (IoReplied 0 data c, w') /\ sc_answers w' size
}.

(** The replicas of a block that have one checksum. *)
Definition replica_target (e : ESInstance) : string := get_connection_id (public_ip e) (public_port e).

Section Theorems.
Context `{ScrubLaws W}.
Implicit Types w : W.

Definition one_checksum w (id : string) (off : Z) (tgts : list string) : Prop :=
  exists crc, Forall (fun tgt => exists s, block_is (sc_byte w tgt id) off s /\ Crc32_Checksum s = crc) tgts.

(** Worlds that differ in what a scrub may change only. *)
Definition same_world w w' : Prop :=
  sc_ok w' /\ (forall tgt id x, sc_byte w' tgt id x = sc_byte w tgt id x) /\
  (forall id, sc_query_router w' id = sc_query_router w id).

Lemma same_world_refl w : sc_ok w -> same_world w w.
Proof. done. Qed.

Lemma same_world_trans w1 w2 w3 : same_world w1 w2 -> same_world w2 w3 -> same_world w1 w3.
Proof. intros (_ & Hb & Hr) (Ho & Hb' & Hr'). split_and!; [done|intros; by rewrite Hb', Hb|intros; by rewrite Hr', Hr]. Qed.

Lemma block_is_ext w w' tgt id off s :
  same_world w w' -> block_is (sc_byte w' tgt id) off s -> block_is (sc_byte w tgt id) off s.
Proof. intros (_ & Hb & _) [Hl Hs]. split; [done|]. intros i Hi. rewrite <- Hb. by apply Hs. Qed.

(** The targets of pooled connections are their keys. *)
Definition pool_ok (pool : ConnectionPool) : Prop := map_Forall (fun id c => conn_target c = id) (connection_pool_ pool).

Lemma getConns_loop_spec w es : forall pool conns r pool', pool_ok pool ->
  getConns_loop w pool es conns = (r, pool') ->
  pool_ok pool' /\ (forall cs, r = Some cs -> conn_target <$> cs = ((conn_target <$> conns) ++ (replica_target <$> es))%list) /\
  (Forall (fun a => sc_channel_ok w a = true) (replica_target <$> es) -> r <> None).
Proof.
  induction es as [|e es IH]; intros pool conns r pool' Hp; cbn [getConns_loop].
  - intros [= <- <-]. split_and!; [done| |done]. intros cs [= <-]. by rewrite app_nil_r.
  - assert (Hg : forall c p, GetConnection (sc_channel_ok w) pool (public_ip e) (public_port e) = (c, p) ->
      pool_ok p /\ (forall conn, c = Some conn -> conn_target conn = replica_target e) /\
      (sc_channel_ok w (replica_target e) = true -> c <> None)).
    { unfold GetConnection. intros c p. destruct (connection_pool_ pool !! _) as [conn|] eqn:E.
      - intros [= <- <-]. split_and!; [done| |done]. intros ? [= <-]. by apply (Hp _ _ E).
      - destruct (sc_channel_ok w _) eqn:Ec; cbn [negb]; intros [= <- <-]; split_and!; try done;
          [by apply map_Forall_insert_2|by intros ? [= <-]]. }
    destruct (GetConnection _ _ _ _) as [[conn|] p] eqn:E; destruct (Hg _ _ eq_refl) as (Hp' & Ht & Ha);
      [|intros [= <- <-]; split_and!; [done|done|intros [Hall _]%Forall_cons; by destruct (Ha Hall)]].
    intros Hl. apply IH in Hl as (Hp2 & Hc & Hn); [|done]. split_and!; [done| |by intros [_ Hall]%Forall_cons; apply Hn].
    intros cs Hcs. rewrite (Hc cs Hcs), fmap_app.
    cbn. rewrite (Ht conn eq_refl), <- app_assoc. done.
Qed.

Lemma scrub_calls_spec id off conns : sc_id_ok id -> 0 <= off -> off + scrub_block_size <= u64_max ->
  forall w rs w', sc_ok w -> scrub_calls w conns id off = (rs, w') ->
  same_world w w' /\
  Forall2 (fun conn r => forall data c, r = IoReplied 0 data c ->
    exists s, block_is (sc_byte w (conn_target conn) id) off s /\ c = Some (Crc32_Checksum s)) conns rs.
Proof.
  intros Hid Hlo Hhi. induction conns as [|conn conns IH]; intros w rs w' Hw; cbn [scrub_calls].
  - intros [= <- <-]. split; [by apply same_world_refl|constructor].
  - destruct (sc_scrub w _ id off _) as [r w1] eqn:E. destruct (scrub_calls w1 conns id off) as [rs1 w2] eqn:E2.
    intros [= <- <-]. apply sc_scrub_law in E as (Hw1 & Hb & Hr & Hc); [|done..].
    assert (S1 : same_world w w1) by done. apply IH in E2 as [S2 Hf]; [|done].
    split; [by eapply same_world_trans|]. constructor; [done|].
    eapply Forall2_impl; [exact Hf|]. cbn. intros c1 r1 Hr1 data c Eq. destruct (Hr1 data c Eq) as (s & Hs & ->).
    exists s. split; [by apply (block_is_ext w w1)|done].
Qed.

(** One checksum is in the set exactly when every answer has it. *)
Lemma scrub_joins_spec rs : forall crc0 crc, scrub_joins rs crc0 = Some crc ->
  crc0 ⊆ crc /\ Forall (fun r => exists data c, r = IoReplied 0 data c /\ default 0 c ∈ crc) rs.
Proof.
  induction rs as [|r rs IH]; intros crc0 crc; cbn [scrub_joins]; [by intros [= <-]|].
  destruct r as [|code data c]; [done|]. destruct (Z.eqb_spec code 0) as [->|]; cbn [negb]; [|done].
  intros E. apply IH in E as [Hs Hf]. split; [set_solver|]. constructor; [|done]. exists data, c. split; [done|set_solver].
Qed.

Lemma block_verified id off conns w rs w' crc : sc_id_ok id -> 0 <= off -> off + scrub_block_size <= u64_max ->
  sc_ok w -> scrub_calls w conns id off = (rs, w') -> scrub_joins rs ∅ = Some crc -> size crc = 1%nat ->
  one_checksum w id off (conn_target <$> conns).
Proof.
  intros Hid Hlo Hhi Hw Hc Hj Hs. apply scrub_calls_spec in Hc as [_ Hf]; [|done..].
  apply scrub_joins_spec in Hj as [_ Hj]. apply size_1_elem_of in Hs as [x Hx]. exists x.
  apply Forall_fmap. clear -Hf Hj Hx. induction Hf as [|conn r conns rs Hr Hf IH]; [constructor|].
  apply Forall_cons in Hj as [(data & c & -> & Hin) Hj]. constructor; [|by apply IH].
  destruct (Hr data c eq_refl) as (s & Hs & ->). exists s. split; [done|]. cbn in Hin. set_solver.
Qed.

(** Servers that answer for extents of whole blocks, so that a result of -1 is
    about the data. *)
Definition answering w (extent_size : Z) : Prop :=
  sc_answers w extent_size /\ extent_size mod scrub_block_size = 0 /\ extent_size <= u64_max - scrub_block_size.

Lemma block_is_unique view off s s' : block_is view off s -> block_is view off s' -> s = s'.
Proof.
  intros [Hl Hs] [Hl' Hs']. apply string_ext; [congruence|]. intros i Hi. rewrite Hl in Hi.
  specialize (Hs i Hi). specialize (Hs' i Hi). congruence.
Qed.

Lemma scrub_joins_one x rs : Forall (fun r => exists data c, r = IoReplied 0 data c /\ default 0 c = x) rs ->
  forall crc0 : gset Z, crc0 ⊆ {[x]} -> rs <> [] \/ x ∈ crc0 -> scrub_joins rs crc0 = Some {[x]}.
Proof.
  induction 1 as [|r rs (data & c & -> & Hc) Hf IH]; intros crc0 Hs Hne; cbn [scrub_joins].
  - destruct Hne as [|Hin]; [done|]. f_equal. set_solver.
  - cbn [Z.eqb negb]. apply IH; rewrite Hc; set_solver.
Qed.

(** A block that starts before the end of whole blocks ends there at most. *)
Lemma block_within off size : off mod scrub_block_size = 0 -> off < size -> size mod scrub_block_size = 0 ->
  off + scrub_block_size <= size.
Proof.
  change scrub_block_size with 4096. intros Ho Hlt Hs. pose proof (Z.div_mod off 4096). pose proof (Z.div_mod size 4096). lia.
Qed.

Lemma block_next off : off mod scrub_block_size = 0 -> (off + scrub_block_size) mod scrub_block_size = 0.
Proof. intros Ho. rewrite <- (Z.mul_1_l scrub_block_size) at 1. by rewrite Z_mod_plus_full. Qed.

Lemma calls_agree id off conns x size : sc_id_ok id -> 0 <= off -> off mod scrub_block_size = 0 ->
  off + scrub_block_size <= size -> forall w rs w', sc_ok w -> answering w size ->
  Forall (fun tgt => exists s, block_is (sc_byte w tgt id) off s /\ Crc32_Checksum s = x) (conn_target <$> conns) ->
  scrub_calls w conns id off = (rs, w') ->
  length rs = length conns /\ Forall (fun r => exists data c, r = IoReplied 0 data c /\ default 0 c = x) rs /\
  answering w' size.
Proof.
  intros Hid Hlo Hal Hhi. induction conns as [|conn conns IH]; intros w rs w' Hw Ha Hf; cbn [scrub_calls].
  - intros [= <- <-]. by split_and!.
  - apply Forall_cons in Hf as [(s & Hs & Hx) Hf]. destruct Ha as (Ha & Hm & Hbig).
    destruct (sc_answers_law w size (conn_target conn) id off s) as (_ & data & c & w1 & E & Ha1); try done.
    rewrite E. destruct (scrub_calls w1 conns id off) as [rs1 w2] eqn:E2.
    intros [= <- <-]. apply sc_scrub_law in E as (Hw1 & Hb & _ & Hc); [|done|done|done|change scrub_block_size with 4096 in *; lia].
    destruct (Hc data c eq_refl) as (s' & Hs' & ->). rewrite (block_is_unique _ _ _ _ Hs' Hs).
    apply IH in E2 as (Hlen & Hall & Ha2); [|done|done|].
    + split_and!; [cbn; lia| |done]. constructor; [|done]. by exists data, (Some (Crc32_Checksum s)).
    + eapply Forall_impl; [exact Hf|]. cbn. intros tgt (s2 & [Hl2 Hs2] & Hx2). exists s2. split; [|done].
      split; [done|]. intros i Hi. rewrite Hb. by apply Hs2.
Qed.

Lemma block_agreed id off conns size w rs w' : sc_id_ok id -> 0 <= off -> off mod scrub_block_size = 0 -> off < size ->
  sc_ok w -> conns <> [] -> one_checksum w id off (conn_target <$> conns) -> scrub_calls w conns id off = (rs, w') ->
  answering w size -> (exists x, scrub_joins rs ∅ = Some {[x]}) /\ answering w' size.
Proof.
  intros Hid Hlo Hal Hlt Hw Hne (x & Hf) Hc Ha.
  assert (Hle : off + scrub_block_size <= size) by (apply block_within; [done..|apply Ha]).
  destruct (calls_agree id off conns x size Hid Hlo Hal Hle w rs w' Hw Ha Hf Hc) as (Hlen & Hall & Ha').
  split; [|done]. exists x. apply scrub_joins_one; [done|set_solver|left]. by destruct conns, rs.
Qed.

Definition blocks_ok w (id : string) (extent_size off : Z) (tgts : list string) : Prop :=
  forall k, 0 <= k -> off + k * scrub_block_size < extent_size -> one_checksum w id (off + k * scrub_block_size) tgts.

Lemma one_checksum_ext w w' id off tgts : same_world w w' -> one_checksum w' id off tgts -> one_checksum w id off tgts.
Proof.
  intros S (crc & Hf). exists crc. eapply Forall_impl; [exact Hf|]. intros tgt (s & Hs & Hc). exists s.
  split; [by apply (block_is_ext w w')|done].
Qed.

Lemma one_checksum_keep w w' id off tgts : same_world w w' -> one_checksum w id off tgts -> one_checksum w' id off tgts.
Proof.
  intros (_ & Hb & _) (crc & Hf). exists crc. eapply Forall_impl; [exact Hf|]. intros tgt (s & [Hl Hs] & Hc). exists s.
  split; [|done]. split; [done|]. intros i Hi. rewrite Hb. by apply Hs.
Qed.

(** The loop over the blocks ends, and 0 means that every block agrees. *)
Lemma doVerify_loop_spec id conns extent_size : sc_id_ok id -> extent_size <= u64_max - scrub_block_size ->
  forall fuel w off, sc_ok w -> 0 <= off -> off mod scrub_block_size = 0 -> extent_size <= off + Z.of_nat fuel * scrub_block_size ->
  exists r w', doVerify_loop fuel w conns id extent_size off = Some (r, w') /\ same_world w w' /\ (r = 0 \/ r = -1) /\
    (r = 0 -> blocks_ok w id extent_size off (conn_target <$> conns)) /\
    (answering w extent_size -> conns <> [] -> blocks_ok w id extent_size off (conn_target <$> conns) ->
       r = 0 /\ answering w' extent_size).
Proof.
  assert (Hbs : scrub_block_size = 4096) by done.
  intros Hid Hbig. induction fuel as [|fuel IH]; intros w off Hw Hlo Hal Hf; cbn [doVerify_loop].
  - destruct (Z.ltb_spec off extent_size) as [|Hge]; [lia|]. cbn [negb]. exists 0, w. split_and!; [done|by apply same_world_refl|auto| |done].
    intros _ k Hk Hlt. lia.
  - destruct (Z.ltb_spec off extent_size) as [Hlt|Hge]; cbn [negb].
    2: { exists 0, w. split_and!; [done|by apply same_world_refl|auto| |done]. intros _ k Hk Hlt. lia. }
    destruct (scrub_calls w conns id off) as [rs w1] eqn:Ec.
    destruct (scrub_calls_spec id off conns Hid Hlo ltac:(lia) w rs w1 Hw Ec) as [S1 _].
    assert (Hgood : answering w extent_size -> conns <> [] -> blocks_ok w id extent_size off (conn_target <$> conns) ->
              (exists x, scrub_joins rs ∅ = Some {[x]}) /\ answering w1 extent_size).
    { intros Ha Hne Hb. eapply block_agreed; [done..| |done|done]. specialize (Hb 0 ltac:(lia)).
      rewrite Z.mul_0_l, Z.add_0_r in Hb. by apply Hb. }
    destruct (scrub_joins rs ∅) as [crc|] eqn:Ej.
    2: { exists (-1), w1. split_and!; [done|done|auto|done|]. intros Ha Hne Hb. by destruct (Hgood Ha Hne Hb) as [[x ?] _]. }
    destruct (Z.eqb_spec (Z.of_nat (size crc)) 1) as [Hs|Hs]; cbn [negb].
    2: { exists (-1), w1. split_and!; [done|done|auto|done|]. intros Ha Hne Hb.
         destruct (Hgood Ha Hne Hb) as [(x & [= ->]) _]. by rewrite size_singleton in Hs. }
    assert (Hone : one_checksum w id off (conn_target <$> conns)).
    { eapply block_verified; [done|done|lia|done|done|done|lia]. }
    rewrite wrap64_small by (unfold is_u64; lia).
    destruct (IH w1 (off + scrub_block_size)) as (r & w2 & -> & S2 & Hr & Hall & Hback); [apply S1|lia|by apply block_next|lia|].
    exists r, w2. split_and!; [done|by eapply same_world_trans|done| |].
    + intros Hr0 k Hk Hlt'. destruct (decide (k = 0)) as [->|]; [by rewrite Z.mul_0_l, Z.add_0_r|].
      apply (one_checksum_ext w w1); [done|].
      replace (off + k * scrub_block_size) with (off + scrub_block_size + (k - 1) * scrub_block_size) by lia.
      apply Hall; [done|lia|lia].
    + intros Ha Hne Hb. apply Hback; [by apply (Hgood Ha Hne Hb)|done|]. intros k Hk Hlt'. apply (one_checksum_keep w w1); [done|].
      replace (off + scrub_block_size + k * scrub_block_size) with (off + (k + 1) * scrub_block_size) by lia. apply Hb; lia.
Qed.

Definition replicas (router : PbRouter) : list string := replica_target <$> (pb_primary router :: pb_secondaries router).

Lemma replicas_reached w id extent_size tgts : sc_ok w -> sc_id_ok id -> 0 < extent_size -> answering w extent_size ->
  blocks_ok w id extent_size 0 tgts -> Forall (fun a => sc_channel_ok w a = true) tgts.
Proof.
  intros Hw Hid Hpos (Ha & Hm & Hbig) Hb. destruct (Hb 0) as (x & Hf); [lia|lia|].
  eapply Forall_impl; [exact Hf|]. cbn. intros tgt (s & Hs & _).
  apply (sc_answers_law w extent_size tgt id 0 s); try done. by apply (block_within 0).
Qed.

Lemma doVerify_spec fuel w pool id router extent_size : sc_id_ok id -> 0 < extent_size <= u64_max - scrub_block_size ->
  sc_ok w -> pool_ok pool -> extent_size <= Z.of_nat fuel * scrub_block_size ->
  exists r pool' w', doVerify fuel w pool id router extent_size = Some (r, pool', w') /\ pool_ok pool' /\
    same_world w w' /\ (r = 0 \/ r = -1) /\ (r = 0 -> blocks_ok w id extent_size 0 (replicas router)) /\
    (answering w extent_size -> blocks_ok w id extent_size 0 (replicas router) -> r = 0 /\ answering w' extent_size).
Proof.
  intros Hid [Hpos Hbig] Hw Hp Hf. unfold doVerify, getConns.
  destruct (getConns_loop _ _ _ _) as [[conns|] pool'] eqn:E; apply getConns_loop_spec in E as (Hp' & Hc & Hn); try done.
  2: { exists (-1), pool', w. split_and!; [done|done|by apply same_world_refl|auto|done|]. intros Ha Hb.
       destruct Hn; [|done]. by eapply replicas_reached. }
  destruct (doVerify_loop_spec id conns extent_size Hid Hbig fuel w 0 Hw ltac:(lia) eq_refl ltac:(lia)) as (r & w' & -> & S & Hr & Hb & Hback).
  exists r, pool', w'. rewrite (Hc conns eq_refl) in Hb, Hback. split_and!; [done..| |]; [exact Hb|].
  intros Ha. apply Hback; [done|]. intros ->. by specialize (Hc [] eq_refl).
Qed.

(** The extents from [i] on have a router whose replicas agree block by
    block. *)
Definition extents_ok w (blob_id : string) (extent_size count i : Z) : Prop :=
  forall j, i <= j <= count -> exists router, scrub_queryRouter w (GenerateExtentID blob_id j) = Some router /\
    blocks_ok w (GenerateExtentID blob_id j) extent_size 0 (replicas router).

Lemma Verify_loop_spec fuel_blocks blob_id extent_size count :
  (forall i, 1 <= i <= count -> sc_id_ok (GenerateExtentID blob_id i)) ->
  0 < extent_size <= u64_max - scrub_block_size -> extent_size <= Z.of_nat fuel_blocks * scrub_block_size ->
  count < 4294967295 ->
  forall fuel w pool i, sc_ok w -> pool_ok pool -> 1 <= i -> count < i + Z.of_nat fuel ->
  exists r w', Verify_loop fuel fuel_blocks w pool blob_id extent_size count i = Some (r, w') /\ same_world w w' /\
    (r = 0 \/ r = -1) /\ (r = 0 -> extents_ok w blob_id extent_size count i) /\
    (answering w extent_size -> extents_ok w blob_id extent_size count i -> r = 0).
Proof.
  intros Hid Hbig Hfb Hcount. induction fuel as [|fuel IH]; intros w pool i Hw Hp Hi Hf; cbn [Verify_loop].
  - destruct (Z.leb_spec i count); [lia|]. cbn [negb]. exists 0, w.
    split_and!; [done|by apply same_world_refl|auto| |done]. intros _ j Hj. lia.
  - destruct (Z.leb_spec i count) as [Hle|]; cbn [negb].
    2: { exists 0, w. split_and!; [done|by apply same_world_refl|auto| |done]. intros _ j Hj. lia. }
    change (blob_id +:+ "." +:+ dec i) with (GenerateExtentID blob_id i).
    destruct (scrub_queryRouter w _) as [router|] eqn:Er.
    2: { exists (-1), w. split_and!; [done|by apply same_world_refl|auto|done|]. intros _ Hx.
         destruct (Hx i ltac:(lia)) as (? & ? & _). congruence. }
    destruct (doVerify_spec fuel_blocks w pool (GenerateExtentID blob_id i) router extent_size)
      as (r & pool' & w1 & -> & Hp' & S1 & Hr & Hb & Hback); [by apply Hid|done..|].
    cbn [mbind option_bind]. destruct (Z.eqb_spec r 0) as [->|Hr0]; cbn [negb].
    2: { exists (-1), w1. split_and!; [done|done|auto|done|]. intros Ha Hx. destruct Hr0. apply Hback; [done|].
         destruct (Hx i ltac:(lia)) as (router' & Hq & Hbl). rewrite Er in Hq. by injection Hq as <-. }
    unfold wrap32. rewrite Z.mod_small by lia.
    destruct (IH w1 pool' (i + 1)) as (r2 & w2 & -> & S2 & Hr2 & Hall & Hback2); [apply S1|done|lia|lia|].
    assert (Hsame : forall id, scrub_queryRouter w1 id = scrub_queryRouter w id).
    { intros id. unfold scrub_queryRouter. by rewrite (proj2 (proj2 S1)). }
    exists r2, w2. split_and!; [done|by eapply same_world_trans|done| |].
    + intros Hr0 j Hj. destruct (decide (j = i)) as [->|]; [exists router; split; [done|by apply Hb]|].
      destruct (Hall Hr0 j ltac:(lia)) as (router' & Hq & Hbl). exists router'. rewrite Hsame in Hq. split; [done|].
      intros k Hk Hlt. by apply (one_checksum_ext w w1), Hbl.
    + intros Ha Hx. apply Hback2; [apply Hback; [done|]|].
      { destruct (Hx i ltac:(lia)) as (router' & Hq & Hbl). rewrite Er in Hq. by injection Hq as <-. }
      intros j Hj. destruct (Hx j ltac:(lia)) as (router' & Hq & Hbl).
      exists router'. rewrite Hsame. split; [done|]. intros k Hk Hlt. by apply (one_checksum_keep w w1), Hbl.
Qed.

(** C19: [Verify] of a blob returns and changes no stored byte; when it returns 0
    every whole extent of the blob has a router, and for every block of 4 KB all
    the replicas that the router names store a block, with one checksum; and
    when the extents are whole blocks and the servers answer for the blocks they
    store, it returns 0 whenever that is so. *)
Theorem scrub_decides w blob_id blob_size extent_size :
  sc_ok w -> scrub_queryBlob w blob_id = Some (blob_size, extent_size) ->
  0 <= blob_size -> 0 < extent_size <= u64_max - scrub_block_size -> blob_size / extent_size < 4294967295 ->
  (forall i, 1 <= i <= blob_size / extent_size -> sc_id_ok (GenerateExtentID blob_id i)) ->
  exists r w', (r = 0 \/ r = -1) /\
    Verify (Z.to_nat (blob_size / extent_size)) (Z.to_nat (extent_size / scrub_block_size + 1)) w blob_id = Some (r, w') /\
    (forall tgt id x, sc_byte w' tgt id x = sc_byte w tgt id x) /\
    (r = 0 -> extents_ok w blob_id extent_size (blob_size / extent_size) 1) /\
    (answering w extent_size -> extents_ok w blob_id extent_size (blob_size / extent_size) 1 -> r = 0).
Proof.
  intros Hw Hq Hb Hes Hc Hid. unfold Verify. rewrite Hq. destruct (Z.eqb_spec extent_size 0); [lia|].
  assert (Hcount : 0 <= blob_size / extent_size) by (apply Z.div_pos; lia).
  unfold wrap32. rewrite Z.mod_small by lia.
  destruct (Verify_loop_spec (Z.to_nat (extent_size / scrub_block_size + 1)) blob_id extent_size (blob_size / extent_size)
    Hid Hes) with (fuel := Z.to_nat (blob_size / extent_size)) (w := w) (pool := mkConnectionPool ∅ 0) (i := 1)
    as (r & w' & -> & (_ & Hby & _) & Hr & Hall & Hback); [|done|done|apply map_Forall_empty|lia|lia|].
  - pose proof (Z.div_pos extent_size scrub_block_size ltac:(lia) eq_refl).
    pose proof (Z.mul_succ_div_gt extent_size scrub_block_size eq_refl). rewrite Z2Nat.id by lia. lia.
  - by exists r, w'.
Qed.
End Theorems.

(** ** The extent servers *)

Section Servers.
Context `{SpaceManagerLaws A} `{RocksDBLaws DB} `{Crc32c} `{BDevLaws D}.

(** What a handler's end means for the caller. *)
Definition done_reply (d : Done) : IoReply := IoReplied (reply_code (d_reply d)) "" (d_crc32 d).

(** The handler, and the worker when it is left the request. *)
Definition serve_scrub (n : EsNode A DB D) (w : World) (c : Chance) (m : ReqMsg) : option (IoReply * EsNode A DB D) :=
  '(h, st) ← Scrub (n_cfg n) w (n_state n) (ch_request c) m;
  match h with
  | Rejected reply => Some (IoReplied (reply_code reply) "" None, mkEsNode (n_cfg n) st (n_disk n))
  | Completed d => Some (done_reply d, mkEsNode (n_cfg n) st (n_disk n))
  | InFlight _ =>
      '(task, b) ← take_task (st_bare st);
      '(d, done) ← worker_dispatch (n_disk n) (ch_buf c) task;
      Some (done_reply (ScrubDone (response_attachment done) done), mkEsNode (n_cfg n) (set_bare st b) d)
  end.

Lemma handleScrub_cases rand enq (b : BareEngine A DB) req s rq b' :
  wf_mgr (extent_loc_mgr_ b) -> id_ok (ExtentID req) -> 0 <= rand -> in_extent (extent_loc_mgr_ b) req ->
  handleScrub rand enq b req = Some (s, rq, b') ->
  wf_mgr (extent_loc_mgr_ b') /\
  extent_size_ (extent_loc_mgr_ b') = extent_size_ (extent_loc_mgr_ b) /\
  extent_loc_map_ (extent_loc_mgr_ b') = extent_loc_map_ (extent_loc_mgr_ b) /\
  (if ok s then exists l, extent_loc_map_ (extent_loc_mgr_ b) !! ExtentID req = Some l /\
     task_queue_ b' = (task_queue_ b ++ [SetPhysicalOffset req (loc_offset l + Offset req)])%list /\
     Offset req + Size req <= loc_size l
   else task_queue_ b' = task_queue_ b).
Proof.
  intros W Hid Hr Hin. unfold handleScrub.
  destruct (queryLocation rand b req false) as [[[s1 rq1] b1]|] eqn:E; [|done]. cbn [mbind option_bind].
  assert (Hsame : extent_loc_map_ (extent_loc_mgr_ b1) = extent_loc_map_ (extent_loc_mgr_ b)).
  { revert E. unfold queryLocation, QueryLocation.
    destruct (extent_loc_map_ (extent_loc_mgr_ b) !! ExtentID req); cbn; by intros [= _ _ <-]. }
  apply queryLocation_cases in E as (W1 & Hq & Hes & Hm & Hc); try done.
  destruct (ok s1) eqn:Ok1; cbn [negb].
  - destruct Hc as (l & Hl & -> & Hle). rewrite Hsame in Hl. unfold submit, SpdkMgr_ProcessRequest.
    destruct enq; cbn [negb]; intros [= <- <- <-]; cbn; rewrite ?Hq; split_and!; try done; eauto 10.
  - intros [= <- <- <-]. rewrite Ok1. by split_and!.
Qed.

Lemma scrub_failed io_data req data crc (P : Prop) :
  done_reply (ScrubDone io_data (SetResult req false)) = IoReplied 0 data crc -> P.
Proof. unfold ScrubDone. cbn [result_ SetResult]. by rewrite andb_false_r. Qed.

Lemma serve_scrub_spec n w c id off r n' :
  node_ok n -> id_ok id -> 0 <= w_rand w -> 0 <= off -> off + scrub_block_size <= u64_max ->
  serve_scrub n w c (mkReqMsg id off scrub_block_size None) = Some (r, n') ->
  node_ok n' /\ (forall id' x, node_byte n' id' x = node_byte n id' x) /\
  (forall data crc, r = IoReplied 0 data crc ->
     exists s, block_is (node_byte n id) off s /\ crc = Some (Crc32_Checksum s)).
Proof.
  intros N Hid Hr Hlo Hhi. unfold serve_scrub, Scrub. destruct n as [cfg st0 disk]. cbn [n_cfg n_state n_disk].
  destruct (ch_request c) as [rq0|]; cbn [mbind option_bind]; [|intros [= <- <-]; by split_and!].
  set (req := SetOperationContext _ _ "").
  destruct (ProcessRequest cfg w st0 req) as [[[[s rq'] st] acts]|] eqn:E; [|done]. cbn [mbind option_bind].
  apply ProcessRequest_cases in E as [(Hok & _ & Eb)|(req1 & rm1 & rm2 & Hsame & Hp & E)].
  { rewrite Hok. cbn [negb mbind option_bind]. intros [= <- <-]. split_and!; [|by intros; unfold node_byte; cbn; rewrite Eb|intros ??; by apply scrub_failed].
    destruct N as [Nm Nq Ns]. split; cbn in *; by rewrite Eb. }
  destruct (same_req_fields _ _ Hsame) as (Fid & Foff & Fsz). pose proof Hsame as (Ft & _ & Fatt & Fres).
  cbn in Fid, Foff, Fsz, Ft, Fatt, Fres. unfold BareEngine_ProcessRequest in E. rewrite Ft in E.
  destruct (handleScrub _ _ _ req1) as [[[s1 rq1] b1]|] eqn:E1; [|done]. cbn in E. injection E as -> -> -> ->.
  apply handleScrub_cases in E1 as (W1 & Hes & Hm & Hc); [|apply N|by rewrite Fid|done|].
  2: { apply (checked_in_extent64 (mkEsNode cfg st0 disk)); rewrite ?Foff, ?Fsz; done. }
  rewrite Fid, Foff, Fsz in Hc. destruct N as [Nm Nq Ns]. cbn in Nm, Nq, Ns.
  destruct (ok s) eqn:Hok; cbn [negb mbind option_bind].
  2: { intros [= <- <-]. split_and!; [|by intros; unfold node_byte; cbn; rewrite Hm|intros ??; by apply scrub_failed]. split; cbn; [done|congruence|congruence]. }
  destruct Hc as (l & Hl & Hq & Hle). rewrite Nq in Hq. unfold take_task. rewrite Hq. cbn [app mbind option_bind].
  unfold worker_dispatch. change (request_type_ (SetPhysicalOffset req1 _)) with (request_type_ req1). rewrite Ft.
  cbn [mbind option_bind]. intros [= <- <-].
  split_and!; [split; cbn; [done|done|congruence]|intros; unfold node_byte; cbn; by rewrite Hm|].
  unfold doRead. change (Size (SetPhysicalOffset req1 _)) with (Size req1). rewrite Fsz. cbn [physical_offset_ SetPhysicalOffset].
  destruct (bdev_read _ _ _) as [dat|] eqn:Er; [|intros ??; by apply scrub_failed].
  apply bdev_read_law in Er as [Hlen Hb]; [|done]. unfold ScrubDone. cbn [result_ SetResult SetPhysicalOffset io_unit_ response_attachment].
  rewrite Fres. cbn. intros data crc [= _ <-]. exists dat. split; [|done]. split; [done|]. intros i Hi.
  unfold node_byte. cbn. rewrite Hl. cbn.
  replace (in_range 0 (loc_size l) (off + i)) with true by (symmetry; apply in_range_spec; lia).
  rewrite Hb by done. do 2 f_equal. lia.
Qed.

(** A server that stores the extent, is named by its router and gets what it
    needs from its pools answers. *)
Definition scrub_owner (n : EsNode A DB D) (remote : QueryRouterReply) (id : string) : Prop :=
  exists r, (QueryRouter (st_routers (n_state n)) id remote).1 = Some r /\
    IsValid r (net_ip (n_cfg n)) (net_port (n_cfg n)) = true.

Definition good_chance (c : Chance) : Prop := is_Some (ch_request c) /\ ch_enqueue c = true.

Definition serves_extents (n : EsNode A DB D) (size : Z) : Prop :=
  align_size_ (n_cfg n) = kAlignSize /\ size <= se_extent_size_ (n_cfg n).

Lemma serve_scrub_answers n w c id off size l :
  node_ok n -> serves_extents n size -> scrub_owner n (w_remote w) id -> good_chance c -> w_enqueue w = true ->
  (forall d o k, is_Some (bdev_read (D:=D) d o k)) ->
  id <> "" -> 0 <= off -> off mod scrub_block_size = 0 -> off + scrub_block_size <= size ->
  size <= u64_max - scrub_block_size -> extent_loc_map_ (extent_loc_mgr_ (st_bare (n_state n))) !! id = Some l ->
  exists data crc st, serve_scrub n w c (mkReqMsg id off scrub_block_size None) =
      Some (IoReplied 0 data crc, mkEsNode (n_cfg n) st (n_disk n)) /\
    st_routers st = (QueryRouter (st_routers (n_state n)) id (w_remote w)).2 /\
    extent_loc_map_ (extent_loc_mgr_ (st_bare st)) = extent_loc_map_ (extent_loc_mgr_ (st_bare (n_state n))).
Proof.
  intros N [Hal Hsz] (r & Hr & Hv) [[rq0 Hrq] _] Henq Hrd Hne Hlo Hm Hle Hbig Hl.
  unfold serve_scrub, Scrub. rewrite Hrq. set (req := SetOperationContext _ _ "").
  destruct (QueryRouter _ _ _) as [r' rm] eqn:Eq. cbn [fst snd] in *. subst r'.
  assert (Hck : checkParameters (n_cfg n) (SetExtentRouter req r) = Status_default).
  { unfold checkParameters. cbn. rewrite Hal. destruct (String.eqb_spec id ""); [done|].
    change scrub_block_size with 4096 in *. change kAlignSize with 4096. rewrite Hm. cbn [Z.eqb negb].
    rewrite wrap64_small by (unfold is_u64; lia). by destruct (Z.ltb_spec (se_extent_size_ (n_cfg n)) (off + 4096)); [lia|]. }
  assert (Hp : doSafetyCheck (n_cfg n) (st_routers (n_state n)) req (w_remote w) =
               Some (Status_default, SetExtentRouter req r, rm)).
  { unfold doSafetyCheck, queryRouter. change (request_type_ req) with kTypeScrub. change (ExtentID req) with id.
    rewrite !bool_decide_eq_false_2, Eq by done. cbn [orb]. change (negb (ok Status_default)) with false. cbv iota.
    rewrite Hck. change (negb (ok Status_default)) with false. cbv iota.
    unfold checkOwnership. change (request_type_ (SetExtentRouter req r)) with kTypeScrub. cbn. by rewrite Hv. }
  unfold ProcessRequest. rewrite Hp. cbn [mbind option_bind]. change (negb (ok Status_default)) with false. cbv iota.
  assert (Hrep : doReplicate (n_cfg n) (w_channel_ok w) (st_pool (n_state n)) (SetExtentRouter req r) =
     Some (Status_default, SetExtentRouter req r, st_pool (n_state n), [])).
  { unfold doReplicate. by destruct (bool_decide _). }
  cbn [st_pool]. rewrite Hrep. cbn [mbind option_bind st_routers st_bare]. change (negb (ok Status_default)) with false. cbv iota.
  unfold BareEngine_ProcessRequest. change (request_type_ (SetExtentRouter req r)) with kTypeScrub. cbv iota beta.
  unfold handleScrub, queryLocation, QueryLocation. change (ExtentID (SetExtentRouter req r)) with id. rewrite Hl.
  cbn [mbind option_bind]. change (negb (ok Status_default)) with false. cbv iota. unfold submit, SpdkMgr_ProcessRequest.
  rewrite Henq. cbn [negb mbind option_bind st_bare task_queue_ extent_loc_mgr_ st_pool]. 
  change (negb (ok Status_default)) with false. cbv iota. cbn [mbind option_bind].
  unfold take_task. cbn [st_bare task_queue_]. rewrite (no_queue n N). cbn [app mbind option_bind].
  set (rq := SetPhysicalOffset _ _). unfold worker_dispatch. change (request_type_ rq) with kTypeScrub.
  cbv iota. unfold doRead. destruct (Hrd (n_disk n) (physical_offset_ rq) (Size rq)) as [dat ->]. cbn. eauto 8.
Qed.

(** What a server asked about one extent does not change its routers. *)
Lemma scrub_owner_kept n id (remote : string -> QueryRouterReply) id' st :
  st_routers st = (QueryRouter (st_routers (n_state n)) id (remote id)).2 -> scrub_owner n (remote id') id' ->
  scrub_owner (mkEsNode (n_cfg n) st (n_disk n)) (remote id') id'.
Proof.
  intros Hst (r & Hq & Hv). exists r. split; [|done]. cbn [n_state]. rewrite Hst. revert Hq. unfold QueryRouter.
  destruct (router_map (st_routers (n_state n)) !! id) as [x|] eqn:E; [done|].
  destruct (queryFromRemote id (remote id)) as [y|] eqn:Ey; [|done].
  cbn. rewrite router_map_set.
  destruct (decide (id' = id)) as [->|Hd]; [by rewrite lookup_insert_eq, E, Ey|].
  rewrite lookup_insert_ne by done. destruct (router_map _ !! id') as [z|]; cbn; [done|].
  by destruct (queryFromRemote id' _).
Qed.

(** The answers of the extent manager about blobs, the servers, and what is
    decided outside the model during each call. *)
Record ScrubWorld : Type := mkScrubWorld {
  sw_blobs : string -> option (Z * (Z * Z));
  sw_cluster : Cluster A DB D;
  sw_chances : nat -> Chance;
  sw_calls : nat
}.

Definition sw_next (w : ScrubWorld) : Cluster A DB D :=
  mkCluster (c_routers (sw_cluster w)) (c_nodes (sw_cluster w)) [sw_chances w (sw_calls w)].

#[local] Arguments call : simpl never.
#[local] Arguments sw_next : simpl never.

#[global] Instance ScrubWorld_env : ScrubEnv ScrubWorld := {
  sc_query_blob w := sw_blobs w;
  sc_query_router w := c_routers (sw_cluster w);
  sc_channel_ok w tgt := bool_decide (is_Some (c_nodes (sw_cluster w) !! tgt));
  sc_scrub w tgt id off size :=
    let '(r, cl) := call (sw_next w) tgt id (fun n wd c => serve_scrub n wd c (mkReqMsg id off size None)) in
    (r, mkScrubWorld (sw_blobs w) cl (sw_chances w) (S (sw_calls w)))
}.

Definition sw_ok (w : ScrubWorld) : Prop :=
  map_Forall (fun _ => node_ok) (c_nodes (sw_cluster w)) /\ forall k, 0 <= ch_rand (sw_chances w k).

Lemma sw_next_ok w : sw_ok w -> cluster_ok (sw_next w).
Proof. intros [Hn Hc]. split; [done|]. repeat constructor. apply Hc. Qed.

(** No device read fails, the pools are not empty, and the servers are set up
    for extents of this size and named by the routers of what they store. *)
Definition sw_answers (w : ScrubWorld) (size : Z) : Prop :=
  (forall d o k, is_Some (bdev_read (D:=D) d o k)) /\ (forall k, good_chance (sw_chances w k)) /\
  map_Forall (fun _ n => serves_extents n size /\ forall id,
    is_Some (extent_loc_map_ (extent_loc_mgr_ (st_bare (n_state n))) !! id) ->
    scrub_owner n (c_routers (sw_cluster w) id) id) (c_nodes (sw_cluster w)).

#[global] Program Instance ScrubWorld_laws : ScrubLaws ScrubWorld := {|
  sc_ok := sw_ok;
  sc_byte w := cluster_byte (sw_cluster w);
  sc_id_ok id := id_ok id /\ id <> "";
  sc_answers := sw_answers
|}.
Next Obligation.
  intros w tgt id off r w' Hw [Hid _] Hlo Hhi. cbn.
  destruct (call _ _ _ _) as [r1 cl] eqn:E. intros [= <- <-]. cbn. rewrite (call_routers _ _ _ _ _ _ E).
  pose proof (sw_next_ok w Hw) as Hw1. destruct Hw as [_ Hch].
  assert (Hsame : forall tgt id x, cluster_byte (sw_cluster w) tgt id x = cluster_byte (sw_next w) tgt id x) by done.
  apply call_spec in E as [(-> & [Hok _] & En)|(n & n' & wd & c & Hn & N & Hr & E & En & Hok)]; [| |done].
  - split_and!; [done|intros; rewrite Hsame; unfold cluster_byte; by rewrite En|done|done].
  - apply serve_scrub_spec in E as (N' & Hk & Hc); try done. destruct (Hok N') as [Hok' _]. split_and!; [done| |done|].
    + intros tgt' id' x. rewrite Hsame. unfold cluster_byte. rewrite En. destruct (decide (tgt' = tgt)) as [->|Hd].
      * rewrite lookup_insert_eq, Hn. cbn. apply Hk.
      * by rewrite lookup_insert_ne by done.
    + intros data crc Heq. destruct (Hc data crc Heq) as (s & [Hl Hs] & ->). exists s. split; [|done]. split; [done|].
      intros i Hi. rewrite Hsame. unfold cluster_byte. rewrite Hn. cbn. by apply Hs.
Qed.
Next Obligation.
  intros w size tgt id off s Hw (Hrd & Hch & Hn) [Hid Hne] Hlo Hal Hle Hbig [_ Hs]. cbn.
  specialize (Hs 0 ltac:(done)). unfold cluster_byte in Hs.
  destruct (c_nodes (sw_cluster w) !! tgt) as [n|] eqn:En; [|done]. cbn in Hs. split; [by apply bool_decide_eq_true_2|].
  destruct (Hn tgt n En) as [Hsz Hown]. unfold node_byte in Hs.
  destruct (extent_loc_map_ (extent_loc_mgr_ (st_bare (n_state n))) !! id) as [l|] eqn:El; [|done].
  unfold call, next_chance, sw_next. cbn [c_chances c_nodes]. rewrite En.
  set (wd := to_world _ _ _). set (c := sw_chances w (sw_calls w)).
  destruct (serve_scrub_answers n wd c id off size l) as (data & crc & st & E & Hst & Hmap); try done.
  1: apply (proj1 Hw tgt n En). 1: apply (Hown id); by rewrite El. 1: apply Hch. 1: apply (Hch (sw_calls w)).
  rewrite E. eexists data, crc, _. split; [done|]. split_and!; [done|done|]. cbn.
  apply map_Forall_insert_2; [|done]. split; [done|]. cbn. rewrite Hmap. intros id' Hid'.
  apply (scrub_owner_kept n id (c_routers (sw_cluster w))); auto.
Qed.
End Servers.
Arguments ScrubWorld : clear implicits.

(** ** Two replicas *)

#[local] Existing Instance demo_crc.

(** Two servers; [written]: an extent of the blob was written on both. *)
Definition scrub_mgr (written : bool) : ExtentLocationMgr SpaceAlloc MemDB :=
  if written then default e2e_mgr (snd <$> QueryLocation 0 e2e_mgr "bb-a.1" 0 0 true) else e2e_mgr.

Definition scrub_node (written : bool) (ip : string) : EsNode SpaceAlloc MemDB MemDisk :=
  mkEsNode (mkEngineCfg kNVMeEngine kStandardReplication kAlignSize 1048576 ip 80)
    (mkEngineState (mkExtentRouterMgr ∅ ∅ false) (mkConnectionPool ∅ 0) (mkBareEngine (scrub_mgr written) []))
    (mkMemDisk (fun _ => "0"%char)).

Definition scrub_demo (written : bool) : ScrubWorld SpaceAlloc MemDB MemDisk :=
  mkScrubWorld (fun _ => Some (0, (1048576, 1048576)))
    (mkCluster (fun _ => RpcReply 0 (Some demo_router))
       (<["10.0.0.1:80" := scrub_node written "10.0.0.1"]> {["10.0.0.2:80" := scrub_node written "10.0.0.2"]}) [])
    (fun _ => e2e_chance) 0.

Lemma scrub_mgr_wf : wf_mgr (scrub_mgr true).
Proof.
  destruct (QueryLocation_spec 0 e2e_mgr "bb-a.1" 0 0 true) as (st & phys & m' & E & W & _);
    [apply e2e_mgr_on_device|done|done|]. unfold scrub_mgr. by rewrite E.
Qed.

Lemma scrub_demo_ok : sc_ok (scrub_demo true).
Proof.
  assert (N : forall ip, node_ok (scrub_node true ip)).
  { intros ip. split; [apply scrub_mgr_wf|done|vm_compute; discriminate]. }
  split; [|done]. apply map_Forall_insert_2; [apply N|]. apply map_Forall_singleton, N.
Qed.

Lemma scrub_decides_witness :
  exists w', Verify 1 257 (scrub_demo true) "bb-a" = Some (0, w') /\ extents_ok (scrub_demo true) "bb-a" 1048576 1 1.
Proof.
  destruct (scrub_decides (scrub_demo true) "bb-a" 1048576 1048576) as (r & w' & _ & E & _ & Hok & _).
  - exact scrub_demo_ok.
  - reflexivity.
  - lia.
  - vm_compute; split; [reflexivity|discriminate].
  - reflexivity.
  - intros i Hi. change (1048576 / 1048576) with 1 in Hi. assert (i = 1) as -> by lia. vm_compute; split; [reflexivity|discriminate].
  - assert (Hr : match Verify 1 257 (scrub_demo true) "bb-a" with Some (r, _) => r | None => 1 end = 0)
      by (vm_compute; reflexivity).
    change (Verify 1 257 (scrub_demo true) "bb-a" = Some (r, w')) in E. rewrite E in Hr. subst r.
    exists w'. split; [exact E|by apply Hok].
Defined.

(** Replicas of an extent that was never written are equal, and a read of it
    succeeds, but the servers refuse to scrub it, so the blob does not pass. *)
Example scrub_unwritten_fails :
  match Verify 1 257 (scrub_demo false) "bb-a" with Some (r, _) => r | None => 1 end = -1.
Proof. vm_compute. reflexivity. Qed.
