(* ===== verification/SpdkWorker.v ===== *)
(** * SpdkWorker

    The device workers (src/src/extentserver/spdk_worker.h and spdk_worker.cpp):
    the threads that take the requests the storage engine accepted from the
    shared ring, hand them to the device and run their callbacks.  The
    environment initialisation and [finishSpdkIoThread] are in SpdkMgr.v; the
    effect of a request on the device is [worker_dispatch] of StorageEngine.v. *)

From stdpp Require Import relations.
From S2P Require Import Prelude Status Codec KvStore ExtentLocation Net StorageEngine.

#[local] Open Scope Z_scope.

(** ** One worker *)

Inductive SpdkWorkerStatus : Type := kSpdkWorkerInit | kSpdkWorkerStopping | kSpdkWorkerStopped.

Definition kBatchNums : nat := 1000.

(** Where a worker is in [run]: before the poll, before the dequeue, at the
    check after an empty dequeue, in the loop over the requests it has left of
    a batch, at [finishSpdkIoThread], or past [pthread_exit]. *)
Inductive WorkerPc : Type := AtPoll | AtDequeue | AtCheck | InBatch (reqs : list Request) | AtFinish | Exited.

Record Worker : Type := mkWorker { wk_status : SpdkWorkerStatus; wk_pc : WorkerPc; wk_io : list Request }.

Definition SpdkWorker_new : Worker := mkWorker kSpdkWorkerInit AtPoll [].

Definition wk_batch (k : Worker) : list Request := match wk_pc k with InBatch reqs => reqs | _ => [] end.

Definition SpdkWorker_Stop (k : Worker) : Worker := mkWorker kSpdkWorkerStopping (wk_pc k) (wk_io k).

Definition set_pc (k : Worker) (pc : WorkerPc) : Worker := mkWorker (wk_status k) pc (wk_io k).

(** The result of [worker_callback] for one command. *)
Definition worker_callback (success : bool) (req : Request) : Request * bool := (req, result_ req && success).

(** The requests whose kind the switch of [run] has a case for. *)
Definition dispatchable (req : Request) : bool :=
  match request_type_ req with
  | kTypeRead | kTypeScrub | kTypeWrite | kTypeReplicate | kTypeDelete => true
  | kTypeReclaimExtent | kTypeNoop => false
  end.

(** [spdk_thread_poll] in the loop: [finished] are the commands the device
    completed, [rest] the others. *)
Definition worker_polled (k : Worker) (rest : list Request) : Worker := mkWorker (wk_status k) AtDequeue rest.

(** After [DequeueBurst]. *)
Definition worker_dequeued (k : Worker) (reqs : list Request) : Worker :=
  set_pc k (match reqs with [] => AtCheck | _ => InBatch reqs end).

(** [count == 0]: the loop ends when the worker was told to stop. *)
Definition worker_check (k : Worker) : Worker :=
  set_pc k (match wk_status k with kSpdkWorkerStopping => AtFinish | _ => AtPoll end).

(** One turn of the loop over the batch.  [got]: the I/O unit; [accepted]:
    whether the device takes the command.  The second component is what is
    called back. *)
Definition worker_turn (k : Worker) (got accepted : bool) : Worker * list (Request * bool) :=
  match wk_pc k with
  | InBatch (req :: reqs) =>
      if negb got then (k, [])
      else if negb (dispatchable req) then (k, [])
      else
        let pc := match reqs with [] => AtPoll | _ => InBatch reqs end in
        if accepted then (mkWorker (wk_status k) pc (wk_io k ++ [req]), [])
        else (mkWorker (wk_status k) pc (wk_io k), [worker_callback false req])
  | _ => (k, [])
  end.

(** The end of [run]: [closed] is whether [finishSpdkIoThread] succeeded. *)
Definition worker_finished (k : Worker) (closed : bool) (rest : list Request) : Worker :=
  mkWorker (if closed then kSpdkWorkerStopped else wk_status k) Exited rest.

(** ** The workers and their ring *)

(** [sy_accepted]: the requests [SpdkMgr::ProcessRequest] took; [sy_taken]:
    those a worker dequeued, in order; [sy_calls]: the callbacks. *)
Record Workers : Type := mkWorkers {
  sy_ring : list Request;
  sy_workers : list Worker;
  sy_calls : list (Request * bool);
  sy_accepted : list Request;
  sy_taken : list Request
}.

Definition Workers_new (n : nat) : Workers := mkWorkers [] (replicate n SpdkWorker_new) [] [] [].

Definition set_worker (s : Workers) (i : nat) (k : Worker) (calls : list (Request * bool)) : Workers :=
  mkWorkers (sy_ring s) (<[i := k]> (sy_workers s)) (sy_calls s ++ calls) (sy_accepted s) (sy_taken s).

(** One step of worker [i]; [bad] marks the turns of the batch loop that try
    again. *)
Inductive worker_step (i : nat) : bool -> Workers -> Workers -> Prop :=
  | ws_poll s k finished oks rest :
      sy_workers s !! i = Some k -> wk_pc k = AtPoll -> finished ++ rest ≡ₚ wk_io k -> length oks = length finished ->
      worker_step i false s (set_worker s i (worker_polled k rest) (zip_with worker_callback oks finished))
  | ws_dequeue s k m :
      sy_workers s !! i = Some k -> wk_pc k = AtDequeue ->
      (m <= kBatchNums)%nat -> (m <= length (sy_ring s))%nat -> (m = 0%nat -> sy_ring s = []) ->
      worker_step i false s
        (mkWorkers (drop m (sy_ring s)) (<[i := worker_dequeued k (take m (sy_ring s))]> (sy_workers s))
           (sy_calls s) (sy_accepted s) (sy_taken s ++ take m (sy_ring s)))
  | ws_check s k :
      sy_workers s !! i = Some k -> wk_pc k = AtCheck ->
      worker_step i false s (set_worker s i (worker_check k) [])
  | ws_turn s k req reqs got accepted :
      sy_workers s !! i = Some k -> wk_pc k = InBatch (req :: reqs) ->
      worker_step i (negb (got && dispatchable req)) s
        (set_worker s i (worker_turn k got accepted).1 (worker_turn k got accepted).2)
  | ws_finish s k closed finished oks rest :
      sy_workers s !! i = Some k -> wk_pc k = AtFinish -> finished ++ rest ≡ₚ wk_io k -> length oks = length finished ->
      worker_step i false s (set_worker s i (worker_finished k closed rest) (zip_with worker_callback oks finished)).

(** A step of any worker, a request that is accepted or a worker that is told
    to stop. *)
Inductive workers_step : Workers -> Workers -> Prop :=
  | wsy_worker i bad s s' : worker_step i bad s s' -> workers_step s s'
  | wsy_accept s req : workers_step s
      (mkWorkers (sy_ring s ++ [req]) (sy_workers s) (sy_calls s) (sy_accepted s ++ [req]) (sy_taken s))
  | wsy_stop i s k : sy_workers s !! i = Some k ->
      workers_step s (set_worker s i (SpdkWorker_Stop k) []).

(** ** Every request is in one place *)

Definition held (k : Worker) : list Request := wk_batch k ++ wk_io k.

(** The requests a worker took are with a worker or were called back. *)
Record workers_inv (s : Workers) : Prop := {
  wi_fifo : sy_accepted s = sy_taken s ++ sy_ring s;
  wi_place : sy_taken s ≡ₚ concat (held <$> sy_workers s) ++ (sy_calls s).*1;
  wi_batch : Forall (fun k => wk_pc k <> InBatch []) (sy_workers s)
}.

Lemma held_insert ws i k k' xs ys : ws !! i = Some k -> held k ++ xs ≡ₚ held k' ++ ys ->
  concat (held <$> ws) ++ xs ≡ₚ concat (held <$> <[i := k']> ws) ++ ys.
Proof.
  intros Hi Hp. rewrite insert_take_drop by (by eapply lookup_lt_Some).
  rewrite <- (take_drop_middle ws i k Hi) at 1. rewrite !fmap_app, !fmap_cons, !concat_app. cbn [concat].
  rewrite <- !app_assoc. f_equiv. rewrite (Permutation_app_comm (concat _) xs), (Permutation_app_comm (concat _) ys).
  by rewrite !app_assoc, Hp.
Qed.

Lemma fst_callbacks oks reqs : length oks = length reqs -> (zip_with worker_callback oks reqs).*1 = reqs.
Proof. revert oks. induction reqs as [|r reqs IH]; intros [|b oks] Hl; [done..|]. cbn in *. by rewrite IH by lia. Qed.

(** What a worker's own action does to the requests it holds. *)
Lemma held_polled k rest finished : wk_pc k = AtPoll -> finished ++ rest ≡ₚ wk_io k ->
  held k ≡ₚ held (worker_polled k rest) ++ finished.
Proof. intros Hpc Hp. unfold held, wk_batch. rewrite Hpc. cbn. by rewrite <- Hp, Permutation_app_comm. Qed.

Lemma held_finished k closed rest finished : wk_pc k = AtFinish -> finished ++ rest ≡ₚ wk_io k ->
  held k ≡ₚ held (worker_finished k closed rest) ++ finished.
Proof. intros Hpc Hp. unfold held, wk_batch. rewrite Hpc. cbn. by rewrite <- Hp, Permutation_app_comm. Qed.

Lemma held_turn k req reqs got accepted : wk_pc k = InBatch (req :: reqs) ->
  held k ≡ₚ held (worker_turn k got accepted).1 ++ (worker_turn k got accepted).2.*1 /\
  wk_pc (worker_turn k got accepted).1 <> InBatch [].
Proof.
  intros Hpc. unfold worker_turn. rewrite Hpc. destruct got; cbn [negb]; [|rewrite app_nil_r; split; [done|cbn; congruence]].
  destruct (dispatchable req); cbn [negb]; [|rewrite app_nil_r; split; [done|cbn; congruence]].
  assert (Hb : wk_batch (set_pc k match reqs with [] => AtPoll | _ => InBatch reqs end) = reqs) by (by destruct reqs).
  split; [|by destruct accepted, reqs].
  destruct accepted; unfold held at 2; cbn [fst snd fmap list_fmap wk_io]; unfold wk_batch in *; cbn in Hb |- *; rewrite Hb;
    unfold held, wk_batch; rewrite Hpc; rewrite ?app_nil_r; solve_Permutation.
Qed.

Lemma set_worker_inv s i k k' calls : workers_inv s -> sy_workers s !! i = Some k ->
  held k ≡ₚ held k' ++ calls.*1 -> wk_pc k' <> InBatch [] -> workers_inv (set_worker s i k' calls).
Proof.
  intros [Hf Hp Hb] Hi Hh Hpc. split; cbn; [done| |by apply Forall_insert].
  rewrite Hp, fmap_app, (Permutation_app_comm _ (calls.*1)), app_assoc. f_equiv.
  rewrite <- (app_nil_r (concat _)) at 1. apply (held_insert _ i k); [done|]. by rewrite app_nil_r.
Qed.

Lemma worker_step_inv i bad s s' : workers_inv s -> worker_step i bad s s' -> workers_inv s'.
Proof.
  intros W Hs. destruct Hs as [s k fin oks rest Hi Hpc Hp Hl|s k m Hi Hpc Hm Hm2 _|s k Hi Hpc|
    s k req reqs got acc Hi Hpc|s k closed fin oks rest Hi Hpc Hp Hl].
  - eapply set_worker_inv; [done..| |done]. rewrite fst_callbacks by done. by apply held_polled.
  - destruct W as [Hf Hpl Hb]. split; cbn.
    + by rewrite <- app_assoc, take_drop.
    + rewrite Hpl. rewrite <- app_assoc, (Permutation_app_comm (sy_calls s).*1), app_assoc. f_equiv.
      rewrite <- (app_nil_r (concat (held <$> <[_:=_]> _))). apply (held_insert _ i k); [done|].
      unfold held, worker_dequeued, wk_batch. rewrite Hpc, app_nil_r. cbn.
      destruct (take m (sy_ring s)); cbn; rewrite ?app_nil_r; [done|]. solve_Permutation.
    + apply Forall_insert; [done|]. unfold worker_dequeued. by destruct (take m (sy_ring s)).
  - eapply set_worker_inv; [done..| |]; unfold worker_check; [|by destruct (wk_status k)].
    unfold held, wk_batch. rewrite Hpc. cbn. by destruct (wk_status k); rewrite ?app_nil_r.
  - destruct (held_turn k req reqs got acc Hpc). by eapply set_worker_inv.
  - eapply set_worker_inv; [done..| |done]. rewrite fst_callbacks by done. by apply held_finished.
Qed.

Lemma workers_step_inv s s' : workers_inv s -> workers_step s s' -> workers_inv s'.
Proof.
  intros W Hs. destruct Hs as [i bad s s' Hs|s req|i s k Hi].
  - by eapply worker_step_inv.
  - destruct W as [Hf Hp Hb]. split; cbn; [|done|done]. by rewrite Hf, app_assoc.
  - eapply set_worker_inv; [done..| |].
    + by rewrite app_nil_r.
    + apply (Forall_lookup_1 _ _ _ _ (wi_batch s W) Hi).
Qed.

Lemma Workers_new_inv n : workers_inv (Workers_new n).
Proof.
  split; cbn; [done| |by apply Forall_replicate]. rewrite app_nil_r.
  by induction n.
Qed.

Lemma workers_reach n s : rtc workers_step (Workers_new n) s -> workers_inv s.
Proof. intros Hr. pose proof (Workers_new_inv n) as W. induction Hr; [done|]. eauto using workers_step_inv. Qed.

(** ** A worker that is told to stop ends *)

(** How far a worker is from its end, and the work in the ring. *)
Definition pc_left (pc : WorkerPc) : nat :=
  match pc with
  | AtPoll => 4 | AtDequeue => 3 | AtCheck => 2 | AtFinish => 1 | Exited => 0
  | InBatch reqs => 2 * length reqs + 4
  end.

Definition work_left (s : Workers) (k : Worker) : nat := 4 * length (sy_ring s) + pc_left (wk_pc k).

(** A run in which no request is accepted, with the number of steps of worker
    [i] that are not retries. *)
Inductive closing (i : nat) : nat -> Workers -> Workers -> Prop :=
  | cl_refl s : closing i 0 s s
  | cl_own n s s1 s2 : worker_step i false s s1 -> closing i n s1 s2 -> closing i (S n) s s2
  | cl_retry n s s1 s2 : worker_step i true s s1 -> closing i n s1 s2 -> closing i n s s2
  | cl_other j bad n s s1 s2 : j <> i -> worker_step j bad s s1 -> closing i n s1 s2 -> closing i n s s2
  | cl_stop j n s k s2 : sy_workers s !! j = Some k -> closing i n (set_worker s j (SpdkWorker_Stop k) []) s2 -> closing i n s s2.

Definition stopping (k : Worker) : Prop := wk_status k = kSpdkWorkerStopping \/ wk_pc k = Exited.

(** Its own steps bring a stopping worker nearer to its end. *)
Lemma own_step i s s' k : worker_step i false s s' -> sy_workers s !! i = Some k -> stopping k ->
  exists k', sy_workers s' !! i = Some k' /\ stopping k' /\ (work_left s' k' < work_left s k)%nat.
Proof.
  intros Hs Hi St. pose proof (lookup_lt_Some _ _ _ Hi) as Hlt.
  remember false as bad eqn:Eb. unfold stopping in St. 
  destruct Hs as [s k0 fin oks rest Hi' Hpc Hp Hl|s k0 m Hi' Hpc Hm Hm2 Hm0|s k0 Hi' Hpc|
    s k0 req reqs got acc Hi' Hpc|s k0 closed fin oks rest Hi' Hpc Hp Hl];
    rewrite Hi' in Hi; injection Hi as <-; (destruct St as [St|?]; [|congruence]);
    cbn [set_worker sy_workers]; rewrite list_lookup_insert_eq by done; eexists; (split; [done|]);
    unfold work_left; rewrite Hpc; cbn [set_worker sy_ring].
  - split; [by left|]. cbn. lia.
  - unfold worker_dequeued. rewrite length_drop. split; [by left|]. cbn [set_pc wk_pc].
    destruct (take m (sy_ring s)) as [|r rs] eqn:E; cbn [pc_left].
    + assert (m = 0 \/ sy_ring s = [])%nat as [->| ->]; [|cbn; lia..]. destruct m; [auto|]. right. by destruct (sy_ring s).
    + assert (Hlen : length (r :: rs) = m) by (rewrite <- E, length_take; lia). rewrite Hlen. cbn in Hlen. lia.
  - unfold worker_check. rewrite St. split; [by left|]. cbn. lia.
  - unfold worker_turn. rewrite Hpc. apply (f_equal negb) in Eb. rewrite negb_involutive in Eb. cbn in Eb.
    apply andb_true_iff in Eb as [-> ->]. cbn [negb].
    destruct acc; (split; [by left|]); cbn [fst wk_pc]; destruct reqs; cbn; lia.
  - split; [by right|]. cbn. lia.
Qed.

(** The steps of others, and retries, do not take it further away. *)
Lemma other_step i j bad s s' k : worker_step j bad s s' -> (j <> i \/ bad = true) -> sy_workers s !! i = Some k ->
  sy_workers s' !! i = Some k /\ (work_left s' k <= work_left s k)%nat.
Proof.
  intros Hs Hd Hi. unfold work_left. destruct Hs as [s k0 fin oks rest Hi' Hpc Hp Hl|s k0 m Hi' Hpc Hm Hm2 Hm0|s k0 Hi' Hpc|
    s k0 req reqs got acc Hi' Hpc|s k0 closed fin oks rest Hi' Hpc Hp Hl]; cbn [set_worker sy_workers sy_ring].
  1, 3, 5: destruct Hd as [Hd|]; [|done]; by rewrite list_lookup_insert_ne by done.
  - destruct Hd as [Hd|]; [|done]. rewrite list_lookup_insert_ne, length_drop by done. split; [done|lia].
  - split; [|done]. destruct (decide (j = i)) as [->|]; [|by rewrite list_lookup_insert_ne by done].
    destruct Hd as [|Hb]; [done|]. rewrite Hi in Hi'. injection Hi' as <-.
    rewrite list_lookup_insert_eq by (by eapply lookup_lt_Some). f_equal. unfold worker_turn. rewrite Hpc.
    destruct got; cbn [negb] in *; [|done]. by destruct (dispatchable req); cbn in *.
Qed.

Lemma Stop_step i j s k k0 : sy_workers s !! j = Some k0 -> sy_workers s !! i = Some k -> stopping k ->
  exists k', sy_workers (set_worker s j (SpdkWorker_Stop k0) []) !! i = Some k' /\ stopping k' /\
    work_left (set_worker s j (SpdkWorker_Stop k0) []) k' = work_left s k.
Proof.
  intros Hj Hi St. cbn [set_worker sy_workers]. destruct (decide (j = i)) as [->|Hd].
  - rewrite Hi in Hj. injection Hj as <-. rewrite list_lookup_insert_eq by (by eapply lookup_lt_Some).
    eexists. split; [done|]. by split; [left|].
  - rewrite list_lookup_insert_ne by done. eauto.
Qed.

Lemma closing_bound i n s s' : closing i n s s' -> forall k, sy_workers s !! i = Some k -> stopping k ->
  exists k', sy_workers s' !! i = Some k' /\ stopping k' /\ (n + work_left s' k' <= work_left s k)%nat.
Proof.
  induction 1 as [s|n s s1 s2 Hs _ IH|n s s1 s2 Hs _ IH|j bad n s s1 s2 Hd Hs _ IH|j n s k0 s2 Hj _ IH]; intros k Hi St.
  - eauto.
  - destruct (own_step _ _ _ _ Hs Hi St) as (k1 & Hi1 & St1 & Hlt).
    destruct (IH k1 Hi1 St1) as (k2 & Hi2 & St2 & Hle). exists k2. split_and!; [done..|lia].
  - destruct (other_step i i true s s1 k Hs (or_intror eq_refl) Hi) as [Hi1 Hle1].
    destruct (IH k Hi1 St) as (k2 & Hi2 & St2 & Hle). exists k2. split_and!; [done..|lia].
  - destruct (other_step i j bad s s1 k Hs (or_introl Hd) Hi) as [Hi1 Hle1].
    destruct (IH k Hi1 St) as (k2 & Hi2 & St2 & Hle). exists k2. split_and!; [done..|lia].
  - destruct (Stop_step i j s k k0 Hj Hi St) as (k1 & Hi1 & St1 & Heq).
    destruct (IH k1 Hi1 St1) as (k2 & Hi2 & St2 & Hle). exists k2. split_and!; [done..|lia].
Qed.

(** A worker that has not ended can go on, unless it holds a request that it
    has no case for. *)
Lemma worker_progress i s k : workers_inv s -> sy_workers s !! i = Some k -> wk_pc k <> Exited ->
  Forall (fun r => dispatchable r = true) (wk_batch k) -> exists s', worker_step i false s s'.
Proof.
  intros W Hi Hpc Hd. destruct (wk_pc k) as [| | |[|r rs]| |] eqn:E; [| | |exfalso| | |done].
  - eexists. by apply (ws_poll i s k [] [] (wk_io k)).
  - eexists. apply (ws_dequeue i s k (Nat.min kBatchNums (length (sy_ring s))) Hi E); [lia|lia|].
    unfold kBatchNums. destruct (sy_ring s); [done|cbn; lia].
  - eexists. by apply (ws_check i s k).
  - exact (Forall_lookup_1 _ _ _ _ (wi_batch s W) Hi E).
  - unfold wk_batch in Hd. rewrite E in Hd. apply Forall_cons in Hd as [Hr _].
    pose proof (ws_turn i s k r rs true true Hi E) as Hs. rewrite Hr in Hs. eauto.
  - eexists. by apply (ws_finish i s k true [] [] (wk_io k)).
Qed.

Lemma worker_step_accepted i bad s s' : worker_step i bad s s' -> sy_accepted s' = sy_accepted s.
Proof. by destruct 1. Qed.

Lemma closing_keeps i n s s' : workers_inv s -> closing i n s s' -> workers_inv s' /\ sy_accepted s' = sy_accepted s.
Proof.
  intros W Hc. induction Hc as [s|n s s1 s2 Hs _ IH|n s s1 s2 Hs _ IH|j bad n s s1 s2 _ Hs _ IH|j n s k s2 Hj _ IH];
    [done|..].
  1-3: rewrite <- (worker_step_accepted _ _ _ _ Hs); eauto using worker_step_inv.
  apply IH. apply (workers_step_inv s); [done|]. by apply wsy_stop.
Qed.

(** ** Claims *)



(** ** Runs *)

Definition demo_req : Request := Request_new kTypeRead.

(** A request that the second of two workers takes and the device completes. *)
Lemma demo_run : exists s, rtc workers_step (Workers_new 2) s /\
  sy_calls s = [(demo_req, true)] /\ sy_ring s = [] /\ Forall (fun k => held k = []) (sy_workers s).
Proof.
  eexists. split.
  { eapply rtc_l; [apply (wsy_accept _ demo_req)|].
    eapply rtc_l; [by eapply wsy_worker, (ws_poll 1 _ _ [] [] [])|].
    eapply rtc_l; [eapply wsy_worker, (ws_dequeue 1 _ _ 1); [done|done|vm_compute; lia|done|done]|].
    eapply rtc_l; [by eapply wsy_worker, (ws_turn 1 _ _ _ _ true true)|].
    eapply rtc_l; [by eapply wsy_worker, (ws_poll 1 _ _ [demo_req] [true] [])|]. apply rtc_refl. }
  cbn. split_and!; [done|done|by repeat constructor].
Qed.


(** A worker with work in the ring that was told to stop. *)
Definition demo_stopping : Workers :=
  mkWorkers [demo_req] [mkWorker kSpdkWorkerStopping AtPoll []] [] [demo_req] [].

Definition demo_polled : Workers :=
  set_worker demo_stopping 0 (worker_polled (mkWorker kSpdkWorkerStopping AtPoll []) []) [].


(** A request that is accepted before its worker is told to stop can stay in
    the ring: the dequeue finds nothing, the request is accepted, the worker is
    told to stop, and the check that follows the dequeue ends the loop. *)
Lemma accepted_request_left_behind : exists s s', rtc workers_step (Workers_new 1) s /\
  sy_ring s = [demo_req] /\ Forall (fun k => wk_status k = kSpdkWorkerInit) (sy_workers s) /\
  rtc workers_step s s' /\ sy_ring s' = [demo_req] /\ Forall (fun k => wk_pc k = Exited) (sy_workers s').
Proof.
  eexists _, _. split.
  { eapply rtc_l; [by eapply wsy_worker, (ws_poll 0 _ _ [] [] [])|].
    eapply rtc_l; [eapply wsy_worker, (ws_dequeue 0 _ _ 0); [done|done|vm_compute; lia|done|done]|].
    eapply rtc_l; [apply (wsy_accept _ demo_req)|]. apply rtc_refl. }
  split_and!; [done|by repeat constructor| | |].
  { eapply rtc_l; [by apply (wsy_stop 0)|].
    eapply rtc_l; [by eapply wsy_worker, (ws_check 0)|].
    eapply rtc_l; [by eapply wsy_worker, (ws_finish 0 _ _ true [] [] [])|]. apply rtc_refl. }
  all: cbn; by repeat constructor.
Qed.

(** A worker ends without waiting for the commands it handed to the device. *)
Lemma exit_with_io_in_flight : exists s, rtc workers_step (Workers_new 1) s /\
  sy_calls s = [] /\ sy_accepted s = [demo_req] /\
  Forall (fun k => wk_pc k = Exited /\ wk_status k = kSpdkWorkerStopped /\ wk_io k = [demo_req]) (sy_workers s).
Proof.
  eexists. split.
  { eapply rtc_l; [apply (wsy_accept _ demo_req)|].
    eapply rtc_l; [by eapply wsy_worker, (ws_poll 0 _ _ [] [] [])|].
    eapply rtc_l; [eapply wsy_worker, (ws_dequeue 0 _ _ 1); [done|done|vm_compute; lia|done|done]|].
    eapply rtc_l; [by eapply wsy_worker, (ws_turn 0 _ _ _ _ true true)|].
    eapply rtc_l; [by apply (wsy_stop 0)|].
    eapply rtc_l; [by eapply wsy_worker, (ws_poll 0 _ _ [] [] [demo_req])|].
    eapply rtc_l; [eapply wsy_worker, (ws_dequeue 0 _ _ 0); [done|done|vm_compute; lia|vm_compute; lia|done]|].
    eapply rtc_l; [by eapply wsy_worker, (ws_check 0)|].
    eapply rtc_l; [by eapply wsy_worker, (ws_finish 0 _ _ true [] [] [demo_req])|]. apply rtc_refl. }
  cbn. split_and!; [done|done|by repeat constructor].
Qed.
