(* ===== verification/SpdkMgr.v ===== *)
(** * SpdkMgr

    The life of the device (src/src/extentserver/spdk_mgr.h, spdk_mgr.cpp,
    nvme_device.cpp): the SPDK environment, the block device and the threads
    that work on it, from the start of the extent server to its end.  What the
    threads do in between is in SpdkWorker.v. *)

From Stdlib Require Import Ascii.
From S2P Require Import Prelude Status Codec Net IniParser Decimal Config SpdkWorker.

#[local] Open Scope string_scope.
#[local] Open Scope Z_scope.

(** ** Data *)

Inductive SpdkMgrStatus : Type := kSpdkMgrInit | kSpdkMgrStarted | kSpdkMgrStopping | kSpdkMgrStopped.

#[export] Instance SpdkMgrStatus_eq_dec : EqDecision SpdkMgrStatus.
Proof. solve_decision. Defined.

(** What [initSpdkEnv] sets of [spdk_env_opts]. *)
Record EnvOpts : Type := mkEnvOpts {
  o_name : string; o_core_mask : string; o_shm_id : Z; o_mem_channel : Z; o_master_core : Z; o_mem_size : Z;
  o_num_pci_addr : Z; o_no_pci : bool; o_hugepage_single_segments : bool; o_unlink_hugepage : bool; o_hugedir : string
}.

(** A pointer that the constructor does not set. *)
Inductive PollerPtr : Type := PollerUnset | PollerNull | PollerSet.

(** An entry of [workers_]: null, a running worker, or a deleted object. *)
Inductive WorkerSlot : Type := NullSlot | LiveSlot | DeletedSlot.

(** What the manager did, in order. *)
Inductive DevEvent : Type :=
  | EvEnvUp | EvOpened (desc : Z) | EvStarted (i : nat) | EvJoined (i : nat) | EvClosed (desc : Z) | EvEnvDown.

(** [SpdkMgr]: the options are those of [SpdkCfg], copied one by one. *)
Record SpdkMgr : Type := mkSpdkMgr {
  options_ : SpdkCfg;
  h_bdev : option Z;
  h_desc : option Z;
  workers_ : list WorkerSlot;
  spdk_rpc_poller_ : PollerPtr;
  mgr_status_ : SpdkMgrStatus;
  events : list DevEvent
}.

Definition SpdkMgr_new (cfg : SpdkCfg) : SpdkMgr := mkSpdkMgr cfg None None [] PollerUnset kSpdkMgrInit [].

Definition set_mgr_status (m : SpdkMgr) (s : SpdkMgrStatus) (evs : list DevEvent) : SpdkMgr :=
  mkSpdkMgr (options_ m) (h_bdev m) (h_desc m) (workers_ m) (spdk_rpc_poller_ m) s (events m ++ evs).
Definition set_poller (m : SpdkMgr) (p : PollerPtr) : SpdkMgr :=
  mkSpdkMgr (options_ m) (h_bdev m) (h_desc m) (workers_ m) p (mgr_status_ m) (events m).
Definition set_handler (m : SpdkMgr) (bdev desc : option Z) (evs : list DevEvent) : SpdkMgr :=
  mkSpdkMgr (options_ m) bdev desc (workers_ m) (spdk_rpc_poller_ m) (mgr_status_ m) (events m ++ evs).
Definition set_workers (m : SpdkMgr) (ws : list WorkerSlot) (evs : list DevEvent) : SpdkMgr :=
  mkSpdkMgr (options_ m) (h_bdev m) (h_desc m) ws (spdk_rpc_poller_ m) (mgr_status_ m) (events m ++ evs).

(** What the manager calls of SPDK, on the state [W] of the library and the
    calling thread. *)
Class Spdk (W : Type) := {
  spdk_env_opts_default : EnvOpts;
  spdk_env_init : W -> EnvOpts -> Z * W;
  spdk_get_thread : W -> bool;
  spdk_thread_create : W -> string -> bool * W;
  spdk_thread_send_msg : W -> Z * W;
  (** the result the callback gets; [None]: it is never called *)
  spdk_app_json_config_load : W -> string -> option (Z * W);
  spdk_rpc_verify_methods : W -> bool;
  spdk_rpc_listen : W -> string -> Z * W;
  spdk_poller_register : W -> bool * W;
  spdk_bdev_get_by_name : W -> string -> option Z;
  spdk_bdev_open : W -> Z -> Z * option Z * W;
  spdk_bdev_close : W -> Z -> W;
  spdk_subsystem_fini : W -> W;
  (** exit, poll until exited, destroy; [None]: it never exits *)
  spdk_thread_end : W -> option W;
  spdk_put_io_channel : W -> W;
  spdk_thread_poll : W -> W;
  (** of a device: block size, blocks, buffer alignment, write unit *)
  spdk_bdev_info : Z -> Z * Z * Z * Z
}.

Section Manager.
Context `{Spdk W}.
Implicit Types (w : W) (m : SpdkMgr).

(** ** The environment *)

Definition getOrCreateSpdkThread w (name : string) : bool * W :=
  if spdk_get_thread w then (true, w) else spdk_thread_create w name.

(** 0 or an error code. *)
Definition initSpdkRpc w m : Z * SpdkMgr * W :=
  if negb (spdk_rpc_verify_methods w) then (CYPRE_ES_SPDK_RPC_REGISTER_ERROR, m, w)
  else
    let '(rc, w) := spdk_rpc_listen w (sc_rpc_addr (options_ m)) in
    if negb (rc =? 0) then (CYPRE_ES_SPDK_RPC_LISTEN_ERROR, m, w)
    else let '(p, w) := spdk_poller_register w in (0, set_poller m (if p then PollerSet else PollerNull), w).

(** The callback of the configuration load does not use its result. *)
Definition initBdevSubsystemDoneCallback (rc : Z) w m : Z * SpdkMgr * W := initSpdkRpc w m.

Definition initBdevSubsystem w m : option (Status * SpdkMgr * W) :=
  let '(th, w) := getOrCreateSpdkThread w "init_spdk_thread" in
  if negb th then Some (mkStatus CYPRE_ES_SPDK_THREAD_CREATE_FAIL "couldn't create spdk init thread", m, w)
  else
    let '(rc, w) := spdk_thread_send_msg w in
    if negb (rc =? 0) then Some (mkStatus rc "couldn't send init bdev msg", m, w)
    else
      '(rc, w) ← spdk_app_json_config_load w (sc_json_config_file (options_ m));
      let '(rc, m, w) := initBdevSubsystemDoneCallback rc w m in
      if negb (rc =? 0) then Some (mkStatus rc "couldn't init spdk bdev subsystem", m, w)
      else Some (Status_default, m, w).

Definition initSpdkConf m : Status :=
  if String.eqb (sc_rpc_addr (options_ m)) "" then mkStatus CYPRE_ER_INVALID_ARGUMENT "spdk rpc_addr path not found"
  else if String.eqb (sc_json_config_file (options_ m)) "" then
    mkStatus CYPRE_ER_INVALID_ARGUMENT "spdk json config file not found"
  else Status_default.

Definition env_opts (d : EnvOpts) (o : SpdkCfg) : EnvOpts :=
  let unless (v : Z) (d : Z) (none : Z) := if negb (v =? none) then v else d in
  let nonempty (v d : string) := if negb (String.eqb v "") then v else d in
  mkEnvOpts (nonempty (sc_name o) (o_name d)) (nonempty (sc_core_mask o) (o_core_mask d))
    (unless (sc_shm_id o) (o_shm_id d) (-1)) (unless (sc_mem_channel o) (o_mem_channel d) (-1))
    (unless (sc_master_core o) (o_master_core d) (-1)) (unless (sc_mem_size o) (o_mem_size d) (-1))
    (unless (sc_num_pci_addr o) (o_num_pci_addr d) 0) (sc_no_pci o) (sc_hugepage_single_segments o)
    (sc_unlink_hugepage o) (nonempty (sc_huge_dir o) (o_hugedir d)).

Definition initSpdkEnv w m : Status * W :=
  let '(rc, w) := spdk_env_init w (env_opts spdk_env_opts_default (options_ m)) in
  (if rc <? 0 then mkStatus CYPRE_ES_SPDK_INIT_ERROR "init spdk env failed" else Status_default, w).

Definition InitEnv w m : option (Status * SpdkMgr * W) :=
  if negb (bool_decide (mgr_status_ m = kSpdkMgrInit)) then Some (Status_default, m, w)
  else
    let s := initSpdkConf m in
    if negb (ok s) then Some (s, m, w)
    else
      let '(s, w) := initSpdkEnv w m in
      if negb (ok s) then Some (s, m, w)
      else
        '(s, m, w) ← initBdevSubsystem w m;
        if negb (ok s) then Some (s, m, w)
        else Some (s, set_mgr_status m kSpdkMgrStarted [EvEnvUp], w).

(** The loop ends when the callback ran or the thread is idle; the result is 0
    in both cases. *)
Definition finishBdevSubsystem w m : option (Status * W) :=
  if negb (spdk_get_thread w) then Some (mkStatus CYPRE_ES_SPDK_THREAD_NULL "the mgr's spkd thread is null", w)
  else
    let '(rc, w) := spdk_thread_send_msg w in
    if negb (rc =? 0) then Some (mkStatus rc "couldn't send message to finish bdev subsystem", w)
    else w ← spdk_thread_end (spdk_subsystem_fini w); Some (Status_default, w).

(** [has_thread], [has_channel]: the worker's thread and I/O channel. *)
Definition finishSpdkIoThread w (has_thread has_channel : bool) : option (Status * W) :=
  if negb has_thread then Some (mkStatus CYPRE_ES_SPDK_THREAD_NULL "the worker's spkd thread is null", w)
  else if negb has_channel then w ← spdk_thread_end w; Some (Status_default, w)
  else
    let '(rc, w) := spdk_thread_send_msg w in
    if negb (rc =? 0) then Some (mkStatus rc "couldn't send message to close io channel", w)
    else w ← spdk_thread_end (spdk_put_io_channel w); Some (Status_default, w).

Definition CloseEnv w m : option (Status * SpdkMgr * W) :=
  if negb (bool_decide (mgr_status_ m = kSpdkMgrStarted)) then Some (Status_default, m, w)
  else
    let m := set_mgr_status m kSpdkMgrStopping [] in
    '(s, w) ← finishBdevSubsystem w m;
    if negb (ok s) then Some (s, m, w) else Some (Status_default, set_mgr_status m kSpdkMgrStopped [EvEnvDown], w).

(** [None]: the poller is read before it was set. *)
Definition PeriodDeviceAdmin w m : option (Status * W) :=
  if negb (bool_decide (mgr_status_ m = kSpdkMgrStarted)) then Some (Status_default, w)
  else if negb (spdk_get_thread w) then Some (mkStatus CYPRE_ES_SPDK_THREAD_NULL "the mgr's spkd thread is null", w)
  else
    match spdk_rpc_poller_ m with
    | PollerUnset => None
    | PollerNull => Some (mkStatus CYPRE_ES_SPDK_RPC_CLOSED "spdk rpc poller is null", w)
    | PollerSet => Some (Status_default, spdk_thread_poll w)
    end.

(** ** The block device *)

(** The code, the handler and the state. *)
Definition openSpdkBdevFunc w m (dev_name : string) : Z * SpdkMgr * W :=
  match spdk_bdev_get_by_name w dev_name with
  | None => (CYPRE_ES_DISK_NOT_FOUND, set_handler m None (h_desc m) [], w)
  | Some bdev =>
      let '(rc, desc, w) := spdk_bdev_open w bdev in
      (rc, match desc with
           | Some d => set_handler m (Some bdev) (Some d) [EvOpened d]
           | None => set_handler m (Some bdev) (h_desc m) []
           end, w)
  end.

Definition SpdkMgr_Open w m (dev_name : string) : Status * SpdkMgr * W :=
  let '(th, w) := getOrCreateSpdkThread w dev_name in
  if negb th then (mkStatus CYPRE_ES_SPDK_THREAD_CREATE_FAIL "couldn't create bdev io thread", m, w)
  else
    let '(rc, w) := spdk_thread_send_msg w in
    if negb (rc =? 0) then (mkStatus rc "couldn't send open bdev msg", m, w)
    else
      let '(rc, m, w) := openSpdkBdevFunc w m dev_name in
      (if negb (rc =? 0) then mkStatus rc "couldn't open spdk bdev" else Status_default, m, w).

(** The descriptor is closed and kept. *)
Definition closeSpdkBdevFunc w m : Z * SpdkMgr * W :=
  match h_bdev m, h_desc m with
  | Some _, Some d => (0, set_handler m (h_bdev m) (h_desc m) [EvClosed d], spdk_bdev_close w d)
  | _, _ => (CYPRE_ES_DISK_NOT_FOUND, m, w)
  end.

Definition SpdkMgr_Close w m (dev_name : string) : Status * SpdkMgr * W :=
  let '(th, w) := getOrCreateSpdkThread w dev_name in
  if negb th then (mkStatus CYPRE_ES_SPDK_THREAD_CREATE_FAIL "the mgr's spkd thread is null", m, w)
  else
    let '(rc, w) := spdk_thread_send_msg w in
    if negb (rc =? 0) then (mkStatus rc "couldn't send message to close bdev", m, w)
    else
      let '(rc, m, w) := closeSpdkBdevFunc w m in
      (if negb (rc =? 0) && negb (rc =? CYPRE_ES_DISK_NOT_FOUND) then mkStatus rc "couldn't close bdev"
       else Status_default, m, w).
End Manager.

(** ** The workers *)

(** [butil::StringSplitter] over the fields between commas that are not empty:
    [field()] is where a field starts in the whole string. *)
Fixpoint comma_fields (in_field : bool) (s : string) : list string :=
  match s with
  | "" => []
  | String c s' =>
      if Ascii.eqb c "," then comma_fields false s'
      else if in_field then comma_fields true s' else s :: comma_fields true s'
  end.

(** [std::stoi]; [None]: it throws. *)
Definition stoi (s : string) : option Z :=
  '(n, _) ← strtol 10 s;
  if (-2147483648 <=? n) && (n <=? 2147483647) then Some n else None.

(** [None]: a field that is no number. *)
Definition getCoreMask (core_mask : string) : option (list Z) :=
  if String.eqb core_mask "" then Some [] else mapM stoi (comma_fields false core_mask).

(** [vector::resize]. *)
Definition resize_slots (n : nat) (ws : list WorkerSlot) : list WorkerSlot := take n ws ++ replicate (n - length ws) NullSlot.

(** The loop over the workers, from [i]; [spawn] is what [pthread_create]
    returns, [bind] whether a thread is bound to a core. *)
Fixpoint StartWorkers_loop (spawn : nat -> Z) (bind : nat -> Z -> bool) (set_affinity : bool) (cores : list Z)
    (n i : nat) (m : SpdkMgr) : Status * SpdkMgr :=
  match n with
  | O => (Status_default, m)
  | S n' =>
      let ws := <[i := LiveSlot]> (workers_ m) in
      if negb (spawn i =? 0) then
        (mkStatus CYPRE_ES_PTHREAD_CREATE_ERROR "Couldn't create worker thread", set_workers m ws [])
      else
        let m := set_workers m ws [EvStarted i] in
        if set_affinity && negb (bind i (cores !!! i)) then
          (mkStatus CYPRE_ES_PTHREAD_BIND_CORE_ERROR "Couldn't bind pthread to cpu core", m)
        else StartWorkers_loop spawn bind set_affinity cores n' (S i) m
  end.

(** [ring]: the status of [CypreRing::Init].  [None]: a negative number of
    workers, or a core mask that is no list of numbers. *)
Definition StartWorkers (cfg : ExtentServerCfg) (ring : Status) (spawn : nat -> Z) (bind : nat -> Z -> bool)
    (m : SpdkMgr) : option (Status * SpdkMgr) :=
  if negb (ok ring) then Some (ring, m)
  else
    let num_workers := esc_num_spdk_workers cfg in
    if num_workers <? 0 then None
    else
      let n := Z.to_nat num_workers in
      let m := set_workers m (resize_slots n (workers_ m)) [] in
      core_mask ← getCoreMask (esc_spdk_worker_core_mask cfg);
      let set_affinity := negb (bool_decide (core_mask = []) || negb (Z.of_nat (length core_mask) =? num_workers)) in
      Some (StartWorkers_loop spawn bind set_affinity core_mask n 0 m).

(** The loop of [StopWorkers]; [join]: what [pthread_join] returns and the
    status the worker left.  [None]: it uses a worker that does not exist, or
    the status of a failed join. *)
Fixpoint StopWorkers_loop (join : nat -> Z * SpdkWorkerStatus) (n i : nat) (m : SpdkMgr) : option (Status * SpdkMgr) :=
  match n with
  | O => Some (Status_default, set_workers m [] [])
  | S n' =>
      match workers_ m !! i with
      | Some LiveSlot =>
          let '(ret, th_status) := join i in
          if negb (ret =? 0) then None
          else
            match th_status with
            | kSpdkWorkerStopped =>
                StopWorkers_loop join n' (S i) (set_workers m (<[i := DeletedSlot]> (workers_ m)) [EvJoined i])
            | _ => Some (mkStatus CYPRE_ES_PTHREAD_JOIN_ERROR "couldn't stop worker thread", set_workers m (workers_ m) [EvJoined i])
            end
      | _ => None
      end
  end.

Definition StopWorkers (cfg : ExtentServerCfg) (join : nat -> Z * SpdkWorkerStatus) (m : SpdkMgr)
  : option (Status * SpdkMgr) :=
  StopWorkers_loop join (Z.to_nat (esc_num_spdk_workers cfg)) 0 m.

(** ** NVMe device *)

Record NVMeDevice : Type := mkNVMeDevice {
  nd_name : string; spdk_mgr_ : SpdkMgr; capacity_ : Z; block_size_ : Z; write_unit_size_ : Z; nd_align_size_ : Z
}.

Definition NVMeDevice_new (name : string) (cfg : SpdkCfg) : NVMeDevice :=
  mkNVMeDevice name (SpdkMgr_new cfg) 0 0 0 0.

Definition set_spdk_mgr (d : NVMeDevice) (m : SpdkMgr) : NVMeDevice :=
  mkNVMeDevice (nd_name d) m (capacity_ d) (block_size_ d) (write_unit_size_ d) (nd_align_size_ d).

(** What is outside the model during a start or a stop: the ring, the threads
    and the joins. *)
Record ThreadEnv : Type := mkThreadEnv {
  te_ring : Status; te_spawn : nat -> Z; te_bind : nat -> Z -> bool; te_join : nat -> Z * SpdkWorkerStatus
}.

Section Device.
Context `{Spdk W}.
Implicit Types (w : W) (d : NVMeDevice).

Definition NVMeDevice_InitEnv w d : option (Status * NVMeDevice * W) :=
  '(s, m, w) ← InitEnv w (spdk_mgr_ d); Some (s, set_spdk_mgr d m, w).

Definition NVMeDevice_CloseEnv w d : option (Status * NVMeDevice * W) :=
  '(s, m, w) ← CloseEnv w (spdk_mgr_ d); Some (s, set_spdk_mgr d m, w).

(** [None]: also when the handler has no device. *)
Definition NVMeDevice_Open (cfg : ExtentServerCfg) (te : ThreadEnv) w d : option (Status * NVMeDevice * W) :=
  let '(s, m, w) := SpdkMgr_Open w (spdk_mgr_ d) (nd_name d) in
  if negb (ok s) then Some (s, set_spdk_mgr d m, w)
  else
    bdev ← h_bdev m;
    let '(block_size, block_nums, buf_align, write_unit) := spdk_bdev_info bdev in
    '(s, m) ← StartWorkers cfg (te_ring te) (te_spawn te) (te_bind te) m;
    Some (s, mkNVMeDevice (nd_name d) m (wrap64 (block_size * block_nums)) block_size
               (wrap32 (write_unit * block_size)) (wrap64 (buf_align * block_size)), w).

Definition NVMeDevice_Close (cfg : ExtentServerCfg) (te : ThreadEnv) w d : option (Status * NVMeDevice * W) :=
  '(s, m) ← StopWorkers cfg (te_join te) (spdk_mgr_ d);
  if negb (ok s) then Some (s, set_spdk_mgr d m, w)
  else let '(s, m, w) := SpdkMgr_Close w m (nd_name d) in Some (s, set_spdk_mgr d m, w).
End Device.

(** ** Core masks *)

(** The way a mask is written: the cores, between commas. *)
Fixpoint core_list (cores : list Z) : string :=
  match cores with
  | [] => ""
  | [c] => dec c
  | c :: cores' => dec c +:+ "," +:+ core_list cores'
  end.

Lemma comma_fields_skip t rest : Forall (fun c => is_digit c = true) (list_ascii_of_string t) ->
  comma_fields true (t +:+ rest) = comma_fields true rest.
Proof.
  induction t as [|c t IH]; intros Hd; [done|]. cbn in Hd. apply Forall_cons in Hd as [Hc Hd]. cbn [String.append comma_fields].
  rewrite (digit_other c ",") by done. by apply IH.
Qed.

Lemma comma_fields_dec z rest : 0 <= z ->
  comma_fields false (dec z +:+ rest) = (dec z +:+ rest) :: comma_fields true rest.
Proof.
  intros Hz. pose proof (dec_digits z Hz) as Hd. destruct (dec_head z Hz) as (c & s & E & Hc). rewrite E in *.
  cbn in Hd. apply Forall_cons in Hd as [_ Hd]. cbn [String.append comma_fields].
  rewrite (digit_other c ",") by done. by rewrite comma_fields_skip.
Qed.

Definition core_ok (z : Z) : Prop := 0 <= z <= 2147483647.

Lemma stoi_dec z rest : core_ok z -> starts_digit 10 rest = false -> stoi (dec z +:+ rest) = Some z.
Proof.
  intros Hz Hr. unfold core_ok in Hz. unfold stoi. rewrite strtol_dec by (done || (unfold LONG_MAX; lia)). cbn.
  destruct (Z.leb_spec (-2147483648) z), (Z.leb_spec z 2147483647); cbn; done || lia.
Qed.

(** A mask that lists cores is read as these cores, although every field but
    the last is followed by the rest of the list. *)
Lemma getCoreMask_list cores : Forall core_ok cores -> getCoreMask (core_list cores) = Some cores.
Proof.
  intros Hc. assert (Hm : mapM stoi (comma_fields false (core_list cores)) = Some cores).
  { induction Hc as [|c cores Hc Hcs IH]; [done|]. destruct cores as [|c2 cores].
    - cbn [core_list]. rewrite <- (str_append_nil_r (dec c)), comma_fields_dec by apply Hc. cbn [comma_fields mapM].
      by rewrite (stoi_dec c "") by done.
    - change (core_list (c :: c2 :: cores)) with (dec c +:+ "," +:+ core_list (c2 :: cores)).
      rewrite comma_fields_dec by apply Hc.
      change (comma_fields true ("," +:+ core_list (c2 :: cores))) with (comma_fields false (core_list (c2 :: cores))).
      cbn [mapM]. rewrite stoi_dec by done. cbn [mbind option_bind]. by rewrite IH. }
  unfold getCoreMask. destruct (String.eqb_spec (core_list cores) "") as [E|]; [|done].
  rewrite E in Hm. cbn in Hm. by injection Hm as <-.
Qed.

(** ** Start and stop *)

Lemma rc_not_ok rc t : rc <> 0 -> ok (mkStatus rc t) = false.
Proof. intros Hrc. by apply Z.eqb_neq. Qed.

(** [spdk_bdev_open] gives a descriptor exactly when it returns 0. *)
Class SpdkLaws (W : Type) `{Spdk W} : Prop := {
  spdk_bdev_open_law : forall (w : W) bdev rc desc w', spdk_bdev_open w bdev = (rc, desc, w') -> rc = 0 <-> is_Some desc
}.

Lemma StartWorkers_loop_ok spawn bind aff cores n : forall i m s m',
  (i + n = length (workers_ m))%nat -> take i (workers_ m) = replicate i LiveSlot ->
  StartWorkers_loop spawn bind aff cores n i m = (s, m') -> ok s = true ->
  m' = set_workers m (replicate (i + n) LiveSlot) (EvStarted <$> seq i n).
Proof.
  induction n as [|n IH]; intros i m s m' Hlen Hl; cbn [StartWorkers_loop].
  - intros [= _ <-] _. unfold set_workers. cbn. rewrite app_nil_r. rewrite take_ge in Hl by lia. destruct m; cbn in *. 
    by rewrite Hl, Nat.add_0_r.
  - destruct (spawn i =? 0); cbn [negb]; [|by intros [= <- _]].
    destruct (aff && _); [by intros [= <- _]|]. intros E Hok. apply IH in E; [| | |done].
    + rewrite E. unfold set_workers. cbn. rewrite <- app_assoc. by rewrite Nat.add_succ_r.
    + cbn. rewrite length_insert. lia.
    + cbn [workers_ set_workers]. rewrite (take_S_r _ _ LiveSlot) by (apply list_lookup_insert_eq; lia).
      rewrite take_insert_ge, Hl by lia. by rewrite replicate_S_end.
Qed.

Lemma StopWorkers_loop_ok join n : forall i m s m',
  (i + n = length (workers_ m))%nat -> drop i (workers_ m) = replicate n LiveSlot ->
  StopWorkers_loop join n i m = Some (s, m') -> ok s = true -> m' = set_workers m [] (EvJoined <$> seq i n).
Proof.
  induction n as [|n IH]; intros i m s m' Hlen Hl; cbn [StopWorkers_loop]; [by intros [= _ <-]|].
  assert (Hi : workers_ m !! i = Some LiveSlot) by (by rewrite <- (Nat.add_0_r i), <- lookup_drop, Hl).
  rewrite Hi. destruct (join i) as [ret st]. destruct (ret =? 0); cbn [negb]; [|done].
  destruct st; [by intros [= <- _]|by intros [= <- _]|]. intros E Hok. apply IH in E; [| | |done].
  - rewrite E. unfold set_workers. cbn. by rewrite <- app_assoc.
  - cbn. rewrite length_insert. lia.
  - cbn [workers_ set_workers]. rewrite drop_insert_lt by lia. by rewrite <- Nat.add_1_r, <- drop_drop, Hl.
Qed.

Definition env_up (m : SpdkMgr) : Prop :=
  mgr_status_ m = kSpdkMgrStarted /\ h_desc m = None /\ workers_ m = [] /\ spdk_rpc_poller_ m <> PollerUnset /\
  events m = [EvEnvUp].

(** The device is open, with [n] workers. *)
Definition device_up (n : nat) (desc : Z) (m : SpdkMgr) : Prop :=
  mgr_status_ m = kSpdkMgrStarted /\ is_Some (h_bdev m) /\ h_desc m = Some desc /\ workers_ m = replicate n LiveSlot /\
  spdk_rpc_poller_ m <> PollerUnset /\ events m = ([EvEnvUp; EvOpened desc] ++ (EvStarted <$> seq 0 n))%list.

Section Session.
Context `{SpdkLaws W}.
Implicit Types (w : W) (m : SpdkMgr).

Lemma initBdevSubsystem_spec w m s m' w' : initBdevSubsystem w m = Some (s, m', w') ->
  mgr_status_ m' = mgr_status_ m /\ h_desc m' = h_desc m /\ workers_ m' = workers_ m /\ events m' = events m /\
  (ok s = true -> spdk_rpc_poller_ m' <> PollerUnset).
Proof.
  unfold initBdevSubsystem, initBdevSubsystemDoneCallback, initSpdkRpc.
  destruct (getOrCreateSpdkThread w _) as [[|] w2]; cbn [negb mbind option_bind]; [|by intros [= <- <- <-]].
  destruct (spdk_thread_send_msg w2) as [rc w3]. destruct (Z.eqb_spec rc 0) as [->|Hrc]; cbn [negb].
  2: { intros [= <- <- <-]. split_and!; try done. by rewrite rc_not_ok. }
  destruct (spdk_app_json_config_load w3 _) as [[rc4 w4]|]; [|done]. cbn [mbind option_bind].
  destruct (spdk_rpc_verify_methods w4); cbn [negb]; [|by intros [= <- <- <-]].
  destruct (spdk_rpc_listen w4 _) as [rc5 w5]. destruct (Z.eqb_spec rc5 0) as [->|Hrc5]; cbn [negb]; [|by intros [= <- <- <-]].
  destruct (spdk_poller_register w5) as [p w6]. intros [= <- <- <-]. split_and!; try done. by destruct p.
Qed.

Lemma InitEnv_fresh w cfg s m w' : InitEnv w (SpdkMgr_new cfg) = Some (s, m, w') ->
  if ok s then env_up m else mgr_status_ m = kSpdkMgrInit /\ events m = [].
Proof.
  unfold InitEnv. cbn [mgr_status_ SpdkMgr_new bool_decide decide negb].
  rewrite bool_decide_eq_true_2 by done. cbn [negb].
  destruct (ok (initSpdkConf _)) eqn:E1; cbn [negb]; [|intros [= <- <- <-]; by rewrite E1].
  destruct (initSpdkEnv w _) as [s1 w1]. destruct (ok s1) eqn:E2; cbn [negb]; [|intros [= <- <- <-]; by rewrite E2].
  destruct (initBdevSubsystem w1 _) as [[[s2 m2] w2]|] eqn:E3; [|done]. cbn [mbind option_bind].
  apply initBdevSubsystem_spec in E3 as (Hst & Hd & Hw & Hev & Hp). 
  destruct (ok s2) eqn:E4; cbn [negb]; intros [= <- <- <-]; rewrite E4; [|by rewrite Hst, Hev].
  unfold env_up. cbn. rewrite Hd, Hw, Hev. split_and!; [done..|by apply Hp|done].
Qed.

Lemma SpdkMgr_Open_spec w m name s m' w' : env_up m -> SpdkMgr_Open w m name = (s, m', w') ->
  mgr_status_ m' = kSpdkMgrStarted /\ workers_ m' = [] /\ spdk_rpc_poller_ m' <> PollerUnset /\
  (ok s = true -> exists desc, is_Some (h_bdev m') /\ h_desc m' = Some desc /\ events m' = [EvEnvUp; EvOpened desc]).
Proof.
  intros (Hst & Hd & Hw & Hp & Hev). unfold SpdkMgr_Open, openSpdkBdevFunc.
  destruct (getOrCreateSpdkThread w _) as [[|] w2]; cbn [negb]; [|by intros [= <- <- <-]].
  destruct (spdk_thread_send_msg w2) as [rc w3]. destruct (Z.eqb_spec rc 0) as [->|Hrc]; cbn [negb].
  2: { intros [= <- <- <-]. split_and!; try done. by rewrite rc_not_ok. }
  destruct (spdk_bdev_get_by_name w3 name) as [bdev|]; [|by intros [= <- <- <-]].
  destruct (spdk_bdev_open w3 bdev) as [[rc5 desc] w5] eqn:Eo. apply spdk_bdev_open_law in Eo.
  destruct (Z.eqb_spec rc5 0) as [->|Hrc5]; cbn [negb]; intros [= <- <- <-].
  - destruct (proj1 Eo eq_refl) as [d ->]. cbn. split_and!; [done..|]. intros _. exists d. rewrite Hev. split_and!; eauto.
  - destruct desc; cbn; (split_and!; [done..|]); by rewrite rc_not_ok.
Qed.

Lemma NVMeDevice_Open_up cfg te w d s d' w' : env_up (spdk_mgr_ d) ->
  NVMeDevice_Open cfg te w d = Some (s, d', w') -> ok s = true ->
  exists desc bdev, device_up (Z.to_nat (esc_num_spdk_workers cfg)) desc (spdk_mgr_ d') /\ nd_name d' = nd_name d /\
    let '(block_size, block_nums, _, _) := spdk_bdev_info (W:=W) bdev in capacity_ d' = wrap64 (block_size * block_nums).
Proof.
  intros Hup. unfold NVMeDevice_Open. destruct (SpdkMgr_Open _ _ _) as [[s1 m1] w1] eqn:E.
  apply SpdkMgr_Open_spec in E as (Hst & Hw & Hp & Ho); [|done].
  destruct (ok s1) eqn:E1; cbn [negb]; [|intros [= <- _ _]; congruence].
  destruct (Ho eq_refl) as (desc & [bdev Hb] & Hd & Hev). rewrite Hb. cbn [mbind option_bind].
  destruct (spdk_bdev_info bdev) as [[[bs bn] ba] wu] eqn:Ei. unfold StartWorkers.
  destruct (ok (te_ring te)) eqn:Er; cbn [negb mbind option_bind]; [|intros [= <- _ _]; congruence].
  destruct (Z.ltb_spec (esc_num_spdk_workers cfg) 0); [done|].
  destruct (getCoreMask _) as [cores|]; [|done]. cbn [mbind option_bind].
  destruct (StartWorkers_loop _ _ _ _ _ _ _) as [s2 m2] eqn:E2. intros [= <- <- <-] Hok.
  apply StartWorkers_loop_ok in E2; [| | |done].
  - exists desc, bdev. rewrite E2, Ei. unfold device_up. cbn. rewrite Hst, Hb, Hd, Hev. split_and!; eauto.
  - cbn. unfold resize_slots. rewrite Hw, take_nil, length_app, length_replicate. cbn. lia.
  - done.
Qed.

Lemma SpdkMgr_Close_spec w m name desc s m' w' : is_Some (h_bdev m) -> h_desc m = Some desc ->
  SpdkMgr_Close w m name = (s, m', w') -> ok s = true ->
  m' = set_handler m (h_bdev m) (h_desc m) [EvClosed desc].
Proof.
  intros [bdev Hb] Hd. unfold SpdkMgr_Close, closeSpdkBdevFunc.
  destruct (getOrCreateSpdkThread w _) as [[|] w2]; cbn [negb]; [|by intros [= <- _ _]].
  destruct (spdk_thread_send_msg w2) as [rc w3]. destruct (Z.eqb_spec rc 0) as [->|Hrc]; cbn [negb].
  - rewrite Hb, Hd. by intros [= <- <- <-] _.
  - intros [= <- _ _]. by rewrite rc_not_ok.
Qed.

(** The device goes down in order: when both calls return OK, every worker was
    joined, then the descriptor was closed, then the environment. *)
Lemma NVMeDevice_down n cfg te w d desc s1 d1 w1 s2 d2 w2 : device_up n desc (spdk_mgr_ d) ->
  n = Z.to_nat (esc_num_spdk_workers cfg) -> 
  NVMeDevice_Close cfg te w d = Some (s1, d1, w1) -> ok s1 = true ->
  NVMeDevice_CloseEnv w1 d1 = Some (s2, d2, w2) -> ok s2 = true ->
  mgr_status_ (spdk_mgr_ d2) = kSpdkMgrStopped /\ workers_ (spdk_mgr_ d2) = [] /\
  events (spdk_mgr_ d2) = ([EvEnvUp; EvOpened desc] ++ (EvStarted <$> seq 0 n) ++ (EvJoined <$> seq 0 n)
    ++ [EvClosed desc; EvEnvDown])%list.
Proof.
  intros (Hst & Hb & Hd & Hw & Hp & Hev) Hn. unfold NVMeDevice_Close, StopWorkers. rewrite <- Hn.
  destruct (StopWorkers_loop _ _ _ _) as [[s0 m0]|] eqn:E0; [|done]. cbn [mbind option_bind].
  destruct (ok s0) eqn:Ok0; cbn [negb]; [|intros [= <- _ _]; congruence].
  apply StopWorkers_loop_ok in E0; [|by rewrite Hw, length_replicate|by rewrite Hw|done]. subst m0.
  destruct (SpdkMgr_Close w _ _) as [[s3 m3] w3] eqn:E3. intros [= <- <- <-] Hok1.
  apply (SpdkMgr_Close_spec _ _ _ desc) in E3; [|done..]. subst m3.
  unfold NVMeDevice_CloseEnv, CloseEnv. cbn [spdk_mgr_ set_spdk_mgr mgr_status_ set_handler set_workers].
  rewrite Hst, bool_decide_eq_true_2 by done. cbn [negb].
  destruct (finishBdevSubsystem _ _) as [[s4 w4]|]; [|done]. cbn [mbind option_bind].
  destruct (ok s4) eqn:Ok4; cbn [negb mbind option_bind]; [|intros [= <- _ _]; congruence].
  intros [= <- <- <-] _. cbn. rewrite Hev. split_and!; [done..|]. rewrite app_nil_r. cbn. by rewrite <- !app_assoc.
Qed.
End Session.

(** ** What the manager does not notice *)

Section Defects.
Context `{Spdk W}.
Implicit Types (w : W) (m : SpdkMgr).

(** The result of loading the device configuration does not matter. *)
Lemma config_error_ignored rc rc' w m :
  initBdevSubsystemDoneCallback rc w m = initBdevSubsystemDoneCallback rc' w m.
Proof. done. Qed.

(** A device that was closed is closed again by the next [Close]. *)
Lemma closed_twice w m name s m1 w1 desc : is_Some (h_bdev m) -> h_desc m = Some desc -> spdk_get_thread w = true ->
  (spdk_thread_send_msg w).1 = 0 -> SpdkMgr_Close w m name = (s, m1, w1) ->
  h_desc m1 = Some desc /\ (closeSpdkBdevFunc w1 m1).2 = spdk_bdev_close w1 desc.
Proof.
  intros [bdev Hb] Hd Ht Hs. unfold SpdkMgr_Close, getOrCreateSpdkThread, closeSpdkBdevFunc. rewrite Ht. cbn [negb].
  destruct (spdk_thread_send_msg w) as [rc w2]. cbn in Hs. subst rc. rewrite Hb, Hd. cbn. by intros [= _ <- <-].
Qed.

(** After a [CloseEnv] that failed the next one returns OK and does nothing. *)
Lemma CloseEnv_error_masked w m s m1 w1 : CloseEnv w m = Some (s, m1, w1) -> ok s = false ->
  forall w2, CloseEnv w2 m1 = Some (Status_default, m1, w2).
Proof.
  unfold CloseEnv. destruct (bool_decide (mgr_status_ m = kSpdkMgrStarted)) eqn:E; cbn [negb]; [|by intros [= <- _ _]].
  destruct (finishBdevSubsystem _ _) as [[s2 w3]|]; [|done]. cbn [mbind option_bind].
  destruct (ok s2); cbn [negb]; [by intros [= <- _ _]|]. intros [= <- <- <-] _ w2. done.
Qed.
End Defects.
