(* ===== verification/ExtentServer.v ===== *)
(** * ExtentServer

    The life of the extent server process: the start of the storage engine on
    its device and database, the services, and the end
    (src/src/extentserver/extentserver.cpp, storage_engine.cpp, bare_engine.cpp
    and the [Close] of extent_location.cpp).  The heartbeat that makes the
    server ready is in Heartbeats.v, what a running server does with requests
    in StorageEngine.v and ClientServer.v. *)

From Stdlib Require Import Ascii.
From S2P Require Import Prelude Status Bitmap Allocator Codec KvStore ExtentLocation Net StorageEngine Config Services Heartbeats.
From S2P Require Import SpdkWorker SpdkMgr ClientServer.

#[local] Open Scope string_scope.
#[local] Open Scope Z_scope.

(** ** The engine *)

(** What is outside the model during a start: the threads, the database that
    [RocksStore::Open] returns, and the extent size, which no constructor
    sets. *)
Record StartEnv (DB : Type) : Type := mkStartEnv {
  se_threads : ThreadEnv; se_opened : RocksStatus * DB; se_unset_size : Z
}.
Arguments mkStartEnv {DB}.
Arguments se_threads {DB}.
Arguments se_opened {DB}.
Arguments se_unset_size {DB}.

Section Engine.
Context `{Spdk W} `{RocksDB DB} `{Crc32c}.
Implicit Types (w : W) (env : StartEnv DB).

(** The device, and the environment and device opened on it. *)
Definition bindBDev (c : Config) (t : EngineType) env w : option (Status * option NVMeDevice * W) :=
  match t with
  | kNVMeEngine =>
      let d := NVMeDevice_new (esc_dev_name (extentserver_ c)) (spdk_ c) in
      '(s, d, w) ← NVMeDevice_InitEnv w d;
      if negb (ok s) then Some (s, Some d, w)
      else '(s, d, w) ← NVMeDevice_Open (extentserver_ c) (se_threads env) w d; Some (s, Some d, w)
  | _ => Some (mkStatus CYPRE_ER_NOT_SUPPORTED "storage engine not supported yet", None, w)
  end.

Definition BareEngine_Init (c : Config) (t : EngineType) env w
  : option (Status * option NVMeDevice * option (ExtentLocationMgr SpaceAlloc DB) * W) :=
  '(s, d, w) ← bindBDev c t env w;
  if negb (ok s) then Some (s, d, None, w)
  else
    dev ← d;
    let '(s, m) := ExtentLocationMgr_Init (se_unset_size env) (capacity_ dev) (se_opened env) in
    Some (s, d, m, w).

Definition unbindBDev (c : Config) (te : ThreadEnv) w (bdev : option NVMeDevice)
  : option (Status * option NVMeDevice * W) :=
  match bdev with
  | None => Some (mkStatus CYPRE_ES_BDEV_NULL "storage engine hasn't been initialized yet", None, w)
  | Some d =>
      '(s, d, w) ← NVMeDevice_Close (extentserver_ c) te w d;
      if negb (ok s) then Some (s, Some d, w)
      else '(s, d, w) ← NVMeDevice_CloseEnv w d; Some (s, Some d, w)
  end.

Definition ExtentLocationMgr_Close (closed : RocksStatus) : Status :=
  if negb (RocksStatus_ok closed) then mkStatus CYPRE_ES_CLOSE_ROCKSDB_ERROR (RocksStatus_ToString closed)
  else Status_default.

(** [closed]: the status of [RocksStore::Close]. *)
Definition BareEngine_Close (c : Config) (te : ThreadEnv) (closed : RocksStatus) w (bdev : option NVMeDevice)
  : option (Status * option NVMeDevice * W) :=
  let s := ExtentLocationMgr_Close closed in
  if negb (ok s) then Some (s, bdev, w) else unbindBDev c te w bdev.

(** The engine with its device and table, after the recovery. *)
Definition StorageEngine_Init (c : Config) (e : EngineCfg) env w
  : option (Status * option NVMeDevice * option (ExtentLocationMgr SpaceAlloc DB) * W) :=
  if bool_decide (replication_type_ e = kInvalidReplication) then
    Some (mkStatus CYPRE_ER_NOT_SUPPORTED "replication type not supported", None, None, w)
  else
    '(s, d, m, w) ← BareEngine_Init c (engine_type_ e) env w;
    if negb (ok s) then Some (s, d, m, w)
    else m ← m; '(s, m) ← LoadExtents m; Some (s, d, Some m, w).

(** ** The process *)

(** What the other calls of [Init] return. *)
Record ProcessEnv : Type := mkProcessEnv {
  pe_config : Z; pe_affinity : Z; pe_log : Z; pe_channel : Z; pe_requests : Z; pe_heartbeat : Status
}.

(** [ExtentServer]: [EsProcess] of Heartbeats.v with its device and [stop_]. *)
Record Server : Type := mkServer { sv_process : EsProcess DB; sv_bdev : option NVMeDevice; stop_ : bool }.

Definition ExtentServer_Init (c : Config) (hostname : string) (pe : ProcessEnv) env w : option (Z * option Server * W) :=
  if negb (pe_config pe =? 0) then Some (-1, None, w)
  else if negb (pe_affinity pe =? 0) then Some (-1, None, w)
  else if negb (pe_log pe =? 0) then Some (-1, None, w)
  else if negb (pe_channel pe =? 0) then Some (-1, None, w)
  else
    let e := StorageEngine_new (esc_dev_type (extentserver_ c)) (esc_replication_type (extentserver_ c))
               (nc_public_ip (network_ c)) (nc_public_port (network_ c)) in
    '(s, d, m, w) ← StorageEngine_Init c e env w;
    if negb (ok s) then Some (-1, None, w)
    else if negb (pe_requests pe =? 0) then Some (-1, None, w)
    else if negb (ok (pe_heartbeat pe)) then Some (-1, None, w)
    else
      m ← m; dev ← d;
      Some (0, Some (mkServer (initMyself c hostname e m (capacity_ dev)) d false), w).

(** The heartbeat thread gets an answer. *)
Definition on_heartbeat (sv : Server) (answer : option (Response (Z * Z))) : Server :=
  mkServer (on_answer (sv_process sv) answer) (sv_bdev sv) (stop_ sv).

(** [Start] up to [WaitToQuit]: [None] while it waits for the first heartbeat,
    the server unchanged when the listener does not start. *)
Definition Start (sv : Server) (listen : Z) : option (bool * Server) :=
  if bool_decide (status_ (sv_process sv) = kExtentServerStarting) then None
  else if negb (listen =? 0) then Some (false, sv)
  else Some (true, mkServer (Start_serving (sv_process sv)) (sv_bdev sv) false).

(** One turn of [WaitToQuit]. *)
Definition WaitToQuit_turn w (sv : Server) : option W :=
  match sv_bdev sv with
  | None => None
  | Some d => '(_, w) ← PeriodDeviceAdmin w (spdk_mgr_ d); Some w
  end.

Definition Destroy (c : Config) (te : ThreadEnv) (closed : RocksStatus) w (sv : Server) : option (Server * W) :=
  '(s, d, w) ← BareEngine_Close c te closed w (sv_bdev sv);
  if negb (ok s) then Some (mkServer (sv_process sv) d (stop_ sv), w)
  else Some (mkServer (sv_process sv) d true, w).
End Engine.
Arguments Server : clear implicits.

(** ** The table does not depend on the extent size while it is loaded *)

Section Session.
Context `{SpdkLaws W} `{RocksDBLaws DB} `{Crc32c} `{BDevLaws D}.
Implicit Types (w : W) (env : StartEnv DB) (m : ExtentLocationMgr SpaceAlloc DB).

Lemma LoadExtents_loop_size es kvs : forall m, LoadExtents_loop (LocMgr_SetExtentSize m es) kvs =
  (fun r => (r.1, LocMgr_SetExtentSize r.2 es)) <$> LoadExtents_loop m kvs.
Proof.
  induction kvs as [|[k v] kvs IH]; intros m; [done|]. cbn [LoadExtents_loop].
  destruct (Serializer_Decode ExtentLocation_codec v); try done. cbn.
  destruct (SpaceAlloc_Mark _ _ _) as [a|]; [|done]. cbn. apply (IH (with_space (with_map m _) a)).
Qed.

Lemma LoadExtents_size es m : LoadExtents (LocMgr_SetExtentSize m es) =
  (fun r => (r.1, LocMgr_SetExtentSize r.2 es)) <$> LoadExtents m.
Proof. unfold LoadExtents. cbn. apply LoadExtents_loop_size. Qed.

(** ** What a successful start leaves *)

Lemma bindBDev_ok c t env w s d w' : bindBDev c t env w = Some (s, d, w') -> ok s = true ->
  exists dev desc, d = Some dev /\ device_up (Z.to_nat (esc_num_spdk_workers (extentserver_ c))) desc (spdk_mgr_ dev) /\
    is_u64 (capacity_ dev).
Proof.
  unfold bindBDev. destruct t; try (by intros [= <- _ _]). unfold NVMeDevice_InitEnv. cbn [spdk_mgr_ NVMeDevice_new].
  destruct (InitEnv w _) as [[[s1 m1] w1]|] eqn:E1; [|done]. cbn [mbind option_bind]. apply InitEnv_fresh in E1.
  destruct (ok s1) eqn:Ok1; cbn [negb]; [|intros [= <- _ _]; congruence].
  destruct (NVMeDevice_Open _ _ _ _) as [[[s2 d2] w2]|] eqn:E2; [|done]. cbn [mbind option_bind]. intros [= <- <- <-] Hok.
  apply NVMeDevice_Open_up in E2 as (desc & bdev & Hup & _ & Hcap); [|done|done].
  exists d2, desc. split_and!; [done|done|]. destruct (spdk_bdev_info bdev) as [[[bs bn] ba] wu]. rewrite Hcap.
  unfold wrap64, is_u64. pose proof (Z.mod_pos_bound (bs * bn) 18446744073709551616). unfold u64_max. lia.
Qed.

Lemma StorageEngine_Init_ok c e env w s d mo w' : StorageEngine_Init c e env w = Some (s, d, mo, w') -> ok s = true ->
  exists dev desc db m0 m1 s0, d = Some dev /\ mo = Some m1 /\ se_opened env = (RdbOk, db) /\
    device_up (Z.to_nat (esc_num_spdk_workers (extentserver_ c))) desc (spdk_mgr_ dev) /\ is_u64 (capacity_ dev) /\
    ExtentLocationMgr_Init (se_unset_size env) (capacity_ dev) (RdbOk, db) = (s0, Some m0) /\
    LoadExtents m0 = Some (s, m1).
Proof.
  unfold StorageEngine_Init. destruct (bool_decide _); [by intros [= <- _ _ _]|]. unfold BareEngine_Init.
  destruct (bindBDev c _ env w) as [[[s1 d1] w1]|] eqn:E1; [|done]. cbn [mbind option_bind].
  destruct (ok s1) eqn:Ok1; cbn [negb mbind option_bind]; [|rewrite Ok1; cbn [negb]; intros [= <- _ _ _]; congruence].
  destruct (bindBDev_ok _ _ _ _ _ _ _ E1 Ok1) as (dev & desc & -> & Hup & Hcap). cbn [mbind option_bind].
  destruct (ExtentLocationMgr_Init _ _ _) as [s2 m2] eqn:E2. cbn [mbind option_bind].
  destruct (ok s2) eqn:Ok2; cbn [negb]; [|intros [= <- _ _ _]; congruence].
  destruct m2 as [m0|]; [|done]. cbn [mbind option_bind].
  destruct (LoadExtents m0) as [[s3 m3]|] eqn:E3; [|done]. cbn [mbind option_bind]. intros [= <- <- <- <-] _.
  assert (Hop : exists db, se_opened env = (RdbOk, db)).
  { revert E2. unfold ExtentLocationMgr_Init. destruct (SpaceAlloc_Init _) as [r sa]. destruct (negb (r =? 0)); [by intros [= <-]|].
    destruct (se_opened env) as [st db]. destruct st; cbn; eauto; by intros [= <- _]. }
  destruct Hop as [db Hop]. rewrite Hop in E2. exists dev, desc, db, m0, m3, s2. by split_and!.
Qed.

(** The node that the clients of ClientServer.v see. *)
Definition server_node (sv : Server DB) (disk : D) : EsNode SpaceAlloc DB D :=
  mkEsNode (engine_ (sv_process sv))
    (mkEngineState (mkExtentRouterMgr ∅ ∅ false) (mkConnectionPool ∅ 0) (mkBareEngine (loc_mgr_ (sv_process sv)) [])) disk.

Lemma loaded_table es cap m0 m1 s s0 db m garbage : on_device es cap m -> is_u64 cap -> kAllocateBlockSize <= cap ->
  rdb_view db = rdb_view (rocks_store_ m) ->
  ExtentLocationMgr_Init garbage cap (RdbOk, db) = (s0, Some m0) -> LoadExtents m0 = Some (s, m1) ->
  mgr_equiv m (LocMgr_SetExtentSize m1 es) /\ wf_mgr (LocMgr_SetExtentSize m1 es).
Proof.
  intros (W0 & Hd & He) Hc Hk Hv Hi Hl.
  destruct (ExtentLocationMgr_Init_ok garbage cap db Hc Hk) as (m2 & Hi' & Wa & Hdev & Hu & Hes & Hdb & Hmap).
  rewrite Hi in Hi'. injection Hi' as _ <-.
  destruct (LoadExtents_spec m (LocMgr_SetExtentSize m0 es) W0) as (m' & E & Eq & W' & _).
  - cbn. by rewrite Hdb.
  - done.
  - done.
  - split; [done|]. change (sm_dev (space_alloc_ m0) = sm_dev (space_alloc_ m)). congruence.
  - intros x _. apply Hu.
  - rewrite LoadExtents_size, Hl in E. cbn in E. by injection E as _ <-.
Qed.

Lemma ExtentServer_Init_ok c hostname pe env w sv w' : ExtentServer_Init c hostname pe env w = Some (0, Some sv, w') ->
  exists dev desc db m0 m1 s0 s e, sv = mkServer (initMyself c hostname e m1 (capacity_ dev)) (Some dev) false /\
    se_opened env = (RdbOk, db) /\
    device_up (Z.to_nat (esc_num_spdk_workers (extentserver_ c))) desc (spdk_mgr_ dev) /\ is_u64 (capacity_ dev) /\
    ExtentLocationMgr_Init (se_unset_size env) (capacity_ dev) (RdbOk, db) = (s0, Some m0) /\ LoadExtents m0 = Some (s, m1).
Proof.
  unfold ExtentServer_Init. do 4 (destruct (negb (_ =? 0)); [done|]).
  set (e := StorageEngine_new _ _ _ _).
  destruct (StorageEngine_Init c e env w) as [[[[s d] mo] w1]|] eqn:E; [|done]. cbn [mbind option_bind].
  destruct (ok s) eqn:Hok; cbn [negb]; [|done].
  apply StorageEngine_Init_ok in E as (dev & desc & db & m0 & m1 & s0 & -> & -> & Hop & Hup & Hcap & Hi & Hl); [|done].
  destruct (negb (pe_requests pe =? 0)); [done|]. destruct (negb (ok (pe_heartbeat pe))); [done|].
  cbn [mbind option_bind]. intros [= <- <-]. exists dev, desc, db, m0, m1, s0, s, e. by split_and!.
Qed.

(** A stop that is complete. *)
Lemma Destroy_stops c te closed w sv sv' w' dev desc : sv_bdev sv = Some dev -> stop_ sv = false ->
  device_up (Z.to_nat (esc_num_spdk_workers (extentserver_ c))) desc (spdk_mgr_ dev) ->
  Destroy c te closed w sv = Some (sv', w') -> stop_ sv' = true ->
  RocksStatus_ok closed = true /\ exists dev', sv_bdev sv' = Some dev' /\
    mgr_status_ (spdk_mgr_ dev') = kSpdkMgrStopped /\
    let n := Z.to_nat (esc_num_spdk_workers (extentserver_ c)) in
    events (spdk_mgr_ dev') = ([EvEnvUp; EvOpened desc] ++ (EvStarted <$> seq 0 n) ++ (EvJoined <$> seq 0 n)
      ++ [EvClosed desc; EvEnvDown])%list.
Proof.
  intros Hd Hs Hup. unfold Destroy, BareEngine_Close, ExtentLocationMgr_Close, unbindBDev. rewrite Hd.
  destruct (RocksStatus_ok closed); cbn [negb ok Status_default].
  2: { cbn. intros [= <- _]. cbn. congruence. }
  change (ok Status_default) with true. cbn [negb].
  destruct (NVMeDevice_Close _ te w dev) as [[[s1 d1] w1]|] eqn:E1; [|done]. cbn [mbind option_bind].
  destruct (ok s1) eqn:Ok1; cbn [negb mbind option_bind]; [|rewrite Ok1; cbn; intros [= <- _]; cbn; congruence].
  destruct (NVMeDevice_CloseEnv w1 d1) as [[[s2 d2] w2]|] eqn:E2; [|done]. cbn [mbind option_bind].
  destruct (ok s2) eqn:Ok2; cbn [negb]; intros [= <- _]; cbn; [|congruence]. intros _. split; [done|].
  exists d2. split; [done|]. destruct (NVMeDevice_down _ _ _ _ _ _ _ _ _ _ _ _ Hup eq_refl E1 Ok1 E2 Ok2) as (Hst & _ & Hev).
  by split.
Qed.

(** C13: the life of an extent server: when [Init] returns 0 the device is open
    with all its workers, and [Start] waits; the first answered heartbeat gives
    the server the extent size of its manager, and it then has exactly the
    table that the database stored, the invariant under which the clients'
    theorems hold, and takes requests; the device is never polled through an
    unset pointer; and when it quits, the database was closed, every worker was
    joined before the device was closed, and the device before its
    environment. *)
Theorem extent_server_session c hostname pe env w sv w1 db m es x now_disk :
  ExtentServer_Init c hostname pe env w = Some (0, Some sv, w1) -> (se_opened env).2 = db ->
  on_device es (bdev_capacity (sv_process sv)) m -> kAllocateBlockSize <= bdev_capacity (sv_process sv) ->
  rdb_view db = rdb_view (rocks_store_ m) ->
  let sv1 := on_heartbeat sv (Some (mkResponse CYPRE_OK None (Some (es, x)))) in
  (forall listen, Start sv listen = None) /\
  mgr_equiv m (loc_mgr_ (sv_process sv1)) /\ node_ok (server_node sv1 now_disk) /\
  (exists sv2, Start sv1 0 = Some (true, sv2) /\ status_ (sv_process sv2) = kExtentServerOk) /\
  (forall w2 : W, WaitToQuit_turn w2 sv1 <> None) /\
  (forall te closed w2 sv3 w3, Destroy c te closed w2 sv1 = Some (sv3, w3) -> stop_ sv3 = true ->
     RocksStatus_ok closed = true /\ exists dev desc, sv_bdev sv3 = Some dev /\
       let n := Z.to_nat (esc_num_spdk_workers (extentserver_ c)) in
       events (spdk_mgr_ dev) = ([EvEnvUp; EvOpened desc] ++ (EvStarted <$> seq 0 n) ++ (EvJoined <$> seq 0 n)
         ++ [EvClosed desc; EvEnvDown])%list).
Proof.
  intros E Hdb Hm Hk Hv sv1.
  destruct (ExtentServer_Init_ok _ _ _ _ _ _ _ E) as (dev & desc & db' & m0 & m1 & s0 & s & e & -> & Hop & Hup & Hcap & Hi & Hl).
  rewrite Hop in Hdb. cbn in Hdb. subst db'. cbn [sv_process initMyself bdev_capacity] in Hm, Hk.
  destruct (loaded_table es (capacity_ dev) m0 m1 s s0 db m (se_unset_size env)) as [Heq Hwf]; [done..|].
  split_and!.
  - done.
  - exact Heq.
  - split; [exact Hwf|done|]. cbn. lia.
  - by eexists.
  - intros w2. unfold WaitToQuit_turn, PeriodDeviceAdmin. cbn [sv1 on_heartbeat sv_bdev].
    destruct Hup as (-> & _ & _ & _ & Hp & _). rewrite bool_decide_eq_true_2 by done. cbn [negb].
    destruct (spdk_get_thread w2); cbn [negb mbind option_bind]; [|done]. by destruct (spdk_rpc_poller_ (spdk_mgr_ dev)).
  - intros te closed w2 sv3 w3 Hd Hstop.
    destruct (Destroy_stops c te closed w2 sv1 sv3 w3 dev desc) as (Hc & dev' & Hb & _ & Hev); [done..|].
    split; [done|]. by exists dev', desc.
Qed.
End Session.

(** When the database or the device does not close, [Destroy] returns without
    setting [stop_], so that [WaitToQuit] goes on and the process does not
    end. *)
Lemma failed_close_never_quits `{Spdk W} `{RocksDB DB} c te (w : W) (sv : Server DB) closed :
  stop_ sv = false -> RocksStatus_ok closed = false ->
  exists sv' w', Destroy c te closed w sv = Some (sv', w') /\ stop_ sv' = false.
Proof. intros Hs Hc. unfold Destroy, BareEngine_Close, ExtentLocationMgr_Close. rewrite Hc. cbn. eauto. Qed.

(** ** A server with two workers *)

#[local] Existing Instance demo_crc.

(** A library whose calls all succeed, and a device of 4 MB. *)
#[local] Instance demo_spdk : Spdk () := {|
  spdk_env_opts_default := mkEnvOpts "" "" 0 0 0 0 0 false false false "";
  spdk_env_init w _ := (0, w);
  spdk_get_thread _ := true;
  spdk_thread_create w _ := (true, w);
  spdk_thread_send_msg w := (0, w);
  spdk_app_json_config_load w _ := Some (0, w);
  spdk_rpc_verify_methods _ := true;
  spdk_rpc_listen w _ := (0, w);
  spdk_poller_register w := (true, w);
  spdk_bdev_get_by_name _ _ := Some 1;
  spdk_bdev_open w _ := (0, Some 2, w);
  spdk_bdev_close w _ := w;
  spdk_subsystem_fini w := w;
  spdk_thread_end w := Some w;
  spdk_put_io_channel w := w;
  spdk_thread_poll w := w;
  spdk_bdev_info _ := (512, 8192, 1, 1)
|}.

#[local] Instance demo_spdk_laws : SpdkLaws ().
Proof. split. intros w b rc desc w' [= <- <- _]. by split; [eexists|]. Qed.

Definition demo_server_config : Config :=
  mkConfig (mkCommonCfg 7 3 "cypre" "extentserver" "bj" "/NS" "set") no_names (mkNetworkCfg "10.0.0.7" "10.0.1.7" 8007 8007)
    no_log (mkBrpcCfg 8 0 "") (mkRocksDBCfg "" 0) ""
    (mkSpdkCfg (-1) (-1) (-1) (-1) 0 false false false "" "" "" "nvme.json" "/var/tmp/spdk.sock") 0 no_setmanager
    no_extentmanager (mkExtentServerCfg 5 "pool-a" "r7" "Nvme0n1" "nvme" "standard" 1024 2 "1,2" 400).

Definition demo_threads : ThreadEnv :=
  mkThreadEnv Status_default (fun _ => 0) (fun _ _ => true) (fun _ => (0, kSpdkWorkerStopped)).

Definition demo_old : ExtentLocationMgr SpaceAlloc MemDB := ExtentLocation.demo_next ExtentLocation.demo_mgr "b.1".
Definition demo_start_env : StartEnv MemDB := mkStartEnv demo_threads (RdbOk, rocks_store_ demo_old) 17.
Definition demo_process_env : ProcessEnv := mkProcessEnv 0 0 0 0 0 Status_default.

Definition demo_server : Server MemDB :=
  match ExtentServer_Init demo_server_config "node7" demo_process_env demo_start_env () with
  | Some (_, Some sv, _) => sv
  | _ => mkServer (initMyself demo_server_config "" (StorageEngine_new "" "" "" 0) demo_old 0) None false
  end.

Lemma demo_old_on_device : on_device 1048576 4194304 demo_old.
Proof.
  apply (mgr_step_on_device 1048576 4194304 ExtentLocation.demo_mgr);
    [vm_compute; split; discriminate|vm_compute; discriminate|apply demo_mgr_on_device|].
  apply demo_next_step; [vm_compute; reflexivity|vm_compute; eexists; reflexivity].
Qed.

Lemma demo_server_inits :
  ExtentServer_Init demo_server_config "node7" demo_process_env demo_start_env () = Some (0, Some demo_server, ()).
Proof.
  assert (Hr : match ExtentServer_Init demo_server_config "node7" demo_process_env demo_start_env () with
    | Some (0, Some _, _) => true | _ => false end = true) by (vm_compute; reflexivity).
  unfold demo_server. destruct (ExtentServer_Init _ _ _ _ _) as [[[[| |] [sv|]] []]|]; done.
Qed.

Lemma extent_server_session_witness :
  extent_loc_map_ (loc_mgr_ (sv_process demo_server)) !! "b.1" = Some (mkExtentLocation 0 1048576 "b.1") /\
  node_ok (server_node (on_heartbeat demo_server (Some (mkResponse CYPRE_OK None (Some (1048576, 1))))) (mkMemDisk (fun _ => "0"%char))) /\
  exists sv3, Destroy demo_server_config demo_threads RdbOk () (on_heartbeat demo_server (Some (mkResponse CYPRE_OK None (Some (1048576, 1)))))
    = Some (sv3, ()) /\ exists dev desc, sv_bdev sv3 = Some dev /\
    events (spdk_mgr_ dev) = [EvEnvUp; EvOpened desc; EvStarted 0; EvStarted 1; EvJoined 0; EvJoined 1; EvClosed desc; EvEnvDown].
Proof.
  destruct (extent_server_session demo_server_config "node7" demo_process_env demo_start_env () demo_server ()
    (rocks_store_ demo_old) demo_old 1048576 1 (mkMemDisk (fun _ => "0"%char))) as (_ & Heq & Hn & _ & _ & Hd).
  - exact demo_server_inits.
  - reflexivity.
  - exact demo_old_on_device.
  - vm_compute. discriminate.
  - reflexivity.
  - split; [|split; [exact Hn|]].
    + destruct Heq as (_ & Hm & _). refine (eq_trans (f_equal (fun lm => lm !! "b.1") Hm) _). vm_compute. reflexivity.
    + set (sv1 := on_heartbeat _ _) in *.
      assert (Hr : match Destroy demo_server_config demo_threads RdbOk () sv1 with
        | Some (sv3, _) => stop_ sv3 | None => false end = true) by (vm_compute; reflexivity).
      destruct (Destroy demo_server_config demo_threads RdbOk () sv1) as [[sv3 []]|] eqn:E; [|discriminate].
      exists sv3. split; [reflexivity|]. destruct (Hd _ _ _ _ _ E Hr) as (_ & dev & desc & Hb & Hev).
      exact (ex_intro _ dev (ex_intro _ desc (conj Hb Hev))).
Defined.
