(* ===== verification/Sender.v ===== *)
(** * Sender threads

    [FastSignal] (src/src/common/fast_signal.h) and the queue of one sender
    thread (src/clients/libcypre/stream/brpc_es_wrapper.cpp: [Push],
    [sender_loop], [Stop]): any number of threads push parts and signal, one
    thread drains the queue and sleeps on the signal when it is empty.

    One step is one access to the shared state: the queue (an operation of
    [Ring], whose interleavings are in RingConc.v), [event_], the semaphore or
    [stop]. *)

From S2P Require Import Prelude.

(** ** Threads *)

(** A thread in [Push]: before the queue accepted the part, before the
    exchange of [Signal], and before its [sem_post]. *)
Inductive PushStage : Type := Pushing (part : Z) | Signalling | Posting.

(** The sender: at the test of [stop], in [Wait] before the exchange, in
    [sem_wait], draining the queue, expiring what is left, finished. *)
Inductive SenderStage : Type := AtTop | InWait | InSemWait | Draining | Expiring | Finished.

(** [Stop]: before it sets [stop], before it posts, and waiting for the
    thread. *)
Inductive StopStage : Type := NotStopped | StopSet | StopPosted.

Record SenderState : Type := mkSenderState {
  wq : list Z;
  event_ : bool;
  sem_ : Z;
  stop : bool;
  sender : SenderStage;
  pushers : gmap nat PushStage;
  stopper : StopStage;
  pushed : list Z;
  sent : list Z;
  expired : list Z
}.

Definition SEM_VALUE_MAX : Z := 2147483647.

(** [sem_post], which fails at the maximum. *)
Definition sem_post (v : Z) : Z := if v =? SEM_VALUE_MAX then v else v + 1.

Section Sender.
(** The capacity of the ring. *)
Context (capacity : nat).

Definition with_pusher (s : SenderState) (t : nat) (p : option PushStage) : SenderState :=
  mkSenderState (wq s) (event_ s) (sem_ s) (stop s) (sender s) (partial_alter (fun _ => p) t (pushers s))
    (stopper s) (pushed s) (sent s) (expired s).
Definition with_sender (s : SenderState) (w : SenderStage) : SenderState :=
  mkSenderState (wq s) (event_ s) (sem_ s) (stop s) w (pushers s) (stopper s) (pushed s) (sent s) (expired s).
Definition with_event (s : SenderState) (b : bool) : SenderState :=
  mkSenderState (wq s) b (sem_ s) (stop s) (sender s) (pushers s) (stopper s) (pushed s) (sent s) (expired s).
Definition with_sem (s : SenderState) (v : Z) : SenderState :=
  mkSenderState (wq s) (event_ s) v (stop s) (sender s) (pushers s) (stopper s) (pushed s) (sent s) (expired s).
Definition with_queue (s : SenderState) (q pu se ex : list Z) : SenderState :=
  mkSenderState q (event_ s) (sem_ s) (stop s) (sender s) (pushers s) (stopper s) pu se ex.
Definition with_stop (s : SenderState) (b : bool) (st : StopStage) : SenderState :=
  mkSenderState (wq s) (event_ s) (sem_ s) b (sender s) (pushers s) st (pushed s) (sent s) (expired s).

Inductive sender_step (s : SenderState) : SenderState -> Prop :=
  (* Push *)
  | push_begin t x : pushers s !! t = None -> sender_step s (with_pusher s t (Some (Pushing x)))
  | push_full t x : pushers s !! t = Some (Pushing x) -> (capacity <= length (wq s))%nat -> sender_step s s
  | push_queued t x :
      pushers s !! t = Some (Pushing x) -> (length (wq s) < capacity)%nat ->
      sender_step s (with_queue (with_pusher s t (Some Signalling)) (wq s ++ [x]) (pushed s ++ [x]) (sent s)
                       (expired s))
  (* Signal *)
  | signal_first t :
      pushers s !! t = Some Signalling -> event_ s = false ->
      sender_step s (with_event (with_pusher s t (Some Posting)) true)
  | signal_again t :
      pushers s !! t = Some Signalling -> event_ s = true -> sender_step s (with_pusher s t None)
  | signal_post t :
      pushers s !! t = Some Posting -> sender_step s (with_sem (with_pusher s t None) (sem_post (sem_ s)))
  (* sender_loop *)
  | loop_stop : sender s = AtTop -> stop s = true -> sender_step s (with_sender s Expiring)
  | loop_go : sender s = AtTop -> stop s = false -> sender_step s (with_sender s InWait)
  | wait_event : sender s = InWait -> event_ s = true -> sender_step s (with_event (with_sender s Draining) false)
  | wait_none : sender s = InWait -> event_ s = false -> sender_step s (with_sender s InSemWait)
  | wait_sem : sender s = InSemWait -> 0 < sem_ s -> sender_step s (with_sem (with_sender s Draining) (sem_ s - 1))
  | drain_one x q :
      sender s = Draining -> wq s = x :: q ->
      sender_step s (with_queue s q (pushed s) (sent s ++ [x]) (expired s))
  | drain_none : sender s = Draining -> wq s = [] -> sender_step s (with_sender s AtTop)
  | expire_one x q :
      sender s = Expiring -> wq s = x :: q ->
      sender_step s (with_queue s q (pushed s) (sent s) (expired s ++ [x]))
  | expire_none : sender s = Expiring -> wq s = [] -> sender_step s (with_sender s Finished)
  (* Stop *)
  | stop_set : stopper s = NotStopped -> sender_step s (with_stop s true StopSet)
  | stop_post :
      stopper s = StopSet -> sender_step s (with_sem (with_stop s (stop s) StopPosted) (sem_post (sem_ s))).

Definition sender_init : SenderState := mkSenderState [] false 0 false AtTop ∅ NotStopped [] [] [].

(** ** Invariant *)

Definition some_pusher (p : PushStage) (s : SenderState) : Prop := exists t, pushers s !! t = Some p.

(** The queue has nothing the sender would miss if it slept now. *)
Definition covered (s : SenderState) : Prop := wq s = [] \/ some_pusher Signalling s.

Record sender_inv (s : SenderState) : Prop := {
  si_sem : 0 <= sem_ s <= SEM_VALUE_MAX;
  si_order : pushed s = (sent s ++ expired s ++ wq s)%list;
  si_expired : expired s <> [] -> sender s = Expiring \/ sender s = Finished;
  si_stop : stop s = match stopper s with NotStopped => false | _ => true end;
  si_late : (sender s = Expiring \/ sender s = Finished) -> stop s = true;
  si_awake : match sender s with
    | AtTop | InWait => event_ s = true \/ covered s
    | InSemWait => 0 < sem_ s \/ some_pusher Posting s \/ (event_ s = false /\ covered s)
    | _ => True
    end;
  si_stopping : stopper s = StopPosted -> (sender s = InWait \/ sender s = InSemWait) -> 0 < sem_ s
}.

Lemma keeps_pusher s t old new p :
  pushers s !! t = old -> old <> Some p -> some_pusher p s -> some_pusher p (with_pusher s t new).
Proof.
  intros <- Hne [t' Ht']. exists t'. cbn. rewrite lookup_partial_alter_ne; [done|]. congruence.
Qed.

Lemma new_pusher s t p : some_pusher p (with_pusher s t (Some p)).
Proof. exists t. cbn. by rewrite lookup_partial_alter_eq. Qed.

Lemma keeps_covered s t old new :
  pushers s !! t = old -> old <> Some Signalling -> covered s -> covered (with_pusher s t new).
Proof. intros Ht Hne [E|Hp]; [by left|]. right. by eapply keeps_pusher. Qed.

Lemma sem_post_pos v : 0 <= v <= SEM_VALUE_MAX -> 0 < sem_post v <= SEM_VALUE_MAX.
Proof. unfold sem_post, SEM_VALUE_MAX. destruct (Z.eqb_spec v 2147483647); lia. Qed.

(** The steps that change neither the queue, the signal nor the sender. *)
Lemma pusher_inv s t old new :
  pushers s !! t = old -> old <> Some Signalling -> old <> Some Posting ->
  sender_inv s -> sender_inv (with_pusher s t new).
Proof.
  intros Ht Hs Hp [H1 H2 H3 H4 H5 H6 H7]. split; try done. cbn [sender with_pusher]. destruct (sender s); try done.
  - destruct H6; [by left|right]. by eapply keeps_covered.
  - destruct H6; [by left|right]. by eapply keeps_covered.
  - destruct H6 as [?|[?|[? ?]]]; [by left|right; left|right; right]; [by eapply keeps_pusher|].
    split; [done|]. by eapply keeps_covered.
Qed.

Lemma sender_step_inv s s' : sender_step s s' -> sender_inv s -> sender_inv s'.
Proof.
  intros Hst Hi. destruct Hst as
    [t x Ht|t x Ht Hf|t x Ht Hl|t Ht He|t Ht He|t Ht|Hp Hs|Hp Hs|Hp He|Hp He|Hp Hsem|x q Hp Hq|Hp Hq|x q Hp Hq|Hp Hq|Hs|Hs].
  - by eapply pusher_inv.
  - done.
  - assert (Hc : covered (with_queue (with_pusher s t (Some Signalling)) (wq s ++ [x]) (pushed s ++ [x]) (sent s) (expired s)))
      by (right; apply (new_pusher s)).
    destruct Hi as [H1 H2 H3 H4 H5 H6 H7]. split; cbn in *; try done; [by rewrite H2, <- !app_assoc|].
    destruct (sender s); try done; [by right..|]. destruct H6 as [?|[?|[? ?]]]; [by left|right; left|right; right; done].
    by apply (keeps_pusher s t (Some (Pushing x))).
  - destruct Hi as [H1 H2 H3 H4 H5 H6 H7]. split; cbn; try done. destruct (sender s); try done; [by left..|].
    right; left. apply (new_pusher s).
  - destruct Hi as [H1 H2 H3 H4 H5 H6 H7]. split; cbn; try done. destruct (sender s); try done; [by left..|].
    destruct H6 as [?|[?|[? ?]]]; [by left|right; left|congruence]. by apply (keeps_pusher s t (Some Signalling)).
  - destruct Hi as [H1 H2 H3 H4 H5 H6 H7]. pose proof (sem_post_pos _ H1). split; cbn; try done; [lia| |lia].
    destruct (sender s); try done; [| |by left; lia];
      (destruct H6; [by left|right; by apply (keeps_covered s t (Some Posting))]).
  - destruct Hi as [H1 H2 H3 H4 H5 H6 H7]. split; cbn; try done; [by left|naive_solver].
  - destruct Hi as [H1 H2 H3 H4 H5 H6 H7]. rewrite Hp in *. split; cbn; try done; [naive_solver..|].
    intros E. rewrite E in H4. congruence.
  - destruct Hi as [H1 H2 H3 H4 H5 H6 H7]. rewrite Hp in *. split; cbn; try done; naive_solver.
  - destruct Hi as [H1 H2 H3 H4 H5 H6 H7]. rewrite Hp in *. split; cbn; try done; [naive_solver..| |naive_solver].
    right; right. split; [done|]. destruct H6; [congruence|done].
  - destruct Hi as [H1 H2 H3 H4 H5 H6 H7]. rewrite Hp in *. split; cbn; try done; [lia|naive_solver..].
  - destruct Hi as [H1 H2 H3 H4 H5 H6 H7]. rewrite Hp in *. split; cbn; rewrite ?Hp; try done.
    rewrite H2, Hq. destruct (expired s) as [|e es]; [by rewrite <- app_assoc|]. destruct H3; done.
  - destruct Hi as [H1 H2 H3 H4 H5 H6 H7]. rewrite Hp in *. split; cbn; try done; [naive_solver..| |naive_solver].
    right. by left.
  - destruct Hi as [H1 H2 H3 H4 H5 H6 H7]. rewrite Hp in *. split; cbn; rewrite ?Hp; try done; [|naive_solver].
    by rewrite H2, Hq, <- !app_assoc.
  - destruct Hi as [H1 H2 H3 H4 H5 H6 H7]. rewrite Hp in *. split; cbn; try done; [naive_solver..].
  - destruct Hi as [H1 H2 H3 H4 H5 H6 H7]. split; cbn; try done.
  - destruct Hi as [H1 H2 H3 H4 H5 H6 H7]. pose proof (sem_post_pos _ H1). split; cbn; try done; [lia| | |lia].
    + by rewrite H4, Hs.
    + destruct (sender s); try done. by left; lia.
Qed.

Lemma sender_init_inv : sender_inv sender_init.
Proof. split; cbn; try done; try naive_solver. by right; left. Qed.

Lemma sender_reach_inv s : rtc sender_step sender_init s -> sender_inv s.
Proof.
  intros Hr. eapply (rtc_ind_r sender_inv sender_init); [apply sender_init_inv| |exact Hr].
  intros. by eapply sender_step_inv.
Qed.

(** The sender sleeps: it waits for the semaphore, which is at zero. *)
Definition asleep (s : SenderState) : Prop := sender s = InSemWait /\ sem_ s = 0.

(** C34: in every interleaving of pushing threads, the sender and a stop:
    the parts are sent, or expire after the stop, each exactly once and in the
    order they were queued; the sender never sleeps while a queued part has no
    thread about to wake it, so when it sleeps and no push is in progress every
    part was sent; once [Stop] has posted it does not sleep again; and unless it
    sleeps or has finished the sender can take its next step. *)
Theorem sender_never_sleeps_on_work s :
  rtc sender_step sender_init s ->
  pushed s = (sent s ++ expired s ++ wq s)%list /\
  (asleep s -> wq s <> [] -> some_pusher Signalling s \/ some_pusher Posting s) /\
  (asleep s -> pushers s = ∅ -> pushed s = sent s) /\
  (stopper s = StopPosted -> ~ asleep s) /\
  (asleep s \/ sender s = Finished \/
   exists s', sender_step s s' /\ (sender s' <> sender s \/ wq s' <> wq s)).
Proof.
  intros [H1 H2 H3 H4 H5 H6 H7]%sender_reach_inv.
  assert (Hw : asleep s -> wq s <> [] -> some_pusher Signalling s \/ some_pusher Posting s).
  { intros [Hp Hz] Hq. rewrite Hp in H6. destruct H6 as [?|[?|[_ [?|?]]]]; [lia|by right|done|by left]. }
  split_and!; [done|done| | |].
  - intros Ha He. destruct (wq s) as [|x q] eqn:Eq.
    + rewrite H2, app_nil_r. destruct (expired s) as [|e es]; [by rewrite app_nil_r|].
      destruct Ha as [Hp _]. destruct H3; congruence.
    + destruct (Hw Ha ltac:(done)) as [[t Ht]|[t Ht]]; rewrite He in Ht; done.
  - intros Hs [Hp Hz]. specialize (H7 Hs (or_intror Hp)). lia.
  - assert (Hd : forall x (q : list Z), q <> x :: q)
      by (intros x q E; apply (f_equal length) in E; cbn in E; lia).
    unfold asleep. destruct (sender s) eqn:Ep.
    + right; right. destruct (stop s) eqn:Es; eexists; (split; [by constructor|left; cbn; congruence]).
    + right; right. destruct (event_ s) eqn:Es; eexists; (split; [by constructor|left; cbn; congruence]).
    + destruct (decide (sem_ s = 0)); [by left|]. right; right. eexists.
      split; [apply wait_sem; [done|lia]|left; cbn; congruence].
    + right; right. destruct (wq s) as [|x q] eqn:Es; eexists;
        (split; [by econstructor|]); [left; cbn; congruence|right; cbn; auto].
    + right; right. destruct (wq s) as [|x q] eqn:Es; eexists;
        (split; [by econstructor|]); [left; cbn; congruence|right; cbn; auto].
    + by right; left.
Qed.
End Sender.

(** ** Rounds *)

(** The sender at the top of its loop, the queue empty, nobody pushing. *)
Definition idle (v : Z) (l : list Z) : SenderState :=
  mkSenderState [] false v false AtTop ∅ NotStopped l l [].

Tactic Notation "one_step" uconstr(c) := eapply rtc_l; [eapply c; reflexivity || (cbn; lia)|].

(** A part is pushed and signalled while the sender is busy: the sender takes
    the event and leaves the semaphore raised. *)
Lemma busy_round v l x :
  v <> SEM_VALUE_MAX -> rtc (sender_step 1) (idle v l) (idle (v + 1) (l ++ [x])).
Proof.
  intros Hv. unfold idle. one_step (push_begin 1 _ 0%nat x). one_step (push_queued 1 _ 0%nat x).
  one_step (signal_first 1 _ 0%nat). one_step (signal_post 1 _ 0%nat). one_step (loop_go 1).
  one_step (wait_event 1). one_step (drain_one 1 _ x []). one_step (drain_none 1). cbn.
  unfold sem_post. rewrite (proj2 (Z.eqb_neq _ _)) by done. reflexivity.
Qed.

(** The semaphore therefore counts the rounds that did not need it, up to its
    maximum, and each of them lets the sender run once in vain later. *)
Lemma semaphore_accumulates (n : nat) :
  Z.of_nat n <= SEM_VALUE_MAX -> rtc (sender_step 1) sender_init (idle (Z.of_nat n) (replicate n 7)).
Proof.
  induction n as [|n IH]; intros Hn; [apply rtc_refl|]. etrans; [apply IH; lia|].
  rewrite Nat2Z.inj_succ, <- Z.add_1_r, replicate_S_end. apply busy_round. lia.
Qed.

Lemma sender_never_sleeps_on_work_witness :
  exists s, rtc (sender_step 1) sender_init s /\ asleep s /\ pushed s = [7] /\ sent s = [7].
Proof.
  assert (Hr : exists s, rtc (sender_step 1) sender_init s /\ asleep s /\ pushers s = ∅ /\ pushed s = [7]).
  { eexists. split; [etrans; [apply (busy_round 0 [] 7); done|]|].
    - unfold idle. one_step (loop_go 1). one_step (wait_none 1). one_step (wait_sem 1). one_step (drain_none 1).
      one_step (loop_go 1). one_step (wait_none 1). apply rtc_refl.
    - done. }
  destruct Hr as (s & Hr & Ha & Hp & Hpu). exists s. split; [done|]. split; [done|]. split; [done|].
  destruct (sender_never_sleeps_on_work 1 s Hr) as (_ & _ & Hs & _). by rewrite <- (Hs Ha Hp).
Defined.
