(* ===== verification/NbdReader.v ===== *)
(** * The request stream of the block device server

    [NBDServer::ReaderFunc] and [OnRecvPack] (src/nbd/src/nbd_server.cpp): the
    thread that cuts the byte stream from the kernel's network block device
    into requests, with [SafeRead] and [SafeReadExact] of src/nbd/src/util.cpp.
    A request is a header of 28 bytes (linux/nbd.h: magic, type, handle, from,
    len, integers in network order), followed by [len] bytes for a write.

    The socket is the list of what [read] will see.  A shutdown of the socket
    by another thread ends the list.  [None] is a copy outside a buffer. *)

From Stdlib Require Import Ascii.
From S2P Require Import Prelude Codec Client ClientTheorems.

#[local] Open Scope string_scope.
#[local] Open Scope Z_scope.

(** ** Network order *)

Fixpoint be_bytes (n : nat) (z : Z) : string :=
  match n with
  | O => ""
  | S n' => String (ascii_of_N (Z.to_N (z / 256 ^ Z.of_nat n' mod 256))) (be_bytes n' z)
  end.

Fixpoint be_value (s : string) : Z :=
  match s with
  | "" => 0
  | String c s' => Z.of_N (N_of_ascii c) * 256 ^ slen s' + be_value s'
  end.

(** ** The socket *)

Inductive SockEvent : Type :=
  | Recv (bytes : string)
  | Interrupted
  | Failed.

Inductive ReadResult : Type :=
  | RData (bytes : string)
  | REof
  | RIntr
  | RError.

(** [read(sock, buf, count)]; what does not fit stays in the socket. *)
Definition sock_read (count : Z) (sk : list SockEvent) : ReadResult * list SockEvent :=
  match sk with
  | [] => (REof, [])
  | Interrupted :: sk' => (RIntr, sk')
  | Failed :: sk' => (RError, sk')
  | Recv s :: sk' =>
      if (count <=? 0) || (slen s =? 0) then (REof, sk)
      else if slen s <=? count then (RData s, sk')
      else (RData (slice s 0 count), Recv (slice s count (slen s - count)) :: sk')
  end.

(** [SafeRead]: the bytes read, or an error. *)
Fixpoint SafeRead (count : Z) (sk : list SockEvent) : option string * list SockEvent :=
  if count <=? 0 then (Some "", sk)
  else
    match sk with
    | [] => (Some "", [])
    | Interrupted :: sk' => SafeRead count sk'
    | Failed :: sk' => (None, sk')
    | Recv s :: sk' =>
        if slen s =? 0 then (Some "", sk)
        else if slen s <=? count then
          match SafeRead (count - slen s) sk' with
          | (Some t, sk'') => (Some (s +:+ t), sk'')
          | (None, sk'') => (None, sk'')
          end
        else (Some (slice s 0 count), Recv (slice s count (slen s - count)) :: sk')
    end.

(** [SafeReadExact]: [None] for a negative result. *)
Definition SafeReadExact (count : Z) (sk : list SockEvent) : option string * list SockEvent :=
  match SafeRead count sk with
  | (Some s, sk') => (if slen s =? count then Some s else None, sk')
  | (None, sk') => (None, sk')
  end.

(** ** Requests *)

Definition NBD_REQUEST_MAGIC : Z := 0x25609513.
Definition NBD_CMD_READ : Z := 0.
Definition NBD_CMD_WRITE : Z := 1.
Definition NBD_CMD_DISC : Z := 2.
Definition NBD_CMD_FLUSH : Z := 3.
Definition NBD_CMD_TRIM : Z := 4.
Definition REQUEST_TYPE_MASK : Z := 0x0000ffff.
Definition BufSize : Z := 1048576.
Definition RequestHeadSize : Z := 28.

(** A request with the data of a write. *)
Record NbdRequest : Type := mkNbdRequest {
  rq_type : Z;
  rq_from : Z;
  rq_len : Z;
  rq_handle : string;
  rq_data : string
}.

Definition command (type : Z) : Z := Z.land type REQUEST_TYPE_MASK.

Section Reader.
(** The server behind the reader: [OnRequestStart], [StartAioRequest] and what
    follows when that fails; [false] disconnects. *)
Context {S : Type} (serve : S -> NbdRequest -> option (bool * S)).

(** [buf]: the received bytes behind the header, of which the caller claims
    [buflen] for this request.  [true]: go on. *)
Definition OnRecvPack (s : S) (sk : list SockEvent) (request_type request_from request_len : Z)
    (request_handle buf : string) (buflen : Z) : option (bool * S * list SockEvent) :=
  let cmd := command request_type in
  if cmd =? NBD_CMD_DISC then Some (false, s, sk)
  else if cmd =? NBD_CMD_WRITE then
    if (slen buf <? buflen) || (request_len <? buflen) then None
    else
      let p := slice buf 0 buflen in
      let '(tail, sk) := if buflen <? request_len then SafeReadExact (request_len - buflen) sk
                         else (Some "", sk) in
      match tail with
      | None => Some (false, s, sk)
      | Some t =>
          '(go, s) ← serve s (mkNbdRequest request_type request_from request_len request_handle (p +:+ t));
          Some (go, s, sk)
      end
  else
    '(go, s) ← serve s (mkNbdRequest request_type request_from request_len request_handle "");
    Some (go, s, sk).

(** The inner loop on the bytes [buf] received so far, of which [begin] are
    done with: whether to disconnect, and the bytes kept for the next read. *)
Fixpoint packs (fuel : nat) (s : S) (sk : list SockEvent) (buf : string) (begin : Z)
    : option (bool * S * list SockEvent * string) :=
  match fuel with
  | O => None
  | Datatypes.S fuel' =>
      let bufpos := slen buf in
      if negb (begin <? bufpos) then Some (false, s, sk, buf)
      else if bufpos <? begin + RequestHeadSize then
        if BufSize - RequestHeadSize <? begin then
          Some (false, s, sk, slice buf begin (bufpos - begin))
        else Some (false, s, sk, buf)
      else
        let field pos n := be_value (slice buf (begin + pos) n) in
        if negb (field 0 4 =? NBD_REQUEST_MAGIC) then Some (true, s, sk, buf)
        else
          let request_type := field 4 4 in
          let handle := slice buf (begin + 8) 8 in
          let request_from := field 16 8 in
          let request_len := field 24 4 in
          let datalen := if command request_type =? NBD_CMD_WRITE then request_len else 0 in
          let body := slice buf (begin + RequestHeadSize) (bufpos - (begin + RequestHeadSize)) in
          let pack := OnRecvPack s sk request_type request_from request_len handle body in
          let end_ := wrap32 (begin + RequestHeadSize + datalen) in
          if end_ <? bufpos then
            '(go, s, sk) ← pack datalen;
            if negb go then Some (true, s, sk, buf) else packs fuel' s sk buf end_
          else
            '(go, s, sk) ← pack (if end_ =? bufpos then datalen else bufpos - begin - RequestHeadSize);
            Some (negb go, s, sk, "")
  end.

(** [ReaderFunc] up to the disconnection. *)
Fixpoint ReaderFunc (fuel : nat) (s : S) (sk : list SockEvent) (buf : string) : option S :=
  match fuel with
  | O => None
  | Datatypes.S fuel' =>
      match sock_read (BufSize - slen buf) sk with
      | (REof, _) | (RError, _) => Some s
      | (RIntr, sk) => ReaderFunc fuel' s sk buf
      | (RData r, sk) =>
          let buf := buf +:+ r in
          if slen buf <? RequestHeadSize then ReaderFunc fuel' s sk buf
          else
            '(disconnect, s, sk, buf) ← packs (Datatypes.S (String.length buf)) s sk buf 0;
            if (disconnect : bool) then Some s else ReaderFunc fuel' s sk buf
      end
  end.
End Reader.

(** ** What the kernel sends *)

Definition wire_header (r : NbdRequest) : string :=
  be_bytes 4 NBD_REQUEST_MAGIC +:+ be_bytes 4 (rq_type r) +:+ rq_handle r +:+ be_bytes 8 (rq_from r)
    +:+ be_bytes 4 (rq_len r).

Definition wire (r : NbdRequest) : string := wire_header r +:+ rq_data r.

Fixpoint wires (rs : list NbdRequest) : string :=
  match rs with [] => "" | r :: rs' => wire r +:+ wires rs' end.

(** A request the kernel sends: less than 4GB - 2MB of data. *)
Definition request_ok (r : NbdRequest) : Prop :=
  is_u32 (rq_type r) /\ is_u64 (rq_from r) /\ 0 <= rq_len r < 4292870144 /\ slen (rq_handle r) = 8 /\
  slen (rq_data r) = if command (rq_type r) =? NBD_CMD_WRITE then rq_len r else 0.

(** Whether the byte position [b] of the stream is inside a header. *)
Fixpoint cuts_header (rs : list NbdRequest) (b : Z) : bool :=
  match rs with
  | [] => false
  | r :: rs' =>
      if b <=? 0 then false
      else if b <? RequestHeadSize then true
      else cuts_header rs' (b - slen (wire r))
  end.

Fixpoint sk_bytes (sk : list SockEvent) : string :=
  match sk with
  | [] => ""
  | Recv s :: sk' => s +:+ sk_bytes sk'
  | _ :: sk' => sk_bytes sk'
  end.

(** Every read returns between one byte and a full buffer. *)
Definition event_ok (e : SockEvent) : Prop :=
  match e with
  | Recv s => 0 < slen s <= BufSize
  | Interrupted => True
  | Failed => False
  end.

(** No read ends inside a header; [off]: the bytes already received. *)
Definition whole_headers (off : Z) (rs : list NbdRequest) (sk : list SockEvent) : Prop :=
  forall k, cuts_header rs (off + slen (sk_bytes (take k sk))) = false.

(** Serving the requests one after the other, until one disconnects. *)
Fixpoint serve_all {S} (serve : S -> NbdRequest -> option (bool * S)) (s : S) (rs : list NbdRequest)
    : option S :=
  match rs with
  | [] => Some s
  | r :: rs' =>
      if command (rq_type r) =? NBD_CMD_DISC then Some s
      else '(go, s) ← serve s r; if (go : bool) then serve_all serve s rs' else Some s
  end.

(** ** Strings *)

Lemma app_split (a b c d : string) :
  a +:+ b = c +:+ d -> slen c <= slen a -> exists t, a = c +:+ t /\ d = t +:+ b.
Proof.
  revert a. induction c as [|x c IH]; intros a E Hl; [by exists a|].
  destruct a as [|y a]; [unfold slen in Hl; simpl in Hl; lia|].
  simpl in E. injection E as -> E. destruct (IH a E) as (t & -> & ->); [unfold slen in *; simpl in Hl; lia|].
  by exists t.
Qed.

Lemma slice_mid a b c n : slen b = n -> slice (a +:+ b +:+ c) (slen a) n = b.
Proof.
  intros <-. unfold slice, slen. rewrite !Nat2Z.id. induction a as [|x a IH]; [|exact IH].
  simpl. induction b as [|y b IH]; simpl; [by destruct c|]. by rewrite IH.
Qed.

Lemma slice_prefix b c n : slen b = n -> slice (b +:+ c) 0 n = b.
Proof. apply (slice_mid ""). Qed.

Lemma slice_suffix a b n p : slen a = p -> slen b = n -> slice (a +:+ b) p n = b.
Proof. intros <- Hn. rewrite <- (str_append_nil_r b) at 1. by apply slice_mid. Qed.

Lemma slen_zero s : slen s <= 0 -> s = "".
Proof. destruct s; [done|]. unfold slen. simpl. lia. Qed.

Lemma slen_be n z : slen (be_bytes n z) = Z.of_nat n.
Proof. unfold slen. f_equal. induction n; simpl; auto. Qed.

Lemma be_value_bytes n z : 0 <= z < 256 ^ Z.of_nat n -> be_value (be_bytes n z) = z.
Proof.
  assert (G : forall n, be_value (be_bytes n z) = z mod 256 ^ Z.of_nat n).
  { induction n0 as [|m IH]; [simpl; by rewrite Z.mod_1_r|].
    cbn [be_bytes be_value]. rewrite slen_be, IH, N_ascii_embedding by lia. rewrite Z2N.id by lia.
    rewrite Nat2Z.inj_succ, Z.pow_succ_r by lia. rewrite (Z.mul_comm 256).
    rewrite Z.rem_mul_r by lia. lia. }
  intros. rewrite G. by apply Z.mod_small.
Qed.

(** ** Reading the rest of a write *)

Definition sk_size (sk : list SockEvent) : nat := length sk + String.length (sk_bytes sk).

(** [sk'] is what is left of [sk] after [n] bytes: its read boundaries are
    boundaries of [sk]. *)
Definition rest_of (n : Z) (sk sk' : list SockEvent) : Prop :=
  Forall event_ok sk' /\ (sk_size sk' <= sk_size sk)%nat /\
  forall k, slen (sk_bytes (take k sk')) = 0 \/
    exists k', slen (sk_bytes (take k' sk)) = n + slen (sk_bytes (take k sk')).

Lemma rest_of_refl sk : Forall event_ok sk -> rest_of 0 sk sk.
Proof. intros. split_and!; [done|lia|]. intros k. right. exists k. lia. Qed.

Lemma rest_of_event n e sk sk' :
  rest_of n sk sk' -> rest_of (slen (sk_bytes [e]) + n) (e :: sk) sk'.
Proof.
  intros (? & Hs & Hk). split_and!; [done| |].
  - unfold sk_size in *. destruct e; cbn [sk_bytes length] in *; rewrite ?str_append_length; lia.
  - intros k. destruct (Hk k) as [?|[k' E]]; [by left|]. right. exists (S k'). cbn [take].
    destruct e; cbn [sk_bytes] in *; rewrite ?slen_app, ?E; change (slen "") with 0; lia.
Qed.

Lemma substring_parts s n : substring 0 n s +:+ substring n (String.length s - n) s = s.
Proof.
  revert n. induction s as [|c s IH]; intros [|n]; simpl; try done; [by rewrite substring_all|by rewrite IH].
Qed.

Lemma slice_parts s n : 0 <= n <= slen s -> slice s 0 n +:+ slice s n (slen s - n) = s.
Proof.
  intros Hn. unfold slice, slen in *.
  replace (Z.to_nat (Z.of_nat (String.length s) - n)) with (String.length s - Z.to_nat n)%nat by lia.
  apply substring_parts.
Qed.

Lemma SafeRead_spec sk : forall count,
  Forall event_ok sk -> 0 <= count <= slen (sk_bytes sk) ->
  exists t sk', SafeRead count sk = (Some t, sk') /\ slen t = count /\
    sk_bytes sk = t +:+ sk_bytes sk' /\ rest_of count sk sk'.
Proof.
  induction sk as [|e sk IH]; intros count Hok Hc.
  { change (slen (sk_bytes [])) with 0 in Hc. replace count with 0 by lia. exists "", [].
    split_and!; [done..|by apply rest_of_refl]. }
  cbn [SafeRead]. destruct (Z.leb_spec count 0).
  { replace count with 0 by lia. exists "", (e :: sk). split_and!; [done..|by apply rest_of_refl]. }
  apply Forall_cons in Hok as [He Hok]. destruct e as [s| |]; [|..|done].
  - cbn in He. rewrite (proj2 (Z.eqb_neq _ _)) by lia. cbn [sk_bytes] in *. rewrite slen_app in Hc.
    destruct (Z.leb_spec (slen s) count).
    + destruct (IH (count - slen s) Hok ltac:(lia)) as (t & sk' & -> & Ht & Eb & Hr).
      exists (s +:+ t), sk'. rewrite slen_app, Ht, Eb, str_append_assoc.
      split_and!; [done|lia|done|].
      replace count with (slen (sk_bytes [Recv s]) + (count - slen s))
        by (cbn [sk_bytes]; rewrite str_append_nil_r; lia).
      by apply rest_of_event.
    + pose proof (slice_parts s count ltac:(lia)) as Es.
      assert (Hl : slen (slice s 0 count) = count) by (apply slen_slice; lia).
      assert (Hr : slen (slice s count (slen s - count)) = slen s - count) by (apply slen_slice; lia).
      eexists _, _. split; [done|]. split; [done|]. cbn [sk_bytes]. rewrite str_append_assoc, Es.
      split; [done|]. split_and!.
      * constructor; [cbn; lia|done].
      * unfold sk_size. cbn [sk_bytes length]. rewrite !str_append_length. unfold slen in *. lia.
      * intros [|k]; [by left|right; exists (S k)]. cbn [take sk_bytes]. rewrite !slen_app, Hr. lia.
  - destruct (IH count Hok Hc) as (t & sk' & -> & Ht & Eb & Hr). exists t, sk'. split_and!; [done..|].
    by apply (rest_of_event _ Interrupted).
Qed.

(** ** One request *)

Lemma slice_at buf a b c p n :
  buf = a +:+ b +:+ c -> slen a = p -> slen b = n -> slice buf p n = b.
Proof. intros -> <- Hn. by apply slice_mid. Qed.

Lemma slen_header r : request_ok r -> slen (wire_header r) = RequestHeadSize.
Proof. intros (? & ? & ? & Hh & ?). unfold wire_header. rewrite !slen_app, !slen_be, Hh. done. Qed.

Lemma header_fields pre r rest :
  request_ok r ->
  let field pos n := slice (pre +:+ wire_header r +:+ rest) (slen pre + pos) n in
  be_value (field 0 4) = NBD_REQUEST_MAGIC /\ be_value (field 4 4) = rq_type r /\
  field 8 8 = rq_handle r /\ be_value (field 16 8) = rq_from r /\ be_value (field 24 4) = rq_len r.
Proof.
  intros (Ht & Hf & Hl & Hh & _) field. unfold is_u32, is_u64, u64_max in *.
  assert (G : forall a b c p n, wire_header r +:+ rest = a +:+ b +:+ c -> slen a = p -> slen b = n ->
                field p n = b).
  { intros a b c p n E <- Hn. apply (slice_at _ (pre +:+ a) b c); [|by rewrite slen_app|done].
    by rewrite E, <- !str_append_assoc. }
  unfold wire_header in G. rewrite <- !str_append_assoc in G.
  set (m := be_bytes 4 NBD_REQUEST_MAGIC) in *. set (t := be_bytes 4 (rq_type r)) in *.
  set (f := be_bytes 8 (rq_from r)) in *. set (l := be_bytes 4 (rq_len r)) in *.
  rewrite (G "" m _ 0 4 eq_refl), (G m t _ 4 4 eq_refl),
    (G (m +:+ t) (rq_handle r) (f +:+ l +:+ rest) 8 8), (G (m +:+ t +:+ rq_handle r) f (l +:+ rest) 16 8),
    (G (m +:+ t +:+ rq_handle r +:+ f) l rest 24 4);
    rewrite ?slen_app, ?Hh; subst m t f l; rewrite ?slen_be, <- ?str_append_assoc; try done.
  assert (P4 : 256 ^ Z.of_nat 4 = 4294967296) by done.
  assert (P8 : 256 ^ Z.of_nat 8 = 18446744073709551616) by done.
  rewrite !be_value_bytes by (rewrite ?P4, ?P8; unfold NBD_REQUEST_MAGIC; lia). done.
Qed.

Section Packs.
Context {S : Type} (serve : S -> NbdRequest -> option (bool * S)).

(** What [OnRecvPack] does for a request all of whose data has arrived. *)
Definition served (s : S) (sk : list SockEvent) (r : NbdRequest) : option (bool * S * list SockEvent) :=
  if command (rq_type r) =? NBD_CMD_DISC then Some (false, s, sk)
  else '(go, s) ← serve s r; Some (go, s, sk).

Lemma OnRecvPack_whole s sk r rest :
  request_ok r ->
  OnRecvPack serve s sk (rq_type r) (rq_from r) (rq_len r) (rq_handle r) (rq_data r +:+ rest)
    (slen (rq_data r)) = served s sk r.
Proof.
  intros (_ & _ & Hl & _ & Hd). destruct r as [ty fr len ha da]. cbn [rq_type rq_len rq_data rq_from rq_handle] in *.
  unfold OnRecvPack, served. cbn [rq_type]. pose proof (slen_nonneg rest).
  destruct (Z.eqb_spec (command ty) NBD_CMD_DISC) as [|_]; [done|].
  destruct (Z.eqb_spec (command ty) NBD_CMD_WRITE) as [|_].
  - rewrite slen_app, slice_prefix, !(proj2 (Z.ltb_ge _ _)) by (done || lia). cbn [orb].
    by rewrite str_append_nil_r.
  - by rewrite (slen_zero da) by lia.
Qed.

Lemma OnRecvPack_partial s sk r rest t sk' :
  request_ok r -> rq_data r = rest +:+ t -> 0 < slen t ->
  SafeRead (slen t) sk = (Some t, sk') ->
  OnRecvPack serve s sk (rq_type r) (rq_from r) (rq_len r) (rq_handle r) rest (slen rest) = served s sk' r.
Proof.
  intros (_ & _ & Hl & _ & Hd) Ed Ht Er. destruct r as [ty fr len ha da].
  cbn [rq_type rq_len rq_data rq_from rq_handle] in *. subst da. rewrite slen_app in Hd.
  pose proof (slen_nonneg rest). unfold OnRecvPack, served. cbn [rq_type].
  destruct (Z.eqb_spec (command ty) NBD_CMD_WRITE) as [Ew|]; [|lia]. rewrite Ew. cbn [Z.eqb].
  change (NBD_CMD_WRITE =? NBD_CMD_DISC) with false. cbv iota.
  rewrite !(proj2 (Z.ltb_ge _ _)) by lia. cbn [orb]. rewrite (proj2 (Z.ltb_lt _ _)) by lia.
  unfold SafeReadExact. replace (len - slen rest) with (slen t) by lia. rewrite Er, Z.eqb_refl.
  pose proof (slice_prefix rest "" _ eq_refl) as E. rewrite str_append_nil_r in E. by rewrite E.
Qed.

(** ** The inner loop *)

(** What the loop leaves when the requests [rs] start at its position. *)
Definition after_packs (s : S) (rs : list NbdRequest) (size : nat)
    (res : option (bool * S * list SockEvent * string)) : Prop :=
  match res with
  | None => serve_all serve s rs = None
  | Some (true, s', _, _) => serve_all serve s rs = Some s'
  | Some (false, s', sk', buf') =>
      buf' = "" /\ exists rs', serve_all serve s rs = serve_all serve s' rs' /\
        sk_bytes sk' = wires rs' /\ Forall event_ok sk' /\ whole_headers 0 rs' sk' /\
        Forall request_ok rs' /\ (sk_size sk' <= size)%nat
  end.

(** The last request of the buffer, served with the rest [sk] of the socket. *)
Lemma served_last s r rs sk n :
  sk_bytes sk = wires rs -> Forall event_ok sk -> whole_headers 0 rs sk -> Forall request_ok rs ->
  (sk_size sk <= n)%nat ->
  after_packs s (r :: rs) n ('(go, s, sk) ← served s sk r; Some (negb go, s, sk, "")).
Proof.
  intros Hb He Hw Hr Hn. unfold served. cbn [after_packs serve_all].
  destruct (command (rq_type r) =? NBD_CMD_DISC) eqn:Ed; [cbn; by rewrite Ed|].
  destruct (serve s r) as [[[] s']|] eqn:Es; cbn; rewrite Ed, Es; [|done..].
  split; [done|]. by exists rs.
Qed.

Lemma cuts_next r rs x : request_ok r -> cuts_header (r :: rs) (slen (wire r) + x) = false ->
  0 <= x -> cuts_header rs x = false.
Proof.
  intros Hr. pose proof (slen_header r Hr) as Hh. unfold wire. rewrite slen_app, Hh.
  pose proof (slen_nonneg (rq_data r)). cbn [cuts_header]. unfold wire. rewrite slen_app, Hh.
  unfold RequestHeadSize. intros E Hx. rewrite (proj2 (Z.leb_gt _ _)), (proj2 (Z.ltb_ge _ _)) in E by lia.
  by replace (28 + slen (rq_data r) + x - (28 + slen (rq_data r))) with x in E by lia.
Qed.

Lemma cuts_zero rs : cuts_header rs 0 = false.
Proof. by destruct rs. Qed.

Lemma whole_headers_next off r rs sk :
  request_ok r -> whole_headers off (r :: rs) sk -> slen (wire r) <= off ->
  whole_headers (off - slen (wire r)) rs sk.
Proof.
  intros Hr Hw Ho k. apply (cuts_next r); [done| |pose proof (slen_nonneg (sk_bytes (take k sk))); lia].
  rewrite <- (Hw k). f_equal. lia.
Qed.

Lemma whole_headers_rest off n r rs sk sk' :
  request_ok r -> whole_headers off (r :: rs) sk -> rest_of n sk sk' -> off + n = slen (wire r) ->
  whole_headers 0 rs sk'.
Proof.
  intros Hr Hw (_ & _ & Hk) Ho k. destruct (Hk k) as [->|[k' E]]; [apply cuts_zero|].
  apply (cuts_next r); [done| |pose proof (slen_nonneg (sk_bytes (take k sk'))); lia].
  rewrite <- (Hw k'), E. f_equal. lia.
Qed.

Lemma slen_wire r : request_ok r -> slen (wire r) = RequestHeadSize + slen (rq_data r).
Proof. intros Hr. unfold wire. by rewrite slen_app, slen_header. Qed.

(** The three ways the received bytes can end: behind the request, with it, or
    inside its data. *)
Lemma pack_next s r rs sk n (next : S -> list SockEvent -> option (bool * S * list SockEvent * string))
    rest buf :
  request_ok r -> (forall s, after_packs s rs n (next s sk)) ->
  after_packs s (r :: rs) n
    ('(go, s, sk) ← OnRecvPack serve s sk (rq_type r) (rq_from r) (rq_len r) (rq_handle r)
                      (rq_data r +:+ rest) (slen (rq_data r));
     if negb go then Some (true, s, sk, buf) else next s sk).
Proof.
  intros Hr Hn. rewrite OnRecvPack_whole by done. unfold served.
  destruct (command (rq_type r) =? NBD_CMD_DISC) eqn:Ed; [cbn; by rewrite Ed|].
  destruct (serve s r) as [[[] s']|] eqn:Es; cbn; rewrite ?Ed, ?Es; [|done..].
  specialize (Hn s'). destruct (next s' sk) as [[[[[] s2] sk2] b2]|]; cbn in Hn |- *; rewrite Ed, Es; exact Hn.
Qed.

Lemma pack_last s r rs sk :
  request_ok r -> Forall request_ok rs -> Forall event_ok sk ->
  whole_headers (RequestHeadSize + slen (rq_data r)) (r :: rs) sk -> wires rs = sk_bytes sk ->
  after_packs s (r :: rs) (sk_size sk)
    ('(go, s, sk) ← OnRecvPack serve s sk (rq_type r) (rq_from r) (rq_len r) (rq_handle r)
                      (rq_data r) (slen (rq_data r));
     Some (negb go, s, sk, "")).
Proof.
  intros Hr Hrs Hsk Hw Hb. rewrite <- (str_append_nil_r (rq_data r)) at 1.
  rewrite OnRecvPack_whole by done. apply served_last; [done..| |done|lia].
  rewrite <- slen_wire in Hw by done. replace 0 with (slen (wire r) - slen (wire r)) by lia.
  by apply whole_headers_next.
Qed.

Lemma pack_partial s r rs sk rest t :
  request_ok r -> Forall request_ok rs -> Forall event_ok sk ->
  whole_headers (RequestHeadSize + slen rest) (r :: rs) sk ->
  rq_data r = rest +:+ t -> 0 < slen t -> sk_bytes sk = t +:+ wires rs ->
  after_packs s (r :: rs) (sk_size sk)
    ('(go, s, sk) ← OnRecvPack serve s sk (rq_type r) (rq_from r) (rq_len r) (rq_handle r)
                      rest (slen rest);
     Some (negb go, s, sk, "")).
Proof.
  intros Hr Hrs Hsk Hw Ed Ht Hb.
  assert (slen t <= slen (sk_bytes sk)) by (rewrite Hb, slen_app; pose proof (slen_nonneg (wires rs)); lia).
  destruct (SafeRead_spec sk (slen t) Hsk ltac:(lia)) as (t' & sk' & Er & Ht' & Eb & Hrest).
  rewrite Hb in Eb. destruct (app_split t (wires rs) t' (sk_bytes sk')) as (u & -> & Eb'); [done|lia|].
  assert (u = "") as -> by (apply slen_zero; rewrite slen_app in Ht'; lia).
  rewrite str_append_nil_r in *. rewrite (OnRecvPack_partial s sk r rest t' sk') by done.
  apply served_last; [done|apply Hrest| |done|apply Hrest].
  apply (whole_headers_rest (RequestHeadSize + slen rest) (slen t') r rs sk); [done..|].
  rewrite slen_wire, Ed, slen_app by done. lia.
Qed.

Lemma packs_spec rs : forall fuel s sk pre rest,
  Forall request_ok rs -> Forall event_ok sk -> whole_headers (slen rest) rs sk ->
  rest +:+ sk_bytes sk = wires rs -> 0 < slen rest -> slen pre + slen rest <= BufSize ->
  (String.length rest < fuel)%nat ->
  after_packs s rs (sk_size sk) (packs serve fuel s sk (pre +:+ rest) (slen pre)).
Proof.
  induction rs as [|r rs IH]; intros fuel s sk pre rest Hrs Hsk Hw Hb Hpos Hbuf Hfuel.
  { assert (slen (rest +:+ sk_bytes sk) = 0) by (by rewrite Hb). rewrite slen_app in *.
    pose proof (slen_nonneg (sk_bytes sk)). lia. }
  apply Forall_cons in Hrs as [Hr Hrs]. pose proof (slen_header r Hr) as Hh.
  destruct fuel as [|fuel]; [lia|]. cbn [packs]. rewrite slen_app.
  rewrite (proj2 (Z.ltb_lt (slen pre) _)) by lia. cbn [negb].
  assert (H28 : RequestHeadSize <= slen rest).
  { specialize (Hw 0%nat). cbn [take sk_bytes cuts_header] in Hw. change (slen "") with 0 in Hw.
    rewrite Z.add_0_r, (proj2 (Z.leb_gt _ _)) in Hw by lia.
    destruct (Z.ltb_spec (slen rest) RequestHeadSize); [done|lia]. }
  rewrite (proj2 (Z.ltb_ge _ _)) by lia.
  cbn [wires] in Hb. unfold wire in Hb. rewrite <- str_append_assoc in Hb.
  apply app_split in Hb as (rest1 & -> & Hb); [|lia]. rewrite slen_app, Hh in *.
  pose proof (header_fields pre r rest1 Hr) as (-> & -> & -> & -> & ->).
  rewrite Z.eqb_refl. cbn [negb].
  rewrite (slice_at _ (pre +:+ wire_header r) rest1 "")
    by (rewrite ?str_append_nil_r, ?slen_app, ?Hh, <- ?str_append_assoc; done || lia).
  assert (Hd : (if command (rq_type r) =? NBD_CMD_WRITE then rq_len r else 0) = slen (rq_data r)
               /\ slen (rq_data r) < 4292870144).
  { destruct Hr as (_ & _ & ? & _ & ->). split; [done|]. destruct (_ =? _); lia. }
  destruct Hd as [-> Hlen]. pose proof (slen_nonneg (rq_data r)). pose proof (slen_nonneg pre).
  rewrite (wrap32_small _) by (unfold is_u32, BufSize, RequestHeadSize in *; lia).
  symmetry in Hb. destruct (Z.ltb_spec (slen pre + RequestHeadSize + slen (rq_data r)) (slen pre + (RequestHeadSize + slen rest1))) as [Hlt|Hge].
  - apply app_split in Hb as (rest2 & -> & Hb); [|lia]. rewrite slen_app in *. apply (pack_next s r rs sk _ (fun s sk => packs serve fuel s sk _ _)); [done|].
    intros s'. cbv beta. replace (slen pre + RequestHeadSize + slen (rq_data r)) with (slen (pre +:+ wire r))
      by (rewrite slen_app, slen_wire; done || lia).
    replace (pre +:+ wire_header r +:+ rq_data r +:+ rest2) with ((pre +:+ wire r) +:+ rest2)
      by (unfold wire; by rewrite <- !str_append_assoc).
    apply IH; try done; rewrite ?slen_app, ?slen_wire by done; try lia.
    + replace (slen rest2) with (RequestHeadSize + (slen (rq_data r) + slen rest2) - slen (wire r))
        by (rewrite slen_wire; done || lia).
      apply whole_headers_next; [done..|]. rewrite slen_wire by done. lia.
    + rewrite !str_append_length in Hfuel. unfold slen, RequestHeadSize in Hh. lia.
  - destruct (Z.eqb_spec (slen pre + RequestHeadSize + slen (rq_data r)) (slen pre + (RequestHeadSize + slen rest1))) as [Heq|Hne].
    + apply app_split in Hb as (t & -> & Hb); [|lia]. rewrite slen_app in *.
      assert (t = "") as -> by (apply slen_zero; lia). rewrite str_append_nil_r, Z.add_0_r in *.
      by apply pack_last.
    + symmetry in Hb. apply app_split in Hb as (t & Ed & Hb); [|lia].
      replace (_ - slen pre - RequestHeadSize) with (slen rest1) by lia.
      apply (pack_partial _ _ _ _ _ t); try done.
      assert (Ht := f_equal slen Ed). rewrite slen_app in Ht. lia.
Qed.
End Packs.

(** ** The stream *)

Lemma whole_headers_tail off e rs sk :
  whole_headers off rs (e :: sk) -> whole_headers (off + slen (sk_bytes [e])) rs sk.
Proof.
  intros Hw k. rewrite <- (Hw (S k)). f_equal. cbn [take].
  destruct e; cbn [sk_bytes]; rewrite ?slen_app; change (slen "") with 0; lia.
Qed.

Lemma wires_nil rs : Forall request_ok rs -> wires rs = "" -> rs = [].
Proof.
  destruct rs as [|r rs]; [done|]. intros [Hr _]%Forall_cons E. apply (f_equal slen) in E.
  cbn [wires] in E. rewrite slen_app, slen_wire in E by done. change (slen "") with 0 in E.
  pose proof (slen_nonneg (rq_data r)). pose proof (slen_nonneg (wires rs)). unfold RequestHeadSize in E. lia.
Qed.


(** A server that records its requests. *)
Definition record_request (s : list NbdRequest) (r : NbdRequest) : option (bool * list NbdRequest) :=
  Some (true, (s ++ [r])%list).

Definition demo_write : NbdRequest := mkNbdRequest NBD_CMD_WRITE 4096 8 "handle-1" "datadata".
Definition demo_read : NbdRequest := mkNbdRequest NBD_CMD_READ 0 4096 "handle-2" "".


(** When a read ends inside the header behind a complete request, the reader
    keeps both in the buffer and starts over with the first: the write is
    executed, and answered, twice. *)
Lemma split_header_replays :
  let stream := wire demo_write +:+ wire demo_read in
  ReaderFunc record_request 1000 [] [Recv (slice stream 0 46); Recv (slice stream 46 18)] "" =
  Some [demo_write; demo_write; demo_read].
Proof. reflexivity. Qed.
