(* ===== verification/NbdServer.v ===== *)
(** * The block device server

    The requests of [NBDServer] (src/nbd/src/nbd_server.cpp) behind the reader
    of NbdReader.v and [BlobInstance] (src/nbd/src/blob_instance.cpp): reads
    and writes are widened to blocks of 4096 bytes, handed to the blob stream
    of Client.v and answered on the socket when the stream calls back.

    The blob is a blob of the cluster; the two test modes of [BlobInstance],
    in memory and on a local file, are left out.  [None] is undefined
    behaviour: an access outside a buffer, or the use of a request context
    that was deleted. *)

From Stdlib Require Import Ascii.
From S2P Require Import Prelude Status Codec Net StorageEngine Client ClientTheorems NbdReader.

#[local] Open Scope string_scope.
#[local] Open Scope Z_scope.

Definition NBD_REPLY_MAGIC : Z := 0x67446698.
Definition kReplySize : Z := 16.
Definition CYPRE_BLOCK_SIZE : Z := 4096.

(** [struct nbd_reply] with [error] in host order. *)
Definition nbd_reply (handle : string) (error : Z) : string :=
  be_bytes 4 NBD_REPLY_MAGIC +:+ be_bytes 4 (wrap32 error) +:+ handle.

(** [IOContext]: the request, the error of the reply and the data. *)
Record IOContext : Type := mkIOContext {
  ctx_request : NbdRequest;
  ctx_error : Z;
  ctx_data : string;
  ctx_ret : Z
}.

Definition ctx_command (ctx : IOContext) : Z := command (rq_type (ctx_request ctx)).

(** The blocks that contain a request: [offyu], [align_offset],
    [align_length] and [lenyu]. *)
Definition align_request (offset length : Z) : Z * Z * Z * Z :=
  let offyu := offset mod CYPRE_BLOCK_SIZE in
  let align_offset := offset - offyu in
  let align_length := wrap32 (offyu + length) in
  let lenyu := align_length mod CYPRE_BLOCK_SIZE in
  (offyu, align_offset, if 0 <? lenyu then align_length + (CYPRE_BLOCK_SIZE - lenyu) else align_length,
   lenyu).

(** [SendReply]: the bytes handed to the socket. *)
Definition SendReply (ctx : IOContext) : option string :=
  let header := nbd_reply (rq_handle (ctx_request ctx)) (ctx_error ctx) in
  if (ctx_command ctx =? NBD_CMD_READ) && (wrap32 (ctx_error ctx) =? 0) then
    let offyu := rq_from (ctx_request ctx) mod CYPRE_BLOCK_SIZE in
    buf ← copy_at (ctx_data ctx) offyu header;
    let n := kReplySize + rq_len (ctx_request ctx) in
    if slen buf <? offyu + n then None else Some (slice buf offyu n)
  else Some header.

(** A request in the hands of the blob stream: its context without the data,
    the parts to come, and the data: [j_buf] is the buffer of the stream,
    between [j_head] and [j_tail]. *)
Record Job : Type := mkJob {
  j_request : NbdRequest;
  j_ureq : UReq;
  j_pending : list Pending;
  j_offset : Z;
  j_split : bool;
  j_head : string;
  j_buf : string;
  j_tail : string
}.

Section Server.
Context `{EsRpc W} `{Crc32c}.

(** What [new char[n]] contains. *)
Context (uninit : Z -> string).

(** The server with its blob stream.  [sv_sent]: what was written to the
    socket, with the request it answers. *)
Record Server : Type := mkServer {
  sv_stream : RBDStream;
  sv_world : W;
  pending_request_counts_ : Z;
  sv_sent : list (NbdRequest * string);
  sv_jobs : list Job
}.

Definition set_io (s : Server) (h : RBDStream) (w : W) : Server :=
  mkServer h w (pending_request_counts_ s) (sv_sent s) (sv_jobs s).
Definition set_jobs (s : Server) (jobs : list Job) : Server :=
  mkServer (sv_stream s) (sv_world s) (pending_request_counts_ s) (sv_sent s) jobs.

Definition OnRequestStart (s : Server) : Server :=
  mkServer (sv_stream s) (sv_world s) (wrap64 (pending_request_counts_ s + 1)) (sv_sent s) (sv_jobs s).

Definition OnRequestFinish (s : Server) (ctx : IOContext) : option Server :=
  bytes ← SendReply ctx;
  Some (mkServer (sv_stream s) (sv_world s) (wrap64 (pending_request_counts_ s - 1))
          (sv_sent s ++ [(ctx_request ctx, bytes)])%list (sv_jobs s)).

Definition NBDAioCallback (s : Server) (rc : Z) (ctx : IOContext) : option Server :=
  OnRequestFinish s (mkIOContext (ctx_request ctx) (if rc =? 0 then 0 else if 0 <? rc then rc else - rc)
                       (ctx_data ctx) rc).

(** The failure path of [OnRecvPack]: the error of the reply is still 0. *)
Definition start_failed (s : Server) (ctx : IOContext) : option (bool * Server) :=
  s ← OnRequestFinish s (mkIOContext (ctx_request ctx) (ctx_error ctx) (ctx_data ctx) (-1));
  Some (false, s).

(** [AsyncRead] or [AsyncWrite] on the stream and what [OnRecvPack] does with
    its result.  A context whose callback ran, or will run, must not be
    finished again. *)
Definition submit (s : Server) (ctx : IOContext) (head buf tail : string) (offset : Z)
    : option (bool * Server) :=
  '(rv, a) ← AsyncIo_issue (sv_world s) (sv_stream s) buf offset;
  let s := set_io s (a_stream a) (a_world a) in
  match a_calls a, a_pending a with
  | [], [] => if rv =? CYPRE_OK then Some (true, s) else start_failed s ctx
  | [], pending =>
      if rv =? CYPRE_OK then
        Some (true, set_jobs s (sv_jobs s ++
          [mkJob (ctx_request ctx) (a_ureq a) pending offset (u_ref (a_ureq a) =? 2) head buf tail])%list)
      else None
  | rc :: _, _ =>
      s ← NBDAioCallback s rc (mkIOContext (ctx_request ctx) 0 (head +:+ buf +:+ tail) 0);
      if rv =? CYPRE_OK then Some (true, s) else None
  end.

(** [BlobInstance::Read]. *)
Definition Blob_Read (s : Server) (ctx : IOContext) : option (bool * Server) :=
  let r := ctx_request ctx in
  let '(_, align_offset, align_length, _) := align_request (rq_from r) (rq_len r) in
  let data := uninit (kReplySize + align_length) in
  let n := wrap32 align_length in
  let region := slice data kReplySize align_length in
  submit s (mkIOContext r (ctx_error ctx) data (ctx_ret ctx)) (slice data 0 kReplySize)
    (slice region 0 n) (slice region n (align_length - n)) align_offset.

(** [BlobInstance::Write].  The test of the read's code takes it for a count
    of bytes. *)
Definition Blob_Write (s : Server) (ctx : IOContext) : option (bool * Server) :=
  let r := ctx_request ctx in
  let '(offyu, align_offset, align_length, lenyu) := align_request (rq_from r) (rq_len r) in
  let write s buf :=
    let n := wrap32 align_length in
    submit s (mkIOContext r (ctx_error ctx) buf (ctx_ret ctx)) "" (slice buf 0 n)
      (slice buf n (align_length - n)) align_offset in
  if (0 <? offyu) || negb (rq_len r =? align_length) then
    let buf := uninit align_length in
    let readlen := if align_length <? 65536 then align_length else CYPRE_BLOCK_SIZE in
    '(ret, head, h, w) ← Stream_Read (sv_world s) (sv_stream s) (slice buf 0 readlen) align_offset;
    buf ← copy_at buf 0 head;
    let s := set_io s h w in
    if ret <=? 0 then start_failed s ctx
    else
      '(failed, buf, s) ←
        (if (ret <? align_length) && (0 <? lenyu) then
           '(ret, last, h, w) ← Stream_Read (sv_world s) (sv_stream s)
                                  (slice buf (align_length - CYPRE_BLOCK_SIZE) CYPRE_BLOCK_SIZE)
                                  (wrap64 (align_offset + align_length - CYPRE_BLOCK_SIZE));
           buf ← copy_at buf (align_length - CYPRE_BLOCK_SIZE) last;
           Some (ret <=? 0, buf, set_io s h w)
         else Some (false, buf, s));
      if (failed : bool) then start_failed s ctx
      else buf ← copy_at buf offyu (ctx_data ctx); write s buf
  else write s (ctx_data ctx).

(** [OnRecvPack] once the data is complete: [OnRequestStart] and
    [StartAioRequest].  [Flush] and [Trim] call back at once. *)
Definition serve_request (s : Server) (r : NbdRequest) : option (bool * Server) :=
  let ctx := mkIOContext r 0 (rq_data r) 0 in
  let s := OnRequestStart s in
  let cmd := ctx_command ctx in
  if cmd =? NBD_CMD_WRITE then Blob_Write s ctx
  else if cmd =? NBD_CMD_READ then Blob_Read s ctx
  else if (cmd =? NBD_CMD_FLUSH) || (cmd =? NBD_CMD_TRIM) then
    s ← NBDAioCallback s 0 ctx; Some (true, s)
  else start_failed s ctx.

(** A job as a request of the stream. *)
Definition job_io (s : Server) (j : Job) : AsyncIo W :=
  mkAsyncIo (sv_stream s) (sv_world s) (j_ureq j) (j_pending j) [] (j_buf j).

(** A part of the job ended and left [a]: the job goes on or its callback
    runs. *)
Definition job_next (s : Server) (l : list Job) (j : Job) (r : list Job) (a : AsyncIo W) : option Server :=
  let s := set_io s (a_stream a) (a_world a) in
  match a_calls a with
  | [] =>
      Some (set_jobs s (l ++ mkJob (j_request j) (a_ureq a) (a_pending a) (j_offset j) (j_split j)
                               (j_head j) (a_buf a) (j_tail j) :: r)%list)
  | rc :: _ =>
      NBDAioCallback (set_jobs s (l ++ r)%list) rc
        (mkIOContext (j_request j) 0 (j_head j +:+ a_buf a +:+ j_tail j) 0)
  end.

(** The reader and the sender threads, in any order; the list has the requests
    served so far. *)
Inductive nbd_run (s0 : Server) : list NbdRequest -> Server -> Prop :=
  | nr_start : nbd_run s0 [] s0
  | nr_serve rs s r go s' :
      nbd_run s0 rs s -> serve_request s r = Some (go, s') -> nbd_run s0 (rs ++ [r])%list s'
  | nr_part rs s l j r a s' :
      nbd_run s0 rs s -> sv_jobs s = (l ++ j :: r)%list ->
      async_step (ctx_command (mkIOContext (j_request j) 0 "" 0) =? NBD_CMD_READ) (j_offset j) (j_split j)
        (job_io s j) a ->
      job_next s l j r a = Some s' -> nbd_run s0 rs s'.
End Server.
Arguments Server : clear implicits.

(** ** The reply *)

Lemma slen_reply handle error : slen handle = 8 -> slen (nbd_reply handle error) = kReplySize.
Proof. intros Hh. unfold nbd_reply. by rewrite !slen_app, !slen_be, Hh. Qed.

(** A reply on the socket: the header with the request's handle and, for a
    read without error, exactly the number of bytes asked for. *)
Definition reply_ok (m : NbdRequest * string) : Prop :=
  exists error data, m.2 = nbd_reply (rq_handle m.1) error +:+ data /\
    slen data = if (command (rq_type m.1) =? NBD_CMD_READ) && (wrap32 error =? 0) then rq_len m.1 else 0.

Lemma SendReply_ok ctx bytes :
  slen (rq_handle (ctx_request ctx)) = 8 -> 0 <= rq_len (ctx_request ctx) ->
  SendReply ctx = Some bytes -> reply_ok (ctx_request ctx, bytes).
Proof.
  intros Hh Hl. unfold SendReply, ctx_command. set (r := ctx_request ctx) in *.
  pose proof (slen_reply (rq_handle r) (ctx_error ctx) Hh) as Hr.
  destruct (_ && _) eqn:Ec.
  - unfold copy_at. destruct (_ <? _) eqn:Ef; [done|]. cbn [mbind option_bind].
    set (offyu := rq_from r mod CYPRE_BLOCK_SIZE) in *.
    assert (Ho : 0 <= offyu) by (apply Z.mod_pos_bound; done).
    set (t := slice (ctx_data ctx) (offyu + _) _).
    assert (H0 : slen (slice (ctx_data ctx) 0 offyu) = offyu).
    { apply slen_slice; [lia..|]. apply Z.ltb_ge in Ef. rewrite Hr in Ef. unfold kReplySize in Ef. lia. }
    rewrite !slen_app, H0, Hr. destruct (Z.ltb_spec (offyu + (kReplySize + slen t)) (offyu + (kReplySize + rq_len r))); [done|].
    intros E%(inj Some). subst bytes.
    exists (ctx_error ctx), (slice t 0 (rq_len r)). cbn [fst snd]. rewrite Ec.
    split; [|apply slen_slice; lia].
    apply (slice_at _ (slice (ctx_data ctx) 0 offyu) _ (slice t (rq_len r) (slen t - rq_len r))); [|done|].
    + rewrite <- !str_append_assoc, slice_parts by lia. done.
    + rewrite slen_app, Hr, slen_slice; lia.
  - intros E%(inj Some). subst bytes. exists (ctx_error ctx), "". cbn [fst snd]. by rewrite str_append_nil_r, Ec.
Qed.

(** ** Counting parts *)

Lemma issue_parts_ok {W} `{EsRpc W} parts : forall (a : AsyncIo W) pos rv rv' a',
  issue_parts a pos rv parts = (rv', a') -> rv' = CYPRE_OK ->
  a_calls a' = a_calls a /\ a_ureq a' = a_ureq a /\
  length (a_pending a') = (length (a_pending a) + length parts)%nat.
Proof.
  induction parts as [|p parts IH]; intros a pos rv rv' a' E Er.
  { cbn in E. injection E as <- <-. cbn. split_and!; [done..|lia]. }
  cbn [issue_parts] in E. destruct (open_channel _ _ _) as [ch h].
  assert (Hn : forall a pos rv, rv <> CYPRE_OK -> forall rv' a', issue_parts a pos rv parts = (rv', a') -> rv' <> CYPRE_OK).
  { clear. induction parts as [|p parts IH]; intros a pos rv Hrv rv' a' E; [by injection E as <- <-|].
    cbn [issue_parts] in E. destruct (open_channel _ _ _) as [[] h]; (eapply IH; [|exact E]); done. }
  destruct ch; [by apply Hn in E|..]; (apply IH in E as (E1 & E2 & E3); [|done]); cbn in E1, E2, E3;
    rewrite length_app in E3; cbn in E3; (split_and!; [done..|cbn; lia]).
Qed.

Lemma AsyncIo_issue_ok {W} `{EsRpc W} (w : W) h buf offset a :
  AsyncIo_issue w h buf offset = Some (CYPRE_OK, a) ->
  a_calls a = [] /\ a_pending a <> [] /\ u_ref (a_ureq a) = Z.of_nat (length (a_pending a)).
Proof.
  unfold AsyncIo_issue. destruct (isClosed_ h); [done|].
  destruct (splitUserRequest _ _ _) as [[[rv parts] h1]|] eqn:Es; [|done]. cbn [mbind option_bind].
  assert (Hp : rv = CYPRE_OK -> parts <> []).
  { revert Es. unfold splitUserRequest. destruct (_ =? 0); [done|]. destruct (_ <? _); [intros [= <- _ _]; done|].
    destruct (GetExtentStreamHandle _ _) as [[y h2]|]; [|done]. cbn [mbind option_bind].
    destruct (_ <? _); [destruct (GetExtentStreamHandle _ _) as [[y' h3]|]; [|done]|]; cbn [mbind option_bind];
      intros [= <- <- <-]; done. }
  destruct (Z.eqb_spec rv CYPRE_OK) as [->|]; cbn [negb]; [|intros [= ? _]; done].
  intros [= E]. apply issue_parts_ok in E as (Ec & Eu & El); [|done]. cbn in Ec, Eu, El. rewrite Ec, Eu, El.
  split_and!; [done| |done]. intros E. rewrite E in El. specialize (Hp eq_refl). by destruct parts.
Qed.

(** A part ends: the callback runs exactly with the last one. *)
Definition counted {W} (a : AsyncIo W) : Prop :=
  u_ref (a_ureq a) = Z.of_nat (length (a_pending a)) /\ (a_calls a = [] <-> a_pending a <> []).

Lemma part_done_counted {W} (a : AsyncIo W) status bad :
  a_calls a = [] -> u_ref (a_ureq a) = Z.of_nat (length (a_pending a)) + 1 -> counted (part_done a status bad).
Proof.
  intros Hc Hr. unfold part_done, onDone, counted. cbn [u_ref].
  destruct (Z.ltb_spec 0 (u_ref (a_ureq a) - 1)); cbn; rewrite Hc; (split; [lia|]).
  - split; [|done]. intros _ E. rewrite E in Hr. cbn in Hr. lia.
  - destruct (a_pending a); cbn in *; [split; [done|by intros []]|lia].
Qed.

Lemma async_step_counted {W} `{EsRpc W} `{Crc32c} rd offset split (a a' : AsyncIo W) :
  async_step rd offset split a a' -> a_calls a = [] ->
  u_ref (a_ureq a) = Z.of_nat (length (a_pending a)) -> counted a'.
Proof.
  intros Hs Hc Hr.
  assert (G : forall l pd r, a_pending a = (l ++ pd :: r)%list ->
            u_ref (a_ureq a) = Z.of_nat (length (l ++ r)) + 1).
  { intros l pd r E. rewrite Hr, E, !length_app. cbn [length]. lia. }
  destruct Hs as [l pd r _ E|l pd r a1 _ E Ea|l pd r E]; apply G in E.
  - unfold answer_write. destruct (pd_channel pd); [..|by apply part_done_counted];
      [by apply part_done_counted|]. destruct (rpc_write _ _ _ _). by apply part_done_counted.
  - revert Ea. unfold answer_read. destruct (pd_channel pd); [intros [= <-]; by apply part_done_counted| |
      intros [= <-]; by apply part_done_counted].
    destruct (rpc_read _ _ _), (read_data _). destruct (copy_at _ _ _); [|done]. intros [= <-].
    by apply part_done_counted.
  - by apply part_done_counted.
Qed.

(** ** Every request is answered once *)

Section Answers.
Context {W : Type} `{EsRpc W} `{Crc32c} (uninit : Z -> string).

Definition job_ok (j : Job) : Prop :=
  j_pending j <> [] /\ u_ref (j_ureq j) = Z.of_nat (length (j_pending j)).

Definition small_request (r : NbdRequest) : Prop := slen (rq_handle r) = 8 /\ 0 <= rq_len r.

(** [rs]: the requests started so far; [extra]: one of them that is neither
    answered nor in the hands of the stream. *)
Record server_inv (rs extra : list NbdRequest) (s : Server W) : Prop := {
  si_requests : rs ≡ₚ extra ++ map j_request (sv_jobs s) ++ map fst (sv_sent s);
  si_pending : pending_request_counts_ s = wrap64 (Z.of_nat (length extra + length (sv_jobs s)));
  si_jobs : Forall job_ok (sv_jobs s);
  si_replies : Forall reply_ok (sv_sent s)
}.

Lemma wrap64_add_l x y : wrap64 (wrap64 x + y) = wrap64 (x + y).
Proof. unfold wrap64. apply Zplus_mod_idemp_l. Qed.

Lemma set_io_inv rs extra s h (w : W) : server_inv rs extra s -> server_inv rs extra (set_io s h w).
Proof. by intros []. Qed.

Lemma start_inv rs s r : server_inv rs [] s -> server_inv (rs ++ [r]) [r] (OnRequestStart s).
Proof.
  intros [Hr Hp Hj Ha]. split; try done; cbn.
  - rewrite (Permutation_app_comm rs). cbn. by rewrite Hr.
  - rewrite Hp, wrap64_add_l. f_equal. cbn. lia.
Qed.

Lemma finish_inv rs ctx s s' :
  small_request (ctx_request ctx) -> server_inv rs [ctx_request ctx] s ->
  OnRequestFinish s ctx = Some s' -> server_inv rs [] s'.
Proof.
  intros [Hh Hl] [Hr Hp Hj Ha]. unfold OnRequestFinish. destruct (SendReply ctx) as [b|] eqn:E; [|done].
  cbn [mbind option_bind]. intros E'%(inj Some). subst s'. apply SendReply_ok in E; [|done..].
  split; cbn; [| |done|].
  - rewrite map_app. cbn. rewrite Hr. cbn. rewrite app_assoc. by rewrite Permutation_cons_append.
  - rewrite Hp, <- Z.add_opp_r, wrap64_add_l. f_equal. cbn. lia.
  - apply Forall_app. split; [done|by constructor].
Qed.

Lemma add_job_inv rs s j :
  job_ok j -> server_inv rs [j_request j] s -> server_inv rs [] (set_jobs s (sv_jobs s ++ [j])).
Proof.
  intros Hj [Hr Hp Hjs Ha]. split; cbn; [|rewrite Hp; f_equal; rewrite length_app; cbn; lia| |done].
  - rewrite Hr, map_app, <- app_assoc. cbn [map app]. apply Permutation_middle.
  - apply Forall_app. split; [done|by constructor].
Qed.

Lemma callback_inv rs rc ctx s s' :
  small_request (ctx_request ctx) -> server_inv rs [ctx_request ctx] s ->
  NBDAioCallback s rc ctx = Some s' -> server_inv rs [] s'.
Proof. intros Hs Hi. by apply (finish_inv rs (mkIOContext (ctx_request ctx) _ (ctx_data ctx) rc)). Qed.

Lemma start_failed_inv rs ctx s go s' :
  small_request (ctx_request ctx) -> server_inv rs [ctx_request ctx] s ->
  start_failed s ctx = Some (go, s') -> server_inv rs [] s'.
Proof.
  intros Hs Hi. unfold start_failed. destruct (OnRequestFinish _ _) eqn:E; [|done]. cbn [mbind option_bind].
  intros [= _ <-]. by eapply (finish_inv rs (mkIOContext (ctx_request ctx) _ _ _)).
Qed.

Lemma submit_inv rs s ctx head buf tail offset go s' :
  small_request (ctx_request ctx) -> server_inv rs [ctx_request ctx] s ->
  submit s ctx head buf tail offset = Some (go, s') -> server_inv rs [] s'.
Proof.
  intros Hs Hi. unfold submit. destruct (AsyncIo_issue _ _ _ _) as [[rv a]|] eqn:Ea; [|done].
  cbn [mbind option_bind]. apply (set_io_inv _ _ _ (a_stream a) (a_world a)) in Hi.
  generalize dependent (set_io s (a_stream a) (a_world a)). intros s1 Hi.
  destruct (Z.eqb_spec rv CYPRE_OK) as [->|Hrv].
  - apply AsyncIo_issue_ok in Ea as (-> & Hp & Hu). destruct (a_pending a) as [|p ps]; [done|].
    intros [= _ <-]. by apply (add_job_inv _ _ (mkJob _ _ _ _ _ _ _ _)).
  - destruct (a_calls a); [destruct (a_pending a); [|done]; by apply start_failed_inv|].
    by destruct (NBDAioCallback _ _ _).
Qed.

Lemma Blob_Write_inv rs s ctx go s' :
  small_request (ctx_request ctx) -> server_inv rs [ctx_request ctx] s ->
  Blob_Write uninit s ctx = Some (go, s') -> server_inv rs [] s'.
Proof.
  intros Hs Hi. unfold Blob_Write. destruct (align_request _ _) as [[[offyu ao] al] lenyu].
  destruct (_ || _).
  2:{ by apply (submit_inv rs s (mkIOContext (ctx_request ctx) _ _ _)). }
  destruct (Stream_Read _ _ _ _) as [[[[ret hd] h] w]|]; [|done]. cbn [mbind option_bind].
  destruct (copy_at _ _ _) as [buf|]; [|done]. cbn [mbind option_bind].
  apply (set_io_inv _ _ _ h w) in Hi. destruct (ret <=? 0); [by apply start_failed_inv|].
  destruct (_ && _); cbn [mbind option_bind].
  - destruct (Stream_Read _ _ _ _) as [[[[ret2 last] h2] w2]|]; [|done]. cbn [mbind option_bind].
    destruct (copy_at _ _ _) as [buf2|]; [|done]. cbn [mbind option_bind].
    apply (set_io_inv _ _ _ h2 w2) in Hi. destruct (ret2 <=? 0); [by apply start_failed_inv|].
    destruct (copy_at _ _ _) as [buf3|]; [|done].
    by apply (submit_inv rs _ (mkIOContext (ctx_request ctx) _ _ _)).
  - destruct (copy_at _ _ _) as [buf3|]; [|done].
    by apply (submit_inv rs _ (mkIOContext (ctx_request ctx) _ _ _)).
Qed.

Lemma serve_request_inv rs s r go s' :
  small_request r -> server_inv rs [] s -> serve_request uninit s r = Some (go, s') ->
  server_inv (rs ++ [r]) [] s'.
Proof.
  intros Hs Hi%(start_inv _ _ r). unfold serve_request.
  set (ctx := mkIOContext r 0 (rq_data r) 0). fold (ctx_request ctx) in Hi.
  change [r] with [ctx_request ctx] in Hi at 2.
  destruct (_ =? _); [by apply Blob_Write_inv|]. destruct (_ =? _).
  { unfold Blob_Read. destruct (align_request _ _) as [[[? ?] ?] ?].
    by apply (submit_inv _ _ (mkIOContext (ctx_request ctx) _ _ _)). }
  destruct (_ || _); [|by apply start_failed_inv].
  destruct (NBDAioCallback _ _ _) eqn:E; [|done]. cbn [mbind option_bind]. intros [= _ <-].
  by apply (callback_inv (rs ++ [r]) _ ctx) in E.
Qed.

Lemma split_jobs_inv rs s l j r :
  server_inv rs [] s -> sv_jobs s = (l ++ j :: r)%list ->
  server_inv rs [j_request j] (set_jobs s (l ++ r)) /\ job_ok j.
Proof.
  intros [Hr Hp Hj Ha] E. rewrite E in *. apply Forall_app in Hj as [Hl [Hj Hr']%Forall_cons].
  split; [|done]. split; cbn; [| |by apply Forall_app|done].
  - rewrite Hr. cbn [app]. rewrite !map_app. cbn [map]. rewrite <- !app_assoc. cbn [app].
    symmetry. apply Permutation_middle.
  - rewrite Hp. f_equal. cbn. rewrite !length_app. cbn. lia.
Qed.

Lemma job_next_inv rs s l j r a s' :
  small_request (j_request j) -> counted a ->
  server_inv rs [j_request j] (set_jobs s (l ++ r)) -> job_next s l j r a = Some s' -> server_inv rs [] s'.
Proof.
  intros Hs [Hu Hc] Hi. unfold job_next. destruct (a_calls a) as [|rc cs].
  - intros E%(inj Some). subst s'. destruct Hi as [Hr Hp Hj Ha]. split; cbn in *; [| | |done].
    + rewrite Hr, !map_app. cbn [map j_request]. rewrite <- !app_assoc. cbn [app]. apply Permutation_middle.
    + rewrite Hp. f_equal. rewrite !length_app. cbn. lia.
    + apply Forall_app in Hj as [Hl Hr']. apply Forall_app. split; [done|]. constructor; [|done].
      split; [by apply Hc|done].
  - intros E. apply (callback_inv rs rc (mkIOContext (j_request j) _ _ _)) in E; [done..|].
    by apply (set_io_inv _ _ _ (a_stream a) (a_world a)) in Hi.
Qed.
End Answers.


(** ** Reads of any alignment *)

(** a read that starts and ends anywhere is widened to whole blocks that
    contain it, fewer than two blocks longer than asked for; when the buffer
    holds the blob's bytes from the widened offset on, the reply is the header
    followed by exactly the bytes of the range asked for, written over the
    front of the same buffer. *)
Theorem nbd_read_exact r data head region (blob : Z -> ascii) :
  small_request r -> command (rq_type r) = NBD_CMD_READ -> 0 <= rq_from r ->
  rq_len r < 4294959104 -> slen head = kReplySize ->
  let '(offyu, align_offset, align_length, _) := align_request (rq_from r) (rq_len r) in
  slen region = align_length -> data = head +:+ region ->
  (forall i, 0 <= i < align_length -> byte_at region i = blob (align_offset + i)) ->
  align_offset mod CYPRE_BLOCK_SIZE = 0 /\ align_length mod CYPRE_BLOCK_SIZE = 0 /\
  align_offset <= rq_from r /\ rq_from r + rq_len r <= align_offset + align_length /\
  align_length < rq_len r + 2 * CYPRE_BLOCK_SIZE /\
  exists bytes, SendReply (mkIOContext r 0 data 0) = Some (nbd_reply (rq_handle r) 0 +:+ bytes) /\
    slen bytes = rq_len r /\ forall i, 0 <= i < rq_len r -> byte_at bytes i = blob (rq_from r + i).
Proof.
  intros [Hh Hl] Hc Hf Hlen Hhd. unfold align_request, CYPRE_BLOCK_SIZE, kReplySize in *.
  rewrite (wrap32_small (_ + _)) by (unfold is_u32; lia).
  set (offyu := rq_from r mod 4096). set (al := if _ <? _ then _ else _).
  assert (Hal : al mod 4096 = 0 /\ offyu + rq_len r <= al < rq_len r + 8192).
  { subst al offyu. destruct (Z.ltb_spec 0 ((rq_from r mod 4096 + rq_len r) mod 4096)); lia. }
  clearbody al. intros Hreg -> Hb.
  assert (Ho : 0 <= offyu < 4096) by (subst offyu; lia).
  split_and!; [subst offyu; lia|lia|lia|lia|lia|].
  unfold SendReply, ctx_command, CYPRE_BLOCK_SIZE, kReplySize.
  cbn [ctx_request ctx_error ctx_data]. rewrite Hc.
  fold offyu. change (wrap32 0 =? 0) with true. change (NBD_CMD_READ =? NBD_CMD_READ) with true. cbn [andb].
  pose proof (slen_reply (rq_handle r) 0 Hh) as Hr. unfold kReplySize in *.
  destruct (copy_at_spec (head +:+ region) offyu (nbd_reply (rq_handle r) 0)) as (buf & -> & Hbl & Hbb);
    [lia|rewrite slen_app; lia|]. cbn [mbind option_bind]. rewrite slen_app in *. rewrite Hbl.
  rewrite (proj2 (Z.ltb_ge _ _)) by lia.
  exists (slice buf (offyu + 16) (rq_len r)). split_and!; [f_equal|apply slen_slice; lia|].
  - apply string_ext; rewrite ?slen_app, ?Hr, ?slen_slice by lia; [lia|]. intros i Hi.
    rewrite byte_at_slice, byte_at_app, Hr by lia. destruct (Z.ltb_spec i 16).
    + rewrite Hbb by lia. rewrite (proj2 (in_range_spec _ _ _)) by lia. f_equal. lia.
    + rewrite byte_at_slice by lia. f_equal. lia.
  - intros i Hi. rewrite byte_at_slice, Hbb by lia. rewrite (proj2 (in_range_false _ _ _)) by lia.
    rewrite byte_at_app, (proj2 (Z.ltb_ge _ _)) by lia. rewrite Hb by lia. f_equal. subst offyu. lia.
Qed.

Lemma nbd_read_exact_witness :
  exists bytes, SendReply (mkIOContext (mkNbdRequest NBD_CMD_READ 8193 2 "handle-2" "") 0
      ("0123456789abcdef" +:+ repeat_char "x" 4096) 0) =
    Some (nbd_reply "handle-2" 0 +:+ bytes) /\ slen bytes = 2 /\ byte_at bytes 1 = "x"%char.
Proof.
  pose (region := repeat_char "x" 4096).
  pose proof (nbd_read_exact (mkNbdRequest NBD_CMD_READ 8193 2 "handle-2" "") ("0123456789abcdef" +:+ region)
    "0123456789abcdef" region (fun x => byte_at region (x - 8192))) as X.
  destruct X as (_ & _ & _ & _ & _ & bytes & E & Hl & Hb).
  - split; vm_compute; [reflexivity|discriminate].
  - reflexivity.
  - vm_compute; discriminate.
  - vm_compute; reflexivity.
  - reflexivity.
  - vm_compute; reflexivity.
  - reflexivity.
  - intros i Hi. cbv beta. f_equal. match goal with |- _ = ?a + i - 8192 => change a with 8192 end. lia.
  - exists bytes. split; [exact E|]. split; [exact Hl|].
    rewrite (Hb 1) by (vm_compute; split; [discriminate|reflexivity]). vm_compute. reflexivity.
Defined.

(** ** Requests that are not stored *)

(** A write that is not a whole number of blocks first reads the blocks at its
    ends.  The code of a read that succeeded is 0, which [Write] takes for an
    empty read: nothing is written, and the kernel is told that the write
    succeeded before the connection ends. *)
Lemma unaligned_write_lost `{EsRpc W} `{Crc32c} uninit (s : Server W) r head h w ret :
  command (rq_type r) = NBD_CMD_WRITE ->
  let '(offyu, align_offset, align_length, _) := align_request (rq_from r) (rq_len r) in
  let readlen := if align_length <? 65536 then align_length else CYPRE_BLOCK_SIZE in
  0 < offyu \/ rq_len r <> align_length -> slen head <= slen (uninit align_length) ->
  Stream_Read (sv_world s) (sv_stream s) (slice (uninit align_length) 0 readlen) align_offset
    = Some (ret, head, h, w) -> ret <= 0 ->
  exists s', serve_request uninit s r = Some (false, s') /\ sv_world s' = w /\ sv_jobs s' = sv_jobs s /\
    sv_sent s' = (sv_sent s ++ [(r, nbd_reply (rq_handle r) 0)])%list.
Proof.
  intros Hc. destruct (align_request _ _) as [[[offyu ao] al] lenyu] eqn:Ea. intros readlen Hu Hh Hr Hret.
  unfold serve_request, Blob_Write, ctx_command. cbn [ctx_request]. rewrite Hc, Ea. cbn [sv_world sv_stream OnRequestStart].
  change (NBD_CMD_WRITE =? NBD_CMD_WRITE) with true. cbv iota.
  replace ((0 <? offyu) || negb (rq_len r =? al)) with true
    by (destruct Hu; [by rewrite (proj2 (Z.ltb_lt 0 offyu))|by rewrite (proj2 (Z.eqb_neq (rq_len r) al)), orb_true_r]).
  subst readlen. rewrite Hr. cbn [mbind option_bind]. 
  destruct (copy_at_spec (uninit al) 0 head) as (b & -> & _); [lia..|]. cbn [mbind option_bind].
  rewrite (proj2 (Z.leb_le ret 0)) by lia. unfold start_failed, OnRequestFinish, SendReply, ctx_command.
  cbn [ctx_request ctx_error]. rewrite Hc. change (NBD_CMD_WRITE =? NBD_CMD_READ) with false. cbn [andb mbind option_bind].
  eexists. split; [done|]. done.
Qed.

(** A request of an unknown type is answered with success as well. *)
Lemma unknown_command_succeeds `{EsRpc W} `{Crc32c} uninit (s : Server W) r :
  (4 < command (rq_type r)) ->
  exists s', serve_request uninit s r = Some (false, s') /\
    sv_sent s' = (sv_sent s ++ [(r, nbd_reply (rq_handle r) 0)])%list.
Proof.
  intros Hc. unfold serve_request, ctx_command. cbn [ctx_request].
  unfold NBD_CMD_WRITE, NBD_CMD_READ, NBD_CMD_FLUSH, NBD_CMD_TRIM. rewrite !(proj2 (Z.eqb_neq _ _)) by lia. cbn [orb].
  unfold start_failed, OnRequestFinish, SendReply, ctx_command, NBD_CMD_READ. cbn [ctx_request].
  rewrite (proj2 (Z.eqb_neq _ _)) by lia. cbn [andb mbind option_bind]. eexists. split; [done|]. done.
Qed.

(** ** An example run *)

#[local] Instance one_server : EsRpc unit := {
  rpc_query_router _ _ := RpcReply 0 (Some (mkPbRouter (mkESInstance 1 "10.0.0.1" 80 "10.1.0.1" 81) []));
  rpc_channel_ok _ _ := true;
  rpc_write w _ _ _ := (IoReplied 0 "" None, w);
  rpc_read w _ m := (IoReplied 0 (repeat_char "x" (Z.to_nat (io_size m))) None, w)
}.
#[local] Instance length_crc : Crc32c := slen.

Definition demo_fresh (n : Z) : string := repeat_char "0" (Z.to_nat n).
Definition demo_server : Server unit :=
  mkServer (RBDStream_new "bb-a" 1048576 4194304 (mkExtentRouterMgr ∅ ∅ false)) tt 0 [] [].
Definition demo_flush : NbdRequest := mkNbdRequest NBD_CMD_FLUSH 0 0 "handle-3" "".
Definition demo_short : NbdRequest := mkNbdRequest NBD_CMD_READ 4200 8 "handle-2" "".

Definition demo_serve (s : Server unit) (r : NbdRequest) : Server unit :=
  default s (snd <$> serve_request demo_fresh s r).
Definition demo_1 := demo_serve demo_server demo_short.
Definition demo_2 := demo_serve demo_1 demo_flush.

(** The server's answer to the read. *)
Definition demo_3 : option (Server unit) :=
  j ← head (sv_jobs demo_2);
  pd ← head (j_pending j);
  a ← answer_read (drop_pending (job_io demo_2 j) []) (header_crc32 (slen (j_buf j)) (j_offset j)) pd;
  job_next demo_2 [] j [] a.

