(* ===== verification/NbdArgs.v ===== *)
(** * The command line of the block device tool

    The arguments of [cypre_nbd] (src/nbd/src/argparse.cpp, [ParseArgs] and
    [GetMappedInfo] of src/nbd/src/util.cpp, config.h): the options, with a
    value behind [=] or in the next argument, the command and what it acts on;
    and the way back, from the command line of a running process, as [list]
    reads it, to what the process has mapped.

    An argument is a C string.  [args] from the iterator [i] on is a list of
    its own, so that [args.erase(i)] drops its head; what lies before [i] are
    the arguments that are no option.  [None] is a value that was never
    assigned. *)

From Stdlib Require Import Ascii.
From S2P Require Import Prelude Codec Net IniParser Decimal.

#[local] Open Scope string_scope.
#[local] Open Scope Z_scope.

Definition EPERM : Z := 1.
Definition ENOENT : Z := 2.
Definition EIO : Z := 5.
Definition ENOMEM : Z := 12.
Definition EINVAL : Z := 22.
Definition INT_MAX : Z := 2147483647.
Definition INT_MIN : Z := -2147483648.
Definition EXIT_FAILURE : Z := 1.
Definition HELP_INFO : Z := 1.
Definition VERSION_INFO : Z := 2.
Definition PROCESS_NAME : string := "cypre_nbd".
Definition endl : string := String newline "".

Inductive Command : Type := Command_None | Command_Connect | Command_Disconnect | Command_List.

#[export] Instance Command_eq_dec : EqDecision Command.
Proof. solve_decision. Defined.

Record NBDConfig : Type := mkNBDConfig {
  nbds_max : Z; max_part : Z; timeout : Z;
  readonly : bool; set_max_part : bool; try_netlink : bool;
  imgname : string; devpath : string;
  multi_conns : Z; debug : bool; foreground : bool; nullio : bool;
  em_endpoint : string; dummy_port : Z; client_core_mask : string; logpath : string
}.

Definition NBDConfig_new : NBDConfig :=
  mkNBDConfig 0 255 300 false false false "" "" 1 false false false "" 0 "" "".

(** The assignments to the members. *)
Section Assign.
Context (c : NBDConfig).
Let mk := mkNBDConfig.

Definition set_nbds_max v := mk v (max_part c) (timeout c) (readonly c) (set_max_part c) (try_netlink c) (imgname c)
  (devpath c) (multi_conns c) (debug c) (foreground c) (nullio c) (em_endpoint c) (dummy_port c) (client_core_mask c) (logpath c).
Definition assign_max_part v f := mk (nbds_max c) v (timeout c) (readonly c) f (try_netlink c) (imgname c)
  (devpath c) (multi_conns c) (debug c) (foreground c) (nullio c) (em_endpoint c) (dummy_port c) (client_core_mask c) (logpath c).
Definition set_timeout v := mk (nbds_max c) (max_part c) v (readonly c) (set_max_part c) (try_netlink c) (imgname c)
  (devpath c) (multi_conns c) (debug c) (foreground c) (nullio c) (em_endpoint c) (dummy_port c) (client_core_mask c) (logpath c).
Definition set_readonly v := mk (nbds_max c) (max_part c) (timeout c) v (set_max_part c) (try_netlink c) (imgname c)
  (devpath c) (multi_conns c) (debug c) (foreground c) (nullio c) (em_endpoint c) (dummy_port c) (client_core_mask c) (logpath c).
Definition set_imgname v := mk (nbds_max c) (max_part c) (timeout c) (readonly c) (set_max_part c) (try_netlink c) v
  (devpath c) (multi_conns c) (debug c) (foreground c) (nullio c) (em_endpoint c) (dummy_port c) (client_core_mask c) (logpath c).
Definition set_devpath v := mk (nbds_max c) (max_part c) (timeout c) (readonly c) (set_max_part c) (try_netlink c) (imgname c)
  v (multi_conns c) (debug c) (foreground c) (nullio c) (em_endpoint c) (dummy_port c) (client_core_mask c) (logpath c).
Definition set_multi_conns v := mk (nbds_max c) (max_part c) (timeout c) (readonly c) (set_max_part c) (try_netlink c) (imgname c)
  (devpath c) v (debug c) (foreground c) (nullio c) (em_endpoint c) (dummy_port c) (client_core_mask c) (logpath c).
Definition set_debug v := mk (nbds_max c) (max_part c) (timeout c) (readonly c) (set_max_part c) (try_netlink c) (imgname c)
  (devpath c) (multi_conns c) v (foreground c) (nullio c) (em_endpoint c) (dummy_port c) (client_core_mask c) (logpath c).
Definition set_foreground v := mk (nbds_max c) (max_part c) (timeout c) (readonly c) (set_max_part c) (try_netlink c) (imgname c)
  (devpath c) (multi_conns c) (debug c) v (nullio c) (em_endpoint c) (dummy_port c) (client_core_mask c) (logpath c).
Definition set_nullio v := mk (nbds_max c) (max_part c) (timeout c) (readonly c) (set_max_part c) (try_netlink c) (imgname c)
  (devpath c) (multi_conns c) (debug c) (foreground c) v (em_endpoint c) (dummy_port c) (client_core_mask c) (logpath c).
Definition set_em_endpoint v := mk (nbds_max c) (max_part c) (timeout c) (readonly c) (set_max_part c) (try_netlink c) (imgname c)
  (devpath c) (multi_conns c) (debug c) (foreground c) (nullio c) v (dummy_port c) (client_core_mask c) (logpath c).
Definition set_dummy_port v := mk (nbds_max c) (max_part c) (timeout c) (readonly c) (set_max_part c) (try_netlink c) (imgname c)
  (devpath c) (multi_conns c) (debug c) (foreground c) (nullio c) (em_endpoint c) v (client_core_mask c) (logpath c).
Definition set_client_core_mask v := mk (nbds_max c) (max_part c) (timeout c) (readonly c) (set_max_part c) (try_netlink c) (imgname c)
  (devpath c) (multi_conns c) (debug c) (foreground c) (nullio c) (em_endpoint c) (dummy_port c) v (logpath c).
Definition set_logpath v := mk (nbds_max c) (max_part c) (timeout c) (readonly c) (set_max_part c) (try_netlink c) (imgname c)
  (devpath c) (multi_conns c) (debug c) (foreground c) (nullio c) (em_endpoint c) (dummy_port c) (client_core_mask c) v.

End Assign.

(** ** Numbers *)

(** [strtoll] in base ten: the number, [endptr] and whether [errno] is set;
    [None] when [endptr == str]. *)
Definition strtoll (str : string) : option (Z * string * bool) :=
  let s := lskip str in
  let negative := head_is s "-" in
  let s := if negative || head_is s "+" then str_tail s else s in
  if negb (starts_digit 10 s) then None
  else
    let '(n, endptr) := digits 10 s 0 in
    let v := if negative then - n else n in
    Some (Z.max LONG_MIN (Z.min LONG_MAX v), endptr, (v <? LONG_MIN) || (LONG_MAX <? v)).

(** The number and [*err]. *)
Definition strict_strtoll (str : string) : Z * string :=
  let not_integer := "Expected option value to be integer, got '" +:+ str +:+ "'" in
  match strtoll str with
  | None => (0, not_integer)
  | Some (ret, endptr, errno) =>
      if negb (String.eqb endptr "") then (0, not_integer)
      else if errno then (0, "The option value '" +:+ str +:+ "' seems to be invalid")
      else (ret, "")
  end.

Definition strict_strtol (str : string) : Z * string :=
  let '(ret, err) := strict_strtoll str in
  if negb (String.eqb err "") then (0, err)
  else if (ret <? INT_MIN) || (INT_MAX <? ret) then (0, "The option value '" +:+ str +:+ "' seems to be invalid")
  else (ret, "").

(** ** Options *)

Fixpoint underscores (i : string) : string :=
  match i with
  | "" => ""
  | String c i' => if Ascii.eqb c "=" then i else String (if Ascii.eqb c "-" then "_"%char else c) (underscores i')
  end.

(** The first two characters are copied as they are. *)
Definition dashes_to_underscores (input : string) : string :=
  match input with
  | String a (String b i) => String a (String b (underscores i))
  | _ => input
  end.

(** The loop of [arg_value_type]: whether the string is a number. *)
Fixpoint numeric_loop (first long is_float : bool) (s : string) : bool :=
  match s with
  | "" => true
  | String c s' =>
      if is_digit c then numeric_loop false long is_float s'
      else if first && long && Ascii.eqb c "-" then numeric_loop false long is_float s'
      else if Ascii.eqb c "." && negb is_float then numeric_loop false long true s'
      else false
  end.

(** [bool_option] and [bool_numeric]. *)
Definition arg_value_type (nextargstr : string) : bool * bool :=
  let is_option := head_is nextargstr "-" && head_is (str_tail nextargstr) "-" in
  let is_numeric := numeric_loop true (2 <=? slen nextargstr) false nextargstr in
  (is_option || head_is nextargstr "-" && negb is_numeric, is_numeric).

(** What follows a prefix. *)
Fixpoint after_prefix (p s : string) : option string :=
  match p, s with
  | "", _ => Some s
  | String a p', String c s' => if Ascii.eqb a c then after_prefix p' s' else None
  | String _ _, "" => None
  end.

Definition argparse_flag (args : list string) (names : list string) : bool * list string :=
  match args with
  | [] => (false, [])
  | first :: rest =>
      if existsb (fun a => String.eqb (dashes_to_underscores a) (dashes_to_underscores first)) names
      then (true, rest) else (false, args)
  end.

(** The returned number, [*ret], [oss] and [args]. *)
Fixpoint va_argparse_witharg (args : list string) (oss : string) (names : list string)
    : Z * option string * string * list string :=
  match names, args with
  | [], _ | _, [] => (0, None, oss, args)
  | a :: names', arg :: rest =>
      match after_prefix (dashes_to_underscores a) (dashes_to_underscores arg) with
      | Some "" =>
          match rest with
          | [] => (- EINVAL, None, oss +:+ "Option " +:+ arg +:+ " requires an argument." +:+ endl, [])
          | value :: rest' => (1, Some value, oss, rest')
          end
      | Some (String c value) =>
          if Ascii.eqb c "=" then (1, Some value, oss, rest) else va_argparse_witharg args oss names'
      | None => va_argparse_witharg args oss names'
      end
  end.

(** [argparse_witharg<int>]: the result, [*ret] if it is assigned, [oss] and
    [args]. *)
Definition argparse_witharg (args : list string) (oss : string) (names : list string)
    : bool * option Z * string * list string :=
  match va_argparse_witharg args oss names with
  | (r, ret, oss, args) =>
      if r =? 0 then (false, None, oss, args)
      else
        match ret with
        | None => (true, None, oss, args)
        | Some str =>
            let '(is_option, is_numeric) := arg_value_type str in
            if is_option || negb is_numeric then
              (true, Some EXIT_FAILURE,
               oss +:+ (if is_option then "Missing option value" else "The option value '" +:+ str +:+ "' is invalid"), args)
            else
              let '(myret, err) := strict_strtol str in (true, Some myret, oss +:+ err, args)
        end
  end.

(** [argparse_witharg] for a string. *)
Definition argparse_witharg_string (args : list string) (oss : string) (names : list string)
    : bool * option string * string * list string :=
  let '(r, ret, oss, args) := va_argparse_witharg args oss names in (negb (r =? 0), ret, oss, args).

(** ** [ParseArgs] *)

(** One turn of the loop: a return, or the configuration, [err], the arguments
    from [i] on, and the argument [i] was moved over. *)
Inductive Turn : Type :=
  | Returned (r : Z) (err_msg : string) (cfg : NBDConfig)
  | Parsed (cfg : NBDConfig) (err : string) (args : list string)
  | Skipped (arg : string) (args : list string).

Section OneOption.
Context (args : list string) (err : string) (cfg : NBDConfig).

(** A branch of the chain: the option it tests, what it does, and the rest of
    the chain. *)
Definition flag_option (names : list string) (found : list string -> Turn) (otherwise : Turn) : Turn :=
  let '(b, args) := argparse_flag args names in if b then found args else otherwise.

Definition string_option (name : string) (set : NBDConfig -> string -> NBDConfig) (otherwise : Turn) : Turn :=
  let '(b, ret, err, args) := argparse_witharg_string args err [name] in
  if b then Parsed (match ret with Some v => set cfg v | None => cfg end) err args else otherwise.

(** [invalid] are the values that are refused, with their message; [set] is
    the assignment of the number, [after] what follows the checks. *)
Definition int_option (name : string) (set after : NBDConfig -> Z -> NBDConfig) (invalid : Z -> bool) (message : string)
    (otherwise : Turn) : Turn :=
  let '(b, ret, err, args) := argparse_witharg args err [name] in
  if b then
    let cfg' := match ret with Some v => set cfg v | None => cfg end in
    if negb (String.eqb err "") then Returned (- EINVAL) ("cypre_ndb: " +:+ err) cfg'
    else
      match ret with
      | Some v => if invalid v then Returned (- EINVAL) message cfg' else Parsed (after cfg' v) err args
      | None => Parsed cfg' err args
      end
  else otherwise.

Definition no_change (c : NBDConfig) (v : Z) : NBDConfig := c.

Definition parse_option : Turn :=
  flag_option ["-h"; "-help"] (fun _ => Returned HELP_INFO "" cfg) (
  flag_option ["-v"; "-version"] (fun _ => Returned VERSION_INFO "" cfg) (
  string_option "-device" set_devpath (
  flag_option ["-debug"] (fun args => Parsed (set_debug cfg true) err args) (
  flag_option ["-f"] (fun args => Parsed (set_foreground cfg true) err args) (
  flag_option ["-nullio"] (fun args => Parsed (set_nullio cfg true) err args) (
  string_option "-em_endpoint" set_em_endpoint (
  string_option "-client_core_mask" set_client_core_mask (
  int_option "-multi_conns" set_multi_conns no_change (fun v => v <? 1) "cypre_ndb: Invalid argument for multi_conns!" (
  int_option "-dummy_port" set_dummy_port no_change (fun _ => false) "" (
  int_option "-nbds_max" set_nbds_max no_change (fun v => v <? 0) "cypre_ndb: Invalid argument for nbds_max!" (
  int_option "-max_part" (fun c v => assign_max_part c v (set_max_part c)) (fun c v => assign_max_part c v true)
    (fun v => (v <? 0) || (255 <? v)) "cypre_ndb: Invalid argument for max_part(0~255)!" (
  flag_option ["-readonly"] (fun args => Parsed (set_readonly cfg true) err args) (
  int_option "-timeout" set_timeout no_change (fun v => v <? 0) "cypre_ndb: Invalid argument for timeout!" (
  flag_option ["-try_netlink"] (fun args => Parsed cfg err args) (
  string_option "-logpath" set_logpath (
  match args with arg :: rest => Skipped arg rest | [] => Parsed cfg err [] end)))))))))))))))).

End OneOption.

(** What the loop leaves: a return, or the configuration and the arguments that
    are no option. *)
Inductive Scanned : Type :=
  | ScanReturned (r : Z) (err_msg : string) (cfg : NBDConfig)
  | ScanDone (cfg : NBDConfig) (args : list string).

(** The loop over the arguments; [before] are the arguments before [i].
    [None]: [fuel] turns are not enough. *)
Fixpoint parse_loop (fuel : nat) (before args : list string) (err : string) (cfg : NBDConfig) : option Scanned :=
  match args, fuel with
  | [], _ => Some (ScanDone cfg before)
  | _, O => None
  | _, S fuel' =>
      match parse_option args err cfg with
      | Returned r err_msg cfg' => Some (ScanReturned r err_msg cfg')
      | Parsed cfg' err' args' => parse_loop fuel' before args' err' cfg'
      | Skipped arg args' => parse_loop fuel' (before ++ [arg])%list args' err cfg
      end
  end.

(** The command and its argument, once the options are gone: the result, the
    message, the command if it is assigned, and the configuration. *)
Definition ParseResult : Type := Z * string * option Command * NBDConfig.

Definition parse_command (args : list string) (cfg : NBDConfig) : ParseResult :=
  let finish cmd cfg args :=
    match args with
    | [] => (0, "", Some cmd, cfg)
    | arg :: _ => (- EINVAL, "cypre_ndb: unknown args: " +:+ arg, None, cfg)
    end in
  match args with
  | [] => (- EINVAL, "cypre_ndb: must specify command", None, cfg)
  | cmd :: args =>
      if String.eqb cmd "map" then
        match args with
        | [] => (- EINVAL, "cypre_ndb: must specify image spec", None, cfg)
        | img :: args => finish Command_Connect (set_imgname cfg img) args
        end
      else if String.eqb cmd "unmap" then
        match args with
        | [] => (- EINVAL, "cypre_ndb: must specify nbd device or image spec", None, cfg)
        | dev :: args => finish Command_Disconnect (set_devpath cfg dev) args
        end
      else if String.eqb cmd "list" then finish Command_List cfg args
      else (- EINVAL, "cypre_ndb: unknown command: " +:+ cmd, None, cfg)
  end.

Definition ParseArgs (args : list string) (cfg : NBDConfig) : option ParseResult :=
  scanned ← parse_loop (length args) [] args "" cfg;
  match scanned with
  | ScanReturned r err_msg cfg => Some (r, err_msg, None, cfg)
  | ScanDone cfg args => Some (parse_command args cfg)
  end.

(** ** [GetMappedInfo] *)

(** [stream >> word]. *)
Fixpoint until_space (s : string) : string :=
  match s with "" => "" | String c s' => if isspace c then "" else String c (until_space s') end.

Definition extract_word (s : string) : string := until_space (lskip s).

Fixpoint after_nul (s : string) : string :=
  match s with "" => "" | String c s' => if Ascii.eqb c nul then s' else after_nul s' end.

(** The strings the loop meets in [cmdline]. *)
Fixpoint cmdline_args (fuel : nat) (cmdline : string) : list string :=
  match fuel, cmdline with
  | S fuel', String _ _ => c_str cmdline :: cmdline_args fuel' (after_nul cmdline)
  | _, _ => []
  end.

Fixpoint strip_slashes (s : string) : string :=
  match s with
  | "" => ""
  | String c s' => match strip_slashes s' with "" => if Ascii.eqb c "/" then "" else String c "" | r => String c r end
  end.

(** What follows the last slash. *)
Fixpoint last_component (s : string) : string :=
  match s with
  | "" => ""
  | String c s' => if strchr s' "/" then last_component s' else if Ascii.eqb c "/" then s' else s
  end.

(** [basename] of libgen.h: the name, and what it leaves in the string, where a
    zero byte replaces the first of the trailing slashes. *)
Definition basename (path : string) : string * string :=
  let stripped := strip_slashes path in
  if String.eqb path "" then (".", path)
  else if String.eqb stripped path then (last_component path, path)
  else if String.eqb stripped "" then ("/", path)
  else
    match after_prefix stripped path with
    | Some (String _ slashes) => (last_component stripped, stripped +:+ String nul slashes)
    | _ => (last_component stripped, path)
    end.

(** [file]: the contents of /proc/<pid>/cmdline, if it can be opened.
    [None]: the command is tested without having been assigned. *)
Definition GetMappedInfo (file : option string) (cfg : NBDConfig) : option (Z * NBDConfig) :=
  match file with
  | None => Some (-1, cfg)
  | Some text =>
      let cmdline := extract_word text in
      let parse args :=
        '(r, _, command, cfg) ← ParseArgs args cfg;
        if r <? 0 then Some (r, cfg)
        else
          command ← command;
          Some (if bool_decide (command = Command_Connect) then 0 else - ENOENT, cfg) in
      if String.eqb cmdline "" then parse []
      else
        let arg := c_str cmdline in
        let '(name, arg') := basename arg in
        if negb (String.eqb name PROCESS_NAME) then Some (- EINVAL, cfg)
        else
          let cmdline := arg' +:+ default "" (after_prefix arg cmdline) in
          parse (tail (cmdline_args (String.length cmdline) cmdline))
  end.

(** ** What a command line says *)

Inductive Opt : Type :=
  | ODevice (v : string) | OEmEndpoint (v : string) | OClientCoreMask (v : string) | OLogpath (v : string)
  | OMultiConns (n : Z) | ODummyPort (n : Z) | ONbdsMax (n : Z) | OMaxPart (n : Z) | OTimeout (n : Z)
  | ODebug | OForeground | ONullio | OReadonly | OTryNetlink.

(** The value of an option and the assignment it stands for. *)
Definition opt_name (o : Opt) : string :=
  match o with
  | ODevice _ => "-device" | OEmEndpoint _ => "-em_endpoint" | OClientCoreMask _ => "-client_core_mask"
  | OLogpath _ => "-logpath" | OMultiConns _ => "-multi_conns" | ODummyPort _ => "-dummy_port"
  | ONbdsMax _ => "-nbds_max" | OMaxPart _ => "-max_part" | OTimeout _ => "-timeout" | ODebug => "-debug"
  | OForeground => "-f" | ONullio => "-nullio" | OReadonly => "-readonly" | OTryNetlink => "-try_netlink"
  end.

Definition opt_value (o : Opt) : option string :=
  match o with
  | ODevice v | OEmEndpoint v | OClientCoreMask v | OLogpath v => Some v
  | OMultiConns n | ODummyPort n | ONbdsMax n | OMaxPart n | OTimeout n => Some (dec n)
  | _ => None
  end.

Definition opt_ok (o : Opt) : Prop :=
  match o with
  | OMultiConns n => 1 <= n <= INT_MAX
  | ODummyPort n | ONbdsMax n | OTimeout n => 0 <= n <= INT_MAX
  | OMaxPart n => 0 <= n <= 255
  | _ => True
  end.

Definition apply_opt (cfg : NBDConfig) (o : Opt) : NBDConfig :=
  match o with
  | ODevice v => set_devpath cfg v | OEmEndpoint v => set_em_endpoint cfg v
  | OClientCoreMask v => set_client_core_mask cfg v | OLogpath v => set_logpath cfg v
  | OMultiConns n => set_multi_conns cfg n | ODummyPort n => set_dummy_port cfg n | ONbdsMax n => set_nbds_max cfg n
  | OMaxPart n => assign_max_part cfg n true | OTimeout n => set_timeout cfg n
  | ODebug => set_debug cfg true | OForeground => set_foreground cfg true | ONullio => set_nullio cfg true
  | OReadonly => set_readonly cfg true | OTryNetlink => cfg
  end.

(** The name of an option may be written with dashes. *)
Fixpoint dashes (s : string) : string :=
  match s with "" => "" | String c s' => String (if Ascii.eqb c "_" then "-"%char else c) (dashes s') end.

(** An option, its name with dashes or not, its value behind [=] or in the next
    argument; or a word that is no option. *)
Inductive Item : Type :=
  | IOpt (dashed joined : bool) (o : Opt)
  | IWord (w : string).

Definition render_item (it : Item) : list string :=
  match it with
  | IWord w => [w]
  | IOpt dashed joined o =>
      let name := if dashed then dashes (opt_name o) else opt_name o in
      match opt_value o with
      | None => [name]
      | Some v => if joined then [name +:+ "=" +:+ v] else [name; v]
      end
  end.

Definition item_ok (it : Item) : Prop :=
  match it with IWord w => head_is w "-" = false | IOpt _ _ o => opt_ok o end.

Definition apply_item (cfg : NBDConfig) (it : Item) : NBDConfig :=
  match it with IWord _ => cfg | IOpt _ _ o => apply_opt cfg o end.

Definition render (items : list Item) : list string := concat (render_item <$> items).
Definition words (items : list Item) : list string := omap (fun it => match it with IWord w => Some w | _ => None end) items.

(** ** Words *)

Lemma flag_word w rest names : head_is w "-" = false -> forallb (fun a => head_is a "-") names = true ->
  argparse_flag (w :: rest) names = (false, w :: rest).
Proof.
  intros Hw Hn. cbn. replace (existsb _ names) with false; [done|]. symmetry. apply not_true_iff_false.
  rewrite existsb_exists. intros (a & Ha & E). rewrite forallb_forall in Hn. specialize (Hn a Ha). apply String.eqb_eq in E.
  destruct a as [|x [|y a]], w as [|c [|d w]]; cbn in *; congruence.
Qed.

Lemma with_arg_word w rest oss name : head_is w "-" = false -> head_is name "-" = true ->
  va_argparse_witharg (w :: rest) oss [name] = (0, None, oss, w :: rest).
Proof.
  intros Hw Hn. cbn [va_argparse_witharg]. replace (after_prefix _ _) with (@None string); [done|].
  destruct name as [|x [|y a]], w as [|c [|d w]]; cbn in *; try done;
    (destruct (Ascii.eqb x c) eqn:E; [apply Ascii.eqb_eq in E as ->; congruence|done]).
Qed.

Lemma flag_option_no args names found otherwise : argparse_flag args names = (false, args) ->
  flag_option args names found otherwise = otherwise.
Proof. intros E. unfold flag_option. by rewrite E. Qed.

Lemma string_option_no args err cfg name set otherwise : va_argparse_witharg args err [name] = (0, None, err, args) ->
  string_option args err cfg name set otherwise = otherwise.
Proof. intros E. unfold string_option, argparse_witharg_string. by rewrite E. Qed.

Lemma int_option_no args err cfg name set after invalid message otherwise :
  va_argparse_witharg args err [name] = (0, None, err, args) ->
  int_option args err cfg name set after invalid message otherwise = otherwise.
Proof. intros E. unfold int_option, argparse_witharg. by rewrite E. Qed.

Ltac pass_options tac :=
  repeat first [rewrite flag_option_no by tac | rewrite string_option_no by tac | rewrite int_option_no by tac].

Lemma parse_word w rest err cfg : head_is w "-" = false -> parse_option (w :: rest) err cfg = Skipped w rest.
Proof. intros Hw. unfold parse_option. by pass_options ltac:(by (apply flag_word || apply with_arg_word)). Qed.

(** ** Numbers as values *)

Lemma numeric_digits first long is_float s : Forall (fun c => is_digit c = true) (list_ascii_of_string s) ->
  numeric_loop first long is_float s = true.
Proof.
  revert first. induction s as [|c s IH]; intros first H; [done|]. cbn in *. apply Forall_cons in H as [-> H]. by apply IH.
Qed.

Lemma arg_value_type_dec n : 0 <= n -> arg_value_type (dec n) = (false, true).
Proof.
  intros Hn. unfold arg_value_type. rewrite numeric_digits by (by apply dec_digits).
  destruct (dec_head n Hn) as (c & s & -> & Hc). cbn [head_is]. by rewrite !(digit_other c) by done.
Qed.

Lemma strtoll_dec n rest : 0 <= n <= LONG_MAX -> starts_digit 10 rest = false ->
  strtoll (dec n +:+ rest) = Some (n, rest, false).
Proof.
  intros Hn Hr. destruct (dec_head n) as (c & s & E & Hc); [lia|].
  assert (Hd : digits 10 (dec n +:+ rest) 0 = (n, rest)).
  { rewrite digits_dec by lia. destruct rest as [|d r]; [done|]. cbn in Hr |- *. by rewrite Hr. }
  unfold strtoll. rewrite E in Hd |- *. cbn [String.append] in *. rewrite lskip_digit by done. cbn [head_is].
  rewrite !(digit_other c) by done. cbn [orb starts_digit]. unfold is_digit in Hc. rewrite Hc. cbn [negb]. rewrite Hd.
  unfold LONG_MIN, LONG_MAX in *. replace (_ || _) with false by lia. by replace (Z.max _ _) with n by lia.
Qed.

Lemma strict_strtol_dec n : 0 <= n <= INT_MAX -> strict_strtol (dec n) = (n, "").
Proof.
  intros Hn. unfold strict_strtol, strict_strtoll. pose proof (strtoll_dec n "") as E. rewrite str_append_nil_r in E.
  rewrite E by (done || unfold LONG_MAX, INT_MAX in *; lia). cbn [String.eqb negb]. unfold INT_MIN, INT_MAX in *.
  by replace ((n <? -2147483648) || (2147483647 <? n)) with false by lia.
Qed.

Lemma int_option_got args args' cfg name n set after invalid message otherwise :
  va_argparse_witharg args "" [name] = (1, Some (dec n), "", args') -> 0 <= n <= INT_MAX -> invalid n = false ->
  int_option args "" cfg name set after invalid message otherwise = Parsed (after (set cfg n) n) "" args'.
Proof.
  intros E Hn Hi. unfold int_option, argparse_witharg. rewrite E. cbn [Z.eqb]. rewrite arg_value_type_dec by lia.
  cbn [orb negb]. rewrite strict_strtol_dec by done. cbn [String.append String.eqb negb]. by rewrite Hi.
Qed.

(** ** Options *)

Ltac invalid_value := cbn in *; unfold INT_MAX in *; b2p; lia.

Lemma parse_opt dashed joined o rest cfg : opt_ok o ->
  parse_option (render_item (IOpt dashed joined o) ++ rest) "" cfg = Parsed (apply_opt cfg o) "" rest.
Proof.
  intros Ho. destruct o as [v|v|v|v|n|n|n|n|n| | | | |], dashed, joined; try reflexivity;
    unfold parse_option; pass_options ltac:(reflexivity);
    (rewrite (int_option_got _ rest _ _ n); [reflexivity|reflexivity|invalid_value|invalid_value]).
Qed.

Lemma parse_items items : Forall item_ok items -> forall fuel before cfg,
  (length (render items) <= fuel)%nat ->
  parse_loop fuel before (render items) "" cfg = Some (ScanDone (fold_left apply_item items cfg) (before ++ words items)).
Proof.
  induction 1 as [|it items Hit _ IH]; intros fuel before cfg Hf.
  { change (render []) with (@nil string). destruct fuel; cbn; by rewrite app_nil_r. }
  change (render (it :: items)) with (render_item it ++ render items)%list in *. rewrite length_app in Hf.
  destruct it as [d j o|w].
  - assert (Hl : exists a l, (render_item (IOpt d j o) ++ render items)%list = a :: l).
    { cbn. destruct (opt_value o), j; eauto. }
    assert (Hp : (1 <= length (render_item (IOpt d j o)))%nat) by (cbn; destruct (opt_value o), j; cbn; lia).
    destruct Hl as (a & l & El), fuel as [|fuel]; [lia|]. rewrite El. cbn [parse_loop]. rewrite <- El, parse_opt by done.
    rewrite IH by lia. by cbn [fold_left apply_item words omap list_omap].
  - destruct fuel as [|fuel]; [cbn in Hf; lia|]. cbn [render_item app parse_loop]. rewrite parse_word by done.
    rewrite IH by (cbn in Hf; lia). cbn [fold_left apply_item]. change (words (IWord w :: items)) with (w :: words items).
    by rewrite <- app_assoc.
Qed.

Lemma ParseArgs_items items cfg : Forall item_ok items ->
  ParseArgs (render items) cfg = Some (parse_command (words items) (fold_left apply_item items cfg)).
Proof. intros H. unfold ParseArgs. by rewrite (parse_items _ H). Qed.

(** ** The loop ends *)

Lemma argparse_flag_shorter arg rest names args' : argparse_flag (arg :: rest) names = (true, args') -> args' = rest.
Proof. cbn. destruct (existsb _ names); congruence. Qed.

Lemma with_arg_shorter arg rest oss names r ret oss' args' :
  va_argparse_witharg (arg :: rest) oss names = (r, ret, oss', args') -> r <> 0 -> (length args' <= length rest)%nat.
Proof.
  induction names as [|a names IH]; cbn [va_argparse_witharg]; [congruence|].
  destruct (after_prefix _ _) as [[|c v]|]; [|destruct (Ascii.eqb c "=")|]; try done.
  - destruct rest; intros [= <- <- <- <-]; cbn; lia.
  - intros [= <- <- <- <-]; lia.
Qed.

Definition shorter (rest : list string) (t : Turn) : Prop :=
  match t with Returned _ _ _ => True | Parsed _ _ args' | Skipped _ args' => (length args' <= length rest)%nat end.

Lemma flag_option_shorter arg rest names found otherwise : shorter rest (found rest) -> shorter rest otherwise ->
  shorter rest (flag_option (arg :: rest) names found otherwise).
Proof.
  intros Hf Ho. unfold flag_option. destruct (argparse_flag _ _) as [[] args'] eqn:E; [|done].
  by rewrite (argparse_flag_shorter _ _ _ _ E).
Qed.

Lemma string_option_shorter arg rest err cfg name set otherwise : shorter rest otherwise ->
  shorter rest (string_option (arg :: rest) err cfg name set otherwise).
Proof.
  intros Ho. unfold string_option, argparse_witharg_string.
  destruct (va_argparse_witharg _ _ _) as [[[r ret] oss'] args'] eqn:E. destruct (Z.eqb_spec r 0); [done|].
  by eapply with_arg_shorter.
Qed.

Lemma int_option_shorter arg rest err cfg name set after invalid message otherwise : shorter rest otherwise ->
  shorter rest (int_option (arg :: rest) err cfg name set after invalid message otherwise).
Proof.
  intros Ho. unfold int_option, argparse_witharg.
  destruct (va_argparse_witharg _ _ _) as [[[r ret] oss'] args'] eqn:E. destruct (Z.eqb_spec r 0); [done|].
  pose proof (with_arg_shorter _ _ _ _ _ _ _ _ E n) as Hl.
  destruct ret as [str|]; [destruct (arg_value_type str) as [o m]; destruct (o || negb m); [|destruct (strict_strtol str)]|];
    repeat case_match; done.
Qed.

Lemma parse_option_shorter arg rest err cfg : shorter rest (parse_option (arg :: rest) err cfg).
Proof.
  unfold parse_option.
  repeat first [apply flag_option_shorter; [cbn; done || lia|] | apply string_option_shorter | apply int_option_shorter].
  cbn. lia.
Qed.

Lemma parse_loop_total fuel : forall before args err cfg, (length args <= fuel)%nat ->
  exists s, parse_loop fuel before args err cfg = Some s.
Proof.
  induction fuel as [|fuel IH]; intros before [|arg rest] err cfg Hf; cbn in Hf; [eauto|lia|eauto|].
  cbn [parse_loop]. pose proof (parse_option_shorter arg rest err cfg) as Hs.
  destruct (parse_option _ _ _); cbn in Hs; [eauto|apply IH; lia..].
Qed.

Lemma ParseArgs_total args cfg : exists r, ParseArgs args cfg = Some r.
Proof.
  unfold ParseArgs. destruct (parse_loop_total (length args) [] args "" cfg) as [[] ->]; cbn; eauto.
Qed.

(** ** The command line of a process *)

(** /proc/<pid>/cmdline. *)
Fixpoint proc_cmdline (argv : list string) : string :=
  match argv with [] => "" | a :: argv' => a +:+ String nul (proc_cmdline argv') end.

Definition plain (s : string) : Prop := Forall (fun c => isspace c = false /\ c <> nul) (list_ascii_of_string s).

(** The program, in a directory or not. *)
Definition program (argv0 : string) : Prop := argv0 = PROCESS_NAME \/ exists d, argv0 = d +:+ "/" +:+ PROCESS_NAME.

Lemma c_str_arg a r : plain a -> c_str (a +:+ String nul r) = a.
Proof.
  unfold plain. induction a as [|c a IH]; cbn; [done|]. intros [[_ Hc] Ha]%Forall_cons.
  apply Ascii.eqb_neq in Hc as ->. f_equal. by apply IH.
Qed.

Lemma after_nul_arg a r : plain a -> after_nul (a +:+ String nul r) = r.
Proof.
  unfold plain. induction a as [|c a IH]; cbn; [done|]. intros [[_ Hc] Ha]%Forall_cons.
  apply Ascii.eqb_neq in Hc as ->. by apply IH.
Qed.

Lemma after_prefix_app p s : after_prefix p (p +:+ s) = Some s.
Proof. induction p as [|c p IH]; cbn; [by destruct s|]. by rewrite Ascii.eqb_refl. Qed.

Lemma until_space_cmdline argv : Forall plain argv -> until_space (proc_cmdline argv) = proc_cmdline argv.
Proof.
  induction 1 as [|a argv Ha _ IH]; [done|]. cbn. unfold plain in Ha. induction a as [|c a IHa]; cbn.
  - by rewrite IH.
  - cbn in Ha. apply Forall_cons in Ha as [[-> _] Ha]. f_equal. by apply IHa.
Qed.

Lemma lskip_cmdline a argv : plain a -> lskip (proc_cmdline (a :: argv)) = proc_cmdline (a :: argv).
Proof. unfold plain. destruct a as [|c a]; cbn; [done|]. by intros [[-> _] _]%Forall_cons. Qed.

Lemma cmdline_args_proc argv : Forall plain argv -> forall fuel, (String.length (proc_cmdline argv) <= fuel)%nat ->
  cmdline_args fuel (proc_cmdline argv) = argv.
Proof.
  induction 1 as [|a argv Ha _ IH]; intros fuel Hf; [by destruct fuel|]. cbn [proc_cmdline] in *.
  rewrite str_append_length in Hf. cbn in Hf. destruct fuel as [|fuel]; [lia|].
  assert (E : exists c s, a +:+ String nul (proc_cmdline argv) = String c s) by (destruct a; cbn; eauto).
  destruct E as (c & s & E). rewrite E. cbn [cmdline_args]. rewrite <- E, c_str_arg, after_nul_arg, IH by (done || lia). done.
Qed.

Lemma strip_slashes_app a s : strip_slashes s <> "" -> strip_slashes (a +:+ s) = a +:+ strip_slashes s.
Proof.
  intros Hs. induction a as [|c a IH]; cbn; [done|]. rewrite IH. destruct a; cbn; [|done]. by destruct (strip_slashes s).
Qed.

Lemma last_component_app d s : strchr s "/" = false -> last_component (d +:+ String "/" s) = s.
Proof.
  intros Hs. induction d as [|c d IH]; cbn; [by rewrite Hs|].
  assert (E : strchr (d +:+ String "/" s) "/" = true) by (clear; induction d as [|c d IH]; cbn; [done|by rewrite IH, orb_true_r]).
  by rewrite E.
Qed.

Lemma basename_program argv0 : program argv0 -> basename argv0 = (PROCESS_NAME, argv0).
Proof.
  intros [->|(d & ->)]; [done|]. unfold basename. rewrite (strip_slashes_app d ("/" +:+ PROCESS_NAME)) by done.
  replace (strip_slashes ("/" +:+ PROCESS_NAME)) with ("/" +:+ PROCESS_NAME) by done.
  replace (String.eqb (d +:+ "/" +:+ PROCESS_NAME) "") with false by (by destruct d).
  rewrite String.eqb_refl. cbn [String.append]. by rewrite last_component_app.
Qed.

Lemma GetMappedInfo_proc argv0 args cfg r msg cmd cfg' :
  program argv0 -> Forall plain (argv0 :: args) -> ParseArgs args cfg = Some (r, msg, cmd, cfg') ->
  GetMappedInfo (Some (proc_cmdline (argv0 :: args))) cfg =
    if r <? 0 then Some (r, cfg')
    else command ← cmd; Some (if bool_decide (command = Command_Connect) then 0 else - ENOENT, cfg').
Proof.
  intros Hp Hargs E. pose proof Hargs as [H0 Hr]%Forall_cons. unfold GetMappedInfo, extract_word.
  rewrite lskip_cmdline, until_space_cmdline by done.
  replace (String.eqb (proc_cmdline (argv0 :: args)) "") with false by (by destruct argv0).
  change (proc_cmdline (argv0 :: args)) with (argv0 +:+ String nul (proc_cmdline args)).
  rewrite c_str_arg, basename_program, after_prefix_app by done. cbn [default String.eqb negb].
  rewrite String.eqb_refl. cbn [negb default id].
  change (argv0 +:+ String nul (proc_cmdline args)) with (proc_cmdline (argv0 :: args)).
  rewrite cmdline_args_proc by done. cbn [tail]. rewrite E. done.
Qed.

Lemma GetMappedInfo_map argv0 items cfg img : Forall item_ok items -> words items = ["map"; img] ->
  program argv0 -> Forall plain (argv0 :: render items) ->
  GetMappedInfo (Some (proc_cmdline (argv0 :: render items))) cfg =
    Some (0, set_imgname (fold_left apply_item items cfg) img).
Proof.
  intros H Hw Hp Hpl. pose proof (ParseArgs_items items cfg H) as E. rewrite Hw in E.
  by rewrite (GetMappedInfo_proc _ _ _ _ _ _ _ Hp Hpl E).
Qed.



(** An option that takes a string and comes last, without its value, is dropped
    without a word: the device or the cluster asked for is not what is used. *)
Lemma missing_value_ignored img cfg : head_is img "-" = false ->
  ParseArgs ["map"; img; "-device"] cfg = ParseArgs ["map"; img] cfg.
Proof.
  intros Hi. unfold ParseArgs. cbn [length parse_loop]. rewrite !(parse_word "map") by done. cbn [parse_loop].
  by rewrite !(parse_word img).
Qed.

(** [GetMappedInfo] stops at the first space of the command line: what follows
    in the same argument, and the arguments behind it, are not seen. *)
Example cmdline_cut_at_space :
  exists cfg, GetMappedInfo (Some (proc_cmdline ["cypre_nbd"; "map"; "my blob"; "-readonly"])) NBDConfig_new = Some (0, cfg) /\
    imgname cfg = "my" /\ readonly cfg = false.
Proof. eexists. by vm_compute. Qed.
