(* ===== verification/NbdDevice.v ===== *)
(** * Mapping a block device

    The side of [cypre_nbd] that talks to the kernel: the search for a free
    device, the module, the sizes in sysfs and the list of the mapped devices
    (src/nbd/src/util.cpp), [NBDController] and [IOController] (nbd_ctrl.h,
    nbd_ctrl.cpp), [NBDWatchContext] (nbd_watch.cpp), and [NBDMgr::Connect],
    [Disconnect] and [List] (nbd_mgr.cpp).

    The kernel is a parameter: what a system call returns, and [errno], may
    depend on all the calls before it, which the log records.  A successful
    call is known by its result alone; [errno] is not changed by logging. *)

From Stdlib Require Import Ascii.
From S2P Require Import Prelude Codec Net IniParser Decimal NbdArgs.

#[local] Open Scope string_scope.
#[local] Open Scope Z_scope.

Definition NBD_BLKSIZE : Z := 4096.
Definition NBD_MAX_PATH : string := "/sys/module/nbd/parameters/nbds_max".
Definition NBD_PATH_PREFIX : string := "/sys/block/nbd".
Definition DEV_PATH_PREFIX : string := "/dev/nbd".
Definition CYPRE_ER_NONE_FREE_NBD : Z := -10001.

Definition NBD_FLAG_HAS_FLAGS : Z := 1.
Definition NBD_FLAG_READ_ONLY : Z := 2.
Definition NBD_FLAG_SEND_FLUSH : Z := 4.
Definition NBD_FLAG_SEND_TRIM : Z := 32.
Definition NBD_FLAG_CAN_MULTI_CONN : Z := 256.

(** ** The kernel *)

Inductive Ioctl : Type :=
  | NBD_SET_SOCK (sock : Z) | NBD_SET_BLKSIZE (n : Z) | NBD_SET_SIZE (n : Z) | NBD_SET_SIZE_BLOCKS (n : Z)
  | NBD_SET_FLAGS (n : Z) | NBD_SET_TIMEOUT (n : Z) | BLKROSET (arg : Z)
  | NBD_CLEAR_SOCK | NBD_DISCONNECT | NBD_DO_IT.

Inductive Call : Type :=
  | CAccess (path : string)
  | COpen (path : string)
  | CClose (fd : Z)
  | CIoctl (fd : Z) (op : Ioctl)
  | CSystem (command : string).

Inductive Event : Type :=
  | EvCall (c : Call) (ret : Z)
  | EvSocketpair (ret fst snd : Z).

Definition Log : Type := list Event.

(** [k_file]: what reading a file gives, if it can be opened. *)
Class NbdKernel : Type := {
  k_ret : Log -> Call -> Z;
  k_errno : Log -> Call -> Z;
  k_socketpair : Log -> Z * Z * Z;
  k_file : Log -> string -> option string
}.

(** Programs over the log. *)
Definition K (A : Type) : Type := Log -> A * Log.

#[export] Instance K_ret : MRet K := fun A a l => (a, l).
#[export] Instance K_bind : MBind K := fun A B f m l => let '(a, l') := m l in f a l'.

Section Calls.
Context `{NbdKernel}.

(** The result and [errno]. *)
Definition call (c : Call) : K (Z * Z) := fun l => ((k_ret l c, k_errno l c), l ++ [EvCall c (k_ret l c)])%list.

Definition socketpair : K (Z * Z * Z) := fun l =>
  let '(ret, a, b) := k_socketpair l in ((ret, a, b), l ++ [EvSocketpair ret a b])%list.

Definition read_file (path : string) : K (option string) := fun l => (k_file l path, l).

(** ** Names and numbers *)

Inductive ScanResult : Type := ScanEof | ScanMismatch | ScanInt (n : Z).

(** [sscanf(s, "/dev/nbd%d", &index)]: the literal, then the number, after
    spaces.  A number that is no [int] is truncated. *)
Fixpoint scan_literal (lit s : string) : option (option string) :=
  match lit, s with
  | "", _ => Some (Some s)
  | _, "" => None
  | String a lit', String c s' => if Ascii.eqb a c then scan_literal lit' s' else Some None
  end.

Definition sscanf_nbd (s : string) : ScanResult :=
  match scan_literal DEV_PATH_PREFIX s with
  | None => ScanEof
  | Some None => ScanMismatch
  | Some (Some rest) =>
      if String.eqb (lskip rest) "" then ScanEof
      else match strtoll rest with None => ScanMismatch | Some (n, _, _) => ScanInt (to_int n) end
  end.

Definition ParseNbdIndex (devpath : string) : Z :=
  match sscanf_nbd devpath with ScanEof => -1 | ScanMismatch => - EINVAL | ScanInt index => index end.

(** [ifs >> n] for an [int] and for a [uint64_t]. *)
Definition extract_int (text : string) : Z :=
  match strtoll text with None => 0 | Some (n, _, _) => Z.max INT_MIN (Z.min INT_MAX n) end.

Definition extract_u64 (text : string) : Z :=
  let s := lskip text in
  let negative := head_is s "-" in
  let s := if negative || head_is s "+" then str_tail s else s in
  if negb (starts_digit 10 s) then 0
  else
    let '(n, _) := digits 10 s 0 in
    if u64_max <? n then u64_max else if negative then wrap64 (- n) else n.

Definition GetNbdMaxCount : K Z :=
  '(ret, _) ← call (CAccess NBD_MAX_PATH);
  if negb (ret =? 0) then mret (-1)
  else
    file ← read_file NBD_MAX_PATH;
    mret (match file with Some text => extract_int text | None => -1 end).

Definition pid_path (index : Z) : string := NBD_PATH_PREFIX +:+ dec index +:+ "/pid".
Definition dev_path (index : Z) : string := DEV_PATH_PREFIX +:+ dec index.

(** ** A free device *)

(** The loop, and what follows it up to the sockets: the path of the device,
    empty if there is none.  [None]: [fuel] turns are not enough. *)
Fixpoint find_loop (fuel : nat) (nbds_max sock index : Z) : K (option string) :=
  match fuel with
  | O => mret None
  | S fuel' =>
      '(ret, _) ← call (CAccess (pid_path index));
      if ret =? 0 then find_loop fuel' nbds_max sock (index + 1)
      else
        '(ret, _) ← call (COpen (dev_path index));
        if ret <? 0 then
          if (ret =? - EPERM) && negb (nbds_max =? -1) && (index <? nbds_max - 1)
          then find_loop fuel' nbds_max sock (index + 1) else mret (Some "")
        else
          let devfd := ret in
          '(ret, _) ← call (CIoctl devfd (NBD_SET_SOCK sock));
          if ret <? 0 then
            _ ← call (CClose devfd);
            find_loop fuel' nbds_max sock (index + 1)
          else if ret =? 0 then
            _ ← call (CIoctl devfd NBD_CLEAR_SOCK);
            _ ← call (CClose devfd);
            mret (Some (dev_path index))
          else mret (Some "")
  end.

Definition FindUnusedNbdDevice (fuel : nat) : K (option string) :=
  nbds_max ← GetNbdMaxCount;
  '(ret, fst, snd) ← socketpair;
  if ret <? 0 then mret (Some "")
  else
    result ← find_loop fuel nbds_max fst 0;
    _ ← call (CClose fst);
    _ ← call (CClose snd);
    mret result.

(** ** The controller *)

Record NBDController : Type := mkNBDController { nbd_fd_ : Z; nbd_index_ : Z }.
Definition NBDController_new : NBDController := mkNBDController (-1) (-1).

Definition ClearUp (c : NBDController) : K NBDController :=
  if nbd_fd_ c <? 0 then mret c
  else _ ← call (CClose (nbd_fd_ c)); mret NBDController_new.

(** [flag] is an [int]. *)
Definition CheckSetReadOnly (nbdfd flag : Z) : K (Z * Z) :=
  let arg := if Z.land flag NBD_FLAG_READ_ONLY =? 0 then 0 else 1 in
  '(ret, errno) ← call (CIoctl nbdfd (BLKROSET arg));
  mret (if ret <? 0 then - errno else ret, errno).

Fixpoint set_socks (devfd : Z) (socks : list Z) : K (option Z) :=
  match socks with
  | [] => mret None
  | sock :: socks' =>
      '(ret, errno) ← call (CIoctl devfd (NBD_SET_SOCK sock));
      if ret <? 0 then mret (Some (- errno)) else set_socks devfd socks'
  end.

(** The [do] block: [ret] and [errno] where it is left. *)
Definition init_attrs (devfd timeout size flags : Z) : K (Z * Z) :=
  '(ret, errno) ← call (CIoctl devfd (NBD_SET_BLKSIZE NBD_BLKSIZE));
  if ret <? 0 then mret (ret, errno)
  else
    let blocks := size / NBD_BLKSIZE in
    '(ret, errno) ← call (CIoctl devfd (NBD_SET_SIZE_BLOCKS blocks));
    if ret <? 0 then mret (ret, errno)
    else
      _ ← call (CIoctl devfd (NBD_SET_FLAGS flags));
      '(ret, errno) ← CheckSetReadOnly devfd (to_int flags);
      if ret <? 0 then mret (ret, errno)
      else if 0 <=? timeout then call (CIoctl devfd (NBD_SET_TIMEOUT timeout))
      else mret (ret, errno).

Definition InitDevAttr (devfd : Z) (config : NBDConfig) (socks : list Z) (size flags : Z) : K Z :=
  failed ← set_socks devfd socks;
  match failed with
  | Some ret => mret ret
  | None =>
      '(ret, errno) ← init_attrs devfd (timeout config) size flags;
      if ret <? 0 then
        _ ← call (CIoctl devfd NBD_CLEAR_SOCK);
        mret (- errno)
      else mret ret
  end.

(** [IOController::SetUp]: the result, the controller and the configuration.
    [None]: the search for a device ran out of fuel. *)
Definition SetUp (fuel : nat) (c : NBDController) (config : NBDConfig) (socks : list Z) (size flags : Z)
    : K (option (Z * NBDController * NBDConfig)) :=
  found ← (if String.eqb (devpath config) "" then FindUnusedNbdDevice fuel else mret (Some (devpath config)));
  match found with
  | None => mret None
  | Some path =>
      let config := set_devpath config path in
      if String.eqb path "" then mret (Some (CYPRE_ER_NONE_FREE_NBD, c, config))
      else
        let index := ParseNbdIndex path in
        if index <? 0 then mret (Some (index, c, config))
        else
          '(ret, _) ← call (COpen path);
          if ret <? 0 then mret (Some (ret, c, config))
          else
            let devfd := ret in
            ret ← InitDevAttr devfd config socks size flags;
            if ret <? 0 then
              _ ← call (CClose devfd);
              mret (Some (ret, c, config))
            else mret (Some (0, mkNBDController devfd index, config))
  end.

(** [None]: the assertion fails. *)
Definition DisconnectByPath (devpath : string) : K (option Z) :=
  let index := ParseNbdIndex devpath in
  if index <? 0 then mret None
  else
    '(ret, errno) ← call (CAccess (NBD_PATH_PREFIX +:+ dec index));
    if ret <? 0 then mret (Some (- errno))
    else
      '(ret, errno) ← call (CAccess (pid_path index));
      if ret <? 0 then mret (Some (if errno =? ENOENT then 0 else - errno))
      else
        '(devfd, errno) ← call (COpen devpath);
        if devfd <? 0 then mret (Some (- errno))
        else
          '(ret, errno) ← call (CIoctl devfd NBD_DISCONNECT);
          _ ← call (CClose devfd);
          mret (Some (if ret <? 0 then - errno else ret)).

Definition Resize (c : NBDController) (size : Z) : K Z :=
  if nbd_fd_ c <? 0 then mret (-1)
  else '(ret, _) ← call (CIoctl (nbd_fd_ c) (NBD_SET_SIZE size)); mret ret.

(** A turn of [WatchFunc]: the size that is remembered. *)
Definition WatchFunc_turn (c : NBDController) (current_size new_size : Z) : K Z :=
  if (0 <? new_size) && negb (new_size =? current_size) then
    _ ← Resize c new_size;
    mret new_size
  else mret current_size.

(** ** Sizes *)

Definition int64 (z : Z) : bool := (- 9223372036854775808 <=? z) && (z <=? 9223372036854775807).
Definition to_int64 (z : Z) : Z := if z <? 9223372036854775808 then z else z - 18446744073709551616.

Definition GetSizeFromFile (path : string) : K Z :=
  file ← read_file path;
  mret (match file with None => - EINVAL | Some text => to_int64 (extract_u64 text) end).

Definition CheckSizeFromFile (path : string) (expected_size : Z) : K Z :=
  file ← read_file path;
  mret (match file with
        | None => - EINVAL
        | Some text =>
            let size := wrap64 (extract_u64 text * NBD_BLKSIZE) in
            if size =? 0 then 0 else if negb (size =? expected_size) then - EINVAL else 0
        end).

Definition sys_path (nbd_index : Z) (name : string) : string := "/sys/block/nbd" +:+ dec nbd_index +:+ name.

Definition CheckBlockSize (nbd_index expected_size : Z) : K Z :=
  ret ← CheckSizeFromFile (sys_path nbd_index "/queue/hw_sector_size") expected_size;
  if ret <? 0 then mret ret
  else
    ret ← CheckSizeFromFile (sys_path nbd_index "/queue/minimum_io_size") expected_size;
    mret (if ret <? 0 then ret else 0).

Definition CheckDeviceSize (nbd_index expected_size : Z) : K Z :=
  CheckSizeFromFile (sys_path nbd_index "/size") expected_size.

(** [None]: the product is no [int64_t]. *)
Definition GetDeviceSize (nbd_index : Z) : K (option Z) :=
  size ← GetSizeFromFile (sys_path nbd_index "/size");
  mret (if int64 (size * 512) then Some (size * 512) else None).

(** ** The module *)

(** The exit status of the command, or -1. *)
Definition run_command (command : string) : K Z :=
  '(status, _) ← call (CSystem command);
  mret (if (0 <=? status) && (Z.land status 127 =? 0) then Z.land (Z.shiftr status 8) 255 else -1).

(** The command is cut at 127 characters. *)
Definition module_load (module options : string) : K Z :=
  run_command (substring 0 127 ("/sbin/modprobe " +:+ module +:+ " " +:+ options)).

Definition LoadModule (cfg : NBDConfig) : K Z :=
  let param := (if nbds_max cfg =? 0 then "" else "nbds_max=" +:+ dec (nbds_max cfg)) +:+
               (if max_part cfg =? 0 then "" else " max_part=" +:+ dec (max_part cfg)) in
  '(ret, _) ← call (CAccess "/sys/module/nbd");
  if ret =? 0 then mret 0 else module_load "nbd" param.

(** ** The mapped devices *)

Definition PATH_MAX : nat := 4096.

(** [sscanf(buf, "%s %s", devname, dir)]: the two words, if there are. *)
Fixpoint after_word (s : string) : string :=
  match s with "" => "" | String c s' => if isspace c then s else after_word s' end.

Definition scan_mount (buf : string) : option (string * string) :=
  let devname := extract_word buf in
  let dir := extract_word (after_word (lskip buf)) in
  if String.eqb devname "" || String.eqb dir "" then None else Some (devname, dir).

(** The loop over the lines.  [None]: a name that does not fit [devname]. *)
Fixpoint mount_lines (fuel : nat) (text : string) (mount_map : gmap string string) : option (gmap string string) :=
  match fuel, text with
  | S fuel', String _ _ =>
      let '(buf, text) := fgets (PATH_MAX - 1) text in
      match scan_mount buf with
      | None => mount_lines fuel' text mount_map
      | Some (devname, dir) =>
          if slen devname <? 100 then mount_lines fuel' text (<[devname := dir]> mount_map) else None
      end
  | _, _ => Some mount_map
  end.

Definition GetMountList : K (option (gmap string string)) :=
  file ← read_file "/proc/mounts";
  mret (match file with None => Some ∅ | Some text => mount_lines (String.length text) text ∅ end).

Definition IsMounted (devpath : string) : K (option bool) :=
  mount_map ← GetMountList;
  mret (m ← mount_map; Some (bool_decide (is_Some (m !! devpath)))).

Record DeviceInfo : Type := mkDeviceInfo { di_pid : Z; di_size : Z; di_devpath : string; di_blob_id : string; di_mnt_point : string }.

(** The body of the loop of [NBDListIterator::Get] for one device: what it
    gives, if it does not [continue].  [None]: undefined behaviour below. *)
Definition device_info (index : Z) : K (option (option DeviceInfo)) :=
  let nbd_path := NBD_PATH_PREFIX +:+ dec index in
  '(ret, _) ← call (CAccess nbd_path);
  if negb (ret =? 0) then mret (Some None)
  else
    file ← read_file (nbd_path +:+ "/pid");
    match file with
    | None => mret (Some None)
    | Some text =>
        let pid := extract_int text in
        size ← GetDeviceSize index;
        match size with
        | None => mret None
        | Some size =>
            if size <? 0 then mret (Some None)
            else
              cmdline ← read_file ("/proc/" +:+ dec pid +:+ "/cmdline");
              match GetMappedInfo cmdline NBDConfig_new with
              | None => mret None
              | Some (r, config) =>
                  if r <? 0 then mret (Some None)
                  else
                    mount_map ← GetMountList;
                    mret (m ← mount_map;
                          Some (Some (mkDeviceInfo pid size (dev_path index) (imgname config)
                                        (default "" (m !! dev_path index)))))
              end
        end
    end.

(** The loop from [cur_index_] on, over the [n] devices that are left: the
    device found and the next [cur_index_]. *)
Fixpoint Get_loop (n : nat) (cur_index : Z) : K (option (option DeviceInfo * Z)) :=
  match n with
  | O => mret (Some (None, cur_index))
  | S n' =>
      info ← device_info cur_index;
      match info with
      | None => mret None
      | Some None => Get_loop n' (cur_index + 1)
      | Some (Some info) => mret (Some (Some info, cur_index + 1))
      end
  end.

Definition ListIterator_Get (cur_index : Z) : K (option (option DeviceInfo * Z)) :=
  nbd_max_count ← GetNbdMaxCount;
  Get_loop (Z.to_nat (nbd_max_count - cur_index)) cur_index.

(** [NBDMgr::List].  [None]: undefined behaviour below, or [fuel] devices are
    not enough. *)
Fixpoint List_loop (fuel : nat) (cur_index : Z) (infos : list DeviceInfo) : K (option (list DeviceInfo)) :=
  match fuel with
  | O => mret None
  | S fuel' =>
      got ← ListIterator_Get cur_index;
      match got with
      | None => mret None
      | Some (None, _) => mret (Some infos)
      | Some (Some info, cur_index) => List_loop fuel' cur_index (infos ++ [info])%list
      end
  end.

Definition List (fuel : nat) : K (option (list DeviceInfo)) := List_loop fuel 0 [].

End Calls.

(** ** Descriptors *)

(** What an event does to the number of times a descriptor is open. *)
Definition delta (fd : Z) (ev : Event) : Z :=
  match ev with
  | EvCall (COpen _) ret => if (0 <=? ret) && (ret =? fd) then 1 else 0
  | EvCall (CClose f) _ => if f =? fd then -1 else 0
  | EvSocketpair ret a b => if ret <? 0 then 0 else (if a =? fd then 1 else 0) + (if b =? fd then 1 else 0)
  | _ => 0
  end.

Definition held (fd : Z) (l : Log) : Z := foldr (fun ev n => delta fd ev + n) 0 l.

Lemma held_snoc fd l ev : held fd (l ++ [ev])%list = held fd l + delta fd ev.
Proof. unfold held. induction l as [|e l IH]; cbn [app foldr]; [lia|]. rewrite IH. lia. Qed.

(** A program whose results satisfy [Q], and what it adds to every
    descriptor. *)
Definition uses {A} (m : K A) (Q : A -> Prop) (f : A -> Z -> Z) : Prop :=
  forall l, Q (m l).1 /\ forall fd, held fd (m l).2 = held fd l + f (m l).1 fd.

Definition any {A} (a : A) : Prop := True.
Definition none {A} (a : A) (fd : Z) : Z := 0.

Lemma uses_ret {A} (a : A) (Q : A -> Prop) f : Q a -> (forall fd, f a fd = 0) -> uses (mret a) Q f.
Proof. intros HQ Hf l. unfold mret, K_ret. cbn [fst snd]. split; [done|]. intros fd. rewrite Hf. lia. Qed.

Lemma uses_bind {A B} (m : K A) (k : A -> K B) Q f R g : uses m Q f ->
  (forall a, Q a -> uses (k a) R (fun b fd => g b fd - f a fd)) -> uses (m ≫= k) R g.
Proof.
  intros Hm Hk l. destruct (Hm l) as [HQ Hf]. unfold mbind, K_bind. destruct (m l) as [a l1]. cbn [fst snd] in *.
  destruct (Hk a HQ l1) as [HR Hg]. destruct (k a l1) as [b l2]. cbn [fst snd] in *. split; [done|]. intros fd. rewrite Hg, Hf. lia.
Qed.

Lemma uses_weaken {A} (m : K A) Q f (R : A -> Prop) g : uses m Q f -> (forall a, Q a -> R a /\ forall fd, g a fd = f a fd) ->
  uses m R g.
Proof. intros Hm H l. destruct (Hm l) as [HQ Hf]. destruct (H _ HQ) as [HR Hg]. split; [done|]. intros fd. by rewrite Hg. Qed.

(** What the manual pages say of the results: [ioctl] does not return a
    positive number for these requests, and a call that fails sets [errno]. *)
Class NbdKernelLaws `{NbdKernel} : Prop := {
  ioctl_ret : forall l fd op, k_ret l (CIoctl fd op) <= 0;
  errno_set : forall l c, k_ret l c < 0 -> 0 < k_errno l c
}.

Section Descriptors.
Context `{NbdKernelLaws}.

Definition call_ok (c : Call) (r : Z * Z) : Prop :=
  (match c with CIoctl _ _ => r.1 <= 0 | _ => True end) /\ (r.1 < 0 -> 0 < r.2).

Lemma uses_call c : uses (call c) (call_ok c) (fun r fd => delta fd (EvCall c r.1)).
Proof.
  intros l. split; [|intros fd; apply held_snoc]. split; [|apply errno_set]. destruct c; cbn; try done. apply ioctl_ret.
Qed.

Lemma uses_read path : uses (read_file path) any none.
Proof. intros l. split; [done|]. intros fd. unfold none, read_file. cbn [fst snd]. lia. Qed.

Lemma uses_socketpair : uses socketpair any (fun '(ret, a, b) fd => delta fd (EvSocketpair ret a b)).
Proof. intros l. split; [done|]. intros fd. unfold socketpair. destruct (k_socketpair l) as [[ret a] b]. apply held_snoc. Qed.

(** The next call, its result in the context. *)
Ltac uses_step :=
  lazymatch goal with
  | |- uses (call _) _ _ => eapply uses_weaken; [apply uses_call|intros [? ?] [? ?]]
  | |- uses (mret _) _ _ => apply uses_ret
  | |- uses (if ?b then _ else _) _ _ => let E := fresh "E" in destruct b eqn:E
  | |- uses (mbind _ (call _)) _ _ => eapply uses_bind; [apply uses_call|intros [? ?] [? ?]]
  | |- uses (mbind _ (read_file _)) _ _ => eapply uses_bind; [apply uses_read|intros ? _]
  | |- uses (mbind _ (mret _)) _ _ => eapply uses_bind; [apply (uses_ret _ any none); done|intros ? _]
  end.
Ltac uses_done := unfold none, any in *; cbn in *; try done; split_and?; intros; cbn in *; b2p; try done; try lia; repeat (bcase; b2p; try lia).

Lemma uses_max : uses GetNbdMaxCount any none.
Proof. unfold GetNbdMaxCount. repeat uses_step; uses_done. Qed.

Lemma uses_find fuel max sock : forall index, uses (find_loop fuel max sock index) any none.
Proof.
  induction fuel as [|fuel IH]; intros index; cbn [find_loop]; repeat uses_step;
    try (eapply uses_weaken; [apply IH|intros ? _]); uses_done.
Qed.

Lemma uses_unused fuel : uses (FindUnusedNbdDevice fuel) any none.
Proof.
  unfold FindUnusedNbdDevice. eapply uses_bind; [apply uses_max|intros max _].
  eapply uses_bind; [apply uses_socketpair|intros [[ret a] b] _]. uses_step; [uses_step; uses_done|].
  eapply uses_bind; [apply uses_find|intros result _]. repeat uses_step; uses_done.
Qed.

Lemma uses_set_socks fd socks : uses (set_socks fd socks) (fun r => match r with Some ret => ret < 0 | None => True end) none.
Proof.
  induction socks as [|s socks IH]; cbn [set_socks]; repeat uses_step;
    try (eapply uses_weaken; [apply IH|intros ? ?]); uses_done.
Qed.

Lemma uses_readonly fd flag : uses (CheckSetReadOnly fd flag) (fun r => r.1 <= 0 /\ (r.1 < 0 -> 0 < r.2)) none.
Proof. unfold CheckSetReadOnly. repeat uses_step; uses_done. Qed.

Lemma uses_attrs fd timeout size flags :
  uses (init_attrs fd timeout size flags) (fun r => r.1 <= 0 /\ (r.1 < 0 -> 0 < r.2)) none.
Proof.
  unfold init_attrs. repeat first [uses_step | eapply uses_bind; [apply uses_readonly|intros [? ?] [? ?]]]; uses_done.
Qed.

Lemma uses_init fd config socks size flags : uses (InitDevAttr fd config socks size flags) (fun r => r <= 0) none.
Proof.
  unfold InitDevAttr. eapply uses_bind; [apply uses_set_socks|intros [r|] Hr]; [uses_step; uses_done|].
  eapply uses_bind; [apply uses_attrs|intros [r e] [? ?]]. repeat uses_step; uses_done.
Qed.

(** [SetUp] keeps the descriptor of the device when it succeeds, and none
    otherwise. *)
Definition setup_ok (c : NBDController) (img : string) (res : option (Z * NBDController * NBDConfig)) : Prop :=
  match res with
  | None => True
  | Some (r, c', config') => imgname config' = img /\ r <= 0 /\ (r = 0 -> 0 <= nbd_fd_ c' /\ 0 <= nbd_index_ c') /\ (r <> 0 -> c' = c)
  end.

Definition setup_fd (res : option (Z * NBDController * NBDConfig)) (fd : Z) : Z :=
  match res with Some (r, c', _) => if (r =? 0) && (nbd_fd_ c' =? fd) then 1 else 0 | None => 0 end.

Lemma uses_setup fuel c config socks size flags :
  uses (SetUp fuel c config socks size flags) (setup_ok c (imgname config)) setup_fd.
Proof.
  unfold SetUp. eapply (uses_bind _ _ any none).
  { destruct (String.eqb (devpath config) ""); [apply uses_unused|by apply uses_ret]. }
  intros [path|] _; [|uses_step; uses_done]. uses_step; [uses_step; uses_done|].
  uses_step; [uses_step; uses_done|]. uses_step. uses_step; [uses_step; uses_done|].
  eapply uses_bind; [apply uses_init|intros r ?]. repeat uses_step; uses_done.
Qed.

End Descriptors.

(** ** The first free device *)

Lemma scan_literal_app lit s : scan_literal lit (lit +:+ s) = Some (Some s).
Proof. induction lit as [|c lit IH]; cbn; [by destruct s|]. by rewrite Ascii.eqb_refl. Qed.

Lemma ParseNbdIndex_dev i : 0 <= i <= INT_MAX -> ParseNbdIndex (dev_path i) = i.
Proof.
  intros Hi. unfold ParseNbdIndex, sscanf_nbd, dev_path. rewrite scan_literal_app.
  destruct (dec_head i) as (c & s & E & Hc); [lia|]. pose proof (strtoll_dec i "") as Hs. rewrite str_append_nil_r in Hs.
  rewrite Hs by (done || unfold LONG_MAX, INT_MAX in *; lia). rewrite E, lskip_digit by done. cbn [String.eqb].
  unfold to_int, wrap32, INT_MAX in *. rewrite Z.mod_small by lia. by replace (i <? 2147483648) with true by lia.
Qed.

(** The devices while the search runs: those with a pid file, those that can be
    opened, and those a socket is attached to.  The request to attach one comes
    right after the device was opened. *)
Record DeviceTable `{NbdKernel} (mapped present busy : Z -> bool) : Prop := {
  dt_pid : forall l i, k_ret l (CAccess (pid_path i)) = (if mapped i then 0 else -1);
  dt_open : forall l i, if present i then 0 <= k_ret l (COpen (dev_path i)) else k_ret l (COpen (dev_path i)) = -1;
  dt_sock : forall l i s, present i = true ->
    let fd := k_ret l (COpen (dev_path i)) in
    k_ret (l ++ [EvCall (COpen (dev_path i)) fd])%list (CIoctl fd (NBD_SET_SOCK s)) = (if busy i then -1 else 0)
}.

(** The devices the search goes past. *)
Definition passed (mapped present busy : Z -> bool) (nbds_max i : Z) : bool :=
  mapped i || (if present i then busy i else negb (nbds_max =? -1) && (i <? nbds_max - 1)).

Section Search.
Context `{NbdKernel} (mapped present busy : Z -> bool) (Ht : DeviceTable mapped present busy).

Lemma find_loop_first max sock n : forall k fuel l, (k < fuel)%nat -> passed mapped present busy max n = false ->
  (forall i, n - Z.of_nat k <= i < n -> passed mapped present busy max i = true) ->
  (find_loop fuel max sock (n - Z.of_nat k) l).1 = Some (if present n then dev_path n else "").
Proof.
  induction k as [|k IH]; intros [|fuel] l Hf Hn Hp; try lia; cbn [find_loop]; unfold mbind, K_bind, call;
    rewrite (dt_pid _ _ _ Ht).
  - replace (n - Z.of_nat 0) with n by lia. unfold passed in Hn. destruct (mapped n); [done|]. cbn [orb Z.eqb] in *.
    pose proof (dt_open _ _ _ Ht (l ++ [EvCall (CAccess (pid_path n)) (-1)])%list n) as Ho.
    destruct (present n) eqn:Ep.
    + replace (_ <? 0) with false by lia. rewrite (dt_sock _ _ _ Ht) by done. by rewrite Hn.
    + rewrite Ho. cbn [Z.ltb Z.compare]. change (-1 =? - EPERM) with true. cbn [andb]. by rewrite Hn.
  - set (i := n - Z.of_nat (S k)). assert (Hi : passed mapped present busy max i = true) by (apply Hp; lia).
    assert (Hnext : forall l, (find_loop fuel max sock (i + 1) l).1 = Some (if present n then dev_path n else "")).
    { intros l'. replace (i + 1) with (n - Z.of_nat k) by lia. apply IH; [lia|done|]. intros j Hj. apply Hp. lia. }
    unfold passed in Hi. destruct (mapped i); [apply Hnext|]. cbn [orb Z.eqb] in *.
    pose proof (dt_open _ _ _ Ht (l ++ [EvCall (CAccess (pid_path i)) (-1)])%list i) as Ho.
    destruct (present i) eqn:Ep.
    + replace (_ <? 0) with false by lia. rewrite (dt_sock _ _ _ Ht) by done. rewrite Hi. apply Hnext.
    + rewrite Ho. cbn [Z.ltb Z.compare]. change (-1 =? - EPERM) with true. cbn [andb]. rewrite Hi. apply Hnext.
Qed.

End Search.

(** the search for a device ends and takes the first free one.  With the
    devices before number [n] mapped, held by another program, or absent below
    the limit of the module, and [n] neither, it returns the path of [n] if it
    can be opened, and the empty string otherwise; it leaves no descriptor
    behind, and the controller reads the number [n] back from the path. *)
Theorem unused_device_found `{NbdKernelLaws} mapped present busy fuel l n :
  DeviceTable mapped present busy -> (forall l', (k_socketpair l').1.1 = 0) -> 0 <= n <= INT_MAX -> n < Z.of_nat fuel ->
  let max := (GetNbdMaxCount l).1 in
  (forall i, 0 <= i < n -> passed mapped present busy max i = true) -> passed mapped present busy max n = false ->
  (FindUnusedNbdDevice fuel l).1 = Some (if present n then dev_path n else "") /\
  (forall fd, held fd (FindUnusedNbdDevice fuel l).2 = held fd l) /\ ParseNbdIndex (dev_path n) = n.
Proof.
  intros Ht Hs Hn Hf max Hp Hn'. split; [|split; [|by apply ParseNbdIndex_dev]].
  - unfold FindUnusedNbdDevice, mbind, K_bind. unfold max in *. destruct (GetNbdMaxCount l) as [m l1]. cbn [fst] in *.
    unfold socketpair. pose proof (Hs l1) as E. destruct (k_socketpair l1) as [[r a] b]. cbn in E. subst r. cbn [Z.ltb Z.compare].
    pose proof (find_loop_first _ _ _ Ht m a n (Z.to_nat n) fuel (l1 ++ [EvSocketpair 0 a b])%list) as Hl.
    replace (n - Z.of_nat (Z.to_nat n)) with 0 in Hl by lia. specialize (Hl ltac:(lia) Hn' Hp).
    by destruct (find_loop fuel m a 0 (l1 ++ [EvSocketpair 0 a b])%list).
  - intros fd. destruct (uses_unused fuel l) as [_ E]. rewrite (E fd). unfold none. lia.
Qed.

(** A machine with three devices: 0 is mapped, 1 is held by another program. *)
#[local] Instance demo_kernel : NbdKernel := {|
  k_ret l c :=
    match c with
    | CAccess p => if String.eqb p "/sys/block/nbd0/pid" || String.eqb p NBD_MAX_PATH then 0 else -1
    | COpen p => if String.eqb p "/dev/nbd0" || String.eqb p "/dev/nbd1" || String.eqb p "/dev/nbd2" then 7 else -1
    | CIoctl _ (NBD_SET_SOCK _) =>
        match last l with Some (EvCall (COpen p) _) => if String.eqb p "/dev/nbd1" then -1 else 0 | _ => 0 end
    | _ => 0
    end;
  k_errno l c := EINVAL;
  k_socketpair l := (0, 3, 4);
  k_file l p := if String.eqb p NBD_MAX_PATH then Some "16" else None
|}.

#[local] Instance demo_kernel_laws : NbdKernelLaws.
Proof.
  split; [|done]. intros l fd op. destruct op; try done. cbn. destruct (last l) as [[[] |]|]; try done. by destruct (String.eqb _ _).
Qed.

Lemma unused_device_found_witness : (FindUnusedNbdDevice 3 []).1 = Some "/dev/nbd2".
Proof.
  refine (proj1 (unused_device_found (fun i => k_ret [] (CAccess (pid_path i)) =? 0)
    (fun i => k_ret [] (COpen (dev_path i)) =? 7) (fun i => String.eqb (dev_path i) "/dev/nbd1") 3 [] 2 _ _ _ _ _ _)).
  - split.
    + intros l i. cbn. by destruct (_ || _).
    + intros l i. cbn. by destruct (_ || _).
    + intros l i s _. cbn. by rewrite last_snoc.
  - done.
  - unfold INT_MAX. lia.
  - lia.
  - intros i Hi. assert (i = 0 \/ i = 1) as [-> | ->] by lia; by vm_compute.
  - by vm_compute.
Defined.

(** ** What [list] prints *)

(** Nothing changes while the tool reads. *)
Record Quiet `{NbdKernel} : Prop := {
  quiet_access : forall l p, k_ret l (CAccess p) = k_ret [] (CAccess p);
  quiet_file : forall l p, k_file l p = k_file [] p
}.

Section Listing.
Context `{NbdKernel} (Hq : Quiet).

(** The row of a device, and the number of devices. *)
Definition row (i : Z) : option (option DeviceInfo) := (device_info i []).1.
Definition device_count : Z := (GetNbdMaxCount []).1.

(** A program that reads gives the same at all times. *)
Definition steady {A} (m : K A) : Prop := forall l, (m l).1 = (m []).1.

Lemma steady_ret {A} (a : A) : steady (mret a).
Proof. done. Qed.

Lemma steady_bind {A B} (m : K A) (k : A -> K B) : steady m -> (forall a, steady (k a)) -> steady (m ≫= k).
Proof.
  intros Hm Hk l. unfold mbind, K_bind. pose proof (Hm l) as E. destruct (m l) as [a l1], (m []) as [a' l2]. cbn in E. subst a'.
  by rewrite (Hk a l1), (Hk a l2).
Qed.

Lemma steady_read p : steady (read_file p).
Proof. intros l. cbn. apply (quiet_file Hq). Qed.

Lemma steady_access {B} p (k : Z -> K B) : (forall z, steady (k z)) ->
  steady ('(ret, _) ← call (CAccess p); k ret).
Proof.
  intros Hk l. unfold mbind, K_bind, call. rewrite (quiet_access Hq l p). rewrite Hk. by rewrite (Hk _ (_ ++ _)%list).
Qed.

Lemma device_info_steady i : steady (device_info i).
Proof.
  unfold device_info. apply steady_access. intros z. destruct (negb _); [done|].
  apply steady_bind; [apply steady_read|]. intros [text|]; [|done].
  apply steady_bind.
  { apply steady_bind; [|intros; apply steady_ret]. apply steady_bind; [apply steady_read|intros; apply steady_ret]. }
  intros [size|]; [|done]. destruct (size <? 0); [done|]. apply steady_bind; [apply steady_read|]. intros cmdline.
  destruct (GetMappedInfo _ _) as [[r cfg]|]; [|done]. destruct (r <? 0); [done|].
  apply steady_bind; [|intros; apply steady_ret]. apply steady_bind; [apply steady_read|intros; apply steady_ret].
Qed.

Lemma count_steady : steady GetNbdMaxCount.
Proof.
  apply steady_access. intros z. destruct (negb _); [apply steady_ret|].
  apply steady_bind; [apply steady_read|intros; apply steady_ret].
Qed.

(** The rows from [i] on, [n] of them. *)
Fixpoint rows (n : nat) (i : Z) : list DeviceInfo :=
  match n with
  | O => []
  | S n' => match row i with Some (Some info) => info :: rows n' (i + 1) | _ => rows n' (i + 1) end
  end.

Lemma Get_loop_rows n : forall i l, (forall j, i <= j < i + Z.of_nat n -> is_Some (row j)) ->
  match (Get_loop n i l).1 with
  | None => False
  | Some (None, _) => rows n i = []
  | Some (Some info, j) => i < j <= i + Z.of_nat n /\ rows n i = info :: rows (Z.to_nat (i + Z.of_nat n - j)) j
  end.
Proof.
  induction n as [|n IH]; intros i l Hr; [done|]. cbn [Get_loop rows]. unfold mbind, K_bind.
  pose proof (device_info_steady i l) as E. fold (row i) in E. destruct (device_info i l) as [r l1]. cbn [fst] in E. subst r.
  destruct (Hr i ltac:(lia)) as [r Er]. rewrite Er in *. destruct r as [info|].
  - cbn. split; [lia|]. by replace (Z.to_nat (i + Z.of_nat (S n) - (i + 1))) with n by lia.
  - specialize (IH (i + 1) l1). destruct (Get_loop n (i + 1) l1).1 as [[[info|] j]|]; [|apply IH; intros; apply Hr; lia..].
    destruct IH as [Hj ->]; [intros; apply Hr; lia|]. split; [lia|]. do 3 f_equal. lia.
Qed.

Lemma List_loop_rows fuel : forall i infos l, 0 <= i -> (Z.to_nat (device_count - i) < fuel)%nat ->
  (forall j, i <= j < device_count -> is_Some (row j)) ->
  (List_loop fuel i infos l).1 = Some (infos ++ rows (Z.to_nat (device_count - i)) i)%list.
Proof.
  induction fuel as [|fuel IH]; intros i infos l Hi Hf Hr; [lia|]. cbn [List_loop]. unfold ListIterator_Get, mbind, K_bind.
  pose proof (count_steady l) as E. fold device_count in E. destruct (GetNbdMaxCount l) as [c l1]. cbn [fst] in E. subst c.
  pose proof (Get_loop_rows (Z.to_nat (device_count - i)) i l1) as Hg.
  destruct (Get_loop _ i l1) as [got l2]. cbn [fst] in Hg. destruct got as [[[info|] j]|].
  - destruct Hg as [Hj ->]; [intros; apply Hr; lia|]. rewrite IH; [|lia|lia|intros; apply Hr; lia].
    rewrite <- app_assoc. cbn [app]. do 4 f_equal; lia.
  - rewrite Hg by (intros; apply Hr; lia). by rewrite app_nil_r.
  - destruct Hg. intros; apply Hr; lia.
Qed.

Lemma rows_in n : forall i j info, i <= j < i + Z.of_nat n -> row j = Some (Some info) -> info ∈ rows n i.
Proof.
  induction n as [|n IH]; intros i j info Hj E; [lia|]. cbn [rows]. destruct (decide (i = j)) as [->|Hne].
  - rewrite E. left.
  - destruct (row i) as [[?|]|]; [right|..]; apply (IH _ j); done || lia.
Qed.

Lemma rows_from n : forall i info, info ∈ rows n i -> exists j, i <= j < i + Z.of_nat n /\ row j = Some (Some info).
Proof.
  induction n as [|n IH]; intros i info Hin; [by apply elem_of_nil in Hin|]. cbn [rows] in Hin.
  assert (Hrec : info ∈ rows n (i + 1) -> exists j, i <= j < i + Z.of_nat (S n) /\ row j = Some (Some info)).
  { intros (j & Hj & E)%IH. exists j. split; [lia|done]. }
  destruct (row i) as [[x|]|] eqn:E; [|by apply Hrec..]. apply elem_of_cons in Hin as [->|Hin]; [|by apply Hrec].
  exists i. split; [lia|done].
Qed.

(** Device [i] is mapped by a process with these arguments. *)
Record MappedBy (i pid sectors : Z) (argv0 : string) (items : list Item) (img : string) : Prop := {
  mb_access : k_ret [] (CAccess (NBD_PATH_PREFIX +:+ dec i)) = 0;
  mb_pid : k_file [] (pid_path i) = Some (dec pid +:+ endl);
  mb_size : k_file [] (sys_path i "/size") = Some (dec sectors +:+ endl);
  mb_cmdline : k_file [] ("/proc/" +:+ dec pid +:+ "/cmdline") = Some (proc_cmdline (argv0 :: render items));
  mb_pid_range : 0 <= pid <= INT_MAX;
  mb_size_range : 0 <= sectors <= 18014398509481983;
  mb_items : Forall item_ok items;
  mb_words : words items = ["map"; img];
  mb_program : program argv0;
  mb_plain : Forall plain (argv0 :: render items)
}.

Lemma extract_u64_dec n rest : 0 <= n <= u64_max -> starts_digit 10 rest = false -> extract_u64 (dec n +:+ rest) = n.
Proof.
  intros Hn Hr. unfold extract_u64. destruct (dec_head n) as (c & s & E & Hc); [lia|].
  assert (Hd : digits 10 (dec n +:+ rest) 0 = (n, rest)).
  { rewrite digits_dec by lia. destruct rest as [|d r]; [done|]. cbn in Hr |- *. by rewrite Hr. }
  rewrite E in Hd |- *. cbn [String.append] in *. rewrite lskip_digit by done. cbn [head_is].
  rewrite !(digit_other c) by done. cbn [orb starts_digit]. unfold is_digit in Hc. rewrite Hc. cbn [negb]. rewrite Hd.
  by replace (u64_max <? n) with false by lia.
Qed.

Lemma mapped_row i pid sectors argv0 items img m : MappedBy i pid sectors argv0 items img -> (GetMountList []).1 = Some m ->
  row i = Some (Some (mkDeviceInfo pid (sectors * 512) (dev_path i) img (default "" (m !! dev_path i)))).
Proof.
  intros [Ha Hp Hs Hc Hpr Hsr Hi Hw Hpg Hpl] Hm. unfold row, device_info, mbind, K_bind, call. rewrite Ha.
  cbn [Z.eqb negb]. unfold read_file. rewrite !(quiet_file Hq (_ ++ _)%list).
  rewrite <- str_append_assoc. change (NBD_PATH_PREFIX +:+ dec i +:+ "/pid") with (pid_path i). rewrite Hp.
  unfold GetDeviceSize, GetSizeFromFile, mbind, K_bind, read_file, mret, K_ret. rewrite (quiet_file Hq), Hs.
  rewrite extract_u64_dec by (done || unfold u64_max; lia). unfold to_int64. replace (sectors <? _) with true by lia.
  unfold int64. replace (_ && _) with true by lia. replace (sectors * 512 <? 0) with false by lia.
  assert (Ep : extract_int (dec pid +:+ endl) = pid).
  { unfold extract_int. rewrite strtoll_dec by (done || unfold LONG_MAX, INT_MAX in *; lia). unfold INT_MIN, INT_MAX in *. lia. }
  rewrite Ep, (quiet_file Hq), Hc.
  rewrite (GetMappedInfo_map _ _ _ img) by done. cbn [Z.ltb Z.compare imgname set_imgname].
  unfold GetMountList, mbind, K_bind, read_file, mret, K_ret in Hm |- *. cbn [fst] in Hm. rewrite (quiet_file Hq).
  cbn [fst]. rewrite Hm. done.
Qed.
End Listing.

(** [list] shows what is mapped.  If nothing changes meanwhile and no row is
    undefined, it ends; it shows every device whose pid file names a running
    [cypre_nbd map], with the blob that process was given, the size in bytes
    and the mount point, and shows nothing but such rows. *)
Theorem list_reports_mapped `{NbdKernel} fuel l : Quiet -> (Z.to_nat device_count < fuel)%nat ->
  (forall j, 0 <= j < device_count -> is_Some (row j)) ->
  exists infos, (List fuel l).1 = Some infos /\
    (forall i pid sectors argv0 items img m, 0 <= i < device_count -> MappedBy i pid sectors argv0 items img ->
       (GetMountList []).1 = Some m ->
       mkDeviceInfo pid (sectors * 512) (dev_path i) img (default "" (m !! dev_path i)) ∈ infos) /\
    (forall info, info ∈ infos -> exists i, 0 <= i < device_count /\ row i = Some (Some info)).
Proof.
  intros Hq Hf Hr. exists (rows (Z.to_nat device_count) 0). split_and!.
  - unfold List. rewrite (List_loop_rows Hq); [|lia|rewrite Z.sub_0_r; lia|intros; apply Hr; lia]. by replace (device_count - 0) with device_count by lia.
  - intros i pid sectors argv0 items img m Hi Hm Hml. apply (rows_in _ _ i); [lia|]. by eapply mapped_row.
  - intros info (j & Hj & E)%rows_from. exists j. split; [lia|done].
Qed.

(** Two devices, the second mapped and mounted. *)
Definition demo_argv : list Item := [IWord "map"; IOpt false true (OTimeout 30); IWord "bb-1"].

#[local] Instance demo_sysfs : NbdKernel := {|
  k_ret l c := match c with CAccess p => if String.eqb p "/sys/block/nbd1" || String.eqb p NBD_MAX_PATH then 0 else -1 | _ => -1 end;
  k_errno l c := ENOENT;
  k_socketpair l := (0, 3, 4);
  k_file l p :=
    if String.eqb p NBD_MAX_PATH then Some "2"
    else if String.eqb p "/sys/block/nbd1/pid" then Some ("77" +:+ endl)
    else if String.eqb p "/sys/block/nbd1/size" then Some ("2048" +:+ endl)
    else if String.eqb p "/proc/77/cmdline" then Some (proc_cmdline ("cypre_nbd" :: render demo_argv))
    else if String.eqb p "/proc/mounts" then Some ("/dev/nbd1 /mnt xfs rw 0 0" +:+ endl)
    else None
|}.

Definition demo_mounts : gmap string string := {["/dev/nbd1" := "/mnt"]}.

Lemma demo_mapped : MappedBy (H := demo_sysfs) 1 77 2048 "cypre_nbd" demo_argv "bb-1".
Proof.
  split; [by vm_compute..| | | | | |].
  - unfold INT_MAX. lia.
  - lia.
  - repeat constructor; cbn; unfold INT_MAX; lia || done.
  - done.
  - by left.
  - unfold plain. by apply (bool_decide_unpack _).
Qed.

Lemma list_reports_mapped_witness : exists infos, (List (H := demo_sysfs) 3 []).1 = Some infos /\
  mkDeviceInfo 77 (2048 * 512) (dev_path 1) "bb-1" (default "" (demo_mounts !! dev_path 1)) ∈ infos.
Proof.
  destruct (list_reports_mapped (H := demo_sysfs) 3 []) as (infos & E & Hin & _).
  - by split.
  - by vm_compute.
  - intros j Hj. change (device_count (H := demo_sysfs)) with 2 in Hj.
    assert (j = 0 \/ j = 1) as [-> | ->] by lia; vm_compute; by eexists.
  - exists infos. split; [exact E|]. apply (Hin 1 77 2048 "cypre_nbd" demo_argv "bb-1" demo_mounts).
    + change (device_count (H := demo_sysfs)) with 2. lia.
    + exact demo_mapped.
    + vm_compute. reflexivity.
Defined.

(** ** Defects *)

(** The sector size in sysfs is in bytes and is multiplied by the block size:
    a kernel that took the block size is always refused. *)
Lemma block_size_check_fails `{NbdKernel} i l :
  k_file l (sys_path i "/queue/hw_sector_size") = Some (dec NBD_BLKSIZE +:+ endl) ->
  (CheckBlockSize i NBD_BLKSIZE l).1 = - EINVAL.
Proof.
  intros E. unfold CheckBlockSize, CheckSizeFromFile, mbind, K_bind, read_file, mret, K_ret. rewrite E.
  rewrite extract_u64_dec by (done || unfold u64_max, NBD_BLKSIZE; lia). done.
Qed.

(** When the second socket is refused, the first one stays attached: the device
    is closed without [NBD_CLEAR_SOCK]. *)
Lemma first_socket_stays `{NbdKernel} fd config s1 s2 socks size flags l :
  0 <= k_ret l (CIoctl fd (NBD_SET_SOCK s1)) ->
  let l1 := (l ++ [EvCall (CIoctl fd (NBD_SET_SOCK s1)) (k_ret l (CIoctl fd (NBD_SET_SOCK s1)))])%list in
  k_ret l1 (CIoctl fd (NBD_SET_SOCK s2)) < 0 ->
  InitDevAttr fd config (s1 :: s2 :: socks) size flags l =
    (- k_errno l1 (CIoctl fd (NBD_SET_SOCK s2)), l1 ++ [EvCall (CIoctl fd (NBD_SET_SOCK s2)) (k_ret l1 (CIoctl fd (NBD_SET_SOCK s2)))])%list.
Proof.
  intros H1 l1 H2. unfold InitDevAttr. cbn [set_socks]. unfold mbind, K_bind, call. replace (k_ret l _ <? 0) with false by lia.
  fold l1. by replace (k_ret l1 _ <? 0) with true by lia.
Qed.

(** The size is remembered although the device was not resized: it is not tried
    again. *)
Lemma failed_resize_forgotten `{NbdKernel} c size l : 0 < size -> nbd_fd_ c < 0 ->
  WatchFunc_turn c 0 size l = (size, l) /\ WatchFunc_turn c size size l = (size, l).
Proof.
  intros Hs Hc. unfold WatchFunc_turn, Resize, mbind, K_bind. rewrite Z.eqb_refl.
  replace (nbd_fd_ c <? 0) with true by lia. replace (0 <? size) with true by lia. by replace (size =? 0) with false by lia.
Qed.

(** A [modprobe] that fails is taken as a module that was loaded. *)
Lemma modprobe_failure_not_negative `{NbdKernel} cfg l : 0 <> k_ret l (CAccess "/sys/module/nbd") ->
  (forall l' command, k_ret l' (CSystem command) = 256) -> (LoadModule cfg l).1 = 1.
Proof.
  intros Ha Hs. unfold LoadModule, module_load, run_command, mbind, K_bind, call.
  replace (k_ret l _ =? 0) with false by lia. by rewrite Hs.
Qed.
