(* ===== verification/NbdMgr.v ===== *)
(** * The manager of a mapped device

    [NBDMgr] (src/nbd/src/nbd_mgr.cpp, nbd_mgr.h): [Connect] opens one socket
    pair and one handle on the blob for every connection, gives one end of each
    pair to the kernel and the other to a server (NbdReader.v, NbdServer.v);
    [BlobInstance::Open] and [GetBlobSize] (blob_instance.cpp) on the client
    library of ClientApi.v; the string helpers of public/plus.cpp it uses; and
    the destructor.

    What [Init] of the client library finds, the answers of the extent manager
    and the sizes of local files are parameters.  [None] is undefined behaviour
    or an exception below, the netlink controller, which no command line
    selects ([ParseArgs_no_netlink]), or fuel that ran out in the search for a
    device. *)

From Stdlib Require Import Ascii.
From S2P Require Import Prelude Status Codec Net IniParser Decimal Client ClientApi SpdkMgr NbdArgs NbdDevice.

#[local] Open Scope string_scope.
#[local] Open Scope Z_scope.

(** ** Strings *)

Definition is_trimmed (c : ascii) : bool := Ascii.eqb c " " || Ascii.eqb c "013" || Ascii.eqb c newline.

Fixpoint trim_left (s : string) : string :=
  match s with "" => "" | String c s' => if is_trimmed c then trim_left s' else s end.

Fixpoint trim_right (s : string) : string :=
  match s with
  | "" => ""
  | String c s' => match trim_right s' with "" => if is_trimmed c then "" else String c "" | r => String c r end
  end.

Definition StringTrim (str : string) : string := trim_right (trim_left str).

(** What lies before and after the first [c], if there is one. *)
Fixpoint cut_at (c : ascii -> bool) (s : string) : option (string * string) :=
  match s with
  | "" => None
  | String d s' => if c d then Some ("", s') else '(a, b) ← cut_at c s'; Some (String d a, b)
  end.

Definition SplitStr (Str : string) (Split : ascii) : string * string :=
  match cut_at (fun c => Ascii.eqb c Split) Str with
  | None | Some ("", _) => (Str, "")
  | Some (head, tail) => (StringTrim head, StringTrim tail)
  end.

(** The next field starts [separator.length()] behind the character found. *)
Fixpoint StringSplit_loop (fuel : nat) (separator src : string) : list string :=
  match fuel, src with
  | S fuel', String _ _ =>
      match cut_at (strchr separator) src with
      | None => [src]
      | Some (field, rest) =>
          field :: StringSplit_loop fuel' separator (substring (String.length separator - 1) (String.length rest) rest)
      end
  | _, _ => []
  end.

Definition StringSplit (src separator : string) : list string :=
  if String.eqb src "" || String.eqb separator "" then [] else StringSplit_loop (String.length src) separator src.

(** ** Blobs *)

Record BlobInstance : Type := mkBlobInstance {
  btestmem_ : bool; btestfile_ : bool; fd_ : Z; handle_ : option nat
}.

Definition is_test_file (blobid : string) : bool :=
  String.eqb blobid "test.iso" || String.eqb blobid "test.dat" || head_is blobid "/".

(** Programs that may not return. *)
Definition obind {A B} (m : K (option A)) (k : A -> K (option B)) : K (option B) :=
  r ← m; match r with None => mret None | Some a => k a end.
Definition lift {A} (a : option A) : K (option A) := mret a.
#[local] Notation "'let?' x := m 'in' k" := (obind m (fun x => k)) (at level 10, x pattern, m at level 200, k at level 200).

(** [fstat]: the size and whether it is a regular file, if it succeeds. *)
Class FileSizes : Type := { k_fstat : Log -> Z -> option (Z * bool); k_lseek : Log -> Z -> Z }.

Section Blobs.
Context `{NbdKernel} `{FileSizes}.

Definition BlobInstance_Open (rbd : ClusterRBD) (blobid : string) (reply : QueryBlobReply)
    : K (option (Z * BlobInstance * ClusterRBD)) :=
  if String.eqb blobid "" then mret (Some (- EINVAL, mkBlobInstance false false (-1) None, rbd))
  else
    let btestfile := is_test_file blobid in
    let btestmem := String.eqb blobid "testmem" in
    if btestmem then mret (Some (0, mkBlobInstance btestmem btestfile (-1) None, rbd))
    else if btestfile then
      '(fd, errno) ← call (COpen blobid);
      mret (Some (if fd <=? 0 then - errno else 0, mkBlobInstance btestmem btestfile fd None, rbd))
    else
      mret ('(rv, h, rbd) ← ClusterRBD_Open rbd blobid reply;
            Some (if rv <? 0 then rv else 0, mkBlobInstance btestmem btestfile (-1) h, rbd)).

Definition GetBlobSize (rbd : ClusterRBD) (b : BlobInstance) : K (option Z) := fun l =>
  (if btestmem_ b then Some 1073741824
   else if btestfile_ b then
     let by_seek := let es := k_lseek l (fd_ b) in Some (if 0 <? es then es else u64_max) in
     match k_fstat l (fd_ b) with
     | Some (size, regular) => if regular || (0 <? size) then Some (wrap64 size) else by_seek
     | None => by_seek
     end
   else get_blob_size rbd (handle_ b), l).

(** ** The manager *)

(** A server: its socket and its blob; the watch: its blob and the size. *)
Record NBDMgr : Type := mkNBDMgr {
  cyprerbd_ : ClusterRBD;
  socket_pairs_ : list (Z * Z);
  nbd_servers_ : list (Z * BlobInstance);
  nbd_ctrl_ : option NBDController;
  nbd_watch_ctx_ : option (BlobInstance * Z)
}.

(** What the world answers: the three results of [Init], and the extent manager
    on the [i]th [Open]. *)
Record ClusterAnswers : Type := mkClusterAnswers {
  ca_affinity : Z; ca_channel : Z; ca_senders : Z; ca_blob : nat -> QueryBlobReply
}.

(** The loop over the socket pairs: 0 or the error, and the pairs. *)
Fixpoint make_pairs (errno : Z) (n : nat) (pairs : list (Z * Z)) : K (Z * list (Z * Z)) :=
  match n with
  | O => mret (0, pairs)
  | S n' =>
      '(ret, fst, snd) ← socketpair;
      if ret <? 0 then mret (- errno, pairs) else make_pairs errno n' (pairs ++ [(fst, snd)])%list
  end.

(** The options and [Init] of the client library: 0 or the error. *)
Definition init_rbd (ans : ClusterAnswers) (cfg : NBDConfig) (em_ip : string) (em_port : Z) (rbd : ClusterRBD)
    : option (Z * ClusterRBD) :=
  if String.eqb em_ip "" then Some (CYPRE_OK, rbd)
  else
    let opt := CypreRBDOptions_new em_ip em_port in
    let proto := if nullio cfg then kNull else proto opt in
    _ ← mapM stoi (StringSplit (client_core_mask cfg) ",");
    Some (ClusterRBD_Init (ca_affinity ans) (ca_channel ans) (ca_senders ans)
            (mkCypreRBDOptions em_ip em_port proto (brpc_worker_thread_num opt) 16 20) rbd).

(** The loop over the servers; [file_size] is set by the first turn. *)
Fixpoint make_servers (ans : ClusterAnswers) (cfg : NBDConfig) (socks : list Z) (i : nat) (rbd : ClusterRBD)
    (servers : list (Z * BlobInstance)) (file_size : Z) : K (option (Z * Z * list (Z * BlobInstance) * ClusterRBD)) :=
  match socks with
  | [] => mret (Some (0, file_size, servers, rbd))
  | sock :: socks' =>
      let? (ret, blob, rbd) := BlobInstance_Open rbd (imgname cfg) (ca_blob ans i) in
      if ret <? 0 then mret (Some (ret, file_size, servers, rbd))
      else
        let? file_size := (if Nat.eqb i 0 then let? n := GetBlobSize rbd blob in mret (Some (to_int64 n))
                           else mret (Some file_size)) in
        if Nat.eqb i 0 && (file_size <=? 0) then mret (Some (-1, file_size, servers, rbd))
        else make_servers ans cfg socks' (S i) rbd (servers ++ [(sock, blob)])%list file_size
  end.

Definition connect_flags (cfg : NBDConfig) : Z :=
  let flags := Z.lor (Z.lor (Z.lor NBD_FLAG_SEND_FLUSH NBD_FLAG_SEND_TRIM) NBD_FLAG_HAS_FLAGS) NBD_FLAG_CAN_MULTI_CONN in
  if readonly cfg then Z.lor flags NBD_FLAG_READ_ONLY else flags.

(** [errno]: what a failed [socketpair] sets. *)
Definition Connect (fuel : nat) (errno : Z) (ans : ClusterAnswers) (cfg : NBDConfig) : K (option (Z * NBDMgr * NBDConfig)) :=
  let rbd := CypreClusterRBD_new in
  '(ret, pairs) ← make_pairs errno (Z.to_nat (multi_conns cfg)) [];
  if ret <? 0 then mret (Some (ret, mkNBDMgr rbd pairs [] None None, cfg))
  else
    let '(em_ip, em_port_str) := SplitStr (em_endpoint cfg) ":" in
    let? em_port := lift (if 0 <? slen em_port_str then stoi em_port_str else Some 0) in
    ret ← LoadModule cfg;
    if ret <? 0 then mret (Some (ret, mkNBDMgr rbd pairs [] None None, cfg))
    else if try_netlink cfg then mret None
    else
      let ctrl := NBDController_new in
      let? (ret, rbd) := lift (init_rbd ans cfg em_ip em_port rbd) in
      if negb (ret =? CYPRE_OK) then mret (Some (ret, mkNBDMgr rbd pairs [] (Some ctrl) None, cfg))
      else
        let? (ret, file_size, servers, rbd) := make_servers ans cfg (snd <$> pairs) 0 rbd [] 0 in
        if ret <? 0 then mret (Some (ret, mkNBDMgr rbd pairs servers (Some ctrl) None, cfg))
        else
          let? (ret, ctrl, cfg) := SetUp fuel ctrl cfg (fst <$> pairs) (wrap64 file_size) (connect_flags cfg) in
          if ret <? 0 then mret (Some (ret, mkNBDMgr rbd pairs servers (Some ctrl) None, cfg))
          else
            let? (ret, blob, rbd) := BlobInstance_Open rbd (imgname cfg) (ca_blob ans (length servers)) in
            if ret <? 0 then mret (Some (ret, mkNBDMgr rbd pairs servers (Some ctrl) None, cfg))
            else mret (Some (0, mkNBDMgr rbd pairs servers (Some ctrl) (Some (blob, file_size)), cfg)).

Definition Disconnect (devpath : string) : K (option Z) := DisconnectByPath devpath.

Fixpoint close_pairs (pairs : list (Z * Z)) : K unit :=
  match pairs with
  | [] => mret tt
  | (a, b) :: pairs' => _ ← call (CClose a); _ ← call (CClose b); close_pairs pairs'
  end.

(** The destructor, once the threads of the servers and of the watch have
    ended: the client library, the socket pairs, the controller. *)
Definition NBDMgr_destroy (m : NBDMgr) : K (option unit) :=
  let? _ := lift (Finalize (cyprerbd_ m)) in
  _ ← close_pairs (socket_pairs_ m);
  match nbd_ctrl_ m with
  | None => mret (Some tt)
  | Some c => _ ← ClearUp c; mret (Some tt)
  end.

End Blobs.

(** ** Descriptors *)

(** As [uses] of NbdDevice.v, for programs that may not return. *)
Definition owns {A} (m : K (option A)) (Q : A -> Prop) (f : A -> Z -> Z) : Prop :=
  forall l, match (m l).1 with
            | None => True
            | Some a => Q a /\ forall fd, held fd (m l).2 = held fd l + f a fd
            end.

Lemma owns_none {A} (Q : A -> Prop) f : owns (mret None) Q f.
Proof. done. Qed.

Lemma owns_ret {A} (a : A) (Q : A -> Prop) f : Q a -> (forall fd, f a fd = 0) -> owns (mret (Some a)) Q f.
Proof. intros HQ Hf l. unfold mret, K_ret. cbn [fst snd]. split; [done|]. intros fd. rewrite Hf. lia. Qed.

Lemma owns_bind {A B} (m : K A) (k : A -> K (option B)) Q f R g : uses m Q f ->
  (forall a, Q a -> owns (k a) R (fun b fd => g b fd - f a fd)) -> owns (m ≫= k) R g.
Proof.
  intros Hm Hk l. destruct (Hm l) as [HQ Hf]. unfold mbind, K_bind. destruct (m l) as [a l1]. cbn [fst snd] in *.
  specialize (Hk a HQ l1). destruct (k a l1) as [[b|] l2]; cbn [fst snd] in *; [|done].
  destruct Hk as [HR Hg]. split; [done|]. intros fd. rewrite Hg, Hf. lia.
Qed.

Lemma owns_obind {A B} (m : K (option A)) (k : A -> K (option B)) Q f R g : owns m Q f ->
  (forall a, Q a -> owns (k a) R (fun b fd => g b fd - f a fd)) -> owns (obind m k) R g.
Proof.
  intros Hm Hk l. specialize (Hm l). unfold obind, mbind, K_bind. destruct (m l) as [[a|] l1]; cbn [fst snd] in *; [|done].
  destruct Hm as [HQ Hf]. specialize (Hk a HQ l1). destruct (k a l1) as [[b|] l2]; cbn [fst snd] in *; [|done].
  destruct Hk as [HR Hg]. split; [done|]. intros fd. rewrite Hg, Hf. lia.
Qed.

Lemma owns_lift {A} (a : option A) : owns (lift a) any none.
Proof. intros l. unfold lift, mret, K_ret, none, any. cbn [fst snd]. destruct a; [|done]. split; [done|]. intros. lia. Qed.

Lemma owns_weaken {A} (m : K (option A)) (Q R : A -> Prop) f g : owns m Q f -> (forall a, Q a -> R a /\ forall fd, g a fd = f a fd) ->
  owns m R g.
Proof.
  intros Hm H l. specialize (Hm l). destruct (m l) as [[a|] l']; cbn [fst snd] in *; [|done]. destruct Hm as [HQ Hf].
  destruct (H a HQ) as [HR Hg]. split; [done|]. intros fd. by rewrite Hg.
Qed.

(** How often the ends of the pairs, and the device, hold a descriptor. *)
Definition pair_fds (pairs : list (Z * Z)) (fd : Z) : Z :=
  foldr (fun p n => (if p.1 =? fd then 1 else 0) + (if p.2 =? fd then 1 else 0) + n) 0 pairs.

Definition ctrl_fd (c : option NBDController) (fd : Z) : Z :=
  match c with Some c => if (0 <=? nbd_fd_ c) && (nbd_fd_ c =? fd) then 1 else 0 | None => 0 end.

Lemma pair_fds_snoc pairs a b fd :
  pair_fds (pairs ++ [(a, b)])%list fd = pair_fds pairs fd + (if a =? fd then 1 else 0) + (if b =? fd then 1 else 0).
Proof. unfold pair_fds. induction pairs as [|p pairs IH]; cbn [app foldr fst snd]; [lia|]. rewrite IH. lia. Qed.

Section Descriptors.
Context `{NbdKernelLaws} `{FileSizes}.

Lemma uses_pairs errno n : 0 < errno -> forall pairs,
  uses (make_pairs errno n pairs) (fun r => r.1 <= 0) (fun r fd => pair_fds r.2 fd - pair_fds pairs fd).
Proof.
  intros He. induction n as [|n IH]; intros pairs; cbn [make_pairs].
  { apply uses_ret; [done|]. intros fd. cbn [snd]. lia. }
  eapply uses_bind; [apply uses_socketpair|]. intros [[ret a] b] _. cbn [delta]. destruct (ret <? 0) eqn:E.
  - apply uses_ret; [cbn; lia|]. intros fd. cbn [snd]. lia.
  - eapply uses_weaken; [apply IH|]. intros r Hr. split; [done|]. intros fd. rewrite pair_fds_snoc. lia.
Qed.

Lemma uses_load cfg : uses (LoadModule cfg) any none.
Proof.
  unfold LoadModule, module_load, run_command. eapply uses_bind; [apply uses_call|]. intros [r e] _.
  destruct (r =? 0); [by apply uses_ret|]. eapply uses_bind; [apply uses_call|]. intros [s e'] _. by apply uses_ret.
Qed.

Lemma owns_blob rbd blobid reply : is_test_file blobid = false -> owns (BlobInstance_Open rbd blobid reply) any none.
Proof.
  intros Hf. unfold BlobInstance_Open. rewrite Hf. destruct (String.eqb blobid ""); [by apply owns_ret|].
  destruct (String.eqb blobid "testmem"); [by apply owns_ret|]. apply owns_lift.
Qed.

Lemma owns_size rbd b : owns (GetBlobSize rbd b) any none.
Proof.
  intros l. unfold GetBlobSize, any, none. cbn [fst snd].
  match goal with |- match ?x with _ => _ end => destruct x end; [|done]. split; [done|]. intros. lia.
Qed.

Lemma owns_servers ans cfg socks : is_test_file (imgname cfg) = false -> forall i rbd servers size,
  owns (make_servers ans cfg socks i rbd servers size) (fun r => r.1.1.1 <= 0) none.
Proof.
  intros Hf. induction socks as [|s socks IH]; intros i rbd servers size; cbn [make_servers]; [by apply owns_ret|].
  eapply owns_obind; [by apply owns_blob|]. intros [[ret blob] rbd'] _. destruct (ret <? 0) eqn:E; [apply owns_ret; [cbn; lia|done]|].
  eapply (owns_obind _ _ any none).
  { destruct (Nat.eqb i 0); [|by apply owns_ret]. eapply owns_obind; [apply owns_size|]. intros n _. by apply owns_ret. }
  intros size' _. destruct (_ && _); [by apply owns_ret|]. eapply owns_weaken; [apply IH|]. done.
Qed.

(** What the manager holds. *)
Definition mgr_fds (m : NBDMgr) (fd : Z) : Z := pair_fds (socket_pairs_ m) fd + ctrl_fd (nbd_ctrl_ m) fd.

Lemma uses_close_pairs pairs : uses (close_pairs pairs) any (fun _ fd => - pair_fds pairs fd).
Proof.
  induction pairs as [|[a b] pairs IH]; cbn [close_pairs]; [by apply uses_ret|].
  eapply uses_bind; [apply uses_call|]. intros [r1 e1] _. eapply uses_bind; [apply uses_call|]. intros [r2 e2] _.
  eapply uses_weaken; [apply IH|]. intros [] _. split; [done|]. intros fd. cbn [delta]. unfold pair_fds. cbn [foldr fst snd]. destruct (a =? fd), (b =? fd); lia.
Qed.

Lemma owns_destroy m : owns (NBDMgr_destroy m) any (fun _ fd => - mgr_fds m fd).
Proof.
  unfold NBDMgr_destroy, mgr_fds. eapply owns_obind; [apply owns_lift|]. intros ? _.
  eapply owns_bind; [apply uses_close_pairs|]. intros [] _. destruct (nbd_ctrl_ m) as [c|]; cbn [ctrl_fd].
  - unfold ClearUp. destruct (nbd_fd_ c <? 0) eqn:E.
    + replace (0 <=? nbd_fd_ c) with false by lia. eapply (owns_bind _ _ any none); [by apply uses_ret|]. intros ? _.
      apply owns_ret; [done|]. intros fd. unfold none. cbn [andb]. lia.
    + replace (0 <=? nbd_fd_ c) with true by lia. eapply (owns_bind _ _ any (fun _ fd => if nbd_fd_ c =? fd then -1 else 0)).
      { eapply uses_bind; [apply uses_call|]. intros [r e] _. apply uses_ret; [done|]. intros fd. cbn. lia. }
      intros ? _. apply owns_ret; [done|]. intros fd. unfold none. cbn [andb]. destruct (nbd_fd_ c =? fd); lia.
  - apply owns_ret; [done|]. intros fd. unfold none. lia.
Qed.

(** [Connect] returns no positive number, and what it leaves open is what the
    manager holds; [init]: the client library reports no positive error. *)
Definition connected (r : Z * NBDMgr * NBDConfig) : Prop := r.1.1 <= 0.

Ltac own_ret := apply owns_ret; [unfold connected; cbn [fst snd] in *; lia|];
  intros fd; unfold mgr_fds, none; change (pair_fds [] fd) with 0; cbn [fst snd socket_pairs_ nbd_ctrl_ ctrl_fd nbd_fd_ NBDController_new];
  change (0 <=? -1) with false; cbn [andb]; try lia.

Lemma owns_connect fuel errno ans cfg : 0 < errno -> is_test_file (imgname cfg) = false ->
  (forall ip port rbd r rbd', init_rbd ans cfg ip port rbd = Some (r, rbd') -> r <= 0) ->
  owns (Connect fuel errno ans cfg) connected (fun r fd => mgr_fds r.1.2 fd).
Proof.
  intros He Hf Hi. unfold Connect. eapply owns_bind; [by apply uses_pairs|]. intros [r pairs] Hr.
  destruct (r <? 0) eqn:E1; [own_ret|]. destruct (SplitStr _ _) as [ip port_str].
  eapply owns_obind; [apply owns_lift|]. intros port _. eapply owns_bind; [apply uses_load|]. intros loaded _.
  destruct (loaded <? 0) eqn:E2; [own_ret|]. destruct (try_netlink cfg); [apply owns_none|].
  eapply (owns_obind _ _ (fun r => r.1 <= 0) none).
  { intros l. unfold lift, mret, K_ret. cbn [fst snd]. destruct (init_rbd _ _ _ _ _) as [[ri rbd]|] eqn:Ei; [|done]. split; [by eapply Hi|]. intros. unfold none. lia. }
  intros [ri rbd] Hri. destruct (negb _); [own_ret|].
  eapply owns_obind; [by apply owns_servers|]. intros [[[rs size] servers] rbd'] Hrs.
  destruct (rs <? 0) eqn:E3; [own_ret|].
  eapply (owns_obind _ _ (setup_ok NBDController_new (imgname cfg) ∘ Some) (setup_fd ∘ Some)).
  { intros l. destruct (uses_setup fuel NBDController_new cfg (fst <$> pairs) (wrap64 size) (connect_flags cfg) l) as [HQ Hh].
    destruct (SetUp _ _ _ _ _ _ l) as [[a|] l']; cbn [fst snd compose] in *; [|done]. by split. }
  intros [[rc ctrl] cfg'] Hc. cbn [compose setup_ok] in Hc.
  destruct (rc <? 0) eqn:E4.
  { own_ret. cbn. destruct Hc as (_ & _ & _ & ->); [|lia]. cbn. replace (rc =? 0) with false by lia. cbn. lia. }
  assert (rc = 0) as -> by lia. destruct Hc as (Himg & _ & Hfd & _). specialize (Hfd eq_refl).
  eapply owns_obind; [apply owns_blob; by rewrite Himg|]. intros [[rb blob] rbd''] _.
  destruct (rb <? 0) eqn:E5; own_ret; cbn; replace (0 <=? nbd_fd_ ctrl) with true by lia; cbn; lia.
Qed.
End Descriptors.

Lemma init_rbd_negative ans cfg ip port rbd r rbd' : ca_senders ans <= 0 -> init_rbd ans cfg ip port rbd = Some (r, rbd') -> r <= 0.
Proof.
  intros Hs. unfold init_rbd. destruct (String.eqb ip ""); [by intros [= <- <-]|]. destruct (mapM _ _); [|done]. cbn.
  unfold ClusterRBD_Init. destruct (negb (ca_affinity ans =? 0)); [by intros [= <- <-]|].
  destruct (negb (ca_channel ans =? 0)); [by intros [= <- <-]|]. by intros [= <- <-].
Qed.

(** The manager when the client library is in another state. *)
Definition with_rbd (m : NBDMgr) (rbd : ClusterRBD) : NBDMgr :=
  mkNBDMgr rbd (socket_pairs_ m) (nbd_servers_ m) (nbd_ctrl_ m) (nbd_watch_ctx_ m).


(** ** A mapping that succeeds *)

(** The kernel carries out every call, on the device [n]. *)
Record WorkingKernel `{NbdKernel} (n : Z) : Prop := {
  wk_pair : forall l, (k_socketpair l).1.1 = 0;
  wk_module : forall l, k_ret l (CAccess "/sys/module/nbd") = 0;
  wk_open : forall l, 0 <= k_ret l (COpen (dev_path n));
  wk_ioctl : forall l fd op, k_ret l (CIoctl fd op) = 0
}.

(** The requests that configure the device. *)
Definition device_calls (fd : Z) (socks : list Z) (timeout size flags : Z) : Log :=
  (((fun s => EvCall (CIoctl fd (NBD_SET_SOCK s)) 0) <$> socks) ++
  ((fun op => EvCall (CIoctl fd op) 0) <$>
     [NBD_SET_BLKSIZE NBD_BLKSIZE; NBD_SET_SIZE_BLOCKS (size / NBD_BLKSIZE); NBD_SET_FLAGS flags;
      BLKROSET (if Z.land (to_int flags) NBD_FLAG_READ_ONLY =? 0 then 0 else 1)]) ++
  (if (0 <=? timeout)%Z then [EvCall (CIoctl fd (NBD_SET_TIMEOUT timeout)) 0] else []))%list.

Section Working.
Context `{NbdKernel} (n : Z) (Hk : WorkingKernel n).

Lemma make_pairs_ok errno k : forall pairs l, exists new l',
  make_pairs errno k pairs l = ((0, pairs ++ new)%list, l') /\ length new = k.
Proof.
  induction k as [|k IH]; intros pairs l; cbn [make_pairs].
  { exists [], l. by rewrite app_nil_r. }
  unfold mbind, K_bind, socketpair. pose proof (wk_pair n Hk l) as E. destruct (k_socketpair l) as [[r a] b]. cbn in E. subst r.
  cbn [Z.ltb Z.compare]. destruct (IH (pairs ++ [(a, b)])%list (l ++ [EvSocketpair 0 a b])%list) as (new & l' & E & Hl).
  exists ((a, b) :: new), l'. rewrite E, <- app_assoc. split; [done|]. cbn. by rewrite Hl.
Qed.

Lemma call_ioctl fd op l : call (CIoctl fd op) l = ((0, k_errno l (CIoctl fd op)), l ++ [EvCall (CIoctl fd op) 0])%list.
Proof. unfold call. by rewrite (wk_ioctl n Hk). Qed.

Lemma set_socks_ok fd socks : forall l,
  set_socks fd socks l = (None, l ++ ((fun s => EvCall (CIoctl fd (NBD_SET_SOCK s)) 0) <$> socks))%list.
Proof.
  induction socks as [|s socks IH]; intros l; cbn [set_socks]; [by cbn; rewrite app_nil_r|].
  unfold mbind, K_bind. rewrite call_ioctl. cbn [Z.ltb Z.compare]. rewrite IH. cbn. by rewrite <- app_assoc.
Qed.

Lemma InitDevAttr_ok fd config socks size flags l :
  InitDevAttr fd config socks size flags l = (0, l ++ device_calls fd socks (timeout config) size flags)%list.
Proof.
  unfold InitDevAttr, init_attrs, CheckSetReadOnly, mbind, K_bind, device_calls, mret, K_ret. rewrite set_socks_ok.
  destruct (0 <=? timeout config); repeat (rewrite call_ioctl; cbn [Z.ltb Z.compare]); f_equal; cbn [fmap list_fmap];
    by rewrite <- ?app_assoc, ?app_nil_r.
Qed.

Lemma SetUp_ok fuel c config socks size flags l : devpath config = dev_path n -> 0 <= n <= INT_MAX ->
  let fd := k_ret l (COpen (dev_path n)) in
  SetUp fuel c config socks size flags l =
    (Some (0, mkNBDController fd n, config),
     l ++ EvCall (COpen (dev_path n)) fd :: device_calls fd socks (timeout config) size flags)%list.
Proof.
  intros Hd Hn fd. unfold SetUp, mbind, K_bind. rewrite Hd. replace (String.eqb (dev_path n) "") with false by done.
  unfold mret, K_ret. replace (String.eqb (dev_path n) "") with false by done. rewrite ParseNbdIndex_dev by done.
  replace (n <? 0) with false by lia. unfold call. fold fd. replace (fd <? 0) with false by (pose proof (wk_open n Hk l); lia).
  rewrite InitDevAttr_ok. cbn [Z.ltb Z.compare timeout set_devpath]. rewrite <- app_assoc. cbn [app].
  destruct config; cbn in *; by rewrite Hd.
Qed.

End Working.

(** ** The handles *)

Definition cluster_blob (i : nat) : BlobInstance := mkBlobInstance false false (-1) (Some i).

(** A name that is a blob of the cluster. *)
Definition cluster_name (img : string) : bool :=
  negb (String.eqb img "") && negb (String.eqb img "testmem") && negb (is_test_file img).

(** The client library is up, and the handles from [k] on, [c] of them, are on
    a blob of [size] bytes. *)
Record handles_on (rbd : ClusterRBD) (k c : nat) (size : Z) : Prop := {
  ho_up : em_channel_ rbd = true /\ is_Some (cr_routers rbd);
  ho_next : next_stream rbd = (k + c)%nat;
  ho_streams : forall i, (k <= i < k + c)%nat -> exists h, streams rbd !! i = Some h /\ so_blob_size h = size
}.

Section Handles.
Context `{NbdKernel} `{FileSizes} (ans : ClusterAnswers) (img : string) (size ext : Z).
Context (Hb : forall i, ca_blob ans i = QbReplied 0 img size ext) (Hi : cluster_name img = true).

Lemma open_handle rbd k c l : handles_on rbd k c size -> forall i, exists rbd',
  BlobInstance_Open rbd img (ca_blob ans i) l = (Some (0, cluster_blob (k + c), rbd'), l) /\ handles_on rbd' k (S c) size.
Proof.
  intros [[Hu [rm Hrm]] Hn Hs] i. unfold cluster_name in Hi. b2p. unfold BlobInstance_Open, mret, K_ret.
  repeat match goal with E : _ = false |- _ => rewrite E end. rewrite Hb. unfold ClusterRBD_Open. rewrite Hu, Hrm. cbn [negb mbind option_bind].
  unfold Open. cbn [Z.eqb negb]. rewrite String.eqb_refl. cbn [negb]. unfold SetExtentIoProto. cbn [esio_proto_ RBDStream_new].
  rewrite Hn. destruct (proto (cr_options rbd)); cbn [negb Z.eqb CYPRE_OK]; cbn; eexists; (split; [done|]); split; cbn; eauto;
    intros j Hj; destruct (decide (j = k + c)%nat) as [->|Hne]; rewrite ?lookup_insert_eq, ?lookup_insert_ne by done;
    eauto; apply Hs; lia.
Qed.

Lemma make_servers_ok cfg socks : imgname cfg = img -> 0 < size <= LONG_MAX -> forall i rbd servers fsize l k c,
  handles_on rbd k c size -> (i = 0%nat \/ fsize = size) -> exists rbd',
    make_servers ans cfg socks i rbd servers fsize l =
      (Some (0, if (length socks =? 0)%nat then fsize else size,
             servers ++ imap (fun j s => (s, cluster_blob (k + c + j))) socks, rbd')%list, l) /\
    handles_on rbd' k (c + length socks) size.
Proof.
  intros Hg Hz. induction socks as [|s socks IH]; intros i rbd servers fsize l k c Hh Hf; cbn [make_servers].
  { exists rbd. cbn. rewrite app_nil_r, Nat.add_0_r. done. }
  rewrite Hg. destruct (open_handle rbd k c l Hh i) as (rbd1 & E & Hh1). unfold obind, mbind, K_bind. rewrite E. cbn [Z.ltb Z.compare].
  assert (Es : forall l', GetBlobSize rbd1 (cluster_blob (k + c)) l' = (Some size, l')).
  { intros l'. unfold GetBlobSize. cbn. destruct (ho_streams _ _ _ _ Hh1 (k + c)%nat) as (h & -> & <-); [lia|done]. }
  assert (Ef : (if Nat.eqb i 0 then let? n := GetBlobSize rbd1 (cluster_blob (k + c)) in mret (Some (to_int64 n))
                else mret (Some fsize)) l = (Some size, l)).
  { destruct (Nat.eqb_spec i 0) as [->|Hne]; [|destruct Hf as [?|Hf]; [lia|]; by rewrite Hf].
    unfold obind, mbind, K_bind. rewrite Es. unfold mret, K_ret, to_int64, LONG_MAX in *. by replace (size <? _) with true by lia. }
  unfold obind, mbind, K_bind in Ef. rewrite Ef. replace (size <=? 0) with false by lia. rewrite andb_false_r.
  destruct (IH (S i) rbd1 (servers ++ [(s, cluster_blob (k + c))])%list size l k (S c) Hh1 (or_intror eq_refl)) as (rbd' & -> & Hh').
  exists rbd'. split; [|cbn [length]; by replace (c + S (length socks))%nat with (S c + length socks)%nat by lia].
  cbn [length Nat.eqb]. rewrite <- app_assoc. cbn [app imap]. rewrite Nat.add_0_r.
  replace (if (length socks =? 0)%nat then size else size) with size by (by destruct (_ =? _)%nat).
  rewrite (imap_ext _ ((fun j s => (s, cluster_blob (k + c + j))) ∘ S)); [done|]. intros j x _. cbn. do 2 f_equal. lia.
Qed.

End Handles.

Lemma init_rbd_ok ans cfg ip port size : ip <> "" -> is_Some (mapM stoi (StringSplit (client_core_mask cfg) ",")) ->
  ca_affinity ans = 0 -> ca_channel ans = 0 -> ca_senders ans = 0 -> exists rbd,
  init_rbd ans cfg ip port CypreClusterRBD_new = Some (CYPRE_OK, rbd) /\ handles_on rbd 0 0 size.
Proof.
  intros Hip%String.eqb_neq [cores Hc] Ha Hch Hse. unfold init_rbd. rewrite Hip, Hc. cbn [mbind option_bind].
  unfold ClusterRBD_Init. rewrite Ha, Hch, Hse. eexists. split; [done|]. split; [by eauto|done|]. intros i Hi. lia.
Qed.


(** A kernel that carries out every call, and a cluster with one blob. *)
#[local] Instance working_kernel : NbdKernel := {|
  k_ret l c := match c with COpen _ => 7 | _ => 0 end;
  k_errno l c := EINVAL;
  k_socketpair l := (0, 10 + 2 * Z.of_nat (length l), 11 + 2 * Z.of_nat (length l));
  k_file l p := None
|}.

#[local] Instance no_files : FileSizes := {| k_fstat l fd := None; k_lseek l fd := -1 |}.

#[local] Instance working_kernel_laws : NbdKernelLaws.
Proof. by split; [intros l fd []|]. Qed.

Lemma working_kernel_works n : WorkingKernel n.
Proof. by split. Qed.

Definition demo_answers : ClusterAnswers := mkClusterAnswers 0 0 0 (fun _ => QbReplied 0 "bb-1" 8192 4096).

Definition demo_map : NBDConfig :=
  set_multi_conns (set_em_endpoint (set_devpath (set_imgname NBDConfig_new "bb-1") "/dev/nbd3") "10.0.0.1:8080") 2.



(** ** No command line selects the netlink controller *)

Definition keeps_netlink (cfg : NBDConfig) (t : Turn) : Prop :=
  match t with Returned _ _ cfg' | Parsed cfg' _ _ => try_netlink cfg' = try_netlink cfg | Skipped _ _ => True end.

Lemma flag_netlink args names found otherwise cfg : (forall args', keeps_netlink cfg (found args')) -> keeps_netlink cfg otherwise ->
  keeps_netlink cfg (flag_option args names found otherwise).
Proof. intros Hf Ho. unfold flag_option. destruct (argparse_flag _ _) as [[] ?]; [apply Hf|done]. Qed.

Lemma string_netlink args err cfg name set otherwise : (forall v, try_netlink (set cfg v) = try_netlink cfg) ->
  keeps_netlink cfg otherwise -> keeps_netlink cfg (string_option args err cfg name set otherwise).
Proof.
  intros Hs Ho. unfold string_option. destruct (argparse_witharg_string _ _ _) as [[[[] ret] err'] args']; [|done].
  destruct ret; cbn; auto.
Qed.

Lemma int_netlink args err cfg name set after invalid message otherwise :
  (forall c v, try_netlink (set c v) = try_netlink c) -> (forall c v, try_netlink (after c v) = try_netlink c) ->
  keeps_netlink cfg otherwise -> keeps_netlink cfg (int_option args err cfg name set after invalid message otherwise).
Proof.
  intros Hs Ha Ho. unfold int_option. destruct (argparse_witharg _ _ _) as [[[[] ret] err'] args']; [|done].
  destruct ret as [v|]; repeat case_match; cbn; rewrite ?Ha, ?Hs; done.
Qed.

Lemma parse_option_netlink args err cfg : keeps_netlink cfg (parse_option args err cfg).
Proof.
  unfold parse_option. repeat first [apply flag_netlink; [done|] | apply string_netlink; [done|] | apply int_netlink; [done..|]].
  by destruct args.
Qed.

Lemma ParseArgs_no_netlink args cfg r msg cmd cfg' : ParseArgs args cfg = Some (r, msg, cmd, cfg') ->
  try_netlink cfg' = try_netlink cfg.
Proof.
  assert (Hl : forall fuel before args err cfg s, parse_loop fuel before args err cfg = Some s ->
    try_netlink (match s with ScanReturned _ _ c | ScanDone c _ => c end) = try_netlink cfg).
  { clear. induction fuel as [|fuel IH]; intros before [|arg rest] err cfg s; cbn [parse_loop]; try (by intros [= <-]).
    pose proof (parse_option_netlink (arg :: rest) err cfg) as Hk.
    destruct (parse_option _ _ _); cbn in Hk; [by intros [= <-]|intros E%IH; congruence|apply IH]. }
  unfold ParseArgs. destruct (parse_loop _ _ _ _ _) as [s|] eqn:E; [|done]. apply Hl in E. cbn.
  destruct s as [r' m' c|c args']; [by intros [= _ _ _ <-]|]. rewrite <- E. unfold parse_command. intros [= Hp]. revert Hp.
  repeat case_match; by intros [= _ _ _ <-].
Qed.
